(* ===== verification/_CoqProject ===== *)
-Q . S2P
Prelude.v
Text.v
Models.v
Utf8.v
Validation.v
Wildcard.v
Policy.v
SkipMap.v
Index.v
IndexFacts.v
FsModel.v
Publication.v
FileFacts.v
PublicationFacts.v
ConcreteEnv.v
PublicationSafety.v
Lifecycle.v
Storage.v
StorageFacts.v
ConditionFacts.v
BucketFacts.v
Versions.v
VersionFacts.v
Listing.v
ListingFacts.v
Multipart.v
MultipartFacts.v
LifecycleExecutor.v
LifecycleFacts.v
Scenario.v
Witnesses.v
LifecycleWitnesses.v
Capture.v
Startup.v
StartupFacts.v
Sms.v
CaptureFacts.v
CommitFacts.v
Mail.v
MailFacts.v
Smtp.v
SmtpFacts.v
SmtpSession.v
MailFiles.v
MailStoreFacts.v
MailCommit.v
MailReads.v
MailWitnesses.v
Http.v
Cors.v
Checksums.v
ObjectHelpers.v
Routing.v
XmlDocuments.v
ObjectHandlers.v
ObjectWrites.v
MultipartRequests.v
Signatures.v
Authorization.v
ObjectRequests.v
DeleteDocument.v
LifecycleXml.v
BucketRequests.v
BucketListings.v
Azure.v
AzureBlobs.v
AzureContainers.v
PlainStore.v
HandlerRules.v
AuthFacts.v
ObjectReadFacts.v
ObjectWriteFacts.v
AccessFacts.v
DeleteFacts.v
XmlFacts.v
PresignedFacts.v
SmsFacts.v
HandlerWitnesses.v
RequestWitnesses.v
AzureFacts.v
