(* ===== verification/Prelude.v ===== *)
(** * Sqrzl emulator: a verification development

    Sqrzl is an emulator of cloud services written in Rust: object stores (S3, with
    Azure, GCS and OCI facades) and captured mail and SMS.  Its core, under
    [src/src/], is a store on the local file system: buckets are directories, an
    object is a directory with a data file and a metadata file, and every change of
    an object goes through a small write-ahead journal, so that a crash never shows
    half of a change.  Beside it an in-memory index answers listings, a policy
    engine decides access, a lifecycle executor deletes or moves objects, S3
    and Azure Blob requests are authenticated, authorized and answered over the
    store, mail received by SMTP is captured by transactions of its own, and text
    messages are kept with a simulator of their delivery.  This development models
    that core and proves what makes it correct.

    ** The parts and the files

    - [Prelude], [Text], [Utf8]: results, options, list lemmas and hints; Rust's
      string operations on byte strings, UTF-8 decoding and trimming.
    - [Models] ([error.rs], [models/*.rs]): errors with their status and code,
      objects, buckets, uploads, write conditions.  [Validation]
      ([utils/validation.rs]): names, keys and part sequences.
    - [Wildcard], [Policy] ([models/policy.rs]): the glob matcher with its
      backtracking state, decimal parsing to binary64 with IEEE comparison, canned
      ACLs and grants, and the evaluation of policy statements with every condition
      operator.
    - [SkipMap], [Index], [IndexFacts] ([storage/lockfree_index.rs]): the interface
      of the ordered concurrent map the code uses (crossbeam, a parameter with its
      documented laws, instantiated by a sorted list), the index of keys and
      directory children with its mutations, and their invariant.
    - [FsModel]: a file tree, the system calls the code makes, and programs that
      run against a schedule.  The schedule says of each call whether it succeeds,
      fails or kills the process, what a killed write or recursive deletion leaves
      behind, and what the clock shows.  [wp] is the weakest precondition over such
      programs, for runs without faults ([calm], or [calm_while] for a clock of which
      something is known) and for all schedules ([any_schedule], or [drawing] to say
      which random numbers they draw).
    - [Publication] ([storage/filesystem/publication.rs], the atomic file helpers
      of [storage/filesystem/io.rs]): staging, the journal, applying it, and
      recovery.  [FileFacts], [PublicationFacts] and [PublicationSafety] have the
      rules for each routine and the theorems.
    - [Storage], [Versions], [Listing], [Multipart] ([storage/filesystem.rs],
      [storage/filesystem/io.rs]): [FilesystemStorage] as operations on a [World]
      of disk, index, upload cache and the protection cache; their theorems are in
      [StorageFacts], [ConditionFacts], [BucketFacts], [VersionFacts],
      [ListingFacts] and [MultipartFacts].
    - [Startup] ([storage/filesystem/io.rs], [storage/upload_cancellation.rs],
      [storage/ownership.rs], the staged uploads of [storage/filesystem.rs]): taking
      the writer lock, the format marker, the scan of the root with the recovery of
      interrupted bucket creations, the rebuilt index, the retired vendor state and
      the recovery of cancelled uploads; theorems in [StartupFacts].
    - [Lifecycle], [LifecycleExecutor] ([models/lifecycle.rs], [lifecycle.rs]): the
      rules, the protection tests, and the executor over the interface
      [StorageOps], of which the file system store is an instance; theorems in
      [LifecycleFacts], against [Guarded] (what the executor needs of a store) and on
      the file system store.
    - [Capture], [CaptureFacts], [CommitFacts] ([capture.rs],
      [capture/budget.rs]): capture transactions with intent, files and marker,
      their recovery and rollback, and the budget.
    - [Mail], [Smtp], [MailFiles] ([mail/model.rs], [mail/budget.rs],
      [mail/mod.rs], [mail/smtp.rs], [mail/filesystem.rs]): messages, admission by
      size, fan-out to mailboxes, the SMTP session as a state machine over an input
      of bytes, and the mail store on disk; theorems in [MailFacts], [SmtpFacts],
      [SmtpSession], [MailStoreFacts], [MailCommit] and [MailReads].
    - [Http], [Routing], [Cors], [Checksums], [ObjectHelpers], [XmlDocuments]
      ([server/http.rs], [utils/request.rs], [utils/xml.rs], [utils/xml/parse.rs],
      [server/handlers/cors.rs], [server/handlers/object/*.rs]): requests and
      responses, path and host routing, CORS rules, checksum headers,
      preconditions, ranges, and the XML documents.
    - [ObjectHandlers], [ObjectWrites], [MultipartRequests], [ObjectRequests]
      ([server/handlers/object.rs]): the object requests over the interfaces
      [S3Storage] and [S3Uploads].  [DeleteDocument], [LifecycleXml],
      [BucketRequests], [BucketListings] ([server/handlers/bucket.rs] and
      [server/handlers/bucket/*.rs]): the bucket requests over [BucketOps], with
      the document readers and the pages of objects, versions, uploads and parts.
    - [Signatures], [Authorization] ([auth/*.rs], [server/handlers/auth*]):
      signature version 4 in the header and in the query, presigned URLs, the
      principal of a request, and the decision by policy, ACL and ownership.
    - [PlainStore] and [HandlerRules]: what the request theorems need of a store,
      as the class [PlainStore] with the file system store as an instance, and the
      rules for the shared parts of the handlers; theorems in [AuthFacts],
      [ObjectReadFacts], [ObjectWriteFacts], [XmlFacts], [AccessFacts] (over the
      class [RuledStore], again with the file system store as an instance),
      [DeleteFacts], [PresignedFacts] and, on pages of versions, at the end of
      [BucketListings].
    - [Sms] ([sms/model.rs], [sms/budget.rs], [sms/filesystem.rs],
      [sms/simulator.rs]): text messages with media, the store on disk with its peer
      index, destinations and callback records, and the simulator that answers and
      reports deliveries over a network that is a parameter; theorems in [SmsFacts].
    - [Azure], [AzureBlobs], [AzureContainers] ([providers/azure.rs],
      [providers/state.rs]): the Azure front door over the interfaces [AzureStore]
      and [AzureUploads]: conditions, leases, immutability and single-blob
      operations; Shared Key and service SAS, block lists, uploads, reads and
      deletions; containers with delayed deletion, listings and whole requests.
      [AzureFacts] has the class [AzurePlain], which adds to [PlainStore] what only
      this front door uses, with the file system store as an instance, and the
      theorems.
    - [ConcreteEnv], [Scenario], [Witnesses], [LifecycleWitnesses], [MailWitnesses],
      [HandlerWitnesses], [RequestWitnesses]: concrete instances of the parameters
      and stores built by running the operations, at which the theorems are applied.

    ** What the theorems show

    - Publication: under any schedule of failing calls and crashes, followed by any
      number of interrupted recoveries and one that finishes, a publication or a
      change of history has happened completely or not at all, the journal and the
      staging are gone, and the rest of the disk is as it was; without faults it
      succeeds, and recovery always can.
    - Objects: a put is read back; an interrupted put is read back as the old or
      the new object, and with versioning never loses the old one and ends under a
      drawn version id; other objects
      are not disturbed; deletion, conditional writes, metadata updates and range
      reads do what they say.
    - Buckets: creation, deletion of empty buckets, refusal to delete objects, and
      round trips of the documents kept with a bucket.
    - Listings: the index invariant, the equality of the index walk with the scan,
      the contents of each page, and that following the markers yields every entry
      once, for objects, common prefixes and versions.
    - Start-up: a store that opens has an index that agrees with its disk, a root of
      another kind is not touched, recovery removes only what an interrupted creation
      left, and cancelled uploads stay cancelled.
    - Multipart uploads and versions: which manifests are accepted, that assembly
      concatenates, the order and uniqueness of version listings.
    - Lifecycle: against any store that keeps the promises of [Guarded], an object
      protected at every time the clock may show is spared under any schedule; on the
      file system store an expiration rule deletes exactly the due, matching,
      unprotected objects of an unversioned bucket of at most 1000 keys.
    - Policies: the decision of a policy and of a canned ACL, soundness of the glob
      matcher, and where it is incomplete.
    - Capture and mail: a transaction happens completely or not at all, readers see
      a batch as a whole, the budget admits exactly the sum it states, the SMTP
      session terminates and refines an abstract protocol, and data is read as the
      reference says.
    - Requests, in a bucket without versioning and without faults: GET, HEAD and
      range answers are exact; a PUT is read back, unless the object it replaces had a
      customer key; held objects survive the object requests (an example shows that
      they do not survive a form upload); accepted checksums match; preconditions
      follow RFC 9110 where the code separates them.
    - Authentication: only a request with a genuine signature counts as the owner's,
      a generated URL is accepted until it expires, the decision on an object follows
      policy, ACL and ownership when enforcement is on, and a denied request changes
      nothing (an example shows that a copy reads its source without being asked).
    - Documents: what a Delete or lifecycle document is read as, and where prefixes,
      keys and references are lost.
    - Text messages: a delivery is decided and reported once under any schedule, an
      inbound message survives a failing callback, and no header can break the text
      of a callback request.
    - Azure: the lease actions refine a mutex, a blob under a hold, an unexpired
      policy or the lease of another survives every request that would change it, a locked policy only grows, and a page write
      changes exactly its pages.

    ** Conventions, bounds and fuel

    Data is kept at its width where the code depends on it: sizes are [N] with the
    64-bit bound written out where the source checks or saturates, timestamps are
    nanoseconds in [Z].  The loops with fuel are the glob matcher
    ([Wildcard.enough_fuel], a measure of both indices, proved sufficient), the
    batches of the delimited scan ([Listing.scan_fuel], one batch per key and one
    more, each batch advances the marker), the pages of a listing and of the
    versions (the page theorems give the bound), the blocks of a part file (one per
    byte at most), the lines of an SMTP session (the length of the input and one
    more, proved sufficient), the search for a boundary in a form (the length of the
    body), and the scan of a handler over all pages of a bucket, whose number of
    pages is an argument ([pages]) of the handlers.  Everything else is structural.
    Hash functions, serializers, UUIDs, the clock, date parsing, percent coding, the
    XML tokenizer and the header types of hyper are parameters with named laws
    ([EnvLaws], [StoreEnvLaws], [Digests], [Chrono], [PolicyEnv], [HttpLib],
    [QuickXml], [SigningEnv], [AzureEnv], [BlockXml] and the like); the laws say that a decoder inverts its
    encoder, that UUIDs have their textual form, and that hashed names are plain.

    ** What is not modelled

    - Concurrency: operations run one after the other, as under the per-object
      locks; the locks themselves, their table and the operation gate are left out.
      UUIDs may repeat in the safety theorems of the journal.
    - The file system: tests of existence do not fail, a directory is read as a
      snapshot in an order given by the parameter [dir_order], a crash keeps what
      was written (the process dies, the machine does not), and sorting without
      stability is modelled as stable.
    - Object directories are named by a 64-bit hash; theorems on several objects
      assume that their directories differ.
    - The indexed store (it delegates), the listeners and the spooling of streamed
      bodies, the GCS and OCI front doors, the mail and SMS provider facades, the
      administration and tool interfaces, configuration and metrics: input and
      output, glue, or protocols over the modelled store that repeat the shape of the
      S3 and Azure ones.
    - Of the Azure front door the answers to a body that is too large or cut off,
      which the listener asks for, and its locks.

    ** Plan

    The parts above are complete as described.  What would come next: the GCS
    front door with its resumable uploads over the same interfaces, multipart
    completion from end to end over the file system store, and the spooling of
    streamed bodies. *)

From stdpp Require Export sorting.
From stdpp Require Export base option list numbers gmap sets strings tactics.

(** ** Scope of the development's own notations *)

Declare Scope sqrzl_scope.
Delimit Scope sqrzl_scope with sqrzl.

(** ** Fallible computations: Rust's [Result<T, E>] *)

Inductive result (E A : Type) : Type :=
| Ok (a : A)
| Err (e : E).
Global Arguments Ok {E A} a.
Global Arguments Err {E A} e.

#[export] Instance result_ret {E} : MRet (result E) := fun A a => Ok a.
#[export] Instance result_bind {E} : MBind (result E) := fun A B f m =>
  match m with Ok a => f a | Err e => Err e end.
#[export] Instance result_fmap {E} : FMap (result E) := fun A B f m =>
  match m with Ok a => Ok (f a) | Err e => Err e end.

#[export] Instance result_eq_dec `{EqDecision E, EqDecision A} :
  EqDecision (result E A).
Proof. solve_decision. Defined.

(** [Result::is_ok]. *)
Definition is_ok {E A} (r : result E A) : bool :=
  match r with Ok _ => true | Err _ => false end.

(** [Result::map_err]. *)
Definition map_err {E F A} (f : E -> F) (r : result E A) : result F A :=
  match r with Ok a => Ok a | Err e => Err (f e) end.

(** [Result::unwrap_or_default], with the default given explicitly. *)
Definition unwrap_or {E A} (d : A) (r : result E A) : A :=
  match r with Ok a => a | Err _ => d end.

(** [Option::ok_or]. *)
Definition ok_or {E A} (e : E) (o : option A) : result E A :=
  match o with Some a => Ok a | None => Err e end.

(** ** Rust's option predicates *)

Definition is_some_and {A} (p : A -> bool) (o : option A) : bool :=
  match o with Some a => p a | None => false end.

Definition is_none_or {A} (p : A -> bool) (o : option A) : bool :=
  match o with Some a => p a | None => true end.

Definition is_some {A} (o : option A) : bool :=
  match o with Some _ => true | None => false end.

Definition is_none {A} (o : option A) : bool :=
  match o with Some _ => false | None => true end.

(** Boolean equality of a type with decidable equality. *)
Definition eqb {A} `{EqDecision A} (x y : A) : bool := bool_decide (x = y).

Infix "=?" := eqb (at level 70, no associativity) : sqrzl_scope.

(** ** Machine integers *)

Definition U64_MAX : N := 18446744073709551615.

(** [u64::checked_add]. *)
Definition checked_add_u64 (a b : N) : option N :=
  if bool_decide (a + b <= U64_MAX)%N then Some (a + b)%N else None.

(** [usize::saturating_add] on a 64-bit target. *)
Definition saturating_add_usize (a b : N) : N := N.min (a + b) U64_MAX.

(** ** Proof automation *)

(** Lemmas that decide the boolean tests of the code. *)
Create HintDb sqrzl discriminated.

(** Case analysis on the next [match] or [if] of the goal or a hypothesis,
    keeping the equation. *)
Ltac case_step :=
  match goal with
  | |- context [match ?x with _ => _ end] =>
      let H := fresh "Hm" in destruct x eqn:H
  | H0 : context [match ?x with _ => _ end] |- _ =>
      let H := fresh "Hm" in destruct x eqn:H
  end.

(** Turn boolean facts into propositions. *)
Ltac bool_simpl :=
  repeat match goal with
  | H : _ && _ = true |- _ => apply andb_true_iff in H; destruct H
  | H : _ || _ = false |- _ => apply orb_false_iff in H; destruct H
  | H : negb _ = true |- _ => apply negb_true_iff in H
  | H : negb _ = false |- _ => apply negb_false_iff in H
  | H : bool_decide _ = true |- _ => apply bool_decide_eq_true in H
  | H : bool_decide _ = false |- _ => apply bool_decide_eq_false in H
  end.

(** ** Shared lemmas *)

Lemma eqb_true {A} `{EqDecision A} (x y : A) : eqb x y = true <-> x = y.
Proof. apply bool_decide_eq_true. Qed.

Lemma eqb_false {A} `{EqDecision A} (x y : A) : eqb x y = false <-> x <> y.
Proof. apply bool_decide_eq_false. Qed.

Lemma eqb_refl {A} `{EqDecision A} (x : A) : eqb x x = true.
Proof. by apply eqb_true. Qed.

Lemma is_some_and_true {A} (p : A -> bool) o :
  is_some_and p o = true <-> exists a, o = Some a /\ p a = true.
Proof. destruct o; simpl; naive_solver. Qed.

Lemma is_none_or_true {A} (p : A -> bool) o :
  is_none_or p o = true <-> forall a, o = Some a -> p a = true.
Proof. destruct o; simpl; naive_solver. Qed.

Lemma existsb_true {A} (p : A -> bool) l :
  existsb p l = true <-> exists a, a ∈ l /\ p a = true.
Proof.
  rewrite existsb_exists. by setoid_rewrite list_elem_of_In.
Qed.

Lemma forallb_true {A} (p : A -> bool) l :
  forallb p l = true <-> forall a, a ∈ l -> p a = true.
Proof.
  rewrite forallb_forall. by setoid_rewrite list_elem_of_In.
Qed.

(** [any] over a negation is the negation of [all]. *)
Lemma forallb_negb_existsb {A} (p : A -> bool) l :
  forallb (fun a => negb (p a)) l = negb (existsb p l).
Proof. induction l as [|a l IH]; simpl; [done|]. rewrite IH. by destruct (p a). Qed.

Lemma checked_add_u64_Some a b c :
  checked_add_u64 a b = Some c <-> c = (a + b)%N /\ (a + b <= U64_MAX)%N.
Proof. unfold checked_add_u64. case_bool_decide; naive_solver. Qed.

Lemma checked_add_u64_None a b :
  checked_add_u64 a b = None <-> (U64_MAX < a + b)%N.
Proof. unfold checked_add_u64. case_bool_decide; naive_solver lia. Qed.

#[export] Hint Rewrite @eqb_refl : sqrzl.
