(* ===== verification/Text.v ===== *)
(** * Text: the [str] operations of the Rust standard library the sources use

    A Rust [str] is its UTF-8 byte sequence, so a [string] (a list of 8-bit
    [ascii]) models it: equality, ordering, [starts_with], [contains], [find]
    and [split] are byte operations.  [chars] decodes code points, and [trim]
    removes the code points of Unicode's [White_Space] property in their UTF-8
    form. *)

From Stdlib Require Import Ascii.
From S2P Require Import Prelude.

Module Text.

(** [str::len], in bytes. *)
Definition len (s : string) : N := N.of_nat (String.length s).

Definition is_empty (s : string) : bool :=
  match s with EmptyString => true | _ => false end.

(** [s.starts_with(p)] *)
Definition starts_with (s p : string) : bool := String.prefix p s.
Global Arguments starts_with : simpl never.

(** [s.ends_with(p)] *)
Definition ends_with (s p : string) : bool :=
  String.prefix (String.rev p) (String.rev s).

(** [s.contains(p)] *)
Fixpoint contains (s p : string) : bool :=
  starts_with s p ||
  match s with EmptyString => false | String _ s' => contains s' p end.

(** [s.strip_prefix(p)] *)
Fixpoint strip_prefix (s p : string) {struct p} : option string :=
  match p, s with
  | EmptyString, _ => Some s
  | String a p', String b s' => if eqb a b then strip_prefix s' p' else None
  | String _ _, EmptyString => None
  end.

(** [s.find(p)]: the byte offset of the first occurrence. *)
Fixpoint find (s p : string) : option nat :=
  if starts_with s p then Some 0
  else match s with
       | EmptyString => None
       | String _ s' => S <$> find s' p
       end.

(** [s.split(c)]: never empty. *)
Fixpoint split (c : ascii) (s : string) : list string :=
  match s with
  | EmptyString => [EmptyString]
  | String a s' =>
      if eqb a c then EmptyString :: split c s'
      else match split c s' with
           | w :: ws => String a w :: ws
           | [] => [String a EmptyString]
           end
  end.

(** [s.split_once(c)] *)
Fixpoint split_once (c : ascii) (s : string) : option (string * string) :=
  match s with
  | EmptyString => None
  | String a s' =>
      if eqb a c then Some (EmptyString, s')
      else '(l, r) ← split_once c s'; Some (String a l, r)
  end.

(** [s.trim_start_matches(p)] for a non-empty pattern: every leading copy of
    [p] is removed.  Each round shortens the string, so its length is fuel. *)
Fixpoint trim_start_matches_go (fuel : nat) (s p : string) : string :=
  match fuel with
  | O => s
  | S n => match strip_prefix s p with
           | Some s' => trim_start_matches_go n s' p
           | None => s
           end
  end.
Definition trim_start_matches (s p : string) : string :=
  trim_start_matches_go (String.length s) s p.

(** [s.trim_end_matches(c)] for a character. *)
Fixpoint drop_leading (c : ascii) (s : string) : string :=
  match s with
  | String a s' => if eqb a c then drop_leading c s' else s
  | EmptyString => EmptyString
  end.
Definition trim_end_matches (s : string) (c : ascii) : string :=
  String.rev (drop_leading c (String.rev s)).

(** [str::to_ascii_lowercase] and [str::eq_ignore_ascii_case] *)
Definition ascii_lower (a : ascii) : ascii :=
  let n := N_of_ascii a in
  if (65 <=? n)%N && (n <=? 90)%N then ascii_of_N (n + 32) else a.
Fixpoint to_ascii_lowercase (s : string) : string :=
  match s with
  | EmptyString => EmptyString
  | String a s' => String (ascii_lower a) (to_ascii_lowercase s')
  end.
Definition eq_ignore_ascii_case (s t : string) : bool :=
  eqb (to_ascii_lowercase s) (to_ascii_lowercase t).

(** ** Bytes and characters *)

Definition bytes_of (s : string) : list N :=
  N_of_ascii <$> String.list_ascii_of_string s.
Definition of_bytes (l : list N) : string :=
  String.string_of_list_ascii (ascii_of_N <$> l).

(** [str::chars]: the UTF-8 decoder.  A [str] is valid UTF-8, so the truncated
    and stray cases are never taken on one. *)
Fixpoint decode_utf8 (l : list N) : list N :=
  match l with
  | [] => []
  | b0 :: l1 =>
      if (b0 <? 0xC0)%N then b0 :: decode_utf8 l1
      else match l1 with
      | [] => [b0]
      | b1 :: l2 =>
          if (b0 <? 0xE0)%N
          then ((b0 - 0xC0) * 64 + (b1 - 0x80))%N :: decode_utf8 l2
          else match l2 with
          | [] => [b0; b1]
          | b2 :: l3 =>
              if (b0 <? 0xF0)%N
              then ((b0 - 0xE0) * 4096 + (b1 - 0x80) * 64 + (b2 - 0x80))%N
                     :: decode_utf8 l3
              else match l3 with
              | [] => [b0; b1; b2]
              | b3 :: l4 =>
                  ((b0 - 0xF0) * 262144 + (b1 - 0x80) * 4096
                     + (b2 - 0x80) * 64 + (b3 - 0x80))%N :: decode_utf8 l4
              end
          end
      end
  end.
Definition chars (s : string) : list N := decode_utf8 (bytes_of s).

(** [char::is_whitespace] on the UTF-8 form: the number of bytes of the white
    space character a byte list starts with, and, for [trim_end], the same
    question asked of a reversed byte list. *)
Definition ascii_space (b : N) : bool :=
  ((9 <=? b) && (b <=? 13) || (b =? 32))%N.
Definition white2 (b0 b1 : N) : bool :=
  ((b0 =? 0xC2) && ((b1 =? 0x85) || (b1 =? 0xA0)))%N.
Definition white3 (b0 b1 b2 : N) : bool :=
  ((b0 =? 0xE1) && (b1 =? 0x9A) && (b2 =? 0x80)
   || (b0 =? 0xE2) && (b1 =? 0x80)
        && ((0x80 <=? b2) && (b2 <=? 0x8A) || (b2 =? 0xA8) || (b2 =? 0xA9)
            || (b2 =? 0xAF))
   || (b0 =? 0xE2) && (b1 =? 0x81) && (b2 =? 0x9F)
   || (b0 =? 0xE3) && (b1 =? 0x80) && (b2 =? 0x80))%N.

Fixpoint trim_start_bytes (l : list N) : list N :=
  match l with
  | [] => []
  | b0 :: l1 =>
      if ascii_space b0 then trim_start_bytes l1
      else match l1 with
      | [] => l
      | b1 :: l2 =>
          if white2 b0 b1 then trim_start_bytes l2
          else match l2 with
          | [] => l
          | b2 :: l3 => if white3 b0 b1 b2 then trim_start_bytes l3 else l
          end
      end
  end.

Fixpoint trim_end_rev_bytes (l : list N) : list N :=
  match l with
  | [] => []
  | b0 :: l1 =>
      if ascii_space b0 then trim_end_rev_bytes l1
      else match l1 with
      | [] => l
      | b1 :: l2 =>
          if white2 b1 b0 then trim_end_rev_bytes l2
          else match l2 with
          | [] => l
          | b2 :: l3 => if white3 b2 b1 b0 then trim_end_rev_bytes l3 else l
          end
      end
  end.

(** [str::trim] *)
Definition trim (s : string) : string :=
  of_bytes (rev (trim_end_rev_bytes (rev (trim_start_bytes (bytes_of s))))).

(** [str::parse::<u64>]: an optional leading plus sign and decimal digits, in
    range. *)
Definition digit (a : ascii) : option N :=
  let n := N_of_ascii a in
  if ((48 <=? n) && (n <=? 57))%N then Some (n - 48)%N else None.
Fixpoint parse_digits (acc : N) (s : string) : option N :=
  match s with
  | EmptyString => Some acc
  | String a s' => d ← digit a; parse_digits (acc * 10 + d) s'
  end.
Definition parse_u64 (s : string) : option N :=
  let body := match strip_prefix s "+" with Some s' => s' | None => s end in
  if is_empty body then None
  else n ← parse_digits 0 body; if (n <=? U64_MAX)%N then Some n else None.

(** ** Byte slices *)

(** [&s[..n]] and [&s[n..]] at character boundaries. *)
Fixpoint slice_to (n : nat) (s : string) {struct n} : string :=
  match n, s with
  | S n', String a s' => String a (slice_to n' s')
  | _, _ => EmptyString
  end.
Fixpoint slice_from (n : nat) (s : string) {struct n} : string :=
  match n, s with
  | O, _ => s
  | S n', String _ s' => slice_from n' s'
  | S _, EmptyString => EmptyString
  end.

(** [s.match_indices(c)] for a character: the byte offsets of its occurrences. *)
Fixpoint match_indices (c : ascii) (s : string) : list nat :=
  match s with
  | EmptyString => []
  | String a s' =>
      (if eqb a c then [0] else []) ++ (S <$> match_indices c s')
  end.

(** [list.join(sep)] on strings *)
Fixpoint join_text (sep : string) (l : list string) : string :=
  match l with
  | [] => EmptyString
  | [a] => a
  | a :: rest => a +:+ sep +:+ join_text sep rest
  end.

(** [str::split_whitespace]; [word] holds the bytes of the current word, last
    first. *)
Definition flush (word : list N) : list string :=
  match word with [] => [] | _ :: _ => [of_bytes (rev word)] end.
Fixpoint words_of (l : list N) (word : list N) : list string :=
  match l with
  | [] => flush word
  | b0 :: l1 =>
      if ascii_space b0 then flush word ++ words_of l1 []
      else match l1 with
      | b1 :: l2 =>
          if white2 b0 b1 then flush word ++ words_of l2 []
          else match l2 with
          | b2 :: l3 => if white3 b0 b1 b2 then flush word ++ words_of l3 [] else words_of l1 (b0 :: word)
          | [] => words_of l1 (b0 :: word)
          end
      | [] => words_of l1 (b0 :: word)
      end
  end.
Definition split_whitespace (s : string) : list string := words_of (bytes_of s) [].

(** [str::parse::<i64>] *)
Definition parse_i64 (s : string) : option Z :=
  match strip_prefix s "-" with
  | Some body =>
      if is_empty body then None
      else n ← parse_digits 0 body; if (n <=? 2 ^ 63)%N then Some (- Z.of_N n)%Z else None
  | None => n ← parse_u64 s; if (n <? 2 ^ 63)%N then Some (Z.of_N n) else None
  end.

(** The byte-wise (and so code-point) order of [str]. *)
Definition lt (s t : string) : Prop := String.le s t /\ s <> t.
#[global] Instance lt_dec s t : Decision (lt s t).
Proof. unfold lt. apply _. Defined.
Definition ltb (s t : string) : bool := bool_decide (lt s t).
Definition leb (s t : string) : bool := bool_decide (String.le s t).

(** ** Facts *)

Lemma starts_with_app p s : starts_with (p +:+ s) p = true.
Proof.
  unfold starts_with. induction p as [|a p IH]; [by destruct s|].
  simpl. by destruct (ascii_dec a a).
Qed.

Lemma starts_with_spec s p :
  starts_with s p = true <-> exists t, s = p +:+ t.
Proof.
  split; [|intros [t ->]; apply starts_with_app].
  unfold starts_with. revert s. induction p as [|a p IH]; intros s H.
  - by exists s.
  - destruct s as [|b s]; simpl in H; [done|].
    destruct (ascii_dec a b) as [->|]; [|done].
    destruct (IH _ H) as [t ->]. by exists t.
Qed.

Lemma app_cons a s t : String a s +:+ t = String a (s +:+ t).
Proof. done. Qed.

Lemma app_empty_r s : s +:+ EmptyString = s.
Proof. induction s as [|a s IH]; [done|]. by change (String a (s +:+ EmptyString) = String a s); rewrite IH. Qed.

Lemma app_assoc s t u : (s +:+ t) +:+ u = s +:+ t +:+ u.
Proof.
  induction s as [|a s IH]; [done|].
  by change (String a ((s +:+ t) +:+ u) = String a (s +:+ t +:+ u)); rewrite IH.
Qed.

Lemma starts_with_refl s : starts_with s s = true.
Proof. apply starts_with_spec. exists EmptyString. by rewrite app_empty_r. Qed.

Lemma strip_prefix_spec s p t : strip_prefix s p = Some t <-> s = p +:+ t.
Proof.
  revert s. induction p as [|a p IH]; intros s; simpl.
  - change (EmptyString +:+ t) with t. by split; [intros [= ->]|intros ->].
  - rewrite app_cons. destruct s as [|b s]; [by split; intros [=]|].
    destruct (eqb a b) eqn:E; [apply eqb_true in E as ->|apply eqb_false in E].
    + rewrite IH. split; [by intros ->|by intros [= ->]].
    + split; [by intros [=]|]. by intros [= Hab _].
Qed.

Lemma contains_spec s p :
  contains s p = true <-> exists l r, s = l +:+ p +:+ r.
Proof.
  induction s as [|a s IH]; simpl; rewrite orb_true_iff, starts_with_spec.
  - split.
    + intros [[t H]|]; [|done]. by exists EmptyString, t.
    + intros (l & r & H). left. destruct l; [by exists r|done].
  - rewrite IH. split.
    + intros [[t H]|(l & r & ->)]; [by exists EmptyString, t|].
      by exists (String a l), r.
    + intros ([|b l] & r & H); [left; by exists r|].
      right. injection H as -> H. by exists l, r.
Qed.

(** The words of [split] joined by the separator give the text back. *)
Lemma split_nonempty c s : split c s <> [].
Proof. destruct s as [|a s]; simpl; [done|]. destruct (eqb a c); [done|]. by destruct (split c s). Qed.

(** *** Slices *)

Lemma length_app s t : String.length (s +:+ t) = String.length s + String.length t.
Proof. induction s as [|a s IH]; [done|]. rewrite app_cons. simpl. by rewrite IH. Qed.

Lemma slice_to_from n s : slice_to n s +:+ slice_from n s = s.
Proof.
  revert s. induction n as [|n IH]; intros [|a s]; simpl; try done.
  rewrite app_cons. by rewrite IH.
Qed.

Lemma slice_to_app s t : slice_to (String.length s) (s +:+ t) = s.
Proof. induction s as [|a s IH]; [by destruct t|]. rewrite app_cons. simpl. by rewrite IH. Qed.

Lemma slice_from_app s t : slice_from (String.length s) (s +:+ t) = t.
Proof. by induction s as [|a s IH]; [|rewrite app_cons]. Qed.

Lemma app_inj_l s t u : s +:+ t = s +:+ u -> t = u.
Proof. induction s as [|a s IH]; [done|]. rewrite !app_cons. intros [= ?]. auto. Qed.

(** *** Order *)

Lemma lt_irrefl s : ~ lt s s.
Proof. by intros [_ ?]. Qed.

#[global] Instance lt_trans : Transitive lt.
Proof.
  intros s t u [H1 N1] [H2 N2]. split; [by etrans|].
  intros ->. apply N1. by apply (anti_symm String.le).
Qed.

Lemma lt_le_trans s t u : lt s t -> String.le t u -> lt s u.
Proof.
  intros [H1 N1] H2. split; [by etrans|].
  intros ->. apply N1. by apply (anti_symm String.le).
Qed.

Lemma le_lt_trans s t u : String.le s t -> lt t u -> lt s u.
Proof.
  intros H1 [H2 N2]. split; [by etrans|].
  intros ->. apply N2. by apply (anti_symm String.le).
Qed.

Lemma lt_le s t : lt s t -> String.le s t.
Proof. by intros [? _]. Qed.

Lemma not_lt_le s t : ~ lt s t <-> String.le t s.
Proof.
  split.
  - intros H. destruct (total String.le s t) as [Hs|]; [|done].
    destruct (decide (s = t)) as [->|]; [done|]. by destruct H.
  - intros H1 [H2 N]. apply N. by apply (anti_symm String.le).
Qed.

Lemma not_le_lt s t : ~ String.le s t <-> lt t s.
Proof.
  rewrite <- not_lt_le. split; [|by intros ? ?].
  intros H. by destruct (decide (lt t s)).
Qed.

Lemma le_cons a s t : String.le (String a s) (String a t) <-> String.le s t.
Proof.
  unfold String.le, String.leb. simpl. unfold Ascii.compare.
  by rewrite N.compare_refl.
Qed.

Lemma le_app_r s t : String.le s (s +:+ t).
Proof.
  induction s as [|a s IH]; [by destruct t|]. rewrite app_cons. by apply le_cons.
Qed.

(** Between a prefix and a text that starts with it, every text does. *)
Lemma starts_with_convex p s t :
  String.le p s -> String.le s t -> starts_with t p = true -> starts_with s p = true.
Proof.
  intros Hps Hst [u ->]%starts_with_spec. revert s Hps Hst.
  induction p as [|a p IH]; intros s Hps Hst; [by destruct s|].
  destruct s as [|b s]; [done|]. rewrite app_cons in Hst.
  assert (a = b) as <-.
  { apply Ascii.compare_eq_iff. revert Hps Hst.
    unfold String.le, String.leb; simpl.
    rewrite (Ascii.compare_antisym b a).
    by destruct (Ascii.compare a b). }
  apply le_cons in Hps, Hst. specialize (IH s Hps Hst).
  revert IH. unfold starts_with. simpl. by destruct (ascii_dec a a).
Qed.

End Text.
