(* ===== verification/Models.v ===== *)
(** * Models: the data of the emulator

    [src/error.rs] and [src/models/]: errors with their HTTP status and S3
    error code, buckets, objects, multipart uploads, ACLs, bucket policy
    documents, lifecycle configurations and list results.  A [HashMap] of
    strings is a [gmap]; a [u32]/[u64] is an [N]; a [DateTime<Utc>] is its
    number of nanoseconds since the Unix epoch; payload bytes are a list of
    [Byte.byte]. *)

From Stdlib Require Import Strings.Byte.
From S2P Require Import Prelude Text.

Definition bytes : Type := list Byte.byte.
Definition strmap : Type := gmap string string.
(** Nanoseconds since the Unix epoch. *)
Definition time : Type := Z.

#[export] Instance byte_eq_dec : EqDecision Byte.byte := Byte.byte_eq_dec.

(** ** Errors *)

Inductive Error : Type :=
| BucketAlreadyExists
| BucketNotFound
| BucketNotEmpty
| KeyNotFound
| InvalidRequest (msg : string)
| MethodNotAllowed (msg : string)
| RouteNotFound (msg : string)
| AccessDenied
| InvalidUploadId
| NoSuchUpload
| InvalidPartNumber
| InvalidPartOrder
| EntityTooSmall
| EntityTooLarge
| IncompleteMultipartUpload
| BadDigest
| PreconditionFailed
| NoSuchVersion
| NoSuchLifecycleConfiguration
| InvalidPolicy (msg : string)
| InternalError (msg : string)
| SignatureDoesNotMatch
| MessageNotFound
| CaptureTooLarge.

#[export] Instance Error_eq_dec : EqDecision Error.
Proof. solve_decision. Defined.

(** [Result<T>] of the crate. *)
Abbreviation Res := (result Error).

Definition status_code (e : Error) : N :=
  match e with
  | PreconditionFailed => 412
  | CaptureTooLarge => 413
  | BucketAlreadyExists | BucketNotEmpty => 409
  | BucketNotFound | KeyNotFound | RouteNotFound _ | InvalidUploadId
  | NoSuchUpload | NoSuchVersion | NoSuchLifecycleConfiguration
  | MessageNotFound => 404
  | BadDigest | InvalidRequest _ | InvalidPartNumber | InvalidPartOrder
  | EntityTooSmall | EntityTooLarge | IncompleteMultipartUpload
  | InvalidPolicy _ => 400
  | MethodNotAllowed _ => 405
  | AccessDenied | SignatureDoesNotMatch => 403
  | InternalError _ => 500
  end.

Definition error_code (e : Error) : string :=
  match e with
  | BadDigest => "BadDigest"
  | PreconditionFailed => "PreconditionFailed"
  | CaptureTooLarge => "RequestEntityTooLarge"
  | BucketAlreadyExists => "BucketAlreadyExists"
  | BucketNotFound => "NoSuchBucket"
  | BucketNotEmpty => "BucketNotEmpty"
  | KeyNotFound => "NoSuchKey"
  | InvalidRequest _ => "InvalidRequest"
  | MethodNotAllowed _ => "MethodNotAllowed"
  | RouteNotFound _ => "NotFound"
  | AccessDenied => "AccessDenied"
  | InvalidUploadId | NoSuchUpload => "NoSuchUpload"
  | InvalidPartNumber => "InvalidPartNumber"
  | InvalidPartOrder => "InvalidPartOrder"
  | EntityTooSmall => "EntityTooSmall"
  | EntityTooLarge => "EntityTooLarge"
  | IncompleteMultipartUpload => "IncompleteMultipartUpload"
  | NoSuchVersion => "NoSuchVersion"
  | NoSuchLifecycleConfiguration => "NoSuchLifecycleConfiguration"
  | InvalidPolicy _ => "MalformedPolicy"
  | SignatureDoesNotMatch => "SignatureDoesNotMatch"
  | MessageNotFound => "MessageNotFound"
  | InternalError _ => "InternalError"
  end.

(** [Display]: the text of the [#[error(..)]] attributes. *)
Definition display (e : Error) : string :=
  match e with
  | BucketAlreadyExists => "Bucket already exists"
  | BucketNotFound => "Bucket not found"
  | BucketNotEmpty => "Bucket not empty"
  | KeyNotFound => "Key not found"
  | InvalidRequest _ => "Invalid request"
  | MethodNotAllowed _ => "Method not allowed"
  | RouteNotFound _ => "Route not found"
  | AccessDenied => "Access denied"
  | InvalidUploadId => "Invalid multipart upload ID"
  | NoSuchUpload => "No such upload"
  | InvalidPartNumber => "Invalid part number"
  | InvalidPartOrder => "Invalid part order"
  | EntityTooSmall => "Your proposed upload is smaller than the minimum allowed object size"
  | EntityTooLarge => "Your proposed upload exceeds the maximum allowed object size"
  | IncompleteMultipartUpload => "Incomplete multipart upload"
  | BadDigest => "The checksum does not match the uploaded bytes"
  | PreconditionFailed => "The publication precondition failed"
  | NoSuchVersion => "No such version"
  | NoSuchLifecycleConfiguration => "No such lifecycle configuration"
  | InvalidPolicy _ => "Invalid policy"
  | InternalError _ => "Internal server error"
  | SignatureDoesNotMatch => "Signature does not match"
  | MessageNotFound => "Message not found"
  | CaptureTooLarge => "Projected materialized capture exceeds the local 64 MiB aggregate limit"
  end.

(** ** Access control lists *)

Inductive CannedAcl : Type :=
| Private | PublicRead | PublicReadWrite | AuthenticatedRead
| BucketOwnerRead | BucketOwnerFullControl.

Inductive Permission : Type :=
| PermRead | PermWrite | PermReadAcp | PermWriteAcp | PermFullControl.

Inductive Grantee : Type :=
| CanonicalUser (id : string) (display_name : option string)
| Group (uri : string).

Record Grant : Type := mkGrant { grantee : Grantee; permission : Permission }.

Record Acl : Type := mkAcl { canned : CannedAcl; grants : list Grant }.

#[export] Instance CannedAcl_eq_dec : EqDecision CannedAcl.
Proof. solve_decision. Defined.
#[export] Instance Permission_eq_dec : EqDecision Permission.
Proof. solve_decision. Defined.
#[export] Instance Grantee_eq_dec : EqDecision Grantee.
Proof. solve_decision. Defined.
#[export] Instance Grant_eq_dec : EqDecision Grant.
Proof. solve_decision. Defined.
#[export] Instance Acl_eq_dec : EqDecision Acl.
Proof. solve_decision. Defined.

(** [Acl::default()] *)
Definition default_acl : Acl := {| canned := Private; grants := [] |}.

(** ** Objects *)

Record Object : Type := mkObject {
  o_key : string;
  o_data : bytes;
  o_size : N;
  o_etag : string;
  o_content_type : string;
  o_last_modified : time;
  o_version_id : option string;
  o_storage_class : string;
  o_metadata : strmap;
  o_tags : strmap;
  o_acl : option Acl;
  o_provider_metadata : strmap }.

#[export] Instance Object_eq_dec : EqDecision Object.
Proof. solve_decision. Defined.

(** Field updates of a [let mut object]. *)
Definition with_data (d : bytes) (o : Object) : Object :=
  mkObject (o_key o) d (o_size o) (o_etag o) (o_content_type o)
    (o_last_modified o) (o_version_id o) (o_storage_class o) (o_metadata o)
    (o_tags o) (o_acl o) (o_provider_metadata o).
Definition with_size (n : N) (o : Object) : Object :=
  mkObject (o_key o) (o_data o) n (o_etag o) (o_content_type o)
    (o_last_modified o) (o_version_id o) (o_storage_class o) (o_metadata o)
    (o_tags o) (o_acl o) (o_provider_metadata o).
Definition with_version_id (v : option string) (o : Object) : Object :=
  mkObject (o_key o) (o_data o) (o_size o) (o_etag o) (o_content_type o)
    (o_last_modified o) v (o_storage_class o) (o_metadata o)
    (o_tags o) (o_acl o) (o_provider_metadata o).
Definition with_storage_class (c : string) (o : Object) : Object :=
  mkObject (o_key o) (o_data o) (o_size o) (o_etag o) (o_content_type o)
    (o_last_modified o) (o_version_id o) c (o_metadata o)
    (o_tags o) (o_acl o) (o_provider_metadata o).
Definition with_tags (t : strmap) (o : Object) : Object :=
  mkObject (o_key o) (o_data o) (o_size o) (o_etag o) (o_content_type o)
    (o_last_modified o) (o_version_id o) (o_storage_class o) (o_metadata o)
    t (o_acl o) (o_provider_metadata o).
Definition with_acl (a : option Acl) (o : Object) : Object :=
  mkObject (o_key o) (o_data o) (o_size o) (o_etag o) (o_content_type o)
    (o_last_modified o) (o_version_id o) (o_storage_class o) (o_metadata o)
    (o_tags o) a (o_provider_metadata o).
Definition with_provider_metadata (m : strmap) (o : Object) : Object :=
  mkObject (o_key o) (o_data o) (o_size o) (o_etag o) (o_content_type o)
    (o_last_modified o) (o_version_id o) (o_storage_class o) (o_metadata o)
    (o_tags o) (o_acl o) m.
Definition with_descriptive (content_type : string) (metadata provider : strmap)
    (o : Object) : Object :=
  mkObject (o_key o) (o_data o) (o_size o) (o_etag o) content_type
    (o_last_modified o) (o_version_id o) (o_storage_class o) metadata
    (o_tags o) (o_acl o) provider.

(** What [object.meta.json] keeps: the payload is [skip_serializing]. *)
Definition strip_data (o : Object) : Object := with_data [] o.

Definition size_of (d : bytes) : N := N.of_nat (length d).

(** [Object::new_with_metadata_and_etag] at the clock reading [now]. *)
Definition new_with_metadata_and_etag (now : time) (key : string) (data : bytes)
    (content_type : string) (metadata : strmap) (etag : string) : Object :=
  {| o_key := key; o_data := data; o_size := size_of data; o_etag := etag;
     o_content_type := content_type; o_last_modified := now;
     o_version_id := None; o_storage_class := "STANDARD";
     o_metadata := metadata; o_tags := ∅; o_acl := None;
     o_provider_metadata := ∅ |}.

(** The digests of third-party crates ([md5], [crc32c]) the store calls. *)
Class Digests : Type := {
  md5_hex : bytes -> string;
  crc32c_append : N -> bytes -> N }.

(** [compute_etag]/[md5_hash]: the lowercase hexadecimal MD5 digest. *)
Definition compute_etag `{Digests} (data : bytes) : string := md5_hex data.

(** [Object::new_with_metadata] and [Object::new] *)
Definition new_with_metadata `{Digests} (now : time) (key : string)
    (data : bytes) (content_type : string) (metadata : strmap) : Object :=
  new_with_metadata_and_etag now key data content_type metadata
    (compute_etag data).
Definition new_object `{Digests} (now : time) (key : string) (data : bytes)
    (content_type : string) : Object :=
  new_with_metadata now key data content_type ∅.

(** ** Buckets *)

(** The bucket-level policy and lifecycle records of [models/bucket.rs].  The
    store keeps policies and lifecycle rules in sidecar documents of their own
    and leaves these fields of a [Bucket] empty. *)
Record PolicyStatement : Type := mkPolicyStatement {
  ps_effect : string;
  ps_principal : string;
  ps_action : list string;
  ps_resource : list string;
  ps_condition : option (gmap string (gmap string (list string))) }.

Record BucketPolicy : Type := mkBucketPolicy {
  bp_version : string;
  bp_statements : list PolicyStatement }.

Record LifecycleExpiration : Type := mkLifecycleExpiration {
  le_days : N;
  le_date : option time;
  le_expired_object_delete_marker : bool }.

Record LifecycleRule : Type := mkLifecycleRule {
  lr_id : string;
  lr_prefix : string;
  lr_status : string;
  lr_expiration : option LifecycleExpiration }.

Record Bucket : Type := mkBucket {
  b_name : string;
  b_created_at : time;
  b_modified_at : time;
  b_versioning_enabled : bool;
  b_policy : option BucketPolicy;
  b_lifecycle_rules : list LifecycleRule;
  b_metadata : strmap;
  b_acl : option Acl }.

(** [Bucket::new] at the clock reading [now]. *)
Definition new_bucket (now : time) (name : string) : Bucket :=
  {| b_name := name; b_created_at := now; b_modified_at := now;
     b_versioning_enabled := false; b_policy := None; b_lifecycle_rules := [];
     b_metadata := ∅; b_acl := None |}.

(** ** Multipart uploads *)

Record Part : Type := mkPart {
  p_part_number : N;
  p_etag : string;
  p_size : N;
  p_crc32c : option N;
  p_last_modified : time }.

Record MultipartUpload : Type := mkUpload {
  u_upload_id : string;
  u_key : string;
  u_initiated : time;
  u_content_type : option string;
  u_metadata : strmap;
  u_provider_metadata : strmap;
  u_parts : list Part }.

#[export] Instance Part_eq_dec : EqDecision Part.
Proof. solve_decision. Defined.
#[export] Instance MultipartUpload_eq_dec : EqDecision MultipartUpload.
Proof. solve_decision. Defined.

Definition with_parts (ps : list Part) (u : MultipartUpload) : MultipartUpload :=
  mkUpload (u_upload_id u) (u_key u) (u_initiated u) (u_content_type u)
    (u_metadata u) (u_provider_metadata u) ps.

(** ** List results *)

Record ListObjectsResult : Type := mkListing {
  l_common_prefixes : list string;
  l_objects : list Object;
  l_is_truncated : bool;
  l_next_marker : option string }.

Inductive VersioningStatus : Type := Enabled | Suspended | NotSet.

(** [impl Display for VersioningStatus] *)
Definition versioning_status_display (s : VersioningStatus) : string :=
  match s with
  | Enabled => "Enabled" | Suspended => "Suspended" | NotSet => ""
  end.

(** ** Write predicates *)

Inductive ObjectCondition : Type :=
| All (conditions : list ObjectCondition)
| Missing
| Etag (expected : string)
| EtagIn (expected : list string)
| EtagNotIn (rejected : list string)
| MissingOrEtagNotIn (rejected : list string)
| Metadata (key value : string)
| MetadataNot (key value : string).

Record MultipartCompletion : Type := mkCompletion {
  mc_crc32c : option N;
  mc_size : option N;
  mc_condition : option ObjectCondition;
  mc_require_existing : bool }.

(** [MultipartCompletion::default()] *)
Definition default_completion : MultipartCompletion :=
  {| mc_crc32c := None; mc_size := None; mc_condition := None;
     mc_require_existing := false |}.

(** ** Facts *)

(** Every error has an HTTP status of the 4xx or 5xx classes. *)
Lemma status_code_range e : (400 <= status_code e < 600)%N.
Proof. destruct e; simpl; lia. Qed.

Lemma with_data_strip o : with_data (o_data o) (strip_data o) = o.
Proof. by destruct o. Qed.

Lemma strip_data_idemp o : strip_data (strip_data o) = strip_data o.
Proof. done. Qed.
