(* ===== verification/Utf8.v ===== *)
(** * Utf8: bytes as text

    [String::from_utf8], [String::from_utf8_lossy] and [str::as_bytes], the
    tests on the [char]s of a [str], and the [str] operations only the capture
    of mail uses. *)

From Stdlib Require Import Ascii Strings.Byte.
From stdpp Require Import pretty.
From S2P Require Import Prelude Text Models.

(** ** Bytes and text *)

(** [str::as_bytes] *)
Fixpoint as_bytes (s : string) : bytes :=
  match s with EmptyString => [] | String a s' => byte_of_ascii a :: as_bytes s' end.

Fixpoint text_of_bytes (b : bytes) : string :=
  match b with [] => EmptyString | x :: b' => String (ascii_of_byte x) (text_of_bytes b') end.

Lemma text_of_as_bytes s : text_of_bytes (as_bytes s) = s.
Proof. induction s as [|a s IH]; simpl; [done|]. by rewrite ascii_of_byte_of_ascii, IH. Qed.

Lemma as_bytes_of_text b : as_bytes (text_of_bytes b) = b.
Proof. induction b as [|x b IH]; simpl; [done|]. by rewrite byte_of_ascii_of_byte, IH. Qed.

Lemma as_bytes_inj s t : as_bytes s = as_bytes t -> s = t.
Proof. intros Heq%(f_equal text_of_bytes). by rewrite !text_of_as_bytes in Heq. Qed.

Lemma length_as_bytes s : length (as_bytes s) = String.length s.
Proof. by induction s; simpl; f_equal. Qed.

Lemma as_bytes_app s t : as_bytes (s +:+ t) = as_bytes s ++ as_bytes t.
Proof. induction s as [|a s IH]; [done|]. rewrite Text.app_cons. simpl. by rewrite IH. Qed.

(** ** Validation *)

Module Utf8.

Definition continuation (b : N) : bool := ((0x80 <=? b) && (b <=? 0xBF))%N.
Definition between (lo hi b : N) : bool := ((lo <=? b) && (b <=? hi))%N.

(** The second byte of a three or four byte character. *)
Definition second3 (b0 b1 : N) : bool :=
  (if b0 =? 0xE0 then between 0xA0 0xBF b1
   else if b0 =? 0xED then between 0x80 0x9F b1 else continuation b1)%N.
Definition second4 (b0 b1 : N) : bool :=
  (if b0 =? 0xF0 then between 0x90 0xBF b1
   else if b0 =? 0xF4 then between 0x80 0x8F b1 else continuation b1)%N.

Definition byte_at (l : list N) (i : nat) (ok : N -> bool) : bool := is_some_and ok (l !! i).

(** The sequence a byte list starts with: whether it is a character, and its
    length.  An ill-formed sequence is the longest prefix of a character. *)
Definition sequence (l : list N) : bool * nat :=
  match l with
  | [] => (true, 0)
  | b0 :: rest =>
      if (b0 <? 0x80)%N then (true, 1)
      else if between 0xC2 0xDF b0 then
        if byte_at rest 0 continuation then (true, 2) else (false, 1)
      else if between 0xE0 0xEF b0 then
        if negb (byte_at rest 0 (second3 b0)) then (false, 1)
        else if byte_at rest 1 continuation then (true, 3) else (false, 2)
      else if between 0xF0 0xF4 b0 then
        if negb (byte_at rest 0 (second4 b0)) then (false, 1)
        else if negb (byte_at rest 1 continuation) then (false, 2)
        else if byte_at rest 2 continuation then (true, 4) else (false, 3)
      else (false, 1)
  end.

(** Every sequence is at least a byte long: the length is fuel. *)
Fixpoint valid_go (fuel : nat) (l : list N) : bool :=
  match fuel, l with
  | _, [] => true
  | O, _ :: _ => false
  | S fuel', _ :: _ => let '(ok, n) := sequence l in ok && valid_go fuel' (drop n l)
  end.

Definition replacement : list N := [0xEF; 0xBF; 0xBD]%N.
Fixpoint lossy_go (fuel : nat) (l : list N) : list N :=
  match fuel, l with
  | _, [] => []
  | O, _ :: _ => []
  | S fuel', _ :: _ =>
      let '(ok, n) := sequence l in
      (if ok then take n l else replacement) ++ lossy_go fuel' (drop n l)
  end.

Definition valid (s : string) : bool := valid_go (String.length s) (Text.bytes_of s).

(** [String::from_utf8] and [String::from_utf8_lossy] *)
Definition from_utf8 (b : bytes) : option string :=
  let s := text_of_bytes b in if valid s then Some s else None.
Definition from_utf8_lossy (b : bytes) : string :=
  let s := text_of_bytes b in
  Text.of_bytes (lossy_go (String.length s) (Text.bytes_of s)).

(** The text of the error of [from_utf8]: where the first ill-formed sequence
    starts, and its length unless the input ends inside it. *)
Definition lead_byte (b : N) : bool := between 0xC2 0xF4 b.

Fixpoint error_go (fuel : nat) (at_ : nat) (l : list N) : string :=
  match fuel, l with
  | S fuel', b0 :: _ =>
      let '(ok, n) := sequence l in
      if ok then error_go fuel' (at_ + n) (drop n l)
      else if lead_byte b0 && Nat.eqb n (length l) then "incomplete utf-8 byte sequence from index " +:+ pretty at_
      else "invalid utf-8 sequence of " +:+ pretty n +:+ " bytes from index " +:+ pretty at_
  | _, _ => EmptyString
  end.
Definition utf8_error (b : bytes) : string :=
  let s := text_of_bytes b in error_go (String.length s) 0 (Text.bytes_of s).

(** ** Tests on the characters of a [str] *)

(** [char::is_control] and [char::is_whitespace] *)
Definition is_control (c : N) : bool := ((c <=? 0x1F) || between 0x7F 0x9F c)%N.
Definition is_whitespace (c : N) : bool :=
  (between 9 13 c || (c =? 32) || (c =? 0x85) || (c =? 0xA0) || (c =? 0x1680)
   || between 0x2000 0x200A c || (c =? 0x2028) || (c =? 0x2029) || (c =? 0x202F)
   || (c =? 0x205F) || (c =? 0x3000))%N.

(** [s.chars().any(p)] *)
Definition any_char (p : N -> bool) (s : string) : bool := existsb p (Text.chars s).

(** [str::to_ascii_uppercase] *)
Definition ascii_upper (a : ascii) : ascii :=
  let n := N_of_ascii a in
  if (97 <=? n)%N && (n <=? 122)%N then ascii_of_N (n - 32) else a.
Fixpoint to_ascii_uppercase (s : string) : string :=
  match s with
  | EmptyString => EmptyString
  | String a s' => String (ascii_upper a) (to_ascii_uppercase s')
  end.

(** [s.is_char_boundary(n)] and [s.get(..n)] *)
Definition is_char_boundary (s : string) (n : nat) : bool :=
  match Text.bytes_of s !! n with
  | Some b => negb (continuation b)
  | None => Nat.eqb n (String.length s)
  end.
Definition get_to (n : nat) (s : string) : option string :=
  if is_char_boundary s n then Some (Text.slice_to n s) else None.

(** [s.rfind(c)] for a character *)
Definition rfind (c : ascii) (s : string) : option nat := list.last (Text.match_indices c s).

(** [s.split_once(p)] for a text *)
Fixpoint split_once_str (p s : string) : option (string * string) :=
  match Text.strip_prefix s p with
  | Some rest => Some (EmptyString, rest)
  | None =>
      match s with
      | EmptyString => None
      | String a s' => '(l, r) ← split_once_str p s'; Some (String a l, r)
      end
  end.

(** [s.strip_suffix(p)] *)
Definition strip_suffix (s p : string) : option string :=
  String.rev <$> Text.strip_prefix (String.rev s) (String.rev p).

(** [str::lines]: the pieces between line feeds, without the carriage return
    before a line feed; a final line feed starts no line. *)
Definition LF : ascii := "010".
Definition CR : ascii := "013".
Definition strip_cr (s : string) : string := default s (strip_suffix s (String CR "")).
Definition lines (s : string) : list string :=
  let pieces := Text.split LF s in
  let closed := removelast pieces in
  let final := default "" (list.last pieces) in
  map strip_cr closed ++ (if Text.is_empty final then [] else [final]).

End Utf8.
