(* ===== verification/Validation.v ===== *)
(** * Validation: request parameters, [src/utils/validation.rs]

    Bucket names, object keys, part numbers and their sequences, with the rules
    each check amounts to. *)

From Stdlib Require Import Ascii.
From stdpp Require Import pretty.
From S2P Require Import Prelude Text.

Abbreviation check := (result string unit).

(** [u8::is_ascii_alphanumeric], [char::is_ascii_lowercase], [char::is_ascii_digit] *)
Definition in_range (lo hi : N) (a : ascii) : bool :=
  let n := N_of_ascii a in (lo <=? n)%N && (n <=? hi)%N.
Definition is_ascii_digit : ascii -> bool := in_range 48 57.
Definition is_ascii_lowercase : ascii -> bool := in_range 97 122.
Definition is_ascii_alphanumeric (a : ascii) : bool :=
  in_range 65 90 a || is_ascii_lowercase a || is_ascii_digit a.

(** [chars().all(_)] where the test only accepts ASCII characters *)
Fixpoint all_ascii (p : ascii -> bool) (s : string) : bool :=
  match s with EmptyString => true | String a s' => p a && all_ascii p s' end.
Definition first_char (s : string) : option ascii :=
  match s with EmptyString => None | String a _ => Some a end.
Definition last_char (s : string) : option ascii := first_char (String.rev s).

(** [str::parse::<u8>] succeeds *)
Definition parses_u8 (s : string) : bool := is_some_and (fun n => n <=? 255)%N (Text.parse_u64 s).

Definition bucket_char (a : ascii) : bool :=
  is_ascii_lowercase a || is_ascii_digit a || eqb a "-"%char || eqb a "."%char.
Definition RESERVED_PREFIXES : list string := ["xn--"; "sthree-"; "amzn-s3-demo-"].
Definition RESERVED_SUFFIXES : list string := ["-s3alias"; "--ol-s3"; ".mrap"; "--x-s3"; "--table-s3"].

Definition ipv4_like (name : string) : bool :=
  Nat.eqb (length (Text.split "."%char name)) 4 && forallb parses_u8 (Text.split "."%char name).

Definition validate_bucket_name (name : string) : check :=
  if (Text.len name <? 3)%N then Err "Bucket name must be at least 3 characters long"
  else if (63 <? Text.len name)%N then Err "Bucket name cannot exceed 63 characters"
  else if negb (is_some_and is_ascii_alphanumeric (first_char name))
          || negb (is_some_and is_ascii_alphanumeric (last_char name))
  then Err "Bucket name must start and end with a letter or number"
  else if negb (all_ascii bucket_char name)
  then Err "Bucket name can only contain lowercase letters, numbers, periods, and hyphens"
  else if Text.contains name ".." then Err "Bucket name cannot contain adjacent periods"
  else if ipv4_like name then Err "Bucket name cannot be formatted as an IP address"
  else if existsb (Text.starts_with name) RESERVED_PREFIXES
  then Err "Bucket name uses an Amazon S3 reserved prefix"
  else if existsb (Text.ends_with name) RESERVED_SUFFIXES
  then Err "Bucket name uses an Amazon S3 reserved suffix"
  else Ok tt.

Definition validate_blob_key (key : string) : check :=
  let byte_len := Text.len key in
  if (byte_len =? 0)%N then Err "Blob key cannot be empty"
  else if (1024 <? byte_len)%N
  then Err ("Blob key cannot exceed 1024 bytes (got " +:+ pretty byte_len +:+ ")")
  else Ok tt.
Definition validate_object_key (key : string) : check := validate_blob_key key.

Definition validate_part_number (part_num : N) : check :=
  if (part_num <? 1)%N then Err "Part number must be at least 1"
  else if (10000 <? part_num)%N then Err "Part number cannot exceed 10000"
  else Ok tt.

Definition validate_content_length (content_length : N) : check :=
  let max_size := (5 * 1024 * 1024 * 1024)%N in
  if (max_size <? content_length)%N
  then Err ("Content-Length (" +:+ pretty content_length +:+ " bytes) exceeds maximum allowed size")
  else Ok tt.

Definition validate_upload_id (upload_id : string) : check :=
  if Text.is_empty upload_id then Err "Upload ID cannot be empty"
  else if (1024 <? Text.len upload_id)%N then Err "Upload ID is too long"
  else Ok tt.

(** The loop of [validate_part_sequence]; [previous] is [part_numbers[i - 1]]. *)
Fixpoint validate_parts_after (previous : option N) (part_numbers : list N) : check :=
  match part_numbers with
  | [] => Ok tt
  | part_num :: rest =>
      _ ← validate_part_number part_num;
      match previous with
      | Some prev =>
          if negb (part_num =? prev + 1)%N
          then Err ("Parts must be in contiguous sequence. Expected part " +:+ pretty (prev + 1)%N
                    +:+ ", got " +:+ pretty part_num)
          else validate_parts_after (Some part_num) rest
      | None =>
          if negb (part_num =? 1)%N then Err "Part sequence must start with part number 1"
          else validate_parts_after (Some part_num) rest
      end
  end.
Definition validate_part_sequence (part_numbers : list N) : check :=
  validate_parts_after None part_numbers.

(** ** Theorems *)

Lemma all_ascii_app p s t : all_ascii p (s +:+ t) = all_ascii p s && all_ascii p t.
Proof. induction s as [|a s IH]; [done|]. rewrite Text.app_cons. simpl. by rewrite IH, andb_assoc. Qed.

(** The documented rules for a bucket name. *)
Record bucket_name_rules (name : string) : Prop := mkBucketNameRules {
  bn_length : (3 <= Text.len name <= 63)%N;
  bn_first : is_some_and is_ascii_alphanumeric (first_char name) = true;
  bn_last : is_some_and is_ascii_alphanumeric (last_char name) = true;
  bn_chars : all_ascii bucket_char name = true;
  bn_periods : ~ exists l r, name = l +:+ ".." +:+ r;
  bn_address : ipv4_like name = false;
  bn_prefix : forall p t, p ∈ RESERVED_PREFIXES -> name <> p +:+ t;
  bn_suffix : forall p, p ∈ RESERVED_SUFFIXES -> Text.ends_with name p = false }.

Lemma existsb_false {A} (p : A -> bool) l : existsb p l = false <-> forall a, a ∈ l -> p a = false.
Proof.
  rewrite <- not_true_iff_false, existsb_true. split.
  - intros Hn a Ha. apply not_true_iff_false. intros Hp. by apply Hn; exists a.
  - intros Hall (a & Ha & Hp). specialize (Hall a Ha). congruence.
Qed.

(** validate_bucket_name accepts exactly the
    names that satisfy the naming rules, and an accepted name is a single safe
    path component. *)
Theorem validate_bucket_name_rules name :
  (validate_bucket_name name = Ok tt <-> bucket_name_rules name) /\
  (validate_bucket_name name = Ok tt ->
   Text.contains name "/" = false /\ name <> "." /\ name <> ".." /\ name <> "").
Proof.
  assert (validate_bucket_name name = Ok tt <-> bucket_name_rules name) as Hiff.
  { unfold validate_bucket_name.
    destruct (N.ltb_spec (Text.len name) 3) as [?|H1]; [split; [done|intros [? _ _ _ _ _ _ _]; lia]|].
    destruct (N.ltb_spec 63 (Text.len name)) as [?|H2]; [split; [done|intros [? _ _ _ _ _ _ _]; lia]|].
    destruct (is_some_and _ (first_char name)) eqn:H3; [|split; [done|intros Hr; by rewrite (bn_first _ Hr) in H3]].
    destruct (is_some_and _ (last_char name)) eqn:H4; [|split; [done|intros Hr; by rewrite (bn_last _ Hr) in H4]].
    cbn [negb orb].
    destruct (all_ascii bucket_char name) eqn:H5; [|split; [done|intros Hr; by rewrite (bn_chars _ Hr) in H5]].
    cbn [negb]. destruct (Text.contains name "..") eqn:H6.
    { split; [done|]. intros Hr. apply Text.contains_spec in H6. by destruct (bn_periods _ Hr). }
    destruct (ipv4_like name) eqn:H7; [split; [done|intros Hr; by rewrite (bn_address _ Hr) in H7]|].
    destruct (existsb _ RESERVED_PREFIXES) eqn:H8.
    { split; [done|]. intros Hr. apply existsb_true in H8 as (p & Hp & [t Ht]%Text.starts_with_spec).
      by destruct (bn_prefix _ Hr p t Hp). }
    destruct (existsb _ RESERVED_SUFFIXES) eqn:H9.
    { split; [done|]. intros Hr. apply existsb_true in H9 as (p & Hp & Ht).
      by rewrite (bn_suffix _ Hr p Hp) in Ht. }
    split; [intros _|done]. rewrite existsb_false in H8, H9. split; try done.
    - intros Hp. apply not_true_iff_false in H6. apply H6. by apply Text.contains_spec.
    - intros p t Hp ->. specialize (H8 p Hp). by rewrite Text.starts_with_app in H8. }
  split; [done|]. rewrite Hiff. intros Hr. pose proof (bn_chars _ Hr) as Hc. split_and!.
  - apply not_true_iff_false. intros (l & r & ->)%Text.contains_spec.
    rewrite !all_ascii_app, !andb_true_iff in Hc. by destruct Hc as (_ & ? & _).
  - intros ->. by destruct (bn_length _ Hr).
  - intros ->. by destruct (bn_length _ Hr).
  - intros ->. by destruct (bn_length _ Hr).
Qed.

Lemma validate_part_number_spec n : validate_part_number n = Ok tt <-> (1 <= n <= 10000)%N.
Proof.
  unfold validate_part_number. destruct (N.ltb_spec n 1); [split; [done|lia]|].
  destruct (N.ltb_spec 10000 n); split; try done; lia.
Qed.

Lemma validate_parts_after_spec prev part_numbers :
  validate_parts_after prev part_numbers = Ok tt <->
  part_numbers = (fun i => from_option id 0%N prev + N.of_nat i)%N <$> seq 1 (length part_numbers) /\
  (part_numbers <> [] -> from_option id 0%N prev + N.of_nat (length part_numbers) <= 10000)%N.
Proof.
  revert prev. induction part_numbers as [|n ns IH]; intros prev; simpl; [done|].
  destruct (validate_part_number n) as [[]|err] eqn:En; simpl; cycle 1.
  { split; [done|]. intros [[= Hn _] Hle]. specialize (Hle ltac:(done)).
    assert (validate_part_number n = Ok tt) by (apply validate_part_number_spec; lia). congruence. }
  apply validate_part_number_spec in En.
  assert (forall p : N, (if negb (n =? p + 1)%N then False else validate_parts_after (Some n) ns = Ok tt) <->
    (n :: ns = (p + N.of_nat 1)%N :: ((fun i => p + N.of_nat i)%N <$> seq 2 (length ns)) /\
     (n :: ns <> [] -> p + N.of_nat (S (length ns)) <= 10000)%N)) as Hstep.
  { intros p. destruct (N.eqb_spec n (p + 1)) as [->|Hne]; cbn [negb].
    - rewrite IH. cbn [from_option]. unfold id. rewrite <- (fmap_S_seq 1), <- list_fmap_compose.
      assert ((fun i => (p + 1 + N.of_nat i)%N) <$> seq 1 (length ns) =
              ((fun i => (p + N.of_nat i)%N) ∘ S) <$> seq 1 (length ns)) as ->.
      { apply list_fmap_ext. intros ? i _. unfold compose. lia. }
      split.
      + intros [Heq Hle]. split; [by f_equal|]. intros _. destruct ns as [|n' ns]; [simpl; lia|].
        specialize (Hle ltac:(done)). lia.
      + intros [[= Heq] Hle]. split; [done|]. intros _. specialize (Hle ltac:(done)). lia.
    - split; [done|]. intros [[= Hn _] _]. lia. }
  destruct prev as [p|]; simpl.
  - rewrite <- (Hstep p). destruct (n =? p + 1)%N; simpl; [tauto|]. split; [intros Hx; discriminate Hx|done].
  - rewrite <- (Hstep 0%N). change (0 + 1)%N with 1%N. destruct (n =? 1)%N; simpl; [tauto|]. split; [intros Hx; discriminate Hx|done].
Qed.

(** A part sequence is accepted exactly when it is 1, 2, ... up to 10000. *)
Theorem validate_part_sequence_spec part_numbers :
  validate_part_sequence part_numbers = Ok tt <->
  part_numbers = N.of_nat <$> seq 1 (length part_numbers) /\ (N.of_nat (length part_numbers) <= 10000)%N.
Proof.
  unfold validate_part_sequence. rewrite validate_parts_after_spec. simpl.
  assert ((fun i => (0 + N.of_nat i)%N) <$> seq 1 (length part_numbers) =
          N.of_nat <$> seq 1 (length part_numbers)) as -> by done.
  split; intros [Heq Hle]; (split; [done|]).
  - destruct part_numbers; [simpl; lia|]. specialize (Hle ltac:(done)). lia.
  - intros _. lia.
Qed.
