(* ===== verification/Wildcard.v ===== *)
(** * Wildcard: [Authorizer::wildcard_match] of [src/models/policy.rs]

    The backtracking loop that decides the [StringLike]/[ArnLike] conditions,
    on the code points of the pattern and of the value, with the declarative
    reading of such a pattern it is compared with. *)

From S2P Require Import Prelude Text.

Module Wildcard.

Definition STAR : N := 42.
Definition QUESTION : N := 63.

(** The mutable variables of the loop. *)
Record State : Type := mkState {
  pattern_index : nat;
  value_index : nat;
  star_index : option nat;
  match_index : nat }.

Definition initial : State := mkState 0 0 None 0.

(** One iteration of [while value_index < value_chars.len()]: the next state,
    or [None] for [return false].  [vc] is [value_chars[value_index]]. *)
Definition step (pattern_chars : list N) (vc : N) (s : State) : option State :=
  let pc := pattern_chars !! pattern_index s in
  if is_some_and (fun c => eqb c QUESTION || eqb c vc) pc then
    Some (mkState (S (pattern_index s)) (S (value_index s)) (star_index s)
                  (match_index s))
  else if is_some_and (fun c => eqb c STAR) pc then
    Some (mkState (S (pattern_index s)) (value_index s)
                  (Some (pattern_index s)) (value_index s))
  else match star_index s with
       | Some star_position =>
           Some (mkState (S star_position) (S (match_index s))
                         (Some star_position) (S (match_index s)))
       | None => None
       end.

(** The second loop and the final comparison: only stars may be left. *)
Fixpoint only_stars (p : list N) : bool :=
  match p with [] => true | c :: p' => eqb c STAR && only_stars p' end.

(** The loop; [None] when the fuel is used up. *)
Fixpoint run (fuel : nat) (pattern_chars value_chars : list N) (s : State)
    : option bool :=
  match fuel with
  | O => None
  | S n =>
      match value_chars !! value_index s with
      | Some vc =>
          match step pattern_chars vc s with
          | Some s' => run n pattern_chars value_chars s'
          | None => Some false
          end
      | None => Some (only_stars (drop (pattern_index s) pattern_chars))
      end
  end.

(** Enough fuel for every run: see [run_terminates]. *)
Definition enough_fuel (p v : list N) : nat :=
  S ((length p + 2) * (S (length v) * S (length v))).

Definition match_chars (p v : list N) : bool :=
  default false (run (enough_fuel p v) p v initial).

Definition wildcard_match (pattern value : string) : bool :=
  match_chars (Text.chars pattern) (Text.chars value).

(** ** What a pattern means *)

Inductive glob : list N -> list N -> Prop :=
| glob_nil : glob [] []
| glob_skip p v : glob p v -> glob (STAR :: p) v
| glob_take p c v : glob (STAR :: p) v -> glob (STAR :: p) (c :: v)
| glob_any p c v : glob p v -> glob (QUESTION :: p) (c :: v)
| glob_char p c v : glob p v -> glob (c :: p) (c :: v).

#[local] Hint Constructors glob : core.

(** ** Termination *)

(** The progress of a run, ordered lexicographically by the last star, the
    position it was last retried at, and the position in the value. *)
Definition progress (lv : nat) (s : State) : nat :=
  from_option S 0 (star_index s) * (S lv * S lv)
  + match_index s * S lv + value_index s.

Record inv_bounds (p v : list N) (s : State) : Prop := {
  ib_value : value_index s <= length v;
  ib_pattern : pattern_index s <= length p;
  ib_match : match_index s <= value_index s;
  ib_star : forall k, star_index s = Some k -> k < pattern_index s }.

Lemma initial_bounds p v : inv_bounds p v initial.
Proof. split; simpl; lia || done. Qed.

Lemma step_bounds p v vc s s' :
  inv_bounds p v s -> v !! value_index s = Some vc ->
  step p vc s = Some s' -> inv_bounds p v s'.
Proof.
  intros [Hv Hp Hm Hs] Hvc Hst. apply lookup_lt_Some in Hvc.
  unfold step in Hst. destruct (p !! pattern_index s) as [c|] eqn:Hpc; simpl in Hst.
  - apply lookup_lt_Some in Hpc.
    repeat case_step; simplify_eq; split; simpl in *; naive_solver lia.
  - case_step; simplify_eq. specialize (Hs _ eq_refl).
    split; simpl; [lia..|]. naive_solver lia.
Qed.

Lemma step_progress p v vc s s' :
  inv_bounds p v s -> v !! value_index s = Some vc ->
  step p vc s = Some s' -> progress (length v) s < progress (length v) s'.
Proof.
  intros [Hv Hp Hm Hs] Hvc Hst. apply lookup_lt_Some in Hvc. unfold step in Hst.
  unfold progress. set (W := S (length v) * S (length v)). set (L := S (length v)).
  pose proof (Nat.mul_le_mono_r _ _ L Hm).
  repeat case_step; simplify_eq; simpl.
  - lia.
  - destruct (star_index s) as [k|] eqn:Hk; simpl.
    + pose proof (Nat.mul_le_mono_r _ _ W (Hs k eq_refl)). lia.
    + lia.
  - lia.
Qed.

Lemma progress_bound p v s :
  inv_bounds p v s ->
  progress (length v) s < (length p + 2) * (S (length v) * S (length v)).
Proof.
  intros [Hv Hp Hm Hs]. unfold progress. set (L := S (length v)).
  assert (match_index s * L + value_index s < L * L).
  { assert (match_index s * L <= length v * L) by (apply Nat.mul_le_mono_r; lia).
    unfold L at 3. simpl. lia. }
  destruct (star_index s) as [k|] eqn:Hk; simpl from_option.
  - specialize (Hs k eq_refl).
    assert (S k * (L * L) <= length p * (L * L)) by (apply Nat.mul_le_mono_r; lia).
    lia.
  - lia.
Qed.

Lemma run_terminates p v n s :
  inv_bounds p v s ->
  (length p + 2) * (S (length v) * S (length v)) <= n + progress (length v) s ->
  is_Some (run n p v s).
Proof.
  revert s. induction n as [|n IH]; intros s Hb Hn.
  - pose proof (progress_bound _ _ _ Hb). lia.
  - simpl. destruct (v !! value_index s) as [vc|] eqn:Hvc; [|done].
    destruct (step p vc s) as [s'|] eqn:Hst; [|done].
    apply IH; [by eapply step_bounds|].
    pose proof (step_progress _ _ _ _ _ Hb Hvc Hst). lia.
Qed.

Lemma match_chars_total p v :
  run (enough_fuel p v) p v initial = Some (match_chars p v).
Proof.
  unfold match_chars.
  destruct (run_terminates p v (enough_fuel p v) initial) as [b ->]; [apply initial_bounds| |done].
  unfold enough_fuel, progress; simpl. lia.
Qed.

(** ** Soundness: an accepted value matches the pattern *)

Lemma glob_app p1 v1 p2 v2 : glob p1 v1 -> glob p2 v2 -> glob (p1 ++ p2) (v1 ++ v2).
Proof. intros H1 H2. induction H1; simpl; auto. Qed.

Lemma glob_star_l p v w : glob (STAR :: p) w -> glob (STAR :: p) (v ++ w).
Proof. intros H. induction v; simpl; auto. Qed.

Lemma glob_stars p : only_stars p = true -> glob p [].
Proof.
  induction p as [|c p IH]; simpl; [done|]. rewrite andb_true_iff, eqb_true.
  intros [-> H]. auto.
Qed.

Lemma glob_one (c vc : N) :
  eqb c QUESTION || eqb c vc = true -> glob [c] [vc].
Proof. rewrite orb_true_iff, !eqb_true. intros [-> | ->]; auto. Qed.

(** A match that ends in a star absorbs one more character. *)
Lemma glob_grow p v c : glob (p ++ [STAR]) v -> glob (p ++ [STAR]) (v ++ [c]).
Proof.
  intros H. remember (p ++ [STAR]) as q eqn:Hq. revert p Hq.
  induction H as [|q v H IH|q d v H IH|q d v H IH|q d v H IH]; intros p Hq.
  - by destruct p.
  - destruct p as [|a p]; simplify_eq/=.
    + inversion H; subst. simpl. auto.
    + apply glob_skip, (IH p eq_refl).
  - simpl. apply glob_take, (IH p Hq).
  - destruct p as [|a p]; simplify_eq/=. apply glob_any, (IH p eq_refl).
  - destruct p as [|a p]; simplify_eq/=.
    + inversion H; subst. simpl. apply glob_take. auto.
    + apply glob_char, (IH p eq_refl).
Qed.

(** What has been consumed of the pattern matches what has been consumed of the
    value, now and at the last star. *)
Record inv_sound (p v : list N) (s : State) : Prop := {
  is_here : glob (take (pattern_index s) p) (take (value_index s) v);
  is_star : forall k, star_index s = Some k ->
    p !! k = Some STAR /\ glob (take (S k) p) (take (match_index s) v);
  is_match : match_index s <= value_index s }.

(** Restarting after the last star, one character further on. *)
Lemma backtrack_sound p v vc s k :
  inv_sound p v s -> v !! value_index s = Some vc -> star_index s = Some k ->
  inv_sound p v (mkState (S k) (S (match_index s)) (Some k) (S (match_index s))).
Proof.
  intros [Hh Hs Hm] Hvc Hk. destruct (Hs k Hk) as [HpS Hg].
  assert (is_Some (v !! match_index s)) as [mc Hmc].
  { apply lookup_lt_is_Some. apply lookup_lt_Some in Hvc. lia. }
  assert (glob (take (S k) p) (take (S (match_index s)) v)) as Hg'.
  { rewrite (take_S_r v _ mc) by done.
    rewrite (take_S_r p _ STAR) in Hg |- * by done. by apply glob_grow. }
  split; simpl; [done| |lia]. by intros ? [= <-].
Qed.

Lemma step_sound p v vc s s' :
  inv_sound p v s -> v !! value_index s = Some vc ->
  step p vc s = Some s' -> inv_sound p v s'.
Proof.
  intros Hi Hvc Hst. pose proof (fun k => backtrack_sound _ _ _ _ k Hi Hvc) as Hb.
  destruct Hi as [Hh Hs Hm]. unfold step in Hst.
  destruct (p !! pattern_index s) as [c|] eqn:Hpc; simpl in Hst.
  - destruct (eqb c QUESTION || eqb c vc) eqn:Hc.
    { injection Hst as <-. split; simpl; [|exact Hs|lia].
      rewrite (take_S_r p _ c), (take_S_r v _ vc) by done.
      by apply glob_app, glob_one. }
    destruct (eqb c STAR) eqn:Hstar; [|case_step; simplify_eq; auto].
    apply eqb_true in Hstar as ->. injection Hst as <-.
    assert (glob (take (S (pattern_index s)) p) (take (value_index s) v)).
    { rewrite (take_S_r p _ STAR) by done. rewrite <- (app_nil_r (take _ v)).
      apply glob_app; auto. }
    split; simpl; [done| |lia]. by intros k [= <-].
  - case_step; simplify_eq; auto.
Qed.

Lemma run_sound p v n s :
  inv_sound p v s -> run n p v s = Some true -> glob p v.
Proof.
  revert s. induction n as [|n IH]; intros s Hi Hr; simpl in Hr; [done|].
  destruct (v !! value_index s) as [vc|] eqn:Hvc.
  - destruct (step p vc s) as [s'|] eqn:Hst; [|done].
    eapply IH; [|done]. by eapply step_sound.
  - simplify_eq. apply lookup_ge_None in Hvc.
    destruct Hi as [Hh _ _]. rewrite (take_ge v) in Hh by lia.
    rewrite <- (take_drop (pattern_index s) p), <- (app_nil_r v).
    apply glob_app; [done|]. apply glob_stars. congruence.
Qed.

Lemma match_chars_sound p v : match_chars p v = true -> glob p v.
Proof.
  intros H. eapply (run_sound p v (enough_fuel p v) initial).
  - split; simpl; [constructor|done|lia].
  - rewrite match_chars_total. congruence.
Qed.

(** ** Completeness on values without a star *)

Lemma glob_cons_inv c p w :
  glob (c :: p) w -> c <> STAR ->
  exists x w', w = x :: w' /\ glob p w' /\ (c = QUESTION \/ c = x).
Proof. intros H Hc. inversion H; subst; naive_solver. Qed.

Lemma glob_star_inv p w : glob (STAR :: p) w -> exists n, glob p (drop n w).
Proof.
  intros H. remember (STAR :: p) as q eqn:Hq.
  induction H as [|q v H IH|q c v H IH|q c v H IH|q c v H IH]; simplify_eq.
  - by exists 0.
  - destruct IH as [n Hn]; [done|]. by exists (S n).
  - by exists 1.
Qed.

Lemma glob_nil_stars p : glob p [] -> only_stars p = true.
Proof.
  remember [] as w eqn:Hw. induction 1; simplify_eq; [done|].
  apply andb_true_iff. split; [by apply eqb_true|auto].
Qed.

(** A star-free stretch of the pattern consumes as many characters. *)
Lemma glob_consume p v i j L :
  glob (drop i p) (drop j v) -> i + L <= length p ->
  (forall k, i <= k -> k < i + L -> p !! k <> Some STAR) ->
  glob (drop (i + L) p) (drop (j + L) v).
Proof.
  intros Hg. induction L as [|L IH]; intros HL Hfree.
  - by rewrite !Nat.add_0_r.
  - specialize (IH ltac:(lia) ltac:(intros; apply Hfree; lia)).
    destruct (lookup_lt_is_Some_2 p (i + L)) as [c Hc]; [lia|].
    rewrite (drop_S _ c) in IH by done.
    apply glob_cons_inv in IH as (x & w & Hw & Hg' & _).
    + replace (i + S L) with (S (i + L)) by lia.
      replace (drop (j + S L) v) with w; [done|].
      replace (j + S L) with ((j + L) + 1) by lia.
      by rewrite <- drop_drop, Hw.
    + intros ->. by eapply Hfree; [| |done]; lia.
Qed.

(** The rest of the value can still be matched, from here or from a later retry
    of the last star. *)
Record inv_complete (p v : list N) (s : State) : Prop := {
  ic_none : star_index s = None ->
    glob (drop (pattern_index s) p) (drop (value_index s) v);
  ic_star : forall k, star_index s = Some k ->
    value_index s = match_index s + (pattern_index s - S k) /\
    (forall i, S k <= i -> i < S k + (pattern_index s - S k) -> p !! i <> Some STAR) /\
    exists j, match_index s <= j /\ glob (drop (S k) p) (drop j v) }.

(** From a retry at [j], the match reaches the current pattern position. *)
Lemma retry_here p v s k j :
  inv_bounds p v s -> star_index s = Some k ->
  (forall i, S k <= i -> i < S k + (pattern_index s - S k) -> p !! i <> Some STAR) ->
  glob (drop (S k) p) (drop j v) ->
  glob (drop (pattern_index s) p) (drop (j + (pattern_index s - S k)) v).
Proof.
  intros [_ Hp _ Hs] Hk Hfree Hg. specialize (Hs k Hk).
  pose proof (glob_consume p v (S k) j (pattern_index s - S k) Hg) as H.
  replace (S k + (pattern_index s - S k)) with (pattern_index s) in * by lia.
  by apply H.
Qed.

(** A pattern position that neither matches the character nor is a star. *)
Lemma mismatch_absurd p v i j vc :
  glob (drop i p) (drop j v) -> v !! j = Some vc ->
  is_some_and (fun c => eqb c QUESTION || eqb c vc) (p !! i) = false ->
  is_some_and (fun c => eqb c STAR) (p !! i) = false -> False.
Proof.
  intros Hg Hvc H1 H2. rewrite (drop_S v vc) in Hg by done.
  destruct (p !! i) as [c|] eqn:Hp; simpl in *.
  - rewrite (drop_S p c) in Hg by done. apply eqb_false in H2.
    apply orb_false_iff in H1 as [H1 H3]. apply eqb_false in H1, H3.
    apply glob_cons_inv in Hg as (x & w & Hw & _ & [?|?]); simplify_eq; done.
  - rewrite (drop_ge p) in Hg by by apply lookup_ge_None. inversion Hg.
Qed.

Lemma step_complete_match p v vc c s :
  inv_bounds p v s -> inv_complete p v s -> vc <> STAR ->
  v !! value_index s = Some vc -> p !! pattern_index s = Some c ->
  eqb c QUESTION || eqb c vc = true ->
  inv_complete p v (mkState (S (pattern_index s)) (S (value_index s))
                            (star_index s) (match_index s)).
Proof.
  intros [_ _ _ Hb] [Hn Hs] Hvs Hvc Hpc Hc.
  assert (c <> STAR) as Hcs.
  { rewrite orb_true_iff, !eqb_true in Hc. destruct Hc as [->| ->]; done. }
  split; simpl.
  - intros Hk. specialize (Hn Hk).
    rewrite (drop_S p c), (drop_S v vc) in Hn by done.
    apply glob_cons_inv in Hn as (x & w & Hw & ? & _); simplify_eq; done.
  - intros k Hk. specialize (Hb k Hk). destruct (Hs k Hk) as (Hv & Hfree & Hj).
    split; [lia|]. split; [|done]. intros i Hi1 Hi2.
    destruct (decide (i = pattern_index s)) as [->|]; [naive_solver|].
    apply Hfree; lia.
Qed.

Lemma step_complete_star p v s :
  inv_bounds p v s -> inv_complete p v s -> p !! pattern_index s = Some STAR ->
  inv_complete p v (mkState (S (pattern_index s)) (value_index s)
                            (Some (pattern_index s)) (value_index s)).
Proof.
  intros Hb [Hn Hs] Hpc. split; simpl; [done|]. intros k [= <-].
  split; [lia|]. split; [intros; lia|].
  assert (exists j, value_index s <= j /\ glob (drop (pattern_index s) p) (drop j v))
    as (j & Hj & Hg).
  { destruct (star_index s) as [k|] eqn:Hk.
    - destruct (Hs k eq_refl) as (Hv & Hfree & j & Hj & Hg).
      exists (j + (pattern_index s - S k)). split; [lia|]. by eapply retry_here.
    - exists (value_index s). auto. }
  rewrite (drop_S p STAR) in Hg by done. apply glob_star_inv in Hg as [n Hg].
  exists (j + n). rewrite <- drop_drop. split; [lia|done].
Qed.

Lemma step_complete p v vc s :
  inv_bounds p v s -> inv_complete p v s -> vc <> STAR ->
  v !! value_index s = Some vc ->
  exists s', step p vc s = Some s' /\ inv_complete p v s'.
Proof.
  intros Hb Hi Hvs Hvc. unfold step.
  destruct (is_some_and (fun c => eqb c QUESTION || eqb c vc) (p !! pattern_index s)) eqn:H1.
  { apply is_some_and_true in H1 as (c & Hpc & Hc).
    eexists. split; [done|]. by eapply step_complete_match. }
  destruct (is_some_and (fun c => eqb c STAR) (p !! pattern_index s)) eqn:H2.
  { apply is_some_and_true in H2 as (c & Hpc & Hc). apply eqb_true in Hc as ->.
    eexists. split; [done|]. by eapply step_complete_star. }
  destruct (star_index s) as [k|] eqn:Hk.
  - eexists. split; [done|]. split; simpl; [done|]. intros ? [= <-].
    split; [lia|]. split; [intros; lia|].
    destruct Hi as [_ Hs]. destruct (Hs k Hk) as (Hv & Hfree & j & Hj & Hg).
    exists j. split; [|done]. destruct (decide (j = match_index s)) as [->|]; [|lia].
    exfalso. eapply mismatch_absurd; [|exact Hvc|exact H1|exact H2].
    rewrite Hv. by eapply retry_here.
  - exfalso. eapply mismatch_absurd; [|exact Hvc|exact H1|exact H2].
    by apply (ic_none _ _ _ Hi).
Qed.

Lemma run_complete p v n s :
  STAR ∉ v -> inv_bounds p v s -> inv_complete p v s ->
  run n p v s <> Some false.
Proof.
  intros Hstar. revert s. induction n as [|n IH]; intros s Hb Hi; simpl; [done|].
  destruct (v !! value_index s) as [vc|] eqn:Hvc.
  - assert (vc <> STAR) by (intros ->; by eapply Hstar, list_elem_of_lookup_2).
    destruct (step_complete p v vc s) as (s' & Hst & Hi'); try done.
    rewrite Hst. apply IH; [by eapply step_bounds|done].
  - apply lookup_ge_None in Hvc. intros [= H].
    rewrite glob_nil_stars in H; [done|]. destruct (star_index s) as [k|] eqn:Hk.
    + destruct (ic_star _ _ _ Hi k Hk) as (Hv & Hfree & j & Hj & Hg).
      eapply retry_here in Hg; [|done..]. rewrite (drop_ge v) in Hg by lia. done.
    + pose proof (ic_none _ _ _ Hi Hk) as Hg. by rewrite (drop_ge v) in Hg by lia.
Qed.

Lemma match_chars_complete p v : STAR ∉ v -> glob p v -> match_chars p v = true.
Proof.
  intros Hs Hg. destruct (match_chars p v) eqn:E; [done|]. exfalso.
  eapply (run_complete p v (enough_fuel p v) initial).
  - done.
  - apply initial_bounds.
  - split; [done|]. intros k [=].
  - rewrite match_chars_total. congruence.
Qed.

(** ** Properties *)

(** wildcard_match never accepts a value the
    pattern does not match, also when the value contains stars. *)
Theorem wildcard_match_sound pattern value :
  wildcard_match pattern value = true ->
  glob (Text.chars pattern) (Text.chars value).
Proof. apply match_chars_sound. Qed.

Lemma wildcard_match_sound_witness :
  glob (Text.chars "arn:aws:s3:::b/*.t?t") (Text.chars "arn:aws:s3:::b/x.y.txt").
Proof. apply (wildcard_match_sound "arn:aws:s3:::b/*.t?t"). vm_compute. reflexivity. Defined.

(** [wildcard_match_decides]. For a value without a star, wildcard_match
    decides the declarative glob relation: question mark stands for one
    character and star for any run of characters. *)
Theorem wildcard_match_decides pattern value :
  STAR ∉ Text.chars value ->
  wildcard_match pattern value = true <->
  glob (Text.chars pattern) (Text.chars value).
Proof.
  intros Hs. split; [apply match_chars_sound|by apply match_chars_complete].
Qed.

Lemma wildcard_match_decides_witness :
  wildcard_match "logs/*/2024-??" "logs/a/b/2024-07" = true /\
  ~ glob (Text.chars "logs/*/2024-??") (Text.chars "logs/a/b/2024-7").
Proof.
  split; [vm_compute; reflexivity|].
  rewrite <- (wildcard_match_decides "logs/*/2024-??" "logs/a/b/2024-7").
  - vm_compute. discriminate.
  - apply (bool_decide_unpack _). vm_compute. exact I.
Defined.

(** [wildcard_star_in_value_missed]. wildcard_match rejects some values the
    pattern matches: a star of the value is compared literally with a star of
    the pattern, so the pattern star is consumed. *)
Theorem wildcard_star_in_value_missed :
  exists pattern value,
    glob (Text.chars pattern) (Text.chars value) /\
    wildcard_match pattern value = false.
Proof.
  exists "*", "*a". split; [|vm_compute; reflexivity].
  change (glob [STAR] [STAR; 97%N]). by apply glob_take, glob_take, glob_skip.
Qed.

End Wildcard.
