(* ===== verification/Policy.v ===== *)
(** * Policy: the authorization engine of [src/models/policy.rs]

    ACL grants, bucket policy documents with their condition operators, and
    [Authorizer], which decides both.  [urlencoding::decode] and Unicode
    [str::to_lowercase] are parameters ([PolicyEnv]); a JSON number is kept as
    the text [serde_json] prints for it. *)

From Stdlib Require Import SpecFloat Ascii.
From Stdlib Require Import Ascii.
From S2P Require Import Prelude Text Models Wildcard.

(** * F64: [f64] as the policy engine uses it

    [str::parse::<f64>], [f64::total_cmp] and the comparison operators, on the
    IEEE 754 binary64 numbers of the Standard Library's [SpecFloat].  A NaN
    keeps its sign, which [total_cmp] distinguishes. *)

Module F64.

Inductive f64 : Type :=
| FNan (negative : bool)
| FNum (x : spec_float).

Definition prec : Z := 53.
Definition emax : Z := 1024.

(** The value [(-1)^negative * digits * 10^exponent], rounded to nearest, ties
    to even. *)
Definition of_decimal (negative : bool) (digits : N) (exponent : Z) : spec_float :=
  match digits with
  | N0 => S754_zero negative
  | Npos d =>
      if (0 <=? exponent)%Z then
        let m := (Zpos d * 10 ^ exponent)%Z in
        binary_normalize prec emax (if negative then (- m)%Z else m) 0 negative
      else
        let '(q, e, l) :=
          SFdiv_core_binary prec emax (Zpos d) 0 (10 ^ (- exponent)) 0 in
        binary_round_aux prec emax negative q e l
  end.

(** ** Parsing *)

(** The leading decimal digits of a text, their value and how many there are. *)
Fixpoint take_digits (acc : N) (count : nat) (s : string) : N * nat * string :=
  match s with
  | String a s' =>
      match Text.digit a with
      | Some d => take_digits (acc * 10 + d) (S count) s'
      | None => (acc, count, s)
      end
  | EmptyString => (acc, count, s)
  end.

(** [Exp ::= 'e' Sign? Digit+], or nothing. *)
Definition parse_exponent (s : string) : option Z :=
  match s with
  | EmptyString => Some 0%Z
  | String a s' =>
      if eqb (Text.ascii_lower a) "e"%char then
        let '(neg, s'') :=
          match s' with
          | String "-" t => (true, t)
          | String "+" t => (false, t)
          | _ => (false, s')
          end%char in
        match take_digits 0 0 s'' with
        | (n, S _, EmptyString) =>
            Some (if neg : bool then (- Z.of_N n)%Z else Z.of_N n)
        | _ => None
        end
      else None
  end.

(** [Number ::= ( Digit+ | Digit+ '.' Digit* | Digit* '.' Digit+ ) Exp?] *)
Definition parse_number (negative : bool) (s : string) : option f64 :=
  let '(whole, nwhole, rest) := take_digits 0 0 s in
  let '(value, nfrac, rest') :=
    match rest with
    | String "." t => take_digits whole 0 t
    | _ => (whole, 0, rest)
    end%char in
  if (nwhole + nfrac =? 0)%nat then None
  else e ← parse_exponent rest';
       Some (FNum (of_decimal negative value (e - Z.of_nat nfrac))).

(** [str::parse::<f64>] *)
Definition parse (s : string) : option f64 :=
  let '(negative, body) :=
    match s with
    | String "-" t => (true, t)
    | String "+" t => (false, t)
    | _ => (false, s)
    end%char in
  let lowered := Text.to_ascii_lowercase body in
  if eqb lowered "inf" || eqb lowered "infinity" then Some (FNum (S754_infinity negative))
  else if eqb lowered "nan" then Some (FNan negative)
  else parse_number negative body.

(** ** Comparison *)

(** [total_cmp(..).is_eq()]: the same bit pattern (the NaNs parsing produces
    differ only in sign). *)
Definition total_eq (x y : f64) : bool :=
  match x, y with
  | FNan s, FNan t => Bool.eqb s t
  | FNum (S754_zero s), FNum (S754_zero t) => Bool.eqb s t
  | FNum (S754_infinity s), FNum (S754_infinity t) => Bool.eqb s t
  | FNum (S754_finite s m e), FNum (S754_finite t n f) =>
      Bool.eqb s t && Pos.eqb m n && Z.eqb e f
  | _, _ => false
  end.

(** [<], [<=], [>] and [>=]: false on NaN. *)
Definition ltb (x y : f64) : bool :=
  match x, y with FNum a, FNum b => SFltb a b | _, _ => false end.
Definition leb (x y : f64) : bool :=
  match x, y with FNum a, FNum b => SFleb a b | _, _ => false end.

End F64.

(** ** JSON values of condition blocks ([serde_json::Value]) *)

Inductive Json : Type :=
| JNull
| JBool (b : bool)
| JNumber (text : string)
| JString (s : string)
| JArray (items : list Json)
| JObject (fields : list (string * Json)).

(** [Value::as_object] *)
Definition as_object (v : Json) : option (list (string * Json)) :=
  match v with JObject m => Some m | _ => None end.

Definition bool_to_string (b : bool) : string := if b then "true" else "false".

(** ** Code outside the repository *)

Class PolicyEnv : Type := {
  url_decode : string -> option string;
  to_lowercase : string -> string }.

(** ** Bucket policy documents *)

Inductive StringOrArray : Type :=
| SoaSingle (s : string)
| SoaMultiple (l : list string).

Inductive Principal : Type :=
| PrincipalAll (s : string)
| PrincipalAWS (l : StringOrArray).

Inductive ActionList : Type :=
| ActionSingle (a : string)
| ActionMultiple (l : list string).

Inductive ResourceList : Type :=
| ResourceSingle (r : string)
| ResourceMultiple (l : list string).

Record PolicyStatementDocument : Type := mkStatement {
  st_sid : option string;
  st_effect : string;
  st_principal : Principal;
  st_action : ActionList;
  st_resource : ResourceList;
  st_condition : option Json }.

Record BucketPolicyDocument : Type := mkPolicyDocument {
  pd_version : string;
  pd_statement : list PolicyStatementDocument }.

Inductive PolicyEffect : Type := Allow | Deny | Neutral.

Inductive NumericCondition : Type :=
| NumEquals | NumNotEquals | NumLessThan | NumLessThanEquals
| NumGreaterThan | NumGreaterThanEquals.

(** ** Authorization context *)

Record AuthContext : Type := mkContext {
  c_principal : string;
  c_is_authenticated : bool;
  c_action : string;
  c_resource : string;
  c_bucket_owner : option string;
  c_object_owner : option string;
  c_request_headers : strmap;
  c_query_params : strmap;
  c_existing_object_tags : strmap }.

(** [AuthContext::anonymous] and [AuthContext::authenticated] *)
Definition anonymous (action resource : string) : AuthContext :=
  mkContext "*" false action resource None None ∅ ∅ ∅.
Definition authenticated (principal action resource : string) : AuthContext :=
  mkContext principal true action resource None None ∅ ∅ ∅.

(** ** Access control lists *)

Definition ALL_USERS : string := "http://acs.amazonaws.com/groups/global/AllUsers".
Definition AUTHENTICATED_USERS : string :=
  "http://acs.amazonaws.com/groups/global/AuthenticatedUsers".

Definition owner_grant (owner_id : string) : Grant :=
  mkGrant (CanonicalUser owner_id None) PermFullControl.

(** [Acl::to_grants] *)
Definition to_grants (acl : Acl) (owner_id : string) : list Grant :=
  match grants acl with
  | _ :: _ => grants acl
  | [] =>
      match canned acl with
      | Private | BucketOwnerRead | BucketOwnerFullControl =>
          [owner_grant owner_id]
      | PublicRead =>
          [owner_grant owner_id; mkGrant (Group ALL_USERS) PermRead]
      | PublicReadWrite =>
          [owner_grant owner_id; mkGrant (Group ALL_USERS) PermRead;
           mkGrant (Group ALL_USERS) PermWrite]
      | AuthenticatedRead =>
          [owner_grant owner_id; mkGrant (Group AUTHENTICATED_USERS) PermRead]
      end
  end.

Definition permission_covers_action (p : Permission) (action : string) : bool :=
  match p with
  | PermFullControl => true
  | PermRead =>
      Text.contains action "GetObject" || Text.contains action "ListBucket"
  | PermWrite =>
      Text.contains action "PutObject" || Text.contains action "DeleteObject"
  | PermReadAcp =>
      Text.contains action "GetObjectAcl" || Text.contains action "GetBucketAcl"
  | PermWriteAcp =>
      Text.contains action "PutObjectAcl" || Text.contains action "PutBucketAcl"
  end.

Definition grantee_matches (g : Grantee) (context : AuthContext) : bool :=
  match g with
  | CanonicalUser id _ => eqb (c_principal context) id
  | Group uri =>
      if eqb uri ALL_USERS then true
      else if eqb uri AUTHENTICATED_USERS then c_is_authenticated context
      else false
  end.

Definition grant_matches (g : Grant) (context : AuthContext) : bool :=
  if negb (grantee_matches (grantee g) context) then false
  else permission_covers_action (permission g) (c_action context).

(** [Authorizer::check_acl_permission]: the loop returns at the first grant that
    matches. *)
Fixpoint any_grant_matches (gs : list Grant) (context : AuthContext) : bool :=
  match gs with
  | [] => false
  | g :: gs' => if grant_matches g context then true
                else any_grant_matches gs' context
  end.
Definition check_acl_permission (acl : Acl) (owner_id : string)
    (context : AuthContext) : bool :=
  any_grant_matches (to_grants acl owner_id) context.

(** ** Condition values *)

Definition parse_bool (value : string) : option bool :=
  let v := Text.to_ascii_lowercase (Text.trim value) in
  if eqb v "true" || eqb v "1" || eqb v "on" then Some true
  else if eqb v "false" || eqb v "0" || eqb v "off" then Some false
  else None.

Definition scalar_to_string (v : Json) : option string :=
  match v with
  | JString s => Some s
  | JBool b => Some (bool_to_string b)
  | JNumber t => Some t
  | _ => None
  end.

Definition json_values_to_strings (value : Json) : option (list string) :=
  match value with
  | JArray values => mapM scalar_to_string values
  | _ => v ← scalar_to_string value; Some [v]
  end.

Definition first_word (value : string) : string :=
  match Text.split ","%char value with w :: _ => w | [] => EmptyString end.

Definition secure_transport_value (context : AuthContext) : bool :=
  match c_request_headers context !! "x-forwarded-proto" with
  | Some value =>
      Text.eq_ignore_ascii_case (Text.trim (first_word value)) "https"
  | None =>
  match c_request_headers context !! "x-forwarded-ssl" with
  | Some value =>
      Text.eq_ignore_ascii_case value "on"
      || Text.eq_ignore_ascii_case value "true" || eqb value "1"
  | None =>
  match c_request_headers context !! "x-forwarded-scheme" with
  | Some value => Text.eq_ignore_ascii_case value "https"
  | None => false
  end end end.

(** [first.or_else(|| second)] *)
Definition or_else {A} (first second : option A) : option A :=
  match first with Some a => Some a | None => second end.

Definition source_ip_values (context : AuthContext) : list string :=
  match or_else (c_request_headers context !! "x-forwarded-for")
                (c_request_headers context !! "x-real-ip") with
  | Some value =>
      let v := Text.trim (first_word value) in
      if Text.is_empty v then [] else [v]
  | None => []
  end.

(** ** Condition operators on the values of the request *)

Definition null_condition_matches (request_values expected_values : list string)
    : bool :=
  let is_missing := match request_values with [] => true | _ => false end in
  existsb (fun expected_missing => Bool.eqb expected_missing is_missing)
          (omap parse_bool expected_values).

Definition bool_condition_matches (request_values expected_values : list string)
    : bool :=
  match request_values with
  | [] => false
  | _ =>
      let expected_bools := omap parse_bool expected_values in
      existsb (fun v =>
        is_some_and (fun b => existsb (Bool.eqb b) expected_bools) (parse_bool v))
        request_values
  end.

Definition string_condition_matches (request_values expected_values : list string)
    (negated : bool) : bool :=
  match request_values with
  | [] => negated
  | _ =>
      if negated then
        forallb (fun v => forallb (fun e => negb (eqb v e)) expected_values)
                request_values
      else
        existsb (fun v => existsb (fun e => eqb v e) expected_values)
                request_values
  end.

Definition wildcard_condition_matches
    (request_values expected_values : list string) (negated : bool) : bool :=
  match request_values with
  | [] => negated
  | _ =>
      if negated then
        forallb (fun v => forallb (fun e => negb (Wildcard.wildcard_match e v))
                                  expected_values) request_values
      else
        existsb (fun v => existsb (fun e => Wildcard.wildcard_match e v)
                                  expected_values) request_values
  end.

Definition numeric_condition_matches
    (request_values expected_values : list string) (condition : NumericCondition)
    : bool :=
  match request_values with
  | [] => match condition with NumNotEquals => true | _ => false end
  | _ =>
      let expected_numbers := omap F64.parse expected_values in
      let any rel := existsb (fun v =>
        is_some_and (fun x => existsb (rel x) expected_numbers) (F64.parse v))
        request_values in
      match expected_numbers with
      | [] => false
      | _ =>
          match condition with
          | NumEquals => any F64.total_eq
          | NumNotEquals =>
              forallb (fun v =>
                is_some_and (fun x =>
                  forallb (fun e => negb (F64.total_eq x e)) expected_numbers)
                  (F64.parse v)) request_values
          | NumLessThan => any F64.ltb
          | NumLessThanEquals => any F64.leb
          | NumGreaterThan => any (fun x e => F64.ltb e x)
          | NumGreaterThanEquals => any (fun x e => F64.leb e x)
          end
      end
  end.

(** ** Principals, actions and resources *)

Definition principal_matches (p : Principal) (context : AuthContext) : bool :=
  match p with
  | PrincipalAll s => eqb s "*"
  | PrincipalAWS (SoaSingle s) => eqb s (c_principal context) || eqb s "*"
  | PrincipalAWS (SoaMultiple l) =>
      existsb (fun s => eqb s (c_principal context)) l || existsb (fun s => eqb s "*") l
  end.

Definition check_action (context_action action : string) : bool :=
  if eqb action "*" || eqb action "s3:*" then true
  else if Text.ends_with action "*"
       then Text.starts_with context_action (Text.trim_end_matches action "*"%char)
       else eqb action context_action.

Definition action_matches (actions : ActionList) (context_action : string) : bool :=
  match actions with
  | ActionSingle a => check_action context_action a
  | ActionMultiple l => existsb (check_action context_action) l
  end.

Definition check_resource (context_resource resource : string) : bool :=
  if eqb resource "*" then true
  else if Text.ends_with resource "*"
       then Text.starts_with context_resource (Text.trim_end_matches resource "*"%char)
       else eqb resource context_resource.

Definition resource_matches (resources : ResourceList) (context_resource : string)
    : bool :=
  match resources with
  | ResourceSingle r => check_resource context_resource r
  | ResourceMultiple l => existsb (check_resource context_resource) l
  end.

(** ** Statements and documents *)

Section Engine.
Context `{PolicyEnv}.

Definition EXISTING_TAG : string := "s3:ExistingObjectTag/".
Definition REQUEST_TAG : string := "s3:RequestObjectTag/".

(** [urlencoding::decode(..).unwrap_or_default()] *)
Definition decoded (s : string) : string := default EmptyString (url_decode s).

(** [parse_key_value_pairs]: a later pair replaces an earlier one. *)
Definition insert_pair (values : strmap) (pair : string) : strmap :=
  if Text.is_empty pair then values
  else match Text.split_once "="%char pair with
       | Some (key, raw) => <[decoded key := decoded raw]> values
       | None => values
       end.
Definition parse_key_value_pairs (input : string) : strmap :=
  foldl insert_pair ∅ (Text.split "&"%char input).

Definition request_object_tag_values (context : AuthContext) (tag_key : string)
    : list string :=
  match c_request_headers context !! "x-amz-tagging" with
  | Some tagging => option_list (parse_key_value_pairs tagging !! tag_key)
  | None => []
  end.

Definition values_for_condition_key (key : string) (context : AuthContext)
    : list string :=
  if eqb key "aws:PrincipalArn" || eqb key "aws:userid" then [c_principal context]
  else if eqb key "aws:PrincipalType" then
    [if c_is_authenticated context then "Authenticated" else "Anonymous"]
  else if eqb key "aws:SecureTransport" then
    [bool_to_string (secure_transport_value context)]
  else if eqb key "aws:SourceIp" then source_ip_values context
  else if Text.starts_with key EXISTING_TAG then
    option_list (c_existing_object_tags context
                   !! Text.trim_start_matches key EXISTING_TAG)
  else if Text.starts_with key REQUEST_TAG then
    request_object_tag_values context (Text.trim_start_matches key REQUEST_TAG)
  else if Text.starts_with key "s3:" then
    let suffix := to_lowercase (Text.trim_start_matches key "s3:") in
    option_list (or_else (c_query_params context !! suffix)
                         (c_request_headers context !! suffix))
  else
    let lowered := to_lowercase key in
    option_list (or_else (c_request_headers context !! lowered)
                         (c_query_params context !! lowered)).

(** The [match operator] of [condition_key_matches]. *)
Definition operator_matches (operator : string)
    (request_values expected_values : list string) : bool :=
  if eqb operator "Null" then null_condition_matches request_values expected_values
  else if eqb operator "Bool" then bool_condition_matches request_values expected_values
  else if eqb operator "StringEquals" || eqb operator "ArnEquals" then
    string_condition_matches request_values expected_values false
  else if eqb operator "StringNotEquals" || eqb operator "ArnNotEquals" then
    string_condition_matches request_values expected_values true
  else if eqb operator "StringLike" || eqb operator "ArnLike" then
    wildcard_condition_matches request_values expected_values false
  else if eqb operator "StringNotLike" || eqb operator "ArnNotLike" then
    wildcard_condition_matches request_values expected_values true
  else if eqb operator "NumericEquals" then
    numeric_condition_matches request_values expected_values NumEquals
  else if eqb operator "NumericNotEquals" then
    numeric_condition_matches request_values expected_values NumNotEquals
  else if eqb operator "NumericLessThan" then
    numeric_condition_matches request_values expected_values NumLessThan
  else if eqb operator "NumericLessThanEquals" then
    numeric_condition_matches request_values expected_values NumLessThanEquals
  else if eqb operator "NumericGreaterThan" then
    numeric_condition_matches request_values expected_values NumGreaterThan
  else if eqb operator "NumericGreaterThanEquals" then
    numeric_condition_matches request_values expected_values NumGreaterThanEquals
  else false.

Definition condition_key_matches (operator key : string) (expected : Json)
    (context : AuthContext) : bool :=
  let request_values := values_for_condition_key key context in
  match json_values_to_strings expected with
  | Some (e :: es) => operator_matches operator request_values (e :: es)
  | _ => false
  end.

Definition condition_operator_matches (operator : string) (operands : Json)
    (context : AuthContext) : bool :=
  match as_object operands with
  | None => false
  | Some m => forallb (fun '(key, expected) =>
                condition_key_matches operator key expected context) m
  end.

Definition conditions_match (condition : option Json) (context : AuthContext)
    : bool :=
  match condition with
  | None => true
  | Some c =>
      match as_object c with
      | None => false
      | Some m => forallb (fun '(operator, operands) =>
                    condition_operator_matches operator operands context) m
      end
  end.

Definition statement_applies (s : PolicyStatementDocument) (context : AuthContext)
    : bool :=
  if negb (principal_matches (st_principal s) context) then false
  else if negb (action_matches (st_action s) (c_action context)) then false
  else if negb (resource_matches (st_resource s) (c_resource context)) then false
  else if negb (conditions_match (st_condition s) context) then false
  else true.

(** The loop of [evaluate_policy] over its two flags [(has_allow, has_deny)]. *)
Definition scan_statement (context : AuthContext) (flags : bool * bool)
    (s : PolicyStatementDocument) : bool * bool :=
  if negb (statement_applies s context) then flags
  else if eqb (st_effect s) "Allow" then (true, flags.2)
  else if eqb (st_effect s) "Deny" then (flags.1, true)
  else flags.

Definition evaluate_policy (policy : BucketPolicyDocument) (context : AuthContext)
    : PolicyEffect :=
  let '(has_allow, has_deny) :=
    foldl (scan_statement context) (false, false) (pd_statement policy) in
  if has_deny : bool then Deny else if has_allow : bool then Allow else Neutral.

End Engine.

(** ** The operators [condition_key_matches] knows *)

Definition SUPPORTED_OPERATORS : list string :=
  ["Null"; "Bool"; "StringEquals"; "ArnEquals"; "StringNotEquals";
   "ArnNotEquals"; "StringLike"; "ArnLike"; "StringNotLike"; "ArnNotLike";
   "NumericEquals"; "NumericNotEquals"; "NumericLessThan";
   "NumericLessThanEquals"; "NumericGreaterThan"; "NumericGreaterThanEquals"].

(** ** Lemmas on the statement scan *)

Section Facts.
Context `{PolicyEnv}.
Implicit Types (context : AuthContext) (s : PolicyStatementDocument).

Definition applies_with (effect : string) context s : bool :=
  statement_applies s context && eqb (st_effect s) effect.

Lemma scan_statement_flags context f s :
  scan_statement context f s =
  (f.1 || applies_with "Allow" context s, f.2 || applies_with "Deny" context s).
Proof.
  unfold scan_statement, applies_with. destruct f as [a d]; simpl.
  destruct (statement_applies s context); simpl; [|by rewrite !orb_false_r].
  destruct (eqb (st_effect s) "Allow") eqn:EA.
  - apply eqb_true in EA as ->. by rewrite orb_true_r, orb_false_r.
  - destruct (eqb (st_effect s) "Deny") eqn:ED; by rewrite ?orb_true_r, ?orb_false_r.
Qed.

Lemma scan_flags context l f :
  foldl (scan_statement context) f l =
  (f.1 || existsb (applies_with "Allow" context) l,
   f.2 || existsb (applies_with "Deny" context) l).
Proof.
  revert f. induction l as [|s l IH]; intros [a d]; simpl.
  - by rewrite !orb_false_r.
  - by rewrite IH, scan_statement_flags; simpl; rewrite !orb_assoc.
Qed.

Lemma evaluate_policy_flags policy context :
  evaluate_policy policy context =
  if existsb (applies_with "Deny" context) (pd_statement policy) then Deny
  else if existsb (applies_with "Allow" context) (pd_statement policy) then Allow
  else Neutral.
Proof. unfold evaluate_policy. by rewrite scan_flags. Qed.

Lemma applies_with_true effect context l :
  existsb (applies_with effect context) l = true <->
  exists s, s ∈ l /\ statement_applies s context = true /\ st_effect s = effect.
Proof.
  rewrite existsb_true. unfold applies_with.
  by setoid_rewrite andb_true_iff; setoid_rewrite eqb_true.
Qed.

Lemma existsb_perm {A} (p : A -> bool) l l' :
  Permutation l l' -> existsb p l = existsb p l'.
Proof.
  intros HP. apply eq_true_iff_eq. rewrite !existsb_true. by setoid_rewrite HP.
Qed.

(** [explicit_deny_wins]. A policy denies exactly when some applicable
    statement denies, and allows exactly when some applicable statement allows
    and none denies. *)
Theorem explicit_deny_wins policy context :
  (evaluate_policy policy context = Deny <->
     exists s, s ∈ pd_statement policy /\ statement_applies s context = true
               /\ st_effect s = "Deny") /\
  (evaluate_policy policy context = Allow <->
     (exists s, s ∈ pd_statement policy /\ statement_applies s context = true
                /\ st_effect s = "Allow") /\
     ~ exists s, s ∈ pd_statement policy /\ statement_applies s context = true
                 /\ st_effect s = "Deny").
Proof.
  rewrite evaluate_policy_flags, <- !applies_with_true.
  destruct (existsb (applies_with "Deny" context) (pd_statement policy)),
    (existsb (applies_with "Allow" context) (pd_statement policy)); naive_solver.
Qed.

(** The order of the statements does not matter. *)
Theorem policy_order_irrelevant version l l' context :
  Permutation l l' ->
  evaluate_policy (mkPolicyDocument version l) context =
  evaluate_policy (mkPolicyDocument version l') context.
Proof.
  intros HP. rewrite !evaluate_policy_flags. simpl.
  by rewrite !(existsb_perm _ _ _ HP).
Qed.

(** ** Conditions *)

Lemma operator_unsupported operator rv ev :
  operator ∉ SUPPORTED_OPERATORS -> operator_matches operator rv ev = false.
Proof.
  unfold SUPPORTED_OPERATORS, operator_matches. intros Hn.
  repeat match goal with
  | |- context [eqb operator ?x] =>
      replace (eqb operator x) with false
        by (symmetry; apply eqb_false; set_solver)
  end. done.
Qed.

(** [unsupported_operator_disables_statement]. A statement whose condition
    uses an operator outside the supported list never applies, whatever the
    request: in particular such a Deny statement denies nothing. *)
Theorem unsupported_operator_disables_statement s context fields operator operands key expected :
  st_condition s = Some (JObject fields) ->
  (operator, JObject operands) ∈ fields -> (key, expected) ∈ operands ->
  operator ∉ SUPPORTED_OPERATORS ->
  statement_applies s context = false.
Proof.
  intros Hc Hf Ho Hn. unfold statement_applies. rewrite Hc.
  replace (conditions_match (Some (JObject fields)) context) with false;
    [by repeat case_match|].
  symmetry. apply not_true_iff_false. simpl. rewrite forallb_true.
  intros Hall. specialize (Hall _ Hf). simpl in Hall.
  unfold condition_operator_matches in Hall. simpl in Hall.
  rewrite forallb_true in Hall. specialize (Hall _ Ho). simpl in Hall.
  unfold condition_key_matches in Hall.
  repeat case_match; try done. by rewrite operator_unsupported in Hall.
Qed.

End Facts.

(** ** Negated operators *)

Lemma forallb_negb_nested {A B} (p : A -> B -> bool) l m :
  forallb (fun a => forallb (fun b => negb (p a b)) m) l
  = negb (existsb (fun a => existsb (p a) m) l).
Proof.
  rewrite <- forallb_negb_existsb. induction l as [|a l IH]; simpl; [done|].
  by rewrite IH, forallb_negb_existsb.
Qed.

(** The negated operators are the complements. *)
Theorem negated_condition_complement rv ev :
  string_condition_matches rv ev true = negb (string_condition_matches rv ev false) /\
  wildcard_condition_matches rv ev true = negb (wildcard_condition_matches rv ev false).
Proof.
  destruct rv as [|v rv]; [done|].
  split; unfold string_condition_matches, wildcard_condition_matches;
    by rewrite forallb_negb_nested.
Qed.

(** ** Canned ACLs *)

Definition is_read_action (action : string) : Prop :=
  exists l r, action = l +:+ "GetObject" +:+ r \/ action = l +:+ "ListBucket" +:+ r.
Definition is_write_action (action : string) : Prop :=
  exists l r, action = l +:+ "PutObject" +:+ r \/ action = l +:+ "DeleteObject" +:+ r.

Lemma covers_two action a b :
  Text.contains action a || Text.contains action b = true <->
  exists l r, action = l +:+ a +:+ r \/ action = l +:+ b +:+ r.
Proof. rewrite orb_true_iff, !Text.contains_spec. naive_solver. Qed.

Lemma any_grant_matches_cons g gs context :
  any_grant_matches (g :: gs) context = grant_matches g context || any_grant_matches gs context.
Proof. simpl. by destruct (grant_matches g context). Qed.

Lemma owner_grant_matches owner context :
  grant_matches (owner_grant owner) context = eqb (c_principal context) owner.
Proof. unfold grant_matches; simpl. by destruct (eqb _ _). Qed.

Lemma all_users_grant_matches p context :
  grant_matches (mkGrant (Group ALL_USERS) p) context
  = permission_covers_action p (c_action context).
Proof. done. Qed.

Lemma authenticated_grant_matches p context :
  grant_matches (mkGrant (Group AUTHENTICATED_USERS) p) context
  = c_is_authenticated context && permission_covers_action p (c_action context).
Proof. unfold grant_matches; simpl. by destruct (c_is_authenticated context). Qed.

(** A canned ACL without explicit grants permits
    exactly: the owner everything, anyone reads for public-read, reads and
    writes for public-read-write, authenticated callers reads for
    authenticated-read, and nobody else anything. *)
Theorem canned_acl_decision c owner context :
  check_acl_permission (mkAcl c []) owner context = true <->
  c_principal context = owner \/
  match c with
  | Private | BucketOwnerRead | BucketOwnerFullControl => False
  | PublicRead => is_read_action (c_action context)
  | PublicReadWrite =>
      is_read_action (c_action context) \/ is_write_action (c_action context)
  | AuthenticatedRead =>
      c_is_authenticated context = true /\ is_read_action (c_action context)
  end.
Proof.
  unfold check_acl_permission, is_read_action, is_write_action.
  destruct c; rewrite <- ?covers_two; unfold to_grants; cbn [grants canned];
    rewrite !any_grant_matches_cons, owner_grant_matches,
      ?all_users_grant_matches, ?authenticated_grant_matches;
    cbn [any_grant_matches permission_covers_action];
    rewrite ?orb_false_r, ?orb_true_iff, ?andb_true_iff, ?orb_true_iff, eqb_true; tauto.
Qed.

(** ** Concrete inputs *)

(** An environment for closed examples: no percent escapes, ASCII lower case. *)
Definition plain_env : PolicyEnv :=
  {| url_decode := Some; to_lowercase := Text.to_ascii_lowercase |}.

Definition allow_all : PolicyStatementDocument :=
  mkStatement None "Allow" (PrincipalAll "*") (ActionSingle "s3:*")
    (ResourceSingle "arn:aws:s3:::b/*") None.

(** A deny for requests from outside an address range, written with the
    [NotIpAddress] operator. *)
Definition deny_outside : PolicyStatementDocument :=
  mkStatement None "Deny" (PrincipalAll "*") (ActionSingle "s3:*")
    (ResourceSingle "*")
    (Some (JObject [("NotIpAddress",
                     JObject [("aws:SourceIp", JString "10.0.0.0/8")])])).

Definition get_request : AuthContext :=
  authenticated "alice" "s3:GetObject" "arn:aws:s3:::b/k".

Lemma policy_order_irrelevant_witness :
  @evaluate_policy plain_env
    (mkPolicyDocument "2012-10-17" [allow_all; deny_outside]) get_request =
  @evaluate_policy plain_env
    (mkPolicyDocument "2012-10-17" [deny_outside; allow_all]) get_request.
Proof. apply (@policy_order_irrelevant plain_env). apply perm_swap. Defined.

Lemma unsupported_operator_disables_statement_witness :
  @statement_applies plain_env deny_outside get_request = false.
Proof.
  apply (@unsupported_operator_disables_statement plain_env) with
    (fields := [("NotIpAddress", JObject [("aws:SourceIp", JString "10.0.0.0/8")])])
    (operator := "NotIpAddress")
    (operands := [("aws:SourceIp", JString "10.0.0.0/8")])
    (key := "aws:SourceIp") (expected := JString "10.0.0.0/8").
  - reflexivity.
  - apply elem_of_cons. by left.
  - apply elem_of_cons. by left.
  - apply (bool_decide_unpack _). vm_compute. exact I.
Defined.
