(* ===== verification/SkipMap.v ===== *)
(** * SkipMap: the ordered map interface of the index

    The index of [src/storage/lockfree_index.rs] is built on
    [crossbeam_skiplist::SkipMap], code outside the repository.  [SkipMap]
    states the operations the index calls and [SkipMapLaws] their documented
    behaviour: a map by key, iterated in strictly increasing key order.
    [SortedList] is an instance, on which the definitions compute. *)

From S2P Require Import Prelude Text.

Class SkipMap (M : Type -> Type) : Type := {
  sk_empty : forall {V}, M V;
  sk_get : forall {V}, string -> M V -> option V;
  sk_insert : forall {V}, string -> V -> M V -> M V;
  sk_remove : forall {V}, string -> M V -> M V;
  (** what iterating from the front yields, in order *)
  sk_entries : forall {V}, M V -> list (string * V) }.

Definition key_lt {V} (a b : string * V) : Prop := Text.lt a.1 b.1.

Class SkipMapLaws (M : Type -> Type) `{SkipMap M} : Prop := {
  sk_get_empty : forall V k, sk_get k (sk_empty : M V) = None;
  sk_get_insert : forall V (m : M V) k k' v,
    sk_get k' (sk_insert k v m) = if decide (k = k') then Some v else sk_get k' m;
  sk_get_remove : forall V (m : M V) k k',
    sk_get k' (sk_remove k m) = if decide (k = k') then None else sk_get k' m;
  sk_entries_sorted : forall V (m : M V), StronglySorted key_lt (sk_entries m);
  sk_entries_get : forall V (m : M V) k v,
    (k, v) ∈ sk_entries m <-> sk_get k m = Some v }.

(** [lower_bound(Bound::Included(k))] and [lower_bound(Bound::Excluded(k))]
    followed by [Entry::next] to the end: the entries from the bound on. *)
Definition from_included {M} `{SkipMap M} {V} (k : string) (m : M V)
    : list (string * V) :=
  filter (fun e => String.le k e.1) (sk_entries m).
Definition from_excluded {M} `{SkipMap M} {V} (k : string) (m : M V)
    : list (string * V) :=
  filter (fun e => Text.lt k e.1) (sk_entries m).

Definition sk_keys {M} `{SkipMap M} {V} (m : M V) : list string :=
  (sk_entries m).*1.

(** ** Facts *)

Section Facts.
Context {M : Type -> Type} `{SkipMapLaws M}.

Lemma sk_get_insert_eq {V} k (v : V) (m : M V) : sk_get k (sk_insert k v m) = Some v.
Proof. rewrite sk_get_insert. by destruct (decide (k = k)). Qed.

Lemma sk_get_insert_ne {V} k k' (v : V) (m : M V) :
  k <> k' -> sk_get k' (sk_insert k v m) = sk_get k' m.
Proof. intros. rewrite sk_get_insert. by destruct (decide (k = k')). Qed.

Lemma elem_of_sk_keys {V} k (m : M V) : k ∈ sk_keys m <-> is_Some (sk_get k m).
Proof.
  unfold sk_keys. rewrite list_elem_of_fmap. split.
  - intros ([k' v] & -> & Hin%sk_entries_get). by exists v.
  - intros [v Hv%sk_entries_get]. by exists (k, v).
Qed.

Lemma StronglySorted_map_fst {V} (l : list (string * V)) :
  StronglySorted key_lt l -> StronglySorted Text.lt l.*1.
Proof.
  induction 1 as [|a l Hs IH Hf]; simpl; constructor; [done|].
  rewrite Forall_fmap. eapply Forall_impl; [done|]. done.
Qed.

Lemma sk_keys_sorted {V} (m : M V) : StronglySorted Text.lt (sk_keys m).
Proof. apply StronglySorted_map_fst, sk_entries_sorted. Qed.

End Facts.

Lemma StronglySorted_filter {A} (R : relation A) (P : A -> Prop)
    `{forall x, Decision (P x)} l :
  StronglySorted R l -> StronglySorted R (filter P l).
Proof.
  induction 1 as [|a l Hs IH Hf]; [constructor|].
  rewrite filter_cons. case_decide; [|done]. constructor; [done|].
  rewrite list.Forall_forall in Hf |- *. intros x [_ Hx]%list_elem_of_filter. auto.
Qed.

Lemma StronglySorted_app_split {A} (R : relation A) l1 l2 :
  StronglySorted R (l1 ++ l2) ->
  StronglySorted R l1 /\ StronglySorted R l2 /\ forall x y, x ∈ l1 -> y ∈ l2 -> R x y.
Proof.
  induction l1 as [|a l1 IH]; simpl.
  - intros Hs. split_and!; [constructor|done|]. intros x y Hx. by apply elem_of_nil in Hx.
  - intros Hs. apply StronglySorted_inv in Hs as [Hs Hf]. apply IH in Hs as (H1 & H2 & H3).
    rewrite Forall_app, !list.Forall_forall in Hf. destruct Hf as [Hf1 Hf2].
    split_and!; [constructor; [done|by apply list.Forall_forall]|done|].
    intros x y [->|Hx]%elem_of_cons Hy; auto.
Qed.

Lemma StronglySorted_NoDup {A} (R : relation A) l :
  (forall x, ~ R x x) -> StronglySorted R l -> NoDup l.
Proof.
  intros Hirr. induction 1 as [|a l Hs IH Hf]; constructor; [|done].
  intros Hin. rewrite list.Forall_forall in Hf. by apply (Hirr a), Hf.
Qed.

(** Two strictly sorted lists with the same elements are equal. *)
Lemma StronglySorted_ext {A} (R : relation A) `{!Transitive R} l l' :
  (forall x, ~ R x x) ->
  StronglySorted R l -> StronglySorted R l' ->
  (forall x, x ∈ l <-> x ∈ l') -> l = l'.
Proof.
  intros Hirr Hl. revert l'. induction Hl as [|a l Hl IH Hf]; intros l' Hl' Heq.
  - destruct l' as [|b l']; [done|]. exfalso.
    assert (b ∈ @nil A) by (apply Heq; set_solver). set_solver.
  - destruct Hl' as [|b l' Hl' Hf'].
    { exfalso. assert (a ∈ @nil A) by (apply Heq; set_solver). set_solver. }
    rewrite list.Forall_forall in Hf, Hf'.
    assert (a = b) as <-.
    { assert (a ∈ b :: l') as [->|Ha]%elem_of_cons by (apply Heq; set_solver); [done|].
      assert (b ∈ a :: l) as [->|Hb]%elem_of_cons by (apply Heq; set_solver); [done|].
      destruct (Hirr a). by etrans; [apply Hf|apply Hf']. }
    f_equal. apply IH; [done|]. intros x. specialize (Heq x).
    rewrite !elem_of_cons in Heq. split; intros Hx.
    + destruct (proj1 Heq (or_intror Hx)) as [->|]; [|done]. by destruct (Hirr a); apply Hf.
    + destruct (proj2 Heq (or_intror Hx)) as [->|]; [|done]. by destruct (Hirr a); apply Hf'.
Qed.

(** ** An instance: strictly sorted association lists *)

Module SortedList.

Fixpoint get {V} (k : string) (m : list (string * V)) : option V :=
  match m with
  | [] => None
  | (k', v) :: m' => if eqb k k' then Some v else get k m'
  end.

Fixpoint insert {V} (k : string) (v : V) (m : list (string * V))
    : list (string * V) :=
  match m with
  | [] => [(k, v)]
  | (k', v') :: m' =>
      if eqb k k' then (k, v) :: m'
      else if Text.ltb k k' then (k, v) :: m else (k', v') :: insert k v m'
  end.

Definition remove {V} (k : string) (m : list (string * V)) : list (string * V) :=
  filter (fun e => e.1 <> k) m.

(** Lists that are strictly sorted by key. *)
Definition sorted {V} (m : list (string * V)) : bool :=
  bool_decide (StronglySorted Text.lt m.*1).

Record t (V : Type) : Type := mk {
  entries : list (string * V);
  entries_ok : sorted entries = true }.
Global Arguments mk {V} _ _.
Global Arguments entries {V} _.
Global Arguments entries_ok {V} _.

Lemma sorted_true {V} (m : list (string * V)) :
  sorted m = true <-> StronglySorted Text.lt m.*1.
Proof. apply bool_decide_eq_true. Qed.

Lemma fst_insert {V} k (v : V) m x : x ∈ (insert k v m).*1 -> x = k \/ x ∈ m.*1.
Proof.
  induction m as [|[k' v'] m IH]; simpl; [set_solver|].
  destruct (eqb k k') eqn:E; [apply eqb_true in E as ->|destruct (Text.ltb k k')];
    simpl; set_solver.
Qed.

Lemma insert_ok {V} k (v : V) m : sorted m = true -> sorted (insert k v m) = true.
Proof.
  rewrite !sorted_true. induction m as [|[k' v'] m IH]; simpl; intros Hs; [by repeat constructor|].
  inversion Hs as [|? ? Hs' Hf]; subst.
  destruct (eqb k k') eqn:E; [by apply eqb_true in E as ->|apply eqb_false in E].
  destruct (Text.ltb k k') eqn:L; simpl.
  - apply bool_decide_eq_true in L. constructor; [done|]. constructor; [done|].
    rewrite list.Forall_forall in Hf |- *. intros x Hx. by etrans; [|apply Hf].
  - apply bool_decide_eq_false in L. constructor; [auto|].
    apply list.Forall_forall. intros x [->|Hx]%fst_insert.
    + split; [by apply Text.not_lt_le|done].
    + rewrite list.Forall_forall in Hf. auto.
Qed.

Lemma remove_ok {V} k (m : list (string * V)) : sorted m = true -> sorted (remove k m) = true.
Proof.
  rewrite !sorted_true. unfold remove.
  induction m as [|[k' v'] m IH]; simpl; intros Hs; [constructor|].
  inversion Hs as [|? ? Hs' Hf]; subst. rewrite filter_cons. case_decide; [|auto].
  simpl. constructor; [auto|]. rewrite list.Forall_forall in Hf |- *.
  intros x ([k2 v2] & -> & [_ Hin]%list_elem_of_filter)%list_elem_of_fmap.
  apply Hf, list_elem_of_fmap. by exists (k2, v2).
Qed.

Lemma get_elem {V} k (v : V) m :
  StronglySorted Text.lt m.*1 -> (k, v) ∈ m <-> get k m = Some v.
Proof.
  induction m as [|[k' v'] m IH]; simpl; intros Hs; [set_solver|].
  inversion Hs as [|? ? Hs' Hf]; subst. rewrite list.Forall_forall in Hf.
  rewrite elem_of_cons, IH by done. destruct (eqb k k') eqn:E.
  - apply eqb_true in E as <-. split; [|naive_solver].
    intros [[= ->]|Hg]; [done|]. exfalso. apply (Text.lt_irrefl k), Hf.
    apply list_elem_of_fmap. exists (k, v). split; [done|]. by apply IH.
  - apply eqb_false in E. naive_solver.
Qed.

Lemma get_insert {V} k k' (v : V) m :
  get k' (insert k v m) = if decide (k = k') then Some v else get k' m.
Proof.
  induction m as [|[k2 v2] m IH]; simpl.
  - destruct (eqb k' k) eqn:E; [apply eqb_true in E as ->|apply eqb_false in E];
      case_decide; congruence.
  - destruct (eqb k k2) eqn:E2; [apply eqb_true in E2 as <-|destruct (Text.ltb k k2)]; simpl.
    + destruct (eqb k' k) eqn:E; [apply eqb_true in E as ->|apply eqb_false in E];
        case_decide; congruence.
    + destruct (eqb k' k) eqn:E; [apply eqb_true in E as ->|apply eqb_false in E];
        case_decide; congruence.
    + apply eqb_false in E2. rewrite IH.
      destruct (eqb k' k2) eqn:E; [apply eqb_true in E as ->|]; case_decide; congruence.
Qed.

Lemma get_remove {V} k k' (m : list (string * V)) :
  get k' (remove k m) = if decide (k = k') then None else get k' m.
Proof.
  unfold remove. induction m as [|[k2 v2] m IH]; simpl; [by case_decide|].
  rewrite filter_cons. destruct (decide ((k2, v2).1 <> k)) as [Hn|Hn]; simpl in *.
  - rewrite IH. destruct (eqb k' k2) eqn:E; [apply eqb_true in E as ->|]; case_decide; congruence.
  - rewrite IH. apply dec_stable in Hn as ->.
    destruct (eqb k' k) eqn:E; [apply eqb_true in E as ->|apply eqb_false in E]; case_decide; congruence.
Qed.

End SortedList.

#[export] Instance sorted_list_skip_map : SkipMap SortedList.t := {|
  sk_empty V := SortedList.mk [] eq_refl;
  sk_get V k m := SortedList.get k (SortedList.entries m);
  sk_insert V k v m :=
    SortedList.mk (SortedList.insert k v (SortedList.entries m))
                  (SortedList.insert_ok _ _ _ (SortedList.entries_ok m));
  sk_remove V k m :=
    SortedList.mk (SortedList.remove k (SortedList.entries m))
                  (SortedList.remove_ok _ _ (SortedList.entries_ok m));
  sk_entries V m := SortedList.entries m |}.

#[export] Instance sorted_list_laws : SkipMapLaws SortedList.t.
Proof.
  split; intros V; simpl.
  - done.
  - intros. apply SortedList.get_insert.
  - intros. apply SortedList.get_remove.
  - intros [m Hm]; simpl. apply SortedList.sorted_true in Hm. clear -Hm.
    induction m as [|a m IH]; simpl in *; [constructor|].
    inversion Hm as [|? ? Hm' Hf]; subst. constructor; [auto|].
    rewrite Forall_fmap in Hf. done.
  - intros [m Hm] k v; simpl. by apply SortedList.get_elem, SortedList.sorted_true.
Qed.
