(* ===== verification/Index.v ===== *)
(** * Index: [LockFreeIndex] of [src/storage/lockfree_index.rs]

    Per bucket, the object keys in order and, for every directory-like prefix,
    its immediate children: objects and common prefixes.  The maps are those of
    [SkipMap]; a map mutated through a shared reference is returned updated. *)

From Stdlib Require Import Ascii.
From S2P Require Import Prelude Text SkipMap.

Inductive DirectoryEntryKind : Type := KObject | KCommonPrefix.

#[export] Instance DirectoryEntryKind_eq_dec : EqDecision DirectoryEntryKind.
Proof. solve_decision. Defined.

Record DirectoryEntry : Type := mkEntry {
  e_path : string;
  e_kind : DirectoryEntryKind }.

#[export] Instance DirectoryEntry_eq_dec : EqDecision DirectoryEntry.
Proof. solve_decision. Defined.

(** [parent_prefixes]: every prefix of the key that ends in a slash. *)
Definition SLASH : ascii := "/"%char.
Definition parent_prefixes (key : string) : list string :=
  (fun index => Text.slice_to (S index) key) <$> Text.match_indices SLASH key.

(** The entry a key contributes to the listing of [prefix] with [delimiter]
    (the closures of [scan_delimited_entries]): the key itself, or the common
    prefix up to and including the next delimiter. *)
Definition delimited_entry (prefix delimiter key : string) : DirectoryEntry :=
  let remainder := Text.slice_from (String.length prefix) key in
  match Text.find remainder delimiter with
  | None => mkEntry key KObject
  | Some index =>
      mkEntry (Text.slice_to (String.length prefix + index + String.length delimiter) key)
              KCommonPrefix
  end.

Section Index.
Context {M : Type -> Type} `{SkipMap M}.

Record BucketIndex : Type := mkBucketIndex {
  bi_objects : M unit;
  bi_children : M (M DirectoryEntryKind) }.

Definition LockFreeIndex : Type := M BucketIndex.

(** [BucketIndex::new] and [LockFreeIndex::new] *)
Definition new_bucket_index : BucketIndex :=
  mkBucketIndex sk_empty (sk_insert EmptyString sk_empty sk_empty).
Definition new_index : LockFreeIndex := sk_empty.

Definition insert_child (children : M (M DirectoryEntryKind)) (parent path : string)
    (kind : DirectoryEntryKind) : M (M DirectoryEntryKind) :=
  let children :=
    match sk_get parent children with
    | None => sk_insert parent sk_empty children
    | Some _ => children
    end in
  match sk_get parent children with
  | Some entries => sk_insert parent (sk_insert path kind entries) children
  | None => children
  end.

Definition remove_child (children : M (M DirectoryEntryKind)) (parent path : string)
    : M (M DirectoryEntryKind) :=
  match sk_get parent children with
  | Some entries => sk_insert parent (sk_remove path entries) children
  | None => children
  end.

Definition has_object_with_prefix (objects : M unit) (prefix : string) : bool :=
  match from_included prefix objects with
  | (key, _) :: _ => Text.starts_with key prefix
  | [] => false
  end.

(** The loop over [parent_prefixes(key)], with [parent] its mutable variable. *)
Fixpoint insert_prefixes (children : M (M DirectoryEntryKind)) (parent : string)
    (prefixes : list string) : M (M DirectoryEntryKind) * string :=
  match prefixes with
  | [] => (children, parent)
  | prefix :: rest =>
      insert_prefixes (insert_child children parent prefix KCommonPrefix) prefix rest
  end.

Definition insert_directory_children (b : BucketIndex) (key : string) : BucketIndex :=
  let '(children, parent) :=
    insert_prefixes (bi_children b) EmptyString (parent_prefixes key) in
  mkBucketIndex (bi_objects b) (insert_child children parent key KObject).

(** [prefix_pairs] and the final [parent] of [remove_directory_children]. *)
Fixpoint pair_prefixes (parent : string) (prefixes : list string)
    : list (string * string) * string :=
  match prefixes with
  | [] => ([], parent)
  | prefix :: rest =>
      let '(pairs, last) := pair_prefixes prefix rest in
      ((parent, prefix) :: pairs, last)
  end.

Definition prune_prefix (objects : M unit) (children : M (M DirectoryEntryKind))
    (pair : string * string) : M (M DirectoryEntryKind) :=
  let '(parent, prefix) := pair in
  if negb (has_object_with_prefix objects prefix)
  then sk_remove prefix (remove_child children parent prefix)
  else children.

Definition remove_directory_children (b : BucketIndex) (key : string) : BucketIndex :=
  let '(prefix_pairs, parent) := pair_prefixes EmptyString (parent_prefixes key) in
  let children := remove_child (bi_children b) parent key in
  mkBucketIndex (bi_objects b)
    (foldl (prune_prefix (bi_objects b)) children (reverse prefix_pairs)).

Definition get_or_create_bucket (idx : LockFreeIndex) (bucket : string)
    : LockFreeIndex :=
  match sk_get bucket idx with
  | None => sk_insert bucket new_bucket_index idx
  | Some _ => idx
  end.

Definition insert_object (b : BucketIndex) (key : string) : BucketIndex :=
  insert_directory_children
    (mkBucketIndex (sk_insert key tt (bi_objects b)) (bi_children b)) key.

Definition index_insert (idx : LockFreeIndex) (bucket key : string) : LockFreeIndex :=
  let idx := get_or_create_bucket idx bucket in
  match sk_get bucket idx with
  | Some b => sk_insert bucket (insert_object b key) idx
  | None => idx
  end.

Definition remove_object (b : BucketIndex) (key : string) : BucketIndex * bool :=
  let removed := is_some (sk_get key (bi_objects b)) in
  let b' := mkBucketIndex (sk_remove key (bi_objects b)) (bi_children b) in
  (if removed then remove_directory_children b' key else b', removed).

Definition index_remove (idx : LockFreeIndex) (bucket key : string)
    : LockFreeIndex * bool :=
  match sk_get bucket idx with
  | Some b =>
      let '(b', removed) := remove_object b key in
      (sk_insert bucket b' idx, removed)
  | None => (idx, false)
  end.

Definition index_contains (idx : LockFreeIndex) (bucket key : string) : bool :=
  match sk_get bucket idx with
  | Some b => is_some (sk_get key (bi_objects b))
  | None => false
  end.

Definition clear_bucket (idx : LockFreeIndex) (bucket : string) : LockFreeIndex :=
  sk_remove bucket idx.

Definition index_bucket_exists (idx : LockFreeIndex) (bucket : string) : bool :=
  is_some (sk_get bucket idx).

(** [rebuild] *)
Definition rebuild (idx : LockFreeIndex) (entries : list (string * list string))
    : LockFreeIndex :=
  foldl (fun idx '(bucket, keys) =>
           sk_insert bucket (foldl insert_object new_bucket_index keys) idx)
        idx entries.

(** The cursor loops: push, stop once [max] entries are there, go on. *)
Definition reached (max : option N) (count : N) : bool :=
  is_some_and (fun m => m <=? count)%N max.

Fixpoint take_max {A} (max : option N) (count : N) (cursor : list A) : list A :=
  match cursor with
  | [] => []
  | e :: rest =>
      e :: (if reached max (count + 1) then [] else take_max max (count + 1) rest)
  end.

Fixpoint take_prefixed (prefix : option string) (max : option N) (count : N)
    (cursor : list (string * unit)) : list string :=
  match cursor with
  | [] => []
  | (key, _) :: rest =>
      if is_some_and (fun p => negb (Text.starts_with key p)) prefix then []
      else key :: (if reached max (count + 1) then []
                   else take_prefixed prefix max (count + 1) rest)
  end.

Definition list_keys (idx : LockFreeIndex) (bucket : string) (prefix : option string)
    : list string :=
  match sk_get bucket idx with
  | Some b =>
      match prefix with
      | Some p => take_prefixed prefix None 0 (from_included p (bi_objects b))
      | None => sk_keys (bi_objects b)
      end
  | None => []
  end.

Definition list_prefix_marker (idx : LockFreeIndex) (bucket : string)
    (prefix marker : option string) (max_keys : option N) : list string :=
  match sk_get bucket idx with
  | Some b =>
      let cursor :=
        match prefix, marker with
        | Some p, Some m =>
            if Text.leb p m then from_excluded m (bi_objects b)
            else from_included p (bi_objects b)
        | Some p, None => from_included p (bi_objects b)
        | None, Some m => from_excluded m (bi_objects b)
        | None, None => sk_entries (bi_objects b)
        end in
      take_prefixed prefix max_keys 0 cursor
  | None => []
  end.

Definition list_child_entries (idx : LockFreeIndex) (bucket parent_prefix : string)
    (marker : option string) (max_entries : option N) : list DirectoryEntry :=
  match sk_get bucket idx with
  | None => []
  | Some b =>
      match sk_get parent_prefix (bi_children b) with
      | None => []
      | Some entries =>
          let cursor := match marker with
                        | Some m => from_excluded m entries
                        | None => sk_entries entries
                        end in
          map (fun e => mkEntry e.1 e.2) (take_max max_entries 0 cursor)
      end
  end.

End Index.
Global Arguments BucketIndex M : clear implicits.
Global Arguments LockFreeIndex M : clear implicits.
Global Arguments new_index {M _}.
Global Arguments new_bucket_index {M _}.
