(* ===== verification/IndexFacts.v ===== *)
(** * IndexFacts: the index agrees with the set of object keys

    The directory children of a bucket are exactly what its object keys imply
    ([index_wf]), every operation keeps that, and the two listings compute what
    a scan of all keys would. *)

From Stdlib Require Import Ascii.
From S2P Require Import Prelude Text SkipMap Index.

(** ** Slashes *)

Lemma prefix_cons a p b s :
  String.prefix (String a p) (String b s) = if ascii_dec a b then String.prefix p s else false.
Proof. done. Qed.

Lemma find_slash_cons a s :
  Text.find (String a s) "/" =
  if eqb a SLASH then Some 0 else S <$> Text.find s "/".
Proof.
  change (Text.find (String a s) "/") with
    (if String.prefix "/" (String a s) then Some 0 else S <$> Text.find s "/").
  rewrite prefix_cons. destruct (eqb a SLASH) eqn:E.
  - apply eqb_true in E as ->. by destruct s.
  - apply eqb_false in E. destruct (ascii_dec "/" a) as [<-|]; done.
Qed.

Lemma find_slash_app l r :
  Text.find l "/" = None -> Text.find (l +:+ "/" +:+ r) "/" = Some (String.length l).
Proof.
  induction l as [|a l IH].
  - intros _. change (EmptyString +:+ "/" +:+ r) with (String SLASH r).
    rewrite find_slash_cons. by rewrite eqb_refl.
  - rewrite Text.app_cons, !find_slash_cons. destruct (eqb a SLASH); [done|].
    intros Hl. rewrite IH; [done|]. by destruct (Text.find l "/").
Qed.

Lemma find_slash_Some s i :
  Text.find s "/" = Some i ->
  exists l r, s = l +:+ "/" +:+ r /\ String.length l = i /\ Text.find l "/" = None.
Proof.
  revert i. induction s as [|a s IH]; intros i; [done|].
  rewrite find_slash_cons. destruct (eqb a SLASH) eqn:E.
  - apply eqb_true in E as ->. intros [= <-]. by exists EmptyString, s.
  - destruct (Text.find s "/") as [j|] eqn:Hs; [|done]. intros [= <-].
    destruct (IH j eq_refl) as (l & r & -> & <- & Hl).
    exists (String a l), r. by rewrite Text.app_cons, find_slash_cons, E, Hl.
Qed.

Lemma parent_prefixes_cons a s :
  parent_prefixes (String a s) =
  (if eqb a SLASH then [String SLASH EmptyString] else [])
  ++ (String a <$> parent_prefixes s).
Proof.
  unfold parent_prefixes. simpl. rewrite fmap_app. f_equal.
  - destruct (eqb a SLASH) eqn:E; [|done]. apply eqb_true in E as ->. by destruct s.
  - by rewrite <- !list_fmap_compose.
Qed.

Lemma parent_prefixes_none s : Text.find s "/" = None -> parent_prefixes s = [].
Proof.
  induction s as [|a s IH]; [done|]. rewrite find_slash_cons, parent_prefixes_cons.
  destruct (eqb a SLASH); [done|]. destruct (Text.find s "/"); [done|].
  intros _. by rewrite IH.
Qed.

Lemma parent_prefixes_split l r :
  Text.find l "/" = None ->
  parent_prefixes (l +:+ "/" +:+ r) =
  (l +:+ "/") :: (String.append (l +:+ "/") <$> parent_prefixes r).
Proof.
  induction l as [|a l IH].
  - intros _. change (EmptyString +:+ "/" +:+ r) with (String SLASH r).
    rewrite parent_prefixes_cons, eqb_refl. done.
  - rewrite Text.app_cons, find_slash_cons, parent_prefixes_cons.
    destruct (eqb a SLASH); [done|]. intros Hl.
    rewrite IH by (by destruct (Text.find l "/")). simpl. f_equal.
    by rewrite <- list_fmap_compose.
Qed.

(** ** The directory links a key implies *)

(** [(parent, child, kind)] triples. *)
Fixpoint links_go (parent : string) (prefixes : list string) (key : string)
    : list (string * string * DirectoryEntryKind) :=
  match prefixes with
  | [] => [(parent, key, KObject)]
  | prefix :: rest => (parent, prefix, KCommonPrefix) :: links_go prefix rest key
  end.
Definition links (key : string) := links_go EmptyString (parent_prefixes key) key.

(** A prefix the index keeps children for: empty or ending in a slash. *)
Definition directory_prefix (p : string) : Prop :=
  p = EmptyString \/ exists q, p = q +:+ "/".

Lemma delimited_entry_object p key :
  Text.find (Text.slice_from (String.length p) key) "/" = None ->
  delimited_entry p "/" key = mkEntry key KObject.
Proof. unfold delimited_entry. by intros ->. Qed.

Lemma delimited_entry_prefix p l r :
  Text.find l "/" = None ->
  delimited_entry p "/" (p +:+ l +:+ "/" +:+ r) = mkEntry (p +:+ l +:+ "/") KCommonPrefix.
Proof.
  intros Hl. unfold delimited_entry. rewrite Text.slice_from_app, find_slash_app by done.
  f_equal. rewrite <- !Text.app_assoc.
  replace (String.length p + String.length l + String.length "/")
    with (String.length ((p +:+ l) +:+ "/")).
  - apply Text.slice_to_app.
  - rewrite !Text.length_app. done.
Qed.

(** Splitting a key below a parent at its next slash. *)
Lemma slash_cases s :
  Text.find s "/" = None \/
  exists l r, s = l +:+ "/" +:+ r /\ Text.find l "/" = None /\
              String.length r < String.length s.
Proof.
  destruct (Text.find s "/") as [i|] eqn:E; [right|by left].
  apply find_slash_Some in E as (l & r & -> & _ & Hl). exists l, r.
  split_and!; [done|done|]. rewrite !Text.length_app. simpl. lia.
Qed.

Lemma slash_split_inj l r l' r' :
  Text.find l "/" = None -> Text.find l' "/" = None ->
  l +:+ "/" +:+ r = l' +:+ "/" +:+ r' -> l = l' /\ r = r'.
Proof.
  intros Hl Hl' Heq. assert (String.length l = String.length l') as Hlen.
  { apply (f_equal (fun s => Text.find s "/")) in Heq.
    rewrite !find_slash_app in Heq by done. by simplify_eq. }
  assert (l = l') as <-.
  { rewrite <- (Text.slice_to_app l ("/" +:+ r)), Heq, Hlen. apply Text.slice_to_app. }
  split; [done|]. apply Text.app_inj_l in Heq. by injection Heq.
Qed.

Lemma starts_with_slash_free rest q :
  Text.find rest "/" = None -> Text.starts_with rest (q +:+ "/") = false.
Proof.
  intros Hnone. apply not_true_is_false. intros [t ->]%Text.starts_with_spec.
  rewrite Text.app_assoc in Hnone.
  destruct (slash_cases q) as [Hq|(l & r & -> & Hl & _)].
  - by rewrite find_slash_app in Hnone.
  - by rewrite !Text.app_assoc, find_slash_app in Hnone.
Qed.

(** A directory prefix of [l/r], with no slash in [l], is empty, or [l/]
    followed by a directory prefix of [r]. *)
Lemma directory_prefix_split l r q :
  Text.find l "/" = None ->
  directory_prefix q /\ Text.starts_with (l +:+ "/" +:+ r) q = true <->
  q = EmptyString \/
  exists q', q = (l +:+ "/") +:+ q' /\ directory_prefix q' /\ Text.starts_with r q' = true.
Proof.
  intros Hl. split.
  - intros [[->|[q' ->]] Hs]; [by left|right].
    apply Text.starts_with_spec in Hs as [t Ht]. rewrite Text.app_assoc in Ht.
    destruct (slash_cases q') as [Hq|(l' & r' & -> & Hl' & _)].
    + apply (slash_split_inj l r q' t) in Ht as [<- <-]; [|done|done].
      exists EmptyString. rewrite Text.app_empty_r. split_and!; [done|by left|by destruct r].
    + rewrite !Text.app_assoc in Ht. apply slash_split_inj in Ht as [<- ->]; [|done|done].
      exists (r' +:+ "/"). rewrite !Text.app_assoc. split_and!; [done|right; by eexists|].
      apply Text.starts_with_spec. exists t. by rewrite Text.app_assoc.
  - intros [->|(q' & -> & Hq & [t ->]%Text.starts_with_spec)].
    + split; [by left|]. by destruct l.
    + split.
      * right. destruct Hq as [->|[q ->]].
        -- exists l. by rewrite Text.app_empty_r.
        -- exists ((l +:+ "/") +:+ q). by rewrite !Text.app_assoc.
      * apply Text.starts_with_spec. exists t. by rewrite !Text.app_assoc.
Qed.

Lemma links_go_spec n par rest p c k :
  String.length rest <= n ->
  (p, c, k) ∈ links_go par (String.append par <$> parent_prefixes rest) (par +:+ rest) <->
  exists q, p = par +:+ q /\ (directory_prefix q /\ Text.starts_with rest q = true) /\
            mkEntry c k = delimited_entry p "/" (par +:+ rest).
Proof.
  revert par rest. induction n as [|n IH]; intros par rest Hn;
    (destruct (slash_cases rest) as [Hnone|(l & r & -> & Hl & Hlen)]; [|try lia]).
  1,2: rewrite (parent_prefixes_none _ Hnone); simpl; rewrite list_elem_of_singleton;
    split;
    [ intros [= -> -> ->]; exists EmptyString;
      rewrite Text.app_empty_r; split_and!; [done|by left|by destruct rest|];
      rewrite delimited_entry_object; [done|by rewrite Text.slice_from_app]
    | intros (q & -> & [[->|[q' ->]] Hs] & He);
      [ rewrite Text.app_empty_r in He |- *;
        rewrite delimited_entry_object in He by (by rewrite Text.slice_from_app);
        by simplify_eq
      | by rewrite starts_with_slash_free in Hs ] ].
  rewrite parent_prefixes_split by done. simpl.
  setoid_rewrite (directory_prefix_split l r); [|done].
  rewrite elem_of_cons, <- list_fmap_compose.
  pose proof (IH (par +:+ l +:+ "/") r ltac:(lia)) as IH'.
  rewrite !Text.app_assoc in IH'.
  rewrite (list_fmap_ext _ (String.append (par +:+ l +:+ "/"))) by
    (intros ? x _; simpl; by rewrite !Text.app_assoc).
  rewrite IH'. split.
  - intros [[= -> -> ->]|(q & -> & Hq & He)].
    + exists EmptyString. rewrite Text.app_empty_r. split_and!; [done|by left|].
      by rewrite delimited_entry_prefix.
    + exists ((l +:+ "/") +:+ q). rewrite !Text.app_assoc in *. split_and!; [done| |done].
      right. exists q. by rewrite ?Text.app_assoc.
  - intros (q & -> & [->|(q' & -> & Hq)] & He).
    + left. rewrite Text.app_empty_r in *. rewrite delimited_entry_prefix in He by done.
      by simplify_eq.
    + right. exists q'. rewrite !Text.app_assoc in *. done.
Qed.

(** The links of a key: for every directory prefix of it, the entry the key
    contributes to the listing of that prefix. *)
Lemma elem_of_links p c k key :
  (p, c, k) ∈ links key <->
  directory_prefix p /\ Text.starts_with key p = true /\
  mkEntry c k = delimited_entry p "/" key.
Proof.
  unfold links.
  pose proof (links_go_spec _ EmptyString key p c k (le_n _)) as H.
  rewrite (list_fmap_ext _ id), list_fmap_id in H by done.
  rewrite H. split.
  - intros (q & -> & [? ?] & ?). done.
  - intros (? & ? & ?). by exists p.
Qed.

(** The kind of a link is determined by its parent and child. *)
Definition link_kind (p c : string) : DirectoryEntryKind :=
  if is_some (Text.find (Text.slice_from (String.length p) c) "/")
  then KCommonPrefix else KObject.

(** What a link of kind [KObject] or [KCommonPrefix] says about the key. *)
Lemma elem_of_links_cases p c k key :
  (p, c, k) ∈ links key ->
  directory_prefix p /\ Text.starts_with key p = true /\ k = link_kind p c /\
  match k with
  | KObject => c = key
  | KCommonPrefix => Text.starts_with key c = true
  end.
Proof.
  intros (Hd & [t ->]%Text.starts_with_spec & He)%elem_of_links.
  unfold link_kind. destruct (slash_cases t) as [Hn|(l & r & -> & Hl & _)].
  - rewrite delimited_entry_object in He by (by rewrite Text.slice_from_app).
    simplify_eq. rewrite Text.slice_from_app, Hn. split_and!; [done| |done|done].
    apply Text.starts_with_app.
  - rewrite delimited_entry_prefix in He by done. simplify_eq.
    rewrite Text.slice_from_app. split_and!; [done|apply Text.starts_with_app| |].
    + change (l +:+ "/") with (l +:+ "/" +:+ EmptyString). by rewrite find_slash_app.
    + replace (p +:+ l +:+ "/" +:+ r) with ((p +:+ l +:+ "/") +:+ r)
        by by rewrite !Text.app_assoc.
      apply Text.starts_with_app.
Qed.

(** A common prefix of one key is one of every key below it. *)
Lemma links_common_prefix p c key key' :
  (p, c, KCommonPrefix) ∈ links key -> Text.starts_with key' c = true ->
  (p, c, KCommonPrefix) ∈ links key'.
Proof.
  intros (Hd & [t ->]%Text.starts_with_spec & He)%elem_of_links Hs.
  apply elem_of_links. destruct (slash_cases t) as [Hn|(l & r & -> & Hl & _)].
  { by rewrite delimited_entry_object in He by (by rewrite Text.slice_from_app). }
  rewrite delimited_entry_prefix in He by done. simplify_eq.
  apply Text.starts_with_spec in Hs as [t ->]. rewrite !Text.app_assoc.
  split_and!; [done|apply Text.starts_with_app|by rewrite delimited_entry_prefix].
Qed.

Lemma pair_prefixes_spec par ps key p c k :
  (p, c, k) ∈ links_go par ps key <->
  match k with
  | KCommonPrefix => (p, c) ∈ (pair_prefixes par ps).1
  | KObject => p = (pair_prefixes par ps).2 /\ c = key
  end.
Proof.
  revert par. induction ps as [|pre ps IH]; intros par; simpl.
  - rewrite list_elem_of_singleton. destruct k; [naive_solver|]. set_solver.
  - rewrite elem_of_cons, IH. destruct (pair_prefixes pre ps) as [pairs last].
    destruct k; simpl; [naive_solver|]. rewrite elem_of_cons. naive_solver.
Qed.

(** ** The children map *)

Section Facts.
Context {M : Type -> Type} `{SkipMapLaws M}.

Definition child (ch : M (M DirectoryEntryKind)) (p c : string)
    : option DirectoryEntryKind :=
  match sk_get p ch with Some es => sk_get c es | None => None end.

Lemma child_insert ch p c k p' c' :
  child (insert_child ch p c k) p' c' =
  if decide ((p, c) = (p', c')) then Some k else child ch p' c'.
Proof.
  unfold child, insert_child. destruct (sk_get p ch) as [es|] eqn:E.
  - rewrite E, sk_get_insert. destruct (decide (p = p')) as [<-|].
    + rewrite sk_get_insert, E. repeat case_decide; congruence.
    + case_decide; congruence.
  - rewrite sk_get_insert_eq, sk_get_insert. destruct (decide (p = p')) as [<-|].
    + rewrite sk_get_insert, sk_get_empty, E. repeat case_decide; congruence.
    + rewrite sk_get_insert_ne by done. case_decide; congruence.
Qed.

Lemma child_remove ch p c p' c' :
  child (remove_child ch p c) p' c' =
  if decide ((p, c) = (p', c')) then None else child ch p' c'.
Proof.
  unfold child, remove_child. destruct (sk_get p ch) as [es|] eqn:E.
  - rewrite sk_get_insert. destruct (decide (p = p')) as [<-|].
    + rewrite sk_get_remove, E. repeat case_decide; congruence.
    + case_decide; congruence.
  - case_decide; [simplify_eq; by rewrite E|done].
Qed.

Lemma child_sk_remove ch p p' c' :
  child (sk_remove p ch) p' c' = if decide (p = p') then None else child ch p' c'.
Proof. unfold child. rewrite sk_get_remove. by case_decide. Qed.

(** The insertion loop, link by link. *)
Lemma child_insert_links ch par ps key p c k :
  (forall p c k, (p, c, k) ∈ links_go par ps key -> k = link_kind p c) ->
  let '(ch', last) := insert_prefixes ch par ps in
  child (insert_child ch' last key KObject) p c = Some k <->
  (p, c, k) ∈ links_go par ps key \/
  child ch p c = Some k /\ (p, c, link_kind p c) ∉ links_go par ps key.
Proof.
  revert ch par. induction ps as [|pre ps IH]; intros ch par Hk; simpl in *.
  - assert (KObject = link_kind par key) as Hlk by (apply Hk; set_solver).
    rewrite child_insert, !list_elem_of_singleton. case_decide as Hd.
    + injection Hd as <- <-. rewrite <- Hlk. split.
      * intros [= <-]. by left.
      * by intros [[= ->]|[_ []]].
    + split; [|by intros [[= -> -> _]|[? _]]]. intros Hc. right. split; [done|].
      by intros [= -> ->].
  - specialize (IH (insert_child ch par pre KCommonPrefix) pre).
    destruct (insert_prefixes (insert_child ch par pre KCommonPrefix) pre ps) as [ch' last].
    rewrite IH by (intros; apply Hk; set_solver).
    assert (KCommonPrefix = link_kind par pre) as Hlk by (apply Hk; set_solver).
    rewrite child_insert, !elem_of_cons. case_decide as Hd; cycle 1.
    { assert (forall x, (p, c, x) = (par, pre, KCommonPrefix) -> False) as Hx
        by by intros x [= -> ->].
      specialize (Hx k) as Hx1. specialize (Hx (link_kind p c)). tauto. }
    injection Hd as <- <-.
    assert (forall k, (par, pre, k) ∈ links_go pre ps key -> k = link_kind par pre) as Hf
      by (intros; apply Hk; set_solver).
    rewrite <- Hlk in *. split.
    + intros [Hin|[[= <-] _]]; [by left; right|by left; left].
    + intros [[[= ->]|Hin]|[_ Hn]]; [|by left|destruct Hn; by left].
      destruct (decide ((par, pre, KCommonPrefix) ∈ links_go pre ps key)); [by left|by right].
Qed.

(** ** The invariant *)

(** The children of a bucket are exactly the links its object keys imply. *)
Definition index_wf (b : BucketIndex M) : Prop :=
  forall p c k, child (bi_children b) p c = Some k <->
    exists key, key ∈ sk_keys (bi_objects b) /\ (p, c, k) ∈ links key.

Lemma links_kind p c k key : (p, c, k) ∈ links key -> k = link_kind p c.
Proof. by intros (_ & _ & ? & _)%elem_of_links_cases. Qed.

Lemma new_bucket_index_wf : index_wf new_bucket_index.
Proof.
  intros p c k. unfold child, new_bucket_index; simpl. split.
  - rewrite sk_get_insert. case_decide; by rewrite sk_get_empty.
  - intros (key & Hkey & _). apply elem_of_sk_keys in Hkey as [? Hkey].
    by rewrite sk_get_empty in Hkey.
Qed.

Lemma insert_object_objects b key :
  bi_objects (insert_object b key) = sk_insert key tt (bi_objects b).
Proof.
  unfold insert_object, insert_directory_children; simpl.
  by destruct (insert_prefixes _ _ _).
Qed.

Lemma elem_of_sk_keys_insert {V} (m : M V) k k' v :
  k' ∈ sk_keys (sk_insert k v m) <-> k' = k \/ k' ∈ sk_keys m.
Proof.
  rewrite !elem_of_sk_keys, sk_get_insert. case_decide; [|naive_solver].
  subst. split; [by left|by eauto].
Qed.

Lemma elem_of_sk_keys_remove {V} (m : M V) k k' :
  k' ∈ sk_keys (sk_remove k m) <-> k' <> k /\ k' ∈ sk_keys m.
Proof.
  rewrite !elem_of_sk_keys, sk_get_remove. case_decide; [|naive_solver].
  subst. split; [by intros [? ?]|by intros [? _]].
Qed.

Lemma child_insert_object b key p c k :
  child (bi_children (insert_object b key)) p c = Some k <->
  (p, c, k) ∈ links key \/
  child (bi_children b) p c = Some k /\ (p, c, link_kind p c) ∉ links key.
Proof.
  pose proof (child_insert_links (bi_children b) EmptyString (parent_prefixes key) key p c k)
    as Hins.
  unfold insert_object, insert_directory_children; simpl.
  destruct (insert_prefixes _ _ _) as [ch last]. apply Hins.
  intros ???. apply links_kind.
Qed.

Lemma insert_object_wf b key : index_wf b -> index_wf (insert_object b key).
Proof.
  intros Hwf p c k. rewrite child_insert_object, insert_object_objects.
  setoid_rewrite elem_of_sk_keys_insert. split.
  - intros [?|[Hc _]]; [by eauto|]. apply Hwf in Hc as (key' & ? & ?). by eauto.
  - intros (key' & [->|Hin] & Hl); [by left|].
    destruct (decide ((p, c, link_kind p c) ∈ links key)) as [Hk|Hk].
    + left. by rewrite (links_kind _ _ _ _ Hl).
    + right. split; [|done]. apply Hwf. by eauto.
Qed.

(** [has_object_with_prefix] looks at the first key not below the prefix only,
    and that is enough: the keys with a prefix are an interval. *)
Lemma has_object_with_prefix_spec (objs : M unit) prefix :
  has_object_with_prefix objs prefix = true <->
  exists key, key ∈ sk_keys objs /\ Text.starts_with key prefix = true.
Proof.
  unfold has_object_with_prefix, sk_keys, from_included.
  pose proof (sk_entries_sorted _ objs) as Hs. split.
  - destruct (filter _ _) as [|[key u] l] eqn:E; [done|]. intros Hp. exists key.
    split; [|done]. assert ((key, u) ∈ filter (fun e => String.le prefix e.1) (sk_entries objs))
      as [_ Hin]%list_elem_of_filter by (rewrite E; set_solver).
    apply list_elem_of_fmap. by exists (key, u).
  - intros (key & ([key' u] & -> & Hin)%list_elem_of_fmap & Hp). simpl in *.
    assert (String.le prefix key').
    { apply Text.starts_with_spec in Hp as [t ->]. apply Text.le_app_r. }
    apply (StronglySorted_filter _ (fun e => String.le prefix e.1)) in Hs.
    assert ((key', u) ∈ filter (fun e => String.le prefix e.1) (sk_entries objs)) as Hf
      by by apply list_elem_of_filter.
    destruct (filter _ _) as [|[k1 u1] l] eqn:E; [set_solver|].
    assert ((k1, u1) ∈ filter (fun e => String.le prefix e.1) (sk_entries objs))
      as [Hle _]%list_elem_of_filter by (rewrite E; set_solver).
    apply (Text.starts_with_convex _ _ key'); [done| |done].
    apply elem_of_cons in Hf as [[= -> ->]|Hf]; [done|].
    inversion Hs as [|? ? _ Hall]; subst. rewrite list.Forall_forall in Hall.
    by apply Text.lt_le, (Hall _ Hf).
Qed.

(** One pass of the pruning loop over the prefix pairs. *)
Lemma child_prune objs pairs ch p c k :
  child (foldl (prune_prefix objs) ch pairs) p c = Some k <->
  child ch p c = Some k /\
  forall par pre, (par, pre) ∈ pairs -> has_object_with_prefix objs pre = false ->
                  (par, pre) <> (p, c) /\ pre <> p.
Proof.
  revert ch. induction pairs as [|[par pre] pairs IH]; intros ch; simpl.
  - split; [|by intros [? _]]. intros ?. split; [done|]. by intros ?? ?%elem_of_nil.
  - rewrite IH. unfold prune_prefix. destruct (has_object_with_prefix objs pre) eqn:Hh; simpl.
    + split; intros [? Hall]; (split; [done|]); intros par' pre' Hin Hh'.
      * apply elem_of_cons in Hin as [[= -> ->]|]; [congruence|]. by apply Hall.
      * apply Hall; [set_solver|done].
    + rewrite child_sk_remove, child_remove. split.
      * intros [Hc Hall]. repeat case_decide; try done. split; [done|].
        intros par' pre' [[= -> ->]|Hin]%elem_of_cons Hh'; [done|]. by apply Hall.
      * intros [Hc Hall]. split; [|intros; apply Hall; [set_solver|done]].
        destruct (Hall par pre ltac:(set_solver) Hh).
        by rewrite !decide_False.
Qed.

Lemma remove_object_objects b key :
  bi_objects (remove_object b key).1 = sk_remove key (bi_objects b).
Proof.
  unfold remove_object, remove_directory_children; simpl.
  destruct (is_some _); [|done]. by destruct (pair_prefixes _ _).
Qed.

Lemma child_remove_object b key p c k :
  key ∈ sk_keys (bi_objects b) ->
  child (bi_children (remove_object b key).1) p c = Some k <->
  child (bi_children b) p c = Some k /\ (p, c, KObject) ∉ links key /\
  forall par pre, (par, pre, KCommonPrefix) ∈ links key ->
    has_object_with_prefix (sk_remove key (bi_objects b)) pre = false ->
    (par, pre) <> (p, c) /\ pre <> p.
Proof.
  intros [u Hu]%elem_of_sk_keys. unfold remove_object, remove_directory_children, links.
  rewrite Hu; simpl. setoid_rewrite pair_prefixes_spec.
  destruct (pair_prefixes EmptyString (parent_prefixes key)) as [pairs last]; simpl.
  rewrite child_prune, child_remove. setoid_rewrite elem_of_reverse.
  case_decide; naive_solver.
Qed.

Lemma remove_object_wf b key : index_wf b -> index_wf (remove_object b key).1.
Proof.
  intros Hwf. destruct (decide (key ∈ sk_keys (bi_objects b))) as [Hin|Hin]; cycle 1.
  { intros p c k. rewrite remove_object_objects. setoid_rewrite elem_of_sk_keys_remove.
    unfold remove_object. destruct (sk_get key (bi_objects b)) eqn:E; simpl.
    - destruct Hin. apply elem_of_sk_keys. by eauto.
    - rewrite (Hwf p c k). split; intros (key' & Hk & Hl); exists key'; [|naive_solver].
      split_and!; try done. by intros ->. }
  intros p c k. rewrite child_remove_object, (Hwf p c k), remove_object_objects by done.
  setoid_rewrite elem_of_sk_keys_remove. split.
  - intros ((key' & Hk & Hl) & Hobj & Hpre).
    destruct (decide (key' = key)) as [->|]; [|by eauto].
    destruct k; [done|]. destruct (has_object_with_prefix (sk_remove key (bi_objects b)) c) eqn:Hh.
    + apply has_object_with_prefix_spec in Hh as (key' & Hk'%elem_of_sk_keys_remove & Hs).
      exists key'. split; [done|]. by eapply links_common_prefix.
    + by destruct (Hpre p c Hl Hh).
  - intros (key' & [Hne Hk] & Hl). split_and!.
    + by eauto.
    + intros Ho. pose proof (links_kind _ _ _ _ Ho) as Hkind.
      rewrite (links_kind _ _ _ _ Hl), <- Hkind in Hl.
      apply elem_of_links_cases in Ho as (_ & _ & _ & ->).
      by apply elem_of_links_cases in Hl as (_ & _ & _ & <-).
    + intros par pre Hc Hh.
      assert (Text.starts_with key' pre = true -> False) as Hno.
      { intros Hs. apply not_true_iff_false in Hh. apply Hh, has_object_with_prefix_spec.
        exists key'. by rewrite elem_of_sk_keys_remove. }
      split.
      * intros [= -> ->]. rewrite (links_kind _ _ _ _ Hl), <- (links_kind _ _ _ _ Hc) in Hl.
        by apply elem_of_links_cases in Hl as (_ & _ & _ & ?).
      * intros ->. by apply elem_of_links_cases in Hl as (_ & ? & _).
Qed.

(** ** The whole index *)

Definition idx_wf (idx : LockFreeIndex M) : Prop :=
  forall bucket b, sk_get bucket idx = Some b -> index_wf b.

(** The keys indexed for a bucket. *)
Definition indexed_keys (idx : LockFreeIndex M) (bucket : string) : list string :=
  match sk_get bucket idx with Some b => sk_keys (bi_objects b) | None => [] end.

(** The mutations of the index, as a transition system. *)
Inductive index_step : LockFreeIndex M -> LockFreeIndex M -> Prop :=
| step_create idx bucket : index_step idx (get_or_create_bucket idx bucket)
| step_insert idx bucket key : index_step idx (index_insert idx bucket key)
| step_remove idx bucket key : index_step idx (index_remove idx bucket key).1
| step_clear idx bucket : index_step idx (clear_bucket idx bucket)
| step_rebuild idx entries : index_step idx (rebuild idx entries).

Definition index_reachable : LockFreeIndex M -> Prop := rtc index_step new_index.

Lemma idx_wf_insert idx bucket b : idx_wf idx -> index_wf b -> idx_wf (sk_insert bucket b idx).
Proof.
  intros Hi Hb bucket' b'. rewrite sk_get_insert. case_decide; [by intros [= <-]|apply Hi].
Qed.

Lemma index_insert_bucket idx bucket key :
  idx_wf idx ->
  exists b idx', index_wf b /\ idx_wf idx' /\
    index_insert idx bucket key = sk_insert bucket (insert_object b key) idx' /\
    sk_keys (bi_objects b) = indexed_keys idx bucket /\
    forall bucket', bucket' <> bucket -> sk_get bucket' idx' = sk_get bucket' idx.
Proof.
  intros Hi. unfold index_insert, get_or_create_bucket, indexed_keys.
  destruct (sk_get bucket idx) as [b|] eqn:E.
  - rewrite E. exists b, idx. split_and!; [by eapply Hi|done..].
  - rewrite sk_get_insert_eq. exists new_bucket_index, (sk_insert bucket new_bucket_index idx).
    split_and!; [apply new_bucket_index_wf|by apply idx_wf_insert, new_bucket_index_wf|done| |].
    + unfold sk_keys; simpl. destruct (sk_entries _) as [|[k v] l] eqn:He; [done|].
      assert ((k, v) ∈ sk_entries (sk_empty : M unit)) as Hk%sk_entries_get
        by (rewrite He; set_solver). by rewrite sk_get_empty in Hk.
    + intros. by rewrite sk_get_insert_ne.
Qed.

Lemma foldl_insert_object_wf keys b : index_wf b -> index_wf (foldl insert_object b keys).
Proof.
  revert b. induction keys as [|k keys IH]; intros b Hb; simpl; [done|].
  by apply IH, insert_object_wf.
Qed.

Lemma index_step_wf idx idx' : index_step idx idx' -> idx_wf idx -> idx_wf idx'.
Proof.
  intros [i bucket|i bucket key|i bucket key|i bucket|i entries] Hi.
  - unfold get_or_create_bucket. destruct (sk_get bucket i); [done|].
    apply idx_wf_insert; [done|]. apply new_bucket_index_wf.
  - destruct (index_insert_bucket i bucket key Hi) as (b & i' & Hb & Hi' & -> & _).
    by apply idx_wf_insert, insert_object_wf.
  - unfold index_remove. destruct (sk_get bucket i) as [b|] eqn:E; [|done].
    pose proof (remove_object_wf b key (Hi _ _ E)) as Hb.
    destruct (remove_object b key) as [b' r]. by apply idx_wf_insert.
  - intros bucket' b'. unfold clear_bucket. rewrite sk_get_remove. case_decide; [done|apply Hi].
  - unfold rebuild. revert i Hi. induction entries as [|[bucket keys] es IH]; intros i Hi; [done|].
    simpl. apply IH, idx_wf_insert; [done|]. apply foldl_insert_object_wf, new_bucket_index_wf.
Qed.

Lemma new_index_wf : idx_wf new_index.
Proof. intros ? ? He. unfold new_index in He. by rewrite sk_get_empty in He. Qed.

Lemma reachable_wf idx : index_reachable idx -> idx_wf idx.
Proof.
  unfold index_reachable. intros Hr. remember new_index as i eqn:Ei.
  assert (idx_wf i) as Hi by (subst i; apply new_index_wf).
  clear Ei. induction Hr; [done|]. by eauto using index_step_wf.
Qed.

(** C35 [index_reachable_wf]. In every index reachable by create, insert,
    remove, clear and rebuild, the directory children of a bucket are exactly
    the entries its keys have under each parent prefix: none is missing and
    none is left behind after a deletion. *)
Theorem index_reachable_wf (idx : LockFreeIndex M) :
  index_reachable idx ->
  forall bucket b p c k, sk_get bucket idx = Some b ->
    (child (bi_children b) p c = Some k <->
     exists key, key ∈ sk_keys (bi_objects b) /\ directory_prefix p /\
       Text.starts_with key p = true /\ mkEntry c k = delimited_entry p "/" key).
Proof.
  intros Hr bucket b p c k Hb.
  pose proof (reachable_wf idx Hr) as Hwf.
  rewrite (Hwf _ _ Hb p c k). by setoid_rewrite elem_of_links.
Qed.

Lemma indexed_keys_insert idx bucket b bucket' :
  indexed_keys (sk_insert bucket b idx) bucket' =
  if decide (bucket = bucket') then sk_keys (bi_objects b) else indexed_keys idx bucket'.
Proof. unfold indexed_keys. rewrite sk_get_insert. by case_decide. Qed.

Lemma elem_of_indexed_insert (idx : LockFreeIndex M) bucket key bucket' key' :
  idx_wf idx ->
  key' ∈ indexed_keys (index_insert idx bucket key) bucket' <->
  bucket' = bucket /\ key' = key \/ key' ∈ indexed_keys idx bucket'.
Proof.
  intros Hi. destruct (index_insert_bucket idx bucket key Hi) as (b & i' & _ & _ & -> & Hk & Hn).
  rewrite indexed_keys_insert. case_decide as Hd.
  - subst bucket'. rewrite insert_object_objects, elem_of_sk_keys_insert, Hk. naive_solver.
  - unfold indexed_keys. rewrite Hn by done. naive_solver.
Qed.

Lemma elem_of_indexed_remove (idx : LockFreeIndex M) bucket key bucket' key' :
  key' ∈ indexed_keys (index_remove idx bucket key).1 bucket' <->
  key' ∈ indexed_keys idx bucket' /\ (bucket', key') <> (bucket, key).
Proof.
  unfold index_remove. destruct (sk_get bucket idx) as [b|] eqn:E.
  - pose proof (remove_object_objects b key) as Ho.
    destruct (remove_object b key) as [b' r]; simpl in *.
    rewrite indexed_keys_insert. case_decide as Hd.
    + subst bucket'. rewrite Ho, elem_of_sk_keys_remove. unfold indexed_keys. rewrite E.
      naive_solver.
    + naive_solver.
  - simpl. split; [|by intros [? _]]. intros Hin. split; [done|]. intros [= -> ->].
    unfold indexed_keys in Hin. rewrite E in Hin. by apply elem_of_nil in Hin.
Qed.

Lemma index_contains_keys (idx : LockFreeIndex M) bucket key :
  index_contains idx bucket key = true <-> key ∈ indexed_keys idx bucket.
Proof.
  unfold index_contains, indexed_keys. destruct (sk_get bucket idx) as [b|]; [|by rewrite elem_of_nil].
  rewrite elem_of_sk_keys. destruct (sk_get key _); simpl; [by split; eauto|]. split; [done|by intros [??]].
Qed.

(** insert adds exactly the key, remove takes away
    exactly the key and reports whether it was there, and contains answers
    membership. *)
Theorem index_updates_keys (idx : LockFreeIndex M) bucket key bucket' key' :
  idx_wf idx ->
  (key' ∈ indexed_keys (index_insert idx bucket key) bucket' <->
     bucket' = bucket /\ key' = key \/ key' ∈ indexed_keys idx bucket') /\
  (key' ∈ indexed_keys (index_remove idx bucket key).1 bucket' <->
     key' ∈ indexed_keys idx bucket' /\ (bucket', key') <> (bucket, key)) /\
  (index_remove idx bucket key).2 = index_contains idx bucket key /\
  (index_contains idx bucket' key' = true <-> key' ∈ indexed_keys idx bucket').
Proof.
  intros Hi. split_and!; [by apply elem_of_indexed_insert|apply elem_of_indexed_remove| |apply index_contains_keys].
  unfold index_remove, index_contains. destruct (sk_get bucket idx) as [b|]; [|done].
  unfold remove_object. by destruct (sk_get key (bi_objects b)).
Qed.

(** ** Listings *)

(** What the loops' cap keeps: a cap of zero still yields one entry. *)
Definition capped {A} (max : option N) (l : list A) : list A :=
  match max with Some n => take (N.to_nat (N.max 1 n)) l | None => l end.

Lemma capped_nil {A} max : capped max (@nil A) = [].
Proof. destruct max; [apply take_nil|done]. Qed.

Lemma take_max_cap {A} max count (l : list A) :
  is_some_and (fun n => n <=? count)%N max = false ->
  take_max max count l =
  match max with Some n => take (N.to_nat (n - count)) l | None => l end.
Proof.
  revert count. induction l as [|a l IH]; intros count; destruct max as [n|]; simpl; try done.
  - intros _. by rewrite take_nil.
  - intros Hn%N.leb_gt. unfold reached; simpl.
    replace (N.to_nat (n - count)) with (S (N.to_nat (n - (count + 1)))) by lia.
    simpl. destruct (n <=? count + 1)%N eqn:E.
    + apply N.leb_le in E. by replace (N.to_nat (n - (count + 1))) with 0 by lia.
    + by rewrite IH.
  - intros _. unfold reached; simpl. by rewrite IH.
Qed.

Lemma take_max_capped {A} max (l : list A) : take_max max 0 l = capped max l.
Proof.
  destruct max as [n|]; [|by rewrite take_max_cap]. unfold capped.
  destruct (decide (n = 0%N)) as [->|].
  - by destruct l.
  - rewrite take_max_cap by (simpl; apply N.leb_gt; lia). do 2 f_equal. lia.
Qed.

(** Keys of a cursor that starts at or after the prefix: the matching ones
    come first. *)
Lemma take_prefixed_filter prefix max count (l : list (string * unit)) :
  StronglySorted key_lt l ->
  (forall p e, prefix = Some p -> e ∈ l -> String.le p e.1) ->
  take_prefixed prefix max count l =
  take_max max count
    (filter (fun k => is_none_or (Text.starts_with k) prefix = true) l.*1).
Proof.
  intros Hs. revert count. induction Hs as [|[k u] l Hs IH Hall]; intros count Hle; [done|].
  change ((k, u) :: l).*1 with (k :: l.*1).
  destruct (is_none_or (Text.starts_with k) prefix) eqn:E.
  - rewrite filter_cons_True by done. simpl.
    replace (is_some_and _ prefix) with false by (destruct prefix; simpl in *; by rewrite ?E).
    f_equal. destruct (reached _ _); [done|].
    apply IH. intros p' e Hp He. apply Hle; [done|]. set_solver.
  - rewrite filter_cons_False by (by rewrite E). destruct prefix as [p|]; [|done].
    simpl in *. rewrite E. simpl.
    destruct (filter _ _) as [|k' l'] eqn:F; [done|]. exfalso.
    assert (k' ∈ filter (fun k => Text.starts_with k p = true) l.*1) as Hk
      by (rewrite F; set_solver).
    apply list_elem_of_filter in Hk as [Hk ([k2 u2] & -> & Hin)%list_elem_of_fmap].
    rewrite list.Forall_forall in Hall.
    rewrite (Text.starts_with_convex p k k2) in E; [done| | |done].
    + apply (Hle p (k, u)); [done|set_solver].
    + by apply Text.lt_le, (Hall (k2, u2)).
Qed.

Lemma fmap_fst_filter (P : string -> Prop) `{forall x, Decision (P x)} (l : list (string * unit)) :
  (filter (fun e => P e.1) l).*1 = filter P l.*1.
Proof.
  induction l as [|[k u] l IH]; [done|].
  change ((k, u) :: l).*1 with (k :: l.*1). destruct (decide (P k)).
  - rewrite !filter_cons_True by done. simpl. by f_equal.
  - by rewrite !filter_cons_False.
Qed.

Lemma filter_and {A} (P Q R : A -> Prop) `{forall x, Decision (P x), forall x, Decision (Q x),
    forall x, Decision (R x)} (l : list A) :
  (forall x, P x /\ Q x <-> R x) -> filter P (filter Q l) = filter R l.
Proof.
  intros Hr. induction l as [|a l IH]; [done|]. rewrite !filter_cons.
  specialize (Hr a). destruct (decide (Q a)) as [Hq|Hq]; [rewrite filter_cons|];
    repeat case_decide; try tauto; by rewrite IH.
Qed.

(** The keys a listing asks for: with the prefix and after the marker. *)
Definition wanted (prefix marker : option string) (key : string) : Prop :=
  is_none_or (Text.starts_with key) prefix = true /\
  is_none_or (fun m => Text.ltb m key) marker = true.
#[global] Instance wanted_dec prefix marker key : Decision (wanted prefix marker key).
Proof. apply _. Defined.

Lemma starts_with_le key p : Text.starts_with key p = true -> String.le p key.
Proof. intros [t ->]%Text.starts_with_spec. apply Text.le_app_r. Qed.

Lemma list_prefix_marker_scan (idx : LockFreeIndex M) bucket prefix marker max_keys :
  list_prefix_marker idx bucket prefix marker max_keys =
  capped max_keys (filter (wanted prefix marker) (indexed_keys idx bucket)).
Proof.
  unfold list_prefix_marker, indexed_keys. destruct (sk_get bucket idx) as [b|]; cycle 1.
  { by rewrite filter_nil, capped_nil. }
  rewrite <- take_max_capped. unfold sk_keys, from_included, from_excluded.
  pose proof (sk_entries_sorted _ (bi_objects b)) as Hs.
  assert (forall (P : string -> Prop) `{forall x, Decision (P x)},
    (forall p k, prefix = Some p -> P k -> String.le p k) ->
    (forall k, is_none_or (Text.starts_with k) prefix = true ->
       P k <-> is_none_or (fun m => Text.ltb m k) marker = true) ->
    take_prefixed prefix max_keys 0 (filter (fun e => P e.1) (sk_entries (bi_objects b))) =
    take_max max_keys 0 (filter (wanted prefix marker) (sk_entries (bi_objects b)).*1)) as Hgen.
  { intros P HP Hle Hiff. rewrite take_prefixed_filter.
    - f_equal. rewrite fmap_fst_filter. apply filter_and. intros k. unfold wanted.
      specialize (Hiff k). tauto.
    - by apply StronglySorted_filter.
    - intros p e Hp [He _]%list_elem_of_filter. by eapply Hle. }
  destruct prefix as [p|], marker as [m|]; simpl in Hgen.
  - destruct (Text.leb p m) eqn:E; unfold Text.leb in E; bool_simpl.
    + apply (Hgen (Text.lt m) _).
      * intros ?? [= <-] Hk. etrans; [done|]. by apply Text.lt_le.
      * intros k _. unfold Text.ltb. by rewrite bool_decide_eq_true.
    + apply (Hgen (String.le p) (fun x => Is_true_dec _)); [by intros ?? [= <-]|].
      intros k Hk%starts_with_le. unfold Text.ltb. rewrite bool_decide_eq_true.
      split; [|done]. intros _. apply Text.not_le_lt in E. by eapply Text.lt_le_trans.
  - apply (Hgen (String.le p) (fun x => Is_true_dec _)); [by intros ?? [= <-]|].
    intros k Hk%starts_with_le. done.
  - apply (Hgen (Text.lt m) _); [done|].
    intros k _. unfold Text.ltb. by rewrite bool_decide_eq_true.
  - specialize (Hgen (fun _ => True) _ ltac:(done) ltac:(done)). rewrite <- Hgen. f_equal.
    clear. induction (sk_entries (bi_objects b)) as [|e l IH]; [done|].
    rewrite filter_cons. case_decide; [|done]. by f_equal.
Qed.

(** [list_prefix_marker_is_scan]. list_prefix_marker, which starts inside the
    skip map and stops early, equals filtering all keys of the bucket by
    prefix and marker and cutting at the limit, and its result is strictly
    sorted. *)
Theorem list_prefix_marker_is_scan (idx : LockFreeIndex M) bucket prefix marker max_keys :
  list_prefix_marker idx bucket prefix marker max_keys =
  capped max_keys (filter (wanted prefix marker) (indexed_keys idx bucket)) /\
  StronglySorted Text.lt (list_prefix_marker idx bucket prefix marker max_keys).
Proof.
  split; [apply list_prefix_marker_scan|]. rewrite list_prefix_marker_scan.
  assert (StronglySorted Text.lt (filter (wanted prefix marker) (indexed_keys idx bucket))) as Hs.
  { apply StronglySorted_filter. unfold indexed_keys.
    destruct (sk_get bucket idx); [apply sk_keys_sorted|constructor]. }
  destruct max_keys as [n|]; simpl; [|done].
  rewrite <- (take_drop (N.to_nat (N.max 1 n))) in Hs. by apply StronglySorted_app_split in Hs as [? _].
Qed.

(** The entries of a delimited listing, in order of their paths. *)
Definition entry_lt (a b : DirectoryEntry) : Prop := Text.lt (e_path a) (e_path b).

#[global] Instance entry_lt_trans : Transitive entry_lt.
Proof. intros a b c. unfold entry_lt. by etrans. Qed.

Lemma list_child_entries_capped idx bucket p marker max :
  list_child_entries idx bucket p marker max =
  capped max (list_child_entries idx bucket p marker None).
Proof.
  unfold list_child_entries. destruct (sk_get bucket idx) as [b|];
    [|by rewrite capped_nil].
  destruct (sk_get p (bi_children b)) as [es|];
    [|by rewrite capped_nil].
  rewrite !take_max_capped. destruct max; simpl; [|done]. by rewrite firstn_map.
Qed.

Lemma child_entries_spec idx bucket p marker e :
  e ∈ list_child_entries idx bucket p marker None <->
  exists b, sk_get bucket idx = Some b /\
    child (bi_children b) p (e_path e) = Some (e_kind e) /\
    is_none_or (fun m => Text.ltb m (e_path e)) marker = true.
Proof.
  unfold list_child_entries, child. destruct (sk_get bucket idx) as [b|]; cycle 1.
  { rewrite elem_of_nil. naive_solver. }
  destruct (sk_get p (bi_children b)) as [es|] eqn:E; cycle 1.
  { rewrite elem_of_nil. split; [done|]. intros (b' & [= <-] & Hc & _). by rewrite E in Hc. }
  rewrite take_max_capped; simpl. rewrite list_elem_of_fmap. unfold from_excluded.
  destruct e as [c k]; simpl. split.
  - intros ([c' k'] & [= -> ->] & Hin). exists b. rewrite E. split; [done|].
    destruct marker as [m|].
    + apply list_elem_of_filter in Hin as [? Hin%sk_entries_get]. split; [done|].
      by apply bool_decide_eq_true.
    + by apply sk_entries_get in Hin.
  - intros (b' & [= <-] & Hc & Hm). rewrite E in Hc. exists (c, k). split; [done|].
    apply sk_entries_get in Hc. destruct marker as [m|]; [|done].
    apply list_elem_of_filter. split; [|done]. by apply bool_decide_eq_true in Hm.
Qed.

Lemma child_entries_sorted idx bucket p marker :
  StronglySorted entry_lt (list_child_entries idx bucket p marker None).
Proof.
  unfold list_child_entries. destruct (sk_get bucket idx) as [b|]; [|constructor].
  destruct (sk_get p (bi_children b)) as [es|]; [|constructor].
  rewrite take_max_capped; simpl.
  assert (forall l : list (string * DirectoryEntryKind), StronglySorted key_lt l ->
            StronglySorted entry_lt (map (fun e => mkEntry e.1 e.2) l)) as Hm.
  { induction 1; simpl; constructor; [done|]. by apply Forall_fmap. }
  apply Hm. unfold from_excluded. pose proof (sk_entries_sorted _ es).
  destruct marker; [by apply StronglySorted_filter|done].
Qed.

(** A strictly sorted list of the entries the keys imply is the listing. *)
Lemma list_child_entries_scan (idx : LockFreeIndex M) bucket p marker max (ref : list DirectoryEntry) :
  idx_wf idx -> directory_prefix p ->
  StronglySorted entry_lt ref ->
  (forall e, e ∈ ref <-> exists key, key ∈ indexed_keys idx bucket /\
     Text.starts_with key p = true /\ e = delimited_entry p "/" key /\
     is_none_or (fun m => Text.ltb m (e_path e)) marker = true) ->
  list_child_entries idx bucket p marker max = capped max ref.
Proof.
  intros Hi Hp Hs Href. rewrite list_child_entries_capped. f_equal.
  apply (StronglySorted_ext entry_lt); [..|apply child_entries_sorted|done|].
  - intros a. apply Text.lt_irrefl.
  - intros e. rewrite child_entries_spec, Href. unfold indexed_keys. split.
    + intros (b & Hb & Hc & Hm). rewrite Hb. apply (Hi _ _ Hb) in Hc as (key & Hk & Hl).
      apply elem_of_links in Hl as (_ & ? & ?). exists key. by destruct e.
    + intros (key & Hk & Hst & He & Hm). destruct (sk_get bucket idx) as [b|] eqn:Hb;
        [|by apply elem_of_nil in Hk].
      exists b. split_and!; [done| |done]. apply (Hi _ _ Hb). exists key. split; [done|].
      apply elem_of_links. by destruct e.
Qed.

End Facts.
