(* ===== verification/FsModel.v ===== *)
(** * FsModel: a filesystem that fails and crashes, and a program logic for it

    The storage root as a map from paths to files and directories, the
    [std::fs] calls the store makes, and the monad they run in.  Before every
    call a schedule decides whether it goes through, returns an I/O error, or
    the process is terminated there; a call that writes bytes or removes a tree
    may have done part of its work.  [wp] is the weakest-precondition judgement
    over all schedules, with one postcondition each for success, for an error
    returned, and for a crash. *)

From S2P Require Import Prelude Text Models.

(** ** Paths and files *)

(** A path below the storage root: its components. *)
Abbreviation path := (list string).

(** [Path::join] with a single component, [Path::parent], [Path::file_name] *)
Definition join (p : path) (name : string) : path := p ++ [name].
Definition parent (p : path) : path := removelast p.
Definition file_name (p : path) : option string := list.last p.

Inductive entry : Type := File (contents : bytes) | Directory.

#[export] Instance entry_eq_dec : EqDecision entry.
Proof. solve_decision. Defined.

Abbreviation fs :=
  (@gmap (list string) (@list.list_eq_dec string String.eq_dec)
         (@countable.list_countable string String.eq_dec strings.String.countable) entry).

(** [Path::exists], [Path::is_dir], [Path::is_file] *)
Definition path_exists (p : path) (s : fs) : bool := is_some (s !! p).
Definition is_dir (p : path) (s : fs) : bool :=
  match s !! p with Some Directory => true | _ => false end.
Definition is_file (p : path) (s : fs) : bool :=
  match s !! p with Some (File _) => true | _ => false end.

(** The path is at or below the directory. *)
Fixpoint below (d p : path) : bool :=
  match d, p with
  | [], _ => true
  | a :: d', b :: p' => eqb a b && below d' p'
  | _ :: _, [] => false
  end.

(** The name of a direct child of [d]. *)
Fixpoint child_name (d p : path) : option string :=
  match d, p with
  | [], [n] => Some n
  | a :: d', b :: p' => if eqb a b then child_name d' p' else None
  | _, _ => None
  end.

Definition children_of (d : path) (s : fs) : list string :=
  omap (fun e => child_name d e.1) (map_to_list s).

(** ** Schedules *)

(** What an interrupted call leaves: the bytes written so far, and the paths
    of a removed tree that are still there. *)
Record residue : Type := mkResidue { written : nat; kept : list path }.

Inductive choice : Type :=
| Go                     (* the call takes effect *)
| GoLinked               (* as [Go], and two names with equal contents are
                            links to one inode *)
| IoFail (r : residue)   (* the call returns an error *)
| Crash (r : residue).   (* the process is terminated during the call *)

(** The rest of the run: a choice per call ([Go] once the list is exhausted),
    the random numbers of [Uuid::new_v4] and the clock. *)
Record Sched : Type := mkSched {
  sc_choices : list choice;
  sc_uuids : nat -> N;
  sc_clock : nat -> time }.

Definition next_choice (σ : Sched) : choice * Sched :=
  match sc_choices σ with
  | [] => (Go, σ)
  | c :: cs => (c, mkSched cs (sc_uuids σ) (sc_clock σ))
  end.

(** ** The monad *)

Inductive outcome (A : Type) : Type :=
| Done (a : A) | Failed (e : Error) | Crashed.
Global Arguments Done {A} a.
Global Arguments Failed {A} e.
Global Arguments Crashed {A}.

Definition io (S A : Type) : Type := Sched -> S -> outcome A * S * Sched.

#[export] Instance io_ret {S} : MRet (io S) := fun A a σ s => (Done a, s, σ).
#[export] Instance io_bind {S} : MBind (io S) := fun A B f m σ s =>
  match m σ s with
  | (Done a, s', σ') => f a σ' s'
  | (Failed e, s', σ') => (Failed e, s', σ')
  | (Crashed, s', σ') => (Crashed, s', σ')
  end.

Definition fail {S A} (e : Error) : io S A := fun σ s => (Failed e, s, σ).
Definition gets {S A} (f : S -> A) : io S A := fun σ s => (Done (f s), s, σ).
Definition modify {S} (f : S -> S) : io S unit := fun σ s => (Done tt, f s, σ).
(** The outcome of a call as a value: [match outcome { Ok .. Err .. }]. *)
Definition attempt {S A} (m : io S A) : io S (Res A) := fun σ s =>
  match m σ s with
  | (Done a, s', σ') => (Done (Ok a), s', σ')
  | (Failed e, s', σ') => (Done (Err e), s', σ')
  | (Crashed, s', σ') => (Crashed, s', σ')
  end.
(** [let _ = call()] *)
Definition ignore {S A} (m : io S A) : io S unit := _ ← attempt m; mret tt.
(** [result?] *)
Definition of_res {S A} (r : Res A) : io S A :=
  match r with Ok a => mret a | Err e => fail e end.
(** [result.map_err(f)] *)
Definition map_fail {S A} (f : Error -> Error) (m : io S A) : io S A :=
  r ← attempt m; of_res (map_err f r).

Fixpoint for_each {S A} (f : A -> io S unit) (l : list A) : io S unit :=
  match l with
  | [] => mret tt
  | a :: l' => _ ← f a; for_each f l'
  end.

(** Running on a component of a larger state. *)
Definition zoom {S T A} (get : T -> S) (set : S -> T -> T) (m : io S A) : io T A :=
  fun σ t => let '(o, s, σ') := m σ (get t) in (o, set s t, σ').

Definition new_uuid_number {S} : io S N := fun σ s =>
  (Done (sc_uuids σ 0), s,
   mkSched (sc_choices σ) (fun n => sc_uuids σ (1 + n)) (sc_clock σ)).
(** [chrono::Utc::now()] *)
Definition now {S} : io S time := fun σ s =>
  (Done (sc_clock σ 0), s,
   mkSched (sc_choices σ) (sc_uuids σ) (fun n => sc_clock σ (1 + n))).

(** ** System calls *)

(** A call that the schedule may let through, fail or interrupt; an interrupted
    call leaves [partial]. *)
Definition sys {A} (msg : string) (run : bool -> fs -> option (A * fs))
    (partial : residue -> fs -> fs) : io fs A := fun σ s =>
  let '(c, σ') := next_choice σ in
  let go linked := match run linked s with
                   | Some (a, s') => (Done a, s', σ')
                   | None => (Failed (InternalError msg), s, σ')
                   end in
  match c with
  | Go => go false
  | GoLinked => go true
  | IoFail r => (Failed (InternalError msg), partial r s, σ')
  | Crash r => (Crashed, partial r s, σ')
  end.

Definition untouched (r : residue) (s : fs) : fs := s.

(** [fs::read] *)
Definition read_file (msg : string) (p : path) : io fs bytes :=
  sys msg (fun _ s => match s !! p with Some (File b) => Some (b, s) | _ => None end)
      untouched.

(** [fs::metadata(p)?.len()] of a file *)
Definition file_len (msg : string) (p : path) : io fs N :=
  sys msg (fun _ s => match s !! p with
                      | Some (File b) => Some (size_of b, s) | _ => None end)
      untouched.

(** [fs::File::create] *)
Definition create_file (msg : string) (p : path) : io fs unit :=
  sys msg (fun _ s => if is_dir (parent p) s && negb (is_dir p s)
                      then Some (tt, <[p := File []]> s) else None)
      untouched.

(** [file.write_all(bytes)] on a file just created *)
Definition write_all (msg : string) (p : path) (b : bytes) : io fs unit :=
  sys msg (fun _ s => if is_file p s then Some (tt, <[p := File b]> s) else None)
      (fun r s => if is_file p s then <[p := File (take (written r) b)]> s else s).

(** [File::open(p).and_then(|file| file.sync_all())] *)
Definition sync_file (msg : string) (p : path) : io fs unit :=
  sys msg (fun _ s => if path_exists p s then Some (tt, s) else None) untouched.

(** [fs::rename].  A file replaces an existing destination atomically; two
    links to one inode are both left in place. *)
Definition rename (msg : string) (src dst : path) : io fs unit :=
  sys msg (fun linked s =>
    match s !! src with
    | Some (File b) =>
        if is_dir (parent dst) s && negb (is_dir dst s) then
          if linked && eqb (s !! dst) (Some (File b)) then Some (tt, s)
          else Some (tt, <[dst := File b]> (delete src s))
        else None
    | Some Directory =>
        if is_dir (parent dst) s && negb (path_exists dst s) && negb (below src dst)
        then Some (tt, list_to_map
               (map (fun e => (if below src e.1 then dst ++ drop (length src) e.1
                               else e.1, e.2)) (map_to_list s)))
        else None
    | None => None
    end) untouched.

(** [fs::hard_link] *)
Definition hard_link (msg : string) (src dst : path) : io fs unit :=
  sys msg (fun _ s =>
    match s !! src with
    | Some (File b) => if is_dir (parent dst) s && negb (path_exists dst s)
                       then Some (tt, <[dst := File b]> s) else None
    | _ => None
    end) untouched.

(** [fs::copy] *)
Definition copy_file (msg : string) (src dst : path) : io fs unit :=
  sys msg (fun _ s =>
    match s !! src with
    | Some (File b) => if is_dir (parent dst) s && negb (is_dir dst s)
                       then Some (tt, <[dst := File b]> s) else None
    | _ => None
    end)
    (fun r s =>
    match s !! src with
    | Some (File b) => if is_dir (parent dst) s && negb (is_dir dst s)
                       then <[dst := File (take (written r) b)]> s else s
    | _ => s
    end).

(** [fs::remove_file] *)
Definition remove_file (msg : string) (p : path) : io fs unit :=
  sys msg (fun _ s => if is_file p s then Some (tt, delete p s) else None) untouched.

(** [fs::remove_dir]: only an empty directory *)
Definition remove_dir (msg : string) (p : path) : io fs unit :=
  sys msg (fun _ s => if is_dir p s && is_none (head (children_of p s))
                      then Some (tt, delete p s) else None) untouched.

(** [fs::remove_dir_all]: interrupted, it leaves some of the tree. *)
Definition remove_dir_all (msg : string) (p : path) : io fs unit :=
  sys msg (fun _ s => if is_dir p s
                      then Some (tt, filter (fun e => below p e.1 = false) s) else None)
    (fun r s => filter (fun e => below p e.1 = false \/
                                 existsb (below e.1) (kept r) = true) s).

(** [fs::create_dir] *)
Definition create_dir (msg : string) (p : path) : io fs unit :=
  sys msg (fun _ s => if is_dir (parent p) s && negb (path_exists p s)
                      then Some (tt, <[p := Directory]> s) else None) untouched.

(** ** The logic *)

(** Which schedules a judgement ranges over: with or without faults, and what
    is assumed of the random numbers and of the clock. *)
Record mode : Type := mkMode { m_faults : bool; m_uuid : N -> Prop; m_clock : time -> Prop }.

Definition benign (c : choice) : Prop := c = Go \/ c = GoLinked.

Definition sched_ok (m : mode) (σ : Sched) : Prop :=
  (m_faults m = false -> Forall benign (sc_choices σ)) /\
  (forall n, m_uuid m (sc_uuids σ n)) /\ forall n, m_clock m (sc_clock σ n).

Definition holds {A S} (Q : A -> S -> Prop) (E : Error -> S -> Prop) (C : S -> Prop)
    (o : outcome A) (s : S) : Prop :=
  match o with Done a => Q a s | Failed e => E e s | Crashed => C s end.

Definition wp {S A} (m : mode) (p : io S A) (Q : A -> S -> Prop)
    (E : Error -> S -> Prop) (C : S -> Prop) (s : S) : Prop :=
  forall σ, sched_ok m σ ->
    let '(o, s', σ') := p σ s in sched_ok m σ' /\ holds Q E C o s'.

Section Rules.
Context {m : mode}.

Lemma wp_ret {S A} (a : A) Q E C (s : S) : Q a s -> wp m (mret a) Q E C s.
Proof. by intros H σ Hσ. Qed.

Lemma wp_fail {S A} e (Q : A -> S -> Prop) E C (s : S) : E e s -> wp m (fail e) Q E C s.
Proof. by intros H σ Hσ. Qed.

Lemma wp_gets {S A} (f : S -> A) Q E C (s : S) : Q (f s) s -> wp m (gets f) Q E C s.
Proof. by intros H σ Hσ. Qed.

Lemma wp_modify {S} (f : S -> S) Q E C (s : S) : Q tt (f s) -> wp m (modify f) Q E C s.
Proof. by intros H σ Hσ. Qed.

Lemma wp_mono {S A} (p : io S A) (Q Q' : A -> S -> Prop) (E E' : Error -> S -> Prop)
    (C C' : S -> Prop) s :
  wp m p Q E C s ->
  (forall a s', Q a s' -> Q' a s') -> (forall e s', E e s' -> E' e s') ->
  (forall s', C s' -> C' s') -> wp m p Q' E' C' s.
Proof.
  intros H HQ HE HC σ Hσ. specialize (H σ Hσ). destruct (p σ s) as [[o s'] σ'].
  destruct H as [Hok Ho]. split; [done|]. destruct o; simpl in *; auto.
Qed.

Lemma wp_bind {S A B} (p : io S A) (k : A -> io S B) Q E C (s : S) :
  wp m p (fun a s' => wp m (k a) Q E C s') E C s -> wp m (p ≫= k) Q E C s.
Proof.
  intros H σ Hσ. specialize (H σ Hσ). unfold mbind, io_bind.
  destruct (p σ s) as [[[a|e|] s'] σ']; destruct H as [Hok H]; simpl in H; [by apply H|done..].
Qed.

Lemma wp_attempt {S A} (p : io S A) Q E C (s : S) :
  wp m p (fun a s' => Q (Ok a) s') (fun e s' => Q (Err e) s') C s ->
  wp m (attempt p) Q E C s.
Proof.
  intros H σ Hσ. specialize (H σ Hσ). unfold attempt.
  destruct (p σ s) as [[[a|e|] s'] σ']; exact H.
Qed.

Lemma wp_ignore {S A} (p : io S A) Q E C (s : S) :
  wp m p (fun _ s' => Q tt s') (fun _ s' => Q tt s') C s -> wp m (ignore p) Q E C s.
Proof.
  intros H. apply wp_bind, wp_attempt. eapply wp_mono; [done|..]; simpl; try done;
  intros; by apply wp_ret.
Qed.

Lemma wp_of_res {S A} (r : Res A) Q E C (s : S) :
  match r with Ok a => Q a s | Err e => E e s end -> wp m (of_res r) Q E C s.
Proof. destruct r; [apply wp_ret|apply wp_fail]. Qed.

Lemma wp_map_fail {S A} f (p : io S A) Q E C (s : S) :
  wp m p Q (fun e s' => E (f e) s') C s -> wp m (map_fail f p) Q E C s.
Proof.
  intros H. apply wp_bind, wp_attempt. eapply wp_mono; [done|..]; simpl; try done;
  intros; by apply wp_of_res.
Qed.

Lemma wp_uuid {S} Q E C (s : S) : (forall n, m_uuid m n -> Q n s) -> wp m new_uuid_number Q E C s.
Proof.
  intros H σ (Hf & Hu & Hc). unfold new_uuid_number. split; [by split_and!; [|intros n; apply Hu|]|].
  simpl. apply H, Hu.
Qed.

Lemma wp_clock {S} Q E C (s : S) : (forall t, m_clock m t -> Q t s) -> wp m now Q E C s.
Proof.
  intros H σ (Hf & Hu & Hc). split; [by split_and!; [| |intros n; apply Hc]|]. simpl. apply H, Hc.
Qed.

Lemma wp_now {S} Q E C (s : S) : (forall t, Q t s) -> wp m now Q E C s.
Proof. intros H. apply wp_clock. auto. Qed.

(** A system call: its effect if it goes through, and, where faults are
    considered, what an error and a crash leave. *)
Lemma wp_sys {A} msg (run : bool -> fs -> option (A * fs)) (partial : residue -> fs -> fs)
    (Q : A -> fs -> Prop) E C (s : fs) :
  (forall linked, match run linked s with
                  | Some (a, s') => Q a s'
                  | None => E (InternalError msg) s
                  end) ->
  (m_faults m = true -> forall r, E (InternalError msg) (partial r s)) ->
  (m_faults m = true -> forall r, C (partial r s)) ->
  wp m (sys msg run partial) Q E C s.
Proof.
  intros HQ HE HC σ Hσ. destruct (Hσ) as [Hf Hu]. unfold sys, next_choice.
  destruct (sc_choices σ) as [|c cs] eqn:Ec.
  - specialize (HQ false). by destruct (run false s) as [[a s']|].
  - assert (sched_ok m (mkSched cs (sc_uuids σ) (sc_clock σ))) as Hok.
    { split; [|done]. intros Hm. specialize (Hf Hm).  by inversion Hf. }
    destruct c as [| |r|r].
    + specialize (HQ false). by destruct (run false s) as [[a s']|].
    + specialize (HQ true). by destruct (run true s) as [[a s']|].
    + split; [done|]. apply HE. destruct (m_faults m); [done|].
      specialize (Hf eq_refl).  inversion Hf as [|? ? Hb _]. by destruct Hb.
    + split; [done|]. apply HC. destruct (m_faults m); [done|].
      specialize (Hf eq_refl).  inversion Hf as [|? ? Hb _]. by destruct Hb.
Qed.

(** A loop under an invariant over the elements still to visit. *)
Lemma wp_for_each {S A} (f : A -> io S unit) l (I : list A -> S -> Prop) Q E C (s : S) :
  I l s ->
  (forall a l' s', I (a :: l') s' -> wp m (f a) (fun _ s'' => I l' s'') E C s') ->
  (forall s', I [] s' -> Q tt s') ->
  wp m (for_each f l) Q E C s.
Proof.
  intros HI Hstep HQ. revert s HI. induction l as [|a l IH]; intros s HI; simpl.
  - apply wp_ret. auto.
  - apply wp_bind. eapply wp_mono; [by apply Hstep|..]; simpl; auto.
Qed.

Lemma wp_zoom {S T A} (get : T -> S) (set : S -> T -> T) (p : io S A) Q E C (t : T) :
  wp m p (fun a s => Q a (set s t)) (fun e s => E e (set s t)) (fun s => C (set s t)) (get t) ->
  wp m (zoom get set p) Q E C t.
Proof.
  intros H σ Hσ. specialize (H σ Hσ). unfold zoom.
  destruct (p σ (get t)) as [[o s'] σ']. destruct H as [? Ho]. split; [done|].
  by destruct o.
Qed.

End Rules.

(** What a judgement says of one run. *)
Lemma wp_run {S A} m (p : io S A) Q E C s σ o s' σ' :
  wp m p Q E C s -> sched_ok m σ -> p σ s = (o, s', σ') -> holds Q E C o s'.
Proof. intros H Hσ Hr. specialize (H σ Hσ). rewrite Hr in H. by destruct H. Qed.

(** Every schedule; those that draw their random numbers as [σ] does; those
    without faults whose clock readings satisfy [clk]; and those without faults. *)
Definition any_schedule : mode := mkMode true (fun _ => True) (fun _ => True).
Definition drawing (σ : Sched) : mode := mkMode true (fun n => exists i, n = sc_uuids σ i) (fun _ => True).
Definition calm_while (clk : time -> Prop) : mode := mkMode false (fun _ => True) clk.
Definition calm : mode := calm_while (fun _ => True).

Lemma any_schedule_ok σ : sched_ok any_schedule σ.
Proof. by split. Qed.

Lemma drawing_ok σ : sched_ok (drawing σ) σ.
Proof. split; [by intros [=]|]. split; [|done]. intros n. by exists n. Qed.

Lemma wp_while_run {S A} clk (p : io S A) (Q : A -> S -> Prop) s σ :
  wp (calm_while clk) p Q (fun _ _ => False) (fun _ => False) s -> sched_ok (calm_while clk) σ ->
  exists a s' σ', p σ s = (Done a, s', σ') /\ Q a s'.
Proof.
  intros Hwp Hσ. specialize (Hwp σ Hσ). destruct (p σ s) as [[[a|e|] s'] σ'];
    destruct Hwp as [_ Hr]; [by eauto|done..].
Qed.

Lemma wp_calm_run {S A} (p : io S A) (Q : A -> S -> Prop) s σ :
  wp calm p Q (fun _ _ => False) (fun _ => False) s -> sched_ok calm σ ->
  exists a s' σ', p σ s = (Done a, s', σ') /\ Q a s'.
Proof. exact (wp_while_run _ p Q s σ). Qed.
