(* ===== verification/Publication.v ===== *)
(** * Publication: [src/storage/filesystem/publication.rs] and the file
    primitives of [src/storage/filesystem/io.rs]

    Replacing an object's payload and metadata, or rewriting its history, is
    decided by one file: a journal renamed into the object's directory once the
    new generation is staged.  This file translates the operations; their crash
    safety is in [PublicationFacts]. *)

From Stdlib Require Import Ascii.
From S2P Require Import Prelude Text Models FsModel.

(** ** Version identifiers as path components *)

Inductive component : Type :=
| RootDir | CurDir | ParentDir | Normal (name : string).

(** [std::path::Path::components] on Unix: empty pieces are skipped, and so is
    every [.] that is not the first piece of a relative path. *)
Definition components (p : string) : list component :=
  let pieces := Text.split "/"%char p in
  let rooted := Text.starts_with p "/" in
  let piece (first : bool) (s : string) : option component :=
    if Text.is_empty s then None
    else if eqb s "." then (if first && negb rooted then Some CurDir else None)
    else if eqb s ".." then Some ParentDir else Some (Normal s) in
  (if rooted then [RootDir] else []) ++
  match pieces with
  | [] => []
  | s :: rest => option_list (piece true s) ++ omap (piece false) rest
  end.

Definition has_separator (s : string) : bool :=
  existsb (fun a => eqb a "/"%char || eqb a "\"%char || eqb a "000"%char)
          (String.list_ascii_of_string s).

Definition validate_version_id (version_id : string) : Res unit :=
  let is_single_normal_component :=
    match components version_id with
    | [Normal _] => true
    | _ => false
    end in
  if negb is_single_normal_component || has_separator version_id
  then Err NoSuchVersion else Ok tt.

(** ** The journal record *)

Record Publication : Type := mkPublication {
  pb_stage : string;
  pb_publish : bool;
  pb_clear_current : bool;
  pb_remove_versions : list string;
  pb_marker : option Object }.

(** The payload of a write: in memory, in a spool file to be moved, or the
    body of a stored generation. *)
Inductive ObjectPayload : Type :=
| InMemory
| Spooled (p : path)
| Stored (p : path).

(** ** What the store takes from outside

    The text of a [Uuid] and [Uuid::parse_str], the order in which [read_dir]
    yields names, the standard library's [DefaultHasher] and the [sha2] crate
    behind directory names, and [serde_json] on the records kept on disk. *)
Class Env : Type := {
  uuid_text : N -> string;
  uuid_valid : string -> bool;
  dir_order : list string -> list string;
  hash_pair_hex : string -> string -> string;
  sha256_hex : string -> string;
  encode_object : Object -> bytes;
  decode_object : bytes -> option Object;
  encode_publication : Publication -> bytes;
  decode_publication : bytes -> option Publication }.

Definition strip_marker (r : Publication) : Publication :=
  mkPublication (pb_stage r) (pb_publish r) (pb_clear_current r)
    (pb_remove_versions r) (strip_data <$> pb_marker r).

Class EnvLaws `{Env} : Prop := {
  uuid_text_valid : forall n, uuid_valid (uuid_text n) = true;
  (** the text ends in a hexadecimal digit or a brace *)
  uuid_valid_tail : forall u p,
    uuid_valid u = true -> Text.ends_with (p +:+ u) ".tmp" = false;
  uuid_text_version_id : forall n, validate_version_id (uuid_text n) = Ok tt;
  uuid_text_not_null : forall n, uuid_text n <> "null";
  dir_order_perm : forall l, dir_order l ≡ₚ l;
  (** hexadecimal digits *)
  hash_pair_hex_plain : forall b k, Text.contains (hash_pair_hex b k) "." = false;
  (** [Object.data] is skipped when serializing *)
  decode_encode_object : forall o, decode_object (encode_object o) = Some (strip_data o);
  decode_encode_publication : forall r,
    decode_publication (encode_publication r) = Some (strip_marker r) }.

Section Publication.
Context `{Env}.

(** [Uuid::new_v4().to_string()] *)
Definition new_uuid {S} : io S string := n ← new_uuid_number; mret (uuid_text n).

(** [fs::read_dir] *)
Definition read_dir (msg : string) (p : path) : io fs (list string) :=
  sys msg (fun _ s => if is_dir p s then Some (dir_order (children_of p s), s) else None)
      untouched.

Definition JOURNAL : string := ".publication.json".
Definition STAGE_PREFIX : string := ".publication-stage-".
Definition BLOB : string := "object.blob".
Definition META : string := "object.meta.json".

(** [STAGE_PREFIX] followed by a valid [Uuid] *)
Definition stage_name (name : string) : bool :=
  is_some_and uuid_valid (Text.strip_prefix name STAGE_PREFIX).

(** ** Directories *)

Definition sync_directory (p : path) : io fs unit :=
  sync_file "Failed to sync directory" p.

(** The recursion goes up the path: [rp] is the path, last component first. *)
Fixpoint create_directory_rev (rp : list string) : io fs unit :=
  let p := reverse rp in
  dir ← gets (is_dir p);
  if (dir : bool) then mret tt
  else match rp with
       | [] => fail (InternalError "Invalid directory path")
       | _ :: rparent =>
           create_directory_rev rparent;;
           r ← attempt (create_dir "Failed to create directory" p);
           match r with
           | Ok _ => mret tt
           | Err e => (* another writer may have created it *)
               dir' ← gets (is_dir p);
               if (dir' : bool) then mret tt else fail e
           end;;
           sync_directory (reverse rparent)
       end.
Definition create_directory_durable (p : path) : io fs unit :=
  create_directory_rev (reverse p).

(** ** Files replaced by rename *)

Definition temp_name (name uuid : string) : string :=
  "." +:+ name +:+ "." +:+ uuid +:+ ".tmp".

Definition atomic_write (p : path) (b : bytes) : io fs unit :=
  let par := parent p in
  create_directory_durable par;;
  name ← of_res (ok_or (InternalError "Invalid file name") (file_name p));
  u ← new_uuid;
  let temp := join par (temp_name name u) in
  r ← attempt (
    create_file "Failed to create temp file" temp;;
    write_all "Failed to write temp file" temp b;;
    sync_file "Failed to sync temp file" temp;;
    rename "Failed to commit temp file" temp p;;
    sync_directory par);
  (if is_ok r then mret tt else ignore (remove_file "" temp));;
  of_res r.

Definition copy_temp (uuid : string) : string := ".copy-" +:+ uuid +:+ ".tmp".

Definition atomic_copy (src dest : path) : io fs unit :=
  let par := parent dest in
  create_directory_durable par;;
  u ← new_uuid;
  let temp := join par (copy_temp u) in
  r ← attempt (
    copy_file "Failed to copy staged payload" src temp;;
    sync_file "Failed to sync copied payload" temp;;
    rename "Failed to publish copied payload" temp dest;;
    sync_directory par);
  (if is_ok r then mret tt else ignore (remove_file "" temp));;
  of_res r.

Definition atomic_move (src dest : path) : io fs unit :=
  let par := parent dest in
  create_directory_durable par;;
  sync_file "Failed to sync spooled payload" src;;
  r ← attempt (rename "" src dest);
  (if is_ok r then mret tt
   else atomic_copy src dest;;
        remove_file "Failed to remove spooled payload" src);;
  sync_directory par;;
  (if eqb (parent src) par then mret tt else sync_directory (parent src)).

(** ** Metadata files *)

Definition read_object_metadata (p : path) : io fs Object :=
  json ← read_file "Failed to read metadata" p;
  of_res (ok_or (InternalError "Failed to parse metadata") (decode_object json)).

Definition write_object_metadata (p : path) (o : Object) : io fs unit :=
  atomic_write p (encode_object o).

(** ** Staging *)

Definition stage_stored_payload (source destination : path) : io fs unit :=
  r ← attempt (hard_link "" source destination);
  (if is_ok r then mret tt else atomic_copy source destination);;
  sync_file "Failed to sync stored generation" destination;;
  sync_directory (parent destination).

Definition publication_temp (name : string) : bool :=
  existsb (fun prefix =>
    match Text.strip_prefix name prefix with
    | Some suffix =>
        is_some_and (fun rs => uuid_valid (String.rev rs))
                    (Text.strip_prefix (String.rev suffix) (String.rev ".tmp"))
    | None => false
    end)
    [".published-"; ".copy-"; ".object.blob."; ".object.meta.json.";
     "..publication.json."].

Definition clean_entry (d : path) (name : string) : io fs unit :=
  if stage_name name then
    remove_dir_all "Failed to remove uncommitted publication" (join d name);;
    sync_directory d
  else if publication_temp name then
    remove_file "" (join d name);;
    sync_directory d
  else mret tt.

Definition clean_uncommitted_stages (d : path) : io fs unit :=
  names ← read_dir "" d;
  for_each (clean_entry d) names.

(** ** Applying a decided publication *)

Definition validate_marker (r : Publication) (marker : Object) : Res unit :=
  id ← ok_or (InternalError "Missing delete marker identity") (o_version_id marker);
  _ ← validate_version_id id;
  if negb (N.eqb (o_size marker) 0) || negb (pb_clear_current r)
  then Err (InternalError "Invalid delete marker publication") else Ok tt.

Fixpoint validate_ids (ids : list string) : Res unit :=
  match ids with
  | [] => Ok tt
  | id :: rest => _ ← validate_version_id id; validate_ids rest
  end.

Definition validate_publication (r : Publication) (stage : path) : io fs unit :=
  (if pb_publish r && (pb_clear_current r || is_some (pb_marker r))
   then fail (InternalError "Conflicting publication actions") else mret tt);;
  of_res (validate_ids (pb_remove_versions r));;
  of_res (match pb_marker r with Some marker => validate_marker r marker | None => Ok tt end);;
  (if pb_publish r then
     json ← read_file "Cannot recover staged metadata" (join stage META);
     o ← of_res (ok_or (InternalError "Invalid staged metadata") (decode_object json));
     size ← file_len "Cannot recover staged body" (join stage BLOB);
     if N.eqb size (o_size o) then mret tt
     else fail (InternalError "Staged object body and metadata sizes disagree")
   else mret tt).

Definition published_temp (uuid : string) : string := ".published-" +:+ uuid +:+ ".tmp".

Definition publish_staged_file (source destination : path) : io fs unit :=
  let par := parent destination in
  u ← new_uuid;
  let temp := join par (published_temp u) in
  r ← attempt (hard_link "" source temp);
  (if is_ok r then mret tt else atomic_copy source temp);;
  rename "Failed to publish staged object generation" temp destination;;
  sync_directory par.

Definition retire_version (d : path) (id : string) : io fs unit :=
  of_res (validate_version_id id);;
  let p := join (join d "versions") id in
  present ← gets (path_exists p);
  if (present : bool) then
    body ← gets (path_exists (join p BLOB));
    (if (body : bool) then remove_file "" (join p BLOB);; sync_directory p else mret tt);;
    remove_dir_all "Failed to retire historical version" p;;
    sync_directory (join d "versions")
  else mret tt.

Definition publish_marker (d : path) (marker : Object) : io fs unit :=
  id ← of_res (ok_or (InternalError "Missing marker version identity") (o_version_id marker));
  of_res (validate_version_id id);;
  let p := join (join d "versions") id in
  create_directory_durable p;;
  atomic_write (join p BLOB) [];;
  write_object_metadata (join p META) marker.

Definition clear_public_file (d : path) (name : string) : io fs unit :=
  present ← gets (path_exists (join d name));
  if (present : bool) then remove_file "" (join d name);; sync_directory d else mret tt.

Definition apply_history_changes (d : path) (r : Publication) : io fs unit :=
  for_each (retire_version d) (pb_remove_versions r);;
  match pb_marker r with Some marker => publish_marker d marker | None => mret tt end;;
  (if pb_clear_current r then for_each (clear_public_file d) [BLOB; META] else mret tt).

Definition apply_publication (d : path) : io fs unit :=
  let journal := join d JOURNAL in
  json ← read_file "" journal;
  r ← of_res (ok_or (InternalError "Invalid object publication journal")
                    (decode_publication json));
  (if stage_name (pb_stage r) then mret tt
   else fail (InternalError "Invalid object publication staging identity"));;
  let stage := join d (pb_stage r) in
  validate_publication r stage;;
  (if pb_publish r then
     publish_staged_file (join stage BLOB) (join d BLOB);;
     publish_staged_file (join stage META) (join d META)
   else mret tt);;
  apply_history_changes d r;;
  remove_file "Failed to retire publication journal" journal;;
  sync_directory d;;
  remove_dir_all "Failed to clean committed publication" stage;;
  sync_directory d.

Definition recover_publication (d : path) : io fs unit :=
  present ← gets (path_exists d);
  if negb present then mret tt
  else
    journal ← gets (path_exists (join d JOURNAL));
    (if (journal : bool) then apply_publication d else mret tt);;
    clean_uncommitted_stages d.

(** ** Deciding a publication *)

Definition commit_publication (d : path) (r : Publication) : io fs unit :=
  v ← attempt (validate_publication r (join d (pb_stage r)));
  match v with
  | Err error => clean_uncommitted_stages d;; fail error
  | Ok _ =>
      let journal := join d JOURNAL in
      outcome ← attempt (
        atomic_write journal (encode_publication r);;
        apply_publication d);
      match outcome with
      | Ok _ => mret tt
      | Err error =>
          present ← gets (path_exists journal);
          if (present : bool) then
            map_fail (fun _ => InternalError "Publication failed; recovery required before reads")
                     (recover_publication d)
          else clean_uncommitted_stages d;; fail error
      end
  end.

(** Whether the directory holds a historical version. *)
Definition in_versions (d : path) : bool :=
  eqb (file_name (parent d)) (Some "versions").

Definition publish_pair (d : path) (o : Object) (payload : ObjectPayload) : io fs unit :=
  recover_publication d;;
  create_directory_durable d;;
  u ← new_uuid;
  let r := mkPublication (STAGE_PREFIX +:+ u) true false
             (if eqb (o_version_id o) (Some "null") && negb (in_versions d)
              then ["null"] else []) None in
  let stage := join d (pb_stage r) in
  create_directory_durable stage;;
  match payload with
  | InMemory => atomic_write (join stage BLOB) (o_data o)
  | Spooled p => atomic_move p (join stage BLOB)
  | Stored p => stage_stored_payload p (join stage BLOB)
  end;;
  write_object_metadata (join stage META) o;;
  commit_publication d r.

Definition change_history (d : path) (promoted : option (Object * path))
    (remove_versions : list string) (marker : option Object) (clear_current : bool)
    : io fs unit :=
  recover_publication d;;
  create_directory_durable d;;
  u ← new_uuid;
  let r := mkPublication (STAGE_PREFIX +:+ u) (is_some promoted) clear_current
             remove_versions marker in
  let stage := join d (pb_stage r) in
  create_directory_durable stage;;
  match promoted with
  | Some (o, p) =>
      stage_stored_payload p (join stage BLOB);;
      write_object_metadata (join stage META) o
  | None => mret tt
  end;;
  commit_publication d r.

(** ** Start-up recovery *)

Definition clean_retired_uploads (bucket : path) : io fs unit :=
  let root := join bucket ".multipart" in
  dir ← gets (is_dir root);
  if negb dir then mret tt
  else
    names ← read_dir "" root;
    for_each (fun name =>
      if is_some_and uuid_valid (Text.strip_prefix name ".retired-upload-")
      then remove_dir_all "" (join root name);; sync_directory root
      else mret tt) names.

Definition remove_empty_recovered_object (d : path) : io fs unit :=
  let versions := join d "versions" in
  vdir ← gets (is_dir versions);
  (if (vdir : bool) then
     names ← read_dir "" versions;
     match names with
     | [] => remove_dir "" versions;; sync_directory d
     | _ :: _ => mret tt
     end
   else mret tt);;
  names ← read_dir "" d;
  match names with
  | [] => remove_dir "" d;; sync_directory (parent d)
  | _ :: _ => mret tt
  end.

Definition recover_version (versions : path) (name : string) : io fs unit :=
  let version := join versions name in
  dir ← gets (is_dir version);
  if (dir : bool) then
    recover_publication version;;
    remove_empty_recovered_object version
  else mret tt.

Definition recover_object (bucket : path) (name : string) : io fs unit :=
  let object := join bucket name in
  dir ← gets (is_dir object);
  if (dir : bool) && negb (Text.starts_with name ".") then
    recover_publication object;;
    let versions := join object "versions" in
    vdir ← gets (is_dir versions);
    (if (vdir : bool) then
       names ← read_dir "" versions;
       for_each (recover_version versions) names
     else mret tt);;
    remove_empty_recovered_object object
  else mret tt.

Definition recover_bucket (root : path) (name : string) : io fs unit :=
  let bucket := join root name in
  dir ← gets (is_dir bucket);
  named ← gets (is_file (join bucket ".bucket.name"));
  if (dir : bool) && (named : bool) then
    clean_retired_uploads bucket;;
    names ← read_dir "" bucket;
    for_each (recover_object bucket) names
  else mret tt.

Definition recover_publications (root : path) : io fs unit :=
  names ← read_dir "Failed to inspect storage recovery root" root;
  for_each (recover_bucket root) names.

End Publication.
