(* ===== verification/FileFacts.v ===== *)
(** * FileFacts: specifications of the system calls and of the file primitives

    What each call and each [atomic_*] operation leaves behind on success, on an
    error and on a crash, stated as agreement with the state before outside the
    paths it works on ([agree]).  Temporary files are disregarded throughout:
    no reader looks at them and recovery removes them. *)

From Stdlib Require Import Ascii.
From S2P Require Import Prelude Text Models FsModel Publication.

(** ** Paths *)

Lemma join_inj d a d' b : join d a = join d' b <-> d = d' /\ a = b.
Proof. unfold join. split; [intros H; by apply app_inj_tail in H|by intros [-> ->]]. Qed.

Lemma parent_join d n : parent (join d n) = d.
Proof. apply removelast_last. Qed.

Lemma file_name_join d n : file_name (join d n) = Some n.
Proof. apply last_snoc. Qed.

Lemma join_ne_nil d n : join d n <> [].
Proof. by destruct d. Qed.

Lemma join_ne_self d n : join d n <> d.
Proof.
  intros Heq%(f_equal length). unfold join in Heq. rewrite length_app in Heq. simpl in Heq. lia.
Qed.

Lemma path_cases (p : path) : p = [] \/ exists d n, p = join d n.
Proof. induction p as [|n d _] using rev_ind; [by left|right; by exists d, n]. Qed.

Lemma below_spec d p : below d p = true <-> exists q, p = d ++ q.
Proof.
  revert p. induction d as [|a d IH]; intros p; simpl.
  - split; [by exists p|done].
  - destruct p as [|b p]; [split; [done|by intros [? ?]]|].
    rewrite andb_true_iff, eqb_true, IH. split.
    + intros [-> [q ->]]. by exists q.
    + intros [q [= -> ->]]. split; [done|by exists q].
Qed.

Lemma below_refl d : below d d = true.
Proof. apply below_spec. exists []. by rewrite app_nil_r. Qed.

Lemma below_join d n : below d (join d n) = true.
Proof. apply below_spec. by exists [n]. Qed.

Lemma below_trans a b c : below a b = true -> below b c = true -> below a c = true.
Proof.
  rewrite !below_spec. intros [q ->] [q' ->]. exists (q ++ q'). by rewrite app_assoc.
Qed.

Lemma below_parent d p : below d p = true -> p = d \/ below d (parent p) = true.
Proof.
  intros [q ->]%below_spec. destruct (path_cases q) as [->|(q' & n & ->)].
  - left. by rewrite app_nil_r.
  - right. unfold join. rewrite app_assoc. change ((d ++ q') ++ [n]) with (join (d ++ q') n).
    rewrite parent_join. apply below_spec. by exists q'.
Qed.

Lemma below_join_inv d n q : below (join d n) q = true -> exists r, q = d ++ n :: r.
Proof. intros [r ->]%below_spec. exists r. unfold join. by rewrite <- app_assoc. Qed.

(** Two components under one directory separate everything below them. *)
Lemma below_join_ne d a b q : a <> b -> below (join d a) q = true -> below (join d b) q = false.
Proof.
  intros Hn [r ->]%below_join_inv. apply not_true_iff_false. intros [r' Heq]%below_join_inv.
  apply app_inv_head in Heq. congruence.
Qed.

Lemma below_join_self d n : below (join d n) d = false.
Proof.
  apply not_true_iff_false. intros [r Hr]%below_join_inv.
  apply (f_equal length) in Hr. rewrite length_app in Hr. simpl in Hr. lia.
Qed.

Lemma child_name_spec d p n : child_name d p = Some n <-> p = join d n.
Proof.
  unfold join. revert p. induction d as [|a d IH]; intros p; simpl.
  - destruct p as [|b [|c p]]; split; intros; simplify_eq; done.
  - destruct p as [|b p]; [done|]. destruct (eqb a b) eqn:E.
    + apply eqb_true in E as ->. rewrite IH. split; [by intros ->|by intros [= ->]].
    + apply eqb_false in E. split; [done|]. by intros [= -> _].
Qed.

Lemma elem_of_children_of d s n : n ∈ children_of d s <-> is_Some (s !! join d n).
Proof.
  unfold children_of. rewrite list_elem_of_omap. split.
  - intros ([p e] & Hin & Hc%child_name_spec). apply elem_of_map_to_list in Hin.
    simpl in Hc. subst. by exists e.
  - intros [e He]. exists (join d n, e). split; [by apply elem_of_map_to_list|].
    by apply child_name_spec.
Qed.

(** ** Scratch files *)

(** Temporary files: [.<...>.tmp].  No reader looks at them. *)
Definition scratch (p : path) : bool :=
  match file_name p with
  | Some n => Text.starts_with n "." && Text.ends_with n ".tmp"
  | None => false
  end.

(** A well-formed tree: every path is in a directory, the root is one, and no
    temporary name is a directory. *)
Record ok (s : fs) : Prop := mkOk {
  ok_root : is_dir [] s = true;
  ok_parent : forall d n, is_Some (s !! join d n) -> s !! d = Some Directory;
  ok_scratch : forall p, scratch p = true -> s !! p <> Some Directory }.

Lemma is_dir_true p s : is_dir p s = true <-> s !! p = Some Directory.
Proof. unfold is_dir. destruct (s !! p) as [[|]|]; naive_solver. Qed.

Lemma is_file_true p s : is_file p s = true <-> exists b, s !! p = Some (File b).
Proof. unfold is_file. destruct (s !! p) as [[|]|]; naive_solver. Qed.

Lemma path_exists_true p s : path_exists p s = true <-> is_Some (s !! p).
Proof.
  unfold path_exists. destruct (s !! p); simpl; [by split; eauto|].
  split; [done|by intros [??]].
Qed.

Lemma path_exists_false p s : path_exists p s = false <-> s !! p = None.
Proof. unfold path_exists. by destruct (s !! p). Qed.

(** Same contents, except at scratch files and where [X] allows a change. *)
Record agree (X : path -> Prop) (s s' : fs) : Prop := mkAgree {
  agree_at : forall q, scratch q = false -> ~ X q -> s' !! q = s !! q;
  agree_ok : ok s -> ok s' }.

Lemma agree_refl X s : agree X s s.
Proof. by split. Qed.

Lemma agree_trans X s1 s2 s3 : agree X s1 s2 -> agree X s2 s3 -> agree X s1 s3.
Proof.
  intros [H1 O1] [H2 O2]. split; [|auto]. intros q Hs Hx. by rewrite H2, H1.
Qed.

Lemma agree_weaken (X Y : path -> Prop) s s' :
  (forall q, X q -> Y q) -> agree X s s' -> agree Y s s'.
Proof. intros Hxy [H O]. split; [|done]. intros q Hs Hy. apply H; auto. Qed.

Definition at_path (p q : path) : Prop := q = p.
Definition at_or_below (p q : path) : Prop := below p q = true.

Lemma ok_dir_below s d q e :
  ok s -> s !! q = Some e -> below d q = true -> q = d \/ s !! d = Some Directory.
Proof.
  intros Hok Hq [r ->]%below_spec. revert e Hq.
  induction r as [|n r IH] using rev_ind; intros e Hq; [left; by rewrite app_nil_r|right].
  rewrite app_assoc in Hq.
  pose proof (ok_parent s Hok (d ++ r) n (ex_intro _ e Hq)) as Hp.
  destruct (IH _ Hp) as [Heq|]; [|done]. by rewrite Heq in Hp.
Qed.

(** Nothing is below a path that does not exist, or is a file. *)
Lemma ok_absent_below s d q : ok s -> s !! d = None -> below d q = true -> s !! q = None.
Proof.
  intros Hok Hd Hb. destruct (s !! q) as [e|] eqn:E; [|done].
  destruct (ok_dir_below _ _ _ _ Hok E Hb) as [->|]; congruence.
Qed.

Lemma ok_insert_file s p b :
  ok s -> is_dir (parent p) s = true -> is_dir p s = false -> p <> [] ->
  ok (<[p := File b]> s).
Proof.
  intros [Hr Hp Hs] Hdir Hnd Hne. apply is_dir_true in Hdir.
  destruct (path_cases p) as [->|(d & n & ->)]; [done|]. rewrite parent_join in Hdir.
  assert (forall q, s !! q = Some Directory -> <[join d n := File b]> s !! q = Some Directory) as Hkeep.
  { intros q Hq. rewrite lookup_insert_ne; [done|]. intros <-.
    apply not_true_iff_false in Hnd. by rewrite is_dir_true in Hnd. }
  split.
  - apply is_dir_true, Hkeep. by apply is_dir_true.
  - intros d' n' His. apply Hkeep. destruct (decide (join d n = join d' n')) as [Heq|Hn].
    + by apply join_inj in Heq as [<- _].
    + rewrite lookup_insert_ne in His by done. by eapply Hp.
  - intros q Hq. destruct (decide (join d n = q)) as [<-|Hn].
    + by rewrite lookup_insert_eq.
    + rewrite lookup_insert_ne by done. by apply Hs.
Qed.

Lemma ok_insert_dir s d n :
  ok s -> s !! d = Some Directory -> scratch (join d n) = false ->
  s !! join d n = None -> ok (<[join d n := Directory]> s).
Proof.
  intros [Hr Hp Hs] Hdir Hsc Hnone.
  assert (forall q, s !! q = Some Directory -> <[join d n := Directory]> s !! q = Some Directory) as Hkeep.
  { intros q Hq. rewrite lookup_insert_ne; [done|]. congruence. }
  split.
  - apply is_dir_true, Hkeep. by apply is_dir_true.
  - intros d' n' His. apply Hkeep. destruct (decide (join d n = join d' n')) as [Heq|Hn].
    + by apply join_inj in Heq as [<- _].
    + rewrite lookup_insert_ne in His by done. by eapply Hp.
  - intros q Hq. destruct (decide (join d n = q)) as [<-|Hn]; [congruence|].
    rewrite lookup_insert_ne by done. by apply Hs.
Qed.

Lemma ok_delete_file s p b : ok s -> s !! p = Some (File b) -> ok (delete p s).
Proof.
  intros [Hr Hp Hs] Hf.
  assert (forall q, s !! q = Some Directory -> delete p s !! q = Some Directory) as Hkeep.
  { intros q Hq. rewrite lookup_delete_ne; [done|]. congruence. }
  split.
  - apply is_dir_true, Hkeep. by apply is_dir_true.
  - intros d n [e He]. apply lookup_delete_Some in He as [_ He]. apply Hkeep. by eapply Hp.
  - intros q Hq [_ Hd]%lookup_delete_Some. by eapply Hs.
Qed.

(** Removing part of a tree, keeping the ancestors of what is kept. *)
Lemma ok_filter (P : path * entry -> Prop) `{forall q, Decision (P q)} s :
  ok s -> (forall e, P ([], e)) ->
  (forall d n e, P (join d n, e) -> P (d, Directory)) ->
  ok (filter P s).
Proof.
  intros [Hr Hp Hs] Hroot Hclosed. split.
  - apply is_dir_true. apply map_lookup_filter_Some. split; [by apply is_dir_true|done].
  - intros d n [e He]. apply map_lookup_filter_Some in He as [He HP].
    apply map_lookup_filter_Some. split; [by eapply Hp|by eapply Hclosed].
  - intros q Hq [Hd _]%map_lookup_filter_Some. by eapply Hs.
Qed.

Lemma agree_insert_file (X : path -> Prop) s p b :
  (scratch p = false -> X p) -> is_dir (parent p) s = true -> is_dir p s = false -> p <> [] ->
  agree X s (<[p := File b]> s).
Proof.
  intros HX Hd Hn Hne. split; [|by intros; apply ok_insert_file].
  intros q Hq HXq. apply lookup_insert_ne. intros ->. auto.
Qed.

Lemma agree_delete_file (X : path -> Prop) s p b :
  (scratch p = false -> X p) -> s !! p = Some (File b) -> agree X s (delete p s).
Proof.
  intros HX Hf. split; [|by intros; eapply ok_delete_file].
  intros q Hq HXq. apply lookup_delete_ne. intros ->. auto.
Qed.

Lemma agree_remove_tree s p (K : path -> bool) :
  p <> [] -> (forall d n, K (join d n) = true -> K d = true) ->
  agree (at_or_below p) s
    (filter (fun e => below p e.1 = false \/ K e.1 = true) s).
Proof.
  intros Hne HK. split.
  - intros q _ Hq. unfold at_or_below in Hq. apply not_true_iff_false in Hq.
    destruct (s !! q) as [e|] eqn:E.
    + apply map_lookup_filter_Some. split; [done|by left].
    + apply map_lookup_filter_None. by left.
  - intros Hok. apply ok_filter; [done| |].
    + left. destruct p; done.
    + simpl. intros d n e [Hb|Hb]; [left|right; by eapply HK].
      apply not_true_iff_false in Hb. apply not_true_iff_false. intros Hd. apply Hb.
      eapply below_trans; [done|apply below_join].
Qed.

(** ** System calls *)

Section Calls.
Context {m : mode}.

(** What must hold where a fault may leave the state [s]. *)
Definition fails (E : Error -> fs -> Prop) (C : fs -> Prop) (s : fs) : Prop :=
  m_faults m = true -> (forall e, E e s) /\ C s.

Lemma fails_E E C s e : fails E C s -> m_faults m = true -> E e s.
Proof. intros H Hm. by apply H. Qed.
Lemma fails_C E C s : fails E C s -> m_faults m = true -> C s.
Proof. intros H Hm. by apply H. Qed.

(** The postconditions used inside a proof: a fault happened, and [R]. *)
Lemma fails_both (R : fs -> Prop) s :
  R s -> fails (fun _ s' => m_faults m = true /\ R s') (fun s' => m_faults m = true /\ R s') s.
Proof. intros HR Hm. split; [intros _|]; by split. Qed.

Lemma wp_read_file msg p b Q E C s :
  s !! p = Some (File b) -> Q b s -> fails E C s -> wp m (read_file msg p) Q E C s.
Proof.
  intros Hp HQ HF. apply wp_sys; [intros _; by rewrite Hp|intros ? ?..]; by eapply HF.
Qed.

Lemma wp_file_len msg p b Q E C s :
  s !! p = Some (File b) -> Q (size_of b) s -> fails E C s -> wp m (file_len msg p) Q E C s.
Proof.
  intros Hp HQ HF. apply wp_sys; [intros _; by rewrite Hp|intros ? ?..]; by eapply HF.
Qed.

Lemma wp_create_file msg p Q E C s :
  is_dir (parent p) s = true -> is_dir p s = false ->
  Q tt (<[p := File []]> s) -> fails E C s -> wp m (create_file msg p) Q E C s.
Proof.
  intros Hd Hn HQ HF. apply wp_sys; [intros _; by rewrite Hd, Hn|intros ? ?..]; by eapply HF.
Qed.

Lemma wp_write_all msg p b b0 Q E C s :
  s !! p = Some (File b0) -> Q tt (<[p := File b]> s) ->
  (forall b', fails E C (<[p := File b']> s)) -> wp m (write_all msg p b) Q E C s.
Proof.
  intros Hp HQ HF. assert (is_file p s = true) as Hf by (apply is_file_true; by eauto).
  apply wp_sys; [intros _; by rewrite Hf|intros ? r; rewrite Hf..]; by eapply HF.
Qed.

Lemma wp_sync_file msg p Q E C s :
  is_Some (s !! p) -> Q tt s -> fails E C s -> wp m (sync_file msg p) Q E C s.
Proof.
  intros Hp%path_exists_true HQ HF.
  apply wp_sys; [intros _; by rewrite Hp|intros ? ?..]; by eapply HF.
Qed.

Lemma wp_rename_file msg src dst b Q E C s :
  s !! src = Some (File b) -> is_dir (parent dst) s = true -> is_dir dst s = false ->
  Q tt (<[dst := File b]> (delete src s)) ->
  (s !! dst = Some (File b) -> Q tt s) -> fails E C s ->
  wp m (rename msg src dst) Q E C s.
Proof.
  intros Hs Hd Hn HQ HQ' HF. apply wp_sys; [|intros ? ?; by eapply HF..].
  intros linked. rewrite Hs, Hd, Hn. simpl.
  destruct (linked && eqb (s !! dst) (Some (File b))) eqn:El; [|done].
  apply andb_true_iff in El as [_ El]. rewrite eqb_true in El. by apply HQ'.
Qed.

(** A hard link may always be refused. *)
Lemma wp_hard_link msg src dst b Q E C s :
  s !! src = Some (File b) -> is_dir (parent dst) s = true ->
  (s !! dst = None -> Q tt (<[dst := File b]> s)) ->
  (forall e, E e s) -> (m_faults m = true -> C s) ->
  wp m (hard_link msg src dst) Q E C s.
Proof.
  intros Hs Hd HQ HE HC. apply wp_sys; [|intros ? ?; by auto..].
  intros _. rewrite Hs, Hd. simpl. destruct (path_exists dst s) eqn:Ex; simpl; [done|].
  apply path_exists_false in Ex. auto.
Qed.

Lemma wp_copy_file msg src dst b Q E C s :
  s !! src = Some (File b) -> is_dir (parent dst) s = true -> is_dir dst s = false ->
  Q tt (<[dst := File b]> s) -> fails E C s -> (forall b', fails E C (<[dst := File b']> s)) ->
  wp m (copy_file msg src dst) Q E C s.
Proof.
  intros Hs Hd Hn HQ HF HF'.
  apply wp_sys; [intros _|intros ? r..]; rewrite Hs, Hd, Hn; simpl; [done|..]; by eapply HF'.
Qed.

Lemma wp_remove_file msg p b Q E C s :
  s !! p = Some (File b) -> Q tt (delete p s) -> fails E C s ->
  wp m (remove_file msg p) Q E C s.
Proof.
  intros Hp HQ HF. assert (is_file p s = true) as Hf by (apply is_file_true; by eauto).
  apply wp_sys; [intros _; by rewrite Hf|intros ? r..]; by eapply HF.
Qed.

(** Removing a file that may not be there, the outcome ignored. *)
Lemma wp_ignore_remove msg p Q E C s :
  Q tt s -> (forall b, s !! p = Some (File b) -> Q tt (delete p s)) ->
  (m_faults m = true -> C s) -> wp m (ignore (remove_file msg p)) Q E C s.
Proof.
  intros HQ HQ' HC. apply wp_ignore, wp_sys; [|intros; unfold untouched; auto..].
  intros _. destruct (is_file p s) eqn:Hf; [|done].
  apply is_file_true in Hf as [b Hb]. by eapply HQ'.
Qed.

Lemma wp_remove_dir_all msg p Q E C s :
  s !! p = Some Directory -> p <> [] ->
  (forall s', agree (at_or_below p) s s' -> s' ⊆ s ->
     (forall q, below p q = false -> s' !! q = s !! q) ->
     (forall q, below p q = true -> s' !! q = None) -> Q tt s') ->
  (forall s', agree (at_or_below p) s s' -> s' ⊆ s ->
     (forall q, below p q = false -> s' !! q = s !! q) -> fails E C s') ->
  wp m (remove_dir_all msg p) Q E C s.
Proof.
  intros Hp Hne HQ HF.
  assert (forall r, agree (at_or_below p) s
    (filter (fun e => below p e.1 = false \/ existsb (below e.1) (kept r) = true) s)) as Hpart.
  { intros r. apply (agree_remove_tree s p (fun q => existsb (below q) (kept r))); [done|].
    intros d n. rewrite !existsb_true. intros (k & Hk & Hb). exists k. split; [done|].
    eapply below_trans; [apply below_join|done]. }
  assert (forall (P : path * entry -> Prop) `{forall x, Decision (P x)} q,
    (forall e, P (q, e)) -> filter P s !! q = s !! q) as Hout.
  { intros P HP q Hq. destruct (s !! q) as [e|] eqn:Eq.
    - by apply map_lookup_filter_Some.
    - apply map_lookup_filter_None. by left. }
  apply wp_sys; [|intros ? r; eapply HF; [apply Hpart|apply map_filter_subseteq| |done]..];
    [|by intros q Hq; apply Hout; left..].
  intros _. rewrite (proj2 (is_dir_true p s) Hp). apply HQ.
  - destruct (agree_remove_tree s p (fun _ => false) Hne ltac:(done)) as [Ha Ho]. split.
    + intros q Hs Hq. rewrite <- (Ha q Hs Hq). apply option_eq. intros e.
      rewrite !map_lookup_filter_Some. naive_solver.
    + intros Hok. replace (filter (fun e => below p e.1 = false) s) with
        (filter (fun e => below p e.1 = false \/ false = true) s); [by apply Ho|].
      apply map_eq. intros q. apply option_eq. intros e.
      rewrite !map_lookup_filter_Some. naive_solver.
  - apply map_filter_subseteq.
  - intros q Hq. by apply Hout.
  - intros q Hq. apply map_lookup_filter_None. right. intros e _. simpl. by rewrite Hq.
Qed.

End Calls.

(** ** Temporary names *)

Lemma rev_app_spec s t : strings.String.rev_app s t = String.rev s +:+ t.
Proof.
  unfold String.rev. revert t. induction s as [|a s IH]; intros t; [done|]. simpl.
  rewrite IH, (IH (String a "")), Text.app_assoc. done.
Qed.

Lemma rev_app_distr s t : String.rev (s +:+ t) = String.rev t +:+ String.rev s.
Proof.
  induction s as [|a s IH]; [by rewrite Text.app_empty_r|].
  rewrite Text.app_cons. change (String.rev (String a (s +:+ t))) with
    (strings.String.rev_app (s +:+ t) (String a "")).
  change (String.rev (String a s)) with (strings.String.rev_app s (String a "")).
  rewrite !rev_app_spec, IH. by rewrite Text.app_assoc.
Qed.

Lemma rev_involutive s : String.rev (String.rev s) = s.
Proof.
  induction s as [|a s IH]; [done|]. change (String a s) with (String a EmptyString +:+ s) at 1.
  rewrite !rev_app_distr, IH. done.
Qed.

Lemma ends_with_app s t : Text.ends_with (s +:+ t) t = true.
Proof. unfold Text.ends_with. rewrite rev_app_distr. apply Text.starts_with_app. Qed.

Lemma starts_with_dot s : Text.starts_with (String "." s) "." = true.
Proof. by destruct s. Qed.

Lemma scratch_join d n :
  scratch (join d n) = Text.starts_with n "." && Text.ends_with n ".tmp".
Proof. unfold scratch. by rewrite file_name_join. Qed.

Lemma scratch_temp d n u : scratch (join d (temp_name n u)) = true.
Proof.
  rewrite scratch_join. unfold temp_name. apply andb_true_iff. split; [apply starts_with_dot|].
  rewrite <- !Text.app_assoc. apply ends_with_app.
Qed.
Lemma scratch_copy d u : scratch (join d (copy_temp u)) = true.
Proof.
  rewrite scratch_join. unfold copy_temp. apply andb_true_iff. split; [apply starts_with_dot|].
  rewrite <- !Text.app_assoc. apply ends_with_app.
Qed.
Lemma scratch_published d u : scratch (join d (published_temp u)) = true.
Proof.
  rewrite scratch_join. unfold published_temp. apply andb_true_iff. split; [apply starts_with_dot|].
  rewrite <- !Text.app_assoc. apply ends_with_app.
Qed.

Lemma scratch_not_dir s p : ok s -> scratch p = true -> is_dir p s = false.
Proof.
  intros Hok Hp. apply not_true_iff_false. rewrite is_dir_true. by apply (ok_scratch s Hok).
Qed.

(** ** File operations *)

(** Directories added on the way to [p]. *)
Record mkdirs (p : path) (s s' : fs) : Prop := mkMkdirs {
  mkdirs_at : forall q, s' !! q = s !! q \/
    s !! q = None /\ s' !! q = Some Directory /\ below q p = true;
  mkdirs_ok : ok s -> ok s' }.

Section Files.
Context `{EnvLaws} {m : mode}.
Abbreviation fails := (@fails m).

Lemma mkdirs_agree p s s' : mkdirs p s s' -> agree (fun q => below q p = true /\ s !! q = None) s s'.
Proof. intros [Hat Hok]. split; [|done]. intros q _ Hq. destruct (Hat q); naive_solver. Qed.

Lemma mkdirs_refl p s : mkdirs p s s.
Proof. split; [by left|done]. Qed.

(** Every directory on the way can be created, and none is a file. *)
Definition creatable (p : path) (s : fs) : Prop :=
  forall q, below q p = true -> scratch q = false /\ forall b, s !! q <> Some (File b).

Lemma wp_create_directory_rev rp Q E C s :
  ok s -> creatable (reverse rp) s ->
  (forall s', mkdirs (reverse rp) s s' -> is_dir (reverse rp) s' = true -> Q tt s') ->
  (forall s', mkdirs (reverse rp) s s' -> fails E C s') ->
  wp m (create_directory_rev rp) Q E C s.
Proof.
  revert Q E C. induction rp as [|n rp IH]; intros Q E C Hok Hc HQ HF; simpl;
    apply wp_bind, wp_gets; destruct (is_dir (reverse _) s) eqn:Hdir;
    try by apply wp_ret, HQ; [apply mkdirs_refl|].
  { change (is_dir [] s = false) in Hdir. by rewrite (ok_root s Hok) in Hdir. }
  rewrite reverse_cons in *. change (reverse rp ++ [n]) with (join (reverse rp) n) in *.
  set (d := reverse rp) in *.
  assert (forall s', mkdirs d s s' -> mkdirs (join d n) s s') as Hsub.
  { intros s' [Hat Ho]. split; [|done]. intros q. destruct (Hat q) as [|(?&?&?)]; [by left|].
    right. split_and!; [done..|]. eapply below_trans; [done|apply below_join]. }
  apply wp_bind, IH; [done| |..].
  { intros q Hq. apply Hc. eapply below_trans; [done|apply below_join]. }
  2:{ intros s' Hs'. apply HF. auto. }
  intros s1 H1 Hd1.
  destruct (Hc (join d n) (below_refl _)) as [Hns Hnf].
  assert (s1 !! join d n = None) as Hnone.
  { destruct (mkdirs_at _ _ _ H1 (join d n)) as [->|(_ & _ & Hb)].
    - destruct (s !! join d n) as [[b|]|] eqn:El; [by destruct (Hnf b)| |done].
      apply is_dir_true in El. congruence.
    - by rewrite below_join_self in Hb. }
  assert (mkdirs (join d n) s (<[join d n := Directory]> s1)) as Hnew.
  { split.
    - intros q. destruct (decide (join d n = q)) as [<-|Hne].
      + right. split_and!; [|by rewrite lookup_insert_eq|apply below_refl].
        destruct (s !! join d n) as [[b|]|] eqn:El; [by destruct (Hnf b)| |done].
        apply is_dir_true in El. congruence.
      + rewrite lookup_insert_ne by done. by apply (mkdirs_at _ _ _ (Hsub _ H1)).
    - intros Ho. apply ok_insert_dir; [by apply H1|by apply is_dir_true|done|done]. }
  apply wp_bind, wp_attempt. apply wp_sys.
  - intros _. rewrite parent_join, Hd1, (proj2 (path_exists_false _ _) Hnone); simpl.
    apply wp_bind, wp_ret. apply wp_sync_file.
    + rewrite lookup_insert_ne by apply join_ne_self.
      apply is_dir_true in Hd1. by eauto.
    + apply HQ; [done|]. apply is_dir_true, lookup_insert_eq.
    + by apply HF.
  - intros Hm r. unfold untouched. apply wp_bind, wp_bind, wp_gets.
    replace (is_dir (join d n) s1) with false; [|unfold is_dir; by rewrite Hnone].
    apply wp_fail. by apply (HF s1 (Hsub _ H1)).
  - intros Hm r. by apply (HF s1 (Hsub _ H1)).
Qed.

Lemma wp_create_directory p Q E C s :
  ok s -> creatable p s ->
  (forall s', mkdirs p s s' -> is_dir p s' = true -> Q tt s') ->
  (forall s', mkdirs p s s' -> fails E C s') ->
  wp m (create_directory_durable p) Q E C s.
Proof.
  intros. apply wp_create_directory_rev; rewrite ?reverse_involutive; auto.
Qed.

Lemma wp_existing_directory p Q E C s :
  is_dir p s = true -> Q tt s -> wp m (create_directory_durable p) Q E C s.
Proof.
  intros Hd HQ. unfold create_directory_durable.
  assert (is_dir (reverse (reverse p)) s = true) as Hd' by by rewrite reverse_involutive.
  destruct (reverse p); simpl; apply wp_bind, wp_gets; rewrite Hd'; by apply wp_ret.
Qed.

Lemma wp_new_uuid {S} Q E C (s : S) : (forall n, m_uuid m n -> Q (uuid_text n) s) -> wp m new_uuid Q E C s.
Proof. intros HQ. apply wp_bind, wp_uuid. intros n Hn. by apply wp_ret, HQ. Qed.

Lemma agree_is_dir X s s' q :
  agree X s s' -> scratch q = false -> ~ X q -> is_dir q s' = is_dir q s.
Proof. intros Ha Hs Hx. unfold is_dir. by rewrite (agree_at _ _ _ Ha). Qed.

Lemma dir_not_scratch s d : ok s -> is_dir d s = true -> scratch d = false.
Proof.
  intros Hok Hd%is_dir_true. apply not_true_iff_false. intros Hs. by apply (ok_scratch s Hok d).
Qed.

(** A scratch file written under [d]. *)
Lemma agree_scratch X s d n b :
  ok s -> is_dir d s = true -> scratch (join d n) = true ->
  agree X s (<[join d n := File b]> s).
Proof.
  intros Hok Hd Hs. apply agree_insert_file; [congruence|by rewrite parent_join| |apply join_ne_nil].
  by apply scratch_not_dir.
Qed.

Lemma is_dir_insert_scratch s d n b :
  is_dir d s = true -> is_dir d (<[join d n := File b]> s) = true.
Proof.
  intros Hd. apply is_dir_true. rewrite lookup_insert_ne by apply join_ne_self. by apply is_dir_true.
Qed.

(** The rename that puts a scratch file in place. *)
Lemma agree_rename s t p b :
  ok s -> scratch t = true -> s !! t = Some (File b) ->
  is_dir (parent p) s = true -> is_dir p s = false -> p <> [] ->
  agree (at_path p) s (<[p := File b]> (delete t s)).
Proof.
  intros Hok Ht Hf Hd Hn Hne. eapply agree_trans.
  - eapply (agree_delete_file _ _ t); [congruence|done].
  - apply agree_insert_file; [done| |..|done].
    + apply is_dir_true. rewrite lookup_delete_ne; [by apply is_dir_true|].
      intros ->. apply is_dir_true in Hd. congruence.
    + apply not_true_iff_false. rewrite is_dir_true. intros [_ Hx]%lookup_delete_Some.
      apply is_dir_true in Hx. congruence.
Qed.

(** An interrupted replacement of [p]: the file is the old or the new one. *)
Definition replacing (p : path) (b : bytes) (s s' : fs) : Prop :=
  agree (at_path p) s s' /\ (s' !! p = s !! p \/ s' !! p = Some (File b)).

Lemma replacing_refl p b s : replacing p b s s.
Proof. split; [apply agree_refl|by left]. Qed.

Lemma replacing_scratch p b s s' t :
  replacing p b s s' -> scratch t = true -> scratch p = false ->
  (exists b', s' !! t = Some (File b')) -> replacing p b s (delete t s').
Proof.
  intros [Ha Hp] Ht Hps [b' Hb']. split.
  - eapply agree_trans; [done|]. eapply agree_delete_file; [congruence|done].
  - by rewrite lookup_delete_ne by congruence.
Qed.

(** Creating, writing, syncing and renaming a temporary file. *)
Lemma wp_atomic_write p b Q E C s :
  ok s -> is_dir (parent p) s = true -> is_dir p s = false -> p <> [] -> scratch p = false ->
  (forall s', agree (at_path p) s s' -> s' !! p = Some (File b) -> Q tt s') ->
  (forall s', replacing p b s s' -> fails E C s') ->
  wp m (atomic_write p b) Q E C s.
Proof.
  intros Hok Hd Hnd Hne Hps HQ HF.
  destruct (path_cases p) as [->|(d & n & ->)]; [done|]. unfold atomic_write.
  rewrite parent_join, file_name_join in *.
  apply wp_bind, wp_existing_directory; [done|]. apply wp_bind, wp_of_res; simpl.
  apply wp_bind, wp_new_uuid. intros k _. set (t := join d (temp_name n (uuid_text k))).
  assert (scratch t = true) as Ht by apply scratch_temp.
  assert (forall b', replacing (join d n) b s (<[t := File b']> s)) as Htemp.
  { intros b'. split; [by apply agree_scratch|]. left. rewrite lookup_insert_ne; congruence. }
  assert (forall b', ok (<[t := File b']> s)) as Hok' by (intros; by apply Htemp).
  apply wp_bind, wp_attempt.
  apply (wp_mono _ (fun _ s' => agree (at_path (join d n)) s s' /\ s' !! join d n = Some (File b)) _
                   (fun _ s' => m_faults m = true /\ replacing (join d n) b s s') _
                   (fun s' => m_faults m = true /\ replacing (join d n) b s s')).
  - apply wp_bind, wp_create_file; [by unfold t; rewrite parent_join|by apply scratch_not_dir| |].
    2:{ apply fails_both, replacing_refl. }
    apply wp_bind. eapply wp_write_all; [apply lookup_insert_eq| |].
    2:{ intros b'. rewrite insert_insert_eq. by apply fails_both. }
    rewrite insert_insert_eq.
    apply wp_bind, wp_sync_file; [rewrite lookup_insert_eq; by eauto| |].
    2:{ by apply fails_both. }
    assert (is_dir d (<[t := File b]> s) = true) as Hd' by by apply is_dir_insert_scratch.
    assert (is_dir (join d n) (<[t := File b]> s) = false) as Hnd'.
    { unfold is_dir. rewrite lookup_insert_ne; [done|congruence]. }
    apply wp_bind. eapply wp_rename_file; [apply lookup_insert_eq|by rewrite parent_join|done|..].
    + assert (agree (at_path (join d n)) s
        (<[join d n := File b]> (delete t (<[t := File b]> s)))) as Ha.
      { eapply agree_trans; [by apply Htemp|]. apply agree_rename; try done.
        - apply lookup_insert_eq.
        - by rewrite parent_join. }
      apply wp_sync_file.
      * rewrite (agree_at _ _ _ Ha); [apply is_dir_true in Hd; by eauto|by eapply dir_not_scratch|].
        intros Heq. by apply (join_ne_self d n).
      * split; [done|]. apply lookup_insert_eq.
      * apply fails_both. split; [done|right; apply lookup_insert_eq].
    + intros Hsame. apply wp_sync_file.
      * apply is_dir_true in Hd'. by eauto.
      * split; [by apply Htemp|done].
      * by apply fails_both.
    + by apply fails_both.
  - intros [] s' [Ha Hp]. simpl. apply wp_bind, wp_ret, wp_ret. by apply HQ.
  - intros e s' [Hm Hr]. simpl. apply wp_bind, wp_ignore_remove.
    + apply wp_fail. by apply HF.
    + intros b' Hb'. apply wp_fail. apply HF; [|done]. apply replacing_scratch; by eauto.
    + intros _. by apply HF.
  - intros s' [Hm Hr]. by apply HF.
Qed.

(** Discharge a fault inside a proof whose postconditions are [agree X s0]. *)
Lemma fails_agree X s0 s :
  agree X s0 s -> fails (fun _ s' => m_faults m = true /\ agree X s0 s')
                        (fun s' => m_faults m = true /\ agree X s0 s') s.
Proof. intros. by apply fails_both. Qed.

Lemma agree_lookup X s s' q e :
  agree X s s' -> scratch q = false -> ~ X q -> s !! q = Some e -> s' !! q = Some e.
Proof. intros Ha Hs Hx Hq. by rewrite (agree_at _ _ _ Ha). Qed.

Lemma wp_atomic_copy src dest b Q E C s :
  ok s -> s !! src = Some (File b) -> is_dir (parent dest) s = true ->
  is_dir dest s = false -> dest <> [] -> (forall u, dest <> join (parent dest) (copy_temp u)) ->
  scratch src = false ->
  (forall s', agree (at_path dest) s s' -> s' !! dest = Some (File b) -> Q tt s') ->
  (forall s', agree (at_path dest) s s' -> fails E C s') ->
  wp m (atomic_copy src dest) Q E C s.
Proof.
  intros Hok Hsrc Hd Hnd Hne Htemp Hss HQ HF.
  destruct (path_cases dest) as [->|(d & n & ->)]; [done|]. unfold atomic_copy.
  rewrite parent_join in *.
  apply wp_bind, wp_existing_directory; [done|].
  apply wp_bind, wp_new_uuid. intros k _. set (t := join d (copy_temp (uuid_text k))).
  assert (scratch t = true) as Ht by apply scratch_copy.
  assert (forall b', agree (at_path (join d n)) s (<[t := File b']> s)) as Ha
    by (intros; by apply agree_scratch).
  apply wp_bind, wp_attempt.
  apply (wp_mono _ (fun _ s' => agree (at_path (join d n)) s s' /\ s' !! join d n = Some (File b)) _
                   (fun _ s' => m_faults m = true /\ agree (at_path (join d n)) s s') _
                   (fun s' => m_faults m = true /\ agree (at_path (join d n)) s s')).
  - apply wp_bind. eapply wp_copy_file; [done|by unfold t; rewrite parent_join|by apply scratch_not_dir| |
      apply fails_agree, agree_refl|intros; by apply fails_agree].
    apply wp_bind, wp_sync_file; [rewrite lookup_insert_eq; by eauto| |by apply fails_agree].
    assert (is_dir d (<[t := File b]> s) = true) as Hd' by by apply is_dir_insert_scratch.
    assert (is_dir (join d n) (<[t := File b]> s) = false) as Hnd'.
    { unfold is_dir. rewrite lookup_insert_ne; [done|]. intros Heq. by destruct (Htemp (uuid_text k)). }
    apply wp_bind. eapply wp_rename_file;
      [apply lookup_insert_eq|by rewrite parent_join|done| |..|by apply fails_agree].
    + assert (agree (at_path (join d n)) s
        (<[join d n := File b]> (delete t (<[t := File b]> s)))) as Ha'.
      { eapply agree_trans; [by apply Ha|]. apply agree_rename; try done; [by apply (Ha b)| |].
        - apply lookup_insert_eq.
        - by rewrite parent_join. }
      apply wp_sync_file; [|split; [done|apply lookup_insert_eq]|by apply fails_agree].
      exists Directory. eapply agree_lookup; [exact Ha'|by eapply dir_not_scratch| |by apply is_dir_true].
      intros Heq. by apply (join_ne_self d n).
    + intros Hsame. apply wp_sync_file; [|by split|by apply fails_agree].
      apply is_dir_true in Hd'. by eauto.
  - intros [] s' [Hs' Hp]. simpl. apply wp_bind, wp_ret, wp_ret. by apply HQ.
  - intros e s' [Hm Hr]. simpl. apply wp_bind, wp_ignore_remove.
    + apply wp_fail. by apply HF.
    + intros b' Hb'. apply wp_fail. apply HF; [|done].
      eapply agree_trans; [done|]. eapply agree_delete_file; [congruence|done].
    + intros _. by apply HF.
  - intros s' [Hm Hr]. by apply HF.
Qed.

Lemma temp_names_differ d u u' : join d (published_temp u) <> join d (copy_temp u').
Proof. rewrite join_inj. intros [_ Heq]. unfold published_temp, copy_temp in Heq. discriminate Heq. Qed.

(** A staged file reaches its public name; the staged one stays. *)
Lemma wp_publish_staged_file src d n b Q E C s :
  ok s -> s !! src = Some (File b) -> scratch src = false ->
  is_dir d s = true -> is_dir (join d n) s = false -> scratch (join d n) = false ->
  (forall s', agree (at_path (join d n)) s s' -> s' !! join d n = Some (File b) -> Q tt s') ->
  (forall s', replacing (join d n) b s s' -> fails E C s') ->
  wp m (publish_staged_file src (join d n)) Q E C s.
Proof.
  intros Hok Hsrc Hss Hd Hnd Hps HQ HF. unfold publish_staged_file. rewrite parent_join.
  apply wp_bind, wp_new_uuid. intros k _. set (t := join d (published_temp (uuid_text k))).
  assert (scratch t = true) as Ht by apply scratch_published.
  assert (forall s1, agree (at_path t) s s1 -> replacing (join d n) b s s1) as Hsc.
  { intros s1 Ha. assert (forall q, scratch q = false -> s1 !! q = s !! q) as Hq.
    { intros q Hq. apply (agree_at _ _ _ Ha); [done|]. intros ->. congruence. }
    split; [|left; by apply Hq]. split; [|by apply Ha]. intros q Hs _. by apply Hq. }
  (* whichever way the private copy is made *)
  assert (forall s1, agree (at_path t) s s1 -> s1 !! t = Some (File b) ->
    wp m (_ ← rename "Failed to publish staged object generation" t (join d n); sync_directory d)
      Q E C s1) as Hrest.
  { intros s1 Ha Hb. assert (is_dir d s1 = true) as Hd1.
    { rewrite (agree_is_dir _ _ _ _ Ha); [done|by eapply dir_not_scratch|].
      intros Heq. unfold at_path, t in Heq. by apply (join_ne_self d (published_temp (uuid_text k))). }
    assert (is_dir (join d n) s1 = false) as Hnd1.
    { rewrite (agree_is_dir _ _ _ _ Ha); [done|done|]. intros Heq. congruence. }
    apply wp_bind. eapply wp_rename_file; [done|by rewrite parent_join|done|..].
    - assert (agree (at_path (join d n)) s (<[join d n := File b]> (delete t s1))) as Ha'.
      { eapply agree_trans; [by apply Hsc|]. apply agree_rename; try done; [by apply Ha| |apply join_ne_nil].
        by rewrite parent_join. }
      apply wp_sync_file; [|apply HQ; [done|apply lookup_insert_eq]|].
      2:{ apply HF. split; [done|right; apply lookup_insert_eq]. }
      exists Directory. eapply agree_lookup; [exact Ha'|by eapply dir_not_scratch| |by apply is_dir_true].
      intros Heq. by apply (join_ne_self d n).
    - intros Hsame. apply wp_sync_file; [apply is_dir_true in Hd1; by eauto|by apply HQ; [apply Hsc|]|by apply HF; auto].
    - by apply HF; auto. }
  apply wp_bind, wp_attempt. eapply wp_hard_link; [done|by unfold t; rewrite parent_join|..].
  - intros Hnone. simpl. apply wp_bind, wp_ret. apply Hrest; [|apply lookup_insert_eq].
    by apply agree_scratch.
  - intros e. simpl. apply wp_bind. eapply wp_atomic_copy; try done.
    + by unfold t; rewrite parent_join.
    + by apply scratch_not_dir.
    + apply join_ne_nil.
    + intros u. unfold t. rewrite parent_join. apply temp_names_differ.
    + intros s' Ha. by apply HF; auto.
  - apply HF, replacing_refl.
Qed.

Lemma wp_stage_stored_payload src dest b Q E C s :
  ok s -> s !! src = Some (File b) -> scratch src = false ->
  is_dir (parent dest) s = true -> is_dir dest s = false -> dest <> [] -> scratch dest = false ->
  (forall s', agree (at_path dest) s s' -> s' !! dest = Some (File b) -> Q tt s') ->
  (forall s', agree (at_path dest) s s' -> fails E C s') ->
  wp m (stage_stored_payload src dest) Q E C s.
Proof.
  intros Hok Hsrc Hss Hd Hnd Hne Hps HQ HF. unfold stage_stored_payload.
  assert (parent dest <> dest) as Hpd.
  { destruct (path_cases dest) as [->|(d & n & ->)]; [done|]. rewrite parent_join.
    intros Heq. by apply (join_ne_self d n). }
  assert (forall s1, agree (at_path dest) s s1 -> s1 !! dest = Some (File b) ->
    wp m (_ ← sync_file "Failed to sync stored generation" dest; sync_directory (parent dest))
      Q E C s1) as Hrest.
  { intros s1 Ha Hb. apply wp_bind, wp_sync_file; [by eauto| |by apply HF].
    apply wp_sync_file; [|by apply HQ|by apply HF].
    exists Directory. eapply agree_lookup; [exact Ha|by eapply dir_not_scratch|done|by apply is_dir_true]. }
  apply wp_bind, wp_attempt. eapply wp_hard_link; [done|done|..].
  - intros Hnone. simpl. apply wp_bind, wp_ret. apply Hrest; [|apply lookup_insert_eq].
    by apply agree_insert_file.
  - intros e. simpl. apply wp_bind. eapply wp_atomic_copy; try done.
    intros u Heq. rewrite Heq, scratch_copy in Hps. done.
  - apply HF, agree_refl.
Qed.

Definition at_either (p q x : path) : Prop := x = p \/ x = q.

Lemma wp_atomic_move src dest b Q E C s :
  ok s -> s !! src = Some (File b) -> scratch src = false -> src <> dest ->
  is_dir (parent dest) s = true -> is_dir dest s = false -> dest <> [] -> scratch dest = false ->
  (forall s', agree (at_either src dest) s s' -> s' !! dest = Some (File b) -> Q tt s') ->
  (forall s', agree (at_either src dest) s s' -> fails E C s') ->
  wp m (atomic_move src dest) Q E C s.
Proof.
  intros Hok Hsrc Hss Hsd Hd Hnd Hne Hps HQ HF. unfold atomic_move.
  apply wp_bind, wp_existing_directory; [done|].
  apply wp_bind, wp_sync_file; [by eauto| |by apply HF, agree_refl].
  assert (src <> []) as Hsne.
  { intros ->. pose proof (ok_root s Hok) as Hr. apply is_dir_true in Hr. congruence. }
  assert (forall p, p <> [] -> is_dir (parent p) s = true -> parent p <> src /\ parent p <> dest) as Hpar.
  { intros p _ Hp. apply is_dir_true in Hp. split; intros Heq; rewrite Heq in Hp; [congruence|].
    apply is_dir_true in Hp. congruence. }
  assert (is_dir (parent src) s = true) as Hsp.
  { destruct (path_cases src) as [->|(d & n & ->)]; [done|]. rewrite parent_join.
    apply is_dir_true, (ok_parent s Hok d n). by eauto. }
  assert (forall s1, agree (at_either src dest) s s1 -> s1 !! dest = Some (File b) ->
    wp m (_ ← sync_directory (parent dest);
          if eqb (parent src) (parent dest) then mret tt else sync_directory (parent src)) Q E C s1) as Hrest.
  { intros s1 Ha Hb.
    assert (forall p, p <> [] -> is_dir (parent p) s = true -> is_Some (s1 !! parent p)) as Hex.
    { intros p Hp Hpd. exists Directory. destruct (Hpar p Hp Hpd).
      eapply agree_lookup; [exact Ha|by eapply dir_not_scratch|by intros [?|?]|by apply is_dir_true]. }
    apply wp_bind, wp_sync_file; [by apply Hex| |by apply HF].
    destruct (eqb _ _); [by apply wp_ret, HQ|].
    apply wp_sync_file; [by apply Hex|by apply HQ|by apply HF]. }
  assert (agree (at_either src dest) s (<[dest := File b]> (delete src s))) as Ha.
  { eapply agree_trans; [eapply (agree_delete_file _ _ src); [by left|done]|].
    apply agree_insert_file; [by right| |..|done].
    - apply is_dir_true. rewrite lookup_delete_ne; [by apply is_dir_true|].
      destruct (Hpar dest Hne Hd). congruence.
    - unfold is_dir. by rewrite lookup_delete_ne. }
  apply wp_bind, wp_attempt. apply wp_sys.
  - intros linked. rewrite Hsrc, Hd, Hnd. simpl.
    destruct (linked && eqb (s !! dest) (Some (File b))) eqn:El.
    + apply wp_bind, wp_ret. apply Hrest; [apply agree_refl|].
      apply andb_true_iff in El as [_ El]. by rewrite eqb_true in El.
    + apply wp_bind, wp_ret. apply Hrest; [done|]. apply lookup_insert_eq.
  - intros Hm r. unfold untouched. simpl. apply wp_bind, wp_bind. eapply wp_atomic_copy; try done.
    + intros u Heq. rewrite Heq, scratch_copy in Hps. done.
    + intros s1 Ha1 Hb1.
      assert (agree (at_either src dest) s s1) as Ha1'.
      { eapply agree_weaken; [|done]. by right. }
      eapply wp_remove_file; [|..].
      * rewrite (agree_at _ _ _ Ha1); [done|done|]. intros Heq. by apply Hsd.
      * apply Hrest; [|by rewrite lookup_delete_ne].
        eapply agree_trans; [done|]. eapply agree_delete_file; [by left|].
        rewrite (agree_at _ _ _ Ha1); [done|done|]. intros Heq. by apply Hsd.
      * by apply HF.
    + intros s1 Ha1. apply HF. eapply agree_weaken; [|done]. by right.
  - intros Hm r. by apply (HF s (agree_refl _ _)).
Qed.

End Files.
