(* ===== verification/PublicationFacts.v ===== *)
(** * PublicationFacts: a publication is all or nothing

    Whatever the schedule of failures and terminations, the object directory is
    left in one of three states: not decided (the public files are those before
    the call), decided (the journal is there, and applying it gives the new
    generation), or complete.  Recovery moves a decided directory to complete
    and leaves the others, can itself be interrupted any number of times, and
    always finishes when no fault happens. *)

From Stdlib Require Import Ascii.
From S2P Require Import Prelude Text Models FsModel Publication FileFacts.

(** ** The files of an object directory *)

(** [versions/<id>] *)
Definition ver (d : path) (id : string) : path := join (join d "versions") id.

(** Where the store expects files, and where directories. *)
Definition file_path (d q : path) : Prop :=
  q = join d BLOB \/ q = join d META \/ q = join d JOURNAL \/
  exists id, q = join (ver d id) BLOB \/ q = join (ver d id) META.
Definition dir_path `{Env} (d q : path) : Prop :=
  q = join d "versions" \/
  (exists id, q = ver d id /\ scratch q = false) \/
  exists n, q = join d n /\ stage_name n = true.

Record shape `{Env} (d : path) (s : fs) : Prop := mkShape {
  shape_file : forall q, file_path d q -> s !! q <> Some Directory;
  shape_dir : forall q b, dir_path d q -> s !! q <> Some (File b) }.

Section Names.
Context `{EnvLaws}.

Lemma stage_name_inv n :
  stage_name n = true -> exists u, n = STAGE_PREFIX +:+ u /\ uuid_valid u = true.
Proof.
  unfold stage_name. rewrite is_some_and_true. intros (u & Hs%Text.strip_prefix_spec & Hu). by eauto.
Qed.

Lemma stage_name_intro k : stage_name (STAGE_PREFIX +:+ uuid_text k) = true.
Proof.
  unfold stage_name. rewrite (proj2 (Text.strip_prefix_spec _ _ _) eq_refl). simpl.
  apply uuid_text_valid.
Qed.

Lemma stage_not_scratch d n : stage_name n = true -> scratch (join d n) = false.
Proof.
  intros (u & -> & Hu)%stage_name_inv. rewrite scratch_join, (uuid_valid_tail u) by done.
  apply andb_false_r.
Qed.

(** The public names are not staging names. *)
Lemma stage_name_ne n :
  stage_name n = true -> n <> BLOB /\ n <> META /\ n <> JOURNAL /\ n <> "versions".
Proof.
  intros (u & -> & _)%stage_name_inv. unfold STAGE_PREFIX, BLOB, META, JOURNAL.
  split_and!; intros Heq; discriminate Heq.
Qed.

Lemma scratch_public d : scratch (join d BLOB) = false /\ scratch (join d META) = false /\
  scratch (join d JOURNAL) = false /\ scratch (join d "versions") = false.
Proof. rewrite !scratch_join. done. Qed.

Lemma scratch_blob d : scratch (join d BLOB) = false.
Proof. apply scratch_public. Qed.
Lemma scratch_meta d : scratch (join d META) = false.
Proof. apply scratch_public. Qed.
Lemma scratch_journal d : scratch (join d JOURNAL) = false.
Proof. apply scratch_public. Qed.
Lemma scratch_versions d : scratch (join d "versions") = false.
Proof. apply scratch_public. Qed.

Lemma publication_temp_scratch d n : publication_temp n = true -> scratch (join d n) = true.
Proof.
  unfold publication_temp. rewrite existsb_true. intros (p & Hp & Hn).
  destruct (Text.strip_prefix n p) as [suffix|] eqn:E; [|done].
  apply Text.strip_prefix_spec in E as ->.
  apply is_some_and_true in Hn as (rs & Hrs%Text.strip_prefix_spec & _).
  rewrite scratch_join. apply andb_true_iff. split.
  - unfold Text.starts_with.
    repeat (apply elem_of_cons in Hp as [->|Hp]; [by destruct suffix|]). by apply elem_of_nil in Hp.
  - unfold Text.ends_with. rewrite rev_app_distr, Hrs, Text.app_assoc.
    apply (Text.starts_with_app (String.rev ".tmp")).
Qed.

Lemma file_path_not_scratch d q : file_path d q -> scratch q = false.
Proof.
  intros [->|[->|[->|(id & [-> | ->])]]]; rewrite scratch_join; done.
Qed.

Lemma dir_path_not_scratch d q : dir_path d q -> scratch q = false.
Proof.
  intros [->|[(id & -> & ?)|(n & -> & Hn)]]; [apply scratch_versions|done|by apply stage_not_scratch].
Qed.

(** ** Keeping the shape *)

Lemma shape_subset d s s' : s' ⊆ s -> shape d s -> shape d s'.
Proof.
  intros Hsub [Hf Hd]. split.
  - intros q Hq Hs. apply (Hf q Hq). by eapply lookup_weaken.
  - intros q b Hq Hs. apply (Hd q b Hq). by eapply lookup_weaken.
Qed.

(** A change at [X], where what is written fits. *)
Lemma shape_agree X d s s' :
  agree X s s' -> shape d s ->
  (forall q, X q -> file_path d q -> s' !! q <> Some Directory) ->
  (forall q b, X q -> dir_path d q -> s' !! q <> Some (File b)) ->
  (forall q, {X q} + {~ X q}) ->
  shape d s'.
Proof.
  intros Ha [Hf Hd] HXf HXd Hdec. split.
  - intros q Hq. destruct (Hdec q) as [Hx|Hx]; [by apply HXf|].
    rewrite (agree_at _ _ _ Ha) by (done || by eapply file_path_not_scratch). by apply Hf.
  - intros q b Hq. destruct (Hdec q) as [Hx|Hx]; [by apply HXd|].
    rewrite (agree_at _ _ _ Ha) by (done || by eapply dir_path_not_scratch). by apply Hd.
Qed.

(** Distinct places below one directory. *)
Lemma file_not_dir d q : file_path d q -> dir_path d q -> False.
Proof.
  assert (forall a b, join d a = ver d b -> False) as H1.
  { intros a b Heq. unfold ver in Heq. apply join_inj in Heq as [Heq _].
    by apply (join_ne_self d "versions"). }
  assert (forall a id x, join d a = join (ver d id) x -> False) as H2.
  { intros a id x Heq. unfold ver, join in Heq. rewrite <- !app_assoc in Heq.
    by apply app_inv_head in Heq. }
  assert (forall id id' x, ver d id = join (ver d id') x -> False) as H3.
  { intros id id' x Heq. unfold ver, join in Heq. rewrite <- !app_assoc in Heq.
    apply app_inv_head in Heq. discriminate Heq. }
  intros [->|[->|[->|(id & [-> | ->])]]] [Heq|[(id' & Heq & _)|(n & Heq & Hn%stage_name_ne)]];
    try (by apply H1 in Heq); try (by symmetry in Heq; apply H2 in Heq);
    try (by symmetry in Heq; apply H3 in Heq);
    apply join_inj in Heq as [_ Heq]; naive_solver.
Qed.

(** A file written at a place for files. *)
Lemma shape_write d p s s' :
  file_path d p -> agree (at_path p) s s' ->
  (s' !! p = None \/ s' !! p = s !! p \/ exists b', s' !! p = Some (File b')) ->
  shape d s -> shape d s'.
Proof.
  intros Hp Ha Hnew Hs. eapply shape_agree; [done|done| | |intros q; apply (decide (q = p))].
  - intros q -> _. destruct Hnew as [->|[->|[b' ->]]]; [done| |done]. by apply (shape_file d s Hs).
  - intros q b' -> Hd. by destruct (file_not_dir d p).
Qed.

End Names.

(** ** The steps of applying a publication *)

Section Steps.
Context `{EnvLaws} {m : mode}.
Abbreviation fails := (@fails m).

Lemma ver_parent d id : parent (ver d id) = join d "versions".
Proof. apply parent_join. Qed.

Lemma ver_not_nil d id : ver d id <> [].
Proof. apply join_ne_nil. Qed.

Lemma at_or_below_dec p q : {at_or_below p q} + {~ at_or_below p q}.
Proof. unfold at_or_below. destruct (below p q); [by left|by right]. Qed.

Lemma below_blob d n : at_or_below d (join d n).
Proof. apply below_join. Qed.

Lemma wp_retire_version d id Q E C s :
  ok s -> shape d s -> validate_version_id id = Ok tt -> scratch (ver d id) = false ->
  (forall s', agree (at_or_below (ver d id)) s s' -> shape d s' ->
     (forall q, below (ver d id) q = true -> s' !! q = None) -> Q tt s') ->
  (forall s', agree (at_or_below (ver d id)) s s' -> shape d s' -> fails E C s') ->
  wp m (retire_version d id) Q E C s.
Proof.
  intros Hok Hsh Hv Hsc HQ HF. unfold retire_version.
  apply wp_bind, wp_of_res. rewrite Hv. apply wp_bind, wp_gets. fold (ver d id).
  destruct (path_exists (ver d id) s) eqn:Ex; cycle 1.
  { apply path_exists_false in Ex. apply wp_ret, HQ; [apply agree_refl|done|].
    intros q Hq. by eapply ok_absent_below. }
  assert (s !! ver d id = Some Directory) as Hdir.
  { apply path_exists_true in Ex as [[b|] He]; [|done].
    exfalso. apply (shape_dir d s Hsh (ver d id) b); [right; left; by exists id|done]. }
  (* the rest of the loop body, from any state where the version is still there *)
  assert (forall s1, agree (at_or_below (ver d id)) s s1 -> shape d s1 ->
    s1 !! ver d id = Some Directory ->
    wp m (_ ← remove_dir_all "Failed to retire historical version" (ver d id);
          sync_directory (join d "versions")) Q E C s1) as Hrest.
  { intros s1 Ha1 Hsh1 Hd1. apply wp_bind, wp_remove_dir_all; [done|apply ver_not_nil|..].
    - intros s2 Ha2 Hsub _ Hgone. assert (agree (at_or_below (ver d id)) s s2) as Ha by by eapply agree_trans.
      apply wp_sync_file; [|by apply HQ; eauto using shape_subset|by apply HF; eauto using shape_subset].
      exists Directory. eapply agree_lookup; [exact Ha|apply scratch_versions| |].
      + unfold at_or_below, ver. by rewrite below_join_self.
      + apply (ok_parent s Hok _ id). by exists Directory.
    - intros s2 Ha2 Hsub _. apply HF; [by eapply agree_trans|by eapply shape_subset]. }
  apply wp_bind, wp_gets. apply wp_bind.
  destruct (path_exists (join (ver d id) BLOB) s) eqn:Eb; [|by apply wp_ret, Hrest; [apply agree_refl|..]].
  assert (file_path d (join (ver d id) BLOB)) as Hfp by (do 3 right; exists id; by left).
  assert (exists b, s !! join (ver d id) BLOB = Some (File b)) as [b Hb].
  { apply path_exists_true in Eb as [[b|] Hb]; [by eauto|].
    by destruct (shape_file d s Hsh (join (ver d id) BLOB)). }
  assert (agree (at_path (join (ver d id) BLOB)) s (delete (join (ver d id) BLOB) s)) as Ha
    by by eapply agree_delete_file.
  assert (shape d (delete (join (ver d id) BLOB) s)) as Hsh'
    by (eapply shape_subset; [apply delete_subseteq|done]).
  assert (agree (at_or_below (ver d id)) s (delete (join (ver d id) BLOB) s)) as Ha'.
  { eapply agree_weaken; [|exact Ha]. intros q ->. apply below_blob. }
  assert (delete (join (ver d id) BLOB) s !! ver d id = Some Directory) as Hd'
    by (rewrite lookup_delete_ne; [done|apply join_ne_self]).
  apply wp_bind. eapply wp_remove_file; [done| |by apply HF; [apply agree_refl|]].
  apply wp_sync_file; [by eauto|by apply Hrest|by apply HF].
Qed.

Lemma wp_clear_public_file d n Q E C s :
  ok s -> is_dir d s = true -> shape d s -> file_path d (join d n) ->
  (forall s', agree (at_path (join d n)) s s' -> shape d s' -> s' !! join d n = None -> Q tt s') ->
  (forall s', agree (at_path (join d n)) s s' -> shape d s' -> fails E C s') ->
  wp m (clear_public_file d n) Q E C s.
Proof.
  intros Hok Hd Hsh Hp HQ HF. unfold clear_public_file. apply wp_bind, wp_gets.
  destruct (path_exists (join d n) s) eqn:Ex; cycle 1.
  { apply path_exists_false in Ex. by apply wp_ret, HQ; [apply agree_refl|..]. }
  assert (exists b, s !! join d n = Some (File b)) as [b Hb].
  { apply path_exists_true in Ex as [[b|] Hb]; [by eauto|]. by destruct (shape_file d s Hsh _ Hp). }
  assert (agree (at_path (join d n)) s (delete (join d n) s)) as Ha by by eapply agree_delete_file.
  assert (shape d (delete (join d n) s)) as Hsh' by (eapply shape_subset; [apply delete_subseteq|done]).
  apply wp_bind. eapply wp_remove_file; [done| |by apply HF; [apply agree_refl|]].
  apply wp_sync_file; [|apply HQ; [done..|apply lookup_delete_eq]|by apply HF].
  rewrite lookup_delete_ne by apply join_ne_self. apply is_dir_true in Hd. by eauto.
Qed.

(** A write at a public file name keeps the shape. *)
Lemma replacing_shape d p b s s' : file_path d p -> replacing p b s s' -> shape d s -> shape d s'.
Proof.
  intros Hp [Ha Hn]. apply (shape_write d p); [done|done|]. destruct Hn as [->| ->]; [by right; left|].
  right; right; by eauto.
Qed.

(** What a marker publication may change. *)
Definition marker_area (d : path) (id : string) (q : path) : Prop :=
  at_or_below (ver d id) q \/ q = join d "versions".

Lemma ver_creatable d id s :
  ok s -> is_dir d s = true -> shape d s -> scratch (ver d id) = false -> creatable (ver d id) s.
Proof.
  intros Hok Hd Hsh Hsc q Hq. apply below_spec in Hq as [r Hr].
  destruct (path_cases r) as [->|(r1 & n & ->)].
  { rewrite app_nil_r in Hr. subst q. split; [done|]. intros b.
    apply (shape_dir d s Hsh). right; left. by exists id. }
  unfold join in Hr. rewrite app_assoc in Hr. apply join_inj in Hr as [Hr _].
  destruct (path_cases r1) as [->|(r2 & n2 & ->)].
  { rewrite app_nil_r in Hr. subst q. split; [apply scratch_versions|]. intros b.
    apply (shape_dir d s Hsh). by left. }
  unfold join in Hr. rewrite app_assoc in Hr. apply join_inj in Hr as [Hr _].
  assert (below q d = true) as Hb by (apply below_spec; by eauto).
  assert (s !! q = Some Directory) as Hqd.
  { apply is_dir_true in Hd. destruct (ok_dir_below s q d _ Hok Hd Hb) as [->|]; done. }
  split; [|congruence]. eapply dir_not_scratch; [done|]. by apply is_dir_true.
Qed.

Lemma wp_publish_marker d id marker Q E C s :
  ok s -> is_dir d s = true -> shape d s -> o_version_id marker = Some id ->
  validate_version_id id = Ok tt -> scratch (ver d id) = false ->
  (forall s', agree (marker_area d id) s s' -> shape d s' ->
     s' !! join (ver d id) BLOB = Some (File []) ->
     s' !! join (ver d id) META = Some (File (encode_object marker)) -> Q tt s') ->
  (forall s', agree (marker_area d id) s s' -> shape d s' -> fails E C s') ->
  wp m (publish_marker d marker) Q E C s.
Proof.
  intros Hok Hd Hsh Hid Hv Hsc HQ HF. unfold publish_marker. rewrite Hid.
  apply wp_bind, wp_of_res; simpl. apply wp_bind, wp_of_res. rewrite Hv. fold (ver d id).
  assert (forall s1, mkdirs (ver d id) s s1 -> agree (marker_area d id) s s1 /\ shape d s1) as Hmk.
  { intros s1 [Hat Ho].
    assert (forall q, s1 !! q = s !! q \/ marker_area d id q /\ s1 !! q = Some Directory /\ ~ file_path d q)
      as Hcase.
    { intros q. destruct (Hat q) as [|(Hn & Hnew & Hb)]; [by left|].
      apply below_spec in Hb as [r Hr]. destruct (path_cases r) as [->|(r1 & n & ->)].
      { rewrite app_nil_r in Hr. subst q. right. split_and!; [left; apply below_refl|done|].
        intros Hf. eapply file_not_dir; [done|]. right; left. by exists id. }
      unfold join in Hr. rewrite app_assoc in Hr. apply join_inj in Hr as [Hr _].
      destruct (path_cases r1) as [->|(r2 & n2 & ->)].
      { rewrite app_nil_r in Hr. subst q. right. split_and!; [by right|done|].
        intros Hf. eapply file_not_dir; [done|]. by left. }
      unfold join in Hr. rewrite app_assoc in Hr. apply join_inj in Hr as [Hr _].
      apply is_dir_true in Hd. destruct (ok_dir_below s q d _ Hok Hd) as [->|]; [|congruence..].
      apply below_spec. by eauto. }
    split.
    - split; [|done]. intros q _ Hx. destruct (Hcase q) as [|[? _]]; done.
    - split.
      + intros q Hq. destruct (Hcase q) as [->|(_ & _ & ?)]; [by apply (shape_file d s Hsh)|done].
      + intros q b Hq. destruct (Hcase q) as [->|(_ & -> & _)]; [by apply (shape_dir d s Hsh)|done]. }
  apply wp_bind, wp_create_directory; [done|by apply ver_creatable| |].
  2:{ intros s1 H1. destruct (Hmk s1 H1). by apply HF. }
  intros s1 H1 Hd1. destruct (Hmk s1 H1) as [Ha1 Hsh1].
  assert (file_path d (join (ver d id) BLOB)) as Hfb by (do 3 right; exists id; by left).
  assert (file_path d (join (ver d id) META)) as Hfm by (do 3 right; exists id; by right).
  assert (forall n s2 s3, agree (marker_area d id) s s2 -> agree (at_path (join (ver d id) n)) s2 s3 ->
    agree (marker_area d id) s s3) as Hext.
  { intros n s2 s3 Ha Hb. eapply agree_trans; [done|]. eapply agree_weaken; [|done].
    intros q ->. left. apply below_blob. }
  assert (forall n s2, shape d s2 -> file_path d (join (ver d id) n) -> is_dir (join (ver d id) n) s2 = false) as Hnd.
  { intros n s2 Hs2 Hf. apply not_true_iff_false. rewrite is_dir_true. by apply (shape_file d s2 Hs2). }
  apply wp_bind, wp_atomic_write;
    [by apply Ha1|by rewrite parent_join|by apply Hnd|apply join_ne_nil|apply scratch_blob| |].
  2:{ intros s2 Hr. apply HF; [by eapply Hext; [|apply Hr]|].
      by apply (replacing_shape _ _ _ _ _ Hfb Hr). }
  intros s2 Ha2 Hb2. assert (shape d s2) as Hsh2.
  { eapply (shape_write d); [exact Hfb|done| |done]. right; right; by eauto. }
  assert (agree (marker_area d id) s s2) as Hag2 by by eapply Hext.
  apply wp_atomic_write;
    [by apply Hag2| |by apply Hnd|apply join_ne_nil|apply scratch_meta| |].
  - rewrite parent_join. rewrite (agree_is_dir _ _ _ _ Ha2); [done|done|].
    intros Heq. by apply (join_ne_self (ver d id) BLOB).
  - intros s3 Ha3 Hb3. apply HQ; [by eapply Hext| | |done].
    + eapply (shape_write d); [exact Hfm|done| |done]. right; right; by eauto.
    + eapply agree_lookup; [exact Ha3|apply scratch_blob| |done].
      unfold at_path. rewrite join_inj. by intros [_ ?].
  - intros s3 Hr. apply HF; [by eapply Hext; [|apply Hr]|].
    by apply (replacing_shape _ _ _ _ _ Hfm Hr).
Qed.

End Steps.

(** ** Cleaning private files *)

Section Cleaning.
Context `{EnvLaws} {m : mode}.
Abbreviation fails := (@fails m).

(** Staging directories and what is in them. *)
Definition private (d q : path) : Prop :=
  exists n, stage_name n = true /\ at_or_below (join d n) q.

(** No staging directory and no temporary file of a publication is left. *)
Definition clean (d : path) (s : fs) : Prop :=
  forall n, stage_name n = true \/ publication_temp n = true -> s !! join d n = None.

Lemma private_apart d q n : private d q -> stage_name n = false -> q <> d /\ q <> join d n.
Proof.
  intros (n' & Hn' & [rest ->]%below_join_inv) Hn. split.
  - intros Heq%(f_equal length). rewrite length_app in Heq. simpl in Heq. lia.
  - intros Heq. apply app_inv_head in Heq. congruence.
Qed.

Lemma NoDup_children d s : NoDup (children_of d s).
Proof.
  unfold children_of. pose proof (NoDup_fst_map_to_list s) as Hnd. revert Hnd.
  induction (map_to_list s) as [|[p e] l IH]; simpl; intros Hnd; [constructor|].
  inversion Hnd as [|? ? Hp Hl]; subst. destruct (child_name d p) as [n|] eqn:Hc; [|by apply IH].
  constructor; [|by apply IH]. rewrite list_elem_of_omap. intros ([p' e'] & Hin & Hc').
  apply child_name_spec in Hc, Hc'. simpl in *. subst. apply Hp.
  apply list_elem_of_fmap. by exists (join d n, e').
Qed.

(** One entry of the cleaning loop: it goes, the others stay. *)
Lemma wp_clean_entry d n Q E C s :
  ok s -> is_dir d s = true -> shape d s -> is_Some (s !! join d n) ->
  (forall s', agree (private d) s s' -> s' ⊆ s ->
     (forall n', n' <> n -> s' !! join d n' = s !! join d n') ->
     (stage_name n = true \/ publication_temp n = true -> s' !! join d n = None) -> Q tt s') ->
  (forall s', agree (private d) s s' -> s' ⊆ s -> fails E C s') ->
  wp m (clean_entry d n) Q E C s.
Proof.
  intros Hok Hd Hsh Hn HQ HF. unfold clean_entry. destruct (stage_name n) eqn:Hst.
  - assert (s !! join d n = Some Directory) as Hdir.
    { destruct Hn as [[x|] Hx]; [|done]. exfalso.
      apply (shape_dir d s Hsh (join d n) x); [|done]. right; right. by exists n. }
    assert (forall q, at_or_below (join d n) q -> private d q) as Hpr by (intros q ?; by exists n).
    apply wp_bind, wp_remove_dir_all; [done|apply join_ne_nil|..].
    + intros s1 Ha Hsub Hout Hgone. apply agree_weaken with (Y := private d) in Ha; [|done].
      apply wp_sync_file; [| |by apply HF].
      * rewrite Hout by apply below_join_self. apply is_dir_true in Hd. by eauto.
      * apply HQ; [done|done| |intros _; apply Hgone, below_refl].
        intros n' Hne. apply Hout, (below_join_ne d n' n); [done|apply below_refl].
    + intros s1 Ha Hsub _. apply HF; [by eapply agree_weaken|done].
  - destruct (publication_temp n) eqn:Ht; cycle 1.
    { apply wp_ret, HQ; [apply agree_refl|done|done|]. by intros [?|?]. }
    pose proof (publication_temp_scratch d n Ht) as Hsc.
    destruct Hn as [[x|] Hx]; [|by destruct (ok_scratch s Hok (join d n))].
    assert (agree (private d) s (delete (join d n) s)) as Ha.
    { eapply agree_delete_file; [congruence|done]. }
    apply wp_bind. eapply wp_remove_file; [done| |by apply HF; [apply agree_refl|]].
    apply wp_sync_file; [| |by apply HF; [|apply delete_subseteq]].
    + rewrite lookup_delete_ne by apply join_ne_self. apply is_dir_true in Hd. by eauto.
    + apply HQ; [done|apply delete_subseteq| |intros _; apply lookup_delete_eq].
      intros n' Hne. apply lookup_delete_ne. rewrite join_inj. naive_solver.
Qed.

Lemma wp_clean_uncommitted d Q E C s :
  ok s -> is_dir d s = true -> shape d s ->
  (forall s', agree (private d) s s' -> s' ⊆ s -> clean d s' -> Q tt s') ->
  (forall s', agree (private d) s s' -> s' ⊆ s -> fails E C s') ->
  wp m (clean_uncommitted_stages d) Q E C s.
Proof.
  intros Hok Hd Hsh HQ HF. unfold clean_uncommitted_stages.
  apply wp_bind, wp_sys; [|intros; by eapply HF; [apply agree_refl|..]..].
  intros _. rewrite Hd.
  assert (forall n, n ∈ dir_order (children_of d s) <-> is_Some (s !! join d n)) as Hin.
  { intros n. rewrite (dir_order_perm (children_of d s)). apply elem_of_children_of. }
  assert (NoDup (dir_order (children_of d s))) as Hnd
    by (rewrite (dir_order_perm (children_of d s)); apply NoDup_children).
  apply (wp_for_each _ _ (fun rest s' => agree (private d) s s' /\ s' ⊆ s /\ NoDup rest /\
    (forall n, n ∈ rest -> is_Some (s' !! join d n)) /\
    forall n, stage_name n = true \/ publication_temp n = true -> n ∉ rest -> s' !! join d n = None)).
  - split_and!; [apply agree_refl|done|done|intros n; apply Hin|].
    intros n _ Hn. destruct (s !! join d n) eqn:Ex; [|done]. destruct Hn. apply Hin. by eauto.
  - intros n rest s1 (Ha & Hsub & Hnd1 & Hpres & Hgone). inversion Hnd1 as [|? ? Hnr Hnd2]; subst.
    assert (shape d s1) as Hsh1 by by eapply shape_subset.
    assert (is_dir d s1 = true) as Hd1.
    { rewrite (agree_is_dir _ _ _ _ Ha); [done|by eapply dir_not_scratch|].
      intros Hp. by destruct (private_apart d d BLOB Hp). }
    apply wp_clean_entry; [by apply Ha|done|done|apply Hpres; set_solver|..].
    + intros s2 Ha2 Hsub2 Hother Hgone2. split_and!;
        [by eapply agree_trans|by etrans|done| |].
      * intros n' Hn'. rewrite Hother by (by intros ->). apply Hpres. set_solver.
      * intros n' Hk Hn'. destruct (decide (n' = n)) as [->|Hne]; [by apply Hgone2|].
        rewrite Hother by done. apply Hgone; [done|]. set_solver.
    + intros s2 Ha2 Hsub2. apply HF; [by eapply agree_trans|by etrans].
  - intros s1 (Ha & Hsub & _ & _ & Hgone). apply HQ; [done|done|].
    intros n Hk. apply Hgone; [done|]. apply not_elem_of_nil.
Qed.

End Cleaning.

(** ** The states of a publication *)

Definition marker_id (r : Publication) : option string := pb_marker r ≫= o_version_id.

(** The history entries a record rewrites. *)
Definition rewritten (r : Publication) (id : string) : Prop :=
  id ∈ pb_remove_versions r \/ marker_id r = Some id.

(** The public paths a record rewrites. *)
Definition work (d : path) (r : Publication) (q : path) : Prop :=
  pb_publish r || pb_clear_current r = true /\ (q = join d BLOB \/ q = join d META) \/
  (exists id, rewritten r id /\ at_or_below (ver d id) q) \/
  marker_id r <> None /\ q = join d "versions".

Definition touched (d : path) (r : Publication) (q : path) : Prop :=
  q = join d JOURNAL \/ at_or_below (join d (pb_stage r)) q \/ work d r q.

Section Decision.
Context `{EnvLaws} {m : mode}.
Abbreviation fails := (@fails m).

(** The directory, the record, the staged body and metadata, and the state
    before the call. *)
Variables (d : path) (r : Publication) (b j : bytes) (s0 : fs).
(** Paths outside the publication the caller changes on the way: private ones,
    the spool file of the payload, missing parent directories. *)
Variable X : path -> Prop.
Hypothesis X_private : forall q, private d q -> X q.
Abbreviation area := (fun q => touched d r q \/ X q).
Abbreviation stage := (join d (pb_stage r)).

(** The record passes [validate_publication], with the staged files. *)
Record valid : Prop := mkValid {
  v_stage : stage_name (pb_stage r) = true;
  v_publish : pb_publish r = true -> pb_clear_current r = false /\ pb_marker r = None;
  v_ids : forall id, id ∈ pb_remove_versions r ->
    validate_version_id id = Ok tt /\ scratch (ver d id) = false;
  v_marker : forall mk, pb_marker r = Some mk ->
    o_data mk = [] /\ o_size mk = 0%N /\ pb_clear_current r = true /\
    exists id, o_version_id mk = Some id /\ validate_version_id id = Ok tt /\
               scratch (ver d id) = false;
  v_body : pb_publish r = true -> exists o, decode_object j = Some o /\ o_size o = size_of b }.

Record decided (s : fs) : Prop := mkDecided {
  dc_ok : ok s;
  dc_dir : is_dir d s = true;
  dc_shape : shape d s;
  dc_journal : s !! join d JOURNAL = Some (File (encode_publication r));
  dc_stage : s !! stage = Some Directory;
  dc_staged : pb_publish r = true ->
    s !! join stage BLOB = Some (File b) /\ s !! join stage META = Some (File j);
  dc_agree : agree area s0 s }.

(** Neither file of a pair is there. *)
Definition gone (p : path) (s : fs) : Prop := s !! join p BLOB = None /\ s !! join p META = None.

(** The new generation is in place. *)
Record applied (s : fs) : Prop := mkApplied {
  ap_publish : pb_publish r = true ->
    s !! join d BLOB = Some (File b) /\ s !! join d META = Some (File j);
  ap_clear : pb_clear_current r = true -> gone d s;
  ap_remove : forall id, id ∈ pb_remove_versions r -> marker_id r <> Some id -> gone (ver d id) s;
  ap_marker : forall mk id, pb_marker r = Some mk -> o_version_id mk = Some id ->
    s !! join (ver d id) BLOB = Some (File []) /\
    s !! join (ver d id) META = Some (File (encode_object mk)) }.

Record complete (s : fs) : Prop := mkComplete {
  cp_ok : ok s;
  cp_dir : is_dir d s = true;
  cp_shape : shape d s;
  cp_journal : s !! join d JOURNAL = None;
  cp_applied : applied s;
  cp_agree : agree area s0 s }.

Lemma ver_below_d id q : at_or_below (ver d id) q -> exists rest, q = d ++ "versions" :: id :: rest.
Proof.
  intros [rest ->]%below_spec. exists rest. unfold ver, join. by rewrite <- !app_assoc.
Qed.

Lemma below_stage_inv q : at_or_below stage q -> exists rest, q = d ++ pb_stage r :: rest.
Proof. apply below_join_inv. Qed.

(** The work area is apart from the directory itself, the journal and the stage. *)
Lemma work_apart q :
  work d r q -> q <> d /\ q <> join d JOURNAL /\ ~ private d q.
Proof.
  intros Hw.
  assert (forall n rest, q = d ++ n :: rest -> n <> JOURNAL -> stage_name n = false ->
    q <> d /\ q <> join d JOURNAL /\ ~ private d q) as Hgen.
  { intros n rest -> Hj Hn. split_and!.
    - intros Heq%(f_equal length). rewrite length_app in Heq. simpl in Heq. lia.
    - intros Heq. apply app_inv_head in Heq. congruence.
    - intros (n' & Hn' & [rest' Heq]%below_join_inv). apply app_inv_head in Heq. congruence. }
  destruct Hw as [[_ [-> | ->]]|[(id & _ & [rest ->]%ver_below_d)|[_ ->]]].
  - by apply (Hgen BLOB []).
  - by apply (Hgen META []).
  - by apply (Hgen "versions" (id :: rest)).
  - by apply (Hgen "versions" []).
Qed.

Lemma stage_private q : valid -> at_or_below stage q -> private d q.
Proof. intros Hv Hq. exists (pb_stage r). split; [by apply v_stage|done]. Qed.

Lemma work_touched q : work d r q -> touched d r q \/ X q.
Proof. by left; right; right. Qed.

(** A step inside the work area leaves the publication decided. *)
Lemma decided_step Y s s' :
  valid -> decided s -> agree Y s s' -> shape d s' -> (forall q, Y q -> work d r q) -> decided s'.
Proof.
  intros Hv Hd Ha Hsh HY. pose proof (v_stage Hv) as Hst.
  assert (forall q e, scratch q = false -> q = d \/ q = join d JOURNAL \/ at_or_below stage q ->
    s !! q = Some e -> s' !! q = Some e) as Hkeep.
  { intros q e Hsc Hq He. eapply agree_lookup; [exact Ha|done| |done].
    intros (H1 & H2 & H3)%HY%work_apart.
    destruct Hq as [?|[?|?%stage_private]]; done. }
  split.
  - apply Ha, Hd.
  - apply is_dir_true, Hkeep; [|by left|apply is_dir_true, Hd].
    eapply dir_not_scratch; [apply Hd|apply Hd].
  - done.
  - apply Hkeep; [apply scratch_journal|by right; left|apply Hd].
  - apply Hkeep; [by apply stage_not_scratch|right; right; apply below_refl|apply Hd].
  - intros Hp. destruct (dc_staged s Hd Hp). split;
      (apply Hkeep; [apply scratch_blob || apply scratch_meta|right; right; apply below_blob|done]).
  - eapply agree_trans; [apply Hd|]. eapply agree_weaken; [|exact Ha].
    intros q Hq. by apply work_touched, HY.
Qed.

Lemma gone_step Y p s s' :
  agree Y s s' -> ~ Y (join p BLOB) -> ~ Y (join p META) -> gone p s -> gone p s'.
Proof.
  intros Ha HB HM [G1 G2]. split.
  - by rewrite (agree_at _ _ _ Ha _ (scratch_blob p) HB).
  - by rewrite (agree_at _ _ _ Ha _ (scratch_meta p) HM).
Qed.

Lemma ver_apart id id' n : id <> id' -> ~ at_or_below (ver d id') (join (ver d id) n).
Proof.
  intros Hn Hb. unfold at_or_below in Hb.
  assert (below (ver d id) (join (ver d id) n) = true) as Hb' by apply below_join.
  apply (below_join_ne _ _ id') in Hb'; [|done]. unfold ver in Hb, Hb'. congruence.
Qed.

Lemma ver_ne_d id : ver d id <> d.
Proof.
  unfold ver, join. intros Heq%(f_equal length). rewrite !length_app in Heq. simpl in Heq. lia.
Qed.

Lemma ver_not_public id n : ~ at_or_below (ver d id) (join d n).
Proof.
  intros [rest Heq]%ver_below_d. apply app_inv_head in Heq. discriminate Heq.
Qed.

(** *** Rewriting the history *)

Lemma not_publish_when : valid -> pb_clear_current r = true \/ pb_marker r <> None -> pb_publish r = false.
Proof.
  intros Hv Hc. destruct (pb_publish r) eqn:Hp; [|done].
  destruct (v_publish Hv Hp). destruct Hc; congruence.
Qed.

(** The body of a publication is in place. *)
Definition body_in (s : fs) : Prop :=
  pb_publish r = true -> s !! join d BLOB = Some (File b) /\ s !! join d META = Some (File j).

Lemma body_in_step Y s s' :
  agree Y s s' -> (forall n, ~ Y (join d n)) -> body_in s -> body_in s'.
Proof.
  intros Ha HY Hb Hp. destruct (Hb Hp) as [H1 H2]. split.
  - by rewrite (agree_at _ _ _ Ha _ (scratch_blob d) (HY _)).
  - by rewrite (agree_at _ _ _ Ha _ (scratch_meta d) (HY _)).
Qed.

Lemma wp_retire_versions Q E C s :
  valid -> decided s -> body_in s ->
  (forall s', decided s' -> body_in s' ->
     (forall id, id ∈ pb_remove_versions r -> gone (ver d id) s') -> Q tt s') ->
  (forall s', decided s' -> fails E C s') ->
  wp m (for_each (retire_version d) (pb_remove_versions r)) Q E C s.
Proof.
  intros Hv Hd Hb HQ HF.
  apply (wp_for_each _ _ (fun rest s' => decided s' /\ body_in s' /\
    exists before, pb_remove_versions r = before ++ rest /\ forall id, id ∈ before -> gone (ver d id) s')).
  - split_and!; [done|done|]. exists []. split; [done|]. by intros id ?%elem_of_nil.
  - intros id rest s1 (Hd1 & Hb1 & before & Heq & Hgone).
    assert (id ∈ pb_remove_versions r) as Hin by (rewrite Heq; set_solver).
    destruct (v_ids Hv id Hin) as [Hvid Hsc].
    assert (forall q, at_or_below (ver d id) q -> work d r q) as Hwork.
    { intros q Hq. right; left. exists id. split; [by left|done]. }
    apply wp_retire_version; [apply Hd1|apply Hd1|done|done|..].
    + intros s2 Ha Hsh Hnone. split_and!.
      * by eapply decided_step.
      * eapply body_in_step; [exact Ha|apply ver_not_public|done].
      * exists (before ++ [id]). rewrite <- app_assoc. split; [done|].
        intros id' [Hi|Hi]%elem_of_app.
        -- destruct (decide (id' = id)) as [->|Hne]; [by split; apply Hnone, below_join|].
           eapply gone_step; [exact Ha|by apply ver_apart..|by apply Hgone].
        -- apply list_elem_of_singleton in Hi as ->. by split; apply Hnone, below_join.
    + intros s2 Ha Hsh. apply HF. by eapply decided_step.
  - intros s1 (Hd1 & Hb1 & before & Heq & Hgone). rewrite app_nil_r in Heq. apply HQ; [done|done|].
    intros id Hi. apply Hgone. by rewrite <- Heq.
Qed.

Lemma wp_apply_marker Q E C s :
  valid -> decided s -> body_in s ->
  (forall id, id ∈ pb_remove_versions r -> gone (ver d id) s) ->
  (forall s', decided s' -> body_in s' ->
     (forall id, id ∈ pb_remove_versions r -> marker_id r <> Some id -> gone (ver d id) s') ->
     (forall mk id, pb_marker r = Some mk -> o_version_id mk = Some id ->
        s' !! join (ver d id) BLOB = Some (File []) /\
        s' !! join (ver d id) META = Some (File (encode_object mk))) -> Q tt s') ->
  (forall s', decided s' -> fails E C s') ->
  wp m (match pb_marker r with Some marker => publish_marker d marker | None => mret tt end) Q E C s.
Proof.
  intros Hv Hd Hb Hgone HQ HF. destruct (pb_marker r) as [mk|] eqn:Hmk.
  - destruct (v_marker Hv mk Hmk) as (_ & _ & _ & id & Hid & Hvid & Hsc).
    assert (marker_id r = Some id) as Hmid by (unfold marker_id; by rewrite Hmk).
    assert (forall q, marker_area d id q -> work d r q) as Hwork.
    { intros q [Hq| ->]; [|right; right; split; [congruence|done]].
      right; left. exists id. split; [by right|done]. }
    assert (forall n, ~ marker_area d id (join d n) \/ n = "versions") as Hpub.
    { intros n. destruct (decide (n = "versions")); [by right|left].
      intros [?%ver_not_public|?%join_inj]; naive_solver. }
    eapply wp_publish_marker; [apply Hd..|done|done|done| |].
    + intros s' Ha Hsh HB HM. apply HQ; [by eapply decided_step| | |].
      * intros Hp. destruct (Hb Hp) as [H1 H2]. split.
        -- rewrite (agree_at _ _ _ Ha _ (scratch_blob d)); [done|]. by destruct (Hpub BLOB).
        -- rewrite (agree_at _ _ _ Ha _ (scratch_meta d)); [done|]. by destruct (Hpub META).
      * intros id' Hin Hne. assert (id' <> id) by congruence.
        assert (forall n, ~ marker_area d id (join (ver d id') n)) as Hno.
        { intros n [Hbe|Heq]; [by apply (ver_apart id' id n)|]. apply join_inj in Heq as [Heq _].
          by apply (ver_ne_d id'). }
        eapply gone_step; [exact Ha|apply Hno..|by apply Hgone].
      * intros mk' id' [= <-] Hid'. by simplify_eq.
    + intros s' Ha Hsh. apply HF. by eapply decided_step.
  - apply wp_ret, HQ; [done|done|by auto|done].
Qed.

Lemma wp_clear_current Q E C s :
  valid -> decided s -> body_in s ->
  (forall s', decided s' -> body_in s' -> (pb_clear_current r = true -> gone d s') ->
     (forall p n, p <> d -> scratch (join p n) = false -> s' !! join p n = s !! join p n) -> Q tt s') ->
  (forall s', decided s' -> fails E C s') ->
  wp m (if pb_clear_current r then for_each (clear_public_file d) [BLOB; META] else mret tt) Q E C s.
Proof.
  intros Hv Hd Hb HQ HF. destruct (pb_clear_current r) eqn:Hc; [|by apply wp_ret, HQ].
  assert (pb_publish r = false) as Hp by (apply not_publish_when; auto).
  assert (forall n, n = BLOB \/ n = META -> forall q, at_path (join d n) q -> work d r q) as Hwork.
  { intros n Hn q ->. left. rewrite Hc, orb_true_r. split; [done|]. destruct Hn as [-> | ->]; auto. }
  assert (forall n, n = BLOB \/ n = META -> file_path d (join d n)) as Hfp.
  { intros n [-> | ->]; [by left|by right; left]. }
  assert (forall n p n' s1 s2, agree (at_path (join d n)) s1 s2 -> p <> d ->
    scratch (join p n') = false -> s2 !! join p n' = s1 !! join p n') as Hother.
  { intros n p n' s1 s2 Ha Hpd Hs. apply (agree_at _ _ _ Ha); [done|]. intros [? _]%join_inj. done. }
  simpl. apply wp_bind, wp_clear_public_file; [apply Hd..|by apply Hfp; left| |].
  2:{ intros s1 Ha Hsh. apply HF. eapply decided_step; [done|exact Hd|done|done|apply Hwork; auto]. }
  intros s1 Ha1 Hsh1 Hn1. assert (decided s1) as Hd1
    by (eapply decided_step; [done|exact Hd|done|done|apply Hwork; auto]).
  apply wp_bind, wp_clear_public_file; [apply Hd1..|by apply Hfp; right| |].
  2:{ intros s2 Ha Hsh. apply HF. eapply decided_step; [done|exact Hd1|done|done|apply Hwork; auto]. }
  intros s2 Ha2 Hsh2 Hn2. assert (decided s2) as Hd2
    by (eapply decided_step; [done|exact Hd1|done|done|apply Hwork; auto]).
  apply wp_ret, HQ; [done|by intros ?; congruence| |].
  - intros _. split; [|done]. rewrite (agree_at _ _ _ Ha2); [done|apply scratch_blob|].
    unfold at_path. rewrite join_inj. by intros [_ ?].
  - intros p n Hpd Hs. rewrite (Hother META _ _ _ _ Ha2), (Hother BLOB _ _ _ _ Ha1); done.
Qed.

Lemma wp_apply_history_changes Q E C s :
  valid -> decided s -> body_in s ->
  (forall s', decided s' -> applied s' -> Q tt s') ->
  (forall s', decided s' -> fails E C s') ->
  wp m (apply_history_changes d r) Q E C s.
Proof.
  intros Hv Hd Hb HQ HF. unfold apply_history_changes.
  apply wp_bind, wp_retire_versions; [done..| |done]. intros s1 Hd1 Hb1 Hg1.
  apply wp_bind, wp_apply_marker; [done..| |done]. intros s2 Hd2 Hb2 Hg2 Hm2.
  apply wp_clear_current; [done..| |done]. intros s3 Hd3 Hb3 Hg3 Hkeep.
  apply HQ; [done|]. split; [done|done| |].
  - intros id Hin Hne. destruct (Hg2 id Hin Hne) as [G1 G2].
    split; (rewrite Hkeep; [done|apply ver_ne_d|apply scratch_blob || apply scratch_meta]).
  - intros mk id Hmk Hid. destruct (Hm2 mk id Hmk Hid) as [G1 G2].
    split; (rewrite Hkeep; [done|apply ver_ne_d|apply scratch_blob || apply scratch_meta]).
Qed.

(** *** Applying the journal *)

Lemma strip_marker_id : valid -> strip_marker r = r.
Proof.
  intros Hv. unfold strip_marker. destruct r as [st p c ids [mk|]] eqn:Er; simpl; [|done].
  destruct (v_marker Hv mk) as (Hdata & _); [by rewrite Er|].
  do 2 f_equal. unfold strip_data. rewrite <- Hdata. by destruct mk.
Qed.

Lemma validate_ids_ok ids :
  (forall id, id ∈ ids -> validate_version_id id = Ok tt) -> validate_ids ids = Ok tt.
Proof.
  induction ids as [|id ids IH]; intros Hids; [done|]. simpl.
  rewrite (Hids id) by set_solver. apply IH. intros; apply Hids; set_solver.
Qed.

Lemma wp_validate_publication Q E C s :
  valid ->
  (pb_publish r = true -> s !! join stage BLOB = Some (File b) /\ s !! join stage META = Some (File j)) ->
  Q tt s -> fails E C s -> wp m (validate_publication r stage) Q E C s.
Proof.
  intros Hv Hst HQ HF. unfold validate_publication.
  assert (pb_publish r && (pb_clear_current r || is_some (pb_marker r)) = false) as ->.
  { destruct (pb_publish r) eqn:Hp; [|done]. by destruct (v_publish Hv Hp) as [-> ->]. }
  apply wp_bind, wp_ret. apply wp_bind, wp_of_res. rewrite validate_ids_ok.
  2:{ intros id Hid. by apply (v_ids Hv). }
  apply wp_bind, wp_of_res.
  assert (match pb_marker r with Some mk => validate_marker r mk | None => Ok tt end = Ok tt) as ->.
  { destruct (pb_marker r) as [mk|] eqn:Hmk; [|done].
    destruct (v_marker Hv mk Hmk) as (_ & Hsz & Hcl & id & Hid & Hvid & _).
    unfold validate_marker. rewrite Hid. simpl. by rewrite Hvid; simpl; rewrite Hsz, Hcl. }
  destruct (pb_publish r) eqn:Hp; [|by apply wp_ret].
  destruct (Hst eq_refl) as [HB HM]. destruct (v_body Hv Hp) as (o & Hdec & Hsize).
  apply wp_bind. eapply wp_read_file; [done| |done].
  apply wp_bind, wp_of_res. rewrite Hdec. simpl.
  apply wp_bind. eapply wp_file_len; [done| |done].
  rewrite Hsize, N.eqb_refl. by apply wp_ret.
Qed.

(** Publishing the two staged files. *)
Lemma wp_publish_staged Q E C s :
  valid -> decided s ->
  (forall s', decided s' -> body_in s' -> Q tt s') ->
  (forall s', decided s' -> fails E C s') ->
  wp m (if pb_publish r then
          _ ← publish_staged_file (join stage BLOB) (join d BLOB);
          publish_staged_file (join stage META) (join d META)
        else mret tt) Q E C s.
Proof.
  intros Hv Hd HQ HF. destruct (pb_publish r) eqn:Hp; cycle 1.
  { apply wp_ret, HQ; [done|]. by intros ?; congruence. }
  assert (forall n, n = BLOB \/ n = META -> forall q, at_path (join d n) q -> work d r q) as Hwork.
  { intros n Hn q ->. left. rewrite Hp. split; [done|]. destruct Hn as [-> | ->]; auto. }
  assert (forall n, n = BLOB \/ n = META -> file_path d (join d n)) as Hfp.
  { intros n [-> | ->]; [by left|by right; left]. }
  assert (forall n s1, n = BLOB \/ n = META -> shape d s1 -> is_dir (join d n) s1 = false) as Hnd.
  { intros n s1 Hn Hs1. apply not_true_iff_false. rewrite is_dir_true.
    apply (shape_file d s1 Hs1). by apply Hfp. }
  assert (forall n s1 s2, n = BLOB \/ n = META -> decided s1 -> agree (at_path (join d n)) s1 s2 ->
    (s2 !! join d n = s1 !! join d n \/ exists b', s2 !! join d n = Some (File b')) -> decided s2) as Hstep.
  { intros n s1 s2 Hn Hd1 Ha Hnew. eapply decided_step; [done|exact Hd1|exact Ha| |by apply Hwork].
    eapply shape_write; [by apply Hfp|exact Ha| |apply Hd1]. tauto. }
  assert (forall n x s1 (Q1 : unit -> fs -> Prop), n = BLOB \/ n = META -> decided s1 ->
    s1 !! join stage n = Some (File x) ->
    (forall s', agree (at_path (join d n)) s1 s' -> s' !! join d n = Some (File x) -> decided s' -> Q1 tt s') ->
    wp m (publish_staged_file (join stage n) (join d n)) Q1 E C s1) as Hfile.
  { intros n x s1 Q1 Hn Hd1 Hx HQ1.
    apply (wp_publish_staged_file (join stage n) d n x); [apply Hd1|done| |apply Hd1| | |..].
    - destruct Hn as [-> | ->]; [apply scratch_blob|apply scratch_meta].
    - by apply Hnd; [|apply Hd1].
    - destruct Hn as [-> | ->]; [apply scratch_blob|apply scratch_meta].
    - intros s' Ha Hb. apply HQ1; [done..|]. eapply Hstep; eauto.
    - intros s' [Ha Hnew]. apply HF. eapply Hstep; [done|exact Hd1|exact Ha|].
      destruct Hnew as [?|?]; eauto. }
  destruct (dc_staged s Hd Hp) as [HB HM].
  apply wp_bind. eapply Hfile; [by left|done|done|]. intros s1 Ha1 Hb1 Hd1.
  destruct (dc_staged s1 Hd1 Hp) as [_ HM1].
  eapply Hfile; [by right|done|done|]. intros s2 Ha2 Hb2 Hd2.
  apply HQ; [done|]. intros _. split; [|done].
  rewrite (agree_at _ _ _ Ha2); [done|apply scratch_blob|].
  unfold at_path. rewrite join_inj. by intros [_ ?].
Qed.

Lemma complete_step Y s s' :
  valid -> complete s -> agree Y s s' -> s' ⊆ s -> (forall q, Y q -> private d q) -> complete s'.
Proof.
  intros Hv Hc Ha Hsub HY.
  assert (forall q, scratch q = false -> work d r q \/ q = d \/ q = join d JOURNAL -> s' !! q = s !! q) as Hkeep.
  { intros q Hs Hq. apply (agree_at _ _ _ Ha); [done|]. intros Hb%HY.
    destruct Hq as [Hw|[->| ->]].
    - by destruct (work_apart q Hw) as (_ & _ & ?).
    - by destruct (private_apart d d JOURNAL Hb).
    - by destruct (private_apart d (join d JOURNAL) JOURNAL Hb). }
  split.
  - apply Ha, Hc.
  - apply is_dir_true. rewrite Hkeep; [apply is_dir_true, Hc| |by right; left].
    eapply dir_not_scratch; apply Hc.
  - eapply shape_subset; [done|apply Hc].
  - rewrite Hkeep; [apply Hc|apply scratch_journal|by right; right].
  - destruct (cp_applied s Hc) as [A1 A2 A3 A4].
    assert (forall dir, (work d r (join dir BLOB) /\ work d r (join dir META)) -> forall x y,
      s !! join dir BLOB = x /\ s !! join dir META = y -> s' !! join dir BLOB = x /\ s' !! join dir META = y) as Hpair.
    { intros dir [W1 W2] x y [<- <-]. split; (apply Hkeep; [apply scratch_blob || apply scratch_meta|by left]). }
    assert (forall id, rewritten r id -> work d r (join (ver d id) BLOB) /\ work d r (join (ver d id) META)) as Hrew.
    { intros id Hr. split; right; left; exists id; (split; [done|apply below_blob]). }
    split.
    + intros Hp. apply Hpair; [|by apply A1]. split; left; rewrite Hp; auto.
    + intros Hp. apply Hpair; [|by apply A2]. split; left; rewrite Hp, orb_true_r; auto.
    + intros id Hin Hn. apply Hpair; [apply Hrew; by left|by apply A3].
    + intros mk id Hmk Hid. apply Hpair; [apply Hrew; right; unfold marker_id; by rewrite Hmk|by apply A4].
  - eapply agree_trans; [apply Hc|]. eapply agree_weaken; [|exact Ha].
    intros q Hq. right. by apply X_private, HY.
Qed.

Lemma wp_apply_publication Q E C s :
  valid -> decided s ->
  (forall s', complete s' -> s' !! stage = None -> Q tt s') ->
  (forall s', decided s' \/ complete s' -> fails E C s') ->
  wp m (apply_publication d) Q E C s.
Proof.
  intros Hv Hd HQ HF. unfold apply_publication.
  apply wp_bind. eapply wp_read_file; [apply Hd| |by apply HF; left].
  apply wp_bind, wp_of_res. rewrite decode_encode_publication, strip_marker_id by done. simpl.
  rewrite (v_stage Hv). apply wp_bind, wp_ret.
  apply wp_bind, wp_validate_publication; [done|apply Hd| |by apply HF; left].
  apply wp_bind, wp_publish_staged; [done|done| |by intros; apply HF; left].
  intros s1 Hd1 Hb1. apply wp_bind, wp_apply_history_changes; [done..| |by intros; apply HF; left].
  intros s2 Hd2 Hap2. apply wp_bind. eapply wp_remove_file; [apply Hd2| |by apply HF; left].
  assert (complete (delete (join d JOURNAL) s2)) as Hc.
  { assert (agree (at_path (join d JOURNAL)) s2 (delete (join d JOURNAL) s2)) as Ha.
    { eapply agree_delete_file; [done|apply Hd2]. }
    assert (forall dir n, n <> JOURNAL -> delete (join d JOURNAL) s2 !! join dir n = s2 !! join dir n) as Hkeep.
    { intros dir n Hn. apply lookup_delete_ne. rewrite join_inj. naive_solver. }
    split.
    - apply Ha, Hd2.
    - apply is_dir_true. rewrite lookup_delete_ne by apply join_ne_self. apply is_dir_true, Hd2.
    - eapply shape_subset; [apply delete_subseteq|apply Hd2].
    - apply lookup_delete_eq.
    - destruct Hap2 as [A1 A2 A3 A4]. split; intros; unfold gone in *; rewrite !Hkeep by done; auto.
    - eapply agree_trans; [apply Hd2|]. eapply agree_weaken; [|exact Ha]. by left; left. }
  assert (is_Some (delete (join d JOURNAL) s2 !! d)) as Hdir.
  { pose proof (cp_dir _ Hc) as Hx. apply is_dir_true in Hx. by eauto. }
  apply wp_bind, wp_sync_file; [done| |by apply HF; right].
  apply wp_bind, wp_remove_dir_all; [|apply join_ne_nil|..].
  - rewrite lookup_delete_ne; [apply Hd2|]. rewrite join_inj.
    destruct (stage_name_ne _ (v_stage Hv)) as (_ & _ & N3 & _). naive_solver.
  - intros s3 Ha3 Hsub3 _ Hgone3. assert (complete s3) as Hc3
      by (eapply complete_step; eauto using stage_private).
    apply wp_sync_file; [|apply HQ; [done|apply Hgone3, below_refl]|by apply HF; right].
    pose proof (cp_dir _ Hc3) as Hx. apply is_dir_true in Hx. by eauto.
  - intros s3 Ha3 Hsub3 _. apply HF. right. eapply complete_step; eauto using stage_private.
Qed.

(** *** Recovery *)

(** Nothing is decided: the public files are those of [s0]. *)
Record undecided (s : fs) : Prop := mkUndecided {
  un_ok : ok s;
  un_dir : is_dir d s = true;
  un_shape : shape d s;
  un_journal : s !! join d JOURNAL = None;
  un_agree : agree X s0 s }.

Lemma undecided_step Y s s' :
  undecided s -> agree Y s s' -> s' ⊆ s -> (forall q, Y q -> private d q) -> undecided s'.
Proof.
  intros Hu Ha Hsub HY. split.
  - apply Ha, Hu.
  - rewrite (agree_is_dir _ _ _ _ Ha); [apply Hu|eapply dir_not_scratch; apply Hu|].
    intros Hp%HY. by destruct (private_apart d d JOURNAL Hp).
  - eapply shape_subset; [done|apply Hu].
  - destruct (s' !! join d JOURNAL) eqn:Ej; [|done].
    eapply lookup_weaken in Ej; [|done]. by rewrite (un_journal s Hu) in Ej.
  - eapply agree_trans; [apply Hu|]. eapply agree_weaken; [|exact Ha]. auto.
Qed.

(** A status of the directory that survives crashes. *)
Definition in_flight (s : fs) : Prop := undecided s \/ decided s \/ complete s.

Lemma wp_clean_status (P : fs -> Prop) Q E C s :
  ok s -> is_dir d s = true -> shape d s ->
  (forall s', agree (private d) s s' -> s' ⊆ s -> P s') ->
  (forall s', P s' -> clean d s' -> Q tt s') -> (forall s', P s' -> fails E C s') ->
  wp m (clean_uncommitted_stages d) Q E C s.
Proof. intros ??? HP HQ HF. apply wp_clean_uncommitted; auto. Qed.

Lemma journal_absent s : s !! join d JOURNAL = None -> path_exists (join d JOURNAL) s = false.
Proof. intros Hj. by apply path_exists_false. Qed.

Lemma wp_recover_undecided Q E C s :
  undecided s ->
  (forall s', undecided s' -> clean d s' -> Q tt s') -> (forall s', undecided s' -> fails E C s') ->
  wp m (recover_publication d) Q E C s.
Proof.
  intros Hu HQ HF. unfold recover_publication. apply wp_bind, wp_gets.
  pose proof (un_dir s Hu) as Hd. apply is_dir_true in Hd.
  assert (path_exists d s = true) as -> by (apply path_exists_true; by eauto). simpl.
  apply wp_bind, wp_gets. rewrite journal_absent by apply Hu. apply wp_bind, wp_ret.
  apply (wp_clean_status undecided); [apply Hu..| |done|done].
  intros s' Ha Hsub. by eapply undecided_step.
Qed.

Lemma wp_recover_complete Q E C s :
  valid -> complete s ->
  (forall s', complete s' -> clean d s' -> Q tt s') -> (forall s', complete s' -> fails E C s') ->
  wp m (recover_publication d) Q E C s.
Proof.
  intros Hv Hc HQ HF. unfold recover_publication. apply wp_bind, wp_gets.
  pose proof (cp_dir s Hc) as Hd. apply is_dir_true in Hd.
  assert (path_exists d s = true) as -> by (apply path_exists_true; by eauto). simpl.
  apply wp_bind, wp_gets. rewrite journal_absent by apply Hc. apply wp_bind, wp_ret.
  apply (wp_clean_status complete); [apply Hc..| |done|done].
  intros s' Ha Hsub. by eapply complete_step.
Qed.

Lemma wp_recover_decided Q E C s :
  valid -> decided s ->
  (forall s', complete s' -> clean d s' -> Q tt s') ->
  (forall s', decided s' \/ complete s' -> fails E C s') ->
  wp m (recover_publication d) Q E C s.
Proof.
  intros Hv Hd HQ HF. unfold recover_publication. apply wp_bind, wp_gets.
  pose proof (dc_dir s Hd) as Hdir. apply is_dir_true in Hdir.
  assert (path_exists d s = true) as -> by (apply path_exists_true; by eauto). simpl.
  apply wp_bind, wp_gets.
  assert (path_exists (join d JOURNAL) s = true) as ->.
  { apply path_exists_true. rewrite (dc_journal s Hd). by eauto. }
  apply wp_bind, wp_apply_publication; [done|done| |done].
  intros s1 Hc1 _. apply (wp_clean_status complete); [apply Hc1..| |done|auto].
  intros s' Ha Hsub. by eapply complete_step.
Qed.

(** *** Commit *)

Lemma decided_intro s s' :
  valid -> undecided s -> s !! stage = Some Directory ->
  (pb_publish r = true -> s !! join stage BLOB = Some (File b) /\ s !! join stage META = Some (File j)) ->
  agree (at_path (join d JOURNAL)) s s' ->
  s' !! join d JOURNAL = Some (File (encode_publication r)) -> decided s'.
Proof.
  intros Hv Hu Hst Hfiles Ha Hj.
  destruct (stage_name_ne _ (v_stage Hv)) as (_ & _ & N3 & _).
  assert (forall q e, scratch q = false -> q <> join d JOURNAL -> s !! q = Some e -> s' !! q = Some e) as Hkeep.
  { intros q e Hs Hn. by eapply agree_lookup. }
  split.
  - apply Ha, Hu.
  - apply is_dir_true, Hkeep; [eapply dir_not_scratch; apply Hu| |apply is_dir_true, Hu].
    intros Heq. by apply (join_ne_self d JOURNAL).
  - eapply shape_write; [by right; right; left|exact Ha| |apply Hu]. right; right; by eauto.
  - done.
  - apply Hkeep; [apply stage_not_scratch, Hv| |done]. rewrite join_inj. naive_solver.
  - intros Hp. destruct (Hfiles Hp). split; (apply Hkeep;
      [apply scratch_blob || apply scratch_meta|rewrite join_inj; naive_solver|done]).
  - eapply agree_trans; [eapply agree_weaken; [|apply Hu]; by right|].
    eapply agree_weaken; [|exact Ha]. by left; left.
Qed.

Lemma wp_commit_publication Q E C s :
  valid -> undecided s -> s !! stage = Some Directory ->
  (pb_publish r = true -> s !! join stage BLOB = Some (File b) /\ s !! join stage META = Some (File j)) ->
  (forall s', complete s' -> Q tt s') ->
  (forall s', in_flight s' -> fails E C s') ->
  wp m (commit_publication d r) Q E C s.
Proof.
  intros Hv Hu Hst Hfiles HQ HF. unfold commit_publication.
  (* cleaning up and reporting the error *)
  assert (forall e (P : fs -> Prop) s1, m_faults m = true -> ok s1 -> is_dir d s1 = true -> shape d s1 ->
    (forall s', agree (private d) s1 s' -> s' ⊆ s1 -> P s') -> (forall s', P s' -> in_flight s') ->
    wp m (_ ← clean_uncommitted_stages d; fail e) Q E C s1) as Hclean.
  { intros e P s1 Hm H1 H2 H3 HP Hin. apply wp_bind, (wp_clean_status P); [done..| |].
    - intros s' Hs' _. apply wp_fail. by apply HF; auto.
    - intros s' Hs'. apply HF; auto. }
  assert (forall e s1, m_faults m = true -> undecided s1 ->
    wp m (_ ← clean_uncommitted_stages d; fail e) Q E C s1) as Hundo.
  { intros e s1 Hm Hu1. apply (Hclean e undecided); [done|apply Hu1..| |by left].
    intros s' Ha Hsub. by eapply undecided_step. }
  apply wp_bind, wp_attempt.
  apply (wp_mono _ (fun _ s' => s' = s) _ (fun _ s' => m_faults m = true /\ s' = s) _
                   (fun s' => m_faults m = true /\ s' = s)).
  { apply wp_validate_publication; [done|done|done|]. by apply (fails_both (fun s' => s' = s)). }
  2:{ intros e s' [Hm ->]. by apply Hundo. }
  2:{ intros s' [Hm ->]. by apply HF; [left|]. }
  intros [] s' ->. apply wp_bind, wp_attempt.
  apply (wp_mono _ (fun _ s' => complete s') _ (fun _ s' => m_faults m = true /\ in_flight s') _
                   (fun s' => m_faults m = true /\ in_flight s')).
  - apply wp_bind, wp_atomic_write;
      [apply Hu|rewrite parent_join; apply Hu| |apply join_ne_nil|apply scratch_journal|..].
    + unfold is_dir. by rewrite (un_journal s Hu).
    + intros s1 Ha1 Hj1. assert (decided s1) as Hd1 by by eapply decided_intro.
      apply wp_apply_publication; [done|done|done|].
      intros s2 Hs2. apply fails_both. right. tauto.
    + intros s1 [Ha1 [Hj1|Hj1]]; apply fails_both.
      * left. rewrite (un_journal s Hu) in Hj1. split; [apply Ha1, Hu| | |done|].
        -- rewrite (agree_is_dir _ _ _ _ Ha1); [apply Hu|eapply dir_not_scratch; apply Hu|].
           intros Heq. by apply (join_ne_self d JOURNAL).
        -- eapply shape_write; [by right; right; left|exact Ha1|by left|apply Hu].
        -- split; [|intros Hok; by apply Ha1, Hu]. intros q Hs Hx.
           destruct (decide (q = join d JOURNAL)) as [->|Hn].
           ++ rewrite Hj1, <- (un_journal s Hu). by apply (agree_at _ _ _ (un_agree s Hu)).
           ++ rewrite (agree_at _ _ _ Ha1) by done. by apply (agree_at _ _ _ (un_agree s Hu)).
      * right; left. by eapply decided_intro.
  - intros [] s1 Hc1. by apply wp_ret, HQ.
  - intros e s1 [Hm Hin]. apply wp_bind, wp_gets. destruct Hin as [Hu1|[Hd1|Hc1]].
    + rewrite journal_absent by apply Hu1. by apply Hundo.
    + assert (path_exists (join d JOURNAL) s1 = true) as ->.
      { apply path_exists_true. rewrite (dc_journal s1 Hd1). by eauto. }
      apply wp_map_fail, wp_recover_decided; [done|done|by intros; apply HQ|].
      intros s2 Hs2 _. split; [intros e'|]; apply HF; try done; right; tauto.
    + rewrite journal_absent by apply Hc1.
      apply (Hclean e complete); [done|apply Hc1..| |by right; right].
      intros s' Ha Hsub. by eapply complete_step.
  - intros s1 [Hm Hin]. by apply HF.
Qed.

(** *** The generation a reader sees *)

Definition pair_at (s : fs) (p : path) : option entry * option entry :=
  (s !! join p BLOB, s !! join p META).

(** The current pair and the history entries a record asks for. *)
Definition target_current : option entry * option entry :=
  if pb_publish r then (Some (File b), Some (File j))
  else if pb_clear_current r then (None, None) else pair_at s0 d.
Definition target_version (id : string) : option entry * option entry :=
  match pb_marker r with
  | Some mk => if eqb (o_version_id mk) (Some id)
               then (Some (File []), Some (File (encode_object mk)))
               else if bool_decide (id ∈ pb_remove_versions r) then (None, None)
               else pair_at s0 (ver d id)
  | None => if bool_decide (id ∈ pb_remove_versions r) then (None, None)
            else pair_at s0 (ver d id)
  end.

Definition new_generation (s : fs) : Prop :=
  pair_at s d = target_current /\ forall id, pair_at s (ver d id) = target_version id.
Definition old_generation (s : fs) : Prop :=
  pair_at s d = pair_at s0 d /\ forall id, pair_at s (ver d id) = pair_at s0 (ver d id).

(** What the caller changes inside the directory is private. *)
Hypothesis X_inside : forall q, X q -> below d q = true -> private d q \/ q = d.

Lemma public_not_X p n : (p = d \/ exists id, p = ver d id) -> n = BLOB \/ n = META -> ~ X (join p n).
Proof.
  intros Hp Hn Hx.
  assert (exists n' rest, join p n = d ++ n' :: rest /\ stage_name n' = false) as (n' & rest & Heq & Hs).
  { destruct Hp as [->|[id ->]].
    - exists n, []. split; [done|]. by destruct Hn as [-> | ->].
    - exists "versions", [id; n]. split; [|done]. unfold ver, join. by rewrite <- !app_assoc. }
  apply X_inside in Hx as [(n2 & Hn2 & [rest' Heq']%below_join_inv)|Hx].
  - rewrite Heq in Heq'. apply app_inv_head in Heq'. congruence.
  - rewrite Heq in Hx. apply (f_equal length) in Hx. rewrite length_app in Hx. simpl in Hx. lia.
  - apply below_spec. by eauto.
Qed.

Lemma pair_kept Y s p :
  agree Y s0 s -> (forall n, n = BLOB \/ n = META -> ~ Y (join p n)) -> pair_at s p = pair_at s0 p.
Proof.
  intros Ha Hn. unfold pair_at. f_equal; (apply (agree_at _ _ _ Ha);
    [apply scratch_blob || apply scratch_meta|apply Hn; auto]).
Qed.

Lemma undecided_old s : agree X s0 s -> old_generation s.
Proof.
  intros Ha. split.
  - eapply pair_kept; [exact Ha|]. intros n Hn. apply public_not_X; auto.
  - intros id. eapply pair_kept; [exact Ha|]. intros n Hn. apply public_not_X; eauto.
Qed.

Lemma public_not_stage p n :
  valid -> (p = d \/ exists id, p = ver d id) -> n = BLOB \/ n = META ->
  join p n <> join d JOURNAL /\ ~ at_or_below stage (join p n).
Proof.
  intros Hv Hp Hn. destruct (stage_name_ne _ (v_stage Hv)) as (N1 & N2 & N3 & N4).
  assert (exists n' rest, join p n = d ++ n' :: rest /\ n' <> JOURNAL /\ n' <> pb_stage r)
    as (n' & rest & -> & Hj & Hs).
  { destruct Hp as [->|[id ->]].
    - exists n, []. split; [done|]. destruct Hn as [-> | ->]; (split; [done|congruence]).
    - exists "versions", [id; n]. split; [unfold ver, join; by rewrite <- !app_assoc|]. split; [done|congruence]. }
  split.
  - intros Heq. apply app_inv_head in Heq. congruence.
  - intros [rest' Heq]%below_stage_inv. apply app_inv_head in Heq. congruence.
Qed.

Lemma complete_new s : valid -> complete s -> new_generation s.
Proof.
  intros Hv Hc. destruct (cp_applied s Hc) as [A1 A2 A3 A4]. split.
  - unfold target_current, pair_at. destruct (pb_publish r) eqn:Hp.
    { by destruct (A1 eq_refl) as [-> ->]. }
    destruct (pb_clear_current r) eqn:Hcl; [by destruct (A2 eq_refl) as [-> ->]|].
    eapply pair_kept; [apply Hc|]. intros n Hn [[Hj|[Hs|Hw]]|Hx].
    + by destruct (public_not_stage d n Hv (or_introl eq_refl) Hn).
    + by destruct (public_not_stage d n Hv (or_introl eq_refl) Hn).
    + destruct Hw as [[Hb _]|[(id & _ & Hb%ver_not_public)|[_ Hb]]];
        [by rewrite Hp, Hcl in Hb|done|].
      apply join_inj in Hb as [_ ->]. by destruct Hn.
    + revert Hx. apply public_not_X; auto.
  - intros id.
    assert (~ rewritten r id -> pair_at s (ver d id) = pair_at s0 (ver d id)) as Hkept.
    { intros Hr. eapply pair_kept; [apply Hc|]. intros n Hn [[Hj|[Hs|Hw]]|Hx].
      - by destruct (public_not_stage (ver d id) n Hv (or_intror (ex_intro _ id eq_refl)) Hn).
      - by destruct (public_not_stage (ver d id) n Hv (or_intror (ex_intro _ id eq_refl)) Hn).
      - destruct Hw as [[_ [Hb|Hb]]|[(id' & Hr' & Hb)|[_ Hb]]].
        + apply join_inj in Hb as [Hb _]. by apply (ver_ne_d id).
        + apply join_inj in Hb as [Hb _]. by apply (ver_ne_d id).
        + destruct (decide (id = id')) as [->|Hne]; [done|]. by apply (ver_apart id id' n).
        + apply join_inj in Hb as [Hb _]. by apply (ver_ne_d id).
      - revert Hx. apply public_not_X; eauto. }
    assert (marker_id r <> Some id -> pair_at s (ver d id) =
      if bool_decide (id ∈ pb_remove_versions r) then (None, None) else pair_at s0 (ver d id)) as Hplain.
    { intros Hm. case_bool_decide as Hin.
      - destruct (A3 id Hin Hm) as [G1 G2]. unfold pair_at. by rewrite G1, G2.
      - apply Hkept. by intros [?|?]. }
    unfold target_version. destruct (pb_marker r) as [mk|] eqn:Hmk.
    + destruct (eqb (o_version_id mk) (Some id)) eqn:Eid.
      * rewrite eqb_true in Eid. destruct (A4 mk id eq_refl Eid) as [G1 G2]. unfold pair_at. by rewrite G1, G2.
      * rewrite eqb_false in Eid. apply Hplain. unfold marker_id. rewrite Hmk. done.
    + apply Hplain. unfold marker_id. by rewrite Hmk.
Qed.

End Decision.
