(* ===== verification/ConcreteEnv.v ===== *)
(** * ConcreteEnv: an environment on which the definitions compute

    An instance of [Env] and its laws: hyphenated hexadecimal identifiers, the
    listing order of the file map, readable injective names for the hashes, and
    codecs for the stored records.  The examples and witnesses of the
    development run on it. *)

From Stdlib Require Import Ascii Strings.Byte.
From stdpp Require Import countable pretty.
From S2P Require Import Prelude Text Models FsModel Publication FileFacts.

(** ** Bytes of a positive number, one bit per byte *)

Fixpoint bytes_of_pos (p : positive) : bytes :=
  match p with
  | xH => []
  | xO q => x00 :: bytes_of_pos q
  | xI q => x01 :: bytes_of_pos q
  end.
Fixpoint pos_of_bytes (b : bytes) : option positive :=
  match b with
  | [] => Some xH
  | x00 :: b' => xO <$> pos_of_bytes b'
  | x01 :: b' => xI <$> pos_of_bytes b'
  | _ :: _ => None
  end.

Lemma pos_of_bytes_of_pos p : pos_of_bytes (bytes_of_pos p) = Some p.
Proof. induction p as [p IH|p IH|]; simpl; [by rewrite IH..|done]. Qed.

Definition to_bytes {A} `{Countable A} (a : A) : bytes := bytes_of_pos (encode a).
Definition of_bytes {A} `{Countable A} (b : bytes) : option A := pos_of_bytes b ≫= decode.

Lemma of_to_bytes {A} `{Countable A} (a : A) : of_bytes (to_bytes a) = Some a.
Proof. unfold of_bytes, to_bytes. rewrite pos_of_bytes_of_pos. simpl. apply decode_encode. Qed.

(** ** The records are countable *)

#[export] Instance byte_countable : Countable Byte.byte.
Proof.
  refine (inj_countable Byte.to_nat Byte.of_nat _). intros x. apply Byte.of_to_nat.
Defined.

#[export] Instance CannedAcl_countable : Countable CannedAcl.
Proof.
  refine (inj_countable'
    (fun c => match c with Private => 0 | PublicRead => 1 | PublicReadWrite => 2
              | AuthenticatedRead => 3 | BucketOwnerRead => 4 | BucketOwnerFullControl => 5 end)
    (fun n => match n with 0 => Private | 1 => PublicRead | 2 => PublicReadWrite
              | 3 => AuthenticatedRead | 4 => BucketOwnerRead | _ => BucketOwnerFullControl end) _).
  by intros [].
Defined.

#[export] Instance Permission_countable : Countable Permission.
Proof.
  refine (inj_countable'
    (fun c => match c with PermRead => 0 | PermWrite => 1 | PermReadAcp => 2
              | PermWriteAcp => 3 | PermFullControl => 4 end)
    (fun n => match n with 0 => PermRead | 1 => PermWrite | 2 => PermReadAcp
              | 3 => PermWriteAcp | _ => PermFullControl end) _).
  by intros [].
Defined.

#[export] Instance Grantee_countable : Countable Grantee.
Proof.
  refine (inj_countable'
    (fun g => match g with CanonicalUser i n => inl (i, n) | Group u => inr u end)
    (fun x => match x with inl (i, n) => CanonicalUser i n | inr u => Group u end) _).
  by intros [].
Defined.

#[export] Instance Grant_countable : Countable Grant.
Proof.
  refine (inj_countable' (fun g => (grantee g, permission g)) (fun x => mkGrant x.1 x.2) _).
  by intros [].
Defined.

#[export] Instance Acl_countable : Countable Acl.
Proof.
  refine (inj_countable' (fun a => (canned a, grants a)) (fun x => mkAcl x.1 x.2) _).
  by intros [].
Defined.

#[export] Instance Object_countable : Countable Object.
Proof.
  refine (inj_countable'
    (fun o => (o_key o, o_data o, o_size o, o_etag o, o_content_type o, o_last_modified o,
               o_version_id o, o_storage_class o, o_metadata o, o_tags o, o_acl o,
               o_provider_metadata o))
    (fun '(k, d, s, e, c, l, v, sc, m, t, a, p) => mkObject k d s e c l v sc m t a p) _).
  by intros [].
Defined.

#[export] Instance Publication_eq_dec : EqDecision Publication.
Proof. solve_decision. Defined.
#[export] Instance Publication_countable : Countable Publication.
Proof.
  refine (inj_countable'
    (fun r => (pb_stage r, pb_publish r, pb_clear_current r, pb_remove_versions r, pb_marker r))
    (fun '(s, p, c, v, k) => mkPublication s p c v k) _).
  by intros [].
Defined.

(** ** Identifiers *)

Definition hex_digit (n : N) : ascii := ascii_of_N (if (n <? 10)%N then 48 + n else 87 + n).
Definition is_hex (a : ascii) : bool :=
  let n := N_of_ascii a in
  ((48 <=? n) && (n <=? 57) || (97 <=? n) && (n <=? 102))%N.

(** [k] hexadecimal digits of [n], then [rest]. *)
Fixpoint hex_digits (k : nat) (n : N) (rest : string) : string :=
  match k with
  | O => rest
  | S k' => hex_digits k' (n / 16) (String (hex_digit (n mod 16)) rest)
  end.

(** The hyphenated form, 8-4-4-4-12, with the number in the last group. *)
Definition hyphenated (n : N) : string := "00000000-0000-4000-8000-" +:+ hex_digits 12 n "".

(** Characters of the hyphenated form; the last one is a digit. *)
Fixpoint all_chars (p : ascii -> bool) (s : string) : bool :=
  match s with EmptyString => true | String a s' => p a && all_chars p s' end.
Fixpoint last_char (s : string) : option ascii :=
  match s with
  | EmptyString => None
  | String a EmptyString => Some a
  | String _ s' => last_char s'
  end.
Definition uuid_chars (a : ascii) : bool := is_hex a || eqb a "-"%char.
Definition is_hyphenated (s : string) : bool :=
  Nat.eqb (String.length s) 36 && all_chars uuid_chars s && is_some_and is_hex (last_char s).

(** Two digits per byte. *)
Fixpoint hex_text (s : string) : string :=
  match s with
  | EmptyString => EmptyString
  | String a s' =>
      String (hex_digit (N_of_ascii a / 16 mod 16)) (String (hex_digit (N_of_ascii a mod 16)) (hex_text s'))
  end.

(** ** The instance *)

Definition concrete_env : Env := {|
  uuid_text := hyphenated;
  uuid_valid := is_hyphenated;
  dir_order := id;
  hash_pair_hex b k := hex_text b +:+ "-" +:+ hex_text k;
  sha256_hex := hex_text;
  encode_object o := to_bytes (strip_data o);
  decode_object := of_bytes;
  encode_publication r := to_bytes (strip_marker r);
  decode_publication := of_bytes |}.

(** ** Its laws *)

Lemma is_hex_digit n : (n < 16)%N -> is_hex (hex_digit n) = true.
Proof.
  intros Hn.
  assert (n ∈ (N.of_nat <$> seq 0 16)) as Hin.
  { apply list_elem_of_fmap. exists (N.to_nat n). rewrite N2Nat.id. split; [done|].
    apply elem_of_seq. lia. }
  clear Hn. revert n Hin. apply list.Forall_forall. vm_compute. repeat constructor.
Qed.

Lemma mod16_lt n : (n mod 16 < 16)%N.
Proof. by apply N.mod_lt. Qed.

Lemma hex_digits_chars k n rest :
  all_chars uuid_chars (hex_digits k n rest) = all_chars uuid_chars rest.
Proof.
  revert n rest. induction k as [|k IH]; intros n rest; simpl; [done|]. rewrite IH. simpl.
  unfold uuid_chars at 1. by rewrite is_hex_digit by apply mod16_lt.
Qed.

Lemma hex_digits_length k n rest : String.length (hex_digits k n rest) = k + String.length rest.
Proof.
  revert n rest. induction k as [|k IH]; intros n rest; simpl; [done|]. rewrite IH. simpl. lia.
Qed.

Lemma hex_digits_last k n a rest : last_char (hex_digits k n (String a rest)) = last_char (String a rest).
Proof. revert n a rest. induction k as [|k IH]; intros n a rest; simpl; [done|]. by rewrite IH. Qed.

Lemma all_chars_app p s t : all_chars p (s +:+ t) = all_chars p s && all_chars p t.
Proof. induction s as [|a s IH]; [done|]. rewrite Text.app_cons. simpl. by rewrite IH, andb_assoc. Qed.

Lemma last_char_app s a t : last_char (s +:+ String a t) = last_char (String a t).
Proof.
  induction s as [|b s IH]; [done|]. rewrite Text.app_cons. rewrite <- IH.
  destruct s; [done|]. by rewrite Text.app_cons.
Qed.

Lemma hex_digits_cons k n a rest : exists b t, hex_digits k n (String a rest) = String b t.
Proof. revert n a rest. induction k as [|k IH]; intros n a rest; simpl; [by eauto|]. apply IH. Qed.

Lemma hyphenated_valid n : is_hyphenated (hyphenated n) = true.
Proof.
  unfold is_hyphenated, hyphenated. rewrite !andb_true_iff. split_and!.
  - rewrite Text.length_app, hex_digits_length. done.
  - rewrite all_chars_app, hex_digits_chars. done.
  - apply is_some_and_true. exists (hex_digit (n mod 16)). split; [|apply is_hex_digit, mod16_lt].
    change (hex_digits 12 n "") with (hex_digits 11 (n / 16) (String (hex_digit (n mod 16)) "")).
    pose proof (hex_digits_last 11 (n / 16) (hex_digit (n mod 16)) "") as Hl.
    destruct (hex_digits_cons 11 (n / 16) (hex_digit (n mod 16)) "") as (a & t & Heq).
    rewrite Heq in *. rewrite last_char_app. done.
Qed.

(** Text made of these characters is one path component. *)
Lemma split_no_slash s : all_chars uuid_chars s = true -> Text.split "/"%char s = [s].
Proof.
  induction s as [|a s IH]; [done|]. simpl. intros [Ha Hs]%andb_true_iff.
  destruct (eqb a "/"%char) eqn:E; [by apply eqb_true in E as ->|]. by rewrite IH.
Qed.

Lemma no_separator s : all_chars uuid_chars s = true -> has_separator s = false.
Proof.
  unfold has_separator. induction s as [|a s IH]; [done|]. simpl. intros [Ha Hs]%andb_true_iff.
  rewrite IH by done. rewrite orb_false_r.
  destruct (eqb a "/"%char) eqn:E1; [by apply eqb_true in E1 as ->|].
  destruct (eqb a "\"%char) eqn:E2; [by apply eqb_true in E2 as ->|].
  destruct (eqb a "000"%char) eqn:E3; [by apply eqb_true in E3 as ->|]. done.
Qed.

Lemma uuid_component s :
  all_chars uuid_chars s = true -> s <> EmptyString -> validate_version_id s = Ok tt.
Proof.
  intros Hc Hne. unfold validate_version_id, components.
  rewrite split_no_slash, no_separator by done. destruct s as [|a s]; [done|].
  simpl in Hc. apply andb_true_iff in Hc as [Ha _].
  assert (Text.starts_with (String a s) "/" = false) as ->.
  { apply not_true_iff_false. intros [t Ht]%Text.starts_with_spec.
    rewrite Text.app_cons in Ht. by injection Ht as -> _. }
  destruct (eqb (String a s) ".") eqn:E1; [by rewrite eqb_true in E1; injection E1 as -> _|].
  destruct (eqb (String a s) "..") eqn:E2; [by rewrite eqb_true in E2; injection E2 as -> _|].
  reflexivity.
Qed.

Lemma last_char_rev s c : last_char s = Some c -> exists t, String.rev s = String c t.
Proof.
  induction s as [|a s IH]; [done|]. intros Hl.
  change (String a s) with (String a EmptyString +:+ s). rewrite rev_app_distr.
  destruct s as [|b s].
  - injection Hl as ->. by exists EmptyString.
  - destruct (IH Hl) as [t ->]. rewrite Text.app_cons. by eauto.
Qed.

Lemma hyphenated_tail u p : is_hyphenated u = true -> Text.ends_with (p +:+ u) ".tmp" = false.
Proof.
  unfold is_hyphenated. rewrite !andb_true_iff. intros [_ (c & Hl & Hc)%is_some_and_true].
  apply not_true_iff_false. unfold Text.ends_with. rewrite rev_app_distr.
  destruct (last_char_rev u c Hl) as [t ->]. rewrite Text.app_cons.
  intros [x Hx]%Text.starts_with_spec. injection Hx as -> _. done.
Qed.

Lemma hex_text_chars s : all_chars uuid_chars (hex_text s) = true.
Proof.
  induction s as [|a s IH]; [done|]. simpl. rewrite IH.
  unfold uuid_chars. by rewrite !is_hex_digit by apply mod16_lt.
Qed.

Lemma uuid_chars_plain s : all_chars uuid_chars s = true -> Text.contains s "." = false.
Proof.
  intros Hc. apply not_true_iff_false. intros (l & r & ->)%Text.contains_spec.
  rewrite !all_chars_app, !andb_true_iff in Hc. by destruct Hc as (_ & ? & _).
Qed.

Lemma concrete_env_laws : @EnvLaws concrete_env.
Proof.
  split.
  - exact hyphenated_valid.
  - exact hyphenated_tail.
  - intros n. pose proof (hyphenated_valid n) as Hv. unfold is_hyphenated in Hv.
    rewrite !andb_true_iff in Hv. destruct Hv as [[_ Hc] _]. by apply uuid_component.
  - intros n Heq. pose proof (hyphenated_valid n) as Hv. simpl in Heq. by rewrite Heq in Hv.
  - done.
  - intros b k. apply uuid_chars_plain. simpl. by rewrite !all_chars_app, !hex_text_chars.
  - intros o. simpl. rewrite of_to_bytes. done.
  - intros r. simpl. rewrite of_to_bytes. done.
Qed.
