(* ===== verification/PublicationSafety.v ===== *)
(** * PublicationSafety: crash safety of [publish_pair] and [change_history]

    From a settled directory (no decision pending), the two operations leave it
    settled with the old generation, decided, or complete; recovery repeated
    until it returns gives exactly the old or the new generation, and the new
    one if the operation had reported success. *)

From Stdlib Require Import Ascii.
From S2P Require Import Prelude Text Models FsModel Publication FileFacts PublicationFacts.
From S2P Require Import ConcreteEnv.

Section Safety.
Context `{EnvLaws} {m : mode}.
Abbreviation fails := (@fails m).

(** No decision is pending in [d]. *)
Record settled (d : path) (s : fs) : Prop := mkSettled {
  se_ok : ok s;
  se_shape : shape d s;
  se_journal : s !! join d JOURNAL = None;
  se_creatable : creatable d s }.

Lemma dir_creatable d s : ok s -> is_dir d s = true -> creatable d s.
Proof.
  intros Hok Hd q Hq. apply is_dir_true in Hd.
  assert (s !! q = Some Directory) as Hqd.
  { destruct (ok_dir_below s q d _ Hok Hd Hq) as [->|]; done. }
  split; [|congruence]. eapply dir_not_scratch; [done|]. by apply is_dir_true.
Qed.

Lemma creatable_subset d s s' : s' ⊆ s -> creatable d s -> creatable d s'.
Proof.
  intros Hsub Hc q Hq. destruct (Hc q Hq) as [Hs Hf]. split; [done|].
  intros b Hb. apply (Hf b). by eapply lookup_weaken.
Qed.

Lemma settled_step d s s' : settled d s -> agree (private d) s s' -> s' ⊆ s -> settled d s'.
Proof.
  intros Hs Ha Hsub. split.
  - apply Ha, Hs.
  - eapply shape_subset; [done|apply Hs].
  - destruct (s' !! join d JOURNAL) eqn:Ej; [|done].
    eapply lookup_weaken in Ej; [|done]. by rewrite (se_journal d s Hs) in Ej.
  - eapply creatable_subset; [done|apply Hs].
Qed.

Lemma wp_recover_settled d Q E C s :
  settled d s ->
  (forall s', settled d s' -> agree (private d) s s' -> clean d s' -> Q tt s') ->
  (forall s', settled d s' -> agree (private d) s s' -> fails E C s') ->
  wp m (recover_publication d) Q E C s.
Proof.
  intros Hs HQ HF. unfold recover_publication. apply wp_bind, wp_gets.
  destruct (path_exists d s) eqn:Ex; simpl; cycle 1.
  { apply wp_ret, HQ; [done|apply agree_refl|]. apply path_exists_false in Ex.
    intros n _. eapply ok_absent_below; [apply Hs|done|apply below_join]. }
  apply wp_bind, wp_gets. rewrite (proj2 (path_exists_false _ _) (se_journal d s Hs)).
  apply wp_bind, wp_ret.
  assert (is_dir d s = true) as Hd.
  { apply path_exists_true in Ex as [[b|] Hb]; [|by apply is_dir_true].
    destruct (se_creatable d s Hs d (below_refl d)) as [_ Hf]. by destruct (Hf b). }
  apply wp_clean_uncommitted; [apply Hs|done|apply Hs|..]; intros; eauto using settled_step.
Qed.

(** What an operation may change besides the publication itself: private
    files, the spool file it consumes, missing parent directories. *)
Definition caller_area (d : path) (s0 : fs) (input : path -> Prop) (q : path) : Prop :=
  private d q \/ input q \/ below q d = true /\ s0 !! q = None.

(** The spool file is outside the object directory. *)
Definition outside (d : path) (input : path -> Prop) : Prop :=
  forall q, input q -> below d q = false.

Lemma caller_area_inside d s0 input q :
  outside d input -> caller_area d s0 input q -> below d q = true -> private d q \/ q = d.
Proof.
  intros Hout [Hp|[Hi|[Hb _]]] Hd; [by left|by rewrite Hout in Hd|right].
  apply below_spec in Hb as [x Hx]. apply below_spec in Hd as [y Hy]. subst q.
  apply (f_equal length) in Hx as Hl. rewrite !length_app in Hl.
  destruct y; [by rewrite app_nil_r|simpl in Hl; lia].
Qed.

(** Outside the shape's places, anything may change. *)
Lemma shape_out Y d s s' :
  agree Y s s' -> (forall q, Y q -> ~ file_path d q /\ ~ dir_path d q) -> shape d s -> shape d s'.
Proof.
  intros Ha HY Hs. split.
  - intros q Hq. rewrite (agree_at _ _ _ Ha); [by apply (shape_file d s Hs)|by eapply file_path_not_scratch|].
    by intros [? _]%HY.
  - intros q b Hq. rewrite (agree_at _ _ _ Ha); [by apply (shape_dir d s Hs)|by eapply dir_path_not_scratch|].
    by intros [_ ?]%HY.
Qed.

(** Strictly inside the directory. *)
Definition inside (d q : path) : Prop := exists n rest, q = d ++ n :: rest.

Lemma file_path_inside d q : file_path d q -> inside d q.
Proof.
  intros [->|[->|[->|(id & [-> | ->])]]]; unfold inside, ver, join; rewrite <- ?app_assoc.
  - by exists BLOB, [].
  - by exists META, [].
  - by exists JOURNAL, [].
  - by exists "versions", [id; BLOB].
  - by exists "versions", [id; META].
Qed.
Lemma dir_path_inside d q : dir_path d q -> inside d q.
Proof.
  intros [->|[(id & -> & _)|(n & -> & _)]]; unfold inside, ver, join; rewrite <- ?app_assoc.
  - by exists "versions", [].
  - by exists "versions", [id].
  - by exists n, [].
Qed.
Lemma private_inside d q : private d q -> inside d q.
Proof. intros (n & _ & [rest ->]%below_join_inv). by exists n, rest. Qed.

Lemma inside_below d q : inside d q -> below d q = true.
Proof. intros (n & rest & ->). apply below_spec. by eauto. Qed.

Lemma inside_not_above d q : inside d q -> below q d = true -> False.
Proof.
  intros (n & rest & ->) [x Hx]%below_spec. apply (f_equal length) in Hx.
  rewrite !length_app in Hx. simpl in Hx. lia.
Qed.

(** Creating the directory changes nothing inside it. *)
Lemma mkdirs_inside d s s' q : mkdirs d s s' -> inside d q -> s' !! q = s !! q.
Proof.
  intros Hmk Hin. destruct (mkdirs_at _ _ _ Hmk q) as [|(_ & _ & Hb)]; [done|].
  by destruct (inside_not_above d q).
Qed.

Lemma mkdirs_settled d s s' : mkdirs d s s' -> settled d s -> settled d s'.
Proof.
  intros Hmk Hs. split.
  - apply Hmk, Hs.
  - split.
    + intros q Hq. rewrite (mkdirs_inside d s s'); [|done|by apply file_path_inside].
      by apply (shape_file d s (se_shape d s Hs)).
    + intros q b Hq. rewrite (mkdirs_inside d s s'); [|done|by apply dir_path_inside].
      by apply (shape_dir d s (se_shape d s Hs)).
  - rewrite (mkdirs_inside d s s'); [apply Hs|done|by eexists _, []].
  - intros q Hq. destruct (se_creatable d s Hs q Hq) as [Hsc Hf]. split; [done|].
    intros b. destruct (mkdirs_at _ _ _ Hmk q) as [->|(_ & -> & _)]; [apply Hf|done].
Qed.

(** With its parent there, creating a directory adds one entry. *)
Lemma mkdirs_child d n s s' :
  ok s -> is_dir d s = true -> mkdirs (join d n) s s' ->
  s' = s \/ s !! join d n = None /\ s' = <[join d n := Directory]> s.
Proof.
  intros Hok Hd Hmk. apply is_dir_true in Hd.
  assert (forall q, q <> join d n -> s' !! q = s !! q) as Hother.
  { intros q Hq. destruct (mkdirs_at _ _ _ Hmk q) as [|(Hn & _ & Hb)]; [done|].
    apply below_parent in Hb as [Hb|Hb]; [by symmetry in Hb|]. rewrite parent_join in Hb.
    destruct (ok_dir_below s q d _ Hok Hd Hb) as [->|]; congruence. }
  destruct (mkdirs_at _ _ _ Hmk (join d n)) as [Heq|(Hn & Hnew & _)]; [left|right; split; [done|]];
    apply map_eq; intros q; destruct (decide (q = join d n)) as [->|Hne]; rewrite ?lookup_insert_eq; auto.
  rewrite lookup_insert_ne; auto.
Qed.

(** Inside a staging directory there is no public place. *)
Lemma stage_file_out d n x q :
  stage_name n = true -> q = join (join d n) x -> ~ file_path d q /\ ~ dir_path d q.
Proof.
  intros Hn ->. destruct (stage_name_ne _ Hn) as (N1 & N2 & N3 & N4).
  assert (join (join d n) x = d ++ [n; x]) as Heq by (unfold join; by rewrite <- app_assoc).
  rewrite Heq. unfold file_path, dir_path, ver, join. split.
  - intros [Hq|[Hq|[Hq|(id & [Hq|Hq])]]]; rewrite <- ?app_assoc in Hq; apply app_inv_head in Hq; by simplify_eq.
  - intros [Hq|[(id & Hq & _)|(n' & Hq & _)]]; rewrite <- ?app_assoc in Hq; apply app_inv_head in Hq; try congruence.
    all: injection Hq as Hq1 Hq2; congruence.
Qed.

Section Operation.
Variables (d : path) (s0 : fs) (input : path -> Prop).
Hypothesis input_out : outside d input.
Abbreviation X := (caller_area d s0 input).

(** A change by the caller keeps the directory undecided. *)
Lemma undecided_write Y s s' :
  undecided d s0 X s -> agree Y s s' -> (forall q, Y q -> X q) ->
  (forall q, Y q -> ~ file_path d q /\ ~ dir_path d q) -> ~ Y d -> undecided d s0 X s'.
Proof.
  intros Hu Ha HY Hfree Hd. split.
  - apply Ha, Hu.
  - rewrite (agree_is_dir _ _ _ _ Ha); [apply Hu|eapply dir_not_scratch; apply Hu|done].
  - eapply shape_out; [exact Ha|done|apply Hu].
  - rewrite (agree_at _ _ _ Ha); [apply Hu|apply scratch_journal|].
    intros [Hf _]%Hfree. apply Hf. by right; right; left.
  - eapply agree_trans; [apply Hu|]. by eapply agree_weaken.
Qed.

(** A new staging directory exists and is empty. *)
Definition staged (n : string) (s : fs) : Prop :=
  undecided d s0 X s /\ s !! join d n = Some Directory /\
  forall q, below (join d n) q = true -> q <> join d n -> s !! q = None.

(** Status after a failure. *)
Definition idle (s : fs) : Prop := settled d s /\ agree X s0 s.

Lemma undecided_idle s : undecided d s0 X s -> idle s.
Proof.
  intros Hu. split; [|apply Hu]. split; [apply Hu..|]. apply dir_creatable; apply Hu.
Qed.

Lemma wp_prepare {A} (k : string -> io fs A) Q E C :
  settled d s0 ->
  (forall x s, staged (STAGE_PREFIX +:+ uuid_text x) s -> wp m (k (uuid_text x)) Q E C s) ->
  (forall s, idle s -> fails E C s) ->
  wp m (_ ← recover_publication d; _ ← create_directory_durable d; u ← new_uuid;
        _ ← create_directory_durable (join d (STAGE_PREFIX +:+ u)); k u) Q E C s0.
Proof.
  intros Hs Hk HF.
  assert (forall s, agree (private d) s0 s -> agree X s0 s) as Hpr
    by (intros s; apply agree_weaken; by left).
  assert (forall s1 s2, agree (private d) s0 s1 -> creatable d s1 -> mkdirs d s1 s2 -> agree X s0 s2) as Hmkd.
  { intros s1 s2 Ha Hc Hmk. eapply agree_trans; [by apply Hpr|].
    eapply agree_weaken; [|by apply mkdirs_agree].
    intros q [Hb Hn]. right; right. split; [done|]. rewrite <- Hn. symmetry.
    apply (agree_at _ _ _ Ha); [by apply Hc|].
    intros Hp%private_inside. by destruct (inside_not_above d q). }
  apply wp_bind, wp_recover_settled; [done| |intros; apply HF; split; auto].
  intros s1 Hs1 Ha1 Hcl. apply wp_bind, wp_create_directory; [apply Hs1..| |].
  2:{ intros s2 Hmk. apply HF. split; [by eapply mkdirs_settled|].
      eapply Hmkd; [done|apply Hs1|done]. }
  intros s2 Hmk Hd2. apply (mkdirs_settled d s1 s2 Hmk) in Hs1 as Hs2.
  assert (agree X s0 s2) as Ha2 by (eapply Hmkd; [done|apply Hs1|done]).
  apply wp_bind, wp_new_uuid. intros x _.
  set (n := STAGE_PREFIX +:+ uuid_text x).
  assert (stage_name n = true) as Hn by apply stage_name_intro.
  assert (s2 !! join d n = None) as Hnone.
  { rewrite (mkdirs_inside d s1 s2); [apply Hcl; by left|done|]. by exists n, []. }
  assert (undecided d s0 X s2) as Hu2 by (split; [apply Hs2|done|apply Hs2|apply Hs2|done]).
  assert (undecided d s0 X (<[join d n := Directory]> s2)) as Hu3.
  { assert (forall q, q <> join d n -> <[join d n := Directory]> s2 !! q = s2 !! q) as Hkeep
      by (intros q Hq; by rewrite lookup_insert_ne).
    assert (ok (<[join d n := Directory]> s2)) as Hok3.
    { apply ok_insert_dir; [apply Hs2|by apply is_dir_true|by apply stage_not_scratch|done]. }
    split; [done| | | |].
    - apply is_dir_true. rewrite Hkeep; [by apply is_dir_true|]. intros Heq. by apply (join_ne_self d n).
    - split; intros q; destruct (decide (q = join d n)) as [->|Hne].
      + intros Hf. exfalso. eapply file_not_dir; [done|]. right; right. by exists n.
      + rewrite Hkeep by done. apply (shape_file d s2), Hs2.
      + intros b _. by rewrite lookup_insert_eq.
      + rewrite Hkeep by done. apply (shape_dir d s2), Hs2.
    - rewrite Hkeep; [apply Hs2|]. rewrite join_inj.
      destruct (stage_name_ne _ Hn) as (_ & _ & N3 & _). naive_solver.
    - eapply agree_trans; [done|]. split; [|done]. intros q _ Hx. apply Hkeep. intros ->.
      apply Hx. left. exists n. split; [done|apply below_refl]. }
  assert (creatable (join d n) s2) as Hc3.
  { intros q Hb. apply below_parent in Hb as [Hb|Hb].
    - subst q. split; [by apply stage_not_scratch|]. congruence.
    - rewrite parent_join in Hb. by apply Hs2. }
  apply wp_bind, wp_create_directory; [apply Hs2|done|..].
  - intros s3 Hmk3 Hd3.
    destruct (mkdirs_child d n s2 s3 (se_ok d s2 Hs2) Hd2 Hmk3) as [->|[_ ->]].
    { apply is_dir_true in Hd3. congruence. }
    apply Hk. split_and!; [done|apply lookup_insert_eq|].
    intros q Hq Hne. rewrite lookup_insert_ne by done.
    by apply (ok_absent_below s2 (join d n)); [apply Hs2|..].
  - intros s3 Hmk3. apply HF, undecided_idle.
    by destruct (mkdirs_child d n s2 s3 (se_ok d s2 Hs2) Hd2 Hmk3) as [->|[_ ->]].
Qed.

End Operation.

Lemma caller_area_mono d s0 (i i' : path -> Prop) q :
  (forall q, i q -> i' q) -> caller_area d s0 i q -> caller_area d s0 i' q.
Proof. intros Hi [?|[?|?]]; [by left|right; left; auto|by right; right]. Qed.

Lemma undecided_mono d s0 i i' s :
  (forall q, i q -> i' q) -> undecided d s0 (caller_area d s0 i) s -> undecided d s0 (caller_area d s0 i') s.
Proof.
  intros Hi Hu. split; [apply Hu..|]. eapply agree_weaken; [|apply Hu].
  intros q. by apply caller_area_mono.
Qed.

Lemma idle_mono d s0 i i' s : (forall q, i q -> i' q) -> idle d s0 i s -> idle d s0 i' s.
Proof.
  intros Hi [Hs Ha]. split; [done|]. eapply agree_weaken; [|done]. intros q. by apply caller_area_mono.
Qed.

Definition no_input (q : path) : Prop := False.

(** ** Replacing the pair *)

(** The bytes a payload stands for, and the file it consumes. *)
Definition payload_input (payload : ObjectPayload) (q : path) : Prop :=
  match payload with Spooled p => q = p | _ => False end.
Definition payload_ok (d : path) (s : fs) (o : Object) (payload : ObjectPayload) (b : bytes) : Prop :=
  match payload with
  | InMemory => b = o_data o
  | Spooled p => s !! p = Some (File b) /\ scratch p = false /\ below d p = false
  | Stored p => s !! p = Some (File b) /\ scratch p = false /\ ~ private d p
  end.

(** The record [publish_pair] commits. *)
Definition retired_by (d : path) (o : Object) : list string :=
  if eqb (o_version_id o) (Some "null") && negb (in_versions d) then ["null"] else [].
Definition pair_record (d : path) (o : Object) (n : string) : Publication :=
  mkPublication n true false (retired_by d o) None.

Lemma pair_record_valid d o n b :
  stage_name n = true -> o_size o = size_of b -> valid d (pair_record d o n) b (encode_object o).
Proof.
  intros Hn Hsz. split; [done|done| |done|].
  - intros id Hid. simpl in Hid. unfold retired_by in Hid.
    destruct (_ && _); [|by apply elem_of_nil in Hid].
    apply list_elem_of_singleton in Hid as ->. split; [done|]. unfold ver. by rewrite scratch_join.
  - intros _. exists (strip_data o). by rewrite decode_encode_object.
Qed.

(** Where the directory stands after an interrupted operation. *)
Definition stands d s0 input (rec : string -> Publication) b j (s : fs) : Prop :=
  idle d s0 input s \/
  exists n, stage_name n = true /\
    (decided d (rec n) b j s0 (caller_area d s0 input) s \/
     complete d (rec n) b j s0 (caller_area d s0 input) s).

Lemma private_in_area d s0 input q : private d q -> caller_area d s0 input q.
Proof. by left. Qed.

(** Writing the staged payload. *)
Lemma wp_stage_payload d s0 o payload b n Q E C s :
  outside d (payload_input payload) -> stage_name n = true ->
  payload_ok d s0 o payload b -> staged d s0 no_input n s ->
  (forall s', undecided d s0 (caller_area d s0 (payload_input payload)) s' ->
     s' !! join d n = Some Directory -> s' !! join (join d n) BLOB = Some (File b) ->
     s' !! join (join d n) META = None -> Q tt s') ->
  (forall s', undecided d s0 (caller_area d s0 (payload_input payload)) s' -> fails E C s') ->
  wp m (match payload with
        | InMemory => atomic_write (join (join d n) BLOB) (o_data o)
        | Spooled p => atomic_move p (join (join d n) BLOB)
        | Stored p => stage_stored_payload p (join (join d n) BLOB)
        end) Q E C s.
Proof.
  intros Hout Hn Hpay (Hu & Hst & Hempty) HQ HF.
  set (t := join (join d n) BLOB).
  assert (undecided d s0 (caller_area d s0 (payload_input payload)) s) as Hu'
    by (eapply undecided_mono; [|done]; by intros q []).
  assert (forall x, below (join d n) (join (join d n) x) = true) as Hbel by (intros; apply below_join).
  assert (s !! t = None) as Ht by (apply Hempty; [apply Hbel|apply join_ne_self]).
  assert (is_dir t s = false) as Htd by (unfold is_dir; by rewrite Ht).
  assert (is_dir (parent t) s = true) as Htp by (unfold t; rewrite parent_join; by apply is_dir_true).
  assert (forall Y s', agree Y s s' -> (forall q, Y q -> q = t \/ payload_input payload q) ->
    undecided d s0 (caller_area d s0 (payload_input payload)) s' /\
    s' !! join d n = Some Directory /\ s' !! join (join d n) META = None) as Hstep.
  { intros Y s' Ha HY.
    assert (forall q, Y q -> q = t \/ below d q = false) as HY2.
    { intros q [->|Hi]%HY; [by left|right; by apply Hout]. }
    assert (forall q, scratch q = false -> below d q = true -> q <> t -> s' !! q = s !! q) as Hk.
    { intros q Hs Hb Hne. apply (agree_at _ _ _ Ha); [done|]. intros [?|?]%HY2; congruence. }
    split_and!.
    - eapply (undecided_write _ _ _ Y); [exact Hu'|exact Ha| | |].
      + intros q [->|Hi]%HY; [left; exists n; split; [done|apply Hbel]|by right; left].
      + intros q [->|Hi]%HY2; [by eapply stage_file_out|].
        split; [intros Hf%file_path_inside%inside_below|intros Hf%dir_path_inside%inside_below]; congruence.
      + intros [Heq|Hb]%HY2; [|by rewrite below_refl in Hb].
        unfold t, join in Heq. apply (f_equal length) in Heq. rewrite !length_app in Heq. simpl in Heq. lia.
    - rewrite Hk; [done|by apply stage_not_scratch|apply below_join|].
      intros Heq. by apply (join_ne_self (join d n) BLOB).
    - rewrite Hk; [|apply scratch_meta| |].
      + apply Hempty; [apply Hbel|apply join_ne_self].
      + eapply below_trans; apply below_join.
      + unfold t. rewrite join_inj. by intros [_ ?]. }
  assert (forall p x, s0 !! p = Some x -> ~ private d p -> scratch p = false -> s !! p = Some x) as Hsrc.
  { intros p x Hp Hnp Hs. eapply agree_lookup; [apply (un_agree d s0 _ s Hu)|done| |done].
    intros [?|[?|[_ ?]]]; [done..|congruence]. }
  destruct payload as [|p|p]; simpl in *.
  - subst b. apply wp_atomic_write; [apply Hu|done|done|apply join_ne_nil|apply scratch_blob|..].
    + intros s' Ha Hb. destruct (Hstep _ s' Ha) as (?&?&?); [by left|]. by apply HQ.
    + intros s' [Ha _]. apply HF. by destruct (Hstep _ s' Ha) as (?&?&?); [left|].
  - destruct Hpay as (Hp & Hs & Hb0).
    eapply wp_atomic_move; [apply Hu| |done| |done|done|apply join_ne_nil|apply scratch_blob|..].
    + apply Hsrc; [done| |done]. intros Hpr%private_inside%inside_below. congruence.
    + intros ->. unfold t in Hb0. by rewrite (below_trans d (join d n)) in Hb0 by apply below_join.
    + intros s' Ha Hb. destruct (Hstep _ s' Ha) as (?&?&?); [intros q [?|?]; auto|]. by apply HQ.
    + intros s' Ha. apply HF. by destruct (Hstep _ s' Ha) as (?&?&?); [intros q [?|?]; auto|].
  - destruct Hpay as (Hp & Hs & Hnp).
    eapply wp_stage_stored_payload; [apply Hu|by apply Hsrc|done|done|done|apply join_ne_nil|apply scratch_blob|..].
    + intros s' Ha Hb. destruct (Hstep _ s' Ha) as (?&?&?); [by left|]. by apply HQ.
    + intros s' Ha. apply HF. by destruct (Hstep _ s' Ha) as (?&?&?); [left|].
Qed.

(** Writing the staged metadata and committing. *)
Lemma wp_stage_metadata d s0 input o b n Q E C s :
  outside d input -> stage_name n = true -> undecided d s0 (caller_area d s0 input) s ->
  s !! join d n = Some Directory -> s !! join (join d n) BLOB = Some (File b) ->
  s !! join (join d n) META = None ->
  (forall s', undecided d s0 (caller_area d s0 input) s' -> s' !! join d n = Some Directory ->
     s' !! join (join d n) BLOB = Some (File b) ->
     s' !! join (join d n) META = Some (File (encode_object o)) -> Q tt s') ->
  (forall s', undecided d s0 (caller_area d s0 input) s' -> fails E C s') ->
  wp m (write_object_metadata (join (join d n) META) o) Q E C s.
Proof.
  intros Hout Hn Hu Hst Hb Hm HQ HF. set (t := join (join d n) META).
  assert (forall s', agree (at_path t) s s' -> undecided d s0 (caller_area d s0 input) s') as Hstep.
  { intros s' Ha. eapply (undecided_write _ _ _ (at_path t)); [exact Hu|exact Ha| | |].
    - intros q ->. left. exists n. split; [done|apply below_join].
    - intros q ->. by eapply stage_file_out.
    - intros Heq. unfold at_path, t, join in Heq. apply (f_equal length) in Heq.
      rewrite !length_app in Heq. simpl in Heq. lia. }
  apply wp_atomic_write; [apply Hu| | |apply join_ne_nil|apply scratch_meta|..].
  - unfold t. rewrite parent_join. by apply is_dir_true.
  - unfold is_dir, t. by rewrite Hm.
  - intros s' Ha Hnew. apply HQ; [by apply Hstep| | |done].
    + eapply agree_lookup; [exact Ha|by apply stage_not_scratch| |done].
      intros Heq. by apply (join_ne_self (join d n) META).
    + eapply agree_lookup; [exact Ha|apply scratch_blob| |done].
      unfold at_path, t. rewrite join_inj. by intros [_ ?].
  - intros s' [Ha _]. by apply HF, Hstep.
Qed.

Lemma wp_publish_pair d s0 o payload b Q E C :
  settled d s0 -> outside d (payload_input payload) ->
  payload_ok d s0 o payload b -> o_size o = size_of b ->
  (forall n s', stage_name n = true ->
     complete d (pair_record d o n) b (encode_object o) s0
              (caller_area d s0 (payload_input payload)) s' -> Q tt s') ->
  (forall s', stands d s0 (payload_input payload) (pair_record d o) b (encode_object o) s' -> fails E C s') ->
  wp m (publish_pair d o payload) Q E C s0.
Proof.
  intros Hs Hout Hpay Hsz HQ HF. unfold publish_pair.
  eapply (wp_prepare d s0 no_input); [done| |].
  2:{ intros s' Hi. apply HF. left. eapply idle_mono; [|done]. by intros q []. }
  intros x s1 Hst. set (n := STAGE_PREFIX +:+ uuid_text x) in *.
  assert (stage_name n = true) as Hn by apply stage_name_intro.
  assert (forall s', undecided d s0 (caller_area d s0 (payload_input payload)) s' -> fails E C s') as Hund.
  { intros s' Hu. apply HF. left. by apply undecided_idle. }
  apply wp_bind. eapply (wp_stage_payload d s0 o payload b n); [done..| |done].
  intros s2 Hu2 Hd2 Hb2 Hm2. apply wp_bind.
  eapply (wp_stage_metadata d s0 (payload_input payload) o b n); [done..| |done].
  intros s3 Hu3 Hd3 Hb3 Hm3.
  eapply (wp_commit_publication d (pair_record d o n) b (encode_object o) s0);
    [apply private_in_area|by apply pair_record_valid|done|done|done| |].
  - intros s4 Hc. by eapply HQ.
  - intros s4 [Hu|Hdc]; [by apply Hund|]. apply HF. right. by exists n.
Qed.

(** ** Rewriting the history *)

Definition history_record (promoted : option (Object * path)) (ids : list string)
    (marker : option Object) (clear : bool) (n : string) : Publication :=
  mkPublication n (is_some promoted) clear ids marker.

(** The promoted version: its metadata and the body it points at. *)
Definition promoted_ok (d : path) (s : fs) (promoted : option (Object * path)) (b j : bytes) : Prop :=
  match promoted with
  | Some (o, p) => s !! p = Some (File b) /\ scratch p = false /\ ~ private d p /\
                   o_size o = size_of b /\ j = encode_object o
  | None => True
  end.

(** The arguments describe one consistent change. *)
Record history_ok (d : path) (promoted : option (Object * path)) (ids : list string)
    (marker : option Object) (clear : bool) : Prop := mkHistoryOk {
  h_promoted : promoted <> None -> clear = false /\ marker = None;
  h_ids : forall id, id ∈ ids -> validate_version_id id = Ok tt /\ scratch (ver d id) = false;
  h_marker : forall mk, marker = Some mk -> o_data mk = [] /\ o_size mk = 0%N /\ clear = true /\
    exists id, o_version_id mk = Some id /\ validate_version_id id = Ok tt /\
               scratch (ver d id) = false }.

Lemma history_record_valid d s promoted ids marker clear b j n :
  stage_name n = true -> promoted_ok d s promoted b j -> history_ok d promoted ids marker clear ->
  valid d (history_record promoted ids marker clear n) b j.
Proof.
  intros Hn Hp Hh. split; simpl; [done| |apply Hh|apply Hh|].
  - destruct promoted; [|done]. intros _. by apply (h_promoted _ _ _ _ _ Hh).
  - destruct promoted as [[o p]|]; [|done]. intros _. simpl in Hp.
    destruct Hp as (_ & _ & _ & Hsz & ->). exists (strip_data o). by rewrite decode_encode_object.
Qed.

Lemma wp_change_history d s0 promoted ids marker clear b j Q E C :
  settled d s0 -> promoted_ok d s0 promoted b j -> history_ok d promoted ids marker clear ->
  (forall n s', stage_name n = true ->
     complete d (history_record promoted ids marker clear n) b j s0 (caller_area d s0 no_input) s' -> Q tt s') ->
  (forall s', stands d s0 no_input (history_record promoted ids marker clear) b j s' -> fails E C s') ->
  wp m (change_history d promoted ids marker clear) Q E C s0.
Proof.
  intros Hs Hpr Hh HQ HF. unfold change_history.
  eapply (wp_prepare d s0 no_input); [done| |].
  2:{ intros s' Hi. apply HF. by left. }
  intros x s1 Hst. set (n := STAGE_PREFIX +:+ uuid_text x) in *.
  assert (stage_name n = true) as Hn by apply stage_name_intro.
  assert (forall s', undecided d s0 (caller_area d s0 no_input) s' -> fails E C s') as Hund.
  { intros s' Hu. apply HF. left. by apply undecided_idle. }
  pose proof (history_record_valid _ _ _ _ _ _ _ _ n Hn Hpr Hh) as Hv.
  assert (forall s2, undecided d s0 (caller_area d s0 no_input) s2 -> s2 !! join d n = Some Directory ->
    (is_some promoted = true -> s2 !! join (join d n) BLOB = Some (File b) /\
                               s2 !! join (join d n) META = Some (File j)) ->
    wp m (commit_publication d (history_record promoted ids marker clear n)) Q E C s2) as Hcommit.
  { intros s2 Hu2 Hd2 Hf2.
    eapply (wp_commit_publication d _ b j s0); [apply private_in_area|done|done|done|done| |].
    - intros s4 Hc. by eapply HQ.
    - intros s4 [Hu|Hdc]; [by apply Hund|]. apply HF. right. by exists n. }
  apply wp_bind. destruct promoted as [[o p]|].
  - destruct Hpr as (Hp & Hsc & Hnp & Hsz & ->).
    apply wp_bind. eapply (wp_stage_payload d s0 o (Stored p) b n); [by intros q []|done|done|done| |done].
    intros s2 Hu2 Hd2 Hb2 Hm2.
    eapply (wp_stage_metadata d s0 (payload_input (Stored p)) o b n); [by intros q []|done..| |done].
    intros s3 Hu3 Hd3 Hb3 Hm3. by apply Hcommit.
  - apply wp_ret. destruct Hst as (Hu & Hd & _). by apply Hcommit.
Qed.

(** ** Recovery of an interrupted operation *)

Section Recovery.
Variables (d : path) (s0 : fs) (input : path -> Prop) (rec : string -> Publication) (b j : bytes).
Hypothesis rec_valid : forall n, stage_name n = true -> valid d (rec n) b j.
Abbreviation X := (caller_area d s0 input).

(** Decided: the new generation is what recovery gives. *)
Definition landed (s : fs) : Prop :=
  exists n, stage_name n = true /\ (decided d (rec n) b j s0 X s \/ complete d (rec n) b j s0 X s).
Definition arrived (s : fs) : Prop :=
  exists n, stage_name n = true /\ complete d (rec n) b j s0 X s.

Lemma wp_recover_idle Q E C s :
  idle d s0 input s ->
  (forall s', clean d s' -> s' !! join d JOURNAL = None -> idle d s0 input s' -> Q tt s') ->
  (forall s', idle d s0 input s' -> fails E C s') ->
  wp m (recover_publication d) Q E C s.
Proof.
  intros [Hs Ha] HQ HF.
  assert (forall s', settled d s' -> agree (private d) s s' -> idle d s0 input s') as Hidle.
  { intros s' Hs' Ha'. split; [done|]. eapply agree_trans; [done|].
    eapply agree_weaken; [|done]. by left. }
  apply wp_recover_settled; [done| |].
  - intros s' Hs' Ha' Hcl. apply HQ; [done|apply Hs'|auto].
  - intros s' Hs' Ha'. apply HF. auto.
Qed.

Lemma wp_recover_landed Q E C s :
  landed s ->
  (forall s', clean d s' -> s' !! join d JOURNAL = None -> arrived s' -> Q tt s') ->
  (forall s', landed s' -> fails E C s') ->
  wp m (recover_publication d) Q E C s.
Proof.
  intros (n & Hn & [Hd|Hc]) HQ HF.
  - eapply (wp_recover_decided d (rec n) b j s0 X); [apply private_in_area|auto|done| |].
    + intros s' Hc Hcl. apply HQ; [done|apply Hc|by exists n].
    + intros s' Hs'. apply HF. exists n. split; [done|tauto].
  - eapply (wp_recover_complete d (rec n) b j s0 X); [apply private_in_area|auto|done| |].
    + intros s' Hc' Hcl. apply HQ; [done|apply Hc'|by exists n].
    + intros s' Hs'. apply HF. exists n. auto.
Qed.

End Recovery.
End Safety.

(** ** Theorems *)

(** Recovery attempted, each time under some schedule, until it returns. *)
Inductive recovers `{Env} (d : path) : fs -> fs -> Prop :=
| recovers_done σ s s' σ' :
    recover_publication d σ s = (Done tt, s', σ') -> recovers d s s'
| recovers_retry σ s o s1 s' σ' :
    recover_publication d σ s = (o, s1, σ') -> o <> Done tt -> recovers d s1 s' ->
    recovers d s s'.

Section Theorems.
Context `{EnvLaws}.

(** A status that every attempt keeps, and that a finished one turns into [R]. *)
Lemma recovers_inv (d : path) (P R : fs -> Prop) s s' :
  (forall s, P s -> wp any_schedule (recover_publication d) (fun _ s' => R s')
                       (fun _ s' => P s') (fun s' => P s') s) ->
  P s -> recovers d s s' -> R s'.
Proof.
  intros Hwp Hs Hrec. induction Hrec as [σ s s' σ' Hrun|σ s o s1 s' σ' Hrun Hne Hrec IH].
  - exact (wp_run _ _ _ _ _ _ _ _ _ _ (Hwp s Hs) (any_schedule_ok σ) Hrun).
  - apply IH. pose proof (wp_run _ _ _ _ _ _ _ _ _ _ (Hwp s Hs) (any_schedule_ok σ) Hrun) as Hr.
    by destruct o as [[]|e|].
Qed.

Lemma recovers_idle d s0 input s s' :
  idle d s0 input s -> recovers d s s' ->
  clean d s' /\ s' !! join d JOURNAL = None /\ idle d s0 input s'.
Proof.
  intros Hi. apply (recovers_inv d (idle d s0 input)
    (fun s' => clean d s' /\ s' !! join d JOURNAL = None /\ idle d s0 input s')); [|done].
  clear s Hi. intros s Hi.
  apply (wp_recover_idle d s0 input); [done|by auto|]. intros s1 Hs1 _. by split.
Qed.

Lemma recovers_landed d s0 input rec b j s s' :
  (forall n, stage_name n = true -> valid d (rec n) b j) ->
  landed d s0 input rec b j s -> recovers d s s' ->
  clean d s' /\ s' !! join d JOURNAL = None /\ arrived d s0 input rec b j s'.
Proof.
  intros Hv Hi. apply (recovers_inv d (landed d s0 input rec b j)
    (fun s' => clean d s' /\ s' !! join d JOURNAL = None /\ arrived d s0 input rec b j s')); [|done].
  clear s Hi. intros s Hi.
  apply (wp_recover_landed d s0 input rec b j); [done|done|by auto|]. intros s1 Hs1 _. by split.
Qed.

(** Everything outside the object directory is left alone, except the consumed
    spool file, missing parent directories and scratch files. *)
Definition surroundings (d : path) (s0 : fs) (input : path -> Prop) (q : path) : Prop :=
  below d q = true \/ input q \/ below q d = true /\ s0 !! q = None.

Lemma caller_area_surroundings d s0 input q : caller_area d s0 input q -> surroundings d s0 input q.
Proof.
  intros [Hp|[Hi|Hb]]; [left|by right; left|by right; right].
  by apply inside_below, private_inside.
Qed.

Lemma touched_below d r q : touched d r q -> below d q = true.
Proof.
  assert (forall n, below d (join d n) = true) as Hj by (intros; apply below_join).
  assert (forall id, below d (ver d id) = true) as Hver
    by (intros; eapply below_trans; apply below_join).
  intros [->|[Hs|[[_ [-> | ->]]|[(id & _ & Hb)|[_ ->]]]]]; try apply Hj.
  - eapply below_trans; [apply Hj|exact Hs].
  - eapply below_trans; [apply Hver|exact Hb].
Qed.

Lemma complete_surroundings d r b j s0 input s :
  complete d r b j s0 (caller_area d s0 input) s -> agree (surroundings d s0 input) s0 s.
Proof.
  intros Hc. eapply agree_weaken; [|apply Hc]. intros q [Ht|Hx].
  - left. by eapply touched_below.
  - by apply caller_area_surroundings.
Qed.

Lemma idle_surroundings d s0 input s : idle d s0 input s -> agree (surroundings d s0 input) s0 s.
Proof. intros [_ Ha]. eapply agree_weaken; [|done]. apply caller_area_surroundings. Qed.

(** The end of an operation that was run under some schedule and then
    recovered: the new generation, or the old one if no success was reported. *)
Lemma operation_outcome d s0 input rec b j (p : io fs unit) σ out s1 σ1 s2 :
  outside d input -> (forall n, stage_name n = true -> valid d (rec n) b j) ->
  wp any_schedule p (fun _ s => arrived d s0 input rec b j s)
     (fun _ s => stands d s0 input rec b j s) (fun s => stands d s0 input rec b j s) s0 ->
  p σ s0 = (out, s1, σ1) -> recovers d s1 s2 ->
  ((exists n, stage_name n = true /\ new_generation d (rec n) b j s0 s2) \/
   out <> Done tt /\ old_generation d s0 s2) /\
  s2 !! join d JOURNAL = None /\ clean d s2 /\ agree (surroundings d s0 input) s0 s2.
Proof.
  intros Hout Hv Hwp Hrun Hrec.
  pose proof (wp_run _ _ _ _ _ _ _ _ _ _ Hwp (any_schedule_ok σ) Hrun) as Hr.
  assert (forall q, caller_area d s0 input q -> below d q = true -> private d q \/ q = d) as Hin
    by (intros q; by apply caller_area_inside).
  assert (landed d s0 input rec b j s1 \/ out <> Done tt /\ idle d s0 input s1) as [Hl|[Hne Hi]].
  { destruct out as [[]|e|]; simpl in Hr.
    - left. destruct Hr as (n & Hn & Hc). exists n. auto.
    - destruct Hr as [Hi|Hl]; [by right|by left].
    - destruct Hr as [Hi|Hl]; [by right|by left]. }
  - destruct (recovers_landed _ _ _ _ _ _ _ _ Hv Hl Hrec) as (Hcl & Hj & n & Hn & Hc).
    split_and!; [left|done|done|by eapply complete_surroundings].
    exists n. split; [done|]. by eapply complete_new; [|apply Hv|].
  - destruct (recovers_idle _ _ _ _ _ Hi Hrec) as (Hcl & Hj & Hi2).
    split_and!; [right|done|done|by apply idle_surroundings].
    split; [done|]. eapply undecided_old; [exact Hin|apply Hi2].
Qed.

(** The new generation of [publish_pair]: this payload and this metadata, and
    a null version it replaces is gone from the history. *)
Definition pair_published (d : path) (o : Object) (b : bytes) (s0 s : fs) : Prop :=
  pair_at s d = (Some (File b), Some (File (encode_object o))) /\
  forall id, pair_at s (ver d id) =
    if bool_decide (id ∈ retired_by d o) then (None, None) else pair_at s0 (ver d id).

Lemma publish_pair_outcome d o payload b s0 σ out s1 σ1 s2 :
  settled d s0 -> outside d (payload_input payload) ->
  payload_ok d s0 o payload b -> o_size o = size_of b ->
  publish_pair d o payload σ s0 = (out, s1, σ1) ->
  recovers d s1 s2 ->
  (pair_published d o b s0 s2 \/ out <> Done tt /\ old_generation d s0 s2) /\
  s2 !! join d JOURNAL = None /\ clean d s2 /\
  agree (surroundings d s0 (payload_input payload)) s0 s2.
Proof.
  intros Hs Hout Hpay Hsz Hrun Hrec.
  destruct (operation_outcome d s0 (payload_input payload) (pair_record d o) b (encode_object o)
    (publish_pair d o payload) σ out s1 σ1 s2) as ([(n & _ & Hn)|Hold] & Hrest);
    [done|intros; by apply pair_record_valid| |done|done|by split; [left|]|by split; [right|]].
  apply (wp_publish_pair d s0 o payload b); [done..|by intros n s' Hn Hc; exists n|].
  intros s' Hst _. by split.
Qed.

(** C1 [publish_pair_all_or_nothing]. Publishing an object is all or nothing:
    whatever calls fail and wherever the process dies during publish_pair,
    once recovery has run the directory shows either the new data and metadata
    together or exactly what it showed before (and then the call did not
    return Ok), with no journal and no staging left and nothing outside the
    directory touched. *)
Theorem publish_pair_all_or_nothing d o payload b s0 σ out s1 σ1 s2 :
  settled d s0 -> outside d (payload_input payload) ->
  payload_ok d s0 o payload b -> o_size o = size_of b ->
  publish_pair d o payload σ s0 = (out, s1, σ1) ->
  recovers d s1 s2 ->
  (pair_published d o b s0 s2 \/ out <> Done tt /\ old_generation d s0 s2) /\
  s2 !! join d JOURNAL = None /\ clean d s2 /\
  agree (surroundings d s0 (payload_input payload)) s0 s2.
Proof. apply publish_pair_outcome. Qed.

(** The new generation of [change_history]. *)
Definition history_changed (d : path) (promoted : option (Object * path)) (ids : list string)
    (marker : option Object) (clear : bool) (b j : bytes) (s0 s : fs) : Prop :=
  pair_at s d = match promoted with
                | Some _ => (Some (File b), Some (File j))
                | None => if clear then (None, None) else pair_at s0 d
                end /\
  forall id, pair_at s (ver d id) =
    match marker with
    | Some mk => if eqb (o_version_id mk) (Some id)
                 then (Some (File []), Some (File (encode_object mk)))
                 else if bool_decide (id ∈ ids) then (None, None) else pair_at s0 (ver d id)
    | None => if bool_decide (id ∈ ids) then (None, None) else pair_at s0 (ver d id)
    end.

Lemma history_changed_new d promoted ids marker clear n b j s0 s :
  new_generation d (history_record promoted ids marker clear n) b j s0 s ->
  history_changed d promoted ids marker clear b j s0 s.
Proof.
  intros [H1 H2]. split; [|exact H2]. rewrite H1. unfold target_current. simpl. by destruct promoted.
Qed.

(** C2 [change_history_all_or_nothing]. A change of the version history
    (removing versions, publishing a delete marker, clearing or promoting the
    current object) is all or nothing under any schedule of failures and
    crashes, after recovery. *)
Theorem change_history_all_or_nothing d promoted ids marker clear b j s0 σ out s1 σ1 s2 :
  settled d s0 -> promoted_ok d s0 promoted b j -> history_ok d promoted ids marker clear ->
  change_history d promoted ids marker clear σ s0 = (out, s1, σ1) ->
  recovers d s1 s2 ->
  (history_changed d promoted ids marker clear b j s0 s2 \/
   out <> Done tt /\ old_generation d s0 s2) /\
  s2 !! join d JOURNAL = None /\ clean d s2 /\ agree (surroundings d s0 no_input) s0 s2.
Proof.
  intros Hs Hpr Hh Hrun Hrec.
  destruct (operation_outcome d s0 no_input (history_record promoted ids marker clear) b j
    (change_history d promoted ids marker clear) σ out s1 σ1 s2) as ([(n & _ & Hn)|Hold] & Hrest);
    [by intros q []|intros; by eapply history_record_valid| |done|done| |by split; [right|]].
  - apply (wp_change_history d s0 promoted ids marker clear b j); [done..|by intros n s' Hn Hc; exists n|].
    intros s' Hst _. by split.
  - split; [left|done]. by eapply history_changed_new.
Qed.

(** *** Without faults *)

(** Without faults publish_pair returns Ok, leaves
    the new pair in place with the directory settled again, and touches
    nothing else. *)
Theorem publish_pair_succeeds d o payload b s0 σ :
  settled d s0 -> outside d (payload_input payload) ->
  payload_ok d s0 o payload b -> o_size o = size_of b -> sched_ok calm σ ->
  exists s1 σ1, publish_pair d o payload σ s0 = (Done tt, s1, σ1) /\
    pair_published d o b s0 s1 /\ settled d s1 /\
    agree (surroundings d s0 (payload_input payload)) s0 s1.
Proof.
  intros Hs Hout Hpay Hsz Hσ.
  destruct (wp_calm_run (publish_pair d o payload)
    (fun _ s => exists n, stage_name n = true /\ complete d (pair_record d o n) b (encode_object o) s0
       (caller_area d s0 (payload_input payload)) s) s0 σ) as ([] & s1 & σ1 & Hrun & n & Hn & Hc); [|done|].
  { apply (wp_publish_pair d s0 o payload b); [done..|by eauto|]. by intros s' _ ?. }
  exists s1, σ1. split_and!; [done| | |by eapply complete_surroundings].
  - eapply complete_new in Hc; [exact Hc| |by apply pair_record_valid].
    intros q. by apply caller_area_inside.
  - split; [apply Hc..|]. apply dir_creatable; apply Hc.
Qed.

(** C4 [recovery_finishes]. Recovery terminates successfully when its calls
    do: after an interrupted publish_pair, a run of recover_publication
    without faults returns Ok and leaves the new pair or the old generation.
    *)
Theorem recovery_finishes d o payload b s0 σ out s1 σ1 σ2 :
  settled d s0 -> outside d (payload_input payload) ->
  payload_ok d s0 o payload b -> o_size o = size_of b ->
  publish_pair d o payload σ s0 = (out, s1, σ1) -> sched_ok calm σ2 ->
  exists s2 σ3, recover_publication d σ2 s1 = (Done tt, s2, σ3) /\
    (pair_published d o b s0 s2 \/ old_generation d s0 s2).
Proof.
  intros Hs Hout Hpay Hsz Hrun Hσ2.
  set (P := stands d s0 (payload_input payload) (pair_record d o) b (encode_object o)).
  assert (P s1) as Hst.
  { pose proof (wp_run any_schedule _ (fun _ s => P s) (fun _ s => P s) P _ _ _ _ _
      ltac:(apply (wp_publish_pair d s0 o payload b); [exact Hs|exact Hout|exact Hpay|exact Hsz| |];
            [intros n s' Hn Hc; right; exists n; auto|by intros s' Hst' _; split])
      (any_schedule_ok σ) Hrun) as Hr. by destruct out as [[]|e|]. }
  destruct (wp_calm_run (recover_publication d) (fun _ _ => True) s1 σ2) as ([] & s2 & σ3 & Hrec & _); [|done|].
  { destruct Hst as [Hi|Hl].
    - eapply wp_recover_idle; [exact Hi|done|]. by intros s' _ ?.
    - eapply (wp_recover_landed d s0 (payload_input payload) (pair_record d o) b (encode_object o));
        [intros; by apply pair_record_valid|exact Hl|done|]. by intros s' _ ?. }
  exists s2, σ3. split; [done|].
  destruct (publish_pair_outcome d o payload b s0 σ out s1 σ1 s2) as ([?|[_ ?]] & _);
    [done..|by eapply recovers_done|by left|by right].
Qed.

End Theorems.

(** ** An example: a process killed after its decision is recovered *)

Module Example.

#[local] Existing Instance concrete_env.
#[local] Existing Instance concrete_env_laws.

Definition dir : path := ["b"; "obj"].
(** A bucket directory and nothing else. *)
Definition disk : fs := <[ ["b"] := Directory ]> (<[ [] := Directory ]> ∅).
Definition object : Object :=
  new_with_metadata_and_etag 0%Z "k" [Byte.x01; Byte.x02] "text/plain" ∅ "etag".

(** Every call goes through, up to the [n]th, where the process dies. *)
Definition killed_at (n : nat) : Sched :=
  mkSched (replicate n Go ++ [Crash (mkResidue 0 [])]) (fun k => N.of_nat k) (fun _ => 0%Z).
Definition undisturbed : Sched := mkSched [] (fun k => N.of_nat (100 + k)) (fun _ => 0%Z).

Lemma disk_Some q e : disk !! q = Some e -> e = Directory /\ (q = ["b"] \/ q = []).
Proof.
  unfold disk. rewrite !lookup_insert_Some, lookup_empty. naive_solver.
Qed.

Lemma disk_ok : ok disk.
Proof.
  split.
  - done.
  - intros d n [e He]. apply disk_Some in He as [_ [Heq|Heq]].
    + change ["b"] with (join [] "b") in Heq. by apply join_inj in Heq as [-> _].
    + by destruct (join_ne_nil d n).
  - intros p Hp He. apply disk_Some in He as [_ [-> | ->]]; done.
Qed.

Lemma disk_settled : settled dir disk.
Proof.
  assert (forall q, inside dir q -> disk !! q = None) as Hnone.
  { intros q (n & rest & ->). destruct (disk !! _) eqn:E; [|done].
    by apply disk_Some in E as [_ [?|?]]. }
  split.
  - apply disk_ok.
  - split; [intros q Hq|intros q b Hq]; rewrite Hnone;
      [done|by apply file_path_inside|done|by apply dir_path_inside].
  - apply Hnone. by eexists _, [].
  - intros q Hq. split.
    + destruct q as [|a [|a' [|? ?]]]; simpl in Hq; try done.
      * by destruct (eqb a "b") eqn:E; [apply eqb_true in E as ->|].
      * destruct (eqb a "b") eqn:E; [|done]. apply eqb_true in E as ->.
        by destruct (eqb a' "obj") eqn:E; [apply eqb_true in E as ->|].
      * by rewrite !andb_false_r in Hq.
    + intros b Hb. by apply disk_Some in Hb as [? _].
Qed.

Lemma run_eta {A B C} (x : A * B * C) : x = (x.1.1, x.1.2, x.2).
Proof. by destruct x as [[??]?]. Defined.

(** The state an operation killed at its [n]th call leaves, and that state
    after recovery. *)
Definition after_kill (op : io fs unit) (n : nat) : fs := (op (killed_at n) disk).1.2.
Definition after_recovery (op : io fs unit) (n : nat) : fs :=
  (recover_publication dir undisturbed (after_kill op n)).1.2.

Lemma recovered op n :
  (recover_publication dir undisturbed (after_kill op n)).1.1 = Done tt ->
  recovers dir (after_kill op n) (after_recovery op n).
Proof.
  intros Hr. unfold after_recovery.
  destruct (recover_publication dir undisturbed (after_kill op n)) as [[o s'] σ'] eqn:E.
  simpl in *. subst o. by eapply recovers_done.
Qed.

Definition put : io fs unit := publish_pair dir object InMemory.
Definition clear_it : io fs unit := change_history dir None ["v1"] None true.

Lemma publish_pair_all_or_nothing_witness :
  (pair_published dir object (o_data object) disk (after_recovery put 20) \/
   (put (killed_at 20) disk).1.1 <> Done tt /\ old_generation dir disk (after_recovery put 20)) /\
  after_recovery put 20 !! join dir JOURNAL = None /\ clean dir (after_recovery put 20) /\
  agree (surroundings dir disk (payload_input InMemory)) disk (after_recovery put 20).
Proof.
  apply (publish_pair_all_or_nothing dir object InMemory (o_data object) disk (killed_at 20)
    (put (killed_at 20) disk).1.1 (after_kill put 20) (put (killed_at 20) disk).2).
  - apply disk_settled.
  - by intros q [].
  - reflexivity.
  - reflexivity.
  - apply run_eta.
  - apply recovered. vm_compute. reflexivity.
Defined.

Lemma change_history_all_or_nothing_witness :
  (history_changed dir None ["v1"] None true [] [] disk (after_recovery clear_it 12) \/
   (clear_it (killed_at 12) disk).1.1 <> Done tt /\
   old_generation dir disk (after_recovery clear_it 12)) /\
  after_recovery clear_it 12 !! join dir JOURNAL = None /\ clean dir (after_recovery clear_it 12) /\
  agree (surroundings dir disk no_input) disk (after_recovery clear_it 12).
Proof.
  apply (change_history_all_or_nothing dir None ["v1"] None true [] [] disk (killed_at 12)
    (clear_it (killed_at 12) disk).1.1 (after_kill clear_it 12) (clear_it (killed_at 12) disk).2).
  - apply disk_settled.
  - done.
  - split; [done| |done]. intros id ->%list_elem_of_singleton. done.
  - apply run_eta.
  - apply recovered. vm_compute. reflexivity.
Defined.

Lemma publish_pair_succeeds_witness :
  exists s1 σ1, put undisturbed disk = (Done tt, s1, σ1) /\
    pair_published dir object (o_data object) disk s1 /\ settled dir s1 /\
    agree (surroundings dir disk (payload_input InMemory)) disk s1.
Proof.
  apply (publish_pair_succeeds dir object InMemory (o_data object) disk undisturbed).
  - apply disk_settled.
  - by intros q [].
  - reflexivity.
  - reflexivity.
  - by split; [intros _; constructor|].
Defined.

Lemma recovery_finishes_witness :
  exists s2 σ3, recover_publication dir undisturbed (after_kill put 25) = (Done tt, s2, σ3) /\
    (pair_published dir object (o_data object) disk s2 \/ old_generation dir disk s2).
Proof.
  apply (recovery_finishes dir object InMemory (o_data object) disk (killed_at 25)
    (put (killed_at 25) disk).1.1 (after_kill put 25) (put (killed_at 25) disk).2 undisturbed).
  - apply disk_settled.
  - by intros q [].
  - reflexivity.
  - reflexivity.
  - apply run_eta.
  - by split; [intros _; constructor|].
Defined.

End Example.
