(* ===== verification/Lifecycle.v ===== *)
(** * Lifecycle: rules and protections, [src/models/lifecycle.rs] and the
    decision functions of [src/lifecycle.rs]

    Whether a rule's filter selects an object, when expirations and transitions
    are due, and the protections that veto them.  The executor that applies
    them to a store is in [LifecycleExecutor]. *)

From S2P Require Import Prelude Text Models.

Inductive Status : Type := RuleEnabled | RuleDisabled.

#[export] Instance Status_eq_dec : EqDecision Status.
Proof. solve_decision. Defined.

Record Tag : Type := mkTag { tag_key : string; tag_value : string }.

Record Filter : Type := mkFilter {
  filter_prefix : option string;
  filter_tags : list Tag }.

Record Expiration : Type := mkExpiration {
  exp_days : option N;
  exp_date : option string;
  exp_expired_object_delete_marker : option bool }.

Record NoncurrentVersionExpiration : Type := mkNoncurrent { noncurrent_days : N }.

Inductive StorageClass : Type := Standard | Glacier | DeepArchive.

Record Transition : Type := mkTransition {
  tr_days : option N;
  tr_date : option string;
  tr_storage_class : StorageClass }.

Record Rule : Type := mkRule {
  rule_id : option string;
  rule_status : Status;
  rule_filter : option Filter;
  rule_expiration : option Expiration;
  rule_noncurrent_version_expiration : option NoncurrentVersionExpiration;
  rule_transitions : list Transition }.

Record LifecycleConfiguration : Type := mkLifecycle { rules : list Rule }.

(** [Filter::matches] *)
Definition filter_matches (f : Filter) (key : string) (tags : strmap) : bool :=
  is_none_or (fun prefix => Text.starts_with key prefix) (filter_prefix f) &&
  forallb (fun tag => eqb (tags !! tag_key tag) (Some (tag_value tag))) (filter_tags f).

Definition rule_matches_filter (r : Rule) (key : string) (tags : strmap) : bool :=
  is_none_or (fun f => filter_matches f key tags) (rule_filter r).

(** The date parsers of [chrono]: [parse_from_str(_, "%Y-%m-%d")] at midnight
    UTC, and RFC 3339 or RFC 2822 timestamps. *)
Class Chrono : Type := {
  parse_date : string -> option time;
  parse_rfc3339 : string -> option time;
  parse_rfc2822 : string -> option time }.

(** [Duration::num_days]: whole days, rounding towards zero. *)
Definition NS_PER_DAY : Z := 86400 * 1000000000.
Definition num_days (duration : Z) : Z := Z.quot duration NS_PER_DAY.

(** [object_has_azure_protection_metadata] *)
Definition AZURE_IMMUTABILITY_UNTIL_KEY : string := "azure_immutability_until".
Definition AZURE_LEGAL_HOLD_KEY : string := "azure_legal_hold".
Definition AZURE_IMMUTABILITY_MODE_KEY : string := "azure_immutability_mode".
Definition AZURE_LEASE_STATUS_KEY : string := "azure_lease_status".

Definition contains_key (m : strmap) (key : string) : bool := is_some (m !! key).

Definition object_has_azure_protection_metadata (o : Object) : bool :=
  existsb (contains_key (o_provider_metadata o))
    [AZURE_IMMUTABILITY_UNTIL_KEY; AZURE_LEGAL_HOLD_KEY; AZURE_IMMUTABILITY_MODE_KEY;
     AZURE_LEASE_STATUS_KEY].

(** [positive_duration_or_invalid]: a setting that does not parse counts. *)
Definition positive_duration_or_invalid (metadata : strmap) (key : string) : bool :=
  is_some_and (fun value => is_none_or (fun n => 0 <? n)%N (Text.parse_u64 value))
              (metadata !! key).

(** The bucket-level part of [foreign_provider_data_protection_active]. *)
Definition foreign_protection (metadata : strmap) : bool :=
  positive_duration_or_invalid metadata "gcs_soft_delete_seconds" ||
  positive_duration_or_invalid metadata "gcs_retention_seconds" ||
  is_some_and (fun v => negb (Text.eq_ignore_ascii_case v "false"))
              (metadata !! "azure_versioning_enabled") ||
  positive_duration_or_invalid metadata "azure_soft_delete_days".

Section Decisions.
Context `{Chrono}.

Definition parse_lock_timestamp (value : string) : option time :=
  match parse_rfc3339 value with
  | Some t => Some t
  | None => parse_rfc2822 value
  end.

(** A retention date in the future, or one that does not parse. *)
Definition retained_until (now : time) (value : string) : bool :=
  is_none_or (fun until => (now <? until)%Z) (parse_lock_timestamp value).

Definition object_has_active_azure_protection (o : Object) (now : time) : bool :=
  let m := o_provider_metadata o in
  is_some_and (fun v => negb (Text.eq_ignore_ascii_case v "false")) (m !! AZURE_LEGAL_HOLD_KEY) ||
  is_some_and (retained_until now) (m !! AZURE_IMMUTABILITY_UNTIL_KEY) ||
  contains_key m AZURE_IMMUTABILITY_MODE_KEY && negb (contains_key m AZURE_IMMUTABILITY_UNTIL_KEY) ||
  is_some_and (fun status => negb (eqb status "unlocked")) (m !! AZURE_LEASE_STATUS_KEY).

Definition object_has_active_data_protection (o : Object) (now : time) : bool :=
  let m := o_provider_metadata o in
  is_some_and (fun v => negb (Text.eq_ignore_ascii_case v "OFF")) (m !! "s3_object_lock_legal_hold") ||
  is_some_and (retained_until now) (m !! "s3_object_lock_until") ||
  contains_key m "s3_object_lock_mode" && negb (contains_key m "s3_object_lock_until") ||
  object_has_active_azure_protection o now.

(** A limit in days, or a calendar date. *)
Definition due (last_modified now : time) (days : option N) (date : option string) : bool :=
  is_some_and (fun d => (Z.of_N d <=? num_days (now - last_modified))%Z) days ||
  is_some_and (fun s => is_some_and (fun t => (t <=? now)%Z) (parse_date s)) date.

Definition should_expire (last_modified : time) (e : Expiration) (now : time) : bool :=
  due last_modified now (exp_days e) (exp_date e).

Definition should_expire_noncurrent_version (last_modified : time) (days : N) (now : time) : bool :=
  (Z.of_N days <=? num_days (now - last_modified))%Z.

Definition should_transition (last_modified : time) (t : Transition) (now : time) : bool :=
  due last_modified now (tr_days t) (tr_date t).

Definition storage_class_to_str (c : StorageClass) : string :=
  match c with
  | Standard => "STANDARD" | Glacier => "GLACIER" | DeepArchive => "DEEP_ARCHIVE"
  end.

(** ** Facts *)

Lemma num_days_mono a b : (a <= b)%Z -> (num_days a <= num_days b)%Z.
Proof. intros Hab. unfold num_days. apply Z.quot_le_mono; [done|done]. Qed.

(** What is due stays due. *)
Lemma due_mono last_modified now now' days date :
  (now <= now')%Z -> due last_modified now days date = true -> due last_modified now' days date = true.
Proof.
  intros Hn. unfold due. rewrite !orb_true_iff, !is_some_and_true. intros [(d & -> & Hd)|(s & -> & Hs)].
  - left. exists d. split; [done|]. apply Z.leb_le in Hd. apply Z.leb_le.
    etrans; [done|]. apply num_days_mono. lia.
  - right. exists s. split; [done|]. apply is_some_and_true in Hs as (t & Ht & Hle).
    rewrite Ht. simpl. apply Z.leb_le in Hle. apply Z.leb_le. lia.
Qed.

(** Metadata of the Azure protections is needed for one to be active, so its
    absence (what the store's proof records) rules protection out. *)
Lemma azure_absent_inactive o now :
  object_has_azure_protection_metadata o = false -> object_has_active_azure_protection o now = false.
Proof.
  unfold object_has_azure_protection_metadata, object_has_active_azure_protection, contains_key.
  simpl. rewrite !orb_false_iff.
  destruct (o_provider_metadata o !! AZURE_IMMUTABILITY_UNTIL_KEY); [by intros [? _]|].
  destruct (o_provider_metadata o !! AZURE_LEGAL_HOLD_KEY); [by intros (_ & ? & _)|].
  destruct (o_provider_metadata o !! AZURE_IMMUTABILITY_MODE_KEY); [by intros (_ & _ & ? & _)|].
  destruct (o_provider_metadata o !! AZURE_LEASE_STATUS_KEY); [by intros (_ & _ & _ & ? & _)|].
  done.
Qed.

End Decisions.
