(* ===== verification/Storage.v ===== *)
(** * Storage: [FilesystemStorage] of [src/storage/filesystem.rs] and [io.rs]

    Buckets, objects, tags, ACLs and the sidecar documents, over the file map of
    [FsModel], the publication protocol of [Publication] and the key index of
    [Index].  The in-memory state of the store is a record beside the disk.
    Its mutexes serialize the operations and have no state of their own; the
    model runs one operation at a time. *)

From Stdlib Require Import Ascii Strings.Byte.
From S2P Require Import Prelude Text Models Policy SkipMap Index FsModel Publication Lifecycle.
From S2P Require Import Utf8.

(** ** What is on disk *)

Record BucketIdentity : Type := mkIdentity {
  id_created_at : time;
  id_modified_at : time }.

(** [serde_json] on one type. *)
Record Codec (A : Type) : Type := mkCodec {
  enc : A -> bytes;
  dec : bytes -> option A }.
Global Arguments mkCodec {A} _ _.
Global Arguments enc {A} _ _.
Global Arguments dec {A} _ _.

(** The serializers of the sidecar documents, UTF-8 validation, and the
    creation time the operating system reports for a file. *)
Class StoreEnv : Type := {
  identity_codec : Codec BucketIdentity;
  strmap_codec : Codec strmap;
  acl_codec : Codec Acl;
  lifecycle_codec : Codec LifecycleConfiguration;
  policy_codec : Codec BucketPolicyDocument;
  upload_codec : Codec MultipartUpload;
  uploads_codec : Codec (gmap string MultipartUpload);
  utf8_valid : bytes -> bool;
  file_created : path -> fs -> option time }.

Class StoreEnvLaws `{StoreEnv} : Prop := {
  dec_enc_identity : forall x, dec identity_codec (enc identity_codec x) = Some x;
  dec_enc_strmap : forall x, dec strmap_codec (enc strmap_codec x) = Some x;
  dec_enc_acl : forall x, dec acl_codec (enc acl_codec x) = Some x;
  dec_enc_lifecycle : forall x, dec lifecycle_codec (enc lifecycle_codec x) = Some x;
  dec_enc_policy : forall x, dec policy_codec (enc policy_codec x) = Some x;
  dec_enc_upload : forall x, dec upload_codec (enc upload_codec x) = Some x;
  dec_enc_uploads : forall x, dec uploads_codec (enc uploads_codec x) = Some x }.

Section Storage.
Context {M : Type -> Type} `{SkipMap M} `{Env} `{StoreEnv} `{Digests}.

(** The disk and the in-memory fields of [FilesystemStorage]. *)
Record World : Type := mkWorld {
  w_fs : fs;
  w_index : LockFreeIndex M;
  w_uploads_cache : gmap string (gmap string MultipartUpload);
  w_azure_protection_possible : gmap string bool }.

Definition set_fs (s : fs) (w : World) : World :=
  mkWorld s (w_index w) (w_uploads_cache w) (w_azure_protection_possible w).
Definition set_index (i : LockFreeIndex M) (w : World) : World :=
  mkWorld (w_fs w) i (w_uploads_cache w) (w_azure_protection_possible w).
Definition set_uploads (u : gmap string (gmap string MultipartUpload)) (w : World) : World :=
  mkWorld (w_fs w) (w_index w) u (w_azure_protection_possible w).
Definition set_azure (a : gmap string bool) (w : World) : World :=
  mkWorld (w_fs w) (w_index w) (w_uploads_cache w) a.

(** A disk operation of the store. *)
Definition disk {A} (m : io fs A) : io World A := zoom w_fs set_fs m.
Definition on_disk {A} (f : fs -> A) : io World A := gets (fun w => f (w_fs w)).

(** ** Paths *)

Definition bucket_dir (bucket : string) : path := ["b-" +:+ sha256_hex bucket].
Definition compute_object_id (bucket key : string) : string := hash_pair_hex bucket key.
Definition object_id_dir (bucket object_id : string) : path := join (bucket_dir bucket) object_id.
Definition object_dir (bucket key : string) : path :=
  object_id_dir bucket (compute_object_id bucket key).
Definition object_data_path (bucket object_id : string) : path := join (object_id_dir bucket object_id) BLOB.
Definition object_metadata_path (bucket object_id : string) : path := join (object_id_dir bucket object_id) META.
Definition versions_dir (bucket object_id : string) : path := join (object_id_dir bucket object_id) "versions".
Definition version_dir (bucket object_id version_id : string) : path :=
  join (versions_dir bucket object_id) version_id.
Definition version_data_path (bucket object_id version_id : string) : path :=
  join (version_dir bucket object_id version_id) BLOB.
Definition version_metadata_path (bucket object_id version_id : string) : path :=
  join (version_dir bucket object_id version_id) META.
Definition bucket_acl_path (bucket : string) : path := join (bucket_dir bucket) "bucket.acl.json".
Definition bucket_metadata_path (bucket : string) : path := join (bucket_dir bucket) ".bucket.meta.json".
Definition versioning_marker (bucket : string) : path := join (bucket_dir bucket) ".versioning-enabled".
Definition provider_state_path (provider key : string) : path :=
  [".provider-state"; provider; compute_object_id provider key +:+ ".json"].

Definition bucket_exists (bucket : string) : io World bool := on_disk (path_exists (bucket_dir bucket)).

(** Code that needs the bucket to exist. *)
Definition require_bucket (bucket : string) : io World unit :=
  present ← bucket_exists bucket;
  if (present : bool) then mret tt else fail BucketNotFound.

(** Reading and writing a document. *)
Definition read_document {A} (c : Codec A) (read_msg parse_msg : string) (p : path) : io World A :=
  json ← disk (read_file read_msg p);
  of_res (ok_or (InternalError parse_msg) (dec c json)).

(** ** Bucket identity *)

Definition write_bucket_identity (bucket : string) (identity : BucketIdentity) : io World unit :=
  disk (atomic_write (join (bucket_dir bucket) ".bucket.identity.json") (enc identity_codec identity)).

Definition read_bucket_identity_locked (bucket : string) : io World BucketIdentity :=
  let p := join (bucket_dir bucket) ".bucket.identity.json" in
  present ← on_disk (path_exists p);
  if (present : bool) then
    read_document identity_codec "Failed to read bucket identity" "Invalid bucket identity" p
  else
    (* a bucket older than the sidecar: derived once from the name marker *)
    created ← on_disk (file_created (join (bucket_dir bucket) ".bucket.name"));
    t ← of_res (ok_or (InternalError "Failed to inspect legacy bucket identity") created);
    let identity := mkIdentity t t in
    write_bucket_identity bucket identity;;
    mret identity.

Definition touch_bucket_identity (bucket : string) : io World unit :=
  identity ← read_bucket_identity_locked bucket;
  t ← now;
  write_bucket_identity bucket (mkIdentity (id_created_at identity) t).

(** ** Buckets *)

Definition read_bucket_metadata (bucket : string) : io World strmap :=
  let p := bucket_metadata_path bucket in
  present ← on_disk (path_exists p);
  if (present : bool) then
    read_document strmap_codec "Failed to read bucket metadata" "Failed to parse bucket metadata" p
  else mret ∅.

Definition write_bucket_metadata (bucket : string) (metadata : strmap) : io World unit :=
  disk (atomic_write (bucket_metadata_path bucket) (enc strmap_codec metadata)).

Definition ENABLED : bytes := as_bytes "enabled".
Definition SUSPENDED : bytes := as_bytes "suspended".

Definition versioning_enabled (bucket : string) : io World bool :=
  let marker := versioning_marker bucket in
  present ← on_disk (path_exists marker);
  if negb present then mret false
  else r ← attempt (disk (read_file "" marker));
       mret (match r with Ok state => negb (eqb state SUSPENDED) | Err _ => true end).

Definition versioning_suspended (bucket : string) : io World bool :=
  r ← attempt (disk (read_file "" (versioning_marker bucket)));
  mret (match r with Ok state => eqb state SUSPENDED | Err _ => false end).

Definition get_bucket_locked (name : string) : io World Bucket :=
  require_bucket name;;
  identity ← read_bucket_identity_locked name;
  t ← now;
  enabled ← versioning_enabled name;
  metadata ← read_bucket_metadata name;
  let b := new_bucket t name in
  mret (mkBucket (b_name b) (id_created_at identity) (id_modified_at identity) enabled
          (b_policy b) (b_lifecycle_rules b) metadata (b_acl b)).

Definition get_bucket (name : string) : io World Bucket := get_bucket_locked name.

Definition create_bucket (name : string) : io World unit :=
  let d := bucket_dir name in
  present ← on_disk (path_exists d);
  if (present : bool) then fail BucketAlreadyExists
  else
    disk (create_directory_durable d);;
    disk (map_fail (fun _ => InternalError "Failed to persist bucket identity")
                   (atomic_write (join d ".bucket.name") (as_bytes name)));;
    t ← now;
    r ← attempt (write_bucket_identity name (mkIdentity t t));
    match r with
    | Err error =>
        disk (map_fail (fun _ => InternalError "failed to roll back bucket creation")
                       (remove_dir_all "" d));;
        fail error
    | Ok _ =>
        modify (fun w => set_azure
          (match w_azure_protection_possible w !! name with
           | Some _ => w_azure_protection_possible w
           | None => <[name := false]> (w_azure_protection_possible w)
           end) w);;
        modify (fun w => set_index (get_or_create_bucket (w_index w) name) w)
    end.

(** [is_bucket_control_entry]: what may remain in a bucket being deleted. *)
Definition is_bucket_control_entry (d : path) (name : string) (s : fs) : bool :=
  existsb (eqb name)
    [".bucket.meta.json"; ".bucket.identity.json"; ".bucket.name"; ".versioning-enabled";
     ".lifecycle.json"; ".policy.json"; "bucket.acl.json"]
  || existsb (eqb name) [".multipart"; ".spool"] && is_dir (join d name) s
       && is_none (head (children_of (join d name) s)).

Definition delete_bucket (name : string) : io World unit :=
  let d := bucket_dir name in
  require_bucket name;;
  names ← disk (read_dir "Failed to read bucket" d);
  empty ← on_disk (fun s => forallb (fun n => is_bucket_control_entry d n s) names);
  if negb empty then fail BucketNotEmpty
  else
    disk (remove_dir_all "Failed to delete bucket" d);;
    modify (fun w => set_index (clear_bucket (w_index w) name) w).

(** The loop of [list_buckets] over the root's entries. *)
Fixpoint collect_buckets (names : list string) : io World (list Bucket) :=
  match names with
  | [] => mret []
  | n :: rest =>
      dir ← on_disk (is_dir [n]);
      if negb dir then collect_buckets rest
      else
        r ← attempt (disk (read_file "" (join [n] ".bucket.name")));
        match r with
        | Ok b => if utf8_valid b then
                    bucket ← get_bucket (text_of_bytes b);
                    buckets ← collect_buckets rest;
                    mret (bucket :: buckets)
                  else collect_buckets rest
        | Err _ => collect_buckets rest
        end
  end.

Definition bucket_name_le (a b : Bucket) : Prop := String.le (b_name a) (b_name b).
#[global] Instance bucket_name_le_dec a b : Decision (bucket_name_le a b).
Proof. unfold bucket_name_le. apply _. Defined.

Definition list_buckets : io World (list Bucket) :=
  names ← disk (read_dir "Failed to read base path" []);
  buckets ← collect_buckets names;
  mret (merge_sort bucket_name_le buckets).

Definition update_bucket_metadata (bucket : string) (metadata : strmap) : io World Bucket :=
  require_bucket bucket;;
  record ← get_bucket_locked bucket;
  if eqb (b_metadata record) metadata then mret record
  else
    write_bucket_metadata bucket metadata;;
    t ← now;
    write_bucket_identity bucket (mkIdentity (b_created_at record) t);;
    mret (mkBucket (b_name record) (b_created_at record) t (b_versioning_enabled record)
            (b_policy record) (b_lifecycle_rules record) metadata (b_acl record)).

(** ** Reading objects *)

Definition read_object_metadata_locked (bucket key : string) : io World Object :=
  let object_id := compute_object_id bucket key in
  disk (recover_publication (object_id_dir bucket object_id));;
  present ← on_disk (path_exists (object_data_path bucket object_id));
  if (present : bool) then disk (read_object_metadata (object_metadata_path bucket object_id))
  else fail KeyNotFound.

Definition read_object_locked (bucket key : string) : io World Object :=
  let object_id := compute_object_id bucket key in
  disk (recover_publication (object_id_dir bucket object_id));;
  present ← on_disk (path_exists (object_data_path bucket object_id));
  if (present : bool) then
    o ← disk (read_object_metadata (object_metadata_path bucket object_id));
    data ← disk (read_file "Failed to read object" (object_data_path bucket object_id));
    mret (with_data data o)
  else fail KeyNotFound.

(** [seek] and [read_exact] of [len] bytes at [start]. *)
Definition read_exact_at (msg : string) (p : path) (start len : N) : io fs bytes :=
  b ← read_file msg p;
  if (start + len <=? size_of b)%N
  then mret (take (N.to_nat len) (drop (N.to_nat start) b))
  else fail (InternalError msg).

(** The range arithmetic shared by the two range readers. *)
Definition resolve_range (size start : N) (stop : option N) : Res (N * N) :=
  if (size <=? start)%N then Err (InvalidRequest "Range start beyond file size")
  else
    let actual_end := (match stop with Some e => N.min e (size - 1) | None => size - 1 end)%N in
    if (actual_end <? start)%N then Err (InvalidRequest "Invalid range: end < start")
    else Ok (start, actual_end - start + 1)%N.

Definition read_object_range_locked (bucket key : string) (start : N) (stop : option N)
    : io World (Object * bytes) :=
  let object_id := compute_object_id bucket key in
  disk (recover_publication (object_id_dir bucket object_id));;
  present ← on_disk (path_exists (object_data_path bucket object_id));
  if negb present then fail KeyNotFound
  else
    o ← disk (read_object_metadata (object_metadata_path bucket object_id));
    '(start, len) ← of_res (resolve_range (o_size o) start stop);
    data ← disk (read_exact_at "Failed to read range" (object_data_path bucket object_id) start len);
    mret (o, data).

Definition get_object (bucket key : string) : io World Object := read_object_locked bucket key.
Definition get_object_metadata (bucket key : string) : io World Object :=
  read_object_metadata_locked bucket key.
Definition get_object_range (bucket key : string) (start : N) (stop : option N)
    : io World (Object * bytes) := read_object_range_locked bucket key start stop.

Definition object_exists (bucket key : string) : io World bool :=
  let object_id := compute_object_id bucket key in
  disk (recover_publication (object_id_dir bucket object_id));;
  on_disk (path_exists (object_data_path bucket object_id)).

(** ** Write conditions *)

(** The condition against the outcome of reading the object's metadata. *)
Definition condition_holds (c : ObjectCondition) (r : Res Object) : Res bool :=
  match c, r with
  | Missing, Err KeyNotFound | MissingOrEtagNotIn _, Err KeyNotFound => Ok true
  | Missing, Ok _ | _, Err KeyNotFound => Ok false
  | Etag expected, Ok o => Ok (eqb (o_etag o) expected)
  | EtagIn expected, Ok o => Ok (existsb (fun e => eqb e (o_etag o)) expected)
  | EtagNotIn rejected, Ok o | MissingOrEtagNotIn rejected, Ok o =>
      Ok (negb (existsb (fun e => eqb e (o_etag o)) rejected))
  | Metadata k v, Ok o => Ok (eqb (o_metadata o !! k) (Some v))
  | MetadataNot k v, Ok o => Ok (negb (eqb (o_metadata o !! k) (Some v)))
  | All _, Ok _ => Err (InternalError "handled above")
  | _, Err e => Err e
  end.

Fixpoint object_condition_matches (bucket key : string) (c : ObjectCondition) : io World bool :=
  match c with
  | All conditions =>
      (fix all (cs : list ObjectCondition) : io World bool :=
         match cs with
         | [] => mret true
         | c' :: rest =>
             b ← object_condition_matches bucket key c';
             if (b : bool) then all rest else mret false
         end) conditions
  | _ => r ← attempt (read_object_metadata_locked bucket key); of_res (condition_holds c r)
  end.

(** ** Writing objects *)

Definition admit_azure_protection (bucket : string) (o : Object) : io World unit :=
  if object_has_azure_protection_metadata o
  then modify (fun w => set_azure (<[bucket := true]> (w_azure_protection_possible w)) w)
  else mret tt.

Definition azure_object_protection_absent (bucket : string) (w : World) : bool :=
  eqb (w_azure_protection_possible w !! bucket) (Some false).

Definition write_version_snapshot (bucket object_id version_id : string) (o : Object) : io World unit :=
  disk (publish_pair (version_dir bucket object_id version_id) (with_version_id (Some version_id) o)
                     (Stored (object_data_path bucket object_id))).

(** [unwrap_or_else(|| "null")] *)
Definition version_or_null (o : Object) : string :=
  match o_version_id o with Some v => v | None => "null" end.

(** Keep the current generation in the history before it is replaced. *)
Definition snapshot_current (bucket key : string) (enabled : bool) : io World unit :=
  r ← attempt (read_object_metadata_locked bucket key);
  match r with
  | Ok current =>
      let id := version_or_null current in
      if enabled || negb (eqb id "null")
      then write_version_snapshot bucket (compute_object_id bucket key) id current
      else mret tt
  | Err KeyNotFound => mret tt
  | Err e => fail e
  end.

Definition put_object_locked_with_payload (bucket key : string) (object : Object)
    (payload : ObjectPayload) : io World unit :=
  require_bucket bucket;;
  admit_azure_protection bucket object;;
  enabled ← versioning_enabled bucket;
  suspended ← versioning_suspended bucket;
  object ←
    (if (enabled : bool) || (suspended : bool) then
       snapshot_current bucket key enabled;;
       if (suspended : bool) then mret (with_version_id (Some "null") object)
       else u ← new_uuid; mret (with_version_id (Some u) object)
     else mret (with_version_id None object));
  let d := object_dir bucket key in
  outcome ← attempt (disk (publish_pair d object payload));
  visible ← on_disk (fun s => is_ok outcome || path_exists (join d JOURNAL) s
                              || path_exists (join d BLOB) s);
  (if (visible : bool)
   then modify (fun w => set_index (index_insert (w_index w) bucket key) w) else mret tt);;
  of_res outcome.

Definition put_object_locked (bucket key : string) (object : Object) : io World unit :=
  put_object_locked_with_payload bucket key object InMemory.
Definition put_object (bucket key : string) (object : Object) : io World unit :=
  put_object_locked bucket key object.
Definition put_object_streamed (bucket key : string) (object : Object) (payload_path : path)
    : io World unit := put_object_locked_with_payload bucket key object (Spooled payload_path).

Definition put_object_if (bucket key : string) (object : Object) (c : ObjectCondition)
    : io World bool :=
  b ← object_condition_matches bucket key c;
  if (b : bool) then put_object_locked bucket key object;; mret true else mret false.
Definition put_object_streamed_if (bucket key : string) (object : Object) (payload_path : path)
    (c : ObjectCondition) : io World bool :=
  b ← object_condition_matches bucket key c;
  if (b : bool)
  then put_object_locked_with_payload bucket key object (Spooled payload_path);; mret true
  else mret false.

(** ** Deleting objects *)

Definition delete_marker (t : time) (key version_id : string) : Object :=
  let o := new_object t key [] "application/x-sqrzl-delete-marker" in
  with_provider_metadata (<["s3_delete_marker" := "true"]> (o_provider_metadata o))
    (with_version_id (Some version_id) o).

Definition delete_object_locked (bucket key : string) : io World unit :=
  let d := object_dir bucket key in
  enabled ← versioning_enabled bucket;
  suspended ← versioning_suspended bucket;
  (if (enabled : bool) || (suspended : bool) then
     require_bucket bucket;;
     snapshot_current bucket key enabled;;
     id ← (if (suspended : bool) then mret "null" else new_uuid);
     t ← now;
     disk (change_history d None (if (suspended : bool) then ["null"] else [])
                          (Some (delete_marker t key id)) true)
   else
     read_object_metadata_locked bucket key;;
     disk (change_history d None [] None true);;
     disk (remove_dir_all "Failed to remove retired object directory" d);;
     disk (sync_directory (bucket_dir bucket)));;
  modify (fun w => set_index (index_remove (w_index w) bucket key).1 w).

Definition delete_object (bucket key : string) : io World unit := delete_object_locked bucket key.
Definition delete_object_if (bucket key : string) (c : ObjectCondition) : io World bool :=
  b ← object_condition_matches bucket key c;
  if (b : bool) then delete_object_locked bucket key;; mret true else mret false.

(** ** Metadata updates in place *)

(** Recover, require the metadata file, rewrite it. *)
Definition update_metadata (bucket key : string) (f : Object -> Object) : io World unit :=
  let object_id := compute_object_id bucket key in
  disk (recover_publication (object_id_dir bucket object_id));;
  let p := object_metadata_path bucket object_id in
  present ← on_disk (path_exists p);
  if (present : bool) then
    o ← disk (read_object_metadata p);
    disk (write_object_metadata p (f o))
  else fail KeyNotFound.

Definition update_object_storage_class (bucket key storage_class : string) : io World unit :=
  update_metadata bucket key (with_storage_class storage_class).
Definition put_object_tags (bucket key : string) (tags : strmap) : io World unit :=
  update_metadata bucket key (with_tags tags).
Definition delete_object_tags (bucket key : string) : io World unit :=
  update_metadata bucket key (with_tags ∅).
Definition put_object_acl (bucket key : string) (acl : Acl) : io World unit :=
  update_metadata bucket key (with_acl (Some acl)).
Definition get_object_tags (bucket key : string) : io World strmap :=
  o ← get_object_metadata bucket key; mret (o_tags o).
Definition get_object_acl (bucket key : string) : io World Acl :=
  o ← get_object_metadata bucket key;
  mret (match o_acl o with Some a => a | None => default_acl end).

(** The fields a metadata replacement compares. *)
Definition unchanged (current observed : Object) : bool :=
  eqb (o_etag current) (o_etag observed) &&
  eqb (o_last_modified current) (o_last_modified observed) &&
  eqb (o_version_id current) (o_version_id observed) &&
  eqb (o_content_type current) (o_content_type observed) &&
  eqb (o_metadata current) (o_metadata observed) &&
  eqb (o_provider_metadata current) (o_provider_metadata observed).

Definition replace_object_metadata_if_unchanged (bucket key : string) (observed updated : Object)
    : io World bool :=
  let object_id := compute_object_id bucket key in
  disk (recover_publication (object_id_dir bucket object_id));;
  let p := object_metadata_path bucket object_id in
  present ← on_disk (path_exists p);
  if negb present then mret false
  else
    current ← disk (read_object_metadata p);
    if negb (unchanged current observed) then mret false
    else
      let current := with_descriptive (o_content_type updated) (o_metadata updated)
                       (o_provider_metadata updated) current in
      admit_azure_protection bucket current;;
      disk (write_object_metadata p current);;
      mret true.

(** ** Bucket sidecars *)

Definition get_bucket_acl (bucket : string) : io World Acl :=
  require_bucket bucket;;
  present ← on_disk (path_exists (bucket_acl_path bucket));
  if (present : bool) then
    read_document acl_codec "Failed to read bucket ACL" "Failed to parse bucket ACL" (bucket_acl_path bucket)
  else mret default_acl.

Definition put_bucket_acl (bucket : string) (acl : Acl) : io World unit :=
  require_bucket bucket;;
  disk (atomic_write (bucket_acl_path bucket) (enc acl_codec acl));;
  touch_bucket_identity bucket.

(** A document kept in the bucket directory under [name]. *)
Definition get_sidecar {A} (c : Codec A) (name : string) (bucket : string) : io World A :=
  require_bucket bucket;;
  let p := join (bucket_dir bucket) name in
  present ← on_disk (path_exists p);
  if (present : bool) then read_document c "Failed to read" "Failed to parse" p
  else fail KeyNotFound.
Definition put_sidecar {A} (c : Codec A) (name : string) (bucket : string) (x : A) : io World unit :=
  require_bucket bucket;;
  disk (atomic_write (join (bucket_dir bucket) name) (enc c x));;
  touch_bucket_identity bucket.
Definition delete_sidecar (name : string) (bucket : string) : io World unit :=
  require_bucket bucket;;
  let p := join (bucket_dir bucket) name in
  present ← on_disk (path_exists p);
  if (present : bool) then disk (remove_file "Failed to delete" p);; touch_bucket_identity bucket
  else mret tt.

Definition get_bucket_lifecycle : string -> io World LifecycleConfiguration :=
  get_sidecar lifecycle_codec ".lifecycle.json".
Definition put_bucket_lifecycle : string -> LifecycleConfiguration -> io World unit :=
  put_sidecar lifecycle_codec ".lifecycle.json".
Definition delete_bucket_lifecycle : string -> io World unit := delete_sidecar ".lifecycle.json".
Definition get_bucket_policy : string -> io World BucketPolicyDocument :=
  get_sidecar policy_codec ".policy.json".
Definition put_bucket_policy : string -> BucketPolicyDocument -> io World unit :=
  put_sidecar policy_codec ".policy.json".
Definition delete_bucket_policy : string -> io World unit := delete_sidecar ".policy.json".

(** ** Provider state *)

Definition put_provider_state (provider key : string) (data : bytes) : io World unit :=
  disk (atomic_write (provider_state_path provider key) data).
Definition get_provider_state (provider key : string) : io World bytes :=
  present ← on_disk (path_exists (provider_state_path provider key));
  if (present : bool)
  then disk (read_file "Failed to read provider state" (provider_state_path provider key))
  else fail KeyNotFound.
Definition delete_provider_state (provider key : string) : io World unit :=
  present ← on_disk (path_exists (provider_state_path provider key));
  if (present : bool)
  then disk (remove_file "Failed to delete provider state" (provider_state_path provider key))
  else mret tt.

End Storage.
Global Arguments World M : clear implicits.
Global Arguments mkWorld {M} _ _ _ _.
