(* ===== verification/StorageFacts.v ===== *)
(** * StorageFacts: reading, writing and deleting objects

    The operations of [Storage] on an object directory that holds an object or
    nothing ([held]): what they return, what they leave there, and that they
    leave every other object alone.  An interrupted write is read back as the
    old object or as the new one. *)

From Stdlib Require Import Ascii.
From S2P Require Import Prelude Text Models Policy SkipMap Index IndexFacts FsModel Publication.
From S2P Require Import FileFacts PublicationFacts ConcreteEnv PublicationSafety Lifecycle Storage.

(** ** What an object directory holds *)

Section Held.
Context `{EnvLaws}.

(** No decision is pending, and the public pair is [x]. *)
Record held (d : path) (x : option (Object * bytes)) (s : fs) : Prop := mkHeld {
  held_settled : settled d s;
  held_pair : pair_at s d = match x with
                            | Some (o, b) => (Some (File b), Some (File (encode_object o)))
                            | None => (None, None)
                            end;
  held_size : forall o b, x = Some (o, b) -> o_size o = size_of b }.

Lemma private_not_pair d n : n = BLOB \/ n = META -> ~ private d (join d n).
Proof.
  intros Hn Hp. assert (stage_name n = false) as Hs by (by destruct Hn as [-> | ->]).
  by destruct (private_apart d (join d n) n Hp Hs) as [_ ?].
Qed.

Lemma pair_at_agree Y d s s' :
  agree Y s s' -> (forall n, n = BLOB \/ n = META -> ~ Y (join d n)) -> pair_at s' d = pair_at s d.
Proof.
  intros Ha Hn. unfold pair_at. f_equal; (apply (agree_at _ _ _ Ha);
    [apply scratch_blob || apply scratch_meta|apply Hn; auto]).
Qed.

Lemma held_private d x s s' :
  held d x s -> settled d s' -> agree (private d) s s' -> held d x s'.
Proof.
  intros Hh Hs Ha. split; [done| |apply Hh].
  rewrite (pair_at_agree _ d s s' Ha); [apply Hh|apply private_not_pair].
Qed.

(** A directory apart from [d]: neither is in the other. *)
Definition apart (d d' : path) : Prop := below d d' = false /\ below d' d = false.

Lemma apart_inside d d' q : apart d d' -> inside d' q -> below d q = false /\ below q d = false.
Proof.
  intros [H1 H2] (n & rest & ->). split; apply not_true_iff_false; intros [x Hx]%below_spec.
  - apply app_eq_inv in Hx as [(k & -> & _)|(k & -> & _)].
    + by rewrite (proj2 (below_spec d (d ++ k))) in H1 by eauto.
    + by rewrite (proj2 (below_spec d' (d' ++ k))) in H2 by eauto.
  - rewrite <- app_assoc in Hx. rewrite Hx in H2.
    by rewrite (proj2 (below_spec d' (d' ++ (n :: rest) ++ x))) in H2 by eauto.
Qed.

(** An operation on [d] leaves what another directory holds. *)
Lemma held_frame d d' x (input : path -> Prop) s s' :
  apart d d' -> is_dir (parent d') s = true ->
  (forall q, input q -> below d' q = false /\ below q d' = false) ->
  agree (surroundings d s input) s s' -> held d' x s -> held d' x s'.
Proof.
  intros Hap Hpar Hin Ha Hh. destruct Hh as [Hs Hp Hsz].
  assert (forall q, inside d' q -> scratch q = false -> s' !! q = s !! q) as Hkeep.
  { intros q Hq Hsc. apply (agree_at _ _ _ Ha); [done|].
    destruct (apart_inside d d' q Hap Hq) as [N1 N2].
    intros [?|[[N3 _]%Hin|[? _]]]; try congruence.
    apply inside_below in Hq. congruence. }
  assert (forall n, inside d' (join d' n)) as Hj by (intros n; by exists n, []).
  split.
  - split.
    + apply Ha, Hs.
    + split.
      * intros q Hq. rewrite Hkeep; [by apply (shape_file d' s (se_shape d' s Hs))|by apply file_path_inside|].
        by eapply file_path_not_scratch.
      * intros q b Hq. rewrite Hkeep; [by apply (shape_dir d' s (se_shape d' s Hs))|by apply dir_path_inside|].
        by eapply dir_path_not_scratch.
    + rewrite Hkeep; [apply Hs|apply Hj|apply scratch_journal].
    + intros q Hq. destruct (se_creatable d' s Hs q Hq) as [Hsc Hf]. split; [done|].
      rewrite (agree_at _ _ _ Ha); [done|done|].
      assert (below d q = false) as Hdq.
      { apply not_true_iff_false. intros Hd. destruct Hap as [H1 _].
        by rewrite (below_trans d q d') in H1. }
      intros [?|[[_ ?]%Hin|[Hb Hnone]]]; try congruence.
      apply below_parent in Hq as [Heq|Hq]; [subst q|].
      * destruct Hap as [_ H2]. congruence.
      * apply is_dir_true in Hpar.
        destruct (ok_dir_below s q (parent d') _ (se_ok d' s Hs) Hpar Hq) as [Heq|]; congruence.
  - rewrite <- Hp. unfold pair_at. f_equal; apply Hkeep; (apply scratch_blob || apply scratch_meta || apply Hj).
  - done.
Qed.

(** What a finished publication of a pair leaves. *)
Lemma complete_held d o b input s0 s n :
  outside d input -> stage_name n = true -> o_size o = size_of b ->
  complete d (pair_record d o n) b (encode_object o) s0 (caller_area d s0 input) s ->
  held d (Some (o, b)) s.
Proof.
  intros Hout Hn Hsz Hc. split.
  - split; [apply Hc..|]. apply dir_creatable; apply Hc.
  - eapply complete_new in Hc as [Hp _]; [exact Hp| |by apply pair_record_valid].
    intros q. by apply caller_area_inside.
  - by intros o' b' [= <- <-].
Qed.

Lemma arrived_held d o b input s0 s :
  outside d input -> o_size o = size_of b ->
  arrived d s0 input (pair_record d o) b (encode_object o) s -> held d (Some (o, b)) s.
Proof. intros Hout Hsz (n & Hn & Hc). by eapply complete_held. Qed.

Lemma arrived_stands d s0 input rec b j s : arrived d s0 input rec b j s -> stands d s0 input rec b j s.
Proof. intros (n & Hn & Hc). right. exists n. auto. Qed.

(** Whatever happens during the publication, it stays in its surroundings. *)
Lemma decided_surroundings d r b j s0 input s :
  decided d r b j s0 (caller_area d s0 input) s -> agree (surroundings d s0 input) s0 s.
Proof.
  intros Hc. eapply agree_weaken; [|apply Hc]. intros q [Ht|Hx].
  - left. by eapply touched_below.
  - by apply caller_area_surroundings.
Qed.

Lemma stands_surroundings d s0 input rec b j s :
  stands d s0 input rec b j s -> agree (surroundings d s0 input) s0 s.
Proof.
  intros [Hi|(n & _ & [Hd|Hc])];
    [by apply idle_surroundings|by eapply decided_surroundings|by eapply complete_surroundings].
Qed.

Lemma idle_held d x input s0 s : outside d input -> held d x s0 -> idle d s0 input s -> held d x s.
Proof.
  intros Hout Hh [Hs Ha]. split; [done| |apply Hh].
  rewrite (pair_at_agree _ d s0 s Ha); [apply Hh|]. intros n Hn Hx.
  apply (caller_area_inside d s0 input) in Hx as [Hx|Hx]; [|by apply join_ne_self in Hx|done|apply below_join].
  revert Hx. by apply private_not_pair.
Qed.
End Held.

(** ** Reads *)

Section Ops.
Context {M : Type -> Type} `{SkipMapLaws M} `{EnvLaws} `{StoreEnv} `{Digests} {m : mode}.
Abbreviation World := (World M).

(** What must hold where a fault may leave the store. *)
Definition wfails (E : Error -> World -> Prop) (C : World -> Prop) (w : World) : Prop :=
  m_faults m = true -> (forall e, E e w) /\ C w.

Lemma wp_disk {A} (p : io fs A) Q E C (w : World) :
  wp m p (fun a s => Q a (set_fs s w)) (fun e s => E e (set_fs s w)) (fun s => C (set_fs s w)) (w_fs w) ->
  wp m (disk p) Q E C w.
Proof. apply wp_zoom. Qed.

Lemma set_fs_id (w : World) : set_fs (w_fs w) w = w.
Proof. by destruct w. Qed.

Lemma wp_read_metadata p o Q E C s :
  s !! p = Some (File (encode_object o)) -> Q (strip_data o) s -> @fails m E C s ->
  wp m (read_object_metadata p) Q E C s.
Proof.
  intros Hp HQ HF. unfold read_object_metadata. apply wp_bind. eapply wp_read_file; [done| |done].
  apply wp_of_res. by rewrite decode_encode_object.
Qed.

(** Recovery of a directory that is not in the middle of a publication. *)
Lemma wp_recover_held d x Q E C s :
  held d x s ->
  (forall s', held d x s' -> agree (private d) s s' -> Q tt s') ->
  (forall s', held d x s' -> agree (private d) s s' -> @fails m E C s') ->
  wp m (recover_publication d) Q E C s.
Proof.
  intros Hh HQ HF. apply wp_recover_settled; [apply Hh| |]; intros; eauto using held_private.
Qed.

Lemma wp_read_object_metadata_locked bucket key x Q E C (w : World) :
  let d := object_dir bucket key in
  held d x (w_fs w) ->
  (forall s', held d x s' -> agree (private d) (w_fs w) s' ->
     match x with
     | Some (o, _) => Q (strip_data o) (set_fs s' w)
     | None => E KeyNotFound (set_fs s' w)
     end) ->
  (forall s', held d x s' -> agree (private d) (w_fs w) s' -> wfails E C (set_fs s' w)) ->
  wp m (read_object_metadata_locked bucket key) Q E C w.
Proof.
  intros d Hh HQ HF. unfold read_object_metadata_locked.
  apply wp_bind, wp_disk, (wp_recover_held d x); [done| |by auto].
  intros s' Hh' Ha. apply wp_bind, wp_gets. simpl.
  specialize (HQ s' Hh' Ha). specialize (HF s' Hh' Ha).
  pose proof (held_pair _ _ _ Hh') as Hp. unfold pair_at in Hp.
  change (object_data_path bucket (compute_object_id bucket key)) with (join d BLOB).
  unfold path_exists. destruct x as [[o b]|]; injection Hp as Hb Hm; rewrite Hb; simpl.
  - apply wp_disk. simpl. by eapply wp_read_metadata.
  - by apply wp_fail.
Qed.

Lemma wp_read_object_locked bucket key x Q E C (w : World) :
  let d := object_dir bucket key in
  held d x (w_fs w) ->
  (forall s', held d x s' -> agree (private d) (w_fs w) s' ->
     match x with
     | Some (o, b) => Q (with_data b (strip_data o)) (set_fs s' w)
     | None => E KeyNotFound (set_fs s' w)
     end) ->
  (forall s', held d x s' -> agree (private d) (w_fs w) s' -> wfails E C (set_fs s' w)) ->
  wp m (read_object_locked bucket key) Q E C w.
Proof.
  intros d Hh HQ HF. unfold read_object_locked.
  apply wp_bind, wp_disk, (wp_recover_held d x); [done| |by auto].
  intros s' Hh' Ha. apply wp_bind, wp_gets. simpl.
  specialize (HQ s' Hh' Ha). specialize (HF s' Hh' Ha).
  pose proof (held_pair _ _ _ Hh') as Hp. unfold pair_at in Hp.
  change (object_data_path bucket (compute_object_id bucket key)) with (join d BLOB).
  unfold path_exists. destruct x as [[o b]|]; injection Hp as Hb Hm; rewrite Hb; simpl.
  - apply wp_bind, wp_disk. simpl. eapply wp_read_metadata; [done| |done].
    apply wp_bind, wp_disk. simpl. eapply wp_read_file; [done| |done]. by apply wp_ret.
  - by apply wp_fail.
Qed.

Lemma wp_read_object_range_locked bucket key start stop x Q E C (w : World) :
  let d := object_dir bucket key in
  held d x (w_fs w) ->
  (forall s', held d x s' -> agree (private d) (w_fs w) s' ->
     match x with
     | Some (o, b) =>
         match resolve_range (size_of b) start stop with
         | Ok (from, len) =>
             Q (strip_data o, take (N.to_nat len) (drop (N.to_nat from) b)) (set_fs s' w)
         | Err e => E e (set_fs s' w)
         end
     | None => E KeyNotFound (set_fs s' w)
     end) ->
  (forall s', held d x s' -> agree (private d) (w_fs w) s' -> wfails E C (set_fs s' w)) ->
  wp m (read_object_range_locked bucket key start stop) Q E C w.
Proof.
  intros d Hh HQ HF. unfold read_object_range_locked.
  apply wp_bind, wp_disk, (wp_recover_held d x); [done| |by auto].
  intros s' Hh' Ha. apply wp_bind, wp_gets. simpl.
  specialize (HQ s' Hh' Ha). specialize (HF s' Hh' Ha).
  pose proof (held_pair _ _ _ Hh') as Hp. unfold pair_at in Hp.
  change (object_data_path bucket (compute_object_id bucket key)) with (join d BLOB).
  unfold path_exists. destruct x as [[o b]|]; injection Hp as Hb Hm; rewrite Hb; simpl; [|by apply wp_fail].
  apply wp_bind, wp_disk. simpl. eapply wp_read_metadata; [done| |done].
  assert (o_size (strip_data o) = size_of b) as -> by (by apply (held_size _ _ _ Hh' o b)).
  apply wp_bind, wp_of_res. destruct (resolve_range (size_of b) start stop) as [[from len]|e] eqn:Er; [|done].
  apply wp_bind, wp_disk. simpl. unfold read_exact_at.
  apply wp_bind. eapply wp_read_file; [done| |done].
  unfold resolve_range in Er. destruct (N.leb_spec (size_of b) start); [done|].
  set (stop' := match stop with Some e => N.min e (size_of b - 1) | None => size_of b - 1 end%N) in *.
  destruct (N.ltb_spec stop' start); [done|]. injection Er as <- <-.
  assert (stop' <= size_of b - 1)%N by (unfold stop'; destruct stop; lia).
  rewrite (proj2 (N.leb_le _ _)) by lia. by apply wp_ret, wp_ret.
Qed.

(** ** Writes to an unversioned bucket *)

(** The bucket exists and versioning was never turned on. *)
Definition unversioned (bucket : string) (s : fs) : Prop :=
  path_exists (bucket_dir bucket) s = true /\ s !! versioning_marker bucket = None.

Lemma wp_require_bucket bucket Q E C (w : World) :
  path_exists (bucket_dir bucket) (w_fs w) = true -> Q tt w -> wp m (require_bucket bucket) Q E C w.
Proof.
  intros Hb HQ. unfold require_bucket, bucket_exists. apply wp_bind, wp_gets. rewrite Hb. by apply wp_ret.
Qed.

Lemma wp_versioning_off bucket Q E C (w : World) :
  w_fs w !! versioning_marker bucket = None -> Q false w -> wp m (versioning_enabled bucket) Q E C w.
Proof.
  intros Hv HQ. unfold versioning_enabled. apply wp_bind, wp_gets.
  rewrite (proj2 (path_exists_false _ _) Hv). by apply wp_ret.
Qed.

Lemma wp_not_suspended bucket Q E C (w : World) :
  w_fs w !! versioning_marker bucket = None -> Q false w -> (m_faults m = true -> C w) ->
  wp m (versioning_suspended bucket) Q E C w.
Proof.
  intros Hv HQ HC. unfold versioning_suspended. apply wp_bind, wp_attempt, wp_disk.
  apply wp_sys; unfold untouched; cbn beta; rewrite ?set_fs_id; [|intros; by apply wp_ret|by auto].
  intros _. rewrite Hv. by apply wp_ret.
Qed.

(** What [admit_azure_protection] records. *)
Definition admitted (bucket : string) (o : Object) (w : World) : World :=
  if object_has_azure_protection_metadata o
  then set_azure (<[bucket := true]> (w_azure_protection_possible w)) w else w.

Lemma wp_admit bucket o Q E C (w : World) :
  Q tt (admitted bucket o w) -> wp m (admit_azure_protection bucket o) Q E C w.
Proof.
  intros HQ. unfold admit_azure_protection, admitted in *.
  destruct (object_has_azure_protection_metadata o); [by apply wp_modify|by apply wp_ret].
Qed.

Lemma admitted_fs bucket o (w : World) : w_fs (admitted bucket o w) = w_fs w.
Proof. unfold admitted. by destruct (object_has_azure_protection_metadata o). Qed.
Lemma admitted_index bucket o (w : World) : w_index (admitted bucket o w) = w_index w.
Proof. unfold admitted. by destruct (object_has_azure_protection_metadata o). Qed.

Lemma wp_put_unversioned bucket key o payload b x Q E C (w : World) :
  let d := object_dir bucket key in
  let o' := with_version_id None o in
  unversioned bucket (w_fs w) -> held d x (w_fs w) ->
  outside d (payload_input payload) -> payload_ok d (w_fs w) o' payload b -> o_size o = size_of b ->
  (forall w', arrived d (w_fs w) (payload_input payload) (pair_record d o') b (encode_object o') (w_fs w') ->
     w_index w' = index_insert (w_index w) bucket key -> Q tt w') ->
  (forall w', stands d (w_fs w) (payload_input payload) (pair_record d o') b (encode_object o') (w_fs w') ->
     wfails E C w') ->
  wp m (put_object_locked_with_payload bucket key o payload) Q E C w.
Proof.
  intros d o' [Hb Hv] Hh Hout Hpay Hsz HQ HF. unfold put_object_locked_with_payload.
  assert (idle d (w_fs w) (payload_input payload) (w_fs w)) as Hidle
    by (split; [apply Hh|apply agree_refl]).
  apply wp_bind, wp_require_bucket; [done|].
  apply wp_bind, wp_admit. set (w0 := admitted bucket o w).
  assert (w_fs w0 = w_fs w) as Hfs by apply admitted_fs.
  apply wp_bind, wp_versioning_off; [by rewrite Hfs|].
  apply wp_bind, wp_not_suspended; [by rewrite Hfs| |].
  2:{ intros Hm. apply HF; [|done]. left. by rewrite Hfs. }
  apply wp_bind. simpl. apply wp_ret. apply wp_bind, wp_attempt, wp_disk. rewrite Hfs.
  eapply (wp_publish_pair d (w_fs w) o' payload b); [apply Hh|done..| |].
  - intros n s' Hn Hc. apply wp_bind, wp_gets. simpl.
    apply wp_bind, wp_modify. simpl. apply wp_ret. apply HQ; simpl.
    + by exists n.
    + unfold w0. by rewrite admitted_index.
  - intros s' Hst Hm. split.
    + intros e. apply wp_bind, wp_gets. simpl.
      destruct (path_exists _ s' || path_exists _ s'); simpl.
      * apply wp_bind, wp_modify. apply wp_fail. by apply HF.
      * apply wp_bind, wp_ret. apply wp_fail. by apply HF.
    + by apply HF.
Qed.

(** Reading a directory where a publication of a pair was interrupted: recovery
    settles it first. *)
Lemma wp_recover_stands d s0 input o b x Q E C s :
  outside d input -> held d x s0 -> o_size o = size_of b ->
  stands d s0 input (pair_record d o) b (encode_object o) s ->
  (forall s', held d (Some (o, b)) s' -> Q tt s') ->
  (idle d s0 input s -> forall s', held d x s' -> Q tt s') ->
  (forall s', @fails m E C s') -> wp m (recover_publication d) Q E C s.
Proof.
  intros Hout Hh Hsz [Hi|Hl] Hnew Hold HF.
  - apply (wp_recover_idle d s0 input); [done| |done].
    intros s' _ _ Hi'. apply Hold; [done|]. by eapply idle_held.
  - apply (wp_recover_landed d s0 input (pair_record d o) b (encode_object o));
      [intros; by apply pair_record_valid|done| |done].
    intros s' _ _ (n & Hn & Hc). apply Hnew. by eapply complete_held.
Qed.

Lemma wp_get_after_recovery bucket key x Q E C (w : World) :
  let d := object_dir bucket key in
  wp m (recover_publication d) (fun _ s' => held d x s') (fun e s' => E e (set_fs s' w)) (fun s' => C (set_fs s' w)) (w_fs w) ->
  (forall w', match x with
     | Some (o, b) => Q (with_data b (strip_data o)) w'
     | None => E KeyNotFound w'
     end) ->
  (forall w', wfails E C w') ->
  wp m (get_object bucket key) Q E C w.
Proof.
  intros d Hrec HQ HF. unfold get_object, read_object_locked. apply wp_bind, wp_disk.
  eapply wp_mono; [exact Hrec| |done|done]. intros [] s' Hh. apply wp_bind, wp_gets. simpl.
  pose proof (held_pair _ _ _ Hh) as Hp. unfold pair_at in Hp.
  change (object_data_path bucket (compute_object_id bucket key)) with (join d BLOB).
  unfold path_exists. destruct x as [[o b]|]; injection Hp as Hb Hm; rewrite Hb; simpl.
  - apply wp_bind, wp_disk. simpl. eapply wp_read_metadata; [done| |intros ?; by apply HF].
    apply wp_bind, wp_disk. simpl. eapply wp_read_file; [done| |intros ?; by apply HF]. by apply wp_ret.
  - by apply wp_fail.
Qed.
End Ops.

(** ** Objects: what a client observes *)

Definition is_done {A} (o : outcome A) : bool := match o with Done _ => true | _ => false end.

Section Objects.
Context {M : Type -> Type} `{SkipMapLaws M} `{EnvLaws} `{StoreEnv} `{Digests}.
Abbreviation World := (World M).

Lemma in_memory_ok d s o : payload_ok d s o InMemory (o_data o).
Proof. done. Qed.

(** C17 [put_then_get]. On a bucket without versioning, put_object followed by
    get_object returns the object that was put, with no version id, and the
    key is in the index. *)
Theorem put_then_get bucket key o x (w : World) σ :
  unversioned bucket (w_fs w) -> held (object_dir bucket key) x (w_fs w) ->
  o_size o = size_of (o_data o) -> sched_ok calm σ ->
  exists w' σ', (put_object bucket key o;; get_object bucket key) σ w
                = (Done (with_version_id None o), w', σ') /\
    w_index w' = index_insert (w_index w) bucket key.
Proof.
  intros Hun Hh Hsz Hσ.
  destruct (wp_calm_run (put_object bucket key o;; get_object bucket key)
    (fun r w' => r = with_version_id None o /\ w_index w' = index_insert (w_index w) bucket key) w σ)
    as (r & w' & σ' & Hrun & -> & Hi); [|done|by eauto].
  apply wp_bind. eapply wp_put_unversioned; [done|exact Hh|by intros q []|done|done| |done].
  intros w1 Hr1 Hi1. eapply wp_read_object_locked; [eapply arrived_held; [| |exact Hr1]; [by intros q []|done]| |done].
  intros s' _ _. split; [|done]. by destruct o.
Qed.

(** Where the store is after a put, whatever happened during it. *)
Lemma put_object_stands bucket key o x (w : World) σ out w1 σ1 :
  let d := object_dir bucket key in
  let o' := with_version_id None o in
  unversioned bucket (w_fs w) -> held d x (w_fs w) -> o_size o = size_of (o_data o) ->
  put_object bucket key o σ w = (out, w1, σ1) ->
  stands d (w_fs w) (payload_input InMemory) (pair_record d o') (o_data o) (encode_object o') (w_fs w1) /\
  (out = Done tt -> arrived d (w_fs w) (payload_input InMemory) (pair_record d o') (o_data o) (encode_object o') (w_fs w1)).
Proof.
  intros d o' Hun Hh Hsz Hrun.
  set (P := stands d (w_fs w) (payload_input InMemory) (pair_record d o') (o_data o) (encode_object o')).
  set (R := arrived d (w_fs w) (payload_input InMemory) (pair_record d o') (o_data o) (encode_object o')).
  pose proof (wp_run any_schedule (put_object bucket key o) (fun _ w' => R (w_fs w'))
    (fun _ w' => P (w_fs w')) (fun w' => P (w_fs w')) w σ out w1 σ1) as Hr.
  assert (holds (fun _ w' => R (w_fs w')) (fun _ w' => P (w_fs w')) (fun w' => P (w_fs w')) out w1) as Ho.
  { apply Hr; [|apply any_schedule_ok|done].
    eapply wp_put_unversioned; [done|exact Hh|by intros q []|done|done|by intros w' ? _|].
    intros w' Hst _. by split. }
  destruct out as [[]|e|]; simpl in Ho; [|by split..].
  split; [by apply arrived_stands|by intros _].
Qed.

(** C3 [interrupted_put_reads_old_or_new]. On a bucket without versioning,
    after a put_object that failed or was killed at any point, a get_object of
    the key on the disk it left, in the same or in another process and before
    any start-up scan (a read recovers its directory itself), returns the
    complete new object or the complete old one, never a mixture, and never
    the old one if the put returned Ok; when the read meets no faults it does
    return, or answers KeyNotFound where nothing was stored before and the put
    did not return Ok. *)
Theorem interrupted_put_reads_old_or_new bucket key o x (w w1 w2 w3 : World) σ out σ1 σ2 got σ3 :
  unversioned bucket (w_fs w) -> held (object_dir bucket key) x (w_fs w) ->
  o_size o = size_of (o_data o) ->
  put_object bucket key o σ w = (out, w1, σ1) ->
  w_fs w2 = w_fs w1 -> get_object bucket key σ2 w2 = (got, w3, σ3) ->
  (forall r, got = Done r ->
     r = with_version_id None o \/
     out <> Done tt /\ exists old b, x = Some (old, b) /\ r = with_data b (strip_data old)) /\
  (sched_ok calm σ2 ->
     (exists r, got = Done r) \/ got = Failed KeyNotFound /\ x = None /\ out <> Done tt).
Proof.
  intros Hun Hh Hsz Hput Hfs Hget.
  destruct (put_object_stands bucket key o x w σ out w1 σ1 Hun Hh Hsz Hput) as [Hst Hok].
  set (d := object_dir bucket key) in *. set (o' := with_version_id None o) in *.
  assert (exists y, (y = Some (o', o_data o) \/ out <> Done tt /\ y = x) /\
    forall m', wp m' (recover_publication d) (fun _ s' => held d y s')
      (fun _ _ => m_faults m' = true) (fun _ => m_faults m' = true) (w_fs w2)) as (y & Hy & Hrec).
  { rewrite Hfs. assert (forall Hl : landed d (w_fs w) (payload_input InMemory) (pair_record d o')
      (o_data o) (encode_object o') (w_fs w1), forall m', wp m' (recover_publication d)
      (fun _ s' => held d (Some (o', o_data o)) s') (fun _ _ => m_faults m' = true)
      (fun _ => m_faults m' = true) (w_fs w1)) as Hnew.
    { intros Hl m'. eapply wp_recover_landed; [|exact Hl| |by intros s' _ ?]; [intros n Hn; by apply pair_record_valid|].
      intros s' _ _ Ha. eapply arrived_held; [| |exact Ha]; [by intros q []|done]. }
    destruct Hst as [Hi|Hl]; [|exists (Some (o', o_data o)); split; [by left|by apply Hnew]].
    destruct (decide (is_done out = true)) as [Hd|Hd].
    - exists (Some (o', o_data o)). split; [by left|]. apply Hnew.
      destruct out as [[]|e|]; try done. destruct (Hok eq_refl) as (n & Hn & Hc). exists n. auto.
    - exists x. split; [right; split; [by intros ->|done]|]. intros m'.
      eapply wp_recover_idle; [exact Hi| |by intros s' _ ?].
      intros s' _ _ Hi'. eapply idle_held; [|exact Hh|exact Hi']. by intros q []. }
  set (Q := fun (r : Object) (_ : World) => exists old b, y = Some (old, b) /\ r = with_data b (strip_data old)).
  assert (forall m', wp m' (get_object bucket key) Q
    (fun e _ => m_faults m' = true \/ e = KeyNotFound /\ y = None) (fun _ => m_faults m' = true) w2) as Hwp.
  { intros m'. apply (wp_get_after_recovery bucket key y).
    - eapply wp_mono; [apply Hrec|done|by left|done].
    - intros w'. destruct y as [[old b]|]; [by eexists _, _|by right].
    - intros w' Hm. split; [by left|done]. }
  split.
  - intros r ->. destruct (wp_run _ _ _ _ _ _ _ _ _ _ (Hwp any_schedule) (any_schedule_ok σ2) Hget)
      as (old & b & Hy' & ->). destruct Hy as [-> | [Hne ->]].
    + left. injection Hy' as <- <-. by destruct o.
    + right. split; [done|by eauto].
  - intros Hσ2. pose proof (wp_run _ _ _ _ _ _ _ _ _ _ (Hwp calm) Hσ2 Hget) as Hr.
    destruct got as [r|e|]; simpl in Hr; [by eauto| |done].
    destruct Hr as [Hbad|[-> Hy']]; [done|]. right. destruct Hy as [-> | [Hne ->]]; [done|by auto].
Qed.

Lemma apart_same_length d d' : length d = length d' -> d <> d' -> apart d d'.
Proof.
  intros Hl Hne. split; apply not_true_iff_false; intros [q ->]%below_spec; apply Hne;
    rewrite length_app in Hl; destruct q; rewrite ?app_nil_r; simpl in *; try done; lia.
Qed.

(** [put_leaves_other_objects]. A put_object, completed or interrupted
    anywhere, leaves what every other object directory holds. *)
Theorem put_leaves_other_objects bucket key o x bucket' key' x' (w w1 : World) σ out σ1 :
  unversioned bucket (w_fs w) -> held (object_dir bucket key) x (w_fs w) ->
  o_size o = size_of (o_data o) ->
  object_dir bucket' key' <> object_dir bucket key -> is_dir (bucket_dir bucket') (w_fs w) = true ->
  held (object_dir bucket' key') x' (w_fs w) ->
  put_object bucket key o σ w = (out, w1, σ1) ->
  held (object_dir bucket' key') x' (w_fs w1).
Proof.
  intros Hun Hh Hsz Hne Hdir Hh' Hput.
  destruct (put_object_stands bucket key o x w σ out w1 σ1 Hun Hh Hsz Hput) as [Hst _].
  eapply (held_frame (object_dir bucket key) _ _ (payload_input InMemory)); [by apply apart_same_length| | | |exact Hh'].
  - unfold object_dir, object_id_dir. by rewrite parent_join.
  - by intros q [].
  - by eapply stands_surroundings.
Qed.

(** *** Deletion *)

(** A directory that is gone. *)
Lemma absent_held d s : ok s -> is_dir (parent d) s = true -> d <> [] -> scratch d = false ->
  (forall q, below d q = true -> s !! q = None) -> held d None s.
Proof.
  intros Hok Hpar Hne Hsc Hgone.
  assert (forall q, inside d q -> s !! q = None) as Hin by (intros q Hq; by apply Hgone, inside_below).
  split; [split; [done| | |]| |done].
  - split; [intros q Hq|intros q b Hq]; rewrite Hin by eauto using file_path_inside, dir_path_inside; done.
  - apply Hin. by eexists _, [].
  - intros q Hq. apply below_parent in Hq as [Heq|Hq].
    + subst q. split; [done|]. rewrite Hgone by apply below_refl. done.
    + apply is_dir_true in Hpar. assert (s !! q = Some Directory) as Hd.
      { destruct (ok_dir_below s q (parent d) _ Hok Hpar Hq) as [Heq|]; congruence. }
      split; [|congruence]. eapply dir_not_scratch; [done|]. by apply is_dir_true.
  - unfold pair_at. by rewrite !Hin by (by eexists _, []).
Qed.

Lemma clear_record_ok d : history_ok d None [] None true.
Proof. split; [done|intros id Hid; by apply elem_of_nil in Hid|done]. Qed.

Lemma wp_delete_exact {m : mode} bucket key x Q E C (w : World) :
  let d := object_dir bucket key in
  unversioned bucket (w_fs w) -> held d x (w_fs w) -> m_faults m = false ->
  match x with
  | Some _ => forall w', (forall q, below d q = true -> w_fs w' !! q = None) -> held d None (w_fs w') -> w_index w' = (index_remove (w_index w) bucket key).1 ->
      agree (surroundings d (w_fs w) no_input) (w_fs w) (w_fs w') -> Q tt w'
  | None => forall w', held d None (w_fs w') -> agree (private d) (w_fs w) (w_fs w') -> w_index w' = w_index w -> E KeyNotFound w'
  end ->
  wp m (delete_object bucket key) Q E C w.
Proof.
  intros d [Hb Hv] Hh Hcalm HQ. unfold delete_object, delete_object_locked.
  assert (forall (E : Error -> World -> Prop) C w, @wfails M m E C w) as Hnf by (intros ? ? ? Hm; congruence).
  assert (forall E C s, @fails m E C s) as Hnf' by (intros ? ? ? Hm; congruence).
  apply wp_bind, wp_versioning_off; [done|]. apply wp_bind, wp_not_suspended; [done| |congruence]. simpl.
  apply wp_bind, wp_bind. eapply wp_read_object_metadata_locked; [exact Hh| |done].
  intros s1 Hh1 Ha1. destruct x as [[o b]|]; [|by apply HQ].
  apply wp_bind, wp_disk. simpl.
  eapply (wp_change_history d s1 None [] None true [] []); [apply Hh1|done|apply clear_record_ok| |done].
  intros n s2 Hn Hc. simpl. apply wp_bind, wp_disk. simpl.
  pose proof (cp_dir _ _ _ _ _ _ _ Hc) as Hd2.
  apply wp_remove_dir_all; [by apply is_dir_true|apply join_ne_nil| |done].
  intros s3 Ha3 Hsub3 Hkeep3 Hgone3. simpl. apply wp_disk. simpl.
  assert (is_dir (bucket_dir bucket) s3 = true) as Hd3.
  { unfold is_dir. rewrite Hkeep3 by apply below_join_self.
    pose proof (ok_parent s2 (cp_ok _ _ _ _ _ _ _ Hc) (bucket_dir bucket) (compute_object_id bucket key)) as Hp.
    rewrite Hp; [done|]. apply is_dir_true in Hd2. by exists Directory. }
  assert (ok s3) as Hok3 by apply Ha3, Hc.
  apply wp_sync_file; [apply is_dir_true in Hd3; by eauto| |done].
  apply wp_modify. apply HQ; simpl; [done| |done|].
  - apply absent_held; [done|by unfold d, object_dir, object_id_dir; rewrite parent_join|apply join_ne_nil| |done].
    destruct (se_creatable d s1 (held_settled _ _ _ Hh1) d (below_refl d)) as [? _]. done.
  - eapply agree_trans; [eapply agree_weaken; [|exact Ha1]|eapply agree_trans;
      [eapply agree_weaken; [|eapply complete_surroundings; exact Hc]|eapply agree_weaken; [|exact Ha3]]].
    + intros q Hq. left. by apply inside_below, private_inside.
    + intros q [?|[[]|[Hq Hnone]]]; [by left|]. right; right. split; [done|].
      rewrite <- Hnone. symmetry. apply (agree_at _ _ _ Ha1).
      * apply (se_creatable d s1 (held_settled _ _ _ Hh1) q Hq).
      * intros Hp%private_inside. by destruct (inside_not_above d q).
    + intros q Hq. by left.
Qed.

Lemma wp_delete_unversioned {m : mode} bucket key x Q E C (w : World) :
  let d := object_dir bucket key in
  unversioned bucket (w_fs w) -> held d x (w_fs w) -> m_faults m = false ->
  match x with
  | Some _ => forall w', held d None (w_fs w') -> w_index w' = (index_remove (w_index w) bucket key).1 ->
      agree (surroundings d (w_fs w) no_input) (w_fs w) (w_fs w') -> Q tt w'
  | None => forall w', held d None (w_fs w') -> w_index w' = w_index w -> E KeyNotFound w'
  end ->
  wp m (delete_object bucket key) Q E C w.
Proof. intros d Hun Hh Hcalm HQ. eapply wp_delete_exact; [done|exact Hh|done|]. destruct x; by auto. Qed.

Lemma object_id_not_hidden bucket key n : compute_object_id bucket key <> String "." n.
Proof.
  intros Heq. pose proof (hash_pair_hex_plain bucket key) as Hp. unfold compute_object_id in Heq.
  rewrite Heq in Hp. apply not_true_iff_false in Hp. apply Hp, Text.contains_spec. by exists EmptyString, n.
Qed.

Lemma plain_bucket_dir bucket : scratch (bucket_dir bucket) = false.
Proof. done. Qed.

(** An operation on an object leaves its bucket unversioned. *)
Lemma unversioned_kept bucket key input s s' :
  (forall q, input q -> q <> bucket_dir bucket /\ q <> versioning_marker bucket) ->
  agree (surroundings (object_dir bucket key) s input) s s' -> unversioned bucket s -> unversioned bucket s'.
Proof.
  intros Hin Ha [Hb Hv]. split.
  - unfold path_exists. rewrite (agree_at _ _ _ Ha); [done|apply plain_bucket_dir|].
    intros [Hq|[[Hq _]%Hin|[_ Hq]]]; [|done|].
    + unfold object_dir, object_id_dir in Hq. by rewrite below_join_self in Hq.
    + apply path_exists_true in Hb as [e Hb]. congruence.
  - rewrite (agree_at _ _ _ Ha); [done|by apply scratch_join|].
    intros [Hq|[[_ Hq]%Hin|[Hq _]]]; [|done|].
    + apply below_join_inv in Hq as [r Hq]. unfold versioning_marker, join in Hq.
      apply app_inv_head in Hq. injection Hq as Hq _.
      by apply (object_id_not_hidden bucket key "versioning-enabled").
    + apply below_join_inv in Hq as [r Hq]. unfold object_dir, object_id_dir, join in Hq.
      apply app_inv_head in Hq. injection Hq as Hq _.
      by apply (object_id_not_hidden bucket key "versioning-enabled").
Qed.

(** One run without faults. *)
Lemma calm_run {S A} (p : io S A) (Q : A -> S -> Prop) (E : Error -> S -> Prop) s σ :
  wp calm p Q E (fun _ => False) s -> sched_ok calm σ ->
  exists o s' σ', p σ s = (o, s', σ') /\ sched_ok calm σ' /\ holds Q E (fun _ => False) o s'.
Proof.
  intros Hwp Hσ. specialize (Hwp σ Hσ). destruct (p σ s) as [[o s'] σ'].
  destruct Hwp as [Hσ' Hr]. by exists o, s', σ'.
Qed.

(** [delete_then_get]. On a bucket without versioning, delete_object of a
    stored object succeeds, takes the key out of the index, makes get_object
    and a second delete_object answer KeyNotFound, and keeps the objects of
    other directories. *)
Theorem delete_then_get bucket key o b (w : World) σ :
  unversioned bucket (w_fs w) -> held (object_dir bucket key) (Some (o, b)) (w_fs w) -> sched_ok calm σ ->
  exists w1 σ1, delete_object bucket key σ w = (Done tt, w1, σ1) /\
    w_index w1 = (index_remove (w_index w) bucket key).1 /\
    (exists w2 σ2, get_object bucket key σ1 w1 = (Failed KeyNotFound, w2, σ2)) /\
    (exists w2 σ2, delete_object bucket key σ1 w1 = (Failed KeyNotFound, w2, σ2)) /\
    forall bucket' key' x, object_dir bucket' key' <> object_dir bucket key ->
      is_dir (bucket_dir bucket') (w_fs w) = true ->
      held (object_dir bucket' key') x (w_fs w) -> held (object_dir bucket' key') x (w_fs w1).
Proof.
  intros Hun Hh Hσ. set (d := object_dir bucket key) in *.
  destruct (calm_run (delete_object bucket key) (fun _ w' => held d None (w_fs w') /\
      w_index w' = (index_remove (w_index w) bucket key).1 /\
      agree (surroundings d (w_fs w) no_input) (w_fs w) (w_fs w')) (fun _ _ => False) w σ)
    as ([[]|e|] & w1 & σ1 & Hrun & Hσ1 & Hpost); [|done| |done..].
  { eapply wp_delete_unversioned; [done|exact Hh|done|by auto]. }
  destruct Hpost as (Hh1 & Hi1 & Ha1). exists w1, σ1. split_and!; [done|done|..].
  - destruct (calm_run (get_object bucket key) (fun _ _ => False) (fun e _ => e = KeyNotFound) w1 σ1)
      as ([r|e|] & w2 & σ2 & Hget & _ & Hr); [|done|done| |done].
    { eapply wp_read_object_locked; [exact Hh1|done|done]. }
    simpl in Hr. subst e. by eauto.
  - destruct (calm_run (delete_object bucket key) (fun _ _ => False) (fun e _ => e = KeyNotFound) w1 σ1)
      as ([r|e|] & w2 & σ2 & Hget & _ & Hr); [|done|done| |done].
    { eapply wp_delete_unversioned; [|exact Hh1|done|done].
      eapply (unversioned_kept _ key no_input); [by intros q []|exact Ha1|done]. }
    simpl in Hr. subst e. by eauto.
  - intros bucket' key' x' Hne Hdir Hh'.
    eapply (held_frame d _ _ no_input); [by apply apart_same_length| |by intros q []|exact Ha1|exact Hh'].
    unfold object_dir, object_id_dir. by rewrite parent_join.
Qed.
End Objects.
