(* ===== verification/ConditionFacts.v ===== *)
(** * ConditionFacts: conditional writes, range reads and metadata updates

    [put_object_if] as a compare-and-set on the stored object, the bytes a range
    read returns, and updates of an object's metadata in place, which are atomic
    under faults. *)

From Stdlib Require Import Ascii.
From S2P Require Import Prelude Text Models Policy SkipMap Index IndexFacts FsModel Publication.
From S2P Require Import FileFacts PublicationFacts ConcreteEnv PublicationSafety Lifecycle Storage.
From S2P Require Import StorageFacts.

(** ** Conditions *)

(** A write condition as a predicate on the object that is there. *)
Fixpoint satisfied (c : ObjectCondition) (current : option Object) : bool :=
  match c with
  | All conditions => forallb (fun c' => satisfied c' current) conditions
  | Missing => is_none current
  | Etag expected => is_some_and (fun o => eqb (o_etag o) expected) current
  | EtagIn expected => is_some_and (fun o => bool_decide (o_etag o ∈ expected)) current
  | EtagNotIn rejected => is_some_and (fun o => bool_decide (o_etag o ∉ rejected)) current
  | MissingOrEtagNotIn rejected => is_none_or (fun o => bool_decide (o_etag o ∉ rejected)) current
  | Metadata k v => is_some_and (fun o => bool_decide (o_metadata o !! k = Some v)) current
  | MetadataNot k v => is_some_and (fun o => bool_decide (o_metadata o !! k <> Some v)) current
  end.

Lemma existsb_elem (e : string) l : existsb (fun x => eqb x e) l = bool_decide (e ∈ l).
Proof.
  destruct (existsb _ l) eqn:E; symmetry.
  - apply bool_decide_eq_true. apply existsb_true in E as (a & Ha & He). rewrite eqb_true in He. by subst.
  - apply bool_decide_eq_false. intros Hin. apply not_true_iff_false in E. apply E, existsb_true.
    exists e. split; [done|apply eqb_refl].
Qed.

(** The outcome of reading the metadata, as the conditions see it. *)
Definition lookup_result (current : option Object) : Res Object :=
  match current with Some o => Ok o | None => Err KeyNotFound end.

Lemma condition_holds_satisfied c current :
  (forall cs, c <> All cs) -> condition_holds c (lookup_result current) = Ok (satisfied c current).
Proof.
  intros Hc. destruct c, current; simpl; try done; rewrite ?existsb_elem, ?bool_decide_not; try done.
  all: by destruct (Hc conditions).
Qed.

(** Conditions nest through lists of conditions. *)
Lemma condition_ind (P : ObjectCondition -> Prop) :
  (forall cs, Forall P cs -> P (All cs)) -> (forall c, (forall cs, c <> All cs) -> P c) -> forall c, P c.
Proof.
  intros Hall Hleaf. fix IH 1. intros [cs| | | | | | |]; [|by apply Hleaf..].
  apply Hall. induction cs as [|c cs IHcs]; constructor; [apply IH|apply IHcs].
Qed.

Section Conditions.
Context {M : Type -> Type} `{SkipMapLaws M} `{EnvLaws} `{StoreEnv} `{Digests} {m : mode}.
Abbreviation World := (World M).

Lemma wp_condition bucket key c x Q E C (w : World) :
  let d := object_dir bucket key in
  m_faults m = false -> held d x (w_fs w) ->
  (forall s', held d x s' -> agree (private d) (w_fs w) s' ->
     Q (satisfied c (strip_data ∘ fst <$> x)) (set_fs s' w)) ->
  wp m (object_condition_matches bucket key c) Q E C w.
Proof.
  intros d Hcalm. revert Q w. induction c as [cs Hcs|c Hc] using condition_ind; intros Q w Hh HQ.
  - simpl. revert Q w Hh HQ. induction Hcs as [|c cs Hc Hcs IHcs]; intros Q w Hh HQ.
    + apply wp_ret. rewrite <- (set_fs_id w). apply HQ; [done|apply agree_refl].
    + apply wp_bind. apply Hc; [done|]. intros s1 Hh1 Ha1. simpl in HQ.
      destruct (satisfied c _) eqn:Es; [|apply wp_ret; by apply HQ].
      apply IHcs; [done|]. intros s2 Hh2 Ha2. apply (HQ s2); [done|]. by eapply agree_trans.
  - assert (object_condition_matches bucket key c =
      (r ← attempt (read_object_metadata_locked bucket key); of_res (condition_holds c r) : io World bool))
      as -> by (destruct c; [by destruct (Hc conditions)|done..]).
    apply wp_bind, wp_attempt. eapply wp_read_object_metadata_locked; [exact Hh| |by intros; intros ?; congruence].
    intros s' Hh' Ha'. specialize (HQ s' Hh' Ha').
    destruct x as [[o b]|]; apply wp_of_res;
      [change (Ok (strip_data o)) with (lookup_result (Some (strip_data o)))|
       change (Err KeyNotFound) with (lookup_result None)];
      rewrite condition_holds_satisfied by done; exact HQ.
Qed.
End Conditions.

Section ConditionalWrites.
Context {M : Type -> Type} `{SkipMapLaws M} `{EnvLaws} `{StoreEnv} `{Digests}.
Abbreviation World := (World M).

(** C18 [put_object_if_compare_and_set]. On a bucket without versioning and
    without storage faults put_object_if writes exactly when its condition
    holds of the stored object, reports whether it wrote, and otherwise leaves
    the object and the index as they were. *)
Theorem put_object_if_compare_and_set bucket key o c x (w : World) σ :
  let d := object_dir bucket key in
  let go := satisfied c (strip_data ∘ fst <$> x) in
  unversioned bucket (w_fs w) -> held d x (w_fs w) -> o_size o = size_of (o_data o) -> sched_ok calm σ ->
  exists w' σ', put_object_if bucket key o c σ w = (Done go, w', σ') /\
    held d (if go then Some (with_version_id None o, o_data o) else x) (w_fs w') /\
    w_index w' = (if go then index_insert (w_index w) bucket key else w_index w).
Proof.
  intros d go Hun Hh Hsz Hσ.
  destruct (wp_calm_run (put_object_if bucket key o c) (fun r w' => r = go /\
    held d (if go then Some (with_version_id None o, o_data o) else x) (w_fs w') /\
    w_index w' = (if go then index_insert (w_index w) bucket key else w_index w)) w σ)
    as (r & w' & σ' & Hrun & -> & Hpost); [|done|by eauto].
  apply wp_bind, (wp_condition bucket key c x); [done|done|]. intros s' Hh' Ha'. fold go.
  destruct go; [|by apply wp_ret]. apply wp_bind.
  eapply wp_put_unversioned; [|exact Hh'|by intros q []|done|done| |done].
  - eapply (unversioned_kept _ key no_input); [by intros q []| |exact Hun].
    eapply agree_weaken; [|exact Ha']. intros q Hq. left. by apply inside_below, private_inside.
  - intros w1 Hr1 Hi1. apply wp_ret. split_and!; [done| |done].
    eapply arrived_held; [| |exact Hr1]; [by intros q []|done].
Qed.

(** *** Ranges *)

(** [range_read_is_slice]. get_object_range returns exactly the bytes from the
    start to the clamped end of the stored data, and rejects a start past the
    end or an end before the start with the error the code names. *)
Theorem range_read_is_slice bucket key o b start stop (w : World) σ :
  held (object_dir bucket key) (Some (o, b)) (w_fs w) -> sched_ok calm σ ->
  let last := match stop with Some e => N.min e (size_of b - 1) | None => size_of b - 1 end%N in
  exists w' σ', get_object_range bucket key start stop σ w =
    (if (start <? size_of b)%N && (start <=? last)%N
     then Done (strip_data o, take (N.to_nat (last + 1 - start)) (drop (N.to_nat start) b))
     else if (start <? size_of b)%N then Failed (InvalidRequest "Invalid range: end < start")
     else Failed (InvalidRequest "Range start beyond file size"), w', σ').
Proof.
  intros Hh Hσ last.
  destruct (calm_run (get_object_range bucket key start stop)
    (fun r _ => (start < size_of b)%N /\ (start <= last)%N /\
       r = (strip_data o, take (N.to_nat (last + 1 - start)) (drop (N.to_nat start) b)))
    (fun e _ => (last < start)%N /\ (start < size_of b)%N /\ e = InvalidRequest "Invalid range: end < start"
       \/ (size_of b <= start)%N /\ e = InvalidRequest "Range start beyond file size") w σ)
    as ([r|e|] & w' & σ' & Hrun & _ & Hpost); [|done|simpl in Hpost..|done].
  - eapply wp_read_object_range_locked; [exact Hh| |done]. intros s' _ _.
    unfold resolve_range. destruct (N.leb_spec (size_of b) start) as [Hbig|Hsmall]; [by right|].
    fold last. destruct (N.ltb_spec last start) as [Hlt|Hge]; [by left|].
    split_and!; [done..|]. by replace (last - start + 1)%N with (last + 1 - start)%N by lia.
  - destruct Hpost as (L1 & L2 & ->). exists w', σ'. rewrite Hrun.
    by rewrite (proj2 (N.ltb_lt _ _) L1), (proj2 (N.leb_le _ _) L2).
  - exists w', σ'. rewrite Hrun. destruct Hpost as [(L1 & L2 & ->)|[L1 ->]].
    + by rewrite (proj2 (N.ltb_lt _ _) L2), (proj2 (N.leb_gt _ _) L1).
    + by rewrite (proj2 (N.ltb_ge _ _) L1).
Qed.
End ConditionalWrites.

(** ** Metadata in place *)

Section Updates.
Context {M : Type -> Type} `{SkipMapLaws M} `{EnvLaws} `{StoreEnv} `{Digests} {m : mode}.
Abbreviation World := (World M).

Lemma held_dir d o b s : held d (Some (o, b)) s -> is_dir d s = true.
Proof.
  intros Hh. pose proof (held_pair _ _ _ Hh) as Hp. unfold pair_at in Hp. injection Hp as Hb _.
  apply is_dir_true. eapply (ok_parent s (se_ok _ _ (held_settled _ _ _ Hh)) d BLOB). by rewrite Hb.
Qed.

(** Replacing the metadata file. *)
Lemma held_rewrite d o o' b s s' :
  held d (Some (o, b)) s -> o_size o' = o_size o -> agree (at_path (join d META)) s s' ->
  s' !! join d META = Some (File (encode_object o')) -> held d (Some (o', b)) s'.
Proof.
  intros Hh Hsz Ha Hm. destruct (Hh) as [Hs Hp Hz].
  assert (forall q, q <> join d META -> scratch q = false -> s' !! q = s !! q) as Hkeep
    by (intros q Hq Hsc; by apply (agree_at _ _ _ Ha)).
  split.
  - split; [apply Ha, Hs| | |].
    + eapply shape_write; [by right; left|exact Ha| |apply Hs]. right. by eauto.
    + rewrite Hkeep; [apply Hs| |apply scratch_journal]. rewrite join_inj. by intros [_ ?].
    + apply dir_creatable; [apply Ha, Hs|]. unfold is_dir. rewrite Hkeep; [by eapply held_dir| |].
      * intros Heq. by apply (join_ne_self d META).
      * eapply dir_not_scratch; [apply Hs|by eapply held_dir].
  - unfold pair_at in *. rewrite Hm, Hkeep; [by injection Hp as -> _| |apply scratch_blob].
    rewrite join_inj. by intros [_ ?].
  - intros o1 b1 [= <- <-]. rewrite Hsz. by apply Hz.
Qed.

(** An interrupted replacement. *)
Lemma held_replacing d o o' b s s' :
  held d (Some (o, b)) s -> o_size o' = o_size o -> replacing (join d META) (encode_object o') s s' ->
  held d (Some (o, b)) s' \/ held d (Some (o', b)) s'.
Proof.
  intros Hh Hsz [Ha [Hsame|Hnew]]; [left|right; by eapply held_rewrite].
  eapply held_rewrite; [done|done|done|]. rewrite Hsame.
  pose proof (held_pair _ _ _ Hh) as Hp. unfold pair_at in Hp. by injection Hp as _ ->.
Qed.

Lemma wp_write_metadata d o o' b Q E C s :
  held d (Some (o, b)) s -> o_size o' = o_size o ->
  (forall s', held d (Some (o', b)) s' -> Q tt s') ->
  (forall s', held d (Some (o, b)) s' \/ held d (Some (o', b)) s' -> @fails m E C s') ->
  wp m (write_object_metadata (join d META) o') Q E C s.
Proof.
  intros Hh Hsz HQ HF. pose proof (held_settled _ _ _ Hh) as Hs.
  apply wp_atomic_write; [apply Hs|rewrite parent_join; by eapply held_dir| |apply join_ne_nil|apply scratch_meta|..].
  - pose proof (held_pair _ _ _ Hh) as Hp. unfold pair_at in Hp. unfold is_dir. by injection Hp as _ ->.
  - intros s' Ha Hm. apply HQ. by eapply held_rewrite.
  - intros s' Hr. apply HF. by eapply held_replacing.
Qed.

Lemma wp_update_metadata bucket key f o b Q E C (w : World) :
  let d := object_dir bucket key in
  held d (Some (o, b)) (w_fs w) -> (forall o, o_size (f o) = o_size o) ->
  (forall s', held d (Some (f (strip_data o), b)) s' -> Q tt (set_fs s' w)) ->
  (forall s', held d (Some (o, b)) s' \/ held d (Some (f (strip_data o), b)) s' ->
     @wfails M m E C (set_fs s' w)) ->
  wp m (update_metadata bucket key f) Q E C w.
Proof.
  intros d Hh Hf HQ HF. unfold update_metadata.
  apply wp_bind, wp_disk, (wp_recover_held d (Some (o, b))); [done| |by intros s' ? _; apply HF; left].
  intros s1 Hh1 _. apply wp_bind, wp_gets. simpl.
  change (object_metadata_path bucket (compute_object_id bucket key)) with (join d META).
  pose proof (held_pair _ _ _ Hh1) as Hp. unfold pair_at in Hp. injection Hp as _ Hm.
  unfold path_exists. rewrite Hm. simpl. apply wp_bind, wp_disk. simpl.
  eapply wp_read_metadata; [done| |by apply HF; left]. apply wp_disk. simpl.
  eapply wp_write_metadata; [exact Hh1|by rewrite Hf|done|done].
Qed.
End Updates.

Section AtomicUpdates.
Context {M : Type -> Type} `{SkipMapLaws M} `{EnvLaws} `{StoreEnv} `{Digests}.
Abbreviation World := (World M).

(** C37 [metadata_update_atomic]. A metadata update of a stored object that
    keeps its size (tags, ACL, storage class), interrupted anywhere, leaves
    the old metadata or the new one, with the data and the index unchanged; Ok
    means the new one, and without faults it returns Ok. *)
Theorem metadata_update_atomic bucket key f o b (w w1 : World) σ out σ1 :
  let d := object_dir bucket key in
  held d (Some (o, b)) (w_fs w) -> (forall o, o_size (f o) = o_size o) ->
  update_metadata bucket key f σ w = (out, w1, σ1) ->
  (held d (Some (f (strip_data o), b)) (w_fs w1) \/
   out <> Done tt /\ held d (Some (o, b)) (w_fs w1)) /\
  (sched_ok calm σ -> out = Done tt) /\ w_index w1 = w_index w.
Proof.
  intros d Hh Hf Hrun.
  set (P := fun w1 : World => (held d (Some (o, b)) (w_fs w1) \/ held d (Some (f (strip_data o), b)) (w_fs w1))
                      /\ w_index w1 = w_index w).
  assert (forall m, wp m (update_metadata bucket key f)
    (fun _ w1 => held d (Some (f (strip_data o), b)) (w_fs w1) /\ w_index w1 = w_index w)
    (fun _ w1 => m_faults m = true /\ P w1) (fun w1 => m_faults m = true /\ P w1) w) as Hwp.
  { intros m. eapply wp_update_metadata; [exact Hh|done|by intros s' ?|].
    intros s' Hs' Hm. by split; [intros e|]. }
  split_and!.
  - pose proof (wp_run _ _ _ _ _ _ _ _ _ _ (Hwp any_schedule) (any_schedule_ok σ) Hrun) as Hr.
    destruct out as [[]|e|]; simpl in Hr; [by left; destruct Hr|..];
      (destruct Hr as (_ & [Hr|Hr] & _); [by right|by left]).
  - intros Hσ. pose proof (wp_run _ _ _ _ _ _ _ _ _ _ (Hwp calm) Hσ Hrun) as Hr.
    destruct out as [[]|e|]; [done|by destruct Hr..].
  - pose proof (wp_run _ _ _ _ _ _ _ _ _ _ (Hwp any_schedule) (any_schedule_ok σ) Hrun) as Hr.
    destruct out as [[]|e|]; simpl in Hr; [by destruct Hr|by destruct Hr as (_ & _ & ?)..].
Qed.

(** The metadata [replace_object_metadata_if_unchanged] writes. *)
Definition described_as (updated current : Object) : Object :=
  with_descriptive (o_content_type updated) (o_metadata updated) (o_provider_metadata updated) current.

(** [replace_metadata_compare_and_set]. replace_object_metadata_if_unchanged
    under any schedule: true means the stored metadata was the observed one
    and now has the new description, false means it was not and nothing
    changed, and an error leaves the old or the new metadata with the data
    kept. *)
Theorem replace_metadata_compare_and_set bucket key observed updated o b (w w1 : World) σ out σ1 :
  let d := object_dir bucket key in
  let new := described_as updated (strip_data o) in
  held d (Some (o, b)) (w_fs w) ->
  replace_object_metadata_if_unchanged bucket key observed updated σ w = (out, w1, σ1) ->
  match out with
  | Done true => unchanged (strip_data o) observed = true /\ held d (Some (new, b)) (w_fs w1)
  | Done false => unchanged (strip_data o) observed = false /\ held d (Some (o, b)) (w_fs w1)
  | _ => ~ sched_ok calm σ /\
         (held d (Some (o, b)) (w_fs w1) \/
          unchanged (strip_data o) observed = true /\ held d (Some (new, b)) (w_fs w1))
  end.
Proof.
  intros d new Hh Hrun. remember (unchanged (strip_data o) observed) as same eqn:Hsame.
  set (Q := fun (r : bool) (w1 : World) => r = same /\
    held d (Some (if same then new else o, b)) (w_fs w1)).
  set (P := fun w1 : World => held d (Some (o, b)) (w_fs w1) \/ same = true /\ held d (Some (new, b)) (w_fs w1)).
  assert (forall m, wp m (replace_object_metadata_if_unchanged bucket key observed updated) Q
    (fun _ w1 => m_faults m = true /\ P w1) (fun w1 => m_faults m = true /\ P w1) w) as Hwp.
  { intros m. unfold replace_object_metadata_if_unchanged.
    assert (forall s', held d (Some (o, b)) s' -> @fails m (fun _ s => m_faults m = true /\ P (set_fs s w))
      (fun s => m_faults m = true /\ P (set_fs s w)) s') as Hold
      by (intros s' Hs' Hm; split; [intros _|]; (split; [done|by left])).
    apply wp_bind, wp_disk, (wp_recover_held d (Some (o, b))); [done| |by auto].
    intros s1 Hh1 _. apply wp_bind, wp_gets. simpl.
    change (object_metadata_path bucket (compute_object_id bucket key)) with (join d META).
    pose proof (held_pair _ _ _ Hh1) as Hp. unfold pair_at in Hp. injection Hp as _ Hm.
    unfold path_exists. rewrite Hm. simpl. apply wp_bind, wp_disk. simpl.
    eapply wp_read_metadata; [done| |by apply Hold]. rewrite <- Hsame.
    destruct same; simpl; [|by apply wp_ret].
    apply wp_bind, wp_admit. apply wp_bind, wp_disk. rewrite admitted_fs. simpl.
    eapply wp_write_metadata; [exact Hh1|done| |].
    - intros s2 Hs2. by apply wp_ret.
    - intros s2 Hs2 Hf. assert (P (set_fs s2 (admitted bucket (described_as updated (strip_data o)) (set_fs s1 w)))) as HP.
      { destruct Hs2; [by left|by right]. }
      by split; [intros _|]. }
  pose proof (wp_run _ _ _ _ _ _ _ _ _ _ (Hwp any_schedule) (any_schedule_ok σ) Hrun) as Hr.
  assert (is_done out = false -> ~ sched_ok calm σ) as Hcalm.
  { intros Hd Hσ. pose proof (wp_run _ _ _ _ _ _ _ _ _ _ (Hwp calm) Hσ Hrun) as Hr'.
    destruct out as [?|?|]; simpl in Hr'; [done|by destruct Hr'..]. }
  destruct out as [r|e|]; simpl in Hr.
  - destruct Hr as [-> Hr]. by destruct same.
  - split; [by apply Hcalm|apply Hr].
  - split; [by apply Hcalm|apply Hr].
Qed.
End AtomicUpdates.
