(* ===== verification/BucketFacts.v ===== *)
(** * BucketFacts: buckets and the documents kept beside them

    A created bucket is found with its identity, a bucket that has objects is
    not deleted under any schedule, an empty one goes away, and a policy or
    lifecycle document is read back as it was stored. *)

From Stdlib Require Import Ascii.
From S2P Require Import Prelude Text Models Policy SkipMap Index IndexFacts FsModel Publication.
From S2P Require Import FileFacts PublicationFacts ConcreteEnv PublicationSafety Lifecycle Storage.
From S2P Require Import StorageFacts.

Section Buckets.
Context {M : Type -> Type} `{SkipMapLaws M} `{EnvLaws} `{StoreEnvLaws} `{Digests}.
Abbreviation World := (World M).

(** ** Deleting a bucket *)

Lemma object_id_not_control bucket key d s :
  is_bucket_control_entry d (compute_object_id bucket key) s = false.
Proof.
  pose proof (hash_pair_hex_plain bucket key) as Hp. unfold is_bucket_control_entry.
  assert (forall names, forallb (fun n => Text.contains n ".") names = true ->
    existsb (eqb (compute_object_id bucket key)) names = false) as Hno.
  { intros names Hall. apply not_true_iff_false. intros (n & Hn & He)%existsb_true.
    rewrite eqb_true in He. subst n. rewrite forallb_true in Hall. specialize (Hall _ Hn).
    unfold compute_object_id in Hall. congruence. }
  by rewrite !Hno.
Qed.

(** C38 [delete_bucket_refuses_objects]. delete_bucket never deletes a bucket
    that has an object directory, whatever faults occur: it does not return Ok
    and changes nothing, and without faults it answers BucketNotEmpty. *)
Theorem delete_bucket_refuses_objects bucket key (w w1 : World) σ out σ1 :
  is_Some (w_fs w !! object_dir bucket key) ->
  delete_bucket bucket σ w = (out, w1, σ1) ->
  out <> Done tt /\ w1 = w /\
  (ok (w_fs w) -> sched_ok calm σ -> out = Failed BucketNotEmpty).
Proof.
  intros Hobj Hrun.
  assert (forall m, wp m (delete_bucket bucket) (fun _ _ => False)
    (fun e w1 => w1 = w /\ (m_faults m = false -> ok (w_fs w) -> e = BucketNotEmpty))
    (fun w1 => m_faults m = true /\ w1 = w) w) as Hwp.
  { intros m. unfold delete_bucket, require_bucket, bucket_exists.
    apply wp_bind, wp_bind, wp_gets.
    destruct (path_exists (bucket_dir bucket) (w_fs w)) eqn:Eb; cycle 1.
    { apply wp_fail. split; [done|]. intros _ Hok. apply path_exists_false in Eb.
      pose proof (ok_parent _ Hok (bucket_dir bucket) (compute_object_id bucket key) Hobj). congruence. }
    apply wp_ret. apply wp_bind, wp_disk.
    apply wp_sys; unfold untouched; cbn beta; rewrite ?set_fs_id; [|intros Hm ?; split; [done|congruence]|by auto].
    intros _. destruct (is_dir (bucket_dir bucket) (w_fs w)) eqn:Ed; cycle 1.
    { split; [done|]. intros _ Hok.
      pose proof (ok_parent _ Hok (bucket_dir bucket) (compute_object_id bucket key) Hobj) as Hd.
      apply is_dir_true in Hd. congruence. }
    apply wp_bind, wp_gets. destruct (forallb _ _) eqn:Hall; [|apply wp_fail; split; [apply set_fs_id|done]].
    exfalso. rewrite forallb_true in Hall.
    specialize (Hall (compute_object_id bucket key)). rewrite object_id_not_control in Hall.
    discriminate Hall. rewrite (dir_order_perm (children_of _ _)). by apply elem_of_children_of. }
  pose proof (wp_run _ _ _ _ _ _ _ _ _ _ (Hwp any_schedule) (any_schedule_ok σ) Hrun) as Hr.
  split_and!.
  - intros ->. done.
  - destruct out as [[]|e|]; simpl in Hr; [done|by destruct Hr..].
  - intros Hok Hσ. pose proof (wp_run _ _ _ _ _ _ _ _ _ _ (Hwp calm) Hσ Hrun) as Hc.
    destruct out as [[]|e|]; simpl in Hc; [done| |by destruct Hc]. destruct Hc as [_ Hc].
    by rewrite Hc.
Qed.

(** ** Documents in the bucket directory *)

Lemma join_name_ne (d : path) a b : a <> b -> join d a <> join d b.
Proof. rewrite join_inj. by intros ? [_ ?]. Qed.

Lemma wp_read_document {m : mode} {A} (c : Codec A) rm pm p x Q E C (w : World) :
  m_faults m = false -> (forall x, dec c (enc c x) = Some x) ->
  w_fs w !! p = Some (File (enc c x)) -> Q x w -> wp m (read_document c rm pm p) Q E C w.
Proof.
  intros Hcalm Hc Hp HQ. unfold read_document. apply wp_bind, wp_disk.
  eapply wp_read_file; [done| |intros ?; congruence].
  rewrite set_fs_id. apply wp_of_res. by rewrite Hc.
Qed.

(** The document at [join (bucket_dir bucket) name] is written and the rest of
    the tree is left. *)
Lemma wp_write_document {m : mode} bucket name b Q E C (w : World) :
  m_faults m = false -> ok (w_fs w) -> is_dir (bucket_dir bucket) (w_fs w) = true ->
  is_dir (join (bucket_dir bucket) name) (w_fs w) = false ->
  scratch (join (bucket_dir bucket) name) = false ->
  (forall s', ok s' -> agree (at_path (join (bucket_dir bucket) name)) (w_fs w) s' ->
     s' !! join (bucket_dir bucket) name = Some (File b) -> Q tt (set_fs s' w)) ->
  wp m (disk (atomic_write (join (bucket_dir bucket) name) b)) Q E C w.
Proof.
  intros Hcalm Hok Hd Hn Hs HQ. apply wp_disk.
  apply wp_atomic_write; [done|by rewrite parent_join|done|apply join_ne_nil|done| |intros; intros ?; congruence].
  intros s' Ha Hp. apply HQ; [by apply Ha|done|done].
Qed.

Lemma agree_document bucket name name' s s' :
  agree (at_path (join (bucket_dir bucket) name)) s s' -> name' <> name ->
  scratch (join (bucket_dir bucket) name') = false ->
  s' !! join (bucket_dir bucket) name' = s !! join (bucket_dir bucket) name'.
Proof. intros Ha Hne Hs. apply (agree_at _ _ _ Ha); [done|]. by apply join_name_ne. Qed.

Lemma agree_bucket_dir bucket name s s' :
  agree (at_path (join (bucket_dir bucket) name)) s s' ->
  is_dir (bucket_dir bucket) s' = is_dir (bucket_dir bucket) s.
Proof.
  intros Ha. eapply agree_is_dir; [exact Ha|apply plain_bucket_dir|].
  intros Heq. by apply (join_ne_self (bucket_dir bucket) name).
Qed.

Abbreviation IDENTITY := ".bucket.identity.json".

(** The bucket directory is there, with a readable identity. *)
Record bucket_ok (bucket : string) (s : fs) : Prop := mkBucketOk {
  bk_ok : ok s;
  bk_dir : is_dir (bucket_dir bucket) s = true;
  bk_identity : exists i, s !! join (bucket_dir bucket) IDENTITY = Some (File (enc identity_codec i)) }.

(** A name a document may have. *)
Definition document_name (bucket name : string) (s : fs) : Prop :=
  name <> IDENTITY /\ scratch (join (bucket_dir bucket) name) = false /\
  is_dir (join (bucket_dir bucket) name) s = false.

Lemma bucket_present bucket s : bucket_ok bucket s -> path_exists (bucket_dir bucket) s = true.
Proof. intros Hb. apply path_exists_true. pose proof (bk_dir _ _ Hb) as Hd. apply is_dir_true in Hd. by eauto. Qed.

Lemma wp_touch {m : mode} bucket Q E C (w : World) :
  m_faults m = false -> bucket_ok bucket (w_fs w) ->
  (forall s', bucket_ok bucket s' -> agree (at_path (join (bucket_dir bucket) IDENTITY)) (w_fs w) s' ->
     Q tt (set_fs s' w)) ->
  wp m (touch_bucket_identity bucket) Q E C w.
Proof.
  intros Hcalm Hb HQ. destruct (bk_identity _ _ Hb) as [i Hi]. unfold touch_bucket_identity.
  apply wp_bind. unfold read_bucket_identity_locked. apply wp_bind, wp_gets.
  rewrite (proj2 (path_exists_true _ _)) by (by rewrite Hi).
  eapply wp_read_document; [done|apply dec_enc_identity|done|].
  apply wp_bind, wp_now. intros t. unfold write_bucket_identity.
  apply wp_write_document; [done|apply Hb|apply Hb| |by rewrite scratch_join|].
  - unfold is_dir. by rewrite Hi.
  - intros s' Hok Ha Hp. apply HQ; [|done]. split; [done| |by eauto].
    rewrite (agree_bucket_dir _ _ _ _ Ha). apply Hb.
Qed.

(** A policy or lifecycle document put on a bucket
    is read back as it was stored, with the bucket identity still readable and
    the index unchanged. *)
Theorem sidecar_round_trip {A} (c : Codec A) name bucket x (w : World) σ :
  (forall x, dec c (enc c x) = Some x) -> bucket_ok bucket (w_fs w) ->
  document_name bucket name (w_fs w) -> sched_ok calm σ ->
  exists w' σ', (put_sidecar c name bucket x;; get_sidecar c name bucket) σ w = (Done x, w', σ') /\
    bucket_ok bucket (w_fs w') /\ w_index w' = w_index w.
Proof.
  intros Hc Hb (Hn1 & Hn2 & Hn3) Hσ.
  destruct (wp_calm_run (put_sidecar c name bucket x;; get_sidecar c name bucket)
    (fun r w' => r = x /\ bucket_ok bucket (w_fs w') /\ w_index w' = w_index w) w σ)
    as (r & w' & σ' & Hrun & -> & Hpost); [|done|by eauto].
  apply wp_bind. unfold put_sidecar. apply wp_bind, wp_require_bucket; [by apply bucket_present|].
  apply wp_bind, wp_write_document; [done|apply Hb|apply Hb|done|done|].
  intros s1 Hok1 Ha1 Hp1.
  assert (bucket_ok bucket s1) as Hb1.
  { split; [done|rewrite (agree_bucket_dir _ _ _ _ Ha1); apply Hb|].
    rewrite (agree_document _ _ _ _ _ Ha1); [apply Hb|done|by rewrite scratch_join]. }
  apply wp_touch; [done|done|]. intros s2 Hb2 Ha2. simpl in Ha2.
  unfold get_sidecar. apply wp_bind, wp_require_bucket; [by apply bucket_present|].
  assert (s2 !! join (bucket_dir bucket) name = Some (File (enc c x))) as Hp2
    by (by rewrite (agree_document _ _ _ _ _ Ha2)).
  apply wp_bind, wp_gets. simpl. rewrite (proj2 (path_exists_true _ _)) by (by rewrite Hp2).
  by eapply wp_read_document.
Qed.

(** ** Creating a bucket *)

Lemma bucket_dir_creatable bucket s :
  ok s -> s !! bucket_dir bucket = None -> creatable (bucket_dir bucket) s.
Proof.
  intros Hok Hn q Hq. unfold bucket_dir in Hq. destruct q as [|a [|? ?]]; simpl in Hq.
  - split; [done|]. pose proof (ok_root _ Hok) as Hr. apply is_dir_true in Hr. congruence.
  - rewrite andb_true_r, eqb_true in Hq. subst a. split; [done|]. unfold bucket_dir in Hn. congruence.
  - by rewrite andb_false_r in Hq.
Qed.

(** A new bucket directory is empty. *)
Lemma new_bucket_empty bucket s s' name :
  ok s -> s !! bucket_dir bucket = None -> mkdirs (bucket_dir bucket) s s' ->
  s' !! join (bucket_dir bucket) name = None.
Proof.
  intros Hok Hn Hmk. rewrite (mkdirs_inside (bucket_dir bucket) s s'); [|done|by exists name, []].
  by apply (ok_absent_below s (bucket_dir bucket)); [|done|apply below_join].
Qed.

Lemma object_dir_plain bucket key : scratch (object_dir bucket key) = false.
Proof.
  unfold object_dir, object_id_dir. rewrite scratch_join. apply andb_false_iff. left.
  apply not_true_iff_false. intros [n Hn]%Text.starts_with_spec. by apply (object_id_not_hidden bucket key n).
Qed.

(** The state [create_bucket] leaves: the directory with its name and identity
    and nothing else. *)
Record created (name : string) (t : time) (s : fs) : Prop := mkCreated {
  cr_ok : ok s;
  cr_dir : is_dir (bucket_dir name) s = true;
  cr_identity : s !! join (bucket_dir name) IDENTITY = Some (File (enc identity_codec (mkIdentity t t)));
  cr_rest : forall n, n <> ".bucket.name" -> n <> IDENTITY -> scratch (join (bucket_dir name) n) = false ->
    s !! join (bucket_dir name) n = None }.

Lemma wp_create_bucket {m : mode} name Q E C (w : World) :
  m_faults m = false -> ok (w_fs w) -> w_fs w !! bucket_dir name = None ->
  (forall t w', created name t (w_fs w') -> w_index w' = get_or_create_bucket (w_index w) name -> Q tt w') ->
  wp m (create_bucket name) Q E C w.
Proof.
  intros Hcalm Hok Hnone HQ.
  assert (forall (E : Error -> fs -> Prop) C s, @fails m E C s) as Hnf by (intros ? ? ? Hm; congruence).
  unfold create_bucket. apply wp_bind, wp_gets. rewrite (proj2 (path_exists_false _ _) Hnone).
  apply wp_bind, wp_disk, wp_create_directory; [done|by apply bucket_dir_creatable| |done].
  intros s1 Hmk Hd1. assert (ok s1) as Hok1 by by apply Hmk.
  assert (forall n, s1 !! join (bucket_dir name) n = None) as Hempty
    by (intros n; by apply (new_bucket_empty name (w_fs w))).
  apply wp_bind, wp_disk, wp_map_fail. simpl.
  apply wp_atomic_write; [done|by rewrite parent_join| |apply join_ne_nil|by rewrite scratch_join| |done].
  { unfold is_dir. by rewrite Hempty. }
  intros s2 Ha2 Hp2. apply wp_bind, wp_now. intros t. apply wp_bind, wp_attempt. unfold write_bucket_identity.
  assert (ok s2) as Hok2 by by apply Ha2.
  assert (forall n, n <> ".bucket.name" -> scratch (join (bucket_dir name) n) = false ->
    s2 !! join (bucket_dir name) n = None) as He2
    by (intros n Hn Hs; by rewrite (agree_document _ _ _ _ _ Ha2)).
  apply wp_write_document; simpl;
    [done|done|by rewrite (agree_bucket_dir _ _ _ _ Ha2)| |by rewrite scratch_join|].
  { unfold is_dir. rewrite He2; [done|done|by rewrite scratch_join]. }
  intros s3 Hok3 Ha3 Hp3. apply wp_bind, wp_modify, wp_modify. apply (HQ t); simpl; [|done].
  split; [done| |done|].
  - by rewrite (agree_bucket_dir _ _ _ _ Ha3), (agree_bucket_dir _ _ _ _ Ha2).
  - intros n Hn Hn' Hs. rewrite (agree_document _ _ _ _ _ Ha3); [by apply He2|done|done].
Qed.

Lemma created_bucket_ok name t s : created name t s -> bucket_ok name s.
Proof. intros Hc. split; [apply Hc|apply Hc|]. eexists. apply Hc. Qed.

Lemma created_unversioned name t s : created name t s -> unversioned name s.
Proof.
  intros Hc. split; [by eapply bucket_present, created_bucket_ok|].
  by apply (cr_rest _ _ _ Hc); [..|rewrite scratch_join].
Qed.

Lemma created_no_objects name t s key : created name t s -> held (object_dir name key) None s.
Proof.
  intros Hc. apply absent_held; [apply Hc| |apply join_ne_nil|apply object_dir_plain|].
  - unfold object_dir, object_id_dir. rewrite parent_join. apply Hc.
  - intros q Hq. apply (ok_absent_below s (object_dir name key)); [apply Hc| |done].
    apply (cr_rest _ _ _ Hc); [..|apply object_dir_plain].
    + intros Heq. by apply (object_id_not_hidden name key "bucket.name").
    + intros Heq. by apply (object_id_not_hidden name key "bucket.identity.json").
Qed.

Lemma wp_get_created {m : mode} name t Q E C (w : World) :
  m_faults m = false -> created name t (w_fs w) -> Q (mkBucket name t t false None [] ∅ None) w ->
  wp m (get_bucket name) Q E C w.
Proof.
  intros Hcalm Hc HQ. unfold get_bucket, get_bucket_locked.
  apply wp_bind, wp_require_bucket; [by eapply bucket_present, created_bucket_ok|].
  apply wp_bind. unfold read_bucket_identity_locked. apply wp_bind, wp_gets.
  rewrite (proj2 (path_exists_true (join (bucket_dir name) IDENTITY) _)) by (by rewrite (cr_identity _ _ _ Hc)).
  eapply wp_read_document; [done|apply dec_enc_identity|apply Hc|].
  apply wp_bind, wp_now. intros t'.
  apply wp_bind, wp_versioning_off; [by eapply created_unversioned|].
  apply wp_bind. unfold read_bucket_metadata. apply wp_bind, wp_gets.
  rewrite (proj2 (path_exists_false (bucket_metadata_path name) _))
    by (by apply (cr_rest _ _ _ Hc); [..|rewrite scratch_join]).
  by apply wp_ret, wp_ret.
Qed.

(** create_bucket followed by get_bucket returns
    the new unversioned bucket with equal creation and modification times; it
    holds no object, is in the index, and creating it again answers
    BucketAlreadyExists. *)
Theorem create_then_get_bucket name (w : World) σ :
  ok (w_fs w) -> w_fs w !! bucket_dir name = None -> sched_ok calm σ ->
  exists t w' σ', (create_bucket name;; get_bucket name) σ w
                  = (Done (mkBucket name t t false None [] ∅ None), w', σ') /\
    bucket_ok name (w_fs w') /\ unversioned name (w_fs w') /\
    w_index w' = get_or_create_bucket (w_index w) name /\
    (forall key, held (object_dir name key) None (w_fs w')) /\
    exists w'' σ'', create_bucket name σ' w' = (Failed BucketAlreadyExists, w'', σ'').
Proof.
  intros Hok Hnone Hσ.
  destruct (wp_calm_run (create_bucket name;; get_bucket name)
    (fun r w' => (exists t, r = mkBucket name t t false None [] ∅ None /\ created name t (w_fs w')) /\
      w_index w' = get_or_create_bucket (w_index w) name) w σ)
    as (r & w' & σ' & Hrun & (t & -> & Hc) & Hi); [|done|].
  - apply wp_bind, wp_create_bucket; [done..|]. intros t w1 Hc Hi.
    eapply wp_get_created; [done|exact Hc|by eauto].
  - assert (unversioned name (w_fs w')) as Hun by by eapply created_unversioned.
    exists t, w', σ'. split_and!; [done|by eapply created_bucket_ok|done|done|by intros; eapply created_no_objects|].
    exists w', σ'. unfold create_bucket, mbind, io_bind, on_disk, gets, fail. by destruct Hun as [-> _].
Qed.

(** delete_bucket of a bucket with control files
    only succeeds, removes its whole directory and nothing else, and clears it
    from the index. *)
Theorem delete_empty_bucket bucket (w : World) σ :
  ok (w_fs w) -> is_dir (bucket_dir bucket) (w_fs w) = true ->
  (forall n, is_Some (w_fs w !! join (bucket_dir bucket) n) ->
     is_bucket_control_entry (bucket_dir bucket) n (w_fs w) = true) ->
  sched_ok calm σ ->
  exists w' σ', delete_bucket bucket σ w = (Done tt, w', σ') /\
    w_index w' = clear_bucket (w_index w) bucket /\
    forall q, w_fs w' !! q = if below (bucket_dir bucket) q then None else w_fs w !! q.
Proof.
  intros Hok Hd Hctl Hσ.
  destruct (wp_calm_run (delete_bucket bucket) (fun _ w' =>
    w_index w' = clear_bucket (w_index w) bucket /\
    forall q, w_fs w' !! q = if below (bucket_dir bucket) q then None else w_fs w !! q) w σ)
    as ([] & w' & σ' & Hrun & Hpost); [|done|by eauto].
  unfold delete_bucket. apply wp_bind, wp_require_bucket.
  { apply path_exists_true. apply is_dir_true in Hd. by eauto. }
  apply wp_bind, wp_disk. apply wp_sys; [intros _|done..]. rewrite Hd.
  apply wp_bind, wp_gets. destruct (forallb _ _) eqn:Hall; cbn [negb]; cycle 1.
  { exfalso. apply not_true_iff_false in Hall. apply Hall, forallb_true. intros n Hn.
    apply Hctl, elem_of_children_of. by rewrite <- (dir_order_perm (children_of _ _)). }
  apply wp_bind, wp_disk. apply wp_remove_dir_all; [by apply is_dir_true|done| |done].
  intros s' _ _ Hkeep Hgone. apply wp_modify. split; [done|]. intros q.
  destruct (below (bucket_dir bucket) q) eqn:Eq; [by apply Hgone|by apply Hkeep].
Qed.
End Buckets.
