(* ===== verification/Versions.v ===== *)
(** * Versions: object versioning of [FilesystemStorage]

    The [VersionStore] part of [src/storage/filesystem.rs]: enabling and
    suspending versioning, reading, listing and deleting versions. *)

From S2P Require Import Prelude Text Models Policy SkipMap Index FsModel Publication Lifecycle.
From S2P Require Import Storage.

Section Versions.
Context {M : Type -> Type} `{SkipMap M} `{Env} `{StoreEnv} `{Digests}.
Abbreviation World := (World M).

(** ** Configuring versioning *)

Definition assign_null_entry (bucket name : string) : io World unit :=
  let d := join (bucket_dir bucket) name in
  let p := join d META in
  dir ← on_disk (is_dir d);
  if negb dir || Text.starts_with name "." then mret tt
  else
    r ← attempt (disk (read_object_metadata p));
    match r with
    | Err _ => mret tt
    | Ok _ =>
        disk (recover_publication d);;
        r ← attempt (disk (read_object_metadata p));
        match r with
        | Err _ => mret tt
        | Ok current =>
            if is_none (o_version_id current)
            then disk (write_object_metadata p (with_version_id (Some "null") current))
            else mret tt
        end
    end.

Definition assign_null_version_ids_to_unversioned_objects (bucket : string) : io World unit :=
  names ← disk (read_dir "Failed to scan bucket while configuring versioning" (bucket_dir bucket));
  for_each (assign_null_entry bucket) names.

(** Write the marker, give unversioned objects the null version, touch the
    bucket if the marker changed. *)
Definition set_versioning (bucket : string) (state : bytes) : io World unit :=
  require_bucket bucket;;
  r ← attempt (disk (read_file "" (versioning_marker bucket)));
  let changed := negb (match r with Ok v => eqb v state | Err _ => false end) in
  disk (atomic_write (versioning_marker bucket) state);;
  assign_null_version_ids_to_unversioned_objects bucket;;
  (if changed then touch_bucket_identity bucket else mret tt).

Definition enable_versioning (bucket : string) : io World unit := set_versioning bucket ENABLED.
Definition suspend_versioning (bucket : string) : io World unit := set_versioning bucket SUSPENDED.

(** ** Reading versions *)

(** [KeyNotFound] of the current object means there is no such version. *)
Definition no_such_version (e : Error) : Error :=
  match e with KeyNotFound => NoSuchVersion | other => other end.

Definition read_object_version_locked (bucket key version_id : string) : io World Object :=
  require_bucket bucket;;
  of_res (validate_version_id version_id);;
  let object_id := compute_object_id bucket key in
  disk (recover_publication (object_id_dir bucket object_id));;
  disk (recover_publication (version_dir bucket object_id version_id));;
  present ← on_disk (path_exists (version_data_path bucket object_id version_id));
  if negb present then
    current ← map_fail no_such_version (read_object_locked bucket key);
    if eqb (o_version_id current) (Some version_id) then mret current else fail NoSuchVersion
  else
    o ← disk (read_object_metadata (version_metadata_path bucket object_id version_id));
    data ← disk (read_file "Failed to read version" (version_data_path bucket object_id version_id));
    mret (with_version_id (Some version_id) (with_data data o)).

Definition read_version_metadata_and_path_locked (bucket key version_id : string)
    : io World (Object * path) :=
  require_bucket bucket;;
  of_res (validate_version_id version_id);;
  let object_id := compute_object_id bucket key in
  disk (recover_publication (object_id_dir bucket object_id));;
  disk (recover_publication (version_dir bucket object_id version_id));;
  let version_path := version_data_path bucket object_id version_id in
  present ← on_disk (path_exists version_path);
  '(o, p) ←
    (if (present : bool) then
       o ← disk (read_object_metadata (version_metadata_path bucket object_id version_id));
       mret (o, version_path)
     else
       o ← map_fail no_such_version (read_object_metadata_locked bucket key);
       if eqb (o_version_id o) (Some version_id)
       then mret (o, object_data_path bucket object_id) else fail NoSuchVersion);
  mret (with_version_id (Some version_id) o, p).

Definition get_object_version (bucket key version_id : string) : io World Object :=
  read_object_version_locked bucket key version_id.
Definition get_object_version_metadata (bucket key version_id : string) : io World Object :=
  '(o, _) ← read_version_metadata_and_path_locked bucket key version_id; mret o.

Definition get_object_version_range (bucket key version_id : string) (start : N) (stop : option N)
    : io World (Object * bytes) :=
  '(o, p) ← read_version_metadata_and_path_locked bucket key version_id;
  '(start, len) ← of_res (resolve_range (o_size o) start stop);
  data ← disk (read_exact_at "Failed to read version range" p start len);
  mret (o, data).

(** ** Listing versions *)

(** [Option<String>] is ordered with [None] first. *)
Definition opt_le (a b : option string) : Prop :=
  match a, b with
  | None, _ => True
  | Some _, None => False
  | Some x, Some y => String.le x y
  end.
#[global] Instance opt_le_dec a b : Decision (opt_le a b).
Proof. destruct a, b; simpl; apply _. Defined.

Definition version_le (a b : Object) : Prop := opt_le (o_version_id a) (o_version_id b).
#[global] Instance version_le_dec a b : Decision (version_le a b).
Proof. unfold version_le. apply _. Defined.

(** Keys first, then versions. *)
Definition key_version_le (a b : Object) : Prop :=
  if decide (o_key a = o_key b) then version_le a b else String.le (o_key a) (o_key b).
#[global] Instance key_version_le_dec a b : Decision (key_version_le a b).
Proof. unfold key_version_le. case_decide; apply _. Defined.

(** [Vec::dedup_by]: drop an element equal to the one kept before it. *)
Fixpoint dedup_by {A} (same : A -> A -> bool) (l : list A) : list A :=
  match l with
  | [] => []
  | a :: rest =>
      match dedup_by same rest with
      | [] => [a]
      | b :: rest' => if same b a then a :: rest' else a :: b :: rest'
      end
  end.

(** The versions of one object directory that [keep] accepts. *)
Definition current_version (d : path) (keep : Object -> bool) : io World (list Object) :=
  r ← attempt (disk (read_object_metadata (join d META)));
  mret (match r with
        | Ok o => if keep o && is_some (o_version_id o) then [o] else []
        | Err _ => []
        end).

Fixpoint collect_versions (versions : path) (keep : Object -> bool) (names : list string)
    : io World (list Object) :=
  match names with
  | [] => mret []
  | n :: rest =>
      let p := join versions n in
      dir ← on_disk (is_dir p);
      if negb dir then collect_versions versions keep rest
      else
        disk (recover_publication p);;
        r ← attempt (disk (read_object_metadata (join p META)));
        others ← collect_versions versions keep rest;
        mret (match r with
              | Ok o => if keep o then o :: others else others
              | Err _ => others
              end)
  end.

Definition historical_versions (d : path) (keep : Object -> bool) : io World (list Object) :=
  r ← attempt (disk (read_dir "" (join d "versions")));
  match r with
  | Ok names => collect_versions (join d "versions") keep names
  | Err _ => mret []
  end.

Definition list_object_versions_for_key_locked (bucket key : string) : io World (list Object) :=
  require_bucket bucket;;
  let d := object_dir bucket key in
  disk (recover_publication d);;
  present ← on_disk (path_exists d);
  if negb present then mret []
  else
    let keep o := eqb (o_key o) key in
    current ← current_version d keep;
    history ← historical_versions d keep;
    mret (dedup_by (fun a b => eqb (o_version_id a) (o_version_id b))
                   (merge_sort version_le (current ++ history))).

Definition list_object_versions_for_key (bucket key : string) : io World (list Object) :=
  list_object_versions_for_key_locked bucket key.

Fixpoint collect_object_versions (bucket : path) (keep : Object -> bool) (names : list string)
    : io World (list Object) :=
  match names with
  | [] => mret []
  | n :: rest =>
      let d := join bucket n in
      dir ← on_disk (is_dir d);
      if negb dir || Text.starts_with n "." then collect_object_versions bucket keep rest
      else
        disk (recover_publication d);;
        current ← current_version d keep;
        history ← historical_versions d keep;
        others ← collect_object_versions bucket keep rest;
        mret (current ++ history ++ others)
  end.

Definition list_object_versions (bucket : string) (prefix : option string) : io World (list Object) :=
  require_bucket bucket;;
  let keep o := Text.starts_with (o_key o) (match prefix with Some p => p | None => "" end) in
  r ← attempt (disk (read_dir "" (bucket_dir bucket)));
  found ← match r with
          | Ok names => collect_object_versions (bucket_dir bucket) keep names
          | Err _ => mret []
          end;
  mret (dedup_by (fun a b => eqb (o_key a) (o_key b) && eqb (o_version_id a) (o_version_id b))
                 (merge_sort key_version_le found)).

(** ** Deleting a version *)

(** [max_by] over modification time, then version: the last of the maxima. *)
Definition newer_or_equal (a b : Object) : bool :=
  if (o_last_modified b <? o_last_modified a)%Z then true
  else if (o_last_modified a <? o_last_modified b)%Z then false
  else bool_decide (opt_le (o_version_id b) (o_version_id a)).
Definition latest_version (l : list Object) : option Object :=
  match l with
  | [] => None
  | a :: rest => Some (foldl (fun best o => if newer_or_equal o best then o else best) a rest)
  end.

Definition is_delete_marker (o : Object) : bool :=
  eqb (o_provider_metadata o !! "s3_delete_marker") (Some "true").

Definition version_entries_exist (bucket object_id : string) : io World bool :=
  present ← on_disk (path_exists (versions_dir bucket object_id));
  if negb present then mret false
  else names ← disk (read_dir "Failed to read versions dir" (versions_dir bucket object_id));
       mret (match names with [] => false | _ :: _ => true end).

(** The version that becomes current when the current one goes. *)
Definition promotion (bucket key version_id : string) (needed : bool)
    : io World (option (Object * path) * list string) :=
  if negb needed then mret (None, [version_id])
  else
    versions ← list_object_versions_for_key_locked bucket key;
    match latest_version
            (filter (fun o => negb (eqb (o_version_id o) (Some version_id)) = true) versions) with
    | Some latest =>
        if is_delete_marker latest then mret (None, [version_id])
        else
          id ← of_res (ok_or (InternalError "Historical object is missing version identity")
                             (o_version_id latest));
          mret (Some (latest, version_data_path bucket (compute_object_id bucket key) id),
                [version_id; id])
    | None => mret (None, [version_id])
    end.

Definition delete_object_version (bucket key version_id : string) : io World unit :=
  require_bucket bucket;;
  of_res (validate_version_id version_id);;
  let object_id := compute_object_id bucket key in
  let d := object_id_dir bucket object_id in
  disk (recover_publication d);;
  r ← attempt (read_object_metadata_locked bucket key);
  current ← match r with
            | Ok o => mret (Some o)
            | Err KeyNotFound => mret None
            | Err e => fail e
            end;
  historical ← on_disk (path_exists (version_data_path bucket object_id version_id));
  let deleting_current :=
    is_some_and (fun o => eqb (o_version_id o) (Some version_id)) current in
  if negb historical && negb deleting_current then fail NoSuchVersion
  else
    '(promoted, remove_versions) ←
      promotion bucket key version_id (deleting_current || is_none current);
    let clear_current := is_none promoted && (deleting_current || is_none current) in
    match promoted with
    | Some (o, _) => admit_azure_protection bucket o
    | None => mret tt
    end;;
    disk (change_history d promoted remove_versions None clear_current);;
    present ← on_disk (path_exists (object_data_path bucket object_id));
    if (present : bool)
    then modify (fun w => set_index (index_insert (w_index w) bucket key) w)
    else
      modify (fun w => set_index (index_remove (w_index w) bucket key).1 w);;
      left ← version_entries_exist bucket object_id;
      if (left : bool) then mret tt
      else
        disk (remove_dir_all "" d);;
        disk (sync_directory (bucket_dir bucket)).

End Versions.
