(* ===== verification/VersionFacts.v ===== *)
(** * VersionFacts: choosing and listing versions

    The version promoted after a deletion is the newest that is left, and a
    listing of versions is sorted, without repetitions, and holds every version
    found. *)

From Stdlib Require Import Ascii.
From S2P Require Import Prelude Text Models Policy SkipMap Index IndexFacts FsModel Publication FileFacts.
From S2P Require Import PublicationFacts ConcreteEnv PublicationSafety Lifecycle Storage StorageFacts Versions.

(** * Overwriting an object of a versioned bucket

    The old generation is archived before it is replaced: at every point of an
    interrupted overwrite the old object is still the current one or already a
    complete version, and a finished overwrite has both. *)

(** ** Programs that do not report a missing key *)

Definition honest {S A} (p : io S A) : Prop := forall σ s, (p σ s).1.1 <> Failed KeyNotFound.

Lemma honest_ret {S A} (a : A) : honest (mret a : io S A).
Proof. done. Qed.
Lemma honest_gets {S A} (f : S -> A) : honest (gets f).
Proof. done. Qed.
Lemma honest_fail {S A} e : e <> KeyNotFound -> honest (fail e : io S A).
Proof. intros He σ s [= ?]. done. Qed.
Lemma honest_bind {S A B} (p : io S A) (k : A -> io S B) :
  honest p -> (forall a, honest (k a)) -> honest (p ≫= k).
Proof.
  intros Hp Hk σ s. specialize (Hp σ s). unfold mbind, io_bind.
  destruct (p σ s) as [[[a|e|] s'] σ']; simpl in *; [apply Hk|congruence|done].
Qed.
Lemma honest_attempt {S A} (p : io S A) : honest (attempt p).
Proof. intros σ s. unfold attempt. by destruct (p σ s) as [[[a|e|] s'] σ']. Qed.
Lemma honest_sys {A} msg (run : bool -> fs -> option (A * fs)) partial : honest (sys msg run partial).
Proof.
  intros σ s. unfold sys. destruct (next_choice σ) as [[] σ']; try done;
    by destruct (run _ s) as [[a s']|].
Qed.
Lemma honest_uuid {S} : honest (new_uuid_number : io S N).
Proof. done. Qed.
Lemma honest_of_res {S A} (r : Res A) : r <> Err KeyNotFound -> honest (of_res r : io S A).
Proof. intros Hr. destruct r; [apply honest_ret|apply honest_fail; congruence]. Qed.
Lemma honest_if {S A} (b : bool) (p q : io S A) : honest p -> honest q -> honest (if b then p else q).
Proof. by destruct b. Qed.
Lemma honest_for_each {S A} (f : A -> io S unit) l : (forall a, honest (f a)) -> honest (for_each f l).
Proof. intros Hf. induction l; simpl; [done|]. by apply honest_bind. Qed.
Create HintDb honest.
#[export] Hint Resolve honest_ret honest_gets honest_attempt honest_sys honest_uuid honest_if : honest.

(** Walks through a program; the calls are in the hint database. *)
Ltac solve_honest :=
  repeat first
    [ solve [auto with honest nocore]
    | simple apply honest_sys
    | apply (honest_sys _ _ _)
    | apply honest_bind; [|intros ?]
    | apply honest_for_each; intros ?
    | apply honest_if
    | apply honest_fail; discriminate
    | match goal with |- honest (match ?x with _ => _ end) => destruct x end ].

Section Honest.
Context `{Env}.

Lemma honest_ok_or {S A} msg (o : option A) : honest (of_res (ok_or (InternalError msg) o) : io S A).
Proof. apply honest_of_res. by destruct o. Qed.
Lemma honest_version_id {S} id : honest (of_res (validate_version_id id) : io S unit).
Proof. apply honest_of_res. unfold validate_version_id. by destruct (_ || _). Qed.
Hint Resolve honest_ok_or honest_version_id : honest.

Lemma honest_attempt_bind {S A B} (p : io S A) (k : Res A -> io S B) :
  honest p -> (forall a, honest (k (Ok a))) -> (forall e, e <> KeyNotFound -> honest (k (Err e))) ->
  honest (r ← attempt p; k r).
Proof.
  intros Hp Hok Herr σ s. specialize (Hp σ s). unfold mbind, io_bind, attempt.
  destruct (p σ s) as [[[a|e|] s'] σ']; simpl in *; [apply Hok|apply Herr; congruence|done].
Qed.

Lemma honest_create_directory p : honest (create_directory_durable p).
Proof.
  unfold create_directory_durable. induction (reverse p) as [|n rp IH]; simpl; [solve_honest|].
  apply honest_bind; [solve_honest|]. intros []; [solve_honest|].
  apply honest_bind; [done|]. intros _. apply honest_attempt_bind; [solve_honest|intros a; solve_honest|].
  intros e He. apply honest_bind; [|intros []; solve_honest]. apply honest_bind; [solve_honest|].
  intros []; [solve_honest|by apply honest_fail].
Qed.
Hint Resolve honest_create_directory : honest.

(** [result?] after a clean-up. *)
Lemma honest_settle {S A} (p : io S A) (q : Res A -> io S unit) :
  honest p -> (forall r, honest (q r)) -> honest (r ← attempt p; q r;; of_res r).
Proof.
  intros Hp Hq. apply honest_attempt_bind; [done|..]; intros; (apply honest_bind; [done|]); intros _.
  - apply honest_ret.
  - by apply honest_fail.
Qed.

Lemma honest_ignore {S A} (p : io S A) : honest (ignore p).
Proof. unfold ignore. solve_honest. Qed.
Hint Resolve honest_ignore : honest.

Lemma honest_atomic_write p b : honest (atomic_write p b).
Proof.
  unfold atomic_write, new_uuid. do 2 (apply honest_bind; [solve_honest|intros ?]).
  apply honest_bind; [solve_honest|]. intros u. apply honest_settle; [solve_honest|]. intros r. solve_honest.
Qed.
Lemma honest_atomic_copy p q : honest (atomic_copy p q).
Proof.
  unfold atomic_copy, new_uuid. apply honest_bind; [solve_honest|intros _].
  apply honest_bind; [solve_honest|]. intros u. apply honest_settle; [solve_honest|]. intros r. solve_honest.
Qed.
Hint Resolve honest_atomic_write honest_atomic_copy : honest.

Lemma validate_ids_error ids : validate_ids ids <> Err KeyNotFound.
Proof.
  induction ids as [|id ids IH]; simpl; [done|].
  unfold mbind, result_bind, validate_version_id. by destruct (_ || _).
Qed.
Lemma validate_marker_error r mk : validate_marker r mk <> Err KeyNotFound.
Proof.
  unfold validate_marker, mbind, result_bind, validate_version_id.
  destruct (o_version_id mk); simpl; [|done]. destruct (_ || _); [done|]. by destruct (_ || _).
Qed.
Lemma honest_validate r stage : honest (validate_publication r stage).
Proof.
  unfold validate_publication. apply honest_bind; [solve_honest|intros _].
  apply honest_bind; [apply honest_of_res, validate_ids_error|intros _].
  apply honest_bind; [apply honest_of_res|intros _; solve_honest].
  destruct (pb_marker r); [apply validate_marker_error|done].
Qed.
Lemma honest_publish_staged p q : honest (publish_staged_file p q).
Proof. unfold publish_staged_file, new_uuid. solve_honest. Qed.
Lemma honest_history d r : honest (apply_history_changes d r).
Proof.
  unfold apply_history_changes, retire_version, publish_marker, clear_public_file, write_object_metadata.
  solve_honest.
Qed.
Lemma honest_clean d : honest (clean_uncommitted_stages d).
Proof. unfold clean_uncommitted_stages, clean_entry. solve_honest. Qed.
Hint Resolve honest_validate honest_publish_staged honest_history honest_clean : honest.

Lemma honest_recover d : honest (recover_publication d).
Proof. unfold recover_publication, apply_publication. solve_honest. Qed.
Lemma honest_read_metadata p : honest (read_object_metadata p).
Proof. unfold read_object_metadata. solve_honest. Qed.
End Honest.

(** What else is known of the errors of a program. *)
Lemma wp_honest {S A} {m : mode} (p : io S A) Q E C s :
  honest p -> wp m p Q E C s -> wp m p Q (fun e s' => E e s' /\ e <> KeyNotFound) C s.
Proof.
  intros Hp Hwp σ Hσ. specialize (Hwp σ Hσ). specialize (Hp σ s).
  destruct (p σ s) as [[[a|e|] s'] σ']; simpl in *; [done| |done].
  destruct Hwp as [? ?]. split; [done|]. split; [done|congruence].
Qed.

(** ** An object directory and the directories of its versions *)

Section Nested.
Context `{EnvLaws}.

(** A change that stays out of a directory. *)
Lemma held_kept (Y : path -> Prop) d x s s' :
  agree Y s s' -> (forall q, inside d q -> ~ Y q) -> creatable d s' -> held d x s -> held d x s'.
Proof.
  intros Ha HY Hc [Hs Hp Hsz].
  assert (forall q, inside d q -> scratch q = false -> s' !! q = s !! q) as Hkeep.
  { intros q Hq Hsc. apply (agree_at _ _ _ Ha); [done|by apply HY]. }
  assert (forall n, inside d (join d n)) as Hj by (intros n; by exists n, []).
  split; [|by rewrite <- Hp; unfold pair_at; f_equal; apply Hkeep; (apply scratch_blob || apply scratch_meta || apply Hj)|done].
  split; [apply Ha, Hs| |by rewrite Hkeep; [apply Hs|apply Hj|apply scratch_journal]|done].
  split.
  - intros q Hq. rewrite Hkeep; [by apply (shape_file d s (se_shape d s Hs))|by apply file_path_inside|].
    by eapply file_path_not_scratch.
  - intros q b Hq. rewrite Hkeep; [by apply (shape_dir d s (se_shape d s Hs))|by apply dir_path_inside|].
    by eapply dir_path_not_scratch.
Qed.

Lemma ver_inj d a b : ver d a = ver d b -> a = b.
Proof. unfold ver. rewrite join_inj. by intros [_ ?]. Qed.

Lemma ver_path d id : ver d id = d ++ ["versions"; id].
Proof. unfold ver, join. by rewrite <- app_assoc. Qed.

(** What is at or above the directory of a version. *)
Lemma above_ver d id q : below q (ver d id) = true -> inside d q -> q = join d "versions" \/ q = ver d id.
Proof.
  intros [y Hy]%below_spec (n & rest & ->). rewrite ver_path in *. rewrite <- app_assoc in Hy.
  apply app_inv_head in Hy. injection Hy as -> Hy. unfold join.
  destruct rest as [|a rest]; [by left|]. injection Hy as -> Hy. symmetry in Hy. apply app_eq_nil in Hy as [-> _]. by right.
Qed.

Lemma below_ver d id q : below (ver d id) q = true <-> exists rest, q = d ++ "versions" :: id :: rest.
Proof.
  rewrite below_spec, ver_path. split; intros [r ->]; exists r; by rewrite <- app_assoc.
Qed.

(** Where a version directory may be changed by its own publication. *)
Lemma surroundings_ver d id s0 q :
  surroundings (ver d id) s0 no_input q -> inside d q ->
  below (ver d id) q = true \/ q = join d "versions".
Proof.
  intros [?|[[]|[Hb _]]] Hin; [by left|].
  destruct (above_ver d id q Hb Hin) as [-> | ->]; [by right|left; apply below_refl].
Qed.

Lemma plain_not_version d id n s0 :
  n <> "versions" -> ~ surroundings (ver d id) s0 no_input (join d n).
Proof.
  intros Hn Hq. apply surroundings_ver in Hq; [|by exists n, []].
  destruct Hq as [(r & Hr)%below_ver|Hq]; unfold join in *; [|by apply app_inv_head in Hq as [= ?]].
  by apply app_inv_head in Hr as [= ?].
Qed.

(** The publication of a version leaves what the object directory holds. *)
Lemma held_around_version d id x s0 s :
  held d x s0 -> shape (ver d id) s -> creatable (ver d id) s ->
  agree (surroundings (ver d id) s0 no_input) s0 s -> held d x s.
Proof.
  intros [Hs Hp Hsz] Hsh Hcr Ha.
  assert (forall n, n <> "versions" -> scratch (join d n) = false -> s !! join d n = s0 !! join d n) as Hkeep.
  { intros n Hn Hsc. apply (agree_at _ _ _ Ha); [done|]. by apply plain_not_version. }
  assert (forall id' rest, id' <> id -> scratch (d ++ "versions" :: id' :: rest) = false ->
    s !! (d ++ "versions" :: id' :: rest) = s0 !! (d ++ "versions" :: id' :: rest)) as Hother.
  { intros id' rest Hne Hsc. apply (agree_at _ _ _ Ha); [done|]. intros Hq.
    apply surroundings_ver in Hq as [(r & Hr)%below_ver|Hq]; [..|by exists "versions", (id' :: rest)].
    - apply app_inv_head in Hr. by injection Hr as ->.
    - unfold join in Hq. by apply app_inv_head in Hq. }
  assert (forall id' n, id' <> id -> scratch (join (ver d id') n) = false ->
    s !! join (ver d id') n = s0 !! join (ver d id') n) as Hother'.
  { intros id' n Hne. unfold join. rewrite ver_path, <- app_assoc. by apply (Hother id' [n]). }
  split; [split; [apply Ha, Hs|split| |]| |done].
  - intros q Hq. destruct Hq as [->|[->|[->|(id' & Hq)]]]; rewrite ?Hkeep
      by (done || apply scratch_blob || apply scratch_meta || apply scratch_journal);
      try (apply (shape_file d s0 (se_shape d s0 Hs)); unfold file_path; tauto).
    destruct (decide (id' = id)) as [->|Hne].
    + apply (shape_file _ _ Hsh). unfold file_path. tauto.
    + destruct Hq as [-> | ->]; rewrite Hother' by (done || apply scratch_blob || apply scratch_meta);
        apply (shape_file d s0 (se_shape d s0 Hs)); do 3 right; exists id'; tauto.
  - intros q b [->|[(id' & -> & Hsc)|(n & -> & Hn)]].
    + apply Hcr. apply below_join.
    + destruct (decide (id' = id)) as [->|Hne]; [apply Hcr, below_refl|].
      rewrite ver_path in Hsc |- *. rewrite (Hother id' []) by done. rewrite <- ver_path in Hsc |- *.
      apply (shape_dir d s0 (se_shape d s0 Hs)). right; left. by exists id'.
    + rewrite Hkeep; [|by apply stage_name_ne|by apply stage_not_scratch].
      apply (shape_dir d s0 (se_shape d s0 Hs)). right; right. by exists n.
  - rewrite Hkeep; [apply Hs|done|apply scratch_journal].
  - intros q Hq. apply Hcr. eapply below_trans; [exact Hq|]. eapply below_trans; apply below_join.
  - rewrite <- Hp. unfold pair_at. f_equal; apply Hkeep; (done || apply scratch_blob || apply scratch_meta).
Qed.

(** Wherever a publication stands, its directory has its shape. *)
Lemma stands_shape d s0 input rec b j s :
  stands d s0 input rec b j s -> shape d s /\ creatable d s.
Proof.
  intros [[Hs _]|(n & _ & [Hd|Hc])]; [split; apply Hs|split; [apply Hd|]|split; [apply Hc|]];
    apply dir_creatable; (apply Hd || apply Hc).
Qed.

(** A version that is there stays, whatever happens to a new current pair that
    retires none. *)
Lemma version_kept d id s0 o b x s :
  held (ver d id) (Some x) s0 -> retired_by d o = [] ->
  stands d s0 no_input (pair_record d o) b (encode_object o) s -> held (ver d id) (Some x) s.
Proof.
  intros Hv Hret Hst.
  set (Y := fun q => (exists a rest, a <> "versions" /\ q = d ++ a :: rest) \/ below q d = true).
  assert (forall n q, touched d (pair_record d o n) q -> stage_name n = true -> exists a rest, a <> "versions" /\ q = d ++ a :: rest) as Ht.
  { intros n q [->|[Hb|[[_ [-> | ->]]|[(id' & Hr & _)|[Hmk _]]]]] Hn; [by exists JOURNAL, []| |by exists BLOB, []|by exists META, []| |done].
    - apply below_join_inv in Hb as [r ->]. exists n, r. split; [|done]. by apply stage_name_ne.
    - exfalso. unfold rewritten in Hr. simpl in Hr. rewrite Hret in Hr.
      destruct Hr as [Hr|Hr]; [by apply elem_of_nil in Hr|done]. }
  assert (forall q, caller_area d s0 no_input q -> Y q) as Hx.
  { intros q [(n & Hn & [r ->]%below_join_inv)|[[]|[Hb _]]]; [left|by right].
    exists n, r. split; [by apply stage_name_ne|done]. }
  assert (agree Y s0 s) as Ha.
  { destruct Hst as [[_ Ha]|(n & Hn & [Hc|Hc])].
    - eapply agree_weaken; [|exact Ha]. exact Hx.
    - eapply agree_weaken; [|apply Hc]. intros q [Hq|Hq]; [left; by eapply Ht|by apply Hx].
    - eapply agree_weaken; [|apply Hc]. intros q [Hq|Hq]; [left; by eapply Ht|by apply Hx]. }
  assert (forall q, below (ver d id) q = true -> ~ Y q) as Hout.
  { intros q [r ->]%below_ver [(a & rest & Hne & Heq)|Hb].
    - apply app_inv_head in Heq. congruence.
    - apply (inside_not_above d (d ++ "versions" :: id :: r)); [by exists "versions", (id :: r)|done]. }
  eapply held_kept; [exact Ha|intros q Hq; by apply Hout, inside_below| |done].
  assert (s0 !! ver d id = Some Directory) as Hv0.
  { destruct x as [o' b']. destruct Hv as [Hs Hp _]. apply (ok_parent _ (se_ok _ _ Hs) _ META).
    unfold pair_at in Hp. injection Hp as _ Hm. by rewrite Hm. }
  apply dir_creatable; [apply Ha, Hv|]. apply is_dir_true. rewrite (agree_at _ _ _ Ha); [done| |].
  - eapply dir_not_scratch; [apply Hv|by apply is_dir_true].
  - apply Hout, below_refl.
Qed.

(** Cleaning up the object directory leaves its versions. *)
Lemma held_private_ver d id x s s' : held (ver d id) x s -> agree (private d) s s' -> held (ver d id) x s'.
Proof.
  intros Hv Ha.
  assert (forall rest, ~ private d (d ++ "versions" :: rest)) as Hnp.
  { intros rest (n & Hn & [r Hr]%below_join_inv). apply app_inv_head in Hr. injection Hr as <- _. done. }
  eapply held_kept; [exact Ha| | |done].
  - intros q (n & rest & ->). rewrite ver_path, <- app_assoc. apply Hnp.
  - intros q Hq. destruct (se_creatable _ _ (held_settled _ _ _ Hv) q Hq) as [Hsc Hf]. split; [done|].
    rewrite (agree_at _ _ _ Ha); [done|done|]. intros Hp. pose proof (private_inside _ _ Hp) as Hin.
    destruct (above_ver d id q Hq Hin) as [-> | ->]; [by apply (Hnp [])|].
    rewrite ver_path in Hp. by apply (Hnp [id]).
Qed.
End Nested.

(** ** Writing and reading versions *)

Section Versioned.
Context {M : Type -> Type} `{SkipMapLaws M} `{EnvLaws} `{StoreEnv} `{Digests} {m : mode}.
Abbreviation World := (World M).
Abbreviation wfails := (@wfails M m).

(** Versioning is on. *)
Definition versioned (bucket : string) (s : fs) : Prop :=
  path_exists (bucket_dir bucket) s = true /\
  exists state, s !! versioning_marker bucket = Some (File state) /\ state <> SUSPENDED.

Lemma wp_versioning_on bucket Q E C (w : World) :
  versioned bucket (w_fs w) -> Q true w -> (m_faults m = true -> C w) ->
  wp m (versioning_enabled bucket) Q E C w.
Proof.
  intros [_ (state & Hm & Hs)] HQ HC. unfold versioning_enabled. apply wp_bind, wp_gets.
  rewrite (proj2 (path_exists_true _ _)) by (by rewrite Hm). simpl. apply wp_bind, wp_attempt, wp_disk.
  apply wp_sys; unfold untouched; cbn beta; rewrite ?set_fs_id; [|intros; by apply wp_ret|by auto].
  intros _. rewrite Hm. apply wp_ret. rewrite set_fs_id.
  destruct (eqb state SUSPENDED) eqn:E1; [by rewrite eqb_true in E1|done].
Qed.

Lemma wp_versioning_not_suspended bucket Q E C (w : World) :
  versioned bucket (w_fs w) -> Q false w -> (m_faults m = true -> C w) ->
  wp m (versioning_suspended bucket) Q E C w.
Proof.
  intros [_ (state & Hm & Hs)] HQ HC. unfold versioning_suspended. apply wp_bind, wp_attempt, wp_disk.
  apply wp_sys; unfold untouched; cbn beta; rewrite ?set_fs_id; [|intros; by apply wp_ret|by auto].
  intros _. rewrite Hm. apply wp_ret. rewrite set_fs_id.
  destruct (eqb state SUSPENDED) eqn:E1; [by rewrite eqb_true in E1|done].
Qed.

(** A stored object is never reported missing. *)
Lemma wp_read_stored bucket key o b Q E C (w : World) :
  let d := object_dir bucket key in
  held d (Some (o, b)) (w_fs w) ->
  (forall s', held d (Some (o, b)) s' -> agree (private d) (w_fs w) s' -> Q (strip_data o) (set_fs s' w)) ->
  (forall s', held d (Some (o, b)) s' -> agree (private d) (w_fs w) s' -> m_faults m = true ->
     (forall e, e <> KeyNotFound -> E e (set_fs s' w)) /\ C (set_fs s' w)) ->
  wp m (read_object_metadata_locked bucket key) Q E C w.
Proof.
  intros d Hh HQ HF. unfold read_object_metadata_locked. apply wp_bind, wp_disk.
  eapply wp_mono; [apply wp_honest; [apply honest_recover|]| | |].
  - apply (wp_recover_held d (Some (o, b)) (fun _ s' => held d (Some (o, b)) s' /\ agree (private d) (w_fs w) s')
      (fun _ s' => held d (Some (o, b)) s' /\ agree (private d) (w_fs w) s' /\ m_faults m = true)
      (fun s' => held d (Some (o, b)) s' /\ agree (private d) (w_fs w) s' /\ m_faults m = true)); [done|done|].
    intros s' Hh' Ha Hm. by split.
  - intros [] s' [Hh' Ha]. apply wp_bind, wp_gets. simpl.
    pose proof (held_pair _ _ _ Hh') as Hp. unfold pair_at in Hp. injection Hp as Hb Hm.
    change (object_data_path bucket (compute_object_id bucket key)) with (join d BLOB).
    unfold path_exists. rewrite Hb. simpl. apply wp_disk. simpl.
    eapply wp_mono; [apply wp_honest; [apply honest_read_metadata|]| | |].
    + eapply (wp_read_metadata _ o (fun o' s2 => o' = strip_data o /\ s2 = s')
        (fun _ s2 => s2 = s' /\ m_faults m = true) (fun s2 => s2 = s' /\ m_faults m = true)); [exact Hm|done|].
      by intros Hm'.
    + intros o' s2 [-> ->]. by apply HQ.
    + intros e s2 [[-> Hm'] He]. by apply (HF s' Hh' Ha Hm').
    + intros s2 [-> Hm']. by apply (HF s' Hh' Ha Hm').
  - intros e s' [(Hh' & Ha & Hm) He]. by apply (HF s' Hh' Ha Hm).
  - intros s' (Hh' & Ha & Hm). by apply (HF s' Hh' Ha Hm).
Qed.

(** The object as it is kept among the versions. *)
Definition archived (o : Object) : Object := with_version_id (Some (version_or_null o)) (strip_data o).

Lemma version_or_null_strip o : version_or_null (strip_data o) = version_or_null o.
Proof. by destruct o. Qed.

Lemma wp_snapshot bucket key old b x Q E C (w : World) :
  let d := object_dir bucket key in
  let v := ver d (version_or_null old) in
  held d (Some (old, b)) (w_fs w) -> held v x (w_fs w) ->
  (forall s', held d (Some (old, b)) s' -> held v (Some (archived old, b)) s' -> Q tt (set_fs s' w)) ->
  (forall s', held d (Some (old, b)) s' -> wfails E C (set_fs s' w)) ->
  wp m (snapshot_current bucket key true) Q E C w.
Proof.
  intros d v Hd Hv HQ HF. unfold snapshot_current.
  apply wp_bind, wp_attempt, (wp_read_stored bucket key old b); [done| |].
  2:{ intros s' Hh Ha Hm. destruct (HF s' Hh Hm) as [HE HC]. split; [|done].
      intros e He. destruct e; first [by apply wp_fail|done]. }
  intros s1 Hd1 Ha1. simpl orb. rewrite version_or_null_strip. cbn iota.
  assert (held v x s1) as Hv1 by by eapply held_private_ver.
  apply wp_disk. simpl. pose proof (held_pair _ _ _ Hd1) as Hp. unfold pair_at in Hp. injection Hp as Hb _.
  eapply (wp_publish_pair v s1 (archived old) (Stored (join d BLOB)) b); [apply Hv1|by intros q []| | | |].
  - split; [done|]. split; [apply scratch_blob|]. intros (n & rest & Heq)%private_inside.
    unfold v, join in Heq. rewrite ver_path, <- app_assoc in Heq. apply app_inv_head in Heq. discriminate Heq.
  - exact (held_size _ _ _ Hd1 old b eq_refl).
  - intros n s' Hn Hc. apply HQ.
    + eapply (held_around_version d (version_or_null old)); [exact Hd1|apply Hc| |by eapply complete_surroundings].
      apply dir_creatable; apply Hc.
    + eapply complete_held; [| | |exact Hc]; [by intros q []|done|exact (held_size _ _ _ Hd1 old b eq_refl)].
  - intros s' Hst. apply (HF s'). destruct (stands_shape _ _ _ _ _ _ _ Hst) as [Hsh Hcr].
    eapply (held_around_version d (version_or_null old)); [exact Hd1|done|done|].
    by eapply stands_surroundings.
Qed.

(** Overwriting the current object: the old one is current until it is archived. *)
Lemma wp_put_versioned bucket key o old b x Q E C (w : World) :
  let d := object_dir bucket key in
  let v := ver d (version_or_null old) in
  versioned bucket (w_fs w) -> held d (Some (old, b)) (w_fs w) -> held v x (w_fs w) ->
  o_size o = size_of (o_data o) ->
  (forall n w', m_uuid m n -> held d (Some (with_version_id (Some (uuid_text n)) o, o_data o)) (w_fs w') ->
     held v (Some (archived old, b)) (w_fs w') ->
     w_index w' = index_insert (w_index w) bucket key -> Q tt w') ->
  (forall w', held d (Some (old, b)) (w_fs w') \/ held v (Some (archived old, b)) (w_fs w') -> wfails E C w') ->
  wp m (put_object bucket key o) Q E C w.
Proof.
  intros d v Hver Hd Hv Hsz HQ HF. unfold put_object, put_object_locked, put_object_locked_with_payload.
  apply wp_bind, wp_require_bucket; [apply Hver|].
  apply wp_bind, wp_admit. set (w0 := admitted bucket o w).
  assert (w_fs w0 = w_fs w) as Hfs by apply admitted_fs.
  apply wp_bind, wp_versioning_on; [by rewrite Hfs| |intros Hm; apply HF; [left; by rewrite Hfs|done]].
  apply wp_bind, wp_versioning_not_suspended; [by rewrite Hfs| |intros Hm; apply HF; [left; by rewrite Hfs|done]].
  apply wp_bind. simpl orb. cbn iota. apply wp_bind.
  apply (wp_snapshot bucket key old b x); [by rewrite Hfs|by rewrite Hfs| |by auto].
  intros s1 Hd1 Hv1. cbn iota. unfold new_uuid. apply wp_bind, wp_bind, wp_uuid. intros n Hn. apply wp_ret, wp_ret.
  set (u := uuid_text n). set (o' := with_version_id (Some u) o).
  assert (retired_by d o' = []) as Hret.
  { unfold retired_by. simpl. destruct (eqb (Some u) (Some "null")) eqn:Eu; [|done].
    rewrite eqb_true in Eu. injection Eu as Eu. by destruct (uuid_text_not_null n). }
  apply wp_bind, wp_attempt, wp_disk. simpl.
  eapply (wp_publish_pair d s1 o' InMemory (o_data o)); [apply Hd1|by intros q []|done|done| |].
  - intros k s2 Hk Hc. apply wp_bind, wp_gets. simpl. apply wp_bind, wp_modify, wp_ret. apply (HQ n); simpl.
    + exact Hn.
    + eapply complete_held; [| | |exact Hc]; [by intros q []|done|done].
    + eapply (version_kept d _ s1 o' (o_data o)); [exact Hv1|done|]. right. exists k. auto.
    + unfold w0. by rewrite admitted_index.
  - intros s2 Hst Hm.
    assert (held v (Some (archived old, b)) s2) as Hv2 by by eapply version_kept.
    split; [|apply HF; [by right|done]]. intros e. apply wp_bind, wp_gets. simpl.
    destruct (path_exists _ s2 || path_exists _ s2); simpl.
    + apply wp_bind, wp_modify, wp_fail. apply HF; [by right|done].
    + apply wp_bind, wp_ret, wp_fail. apply HF; [by right|done].
Qed.

(** Reading a version that is there. *)
Lemma wp_get_version bucket key id o b y Q E C (w : World) :
  let d := object_dir bucket key in
  path_exists (bucket_dir bucket) (w_fs w) = true -> validate_version_id id = Ok tt ->
  held d (Some y) (w_fs w) -> held (ver d id) (Some (o, b)) (w_fs w) ->
  (forall w', Q (with_version_id (Some id) (with_data b (strip_data o))) w') -> m_faults m = false ->
  wp m (get_object_version bucket key id) Q E C w.
Proof.
  intros d Hb Hid Hd Hv HQ Hcalm. unfold get_object_version, read_object_version_locked.
  assert (forall E C s, @fails m E C s) as Hnf by (intros ? ? ? Hm; congruence).
  apply wp_bind, wp_require_bucket; [done|]. apply wp_bind, wp_of_res. rewrite Hid.
  apply wp_bind, wp_disk, (wp_recover_held d (Some y)); [done| |done]. intros s1 Hd1 Ha1.
  apply wp_bind, wp_disk. simpl.
  apply (wp_recover_held (ver d id) (Some (o, b))); [by eapply held_private_ver| |done]. intros s2 Hv2 _.
  apply wp_bind, wp_gets. simpl. pose proof (held_pair _ _ _ Hv2) as Hp. unfold pair_at in Hp. injection Hp as Hp1 Hp2.
  change (version_data_path bucket (compute_object_id bucket key) id) with (join (ver d id) BLOB).
  change (version_metadata_path bucket (compute_object_id bucket key) id) with (join (ver d id) META).
  unfold path_exists. rewrite Hp1. simpl.
  apply wp_bind, wp_disk. simpl. eapply wp_read_metadata; [done| |done].
  apply wp_bind, wp_disk. simpl. eapply wp_read_file; [done| |done]. by apply wp_ret.
Qed.
End Versioned.

Section Theorems.
Context {M : Type -> Type} `{SkipMapLaws M} `{EnvLaws} `{StoreEnv} `{Digests}.
Abbreviation World := (World M).

Lemma held_bucket bucket key x s :
  held (object_dir bucket key) (Some x) s -> path_exists (bucket_dir bucket) s = true.
Proof.
  destruct x as [o b]. intros [Hs Hp _]. unfold pair_at in Hp. injection Hp as _ Hm.
  apply path_exists_true. pose proof (ok_parent _ (se_ok _ _ Hs)) as Hpar.
  rewrite (Hpar (bucket_dir bucket) (compute_object_id bucket key)); [done|].
  change (join (bucket_dir bucket) (compute_object_id bucket key)) with (object_dir bucket key).
  by rewrite (Hpar (object_dir bucket key) META); [|rewrite Hm].
Qed.

(** A version id the random numbers of the schedule give. *)
Definition drawn_id (σ : Sched) (u : string) : Prop := exists i, u = uuid_text (sc_uuids σ i).

(** C5 [overwrite_never_loses_old]. On a bucket with versioning an overwriting
    put_object, interrupted anywhere, never loses the object it overwrites: it
    is still the current one or it is in the version history with its data; Ok
    means it is in the history and the new object is current under an id drawn
    from the random numbers, which is not null and differs from the id of the
    old object unless the generator draws that id again; without faults the
    put returns Ok. *)
Theorem overwrite_never_loses_old bucket key o old b x (w w1 : World) σ out σ1 :
  let d := object_dir bucket key in
  let v := ver d (version_or_null old) in
  versioned bucket (w_fs w) -> held d (Some (old, b)) (w_fs w) -> held v x (w_fs w) ->
  o_size o = size_of (o_data o) -> put_object bucket key o σ w = (out, w1, σ1) ->
  (held d (Some (old, b)) (w_fs w1) \/ held v (Some (archived old, b)) (w_fs w1)) /\
  (out = Done tt -> held v (Some (archived old, b)) (w_fs w1) /\
     exists u, drawn_id σ u /\ held d (Some (with_version_id (Some u) o, o_data o)) (w_fs w1) /\
       u <> "null" /\ (~ drawn_id σ (version_or_null old) -> u <> version_or_null old)) /\
  (sched_ok calm σ -> out = Done tt).
Proof.
  intros d v Hver Hd Hv Hsz Hrun.
  set (P := fun w' : World => held d (Some (old, b)) (w_fs w') \/ held v (Some (archived old, b)) (w_fs w')).
  set (R := fun (m : mode) (w' : World) => held v (Some (archived old, b)) (w_fs w') /\
     exists n, m_uuid m n /\ held d (Some (with_version_id (Some (uuid_text n)) o, o_data o)) (w_fs w')).
  assert (forall m, wp m (put_object bucket key o) (fun _ => R m) (fun _ w' => P w' /\ m_faults m = true)
    (fun w' => P w' /\ m_faults m = true) w) as Hwp.
  { intros m. eapply wp_put_versioned; [done|exact Hd|exact Hv|done| |].
    - intros n w' Hn Hd' Hv' _. split; [done|]. by exists n.
    - intros w' HP Hm. by split. }
  pose proof (wp_run _ _ _ _ _ _ _ _ _ _ (Hwp (drawing σ)) (drawing_ok σ) Hrun) as Hr.
  split_and!.
  - destruct out as [[]|e|]; simpl in Hr; [right; apply Hr|apply Hr..].
  - intros ->. destruct Hr as [Hv' (n & [i ->] & Hd')]. split; [done|]. exists (uuid_text (sc_uuids σ i)).
    assert (drawn_id σ (uuid_text (sc_uuids σ i))) as Hi by by exists i.
    split_and!; [done|done|apply uuid_text_not_null|]. intros Hold Heq. apply Hold. by rewrite <- Heq.
  - intros Hσ. pose proof (wp_run _ _ _ _ _ _ _ _ _ _ (Hwp calm) Hσ Hrun) as Hc.
    destruct out as [[]|e|]; simpl in Hc; [done|by destruct Hc..].
Qed.

(** [overwritten_version_readable]. On a bucket with versioning, put_object
    over an object followed by get_object_version of the version it replaced
    returns that version with its data. *)
Theorem overwritten_version_readable bucket key o old b x (w : World) σ :
  let d := object_dir bucket key in
  let id := version_or_null old in
  versioned bucket (w_fs w) -> held d (Some (old, b)) (w_fs w) -> held (ver d id) x (w_fs w) ->
  o_size o = size_of (o_data o) -> validate_version_id id = Ok tt -> sched_ok calm σ ->
  exists w' σ', (put_object bucket key o;; get_object_version bucket key id) σ w
                = (Done (with_version_id (Some id) (with_data b old)), w', σ').
Proof.
  intros d id Hver Hd Hv Hsz Hid Hσ.
  destruct (wp_calm_run (put_object bucket key o;; get_object_version bucket key id)
    (fun r _ => r = with_version_id (Some id) (with_data b old)) w σ) as (r & w' & σ' & Hrun & ->); [|done|by eauto].
  apply wp_bind. eapply wp_put_versioned; [done|exact Hd|exact Hv|done| |done].
  intros n w' _ Hd' Hv' _. eapply wp_get_version; [|done|exact Hd'|exact Hv'| |done].
  - by eapply held_bucket.
  - intros w2. by destruct old.
Qed.
End Theorems.

(** ** The newest version *)

Lemma opt_le_refl a : opt_le a a.
Proof. destruct a; simpl; done. Qed.
Lemma opt_le_trans a b c : opt_le a b -> opt_le b c -> opt_le a c.
Proof. destruct a, b, c; simpl; try done. by etrans. Qed.
Lemma opt_le_total a b : opt_le a b \/ opt_le b a.
Proof. destruct a, b; simpl; auto. apply (total String.le). Qed.
Lemma opt_le_antisymm a b : opt_le a b -> opt_le b a -> a = b.
Proof. destruct a, b; simpl; try done. intros H1 H2. f_equal. by apply (anti_symm String.le). Qed.

(** [a] is at least as new as [b]. *)
Definition at_least_as_new (a b : Object) : Prop :=
  (o_last_modified b < o_last_modified a)%Z \/
  o_last_modified a = o_last_modified b /\ opt_le (o_version_id b) (o_version_id a).

Lemma newer_or_equal_spec a b : newer_or_equal a b = true <-> at_least_as_new a b.
Proof.
  unfold newer_or_equal, at_least_as_new.
  destruct (Z.ltb_spec (o_last_modified b) (o_last_modified a)); [by split; [left|]|].
  destruct (Z.ltb_spec (o_last_modified a) (o_last_modified b)).
  - split; [done|]. intros [?|[? _]]; lia.
  - rewrite bool_decide_eq_true. split; [right; split; [lia|done]|]. intros [?|[_ ?]]; [lia|done].
Qed.

Lemma at_least_as_new_trans a b c : at_least_as_new a b -> at_least_as_new b c -> at_least_as_new a c.
Proof.
  intros [Hab|[Hab Hv]] [Hbc|[Hbc Hv']]; [left; lia..|right].
  split; [congruence|]. by eapply opt_le_trans.
Qed.

Lemma at_least_as_new_total a b : newer_or_equal a b = false -> at_least_as_new b a.
Proof.
  unfold newer_or_equal, at_least_as_new.
  destruct (Z.ltb_spec (o_last_modified b) (o_last_modified a)); [done|].
  destruct (Z.ltb_spec (o_last_modified a) (o_last_modified b)); [by left|].
  rewrite bool_decide_eq_false. intros Hn. right. split; [lia|].
  by destruct (opt_le_total (o_version_id a) (o_version_id b)).
Qed.

(** The version promoted after a deletion is
    one of the remaining ones and none is newer: it is the greatest by
    modification time and then version id. *)
Theorem latest_version_is_newest versions :
  match latest_version versions with
  | Some latest => latest ∈ versions /\ forall o, o ∈ versions -> at_least_as_new latest o
  | None => versions = []
  end.
Proof.
  destruct versions as [|a versions]; [done|]. unfold latest_version.
  assert (forall (best : Object) (l : list Object), (forall o, o ∈ l -> at_least_as_new best o) ->
    let r := foldl (fun best o => if newer_or_equal o best then o else best) best versions in
    (r = best \/ r ∈ versions) /\ (forall o, o = best \/ o ∈ l \/ o ∈ versions -> at_least_as_new r o)) as Hgen.
  { induction versions as [|v versions IH]; intros best l Hl; simpl.
    - split; [by left|]. intros o [->|[Ho|Ho]]; [right; split; [done|apply opt_le_refl]|auto|by apply elem_of_nil in Ho].
    - destruct (newer_or_equal v best) eqn:Ev.
      + apply newer_or_equal_spec in Ev. destruct (IH v (best :: l)) as [H1 H2].
        { intros o [->|Ho]%elem_of_cons; [done|]. eapply at_least_as_new_trans; [done|auto]. }
        split; [set_solver|]. intros o Ho. apply H2. set_solver.
      + apply at_least_as_new_total in Ev. destruct (IH best (v :: l)) as [H1 H2].
        { intros o [->|Ho]%elem_of_cons; [done|auto]. }
        split; [set_solver|]. intros o Ho. apply H2. set_solver. }
  destruct (Hgen a []) as [H1 H2]; [intros o Ho; by apply elem_of_nil in Ho|].
  split; [set_solver|]. intros o Ho. apply H2. set_solver.
Qed.

(** ** Lists without repetitions *)

Lemma dedup_by_sub {A} (same : A -> A -> bool) l x : x ∈ dedup_by same l -> x ∈ l.
Proof.
  revert x. induction l as [|a l IH]; intros x; simpl; [done|].
  destruct (dedup_by same l) as [|b l']; [set_solver|]. destruct (same b a); set_solver.
Qed.

Section Dedup.
Context {A : Type} (R : relation A) (same : A -> A -> bool) `{!Transitive R}.
Hypothesis same_equiv : forall a b, same a b = true <-> R a b /\ R b a.

(** A sorted list becomes strictly sorted, and every element keeps an
    equivalent one. *)
Lemma dedup_by_spec l :
  (forall a, R a a) -> StronglySorted R l ->
  StronglySorted (fun a b => R a b /\ ~ R b a) (dedup_by same l) /\
  forall x, x ∈ l -> exists y, y ∈ dedup_by same l /\ same y x = true.
Proof.
  intros Hrefl. induction 1 as [|a l Hs [IH1 IH2] Hf].
  { split; [constructor|]. intros x Hx. by apply elem_of_nil in Hx. }
  rewrite list.Forall_forall in Hf. simpl. destruct (dedup_by same l) as [|b l'] eqn:Ed.
  - split; [by repeat constructor|]. intros x [->|Hx]%elem_of_cons.
    + exists a. split; [set_solver|]. apply same_equiv. auto.
    + destruct (IH2 x Hx) as (y & Hy & _). by apply elem_of_nil in Hy.
  - assert (b ∈ l) as Hb by (apply (dedup_by_sub same); rewrite Ed; set_solver).
    apply StronglySorted_inv in IH1 as [IH1 IHf]. rewrite list.Forall_forall in IHf.
    assert (forall c, c ∈ l' -> R a c /\ ~ R c a) as Hl'.
    { intros c Hc. destruct (IHf c Hc) as [Hbc Hcb]. pose proof (Hf b Hb) as Hab. split; [by etrans|].
      intros Hca. apply Hcb. by etrans. }
    destruct (same b a) eqn:Es.
    + apply same_equiv in Es as [Hba Hab]. split.
      * constructor; [done|]. by apply list.Forall_forall.
      * intros x [->|Hx]%elem_of_cons; [exists a; split; [set_solver|apply same_equiv; auto]|].
        destruct (IH2 x Hx) as (y & [->|Hy]%elem_of_cons & Hyx); [|exists y; set_solver].
        exists a. split; [set_solver|]. apply same_equiv in Hyx as [H1 H2]. apply same_equiv. split; by etrans.
    + assert (R a b /\ ~ R b a) as Hab.
      { split; [by apply Hf|]. intros Hba. apply not_true_iff_false in Es. apply Es, same_equiv. auto. }
      split.
      * constructor; [constructor; [done|by apply list.Forall_forall]|].
        apply list.Forall_forall. intros c [->|Hc]%elem_of_cons; auto.
      * intros x [->|Hx]%elem_of_cons; [exists a; split; [set_solver|apply same_equiv; auto]|].
        destruct (IH2 x Hx) as (y & Hy & Hyx). exists y. set_solver.
Qed.
End Dedup.

(** ** Listings of versions *)

(** Any program, under any schedule, with nothing claimed of it. *)
Lemma wp_any {S A} (p : io S A) s : wp any_schedule p (fun _ _ => True) (fun _ _ => True) (fun _ => True) s.
Proof.
  intros σ _. destruct (p σ s) as [[o s'] σ']. split; [apply any_schedule_ok|]. by destruct o.
Qed.

#[global] Instance opt_le_transitive : Transitive opt_le.
Proof. intros a b c. apply opt_le_trans. Qed.
#[global] Instance version_le_transitive : Transitive version_le.
Proof. intros a b c. apply opt_le_trans. Qed.
#[global] Instance version_le_total : Total version_le.
Proof. intros a b. apply opt_le_total. Qed.

#[global] Instance key_version_le_transitive : Transitive key_version_le.
Proof.
  intros a b c. unfold key_version_le. intros Hab Hbc.
  destruct (decide (o_key a = o_key b)) as [Hk|Hk], (decide (o_key b = o_key c)) as [Hk'|Hk'].
  - rewrite decide_True by congruence. by eapply opt_le_trans.
  - rewrite decide_False by congruence. by rewrite Hk.
  - rewrite decide_False by congruence. by rewrite <- Hk'.
  - destruct (decide (o_key a = o_key c)) as [Heq|]; [|by etrans].
    destruct Hk. apply (anti_symm String.le); [done|]. by rewrite Heq.
Qed.
#[global] Instance key_version_le_total : Total key_version_le.
Proof.
  intros a b. unfold key_version_le.
  destruct (decide (o_key a = o_key b)), (decide (o_key b = o_key a)); try congruence;
    [apply opt_le_total|apply (total String.le)].
Qed.

Definition same_version (a b : Object) : bool :=
  eqb (o_key a) (o_key b) && eqb (o_version_id a) (o_version_id b).

Lemma same_version_equiv a b :
  same_version a b = true <-> key_version_le a b /\ key_version_le b a.
Proof.
  unfold same_version, key_version_le. rewrite andb_true_iff, !eqb_true. split.
  - intros [Hk Hv]. rewrite !decide_True by congruence. unfold version_le. rewrite Hv. split; apply opt_le_refl.
  - destruct (decide (o_key a = o_key b)) as [Hk|Hk].
    + rewrite decide_True by congruence. intros [H1 H2]. split; [done|]. by apply opt_le_antisymm.
    + rewrite decide_False by congruence. intros [H1 H2]. destruct Hk. by apply (anti_symm String.le).
Qed.

Lemma key_version_le_refl a : key_version_le a a.
Proof. unfold key_version_le. rewrite decide_True by done. apply opt_le_refl. Qed.

(** What the listing makes of the versions found. *)
Lemma listed_versions found :
  let listed := dedup_by same_version (merge_sort key_version_le found) in
  StronglySorted (fun a b => key_version_le a b /\ ~ key_version_le b a) listed /\
  (forall o, o ∈ listed -> o ∈ found) /\
  (forall o, o ∈ found -> exists o', o' ∈ listed /\ same_version o' o = true).
Proof.
  intros listed.
  destruct (dedup_by_spec key_version_le same_version same_version_equiv (merge_sort key_version_le found))
    as [H1 H2].
  - apply key_version_le_refl.
  - apply StronglySorted_merge_sort; apply _.
  - split_and!; [done| |].
    + intros o Ho%dedup_by_sub. by rewrite merge_sort_Permutation in Ho.
    + intros o Ho. apply H2. by rewrite merge_sort_Permutation.
Qed.

Section Listed.
Context {M : Type -> Type} `{SkipMap M} `{Env} `{StoreEnv} `{Digests}.

(** [version_listing_has_no_duplicates]. list_object_versions returns versions
    strictly sorted by key and version id, with no two entries for the same
    version. *)
Theorem version_listing_has_no_duplicates bucket prefix σ (w w' : World M) listed σ' :
  list_object_versions bucket prefix σ w = (Done listed, w', σ') ->
  StronglySorted (fun a b => key_version_le a b /\ ~ key_version_le b a) listed /\
  (forall a b, a ∈ listed -> b ∈ listed -> o_key a = o_key b -> o_version_id a = o_version_id b -> a = b).
Proof.
  intros Hrun.
  assert (exists found, listed = dedup_by same_version (merge_sort key_version_le found)) as [found ->].
  { pose proof (wp_run any_schedule (list_object_versions bucket prefix)
      (fun r _ => exists found, r = dedup_by same_version (merge_sort key_version_le found))
      (fun _ _ => True) (fun _ => True) w σ (Done listed) w' σ') as Hr.
    apply Hr in Hrun; [done| |apply any_schedule_ok]. unfold list_object_versions.
    apply wp_bind. eapply wp_mono; [apply wp_any|..]; [intros [] s1 _|done..].
    apply wp_bind. eapply wp_mono; [apply wp_any|..]; [intros names s2 _|done..].
    apply wp_bind. eapply wp_mono; [apply wp_any|..]; [intros found s3 _|done..].
    apply wp_ret. by exists found. }
  destruct (listed_versions found) as (Hs & _ & _). split; [done|].
  intros a b Ha Hb Hk Hv. revert Ha Hb. generalize dependent (dedup_by same_version (merge_sort key_version_le found)).
  intros l _ Hs. induction Hs as [|c l Hs IH Hf]; [by intros ?%elem_of_nil|].
  rewrite list.Forall_forall in Hf.
  assert (same_version a b = true) as [Hab Hba]%same_version_equiv
    by (unfold same_version; by rewrite Hk, Hv, !eqb_refl).
  intros [->|Ha]%elem_of_cons [->|Hb]%elem_of_cons; [done|..].
  - by destruct (Hf b Hb).
  - by destruct (Hf a Ha).
  - by apply IH.
Qed.
End Listed.
