(* ===== verification/Listing.v ===== *)
(** * Listing: [list_objects] of [FilesystemStorage]

    Flat and delimited listings with markers and page sizes, over the index. *)

From S2P Require Import Prelude Text Models Policy SkipMap Index FsModel Publication Lifecycle.
From S2P Require Import Storage.

Section Listing.
Context {M : Type -> Type} `{SkipMap M} `{Env} `{StoreEnv} `{Digests}.
Abbreviation World := (World M).

(** ** Delimited listings *)

(** One batch of keys of [scan_delimited_entries]: the entries pushed (newest
    first) and the last key looked at. *)
Fixpoint scan_batch (prefix delimiter : string) (marker : option string) (present : string -> bool)
    (desired : N) (keys : list string) (entries : list DirectoryEntry) (last : option string)
    : list DirectoryEntry * option string :=
  match keys with
  | [] => (entries, last)
  | key :: rest =>
      let entry := delimited_entry prefix delimiter key in
      if is_some_and (fun m => Text.leb (e_path entry) m) marker
         || match entries with
            | previous :: _ => eqb (e_path previous) (e_path entry)
            | [] => false
            end
         || eqb (e_kind entry) KObject && negb (present (e_path entry))
      then scan_batch prefix delimiter marker present desired rest entries (Some key)
      else
        let entries := entry :: entries in
        if (desired <=? N.of_nat (length entries))%N then (entries, Some key)
        else scan_batch prefix delimiter marker present desired rest entries (Some key)
  end.

(** The loop over batches; every batch but the last moves the marker, so the
    number of keys bounds the rounds. *)
Fixpoint scan_loop (fuel : nat) (idx : LockFreeIndex M) (bucket prefix delimiter : string)
    (marker : option string) (present : string -> bool) (desired batch : N)
    (scan_marker : option string) (entries : list DirectoryEntry) : list DirectoryEntry :=
  match fuel with
  | O => entries
  | S n =>
      let keys := list_prefix_marker idx bucket (Some prefix) scan_marker (Some batch) in
      match keys with
      | [] => entries
      | _ :: _ =>
          let reached_end := (N.of_nat (length keys) <? batch)%N in
          let '(entries, last) :=
            scan_batch prefix delimiter marker present desired keys entries scan_marker in
          if (desired <=? N.of_nat (length entries))%N || reached_end then entries
          else scan_loop n idx bucket prefix delimiter marker present desired batch last entries
      end
  end.

Definition scan_fuel (idx : LockFreeIndex M) (bucket : string) : nat :=
  match sk_get bucket idx with
  | Some b => S (length (sk_keys (bi_objects b)))
  | None => 1
  end.

Definition scan_delimited_entries (idx : LockFreeIndex M) (present : string -> bool)
    (bucket prefix delimiter : string) (marker : option string) (desired : N)
    : list DirectoryEntry :=
  let batch := N.min (N.max 1 desired) 1024 in
  reverse (scan_loop (scan_fuel idx bucket) idx bucket prefix delimiter marker present
             desired batch marker []).

(** The objects of a page; a key whose object is gone is left out. *)
Fixpoint read_page (bucket : string) (keys : list string) : io World (list Object) :=
  match keys with
  | [] => mret []
  | key :: rest =>
      r ← attempt (get_object_metadata bucket key);
      match r with
      | Ok o => objects ← read_page bucket rest; mret (o :: objects)
      | Err KeyNotFound => read_page bucket rest
      | Err e => fail e
      end
  end.

(** [next_marker] of a page cut at [max_keys]. *)
Definition page_marker {A} (path_of : A -> string) (entries : list A) (max_keys : N) : option string :=
  if (max_keys <? N.of_nat (length entries))%N then
    if N.eqb max_keys 0 then path_of <$> head entries
    else path_of <$> list.last (take (N.to_nat max_keys) entries)
  else None.

Definition is_object_entry (e : DirectoryEntry) : bool :=
  match e_kind e with KObject => true | KCommonPrefix => false end.

(** The entries a page is cut from. *)
Definition delimited_entries (w : World) (bucket prefix delimiter : string) (marker : option string)
    (entry_limit : N) : list DirectoryEntry :=
  if eqb delimiter "/" && (Text.is_empty prefix || Text.ends_with prefix "/")
  then list_child_entries (w_index w) bucket prefix marker (Some entry_limit)
  else scan_delimited_entries (w_index w)
         (fun key => path_exists (object_metadata_path bucket (compute_object_id bucket key)) (w_fs w))
         bucket prefix delimiter marker entry_limit.

Definition list_objects_with_delimiter (bucket prefix delimiter : string) (marker : option string)
    (max_keys : N) : io World ListObjectsResult :=
  let entry_limit := saturating_add_usize max_keys 1 in
  entries ← gets (fun w => delimited_entries w bucket prefix delimiter marker entry_limit);
  let page := take (N.to_nat max_keys) entries in
  objects ← read_page bucket (e_path <$> filter (fun e => is_object_entry e = true) page);
  mret (mkListing (e_path <$> filter (fun e => is_object_entry e = false) page) objects
          (max_keys <? N.of_nat (length entries))%N
          (page_marker e_path entries max_keys)).

(** ** Listings *)

Definition list_objects (bucket : string) (prefix delimiter marker : option string)
    (max_keys : option N) : io World ListObjectsResult :=
  require_bucket bucket;;
  let max_keys := match max_keys with Some n => n | None => 1000%N end in
  match delimiter with
  | Some (String _ _ as delimiter) =>
      list_objects_with_delimiter bucket (match prefix with Some p => p | None => "" end)
        delimiter marker max_keys
  | _ =>
      keys ← gets (fun w => list_prefix_marker (w_index w) bucket prefix marker
                              (Some (saturating_add_usize max_keys 1)));
      objects ← read_page bucket (take (N.to_nat max_keys) keys);
      mret (mkListing [] objects (max_keys <? N.of_nat (length keys))%N
              (page_marker (fun k => k) keys max_keys))
  end.

End Listing.
