(* ===== verification/ListingFacts.v ===== *)
(** * ListingFacts: listings and their pages

    The batched scan of [scan_delimited_entries] computes the listing a single
    pass over all keys would; for the slash delimiter the directory index gives
    the same entries; and a client that follows the markers sees every entry of
    the listing once, in order. *)

From Stdlib Require Import Ascii.
From S2P Require Import Prelude Text Models Policy SkipMap Index IndexFacts FsModel Publication FileFacts.
From S2P Require Import PublicationFacts ConcreteEnv PublicationSafety Lifecycle Storage StorageFacts Listing.

(** ** The first occurrence of a delimiter *)

Lemma find_eq s d :
  Text.find s d = if Text.starts_with s d then Some 0
                  else match s with EmptyString => None | String _ s' => S <$> Text.find s' d end.
Proof. by destruct s. Qed.

Lemma starts_with_length s d : Text.starts_with s d = true -> String.length d <= String.length s.
Proof. intros [t ->]%Text.starts_with_spec. rewrite Text.length_app. lia. Qed.

Lemma starts_with_app_short s t d :
  String.length d <= String.length s -> Text.starts_with (s +:+ t) d = Text.starts_with s d.
Proof.
  revert s. unfold Text.starts_with. induction d as [|a d IH]; intros [|b s] Hd; simpl in Hd; try lia.
  - by destruct t.
  - done.
  - rewrite Text.app_cons, !prefix_cons. rewrite IH by lia. done.
Qed.

Lemma find_bound s d i : Text.find s d = Some i -> i + String.length d <= String.length s.
Proof.
  revert i. induction s as [|a s IH]; intros i; rewrite find_eq;
    destruct (Text.starts_with _ d) eqn:E; try done.
  1,2: intros [= <-]; by apply starts_with_length in E.
  destruct (Text.find s d) as [j|]; [|done]. intros [= <-]. simpl. specialize (IH j eq_refl). lia.
Qed.

Lemma find_app s t d i : Text.find s d = Some i -> Text.find (s +:+ t) d = Some i.
Proof.
  revert i. induction s as [|a s IH]; intros i Hi; pose proof (find_bound _ _ _ Hi) as Hb;
    rewrite find_eq in Hi; rewrite find_eq, starts_with_app_short by lia;
    destruct (Text.starts_with _ d) eqn:E; try done.
  rewrite Text.app_cons. destruct (Text.find s d) as [j|]; [|done].
  rewrite (IH j eq_refl). done.
Qed.

Lemma slice_to_length n s : n <= String.length s -> String.length (Text.slice_to n s) = n.
Proof. revert s. induction n as [|n IH]; intros [|a s] Hn; simpl in *; try lia. rewrite IH; lia. Qed.

Lemma find_slice s d i :
  Text.find s d = Some i -> Text.find (Text.slice_to (i + String.length d) s) d = Some i.
Proof.
  revert i. induction s as [|a s IH]; intros i Hi; pose proof (find_bound _ _ _ Hi) as Hb;
    rewrite find_eq in Hi; destruct (Text.starts_with _ d) eqn:E; try done.
  - injection Hi as <-. simpl in Hb. replace d with EmptyString by (destruct d; simpl in Hb; [done|lia]).
    done.
  - injection Hi as <-. apply Text.starts_with_spec in E as [t ->].
    rewrite Nat.add_0_l, Text.slice_to_app, find_eq, Text.starts_with_refl. done.
  - destruct (Text.find s d) as [j|] eqn:Hj; [|done]. injection Hi as <-.
    change (Text.slice_to (S j + String.length d) (String a s))
      with (String a (Text.slice_to (j + String.length d) s)).
    rewrite find_eq, (IH j eq_refl).
    rewrite <- (Text.slice_to_from (j + String.length d) s) in E.
    change (String a (?x +:+ ?y)) with (String a x +:+ y) in E.
    rewrite starts_with_app_short in E; [by rewrite E|].
    simpl. rewrite slice_to_length; [lia|]. apply find_bound in Hj. done.
Qed.

Lemma slice_to_all s : Text.slice_to (String.length s) s = s.
Proof. induction s as [|a s IH]; simpl; [done|]. by rewrite IH. Qed.

Lemma slice_to_app_plus p s n :
  Text.slice_to (String.length p + n) (p +:+ s) = p +:+ Text.slice_to n s.
Proof. induction p as [|a p IH]; [done|]. rewrite !Text.app_cons. simpl. by rewrite IH. Qed.

(** ** The entry of a key *)

Section Entry.
Context (p d : string).
Abbreviation entry := (delimited_entry p d).

Lemma entry_cases s :
  Text.find s d = None /\ entry (p +:+ s) = mkEntry (p +:+ s) KObject \/
  exists c t i, s = c +:+ t /\ Text.find c d = Some i /\ i + String.length d = String.length c /\
    entry (p +:+ s) = mkEntry (p +:+ c) KCommonPrefix.
Proof.
  unfold delimited_entry. rewrite Text.slice_from_app.
  destruct (Text.find s d) as [i|] eqn:E; [right|by left].
  exists (Text.slice_to (i + String.length d) s), (Text.slice_from (i + String.length d) s), i.
  split_and!; [by rewrite Text.slice_to_from|by apply find_slice| |].
  - symmetry. apply slice_to_length. by apply find_bound.
  - f_equal. rewrite <- Nat.add_assoc. apply slice_to_app_plus.
Qed.

(** A key below a common prefix contributes that common prefix. *)
Lemma entry_below c t i :
  Text.find c d = Some i -> i + String.length d = String.length c ->
  entry (p +:+ c +:+ t) = mkEntry (p +:+ c) KCommonPrefix.
Proof.
  intros Hi Hlen. unfold delimited_entry.
  rewrite Text.slice_from_app, (find_app _ _ _ _ Hi), <- Nat.add_assoc, Hlen, slice_to_app_plus.
  by rewrite Text.slice_to_app.
Qed.

Lemma entry_path_prefix key :
  Text.starts_with key p = true ->
  Text.starts_with key (e_path (entry key)) = true /\
  Text.starts_with (e_path (entry key)) p = true.
Proof.
  intros [s ->]%Text.starts_with_spec. destruct (entry_cases s) as [[_ ->]|(c & t & i & -> & _ & _ & ->)].
  - split; [apply Text.starts_with_refl|apply Text.starts_with_app].
  - simpl. split; [rewrite <- Text.app_assoc|]; apply Text.starts_with_app.
Qed.

(** An entry is the entry of its own path, so its path determines it. *)
Lemma entry_of_path key : Text.starts_with key p = true -> entry (e_path (entry key)) = entry key.
Proof.
  intros [s ->]%Text.starts_with_spec. destruct (entry_cases s) as [[Hn ->]|(c & t & i & -> & Hi & Hl & ->)].
  - simpl. unfold delimited_entry. by rewrite Text.slice_from_app, Hn.
  - simpl. rewrite <- (Text.app_empty_r c) at 1. by eapply entry_below.
Qed.

Lemma entry_path_inj k k' :
  Text.starts_with k p = true -> Text.starts_with k' p = true ->
  e_path (entry k) = e_path (entry k') -> entry k = entry k'.
Proof. intros H1 H2 Heq. by rewrite <- (entry_of_path k), Heq, entry_of_path. Qed.

Lemma entry_path_le key : Text.starts_with key p = true -> String.le (e_path (entry key)) key.
Proof. intros H. apply starts_with_le. by apply entry_path_prefix. Qed.

(** Keys in order have entries in order. *)
Lemma entry_path_mono k k' :
  Text.starts_with k p = true -> Text.starts_with k' p = true -> Text.lt k k' ->
  String.le (e_path (entry k)) (e_path (entry k')).
Proof.
  intros Hk Hk' Hlt. apply Text.not_lt_le. intros Hbad.
  pose proof (entry_path_le k Hk) as Hle.
  pose proof (entry_path_prefix k' Hk') as [Hp' _].
  pose proof Hk' as [s' ->]%Text.starts_with_spec.
  destruct (entry_cases s') as [[_ He]|(c & t & i & -> & Hi & Hl & He)]; rewrite He in *; simpl in *.
  - apply (Text.lt_irrefl k). eapply Text.lt_le_trans; [exact Hlt|].
    etrans; [by apply Text.lt_le|done].
  - assert (Text.starts_with k (p +:+ c) = true) as [u ->]%Text.starts_with_spec.
    { eapply Text.starts_with_convex; [|by apply Text.lt_le|done].
      etrans; [by apply Text.lt_le|done]. }
    rewrite Text.app_assoc, (entry_below c u i Hi Hl) in Hbad. by apply Text.lt_irrefl in Hbad.
Qed.
End Entry.

(** ** Sorted lists *)

(** The elements after the last of a front piece are the rest. *)
Lemma filter_after_last {A} (R : relation A) `{forall x y, Decision (R x y), !Transitive R} (l1 l2 : list A) m :
  (forall x, ~ R x x) -> StronglySorted R (l1 ++ l2) -> list.last l1 = Some m ->
  filter (R m) (l1 ++ l2) = l2.
Proof.
  intros Hirr (H1 & H2 & H3)%StronglySorted_app_split Hm. rewrite list.filter_app.
  apply last_Some in Hm as [l1' ->].
  replace (filter (R m) (l1' ++ [m])) with (@nil A).
  - simpl. clear H1. induction l2 as [|a l2 IH]; [done|].
    apply StronglySorted_inv in H2 as [H2 _].
    rewrite filter_cons_True by (apply H3; set_solver). f_equal. apply IH; [done|].
    intros x y Hx Hy. apply H3; [done|set_solver].
  - symmetry. apply elem_of_nil_inv. intros x [Hx Hin]%list_elem_of_filter.
    apply elem_of_app in Hin as [Hin| ->%list_elem_of_singleton]; [|by apply (Hirr m)].
    apply StronglySorted_app_split in H1 as (_ & _ & H1).
    apply (Hirr m). transitivity x; [done|]. apply H1; set_solver.
Qed.

Lemma last_take_cons {A} n (a : A) l : exists m, list.last (take (S n) (a :: l)) = Some m /\ m ∈ take (S n) (a :: l).
Proof.
  simpl. destruct (list.last (a :: take n l)) as [m|] eqn:E.
  - exists m. split; [done|]. apply last_Some in E as [l' ->]. set_solver.
  - by apply last_None in E.
Qed.

(** ** Dropping repeated entries *)

Fixpoint compress (previous : option string) (l : list DirectoryEntry) : list DirectoryEntry :=
  match l with
  | [] => []
  | e :: rest =>
      if eqb previous (Some (e_path e)) then compress previous rest
      else e :: compress (Some (e_path e)) rest
  end.

(** The path of the last entry kept. *)
Definition last_path (previous : option string) (l : list DirectoryEntry) : option string :=
  match list.last l with Some e => Some (e_path e) | None => previous end.

Lemma last_path_cons prev e l : last_path prev (e :: l) = last_path (Some (e_path e)) l.
Proof. unfold last_path. destruct l as [|e' l] using rev_ind; [done|].
  change (e :: l ++ [e']) with ((e :: l) ++ [e']). by rewrite !last_snoc. Qed.

Lemma compress_app prev l1 l2 :
  compress prev (l1 ++ l2) = compress prev l1 ++ compress (last_path prev (compress prev l1)) l2.
Proof.
  revert prev. induction l1 as [|e l1 IH]; intros prev; [done|]. simpl.
  destruct (eqb prev _); [apply IH|]. rewrite last_path_cons. simpl. f_equal. apply IH.
Qed.

(** Entries in order, equal when their paths are. *)
Definition ordered (l : list DirectoryEntry) : Prop :=
  StronglySorted (fun a b => String.le (e_path a) (e_path b)) l /\
  forall a b, a ∈ l -> b ∈ l -> e_path a = e_path b -> a = b.

Lemma ordered_tail e l : ordered (e :: l) -> ordered l.
Proof.
  intros [Hs Hi]. split; [by apply StronglySorted_inv in Hs as [? _]|].
  intros a b Ha Hb. apply Hi; set_solver.
Qed.

Lemma ordered_filter (P : DirectoryEntry -> Prop) `{forall e, Decision (P e)} l :
  ordered l -> ordered (filter P l).
Proof.
  intros [Hs Hi]. split; [by apply StronglySorted_filter|].
  intros a b [_ Ha]%list_elem_of_filter [_ Hb]%list_elem_of_filter. auto.
Qed.

Lemma compress_spec prev l :
  ordered l -> (forall x e, prev = Some x -> e ∈ l -> String.le x (e_path e)) ->
  StronglySorted entry_lt (compress prev l) /\
  (forall e, e ∈ compress prev l <-> e ∈ l /\ prev <> Some (e_path e)).
Proof.
  revert prev. induction l as [|a l IH]; intros prev Ho Hle.
  { simpl. split; [constructor|]. intros e. rewrite elem_of_nil. tauto. }
  assert (forall e, e ∈ l -> String.le (e_path a) (e_path e)) as Ha.
  { destruct Ho as [Hs _]. apply StronglySorted_inv in Hs as [_ Hf].
    rewrite list.Forall_forall in Hf. auto. }
  simpl. destruct (eqb prev (Some (e_path a))) eqn:E.
  - rewrite eqb_true in E. subst prev.
    destruct (IH (Some (e_path a)) (ordered_tail _ _ Ho)) as [Hs Hel];
      [intros x e [= <-]; apply Ha|].
    split; [done|]. intros e. rewrite Hel, elem_of_cons. split; [tauto|].
    intros [[->|?] Hne]; [done|tauto].
  - rewrite eqb_false in E.
    destruct (IH (Some (e_path a)) (ordered_tail _ _ Ho)) as [Hs Hel];
      [intros x e [= <-]; apply Ha|].
    split.
    + constructor; [done|]. apply list.Forall_forall. intros e [He Hne]%Hel.
      split; [by apply Ha|]. intros Heq. apply Hne. by rewrite Heq.
    + intros e. rewrite elem_of_cons, Hel, elem_of_cons. split.
      * intros [->|[He Hne]]; [tauto|]. split; [tauto|]. intros ->.
        assert (String.le (e_path e) (e_path a)) as Hbad by (eapply Hle; [done|set_solver]).
        apply Hne. f_equal. apply (anti_symm String.le); [by apply Ha|done].
      * intros [[->|He] Hne]; [tauto|]. destruct (decide (e = a)) as [->|Hea]; [tauto|].
        right. split; [done|]. intros [= Heq]. apply Hea, Ho; set_solver.
Qed.

Lemma compress_None l :
  ordered l ->
  StronglySorted entry_lt (compress None l) /\ forall e, e ∈ compress None l <-> e ∈ l.
Proof.
  intros Ho. destruct (compress_spec None l Ho) as [Hs He]; [done|]. split; [done|].
  intros e. rewrite He. split; [by intros [? _]|done].
Qed.

(** ** The batched scan *)

(** What a listing shows of an entry: it lies after the marker, and an object
    has its metadata file. *)
Definition visible (marker : option string) (present : string -> bool) (e : DirectoryEntry) : Prop :=
  is_none_or (fun m => Text.ltb m (e_path e)) marker = true /\
  (e_kind e = KObject -> present (e_path e) = true).
#[global] Instance visible_dec marker present e : Decision (visible marker present e).
Proof. unfold visible. apply _. Defined.

(** The listing: one pass over all keys, without a limit. *)
Definition listing (keys : list string) (prefix delimiter : string) (marker : option string)
    (present : string -> bool) : list DirectoryEntry :=
  compress None (filter (visible marker present)
    (delimited_entry prefix delimiter <$> filter (wanted (Some prefix) marker) keys)).

Section Scan.
Context (prefix delimiter : string) (marker : option string) (present : string -> bool).
Abbreviation shown := (fun keys => filter (visible marker present) (delimited_entry prefix delimiter <$> keys)).

Lemma skip_visible e dup :
  is_some_and (fun m => Text.leb (e_path e) m) marker || dup
  || eqb (e_kind e) KObject && negb (present (e_path e)) =
  negb (bool_decide (visible marker present e)) || dup.
Proof.
  assert (is_some_and (fun m => Text.leb (e_path e) m) marker =
          negb (is_none_or (fun m => Text.ltb m (e_path e)) marker)) as ->.
  { destruct marker as [m|]; simpl; [|done]. unfold Text.leb, Text.ltb.
    rewrite <- bool_decide_not. apply bool_decide_ext. rewrite Text.not_lt_le. done. }
  case_bool_decide as Hv.
  - destruct Hv as [-> Hp]. simpl. destruct (e_kind e); simpl; [rewrite Hp by done|]; by destruct dup.
  - simpl. destruct (is_none_or _ marker) eqn:Em; [|done].
    destruct (e_kind e) eqn:Ek, (present (e_path e)) eqn:Ep; simpl;
      try (by destruct dup); destruct Hv; (split; [done|]); rewrite ?Ek, ?Ep; done.
Qed.

Lemma scan_batch_spec desired keys entries last :
  (N.of_nat (length entries) < desired)%N ->
  let new := compress (e_path <$> head entries) (shown keys) in
  let room := N.to_nat desired - length entries in
  (scan_batch prefix delimiter marker present desired keys entries last).1 =
    reverse (take room new) ++ entries /\
  (length new < room ->
   (scan_batch prefix delimiter marker present desired keys entries last).2 =
     match list.last keys with Some k => Some k | None => last end).
Proof.
  revert entries last. induction keys as [|key keys IH]; intros entries last Hroom; simpl.
  { by rewrite take_nil. }
  set (e := delimited_entry prefix delimiter key).
  assert (forall l, match list.last (key :: keys) with Some k => Some k | None => l end =
               match list.last keys with Some k => Some k | None => Some key end) as Hlast.
  { intros l. destruct keys as [|k ks]; [done|]. rewrite last_cons_cons.
    by destruct (list.last (k :: ks)) eqn:El; [|apply last_None in El]. }
  rewrite skip_visible.
  assert ((match entries with previous :: _ => eqb (e_path previous) (e_path e) | [] => false end) =
          eqb (e_path <$> head entries) (Some (e_path e))) as ->.
  { destruct entries as [|p es]; simpl; [done|]. unfold eqb. apply bool_decide_ext.
    split; [by intros ->|by intros [=]]. }
  rewrite filter_cons. case_decide as Hv.
  2:{ rewrite bool_decide_eq_false_2 by done. simpl.
      destruct (IH entries (Some key) Hroom) as [-> Hl]. split; [done|].
      intros Hlen. rewrite Hl by done. by rewrite Hlast. }
  rewrite bool_decide_eq_true_2 by done. simpl.
  destruct (eqb (e_path <$> head entries) (Some (e_path e))) eqn:Edup.
  { destruct (IH entries (Some key) Hroom) as [-> Hl]. split; [done|].
    intros Hlen. rewrite Hl by done. by rewrite Hlast. }
  replace (N.to_nat desired - length entries) with (S (N.to_nat desired - S (length entries))) by lia.
  destruct (N.leb_spec desired (N.of_nat (S (length entries)))) as [Hfull|Hmore].
  - replace (N.to_nat desired - S (length entries)) with 0 by lia. simpl.
    split; [done|lia].
  - destruct (IH (e :: entries) (Some key)) as [-> Hl]; [simpl; lia|]. simpl in *. split.
    + by rewrite reverse_cons, <- app_assoc.
    + intros Hlen. rewrite Hl; [by rewrite Hlast|]. apply Nat.succ_lt_mono. exact Hlen.
Qed.
End Scan.

Lemma head_reverse_app front entries :
  e_path <$> head (reverse front ++ entries) = last_path (e_path <$> head entries) front.
Proof.
  unfold last_path. destruct front as [|e front _] using rev_ind; [done|].
  by rewrite reverse_snoc, last_snoc.
Qed.

Section Listings.
Context {M : Type -> Type} `{SkipMapLaws M}.

Lemma indexed_keys_sorted (idx : LockFreeIndex M) bucket :
  StronglySorted Text.lt (indexed_keys idx bucket).
Proof. unfold indexed_keys. destruct (sk_get bucket idx); [apply sk_keys_sorted|constructor]. Qed.

(** The keys wanted after the last key of a front piece are the rest. *)
Lemma wanted_after (keys l1 l2 : list string) prefix marker m :
  StronglySorted Text.lt keys -> filter (wanted (Some prefix) marker) keys = l1 ++ l2 ->
  list.last l1 = Some m -> filter (wanted (Some prefix) (Some m)) keys = l2.
Proof.
  intros Hs Heq Hm.
  assert (m ∈ filter (wanted (Some prefix) marker) keys) as [[_ Hmm] _]%list_elem_of_filter.
  { rewrite Heq. apply last_Some in Hm as [l' ->]. set_solver. }
  rewrite <- (filter_after_last Text.lt l1 l2 m); [|apply Text.lt_irrefl| |done].
  - rewrite <- Heq. symmetry. apply filter_and. intros k. unfold wanted. simpl.
    unfold Text.ltb at 2. rewrite bool_decide_eq_true. split; [tauto|].
    intros [Hp Hk]. split_and!; [done..|]. destruct marker as [m0|]; [|done]. simpl in *.
    unfold Text.ltb in *. rewrite bool_decide_eq_true in *. by etrans.
  - rewrite <- Heq. by apply StronglySorted_filter.
Qed.

Lemma scan_loop_spec (idx : LockFreeIndex M) bucket prefix delimiter marker present desired batch fuel
    scan_marker entries keys :
  keys = filter (wanted (Some prefix) scan_marker) (indexed_keys idx bucket) ->
  (1 <= batch)%N -> (N.of_nat (length entries) < desired)%N -> length keys < fuel ->
  scan_loop fuel idx bucket prefix delimiter marker present desired batch scan_marker entries =
  reverse (take (N.to_nat desired - length entries)
    (compress (e_path <$> head entries)
       (filter (visible marker present) (delimited_entry prefix delimiter <$> keys)))) ++ entries.
Proof.
  revert scan_marker entries keys.
  induction fuel as [|fuel IH]; intros scan_marker entries keys Hkeys Hb Hroom Hf; [lia|].
  simpl. rewrite list_prefix_marker_scan, <- Hkeys. unfold capped.
  set (n := N.to_nat (N.max 1 batch)). pose proof (take_drop n keys) as Hsplit.
  destruct (take n keys) as [|k ks] eqn:Et.
  { simpl in Hsplit. destruct keys as [|k' keys']; [by rewrite fmap_nil, filter_nil; simpl; rewrite take_nil|].
    destruct n as [|n'] eqn:En; [lia|]. done. }
  destruct (scan_batch_spec prefix delimiter marker present desired (k :: ks) entries scan_marker Hroom)
    as [He Hl].
  destruct (scan_batch _ _ _ _ _ (k :: ks) _ _) as [entries' last'] eqn:Eb.
  cbn [fst snd] in He, Hl.
  set (front := compress (e_path <$> head entries) (filter (visible marker present)
                  (delimited_entry prefix delimiter <$> k :: ks))) in *.
  rewrite <- Hsplit, fmap_app, list.filter_app, compress_app. fold front.
  set (room := N.to_nat desired - length entries) in *.
  destruct (decide (length front < room)) as [Hlt|Hge].
  - rewrite take_ge in He by lia. specialize (Hl Hlt). subst entries'.
    replace (desired <=? _)%N with false
      by (symmetry; apply N.leb_gt; rewrite length_app, length_reverse; lia). simpl.
    destruct (N.ltb_spec (N.of_nat (S (length ks))) batch) as [Hend|Hmore].
    + replace (drop n keys) with (@nil string); [simpl; by rewrite app_nil_r, take_ge by lia|].
      symmetry. apply drop_ge. apply (f_equal length) in Et. rewrite length_take in Et. simpl in Et. lia.
    + destruct (last_take_cons (length ks) k ks) as (m & Hm & _).
      rewrite take_ge in Hm by (simpl; lia). rewrite Hm in Hl. subst last'.
      pose proof (wanted_after _ (k :: ks) (drop n keys) prefix scan_marker m
        (indexed_keys_sorted idx bucket) ltac:(by rewrite Hsplit) Hm) as Hrest.
      rewrite (IH _ _ (drop n keys)).
      * rewrite length_app, length_reverse, head_reverse_app.
        rewrite (take_app_ge front) by lia. rewrite reverse_app, <- app_assoc.
        by replace (N.to_nat desired - (length front + length entries)) with (room - length front) by lia.
      * done.
      * done.
      * rewrite length_app, length_reverse. lia.
      * apply (f_equal length) in Hsplit. rewrite length_app in Hsplit. simpl in Hsplit. lia.
  - rewrite (take_app_le front) by lia. subst entries'.
    replace (desired <=? _)%N with true; [done|].
    symmetry. apply N.leb_le. rewrite length_app, length_reverse, length_take. lia.
Qed.

Lemma scan_delimited_entries_listing (idx : LockFreeIndex M) present bucket prefix delimiter marker desired :
  (1 <= desired)%N ->
  scan_delimited_entries idx present bucket prefix delimiter marker desired =
  take (N.to_nat desired) (listing (indexed_keys idx bucket) prefix delimiter marker present).
Proof.
  intros Hd. unfold scan_delimited_entries. erewrite scan_loop_spec; [|done|..]; simpl.
  - rewrite app_nil_r, reverse_involutive, Nat.sub_0_r. done.
  - lia.
  - lia.
  - pose proof (length_filter (wanted (Some prefix) marker) (indexed_keys idx bucket)) as Hf.
    unfold scan_fuel, indexed_keys in *. destruct (sk_get bucket idx); simpl in *; lia.
Qed.

(** ** What a listing holds *)

Lemma shown_ordered keys prefix delimiter marker present :
  StronglySorted Text.lt keys ->
  ordered (filter (visible marker present)
    (delimited_entry prefix delimiter <$> filter (wanted (Some prefix) marker) keys)).
Proof.
  intros Hs. apply ordered_filter.
  assert (forall k, k ∈ filter (wanted (Some prefix) marker) keys -> Text.starts_with k prefix = true) as Hp
    by (by intros k [[? _] _]%list_elem_of_filter).
  apply (StronglySorted_filter _ (wanted (Some prefix) marker)) in Hs. split.
  - induction Hs as [|k l Hs IH Hf]; [constructor|]. rewrite fmap_cons. constructor.
    + apply IH. intros k' Hk'. apply Hp. set_solver.
    + apply list.Forall_forall. intros e (k' & -> & Hk')%list_elem_of_fmap.
      apply entry_path_mono; [apply Hp; set_solver..|].
      by apply (proj1 (list.Forall_forall (Text.lt k) l) Hf).
  - intros a b (k & -> & Hk)%list_elem_of_fmap (k' & -> & Hk')%list_elem_of_fmap.
    apply entry_path_inj; by apply Hp.
Qed.

Lemma length_compress prev l : length (compress prev l) <= length l.
Proof.
  revert prev. induction l as [|e l IH]; intros prev; simpl; [done|].
  destruct (eqb prev _); simpl; [specialize (IH prev)|specialize (IH (Some (e_path e)))]; lia.
Qed.

Lemma length_listing keys prefix delimiter marker present :
  length (listing keys prefix delimiter marker present) <= length keys.
Proof.
  unfold listing. etrans; [apply length_compress|]. etrans; [apply length_filter|].
  rewrite length_fmap. apply length_filter.
Qed.

Lemma listing_spec keys prefix delimiter marker present :
  StronglySorted Text.lt keys ->
  StronglySorted entry_lt (listing keys prefix delimiter marker present) /\
  forall e, e ∈ listing keys prefix delimiter marker present <->
    exists key, key ∈ keys /\ Text.starts_with key prefix = true /\
      e = delimited_entry prefix delimiter key /\ visible marker present e.
Proof.
  intros Hs. destruct (compress_None _ (shown_ordered keys prefix delimiter marker present Hs)) as [H1 H2].
  split; [done|]. intros e. unfold listing. rewrite H2, list_elem_of_filter, list_elem_of_fmap. split.
  - intros [Hv (k & -> & [[Hp _] Hk]%list_elem_of_filter)]. by exists k.
  - intros (k & Hk & Hp & -> & Hv). split; [done|]. exists k. split; [done|].
    apply list_elem_of_filter. split; [|done]. split; [done|].
    destruct marker as [m|]; [|done]. destruct Hv as [Hm _]. simpl in *. unfold Text.ltb in *.
    rewrite bool_decide_eq_true in *. eapply Text.lt_le_trans; [done|]. by apply entry_path_le.
Qed.

(** The listing from a marker on is the rest of the whole listing. *)
Lemma listing_after keys prefix delimiter m present :
  StronglySorted Text.lt keys ->
  listing keys prefix delimiter (Some m) present =
  filter (fun e => Text.lt m (e_path e)) (listing keys prefix delimiter None present).
Proof.
  intros Hs. destruct (listing_spec keys prefix delimiter (Some m) present Hs) as [H1 H2].
  destruct (listing_spec keys prefix delimiter None present Hs) as [H3 H4].
  apply (StronglySorted_ext entry_lt); [intros a; apply Text.lt_irrefl|done|by apply StronglySorted_filter|].
  intros e. rewrite list_elem_of_filter, H2, H4. unfold visible. simpl. unfold Text.ltb.
  setoid_rewrite bool_decide_eq_true. naive_solver.
Qed.

Lemma listing_all_present keys prefix delimiter marker (present : string -> bool) :
  StronglySorted Text.lt keys -> (forall key, key ∈ keys -> present key = true) ->
  listing keys prefix delimiter marker present = listing keys prefix delimiter marker (fun _ => true).
Proof.
  intros Hs Hall. destruct (listing_spec keys prefix delimiter marker present Hs) as [H1 H2].
  destruct (listing_spec keys prefix delimiter marker (fun _ => true) Hs) as [H3 H4].
  apply (StronglySorted_ext entry_lt); [intros a; apply Text.lt_irrefl|done..|].
  intros e. rewrite H2, H4. split; intros (k & Hk & Hp & He & [Hm Hv]); exists k; split_and!; try done.
  split; [done|]. intros Ho. apply Hall. subst e.
  pose proof Hp as [s ->]%Text.starts_with_spec.
  destruct (entry_cases prefix delimiter s) as [[_ ->]|(c & t & i & _ & _ & _ & Heq)]; [done|].
  by rewrite Heq in Ho.
Qed.

Lemma child_entries_listing (idx : LockFreeIndex M) bucket p marker max :
  idx_wf idx -> directory_prefix p ->
  list_child_entries idx bucket p marker max =
  capped max (listing (indexed_keys idx bucket) p "/" marker (fun _ => true)).
Proof.
  intros Hi Hp. destruct (listing_spec (indexed_keys idx bucket) p "/" marker (fun _ => true)
    (indexed_keys_sorted idx bucket)) as [H1 H2].
  apply list_child_entries_scan; [done..|]. intros e. rewrite H2. unfold visible. naive_solver.
Qed.

(** C34 [child_entries_equal_scan]. The hierarchical fast path agrees with the
    scan: walking the directory children of the index under a prefix gives the
    same entries as scanning all keys and splitting them at the slash. *)
Theorem child_entries_equal_scan (idx : LockFreeIndex M) (present : string -> bool) bucket p marker n :
  idx_wf idx -> directory_prefix p -> (1 <= n)%N ->
  (forall key, key ∈ indexed_keys idx bucket -> present key = true) ->
  list_child_entries idx bucket p marker (Some n) =
  scan_delimited_entries idx present bucket p "/" marker n.
Proof.
  intros Hi Hp Hn Hall. rewrite child_entries_listing by done.
  rewrite scan_delimited_entries_listing by done.
  rewrite (listing_all_present _ _ _ _ present) by (done || apply indexed_keys_sorted).
  unfold capped. by rewrite N.max_r by lia.
Qed.
End Listings.

(** ** Pages *)

Section Pages.
Context {A : Type} (path_of : A -> string).
Abbreviation path_lt := (fun a b => Text.lt (path_of a) (path_of b)).

#[local] Instance path_lt_trans : Transitive path_lt.
Proof. intros x y z. simpl. by etrans. Qed.

(** The elements after a marker. *)
Definition after (marker : option string) (l : list A) : list A :=
  match marker with
  | Some m => filter (fun a => Text.lt m (path_of a)) l
  | None => l
  end.

(** A client that asks for pages of [max_keys] until one is not truncated;
    [fetch marker limit] is what the store looks up for a page. *)
Fixpoint follow (fuel : nat) (fetch : option string -> N -> list A) (max_keys : N)
    (marker : option string) : list A :=
  match fuel with
  | O => []
  | S n =>
      let entries := fetch marker (saturating_add_usize max_keys 1) in
      take (N.to_nat max_keys) entries ++
      match page_marker path_of entries max_keys with
      | Some m => follow n fetch max_keys (Some m)
      | None => []
      end
  end.

Lemma page_marker_page entries max_keys :
  (1 <= max_keys)%N ->
  match page_marker path_of entries max_keys with
  | Some m => exists a, list.last (take (N.to_nat max_keys) entries) = Some a /\ m = path_of a /\
                        N.to_nat max_keys < length entries
  | None => length entries <= N.to_nat max_keys
  end.
Proof.
  intros Hn. unfold page_marker. destruct (N.ltb_spec max_keys (N.of_nat (length entries))) as [Hlt|Hge]; [|lia].
  destruct (N.eqb_spec max_keys 0) as [->|_]; [lia|].
  destruct (list.last (take (N.to_nat max_keys) entries)) as [a|] eqn:E; simpl.
  - exists a. split_and!; [done..|lia].
  - apply last_None in E. apply (f_equal length) in E. rewrite length_take in E. simpl in E. lia.
Qed.

Lemma follow_all fetch max_keys (l : list A) :
  StronglySorted path_lt l -> (1 <= max_keys < U64_MAX)%N ->
  (forall marker limit, (1 <= limit)%N -> fetch marker limit = take (N.to_nat limit) (after marker l)) ->
  forall fuel marker, length (after marker l) < fuel ->
    follow fuel fetch max_keys marker = after marker l.
Proof.
  intros Hs Hn Hfetch. induction fuel as [|fuel IH]; intros marker Hf; [lia|]. simpl.
  assert (saturating_add_usize max_keys 1 = max_keys + 1)%N as ->
    by (unfold saturating_add_usize; lia).
  rewrite Hfetch by lia. set (rest := after marker l) in *.
  assert (StronglySorted path_lt rest) as Hrest
    by (unfold rest, after; destruct marker; [by apply StronglySorted_filter|done]).
  pose proof (page_marker_page (take (N.to_nat (max_keys + 1)) rest) max_keys ltac:(lia)) as Hp.
  rewrite take_take, Nat.min_l in Hp |- * by lia. rewrite length_take in Hp.
  destruct (page_marker _ _ _) as [m|].
  - destruct Hp as (a & Ha & -> & Hlen).
    assert (after (Some (path_of a)) l = drop (N.to_nat max_keys) rest) as Hdrop.
    { rewrite <- (filter_after_last path_lt (take (N.to_nat max_keys) rest) (drop (N.to_nat max_keys) rest) a);
        rewrite ?take_drop; [|intros x; apply Text.lt_irrefl|done|done].
      simpl. unfold rest, after. destruct marker as [m|]; [|done].
      symmetry. apply filter_and. intros x.
      assert (a ∈ rest) as [Hm _]%list_elem_of_filter.
      { apply last_Some in Ha as [l' Ha]. rewrite <- (take_drop (N.to_nat max_keys) rest), Ha. set_solver. }
      split; [tauto|]. intros Hx. split; [done|]. by etrans. }
    rewrite IH, Hdrop; [apply take_drop|]. rewrite Hdrop, length_drop. lia.
  - rewrite app_nil_r. apply take_ge. lia.
Qed.
End Pages.

Section Walks.
Context {M : Type -> Type} `{SkipMapLaws M} `{Env} `{StoreEnv} `{Digests}.

(** Following the markers of flat pages of any
    positive size yields every key with the prefix exactly once and in order.
    *)
Theorem flat_pages_complete (idx : LockFreeIndex M) bucket prefix max_keys fuel :
  (1 <= max_keys < U64_MAX)%N -> length (indexed_keys idx bucket) < fuel ->
  follow id fuel (fun marker limit => list_prefix_marker idx bucket prefix marker (Some limit))
    max_keys None =
  filter (fun key => is_none_or (Text.starts_with key) prefix = true) (indexed_keys idx bucket).
Proof.
  intros Hn Hf.
  set (l := filter (fun key => is_none_or (Text.starts_with key) prefix = true) (indexed_keys idx bucket)).
  change l with (after id None l).
  apply follow_all; [by apply StronglySorted_filter, indexed_keys_sorted|done| |].
  - intros marker limit Hl. rewrite list_prefix_marker_scan. unfold capped. rewrite N.max_r by lia.
    f_equal. unfold l, after, wanted. destruct marker as [m|].
    + symmetry. apply filter_and. intros k. simpl. unfold id, Text.ltb. rewrite bool_decide_eq_true. tauto.
    + apply list_filter_iff. intros k. simpl. tauto.
  - simpl. unfold l. pose proof (length_filter (fun key => is_none_or (Text.starts_with key) prefix = true)
      (indexed_keys idx bucket)). lia.
Qed.

Lemma directory_test prefix :
  Text.is_empty prefix || Text.ends_with prefix "/" = true -> directory_prefix prefix.
Proof.
  intros [He|He]%orb_true_iff; [left; by destruct prefix|right].
  apply (Text.starts_with_spec (String.rev prefix)) in He as [t Ht].
  exists (String.rev t). by rewrite <- (rev_involutive prefix), Ht, rev_app_distr.
Qed.

(** The metadata file of a key is there. *)
Definition metadata_present (w : World M) (bucket key : string) : bool :=
  path_exists (object_metadata_path bucket (compute_object_id bucket key)) (w_fs w).

Lemma delimited_entries_listing (w : World M) bucket prefix delimiter marker limit :
  idx_wf (w_index w) -> (1 <= limit)%N ->
  (forall key, key ∈ indexed_keys (w_index w) bucket -> metadata_present w bucket key = true) ->
  delimited_entries w bucket prefix delimiter marker limit =
  take (N.to_nat limit) (listing (indexed_keys (w_index w) bucket) prefix delimiter marker (fun _ => true)).
Proof.
  intros Hi Hl Hall. unfold delimited_entries.
  destruct (eqb delimiter "/" && _) eqn:E.
  - apply andb_true_iff in E as [Ed Ep]. rewrite eqb_true in Ed. subst delimiter.
    rewrite child_entries_listing by auto using directory_test. unfold capped. by rewrite N.max_r by lia.
  - rewrite scan_delimited_entries_listing by done.
    by rewrite (listing_all_present _ _ _ _ (fun key => _)) by (done || apply indexed_keys_sorted).
Qed.

(** C32 [delimited_pages_complete]. Following the markers of delimited pages
    of any positive size yields every entry of the delimited listing exactly
    once and in order, for the index walk and for the scan. *)
Theorem delimited_pages_complete (w : World M) bucket prefix delimiter max_keys fuel :
  idx_wf (w_index w) ->
  (forall key, key ∈ indexed_keys (w_index w) bucket -> metadata_present w bucket key = true) ->
  (1 <= max_keys < U64_MAX)%N -> length (indexed_keys (w_index w) bucket) < fuel ->
  follow e_path fuel (delimited_entries w bucket prefix delimiter) max_keys None =
  listing (indexed_keys (w_index w) bucket) prefix delimiter None (fun _ => true).
Proof.
  intros Hi Hall Hn Hf. set (keys := indexed_keys (w_index w) bucket) in *.
  set (l := listing keys prefix delimiter None (fun _ => true)).
  assert (StronglySorted Text.lt keys) as Hs by apply indexed_keys_sorted.
  change l with (after e_path None l).
  apply follow_all; [by apply listing_spec|done| |].
  - intros marker limit Hl. rewrite delimited_entries_listing by done. f_equal.
    destruct marker as [m|]; [|done]. by apply listing_after.
  - eapply Nat.le_lt_trans; [apply length_listing|done].
Qed.
End Walks.

(** * The pages [list_objects] returns

    On a store whose indexed keys all hold an object, a page has the metadata of
    exactly the keys and the common prefixes the listing assigns to it, and the
    marker that the next page starts after. *)

Section ListObjects.
Context {M : Type -> Type} `{SkipMapLaws M} `{EnvLaws} `{StoreEnv} `{Digests}.
Abbreviation World := (World M).

(** Every indexed key of the bucket holds its object, in a directory of its own. *)
Record stocked (bucket : string) (objects : string -> Object * bytes) (w : World) : Prop := mkStocked {
  st_index : idx_wf (w_index w);
  st_dir : is_dir (bucket_dir bucket) (w_fs w) = true;
  st_held : forall key, key ∈ indexed_keys (w_index w) bucket ->
    held (object_dir bucket key) (Some (objects key)) (w_fs w);
  st_distinct : forall k k', k ∈ indexed_keys (w_index w) bucket -> k' ∈ indexed_keys (w_index w) bucket ->
    compute_object_id bucket k = compute_object_id bucket k' -> k = k' }.

Lemma object_dir_inj bucket k k' :
  object_dir bucket k = object_dir bucket k' -> compute_object_id bucket k = compute_object_id bucket k'.
Proof. unfold object_dir, object_id_dir. rewrite join_inj. by intros [_ ?]. Qed.

(** Reading one object leaves the store stocked. *)
Lemma stocked_read bucket objects (w : World) key s' :
  stocked bucket objects w -> key ∈ indexed_keys (w_index w) bucket ->
  held (object_dir bucket key) (Some (objects key)) s' ->
  agree (private (object_dir bucket key)) (w_fs w) s' -> stocked bucket objects (set_fs s' w).
Proof.
  intros Hst Hk Hh Ha. split; simpl; [apply Hst| | |apply Hst].
  - rewrite (agree_is_dir _ _ _ _ Ha); [apply Hst|apply plain_bucket_dir|].
    intros (n & Hn & Hb)%private_inside. unfold object_dir, object_id_dir, join in Hb.
    apply (f_equal length) in Hb. rewrite !length_app in Hb. simpl in Hb. lia.
  - intros k' Hk'. destruct (decide (k' = key)) as [->|Hne]; [done|].
    eapply (held_frame (object_dir bucket key) _ _ no_input); [|..|by apply Hst].
    + apply apart_same_length; [done|]. intros Heq%object_dir_inj. apply Hne. symmetry. by apply (st_distinct _ _ _ Hst).
    + unfold object_dir, object_id_dir. rewrite parent_join. apply Hst.
    + by intros q [].
    + eapply agree_weaken; [|exact Ha]. intros q Hq. left. by apply inside_below, private_inside.
Qed.

(** What reading objects may clean up: their staging directories. *)
Definition staging (bucket : string) (q : path) : Prop := exists key, private (object_dir bucket key) q.

Lemma staging_not_top bucket n q : staging bucket q -> q <> bucket_dir bucket /\ q <> join (bucket_dir bucket) n.
Proof.
  intros (key & (n' & rest & ->)%private_inside). unfold object_dir, object_id_dir, join. split;
    intros Heq; apply (f_equal length) in Heq; rewrite !length_app in Heq; simpl in Heq; lia.
Qed.

Lemma wp_read_page {m : mode} bucket objects keys Q E C (w : World) :
  m_faults m = false -> stocked bucket objects w ->
  (forall key, key ∈ keys -> key ∈ indexed_keys (w_index w) bucket) ->
  (forall s', stocked bucket objects (set_fs s' w) -> agree (staging bucket) (w_fs w) s' ->
     Q ((fun key => strip_data (objects key).1) <$> keys) (set_fs s' w)) ->
  wp m (read_page bucket keys) Q E C w.
Proof.
  intros Hcalm. revert Q w. induction keys as [|key keys IH]; intros Q w Hst Hin HQ; simpl.
  - apply wp_ret. rewrite <- (set_fs_id w). apply HQ; [by rewrite set_fs_id|apply agree_refl].
  - assert (key ∈ indexed_keys (w_index w) bucket) as Hk by (apply Hin; set_solver).
    apply wp_bind, wp_attempt.
    eapply wp_read_object_metadata_locked; [by apply Hst| |by intros; intros ?; congruence].
    intros s1 Hh1 Ha1. destruct (objects key) as [o b] eqn:Eo.
    apply wp_bind, IH.
    + eapply stocked_read; [done|exact Hk|by rewrite Eo|done].
    + intros k Hk'. apply Hin. set_solver.
    + intros s2 Hst2 Ha2. apply wp_ret. specialize (HQ s2 Hst2). rewrite fmap_cons, Eo in HQ. apply HQ.
      eapply agree_trans; [eapply agree_weaken; [|exact Ha1]|exact Ha2]. intros q Hq. by exists key.
Qed.

(** The flat page from a marker on. *)
Definition flat_page (bucket : string) (objects : string -> Object * bytes) (prefix marker : option string)
    (max_keys : option N) (w : World) : ListObjectsResult :=
  let limit := match max_keys with Some n => n | None => 1000%N end in
  let keys := take (N.to_nat (saturating_add_usize limit 1))
                (filter (wanted prefix marker) (indexed_keys (w_index w) bucket)) in
  mkListing [] ((fun key => strip_data (objects key).1) <$> take (N.to_nat limit) keys)
    (limit <? N.of_nat (length keys))%N (page_marker id keys limit).

Lemma wp_flat_page {m : mode} bucket objects prefix marker max_keys Q E C (w : World) :
  m_faults m = false -> stocked bucket objects w ->
  (forall s', stocked bucket objects (set_fs s' w) -> agree (staging bucket) (w_fs w) s' ->
     Q (flat_page bucket objects prefix marker max_keys w) (set_fs s' w)) ->
  wp m (list_objects bucket prefix None marker max_keys) Q E C w.
Proof.
  intros Hcalm Hst HQ. unfold list_objects. apply wp_bind, wp_require_bucket.
  { apply path_exists_true. pose proof (st_dir _ _ _ Hst) as Hd. apply is_dir_true in Hd. by eauto. }
  apply wp_bind, wp_gets. unfold flat_page in HQ.
  set (limit := match max_keys with Some n => n | None => 1000%N end) in *.
  rewrite list_prefix_marker_scan. unfold capped.
  rewrite N.max_r by (unfold saturating_add_usize, U64_MAX; lia).
  apply wp_bind. eapply (wp_read_page bucket objects); [done|done| |].
  - intros key (i & Hi%list_elem_of_lookup_2 & _)%elem_of_take.
    apply elem_of_take in Hi as (j & Hj%list_elem_of_lookup_2 & _).
    by apply list_elem_of_filter in Hj as [_ ?].
  - intros s' Hst' Ha. by apply wp_ret, HQ.
Qed.

(** [flat_page_contents]. list_objects without a delimiter returns the
    metadata of the first max_keys indexed keys with the prefix after the
    marker, in key order, and says correctly whether there are more and where
    to go on. *)
Theorem flat_page_contents bucket objects prefix marker max_keys (w : World) σ :
  stocked bucket objects w -> sched_ok calm σ ->
  exists w' σ', list_objects bucket prefix None marker max_keys σ w =
    (Done (flat_page bucket objects prefix marker max_keys w), w', σ') /\
    stocked bucket objects w' /\ w_index w' = w_index w.
Proof.
  intros Hst Hσ.
  destruct (wp_calm_run (list_objects bucket prefix None marker max_keys) (fun r w' =>
    r = flat_page bucket objects prefix marker max_keys w /\
    stocked bucket objects w' /\ w_index w' = w_index w) w σ)
    as (r & w' & σ' & Hrun & -> & Hpost); [|done|by eauto].
  by apply (wp_flat_page bucket objects).
Qed.

Lemma stocked_metadata bucket objects (w : World) key :
  stocked bucket objects w -> key ∈ indexed_keys (w_index w) bucket -> metadata_present w bucket key = true.
Proof.
  intros Hst Hk. pose proof (held_pair _ _ _ (st_held _ _ _ Hst key Hk)) as Hp.
  destruct (objects key) as [o b]. unfold pair_at in Hp. injection Hp as _ Hm.
  apply path_exists_true.
  change (object_metadata_path bucket (compute_object_id bucket key)) with (join (object_dir bucket key) META).
  by rewrite Hm.
Qed.

(** An object entry of a listing is one of the keys. *)
Lemma listing_object keys prefix delimiter marker present e :
  StronglySorted Text.lt keys -> e ∈ listing keys prefix delimiter marker present ->
  is_object_entry e = true -> e_path e ∈ keys.
Proof.
  intros Hs He Ho. apply listing_spec in He as (key & Hk & Hp & -> & _); [|done].
  pose proof Hp as [s ->]%Text.starts_with_spec.
  destruct (entry_cases prefix delimiter s) as [[_ Heq]|(c & t & i & _ & _ & _ & Heq)];
    unfold is_object_entry in Ho; rewrite Heq in *; done.
Qed.

(** [delimited_page_contents]. list_objects with a delimiter returns the
    common prefixes and the object metadata of exactly the entries of the
    delimited listing that belong on the page, with the truncation flag and
    the next marker. *)
Theorem delimited_page_contents bucket objects prefix a delimiter marker max_keys (w : World) σ :
  stocked bucket objects w -> sched_ok calm σ ->
  let limit := match max_keys with Some n => n | None => 1000%N end in
  let entries := take (N.to_nat (saturating_add_usize limit 1))
    (listing (indexed_keys (w_index w) bucket) (match prefix with Some p => p | None => EmptyString end)
       (String a delimiter) marker (fun _ => true)) in
  let page := take (N.to_nat limit) entries in
  exists w' σ', list_objects bucket prefix (Some (String a delimiter)) marker max_keys σ w =
    (Done (mkListing
       (e_path <$> filter (fun e => is_object_entry e = false) page)
       ((fun e => strip_data (objects (e_path e)).1) <$> filter (fun e => is_object_entry e = true) page)
       (limit <? N.of_nat (length entries))%N (page_marker e_path entries limit)), w', σ') /\
    stocked bucket objects w' /\ w_index w' = w_index w.
Proof.
  intros Hst Hσ limit entries page.
  destruct (wp_calm_run (list_objects bucket prefix (Some (String a delimiter)) marker max_keys) (fun r w' =>
    r = mkListing
       (e_path <$> filter (fun e => is_object_entry e = false) page)
       ((fun e => strip_data (objects (e_path e)).1) <$> filter (fun e => is_object_entry e = true) page)
       (limit <? N.of_nat (length entries))%N (page_marker e_path entries limit) /\
    stocked bucket objects w' /\ w_index w' = w_index w) w σ)
    as (r & w' & σ' & Hrun & -> & Hpost); [|done|by eauto].
  unfold list_objects. apply wp_bind, wp_require_bucket.
  { apply path_exists_true. pose proof (st_dir _ _ _ Hst) as Hd. apply is_dir_true in Hd. by eauto. }
  unfold list_objects_with_delimiter. apply wp_bind, wp_gets. fold limit.
  rewrite delimited_entries_listing;
    [|apply Hst|unfold saturating_add_usize, U64_MAX; lia|by intros key Hk; eapply stocked_metadata].
  fold entries. fold page. apply wp_bind. eapply (wp_read_page bucket objects); [done|done| |].
  - intros key (e & -> & [Ho He]%list_elem_of_filter)%list_elem_of_fmap.
    apply elem_of_take in He as (i & He%list_elem_of_lookup_2 & _).
    apply elem_of_take in He as (j & He%list_elem_of_lookup_2 & _).
    eapply listing_object; [apply indexed_keys_sorted|exact He|done].
  - intros s' Hst' _. rewrite <- list_fmap_compose. by apply wp_ret.
Qed.

(** [zero_page_skips_first_key]. list_objects with max_keys 0 reports a
    truncated empty page whose next marker is the first key, so that the
    listing resumed from the marker never shows that key. *)
Theorem zero_page_skips_first_key bucket objects prefix key rest n (w : World) σ :
  stocked bucket objects w -> sched_ok calm σ -> (n < U64_MAX)%N ->
  filter (wanted prefix None) (indexed_keys (w_index w) bucket) = key :: rest ->
  exists w' σ', list_objects bucket prefix None None (Some 0%N) σ w
                = (Done (mkListing [] [] true (Some key)), w', σ') /\
    exists r w'' σ'', list_objects bucket prefix None (Some key) (Some n) σ' w' = (Done r, w'', σ'') /\
      l_objects r = (fun k => strip_data (objects k).1) <$> take (N.to_nat n) rest.
Proof.
  intros Hst Hσ Hn Hkeys.
  assert (filter (wanted prefix (Some key)) (indexed_keys (w_index w) bucket) = rest) as Hrest.
  { pose proof (indexed_keys_sorted (w_index w) bucket) as Hs.
    rewrite <- (filter_after_last Text.lt [key] rest key); [|apply Text.lt_irrefl| |done].
    - simpl app. rewrite <- Hkeys. symmetry. apply filter_and. intros k. unfold wanted. simpl.
      unfold Text.ltb. rewrite bool_decide_eq_true. tauto.
    - simpl. rewrite <- Hkeys. by apply StronglySorted_filter. }
  destruct (calm_run (list_objects bucket prefix None None (Some 0%N)) (fun r w' =>
    r = mkListing [] [] true (Some key) /\ stocked bucket objects w' /\ w_index w' = w_index w)
    (fun _ _ => False) w σ) as ([r|e|] & w' & σ' & Hrun & Hσ' & Hpost); [|done| |done..].
  { apply (wp_flat_page bucket objects); [done|done|]. intros s' Hst' _. split_and!; [|done|done].
    unfold flat_page. by rewrite Hkeys. }
  destruct Hpost as (-> & Hst' & Hi'). exists w', σ'. split; [done|].
  destruct (wp_calm_run (list_objects bucket prefix None (Some key) (Some n)) (fun r w' =>
    l_objects r = (fun k => strip_data (objects k).1) <$> take (N.to_nat n) rest) w' σ')
    as (r & w'' & σ'' & Hrun2 & Hr); [|done|by eauto 6].
  apply (wp_flat_page bucket objects); [done|done|]. intros s' _ _. unfold flat_page. simpl.
  rewrite Hi', Hrest, take_take, Nat.min_l; [done|]. unfold saturating_add_usize, U64_MAX in *. lia.
Qed.
End ListObjects.
