(* ===== verification/Multipart.v ===== *)
(** * Multipart: uploads in parts, and staged provider uploads

    The [MultipartStore] and [UploadStore] parts of
    [src/storage/filesystem.rs] with their helpers in [io.rs]: upload records
    on disk and in the cache, parts, assembly and completion. *)

From Stdlib Require Import Ascii.
From stdpp Require Import pretty.
From S2P Require Import Prelude Text Models Policy SkipMap Index FsModel Publication Lifecycle.
From S2P Require Import Storage.

Definition MULTIPART_MIN_NON_FINAL_PART_SIZE_KEY : string := "__sqrzl_multipart_min_non_final_part_size".
Definition MULTIPART_MAX_PART_SIZE_KEY : string := "__sqrzl_multipart_max_part_size".
Definition MULTIPART_MAX_OBJECT_SIZE_KEY : string := "__sqrzl_multipart_max_object_size".
Definition MULTIPART_TAGS_KEY : string := "__sqrzl_multipart_tags".
Definition S3_MINIMUM_NON_FINAL_PART_SIZE : N := 5 * 1024 * 1024.
Definition S3_MAXIMUM_PART_SIZE : N := 5 * 1024 * 1024 * 1024.
Definition S3_MAXIMUM_OBJECT_SIZE : N := S3_MAXIMUM_PART_SIZE * 10000.

(** [hex::decode], base64 and the JSON of a tag map: third-party code. *)
Class UploadEnv : Type := {
  hex_decode : string -> option bytes;
  base64_be : N -> string;
  parse_tags : string -> option strmap }.

(** [format!("part-{part_number:05}")] *)
Fixpoint zeros (n : nat) : string :=
  match n with O => EmptyString | S k => String "0" (zeros k) end.
Definition part_name (part_number : N) : string :=
  let digits := pretty part_number in "part-" +:+ zeros (5 - String.length digits) +:+ digits.

(** [trim_matches] of the double quote *)
Definition QUOTE : ascii := ascii_of_nat 34.
Definition trim_quotes (s : string) : string :=
  Text.trim_end_matches (Text.drop_leading QUOTE s) QUOTE.

(** ** Parts of an upload *)

(** [binary_search_by_key] on the sorted part list, then replace or insert. *)
Fixpoint put_part (p : Part) (ps : list Part) : list Part :=
  match ps with
  | [] => [p]
  | q :: rest =>
      if (p_part_number p <? p_part_number q)%N then p :: ps
      else if N.eqb (p_part_number p) (p_part_number q) then p :: rest
      else q :: put_part p rest
  end.

Definition part_le (a b : Part) : Prop := (p_part_number a <= p_part_number b)%N.
#[export] Instance part_le_dec a b : Decision (part_le a b).
Proof. unfold part_le. apply _. Defined.

(** [normalize_upload_parts] *)
Definition normalize_upload_parts (u : MultipartUpload) : MultipartUpload :=
  with_parts (merge_sort part_le (u_parts u)) u.

(** A limit of the upload, if one is recorded and parses. *)
Definition limit_of (u : strmap) (key : string) : option N := u !! key ≫= Text.parse_u64.

(** Reading in 64 KiB blocks. *)
Fixpoint blocks_of (fuel n : nat) (b : bytes) : list bytes :=
  match fuel with
  | O => []
  | S f => match b with
           | [] => []
           | _ :: _ => take n b :: blocks_of f n (drop n b)
           end
  end.
Definition BLOCK : nat := Z.to_nat 65536.
Definition blocks (b : bytes) : list bytes := blocks_of (length b) BLOCK b.

(** ** Completion: the checks of [complete_multipart_upload_checked] *)

(** [manifest.windows(2).any(|pair| pair[0].0 >= pair[1].0)] *)
Fixpoint out_of_order (manifest : list (N * string)) : bool :=
  match manifest with
  | a :: (b :: _) as rest => (b.1 <=? a.1)%N || out_of_order rest
  | _ => false
  end.

Definition find_part (parts : list Part) (entry : N * string) : Res Part :=
  ok_or IncompleteMultipartUpload
    (find (fun p => N.eqb (p_part_number p) entry.1 && eqb (p_etag p) entry.2) parts).

Fixpoint select_parts (parts : list Part) (manifest : list (N * string)) : Res (list Part) :=
  match manifest with
  | [] => Ok []
  | e :: rest => p ← find_part parts e; ps ← select_parts parts rest; Ok (p :: ps)
  end.

Fixpoint total_size (acc : N) (parts : list Part) : Res N :=
  match parts with
  | [] => Ok acc
  | p :: rest => a ← ok_or EntityTooLarge (checked_add_u64 acc (p_size p)); total_size a rest
  end.

(** Everything decided before the payload is assembled: the selected parts and
    the size of the object. *)
Definition check_manifest (provider_metadata : strmap) (uploaded : list Part)
    (manifest : list (N * string)) (completion : MultipartCompletion) : Res (list Part * N) :=
  match manifest with
  | [] => Err InvalidPartOrder
  | _ :: _ =>
      if out_of_order manifest then Err InvalidPartOrder
      else
        parts ← select_parts uploaded manifest;
        let minimum := match limit_of provider_metadata MULTIPART_MIN_NON_FINAL_PART_SIZE_KEY with
                       | Some n => n | None => 0%N end in
        if existsb (fun p => p_size p <? minimum)%N (take (length parts - 1) parts)
        then Err EntityTooSmall
        else
          size ← total_size 0 parts;
          if is_some_and (fun maximum => maximum <? size)%N
               (limit_of provider_metadata MULTIPART_MAX_OBJECT_SIZE_KEY)
          then Err EntityTooLarge
          else if is_some_and (fun expected => negb (N.eqb expected size)) (mc_size completion)
          then Err (InvalidRequest "Multipart object size does not match the selected parts")
          else Ok (parts, size)
  end.

Section Etag.
Context `{Digests} `{UploadEnv}.

Fixpoint raw_digests (parts : list Part) : Res bytes :=
  match parts with
  | [] => Ok []
  | p :: rest =>
      d ← ok_or (InternalError "Invalid multipart part ETag") (hex_decode (trim_quotes (p_etag p)));
      ds ← raw_digests rest; Ok (d ++ ds)
  end.

(** MD5 of the concatenated raw part digests, and the number of parts. *)
Definition final_etag (parts : list Part) : Res string :=
  ds ← raw_digests parts;
  Ok (md5_hex ds +:+ "-" +:+ pretty (N.of_nat (length parts))).

(** The CRC of one part and the running CRC of the object. *)
Definition crc_of (crc : N) (b : bytes) : N := foldl crc32c_append crc (blocks b).

(** The upload's metadata that becomes the object's. *)
Definition INTERNAL_KEYS : list string :=
  [MULTIPART_MIN_NON_FINAL_PART_SIZE_KEY; MULTIPART_MAX_PART_SIZE_KEY;
   MULTIPART_MAX_OBJECT_SIZE_KEY; MULTIPART_TAGS_KEY; "storage_class"].
Definition object_provider_metadata (m : strmap) : strmap :=
  filter (fun e => e.1 ∉ INTERNAL_KEYS) m.

Definition completed_object (t : time) (u : MultipartUpload) (etag : string) (size crc : N) : Object :=
  let pm := u_provider_metadata u in
  let o := with_size size
    (new_with_metadata_and_etag t (u_key u) []
       (match u_content_type u with Some c => c | None => "application/octet-stream" end)
       (u_metadata u) etag) in
  let o := with_provider_metadata (object_provider_metadata pm) o in
  let o := match pm !! "storage_class" with Some c => with_storage_class c o | None => o end in
  let o := match pm !! MULTIPART_TAGS_KEY ≫= parse_tags with Some tags => with_tags tags o | None => o end in
  if eqb (pm !! "s3_checksum_algorithm") (Some "CRC32C")
  then with_provider_metadata
         (<["s3_checksum_type" := "FULL_OBJECT"]>
            (<["s3_checksum_crc32c" := base64_be crc]> (o_provider_metadata o))) o
  else o.
End Etag.

Section Multipart.
Context {M : Type -> Type} `{SkipMap M} `{Env} `{StoreEnv} `{Digests} `{UploadEnv}.
Abbreviation World := (World M).

Definition multipart_root (bucket : string) : path := join (bucket_dir bucket) ".multipart".
Definition multipart_dir (bucket upload_id : string) : path := join (multipart_root bucket) upload_id.
Definition part_path (bucket upload_id : string) (n : N) : path :=
  join (multipart_dir bucket upload_id) (part_name n).
Definition upload_record_path (bucket upload_id : string) : path :=
  join (multipart_dir bucket upload_id) "upload.json".

(** [fs::create_dir_all] *)
Fixpoint create_dir_all_rev (msg : string) (rp : list string) : io fs unit :=
  let p := reverse rp in
  dir ← gets (is_dir p);
  if (dir : bool) then mret tt
  else match rp with
       | [] => fail (InternalError msg)
       | _ :: rparent => create_dir_all_rev msg rparent;; create_dir msg p
       end.
Definition create_dir_all (msg : string) (p : path) : io fs unit := create_dir_all_rev msg (reverse p).

(** ** Records and the cache *)

Definition read_upload_record (p : path) : io World MultipartUpload :=
  u ← read_document upload_codec "Failed to read multipart upload record"
        "Failed to parse multipart upload record" p;
  mret (normalize_upload_parts u).
Definition write_upload_record (bucket : string) (u : MultipartUpload) : io World unit :=
  disk (atomic_write (upload_record_path bucket (u_upload_id u)) (enc upload_codec u)).

Fixpoint load_records (root : path) (names : list string) : io World (gmap string MultipartUpload) :=
  match names with
  | [] => mret ∅
  | n :: rest =>
      dir ← on_disk (is_dir (join root n));
      if negb dir || Text.starts_with n "." then load_records root rest
      else
        r ← attempt (read_upload_record (join (join root n) "upload.json"));
        uploads ← load_records root rest;
        mret (match r with
              | Ok u => match uploads !! u_upload_id u with
                        | Some _ => uploads
                        | None => <[u_upload_id u := u]> uploads
                        end
              | Err _ => uploads
              end)
  end.

Definition load_uploads_from_disk (bucket : string) : io World (gmap string MultipartUpload) :=
  let root := multipart_root bucket in
  present ← on_disk (path_exists root);
  uploads ← (if (present : bool) then
               names ← disk (read_dir "Failed to read multipart dir" root);
               load_records root names
             else mret ∅);
  let legacy := join root "uploads.json" in
  old ← on_disk (path_exists legacy);
  if bool_decide (uploads = ∅) && (old : bool) then
    us ← read_document uploads_codec "Failed to read legacy uploads index"
           "Failed to parse legacy uploads index" legacy;
    mret (normalize_upload_parts <$> us)
  else mret uploads.

Definition cache_uploads (bucket : string) (us : gmap string MultipartUpload) : io World unit :=
  modify (fun w => set_uploads (<[bucket := us]> (w_uploads_cache w)) w).

Definition load_uploads (bucket : string) : io World (gmap string MultipartUpload) :=
  cached ← gets (fun w => w_uploads_cache w !! bucket);
  match cached with
  | Some us => mret us
  | None => us ← load_uploads_from_disk bucket; cache_uploads bucket us;; mret us
  end.

Definition ensure_uploads_cache_loaded (bucket : string) : io World unit :=
  cached ← gets (fun w => w_uploads_cache w !! bucket);
  match cached with
  | Some _ => mret tt
  | None => us ← load_uploads_from_disk bucket; cache_uploads bucket us
  end.

(** The cached uploads of a bucket, for an update. *)
Definition cached_uploads (bucket : string) : io World (gmap string MultipartUpload) :=
  cached ← gets (fun w => w_uploads_cache w !! bucket);
  of_res (ok_or (InternalError "Missing uploads cache entry") cached).

(** ** Operations *)

Definition create_multipart_upload_with_metadata (bucket key : string) (content_type : option string)
    (metadata provider_metadata : strmap) : io World MultipartUpload :=
  require_bucket bucket;;
  u ← new_uuid;
  t ← now;
  let upload := mkUpload u key t content_type metadata provider_metadata [] in
  disk (create_dir_all "Failed to create multipart dir" (multipart_dir bucket u));;
  ensure_uploads_cache_loaded bucket;;
  write_upload_record bucket upload;;
  us ← cached_uploads bucket;
  cache_uploads bucket (<[u := upload]> us);;
  mret upload.

Definition create_multipart_upload (bucket key : string) : io World MultipartUpload :=
  create_multipart_upload_with_metadata bucket key None ∅
    (<[MULTIPART_MIN_NON_FINAL_PART_SIZE_KEY := pretty S3_MINIMUM_NON_FINAL_PART_SIZE]>
     (<[MULTIPART_MAX_PART_SIZE_KEY := pretty S3_MAXIMUM_PART_SIZE]>
      (<[MULTIPART_MAX_OBJECT_SIZE_KEY := pretty S3_MAXIMUM_OBJECT_SIZE]> ∅))).

Definition get_multipart_upload (bucket upload_id : string) : io World MultipartUpload :=
  require_bucket bucket;;
  us ← load_uploads bucket;
  of_res (ok_or NoSuchUpload (us !! upload_id)).

Definition list_multipart_uploads (bucket : string) : io World (list MultipartUpload) :=
  require_bucket bucket;;
  us ← load_uploads bucket;
  mret (map_to_list us).*2.

Definition list_parts (bucket upload_id : string) : io World (list Part) :=
  require_bucket bucket;;
  us ← load_uploads bucket;
  u ← of_res (ok_or NoSuchUpload (us !! upload_id));
  mret (u_parts u).

(** [record_uploaded_part]: the cache is updated, then the record on disk. *)
Definition record_uploaded_part (bucket upload_id : string) (part_number : N) (etag : string)
    (size : N) : io World string :=
  us ← cached_uploads bucket;
  upload ← of_res (ok_or NoSuchUpload (us !! upload_id));
  crc ← (if eqb (u_provider_metadata upload !! "s3_checksum_algorithm") (Some "CRC32C")
         then b ← disk (read_file "Failed to read staged part" (part_path bucket upload_id part_number));
              mret (Some (crc_of 0 b))
         else mret None);
  t ← now;
  let upload := with_parts (put_part (mkPart part_number etag size crc t) (u_parts upload)) upload in
  cache_uploads bucket (<[upload_id := upload]> us);;
  disk (atomic_write (upload_record_path bucket upload_id) (enc upload_codec upload));;
  mret etag.

(** The checks common to both ways of sending a part. *)
Definition admit_part (bucket upload_id : string) (part_number len : N) : io World unit :=
  require_bucket bucket;;
  (if (1 <=? part_number)%N && (part_number <=? 10000)%N then mret tt else fail InvalidPartNumber);;
  upload ← get_multipart_upload bucket upload_id;
  if is_some_and (fun maximum => maximum <? len)%N
       (limit_of (u_provider_metadata upload) MULTIPART_MAX_PART_SIZE_KEY)
  then fail EntityTooLarge else mret tt.

Definition upload_part (bucket upload_id : string) (part_number : N) (data : bytes) : io World string :=
  admit_part bucket upload_id part_number (size_of data);;
  disk (atomic_write (part_path bucket upload_id part_number) data);;
  record_uploaded_part bucket upload_id part_number (md5_hex data) (size_of data).

Definition upload_part_streamed (bucket upload_id : string) (part_number : N) (payload_path : path)
    (len : N) (etag : string) : io World string :=
  admit_part bucket upload_id part_number len;;
  disk (atomic_move payload_path (part_path bucket upload_id part_number));;
  record_uploaded_part bucket upload_id part_number etag len.

Definition remove_upload_record (bucket upload_id : string) : io World unit :=
  let d := multipart_dir bucket upload_id in
  let root := multipart_root bucket in
  present ← on_disk (path_exists d);
  if (present : bool) then
    u ← new_uuid;
    let retired := join root (".retired-upload-" +:+ u) in
    disk (rename "Failed to retire multipart upload" d retired);;
    disk (sync_directory root);;
    disk (remove_dir_all "Failed to remove multipart upload dir" retired);;
    disk (sync_directory root)
  else mret tt.

(** ** Assembly *)

(** [write_all] of a block at the end of the spool file. *)
Definition append_file (msg : string) (p : path) (b : bytes) : io fs unit :=
  sys msg (fun _ s => match s !! p with
                      | Some (File old) => Some (tt, <[p := File (old ++ b)]> s)
                      | _ => None end)
      (fun r s => match s !! p with
                  | Some (File old) => <[p := File (old ++ take (written r) b)]> s
                  | _ => s end).

(** Copy one part block by block, checking its size and CRC. *)
Definition append_part (bucket upload_id : string) (spool : path) (part : Part) (crc : N)
    : io fs N :=
  b ← read_file "Failed to open part" (part_path bucket upload_id (p_part_number part));
  for_each (append_file "Failed to append part" spool) (blocks b);;
  if negb (N.eqb (size_of b) (p_size part))
     || is_some_and (fun expected => negb (N.eqb expected (crc_of 0 b))) (p_crc32c part)
  then fail BadDigest else mret (crc_of crc b).

Fixpoint append_parts (bucket upload_id : string) (spool : path) (parts : list Part) (crc : N)
    : io fs N :=
  match parts with
  | [] => mret crc
  | p :: rest => c ← append_part bucket upload_id spool p crc;
                 append_parts bucket upload_id spool rest c
  end.

Definition assemble (bucket upload_id : string) (spool : path) (parts : list Part)
    (completion : MultipartCompletion) : io fs N :=
  r ← attempt (
    create_file "Failed to create spool file" spool;;
    crc ← append_parts bucket upload_id spool parts 0;
    (if is_some_and (fun expected => negb (N.eqb expected crc)) (mc_crc32c completion)
     then fail BadDigest else mret tt);;
    sync_file "Failed to sync spool file" spool;;
    mret crc);
  (if is_ok r then mret tt
   else ignore (remove_file "" spool);; ignore (remove_dir "" (parent spool)));;
  of_res r.

Definition complete_multipart_upload_checked (bucket upload_id : string)
    (manifest : list (N * string)) (completion : MultipartCompletion) : io World string :=
  require_bucket bucket;;
  ensure_uploads_cache_loaded bucket;;
  us ← cached_uploads bucket;
  upload ← of_res (ok_or NoSuchUpload (us !! upload_id));
  '(parts, size) ← of_res (check_manifest (u_provider_metadata upload) (u_parts upload)
                             manifest completion);
  etag ← of_res (final_etag parts);
  u ← new_uuid;
  let spool_dir := join (bucket_dir bucket) ".spool" in
  let spool := join spool_dir (u +:+ ".tmp") in
  disk (create_dir_all "Failed to create spool dir" spool_dir);;
  crc ← disk (assemble bucket upload_id spool parts completion);
  t ← now;
  let o := completed_object t upload etag size crc in
  put_result ← attempt (
    (if mc_require_existing completion
     then read_object_metadata_locked bucket (u_key upload);; mret tt else mret tt);;
    (match mc_condition completion with
     | Some c => b ← object_condition_matches bucket (u_key upload) c;
                 if (b : bool) then mret tt else fail PreconditionFailed
     | None => mret tt
     end);;
    put_object_locked_with_payload bucket (u_key upload) o (Spooled spool));
  left ← on_disk (path_exists spool);
  (if (left : bool) then ignore (disk (remove_file "" spool)) else mret tt);;
  ignore (disk (remove_dir "" spool_dir));;
  of_res put_result;;
  us ← cached_uploads bucket;
  cache_uploads bucket (delete upload_id us);;
  remove_upload_record bucket upload_id;;
  mret etag.

Definition complete_multipart_upload_with_parts (bucket upload_id : string)
    (manifest : list (N * string)) : io World string :=
  complete_multipart_upload_checked bucket upload_id manifest default_completion.

Definition complete_multipart_upload (bucket upload_id : string) : io World string :=
  upload ← get_multipart_upload bucket upload_id;
  complete_multipart_upload_with_parts bucket upload_id
    ((fun p => (p_part_number p, p_etag p)) <$> u_parts upload).

Definition abort_multipart_upload (bucket upload_id : string) : io World unit :=
  require_bucket bucket;;
  ensure_uploads_cache_loaded bucket;;
  us ← cached_uploads bucket;
  of_res (ok_or NoSuchUpload (us !! upload_id));;
  cache_uploads bucket (delete upload_id us);;
  remove_upload_record bucket upload_id.

End Multipart.
