(* ===== verification/MultipartFacts.v ===== *)
(** * MultipartFacts: parts, manifests and assembly

    The part list as a map by part number, what a manifest must satisfy for a
    completion to be accepted, and the file that assembly produces. *)

From Stdlib Require Import Ascii.
From S2P Require Import Prelude Text Models Policy SkipMap Index FsModel Publication FileFacts.
From S2P Require Import PublicationFacts ConcreteEnv PublicationSafety Lifecycle Storage Multipart.

(** ** The part list *)

Definition part_lt (a b : Part) : Prop := (p_part_number a < p_part_number b)%N.

Definition part_at (n : N) (ps : list Part) : option Part :=
  find (fun p => N.eqb (p_part_number p) n) ps.

Lemma put_part_elem p q ps : q ∈ put_part p ps -> q = p \/ q ∈ ps.
Proof.
  induction ps as [|r ps IH]; simpl; [set_solver|].
  destruct (_ <? _)%N; [set_solver|]. destruct (N.eqb _ _); set_solver.
Qed.

Lemma put_part_sorted p ps : StronglySorted part_lt ps -> StronglySorted part_lt (put_part p ps).
Proof.
  induction 1 as [|q ps Hs IH Hf]; simpl; [by repeat constructor|].
  rewrite list.Forall_forall in Hf.
  destruct (N.ltb_spec (p_part_number p) (p_part_number q)) as [Hlt|Hge].
  - constructor; [constructor; [done|by apply list.Forall_forall]|].
    apply list.Forall_forall. intros r [->|Hr]%elem_of_cons; [done|].
    specialize (Hf r Hr). unfold part_lt in *. lia.
  - destruct (N.eqb_spec (p_part_number p) (p_part_number q)) as [Heq|Hne].
    + constructor; [done|]. apply list.Forall_forall. intros r Hr. specialize (Hf r Hr).
      unfold part_lt in *. lia.
    + constructor; [done|]. apply list.Forall_forall. intros r [->|Hr]%put_part_elem; [|by apply Hf].
      unfold part_lt. lia.
Qed.

Lemma part_at_below n ps :
  StronglySorted part_lt ps -> (forall q, q ∈ ps -> n < p_part_number q)%N -> part_at n ps = None.
Proof.
  intros _ Hlt. unfold part_at. induction ps as [|q ps IH]; simpl; [done|].
  rewrite (proj2 (N.eqb_neq _ _)); [apply IH; intros; apply Hlt; set_solver|].
  specialize (Hlt q ltac:(set_solver)). lia.
Qed.

(** Recording an uploaded part keeps the part list
    strictly sorted by number and replaces exactly the entry of that number.
    *)
Theorem put_part_updates_map p ps n :
  StronglySorted part_lt ps ->
  StronglySorted part_lt (put_part p ps) /\
  part_at n (put_part p ps) = if N.eqb n (p_part_number p) then Some p else part_at n ps.
Proof.
  intros Hs. split; [by apply put_part_sorted|].
  induction Hs as [|q ps Hs IH Hf]; unfold part_at in *; simpl.
  { rewrite N.eqb_sym. by destruct (N.eqb _ _). }
  destruct (N.ltb_spec (p_part_number p) (p_part_number q)) as [Hlt|Hge]; simpl.
  { rewrite (N.eqb_sym n). by destruct (N.eqb_spec (p_part_number p) n). }
  destruct (N.eqb_spec (p_part_number p) (p_part_number q)) as [Heq|Hne]; simpl; [|rewrite IH];
    destruct (N.eqb_spec n (p_part_number p)), (N.eqb_spec (p_part_number p) n),
      (N.eqb_spec (p_part_number q) n); congruence || done.
Qed.

(** ** Manifests *)

Fixpoint sizes (parts : list Part) : N :=
  match parts with [] => 0%N | p :: rest => (p_size p + sizes rest)%N end.

Lemma total_size_spec acc parts :
  total_size acc parts =
    (if (acc + sizes parts <=? U64_MAX)%N then Ok (acc + sizes parts)%N else Err EntityTooLarge) \/
  (U64_MAX < acc)%N.
Proof.
  revert acc. induction parts as [|p parts IH]; intros acc; simpl.
  - rewrite N.add_0_r. destruct (N.leb_spec acc U64_MAX); auto.
  - unfold checked_add_u64. case_bool_decide as Hle; simpl.
    + left. destruct (IH (acc + p_size p)%N) as [Heq|Hbad]; [|lia].
      unfold mbind, result_bind, ok_or. rewrite Heq. by rewrite N.add_assoc.
    + left. rewrite (proj2 (N.leb_gt _ _)) by lia. done.
Qed.

Definition increasing (manifest : list (N * string)) : Prop :=
  StronglySorted (fun a b => a.1 < b.1)%N manifest.

Lemma out_of_order_spec manifest : out_of_order manifest = false <-> increasing manifest.
Proof.
  unfold increasing. split.
  - intros Ho. apply Sorted_StronglySorted; [intros x y z; lia|].
    induction manifest as [|a [|b rest] IH]; [constructor|by repeat constructor|].
    simpl in Ho. apply orb_false_iff in Ho as [Hab Ho]. apply N.leb_gt in Hab.
    constructor; [by apply IH|by constructor].
  - intros Hs%StronglySorted_Sorted. induction Hs as [|a l Hs IH Hd]; [done|].
    destruct Hd as [|b l Hab]; [done|]. simpl. simpl in IH. rewrite IH. by rewrite (proj2 (N.leb_gt _ _)).
Qed.

(** The part a manifest entry selects. *)
Definition selects (uploaded : list Part) (e : N * string) (p : Part) : Prop :=
  find (fun p => N.eqb (p_part_number p) e.1 && eqb (p_etag p) e.2) uploaded = Some p.

Lemma select_parts_spec uploaded manifest parts :
  select_parts uploaded manifest = Ok parts <-> Forall2 (selects uploaded) manifest parts.
Proof.
  revert parts. induction manifest as [|e manifest IH]; intros parts; simpl.
  - split; [intros [= <-]; constructor|by inversion 1].
  - unfold find_part, mbind, result_bind. split.
    + destruct (find _ uploaded) as [p|] eqn:Ef; simpl; [|done].
      destruct (select_parts uploaded manifest) as [ps|]; [|done]. intros [= <-].
      constructor; [done|by apply IH].
    + inversion 1 as [|? p ? ps Hp Hps]; subst. unfold selects in Hp. rewrite Hp. simpl.
      by rewrite (proj2 (IH ps) Hps).
Qed.

(** What a completion request must satisfy. *)
Record acceptable (limits : strmap) (uploaded : list Part) (manifest : list (N * string))
    (completion : MultipartCompletion) (parts : list Part) (size : N) : Prop := mkAcceptable {
  ac_some : manifest <> [];
  ac_order : increasing manifest;
  ac_parts : Forall2 (selects uploaded) manifest parts;
  ac_minimum : forall n p, limit_of limits MULTIPART_MIN_NON_FINAL_PART_SIZE_KEY = Some n ->
    p ∈ take (length parts - 1) parts -> (n <= p_size p)%N;
  ac_size : size = sizes parts;
  ac_fits : (size <= U64_MAX)%N;
  ac_maximum : forall n, limit_of limits MULTIPART_MAX_OBJECT_SIZE_KEY = Some n -> (size <= n)%N;
  ac_expected : forall n, mc_size completion = Some n -> n = size }.

(** A completion manifest is accepted exactly
    when it is nonempty, strictly increasing, names uploaded parts by number
    and etag, keeps the minimum size of non-final parts, and its total neither
    overflows 64 bits nor exceeds the limits; the selected parts and the total
    are then those. *)
Theorem check_manifest_accepts limits uploaded manifest completion parts size :
  check_manifest limits uploaded manifest completion = Ok (parts, size) <->
  acceptable limits uploaded manifest completion parts size.
Proof.
  unfold check_manifest. destruct manifest as [|e manifest].
  { split; [done|]. intros Ha. by destruct (ac_some _ _ _ _ _ _ Ha). }
  set (all := e :: manifest). destruct (out_of_order all) eqn:Eo.
  { split; [done|]. intros Ha. apply not_false_iff_true in Eo. destruct Eo.
    apply out_of_order_spec, Ha. }
  apply out_of_order_spec in Eo.
  destruct (select_parts uploaded all) as [ps|err] eqn:Es; unfold mbind, result_bind; cycle 1.
  { split; [done|]. intros Ha. pose proof (ac_parts _ _ _ _ _ _ Ha) as Hp.
    apply select_parts_spec in Hp. congruence. }
  assert (forall ps', Forall2 (selects uploaded) all ps' -> ps' = ps) as Hdet.
  { intros ps' Hp. apply select_parts_spec in Hp. congruence. }
  set (minimum := match limit_of limits MULTIPART_MIN_NON_FINAL_PART_SIZE_KEY with Some n => n | None => 0%N end).
  destruct (existsb _ _) eqn:Em.
  { split; [done|]. intros Ha. apply existsb_true in Em as (p & Hp & Hlt). apply N.ltb_lt in Hlt.
    rewrite <- (Hdet parts (ac_parts _ _ _ _ _ _ Ha)) in Hp. unfold minimum in Hlt.
    destruct (limit_of limits _) as [n|] eqn:El; [|lia].
    pose proof (ac_minimum _ _ _ _ _ _ Ha n p El Hp). lia. }
  assert (forall p, p ∈ take (length ps - 1) ps -> (minimum <= p_size p)%N) as Hmin.
  { intros p Hp. apply not_true_iff_false in Em. apply N.nlt_ge. intros Hlt. apply Em, existsb_true.
    exists p. split; [done|]. by apply N.ltb_lt. }
  destruct (total_size_spec 0 ps) as [Ht|Hbad]; [|done]. rewrite Ht, N.add_0_l. clear Ht.
  destruct (N.leb_spec (sizes ps) U64_MAX) as [Hfit|Hbig]; cycle 1.
  { split; [done|]. intros [_ _ Hp _ -> Hf _ _]. rewrite (Hdet _ Hp) in Hf. lia. }
  destruct (is_some_and _ (limit_of limits MULTIPART_MAX_OBJECT_SIZE_KEY)) eqn:Emax.
  { split; [done|]. intros [_ _ Hp _ -> _ Hm _]. rewrite (Hdet _ Hp) in Hm.
    apply is_some_and_true in Emax as (n & Hn & Hlt). apply N.ltb_lt in Hlt. specialize (Hm n Hn). lia. }
  destruct (is_some_and _ (mc_size completion)) eqn:Eexp.
  { split; [done|]. intros [_ _ Hp _ -> _ _ Hx]. rewrite (Hdet _ Hp) in Hx.
    apply is_some_and_true in Eexp as (n & Hn & Hne). by rewrite (Hx n Hn), N.eqb_refl in Hne. }
  split.
  - intros [= <- <-]. split; [done|done|by apply select_parts_spec| |done|done| |].
    + intros n p Hn Hp. specialize (Hmin p Hp). unfold minimum in Hmin. by rewrite Hn in Hmin.
    + intros n Hn. rewrite Hn in Emax. simpl in Emax. apply N.ltb_ge in Emax. done.
    + intros n Hn. rewrite Hn in Eexp. simpl in Eexp. apply negb_false_iff, N.eqb_eq in Eexp. done.
  - intros [_ _ Hp _ -> _ _ _]. by rewrite (Hdet _ Hp).
Qed.

(** ** Assembly *)

Lemma concat_blocks_of fuel n b : 0 < n -> length b <= fuel -> concat (blocks_of fuel n b) = b.
Proof.
  intros Hn. revert b. induction fuel as [|fuel IH]; intros [|x b] Hf; simpl in *; try done; [lia|].
  destruct n as [|n]; [lia|]. rewrite IH by (rewrite length_drop; simpl; lia). apply take_drop.
Qed.

Lemma concat_blocks b : concat (blocks b) = b.
Proof. apply concat_blocks_of; [|done]. unfold BLOCK. lia. Qed.

Section Assembly.
Context `{EnvLaws} `{Digests} {m : mode}.
Hypothesis calm_mode : m_faults m = false.

Lemma wp_append_file msg p old b Q E C s :
  s !! p = Some (File old) -> Q tt (<[p := File (old ++ b)]> s) -> wp m (append_file msg p b) Q E C s.
Proof. intros Hp HQ. apply wp_sys; [intros _; by rewrite Hp|congruence..]. Qed.

Lemma wp_append_blocks msg p old bs Q E C s :
  s !! p = Some (File old) -> Q tt (<[p := File (old ++ concat bs)]> s) ->
  wp m (for_each (append_file msg p) bs) Q E C s.
Proof.
  revert old s. induction bs as [|b bs IH]; intros old s Hp HQ; simpl.
  - apply wp_ret. simpl in HQ. rewrite app_nil_r, insert_id in HQ by done. done.
  - apply wp_bind. eapply wp_append_file; [done|].
    eapply IH; [apply lookup_insert_eq|]. rewrite insert_insert_eq, <- app_assoc. done.
Qed.

(** The file of a part is as it was recorded. *)
Definition intact (bucket upload_id : string) (s : fs) (p : Part) (b : bytes) : Prop :=
  s !! part_path bucket upload_id (p_part_number p) = Some (File b) /\ size_of b = p_size p /\
  forall c, p_crc32c p = Some c -> c = crc_of 0 b.

Lemma wp_append_parts bucket upload_id spool parts bodies old crc Q E C s :
  (forall n, part_path bucket upload_id n <> spool) ->
  Forall2 (intact bucket upload_id s) parts bodies -> s !! spool = Some (File old) ->
  Q (foldl crc_of crc bodies) (<[spool := File (old ++ concat bodies)]> s) ->
  wp m (append_parts bucket upload_id spool parts crc) Q E C s.
Proof.
  intros Hne Hall. revert old crc. revert Q. remember s as s0 eqn:Hs0. rewrite Hs0.
  assert (forall p, p <> spool -> s !! p = s0 !! p) as Hother by (by intros; subst). clear Hs0.
  revert s Hother. induction Hall as [|p b parts bodies (Hp & Hsz & Hcrc) Hall IH];
    intros s Hother Q old crc Hsp HQ; simpl.
  - apply wp_ret. simpl in HQ. by rewrite app_nil_r, insert_id in HQ by done.
  - apply wp_bind. unfold append_part. apply wp_bind.
    eapply wp_read_file; [rewrite Hother by apply Hne; exact Hp| |intros ?; congruence].
    apply wp_bind. eapply wp_append_blocks; [done|]. rewrite concat_blocks.
    rewrite Hsz, N.eqb_refl. simpl.
    replace (is_some_and _ (p_crc32c p)) with false.
    2:{ symmetry. destruct (p_crc32c p) as [c|]; [|done]. simpl. by rewrite (Hcrc c eq_refl), N.eqb_refl. }
    apply wp_ret. eapply IH; [|apply lookup_insert_eq|].
    + intros q Hq. rewrite lookup_insert_ne by congruence. by apply Hother.
    + rewrite insert_insert_eq, <- app_assoc. exact HQ.
Qed.
End Assembly.

Section Assembled.
Context `{EnvLaws} `{Digests}.

(** [assemble_concatenates]. Assembling intact parts leaves the concatenation
    of their bytes in the spool file, changes nothing else, and returns the
    CRC-32C folded over the blocks read. *)
Theorem assemble_concatenates bucket upload_id spool parts bodies completion s σ :
  is_dir (parent spool) s = true -> s !! spool = None ->
  (forall n, part_path bucket upload_id n <> spool) ->
  Forall2 (intact bucket upload_id s) parts bodies ->
  (forall c, mc_crc32c completion = Some c -> c = foldl crc_of 0%N bodies) -> sched_ok calm σ ->
  exists σ', assemble bucket upload_id spool parts completion σ s =
    (Done (foldl crc_of 0%N bodies), <[spool := File (concat bodies)]> s, σ').
Proof.
  intros Hd Hn Hne Hall Hcrc Hσ.
  destruct (wp_calm_run (assemble bucket upload_id spool parts completion) (fun r s' =>
    r = foldl crc_of 0%N bodies /\ s' = <[spool := File (concat bodies)]> s) s σ)
    as (r & s' & σ' & Hrun & -> & ->); [|done|by eauto].
  unfold assemble. apply wp_bind, wp_attempt.
  apply wp_bind, wp_create_file; [done|unfold is_dir; by rewrite Hn| |done].
  apply wp_bind. eapply (wp_append_parts (m:=calm) eq_refl bucket upload_id spool parts bodies []);
    [done| |apply lookup_insert_eq|].
  - eapply list.Forall2_impl; [exact Hall|]. intros p b (Hp & Hrest). split; [|done].
    rewrite lookup_insert_ne by (intros Heq; by apply (Hne (p_part_number p))). done.
  - rewrite insert_insert_eq. simpl. apply wp_bind.
    replace (is_some_and _ (mc_crc32c completion)) with false.
    2:{ symmetry. destruct (mc_crc32c completion) as [c|]; [|done]. simpl.
        by rewrite (Hcrc c eq_refl), N.eqb_refl. }
    apply wp_ret, wp_bind, wp_sync_file; [by rewrite lookup_insert_eq| |done].
    by apply wp_ret, wp_bind, wp_ret, wp_ret.
Qed.
End Assembled.
