(* ===== verification/LifecycleExecutor.v ===== *)
(** * LifecycleExecutor: applying lifecycle rules to a store

    [check_object_expiration] and [LifecycleExecutor] of [src/lifecycle.rs].
    They use a store through the [Storage] trait only: [StorageOps] has the
    operations they call, with [FilesystemStorage] as an instance, and the
    theorem on protected objects is proved against what it needs of a store
    ([Guarded]).  The background loop around [run_once] and the gate that
    serializes it with requests are outside the model. *)

From S2P Require Import Prelude Text Models Policy SkipMap Index FsModel Publication Lifecycle.
From S2P Require Import Storage Versions Listing.

Class StorageOps (S : Type) : Type := {
  st_list_buckets : io S (list Bucket);
  st_get_bucket : string -> io S Bucket;
  st_get_bucket_lifecycle : string -> io S LifecycleConfiguration;
  st_list_objects : string -> option string -> option string -> option string -> option N ->
    io S ListObjectsResult;
  st_get_object : string -> string -> io S Object;
  st_get_object_metadata : string -> string -> io S Object;
  st_get_object_tags : string -> string -> io S strmap;
  st_list_object_versions : string -> option string -> io S (list Object);
  st_delete_object : string -> string -> io S unit;
  st_delete_object_version : string -> string -> string -> io S unit;
  st_update_object_storage_class : string -> string -> string -> io S unit }.

#[export] Instance filesystem_storage {M} `{SkipMap M} `{Env} `{StoreEnv} `{Digests} :
  StorageOps (World M) := {|
  st_list_buckets := list_buckets;
  st_get_bucket := get_bucket;
  st_get_bucket_lifecycle := get_bucket_lifecycle;
  st_list_objects := list_objects;
  st_get_object := get_object;
  st_get_object_metadata := get_object_metadata;
  st_get_object_tags := get_object_tags;
  st_list_object_versions := list_object_versions;
  st_delete_object := delete_object;
  st_delete_object_version := delete_object_version;
  st_update_object_storage_class := update_object_storage_class |}.

(** The order in which a [HashMap] yields its entries. *)
Class HashOrder : Type := {
  hash_order : forall {A}, list A -> list A;
  hash_order_perm : forall A (l : list A), hash_order l ≡ₚ l }.

Section Executor.
Context {S : Type} `{StorageOps S} `{Chrono} `{HashOrder}.

Definition foreign_provider_data_protection_active (bucket : string) : io S bool :=
  b ← st_get_bucket bucket; mret (foreign_protection (b_metadata b)).

(** [unwrap_or_default] *)
Definition object_tags (bucket key : string) : io S strmap :=
  r ← attempt (st_get_object_tags bucket key); mret (unwrap_or ∅ r).

(** ** The check before an access *)

Fixpoint expire_by_rules (bucket key : string) (object : Object) (tags : strmap) (now : time)
    (rules : list Rule) : io S bool :=
  match rules with
  | [] => mret false
  | rule :: rest =>
      if negb (eqb (rule_status rule) RuleEnabled) || negb (rule_matches_filter rule key tags)
      then expire_by_rules bucket key object tags now rest
      else if is_some_and (fun e => should_expire (o_last_modified object) e now) (rule_expiration rule)
      then st_delete_object bucket key;; mret true
      else expire_by_rules bucket key object tags now rest
  end.

Definition check_object_expiration (bucket key : string) : io S bool :=
  now ← now;
  r ← attempt (st_get_bucket_lifecycle bucket);
  match r with
  | Err KeyNotFound => mret false
  | Err e => fail e
  | Ok config =>
      foreign ← foreign_provider_data_protection_active bucket;
      if (foreign : bool) then mret false
      else
        object ← st_get_object_metadata bucket key;
        if object_has_active_data_protection object now then mret false
        else
          tags ← object_tags bucket key;
          expire_by_rules bucket key object tags now (rules config)
  end.

(** ** Current objects *)

Definition apply_transition (bucket : string) (rule : Rule) (object : Object) (now : time) : io S unit :=
  match find (fun t => should_transition (o_last_modified object) t now) (rule_transitions rule) with
  | None => mret tt
  | Some transition =>
      let storage_class := storage_class_to_str (tr_storage_class transition) in
      if eqb (o_storage_class object) storage_class then mret tt
      else ignore (st_update_object_storage_class bucket (o_key object) storage_class)
  end.

Definition apply_rule_to_object (bucket : string) (rule : Rule) (now : time) (object : Object)
    : io S unit :=
  tags ← object_tags bucket (o_key object);
  if negb (rule_matches_filter rule (o_key object) tags) then mret tt
  else if is_some_and (fun e => should_expire (o_last_modified object) e now) (rule_expiration rule)
  then if object_has_active_data_protection object now then mret tt
       else ignore (st_delete_object bucket (o_key object))
  else apply_transition bucket rule object now.

Definition apply_current_object_rule (bucket : string) (rule : Rule) (now : time) : io S unit :=
  result ← st_list_objects bucket None None None None;
  for_each (apply_rule_to_object bucket rule now) (l_objects result).

(** ** Noncurrent versions *)

(** [versions_by_key.entry(key).or_default().push(version)] *)
Fixpoint push_version (key : string) (version : Object) (groups : list (string * list Object))
    : list (string * list Object) :=
  match groups with
  | [] => [(key, [version])]
  | (k, versions) :: rest =>
      if eqb k key then (k, versions ++ [version]) :: rest
      else (k, versions) :: push_version key version rest
  end.

Fixpoint filter_versions (bucket : string) (rule : Rule) (versions : list Object)
    (groups : list (string * list Object)) : io S (list (string * list Object)) :=
  match versions with
  | [] => mret groups
  | version :: rest =>
      tags ← object_tags bucket (o_key version);
      filter_versions bucket rule rest
        (if rule_matches_filter rule (o_key version) tags
         then push_version (o_key version) version groups else groups)
  end.

Definition filtered_versions_by_key (bucket : string) (rule : Rule) : io S (list (string * list Object)) :=
  versions ← st_list_object_versions bucket None;
  filter_versions bucket rule versions [].

Definition current_version_id (bucket key : string) : io S (option string) :=
  r ← attempt (st_get_object bucket key);
  mret (match r with Ok o => o_version_id o | Err _ => None end).

Definition expire_noncurrent_version (bucket key : string) (current : option string) (days : N)
    (now : time) (version : Object) : io S unit :=
  if eqb current (o_version_id version) then mret tt
  else if negb (should_expire_noncurrent_version (o_last_modified version) days now) then mret tt
  else if object_has_active_data_protection version now then mret tt
  else match o_version_id version with
       | Some version_id => ignore (st_delete_object_version bucket key version_id)
       | None => mret tt
       end.

Definition expire_noncurrent_versions (bucket key : string) (current : option string) (days : N)
    (now : time) (versions : list Object) : io S unit :=
  for_each (expire_noncurrent_version bucket key current days now) versions.

(** Newest first, then by version. *)
Definition newest_first (a b : Object) : Prop :=
  (o_last_modified b < o_last_modified a)%Z \/
  o_last_modified a = o_last_modified b /\ opt_le (o_version_id a) (o_version_id b).
#[global] Instance newest_first_dec a b : Decision (newest_first a b).
Proof. unfold newest_first. apply _. Defined.

Definition apply_noncurrent_version_rule (bucket : string) (rule : Rule) (now : time) : io S unit :=
  match rule_noncurrent_version_expiration rule with
  | None => mret tt
  | Some e =>
      groups ← filtered_versions_by_key bucket rule;
      for_each (fun '(key, versions) =>
        current ← current_version_id bucket key;
        expire_noncurrent_versions bucket key current (noncurrent_days e) now
          (merge_sort newest_first versions))
        (hash_order groups)
  end.

(** ** The pass over all buckets *)

Definition apply_rule (bucket : string) (now : time) (rule : Rule) : io S unit :=
  if negb (eqb (rule_status rule) RuleEnabled) then mret tt
  else apply_current_object_rule bucket rule now;; apply_noncurrent_version_rule bucket rule now.

Definition apply_lifecycle_rules (bucket : string) (config : LifecycleConfiguration) (now : time)
    : io S unit :=
  foreign ← foreign_provider_data_protection_active bucket;
  if (foreign : bool) then mret tt else for_each (apply_rule bucket now) (rules config).

Definition execute_bucket (now : time) (bucket : Bucket) : io S unit :=
  r ← attempt (st_get_bucket_lifecycle (b_name bucket));
  match r with
  | Ok config => apply_lifecycle_rules (b_name bucket) config now
  | Err _ => mret tt
  end.

Definition execute_lifecycle_rules : io S unit :=
  now ← now;
  buckets ← st_list_buckets;
  for_each (execute_bucket now) buckets.

End Executor.
