(* ===== verification/LifecycleFacts.v ===== *)
(** * LifecycleFacts: what lifecycle rules may delete

    Rules that are due stay due, a veto of the bucket or of the object keeps the
    executor away from it, under any schedule of storage faults, and an object
    the executor is not shown is left alone. *)

From S2P Require Import Prelude Text Models Policy SkipMap Index IndexFacts FsModel Publication FileFacts.
From S2P Require Import PublicationFacts ConcreteEnv PublicationSafety Lifecycle Storage StorageFacts Versions.
From S2P Require Import Listing ListingFacts LifecycleExecutor.

(** ** What a store promises about one object *)

Section Guard.
Context {S : Type} `{StorageOps S} `{Chrono} `{HashOrder} {m : mode}.

(** [P] is kept by a program, however it ends. *)
Definition keeps {A} (P : S -> Prop) (p : io S A) : Prop :=
  forall s, P s -> wp m p (fun _ => P) (fun _ => P) P s.

(** The store keeps [P], a fact about the object [key] of [bucket], except
    when that object is deleted; and every description of the object it hands
    out satisfies [shown]. *)
Record Guarded (bucket key : string) (P : S -> Prop) (shown : Object -> Prop) : Prop := mkGuarded {
  g_list_buckets : keeps P st_list_buckets;
  g_get_bucket : forall b, keeps P (st_get_bucket b);
  g_lifecycle : forall b, keeps P (st_get_bucket_lifecycle b);
  g_get_object : forall b k, keeps P (st_get_object b k);
  g_tags : forall b k, keeps P (st_get_object_tags b k);
  g_metadata : forall b k s, P s ->
    wp m (st_get_object_metadata b k)
      (fun o s' => P s' /\ (b = bucket -> k = key -> shown o)) (fun _ => P) P s;
  g_list_objects : forall b p d mk n s, P s ->
    wp m (st_list_objects b p d mk n)
      (fun r s' => P s' /\ (b = bucket -> forall o, o ∈ l_objects r -> o_key o = key -> shown o))
      (fun _ => P) P s;
  g_list_versions : forall b p s, P s ->
    wp m (st_list_object_versions b p)
      (fun r s' => P s' /\ (b = bucket -> forall o, o ∈ r -> o_key o = key -> shown o))
      (fun _ => P) P s;
  g_storage_class : forall b k c, keeps P (st_update_object_storage_class b k c);
  g_delete : forall b k, (b, k) <> (bucket, key) -> keeps P (st_delete_object b k);
  g_delete_version : forall b k v, (b, k) <> (bucket, key) -> keeps P (st_delete_object_version b k v) }.

Lemma keeps_ret {A} P (a : A) : keeps P (mret a).
Proof. intros s Hs. by apply wp_ret. Qed.

Lemma keeps_bind {A B} P (p : io S A) (k : A -> io S B) :
  keeps P p -> (forall a, keeps P (k a)) -> keeps P (p ≫= k).
Proof. intros Hp Hk s Hs. apply wp_bind. eapply wp_mono; [by apply Hp|..]; simpl; auto. Qed.

Lemma keeps_attempt {A} P (p : io S A) : keeps P p -> keeps P (attempt p).
Proof. intros Hp s Hs. apply wp_attempt. by apply Hp. Qed.

Lemma keeps_ignore {A} P (p : io S A) : keeps P p -> keeps P (ignore p).
Proof. intros Hp s Hs. apply wp_ignore. by apply Hp. Qed.

Lemma keeps_for_each {A} P (f : A -> io S unit) l :
  (forall a, a ∈ l -> keeps P (f a)) -> keeps P (for_each f l).
Proof.
  intros Hf. induction l as [|a l IH]; simpl; [apply keeps_ret|].
  apply keeps_bind; [apply Hf; set_solver|intros _; apply IH; intros; apply Hf; set_solver].
Qed.
End Guard.
#[export] Hint Resolve keeps_ret keeps_attempt keeps_ignore : sqrzl.

Section Protected.
Context {S : Type} `{StorageOps S} `{Chrono} `{HashOrder} {m : mode}.
Context {bucket key : string} {P : S -> Prop} {shown : Object -> Prop}.
Hypothesis guarded : @Guarded S _ m bucket key P shown.
(** What the store shows of the object vetoes its deletion. *)
Hypothesis vetoed : forall o now, shown o -> object_has_active_data_protection o now = true.
Abbreviation keeps := (@keeps S m).

Lemma keeps_tags b k : keeps P (object_tags b k).
Proof.
  unfold object_tags. apply keeps_bind; [apply keeps_attempt, guarded|]. intros; apply keeps_ret.
Qed.

Lemma keeps_transition b rule o now : keeps P (apply_transition b rule o now).
Proof.
  unfold apply_transition. destruct (find _ _); [|apply keeps_ret].
  destruct (eqb _ _); [apply keeps_ret|]. apply keeps_ignore, guarded.
Qed.

Lemma keeps_apply_rule_to_object b rule now o :
  (b = bucket -> o_key o = key -> shown o) -> keeps P (apply_rule_to_object b rule now o).
Proof.
  intros Ho. unfold apply_rule_to_object. apply keeps_bind; [apply keeps_tags|]. intros tags.
  destruct (negb _); [apply keeps_ret|].
  destruct (is_some_and _ (rule_expiration rule)); [|apply keeps_transition].
  destruct (object_has_active_data_protection o now) eqn:Hp; [apply keeps_ret|].
  apply keeps_ignore, guarded. intros [= -> Hk]. rewrite vetoed in Hp; [done|]. auto.
Qed.

Lemma keeps_current_objects b rule now : keeps P (apply_current_object_rule b rule now).
Proof.
  intros s Hs. unfold apply_current_object_rule. apply wp_bind.
  eapply wp_mono; [by apply guarded|..]; simpl; [|done..].
  intros r s' [Hs' Hr]. apply keeps_for_each; [|done]. intros o Ho.
  apply keeps_apply_rule_to_object. intros -> Hk. by apply Hr.
Qed.

(** Groups hold versions of their key. *)
Definition grouped (b : string) (groups : list (string * list Object)) : Prop :=
  forall k vs v, (k, vs) ∈ groups -> v ∈ vs -> o_key v = k /\ (b = bucket -> k = key -> shown v).

Lemma grouped_push b v groups :
  grouped b groups -> (b = bucket -> o_key v = key -> shown v) -> grouped b (push_version (o_key v) v groups).
Proof.
  intros Hg Hv. induction groups as [|[k vs] groups IH]; simpl.
  - intros k vs v' [= -> ->]%list_elem_of_singleton ->%list_elem_of_singleton. done.
  - destruct (eqb k (o_key v)) eqn:Ek.
    + rewrite eqb_true in Ek. subst k. intros k' vs' v' [[= -> ->]|Hin]%elem_of_cons Hv'.
      * apply elem_of_app in Hv' as [Hv'| ->%list_elem_of_singleton]; [|done].
        eapply Hg; [by left|done].
      * eapply Hg; [by right|done].
    + intros k' vs' v' [[= -> ->]|Hin]%elem_of_cons Hv'.
      * eapply Hg; [by left|done].
      * eapply IH; [|exact Hin|done]. intros k2 vs2 v2 Hin2. apply Hg. by right.
Qed.

Lemma wp_filter_versions b rule versions groups s :
  P s -> grouped b groups -> (b = bucket -> forall o, o ∈ versions -> o_key o = key -> shown o) ->
  wp m (filter_versions b rule versions groups) (fun g s' => P s' /\ grouped b g) (fun _ => P) P s.
Proof.
  revert groups s. induction versions as [|v versions IH]; intros groups s Hs Hg Hv; simpl.
  - by apply wp_ret.
  - apply wp_bind. eapply wp_mono; [by apply keeps_tags|..]; simpl; [|done..].
    intros tags s' Hs'. apply IH; [done| |].
    + destruct (rule_matches_filter _ _ _); [|done]. apply grouped_push; [done|].
      intros Hb Hk. apply Hv; [done|set_solver|done].
    + intros Hb o Ho. apply Hv; [done|set_solver].
Qed.

Lemma keeps_expire_noncurrent b k current days now v :
  o_key v = k -> (b = bucket -> k = key -> shown v) ->
  keeps P (expire_noncurrent_version b k current days now v).
Proof.
  intros Hk Hv. unfold expire_noncurrent_version.
  destruct (eqb _ _); [apply keeps_ret|]. destruct (negb _); [apply keeps_ret|].
  destruct (object_has_active_data_protection v now) eqn:Hp; [apply keeps_ret|].
  destruct (o_version_id v) as [id|]; [|apply keeps_ret].
  apply keeps_ignore, guarded. intros [= -> ->]. rewrite vetoed in Hp; [done|]. auto.
Qed.

Lemma keeps_noncurrent_versions b rule now : keeps P (apply_noncurrent_version_rule b rule now).
Proof.
  intros s Hs. unfold apply_noncurrent_version_rule.
  destruct (rule_noncurrent_version_expiration rule) as [e|]; [|by apply keeps_ret].
  unfold filtered_versions_by_key. apply wp_bind, wp_bind.
  eapply wp_mono; [by apply guarded|..]; simpl; [|done..]. intros versions s1 [Hs1 Hv].
  eapply wp_mono; [apply (wp_filter_versions b rule versions [] s1 Hs1)|..]; simpl; [|done|..|done|done].
  - intros k vs v Hbad. by apply elem_of_nil in Hbad.
  - intros groups s2 [Hs2 Hg]. apply keeps_for_each; [|done].
    intros [k vs] Hin. rewrite (hash_order_perm _ groups) in Hin.
    apply keeps_bind; [|intros current].
    + unfold current_version_id. apply keeps_bind; [apply keeps_attempt, guarded|intros; apply keeps_ret].
    + unfold expire_noncurrent_versions. apply keeps_for_each. intros v Hv'.
      rewrite merge_sort_Permutation in Hv'.
      apply keeps_expire_noncurrent; by eapply Hg.
Qed.

Lemma keeps_execute_bucket now b : keeps P (execute_bucket now b).
Proof.
  unfold execute_bucket. apply keeps_bind; [apply keeps_attempt, guarded|].
  intros [config|e]; [|apply keeps_ret]. unfold apply_lifecycle_rules.
  apply keeps_bind.
  { unfold foreign_provider_data_protection_active. apply keeps_bind; [apply guarded|intros; apply keeps_ret]. }
  intros [|]; [apply keeps_ret|]. apply keeps_for_each. intros rule _. unfold apply_rule.
  destruct (negb _); [apply keeps_ret|].
  apply keeps_bind; [apply keeps_current_objects|intros _; apply keeps_noncurrent_versions].
Qed.
Lemma keeps_execute : keeps P execute_lifecycle_rules.
Proof.
  unfold execute_lifecycle_rules. apply keeps_bind; [intros s Hs; by apply wp_now|]. intros now.
  apply keeps_bind; [apply guarded|]. intros buckets. apply keeps_for_each. intros b _.
  apply keeps_execute_bucket.
Qed.
End Protected.

Section Survival.
Context {S : Type} `{StorageOps S} `{Chrono} `{HashOrder}.

Lemma keeps_check {m : mode} bucket key (P : S -> Prop) (shown : Object -> Prop) b k :
  @Guarded S _ m bucket key P shown ->
  (forall o now, shown o -> object_has_active_data_protection o now = true) ->
  @keeps S m _ P (check_object_expiration b k).
Proof.
  intros Hg Hv. unfold check_object_expiration.
  apply keeps_bind; [intros s Hs; by apply wp_now|]. intros now.
  apply keeps_bind; [apply keeps_attempt, Hg|]. intros [config|[]];
    try (intros s Hs; by (apply wp_fail || apply wp_ret)).
  apply keeps_bind.
  { unfold foreign_provider_data_protection_active. apply keeps_bind; [apply Hg|intros; apply keeps_ret]. }
  intros [|]; [apply keeps_ret|]. intros s Hs. apply wp_bind.
  eapply wp_mono; [by apply Hg|..]; simpl; [|done..]. intros o s1 [Hs1 Ho].
  destruct (object_has_active_data_protection o now) eqn:Hp; [by apply wp_ret|].
  assert ((b, k) <> (bucket, key)) as Hne.
  { intros [= -> ->]. rewrite Hv in Hp; [done|by apply Ho]. }
  revert s1 Hs1 Ho. intros s1 Hs1 _. apply wp_bind.
  eapply wp_mono; [by apply (keeps_tags Hg)|..]; simpl; [|done..]. intros tags s2 Hs2.
  revert s2 Hs2. change (@keeps S m _ P (expire_by_rules b k o tags now (rules config))).
  induction (rules config) as [|rule rest IH]; simpl; [apply keeps_ret|].
  destruct (_ || _); [done|]. destruct (is_some_and _ _); [|done].
  apply keeps_bind; [by apply Hg|intros; apply keeps_ret].
Qed.

(** [lifecycle_spares_protected_objects]. Against any store that keeps its
    promises about an object, neither the lifecycle executor nor the check
    before an access deletes an object that shows active data protection at
    every time the clock may show, under any schedule of storage faults. *)
Theorem lifecycle_spares_protected_objects bucket key (P : S -> Prop) (shown : Object -> Prop) s σ :
  @Guarded S _ any_schedule bucket key P shown ->
  (forall o now, shown o -> object_has_active_data_protection o now = true) ->
  P s ->
  (forall out s' σ', execute_lifecycle_rules σ s = (out, s', σ') -> P s') /\
  (forall b k out s' σ', check_object_expiration b k σ s = (out, s', σ') -> P s').
Proof.
  intros Hg Hv Hs. split.
  - intros out s' σ' Hrun.
    pose proof (wp_run _ _ _ _ _ _ _ _ _ _ (keeps_execute Hg Hv s Hs) (any_schedule_ok σ) Hrun) as Hr.
    by destruct out.
  - intros b k out s' σ' Hrun.
    pose proof (wp_run _ _ _ _ _ _ _ _ _ _ (keeps_check bucket key P shown b k Hg Hv s Hs) (any_schedule_ok σ) Hrun) as Hr.
    by destruct out.
Qed.
End Survival.

(** * An expiration rule on a bucket

    On an unversioned bucket that fits in one listing page, applying a rule
    without transitions removes exactly the objects that match its filter, are
    due and are not protected. *)

Section Expiration.
Context {M : Type -> Type} `{SkipMapLaws M} `{EnvLaws} `{StoreEnv} `{Digests} `{Chrono} `{HashOrder}.
Abbreviation World := (World M).
Context (bucket : string) (objects : string -> Object * bytes) (rule : Rule) (now : time).

(** The rule removes the object. *)
Definition expired (o : Object) : bool :=
  rule_matches_filter rule (o_key o) (o_tags o) &&
  is_some_and (fun e => should_expire (o_last_modified o) e now) (rule_expiration rule) &&
  negb (object_has_active_data_protection o now).

(** The keys of [rest] are still to be looked at. *)
Record swept (keys rest : list string) (w : World) : Prop := mkSwept {
  sw_index : idx_wf (w_index w);
  sw_dir : is_dir (bucket_dir bucket) (w_fs w) = true;
  sw_unversioned : unversioned bucket (w_fs w);
  sw_held : forall key, key ∈ keys ->
    held (object_dir bucket key)
      (if bool_decide (key ∈ rest) || negb (expired (objects key).1) then Some (objects key) else None) (w_fs w);
  sw_keys : forall key, key ∈ indexed_keys (w_index w) bucket <->
    key ∈ keys /\ (key ∈ rest \/ expired (objects key).1 = false) }.

Definition distinct_dirs (keys : list string) : Prop :=
  forall k k', k ∈ keys -> k' ∈ keys -> compute_object_id bucket k = compute_object_id bucket k' -> k = k'.

Lemma surroundings_dir key s s' :
  agree (surroundings (object_dir bucket key) s no_input) s s' ->
  is_dir (bucket_dir bucket) s = true -> is_dir (bucket_dir bucket) s' = true.
Proof.
  intros Ha Hd. rewrite (agree_is_dir _ _ _ _ Ha); [done|apply plain_bucket_dir|].
  intros [Hq|[[]|[_ Hq]]].
  - unfold object_dir, object_id_dir in Hq. by rewrite below_join_self in Hq.
  - apply is_dir_true in Hd. congruence.
Qed.

Lemma private_surroundings d s s' : agree (private d) s s' -> agree (surroundings d s no_input) s s'.
Proof. apply agree_weaken. intros q Hq. left. by apply inside_below, private_inside. Qed.

(** A step on one key: its directory is as given, the others are kept. *)
Lemma swept_step keys rest rest' key (w w' : World) :
  distinct_dirs keys -> key ∈ keys -> swept keys rest w ->
  agree (surroundings (object_dir bucket key) (w_fs w) no_input) (w_fs w) (w_fs w') ->
  (forall k, k <> key -> k ∈ rest <-> k ∈ rest') ->
  held (object_dir bucket key)
    (if bool_decide (key ∈ rest') || negb (expired (objects key).1) then Some (objects key) else None) (w_fs w') ->
  idx_wf (w_index w') ->
  (forall k, k ∈ indexed_keys (w_index w') bucket <-> k ∈ keys /\ (k ∈ rest' \/ expired (objects k).1 = false)) ->
  swept keys rest' w'.
Proof.
  intros Hdist Hk Hsw Ha Hrest Hh Hwf Hkeys. split; [done| | | |done].
  - eapply surroundings_dir; [exact Ha|apply Hsw].
  - eapply (unversioned_kept _ key no_input); [by intros q []|exact Ha|apply Hsw].
  - intros k Hk'. destruct (decide (k = key)) as [->|Hne]; [done|].
    rewrite <- (bool_decide_ext _ _ (Hrest k Hne)).
    eapply (held_frame (object_dir bucket key) _ _ no_input); [| |by intros q []|exact Ha|by apply Hsw].
    + apply apart_same_length; [done|]. intros Heq%object_dir_inj. apply Hne. symmetry. by apply Hdist.
    + unfold object_dir, object_id_dir. rewrite parent_join. apply Hsw.
Qed.

(** A key that is not expired is only looked at. *)
Lemma swept_skip keys rest key (w : World) :
  expired (objects key).1 = false -> key ∉ rest -> key ∈ keys ->
  swept keys (key :: rest) w -> swept keys rest w.
Proof.
  intros He Hn Hk Hsw. split; [apply Hsw..| |].
  - intros k Hk'. pose proof (sw_held _ _ _ Hsw k Hk') as Hh. destruct (decide (k = key)) as [->|Hne].
    + rewrite He, orb_true_r in Hh |- *. done.
    + by rewrite (bool_decide_ext (k ∈ rest) (k ∈ key :: rest)) by set_solver.
  - intros k. rewrite (sw_keys _ _ _ Hsw k), elem_of_cons. naive_solver.
Qed.

Lemma wp_sweep_object {m : mode} keys key rest Q E C (w : World) :
  m_faults m = false -> distinct_dirs keys -> rule_transitions rule = [] ->
  o_key (objects key).1 = key -> key ∈ keys -> key ∉ rest -> swept keys (key :: rest) w ->
  (forall w', swept keys rest w' -> Q tt w') ->
  wp m (apply_rule_to_object bucket rule now (strip_data (objects key).1)) Q E C w.
Proof.
  intros Hcalm Hdist Htr Hkey Hk Hnin Hsw HQ. set (d := object_dir bucket key).
  assert (forall (E : Error -> World -> Prop) C w, @wfails M m E C w) as Hnf by (intros ? ? ? ?; congruence).
  pose proof (sw_held _ _ _ Hsw key Hk) as Hh.
  rewrite (bool_decide_eq_true_2 (key ∈ key :: rest)) in Hh by set_solver. simpl in Hh.
  assert (o_key (strip_data (objects key).1) = key) as Hkey' by done.
  unfold apply_rule_to_object. rewrite Hkey'.
  apply wp_bind. unfold object_tags. apply wp_bind, wp_attempt. simpl.
  unfold get_object_tags, get_object_metadata. apply wp_bind.
  eapply wp_read_object_metadata_locked; [exact Hh| |done].
  intros s1 Hh1 Ha1. destruct (objects key) as [o b] eqn:Eo. simpl in *.
  apply wp_ret, wp_ret. simpl.
  assert (forall k, k <> key -> k ∈ key :: rest <-> k ∈ rest) as Hrest by set_solver.
  assert (swept keys (key :: rest) (set_fs s1 w)) as Hsw1.
  { apply (swept_step keys (key :: rest) _ key w); try done; [by apply private_surroundings| |apply Hsw..].
    rewrite (bool_decide_eq_true_2 (key ∈ key :: rest)) by set_solver. simpl. by rewrite Eo. }
  assert (expired o = false -> Q tt (set_fs s1 w)) as Hskip.
  { intros He. apply HQ. eapply swept_skip; [by rewrite Eo|done..]. }
  unfold expired in Hskip. rewrite Hkey in Hskip.
  destruct (rule_matches_filter rule key (o_tags o)) eqn:Em; simpl in *; [|by apply wp_ret, Hskip].
  destruct (is_some_and _ (rule_expiration rule)) eqn:Ee; simpl in *; cycle 1.
  { unfold apply_transition. rewrite Htr. by apply wp_ret, Hskip. }
  change (object_has_active_data_protection (strip_data o) now)
    with (object_has_active_data_protection o now).
  destruct (object_has_active_data_protection o now) eqn:Ep; simpl in *; [by apply wp_ret, Hskip|].
  assert (expired (objects key).1 = true) as Hexp.
  { rewrite Eo. unfold expired. simpl. by rewrite Hkey, Em, Ee, Ep. }
  apply wp_ignore. eapply wp_delete_unversioned; [apply Hsw1|exact Hh1|done|].
  intros w2 Hh2 Hi2 Ha2. apply HQ.
  apply (swept_step keys (key :: rest) _ key (set_fs s1 w)); try done.
  - by rewrite Hexp, bool_decide_eq_false_2.
  - rewrite Hi2. eapply index_step_wf; [apply step_remove|apply Hsw].
  - intros k. rewrite Hi2, elem_of_indexed_remove. simpl. rewrite (sw_keys _ _ _ Hsw k), elem_of_cons.
    split; [naive_solver|]. intros [Hk' Hor]. split; [tauto|]. intros [= ->]. destruct Hor; [done|congruence].
Qed.

(** C39 [expiration_rule_exact]. On the filesystem store, in an unversioned
    bucket of at most 1000 keys whose objects carry their keys and have
    directories of their own, an expiration rule without transitions, run
    without storage faults, removes exactly the objects that match its filter,
    are due and are not protected, from the disk and from the index, and
    leaves the others with their data. *)
Theorem expiration_rule_exact (w : World) σ :
  let keys := indexed_keys (w_index w) bucket in
  stocked bucket objects w -> unversioned bucket (w_fs w) -> length keys <= 1000 ->
  (forall key, key ∈ keys -> o_key (objects key).1 = key) -> rule_transitions rule = [] -> sched_ok calm σ ->
  exists w' σ', apply_current_object_rule bucket rule now σ w = (Done tt, w', σ') /\
    (forall key, key ∈ keys -> held (object_dir bucket key)
       (if expired (objects key).1 then None else Some (objects key)) (w_fs w')) /\
    (forall key, key ∈ indexed_keys (w_index w') bucket <-> key ∈ keys /\ expired (objects key).1 = false).
Proof.
  intros keys Hst Hun Hlen Hkey Htr Hσ.
  destruct (wp_calm_run (apply_current_object_rule bucket rule now) (fun _ w' => swept keys [] w') w σ)
    as ([] & w' & σ' & Hrun & Hsw); [|done|].
  2:{ exists w', σ'. split_and!; [done| |].
      - intros key Hk. pose proof (sw_held _ _ _ Hsw key Hk) as Hh.
        rewrite bool_decide_eq_false_2 in Hh by (by apply not_elem_of_nil). simpl in Hh.
        by destruct (expired (objects key).1).
      - intros key. rewrite (sw_keys _ _ _ Hsw key), elem_of_nil. tauto. }
  unfold apply_current_object_rule. simpl. apply wp_bind, (wp_flat_page bucket objects); [done|done|].
  intros s1 Hst1 Ha1.
  assert (filter (wanted None None) keys = keys) as Hall.
  { clear. induction keys as [|k l IH]; [done|]. rewrite filter_cons_True by done. by rewrite IH. }
  assert (l_objects (flat_page bucket objects None None None w) = (fun key => strip_data (objects key).1) <$> keys)
    as ->.
  { simpl. fold keys. rewrite Hall. rewrite !take_ge; [done|..]; rewrite ?length_take;
      unfold saturating_add_usize, U64_MAX; lia. }
  assert (NoDup keys) as Hnd.
  { eapply StronglySorted_NoDup; [apply Text.lt_irrefl|]. apply indexed_keys_sorted. }
  assert (swept keys keys (set_fs s1 w)) as Hsw.
  { split; simpl; [apply Hst|apply Hst1| | |].
    - split; unfold path_exists; rewrite (agree_at _ _ _ Ha1); try apply Hun; try done;
        [by intros [? _]%(staging_not_top _ EmptyString)|].
      by intros [_ ?]%(staging_not_top _ ".versioning-enabled").
    - intros key Hk. rewrite bool_decide_eq_true_2 by done. simpl. by apply Hst1.
    - intros key. fold keys. naive_solver. }
  apply (wp_for_each _ _ (fun l w' => exists rest, l = (fun key => strip_data (objects key).1) <$> rest /\
    NoDup rest /\ rest ⊆ keys /\ swept keys rest w')).
  - exists keys. done.
  - intros o l w1 ([|key rest] & Heq & Hnd1 & Hsub & Hsw1); [done|]. rewrite fmap_cons in Heq.
    injection Heq as -> ->. apply list.NoDup_cons in Hnd1 as [Hnin Hnd1].
    assert (key ∈ keys) as Hk by (apply Hsub; set_solver).
    eapply (wp_sweep_object keys key rest); [done|intros ????; by apply (st_distinct _ _ _ Hst)|done|by apply Hkey|done|done|done|].
    intros w2 Hsw2. exists rest. split_and!; [done|done|set_solver|done].
  - intros w1 ([|key rest] & Heq & _ & _ & Hsw1); [|done]. done.
Qed.
End Expiration.
