(* ===== verification/Scenario.v ===== *)
(** * Scenario: a store built by running the operations

    A bucket is created on an empty disk and three objects are put in it, one
    after the other, with the concrete instances of [ConcreteEnv] and
    this file.  The facts about the resulting store come from the general
    lemmas on the operations, not from inspecting the disk. *)

From Stdlib Require Import Ascii Strings.Byte.
From stdpp Require Import countable pretty.
From Stdlib Require Import Ascii.
From S2P Require Import Prelude Text Models Utf8 Policy SkipMap Index IndexFacts FsModel Publication FileFacts.
From S2P Require Import PublicationFacts ConcreteEnv PublicationSafety Lifecycle Storage StorageFacts.
From S2P Require Import BucketFacts Listing ListingFacts Multipart LifecycleExecutor.

(** * The sidecar codecs and digests on which the store computes

    Instances of [StoreEnv] with its laws, of [Digests] and of [UploadEnv],
    beside the [Env] of [ConcreteEnv], for the examples and witnesses. *)

(** ** The documents are countable *)

#[export] Instance BucketIdentity_eq_dec : EqDecision BucketIdentity.
Proof. solve_decision. Defined.
#[export] Instance BucketIdentity_countable : Countable BucketIdentity.
Proof.
  refine (inj_countable' (fun i => (id_created_at i, id_modified_at i)) (fun x => mkIdentity x.1 x.2) _).
  by intros [].
Defined.

#[export] Instance Status_countable : Countable Status.
Proof.
  refine (inj_countable' (fun s => match s with RuleEnabled => true | RuleDisabled => false end)
            (fun b => if b then RuleEnabled else RuleDisabled) _).
  by intros [].
Defined.

#[export] Instance Tag_eq_dec : EqDecision Tag.
Proof. solve_decision. Defined.
#[export] Instance Tag_countable : Countable Tag.
Proof.
  refine (inj_countable' (fun t => (tag_key t, tag_value t)) (fun x => mkTag x.1 x.2) _).
  by intros [].
Defined.

#[export] Instance Filter_eq_dec : EqDecision Filter.
Proof. solve_decision. Defined.
#[export] Instance Filter_countable : Countable Filter.
Proof.
  refine (inj_countable' (fun f => (filter_prefix f, filter_tags f)) (fun x => mkFilter x.1 x.2) _).
  by intros [].
Defined.

#[export] Instance Expiration_eq_dec : EqDecision Expiration.
Proof. solve_decision. Defined.
#[export] Instance Expiration_countable : Countable Expiration.
Proof.
  refine (inj_countable' (fun e => (exp_days e, exp_date e, exp_expired_object_delete_marker e))
            (fun '(d, t, m) => mkExpiration d t m) _).
  by intros [].
Defined.

#[export] Instance NoncurrentVersionExpiration_eq_dec : EqDecision NoncurrentVersionExpiration.
Proof. solve_decision. Defined.
#[export] Instance NoncurrentVersionExpiration_countable : Countable NoncurrentVersionExpiration.
Proof. refine (inj_countable' noncurrent_days mkNoncurrent _). by intros []. Defined.

#[export] Instance StorageClass_eq_dec : EqDecision StorageClass.
Proof. solve_decision. Defined.
#[export] Instance StorageClass_countable : Countable StorageClass.
Proof.
  refine (inj_countable'
    (fun c => match c with Standard => 0 | Glacier => 1 | DeepArchive => 2 end)
    (fun n => match n with 0 => Standard | 1 => Glacier | _ => DeepArchive end) _).
  by intros [].
Defined.

#[export] Instance Transition_eq_dec : EqDecision Transition.
Proof. solve_decision. Defined.
#[export] Instance Transition_countable : Countable Transition.
Proof.
  refine (inj_countable' (fun t => (tr_days t, tr_date t, tr_storage_class t))
            (fun '(d, t, c) => mkTransition d t c) _).
  by intros [].
Defined.

#[export] Instance Rule_eq_dec : EqDecision Rule.
Proof. solve_decision. Defined.
#[export] Instance Rule_countable : Countable Rule.
Proof.
  refine (inj_countable'
    (fun r => (rule_id r, rule_status r, rule_filter r, rule_expiration r,
               rule_noncurrent_version_expiration r, rule_transitions r))
    (fun '(i, s, f, e, n, t) => mkRule i s f e n t) _).
  by intros [].
Defined.

#[export] Instance LifecycleConfiguration_eq_dec : EqDecision LifecycleConfiguration.
Proof. solve_decision. Defined.
#[export] Instance LifecycleConfiguration_countable : Countable LifecycleConfiguration.
Proof. refine (inj_countable' rules mkLifecycle _). by intros []. Defined.

#[export] Instance Part_countable : Countable Part.
Proof.
  refine (inj_countable'
    (fun p => (p_part_number p, p_etag p, p_size p, p_crc32c p, p_last_modified p))
    (fun '(n, e, s, c, t) => mkPart n e s c t) _).
  by intros [].
Defined.

#[export] Instance MultipartUpload_countable : Countable MultipartUpload.
Proof.
  refine (inj_countable'
    (fun u => (u_upload_id u, u_key u, u_initiated u, u_content_type u, u_metadata u,
               u_provider_metadata u, u_parts u))
    (fun '(i, k, t, c, m, p, l) => mkUpload i k t c m p l) _).
  by intros [].
Defined.

(** *** Policy documents: JSON as a tree *)

Fixpoint tree_of_json (j : Json) : gen_tree (bool + string) :=
  match j with
  | JNull => GenNode 0 []
  | JBool b => GenNode 1 [GenLeaf (inl b)]
  | JNumber t => GenNode 2 [GenLeaf (inr t)]
  | JString s => GenNode 3 [GenLeaf (inr s)]
  | JArray l => GenNode 4 (map tree_of_json l)
  | JObject l => GenNode 5 (map (fun e => GenNode 6 [GenLeaf (inr e.1); tree_of_json e.2]) l)
  end.

Fixpoint json_of_tree (t : gen_tree (bool + string)) : Json :=
  match t with
  | GenNode 1 [GenLeaf (inl b)] => JBool b
  | GenNode 2 [GenLeaf (inr t)] => JNumber t
  | GenNode 3 [GenLeaf (inr s)] => JString s
  | GenNode 4 l => JArray (map json_of_tree l)
  | GenNode 5 l =>
      JObject (map (fun e => match e with
                             | GenNode _ [GenLeaf (inr k); v] => (k, json_of_tree v)
                             | _ => (EmptyString, JNull)
                             end) l)
  | _ => JNull
  end.

Lemma json_of_tree_of_json : forall j, json_of_tree (tree_of_json j) = j.
Proof.
  fix IH 1. intros [|b|t|s|l|l]; simpl; try done; f_equal.
  - induction l as [|j l IHl]; simpl; [done|]. f_equal; [apply IH|apply IHl].
  - induction l as [|[k j] l IHl]; simpl; [done|]. f_equal; [f_equal; apply IH|apply IHl].
Qed.

#[export] Instance Json_eq_dec : EqDecision Json.
Proof.
  refine (fun a b => match decide (tree_of_json a = tree_of_json b) with
                     | left e => left _ | right n => right _ end).
  - by rewrite <- (json_of_tree_of_json a), e, json_of_tree_of_json.
  - intros ->. by apply n.
Defined.
#[export] Instance Json_countable : Countable Json.
Proof. exact (inj_countable' tree_of_json json_of_tree json_of_tree_of_json). Defined.

#[export] Instance StringOrArray_eq_dec : EqDecision StringOrArray.
Proof. solve_decision. Defined.
#[export] Instance Principal_eq_dec : EqDecision Principal.
Proof. solve_decision. Defined.
#[export] Instance ActionList_eq_dec : EqDecision ActionList.
Proof. solve_decision. Defined.
#[export] Instance ResourceList_eq_dec : EqDecision ResourceList.
Proof. solve_decision. Defined.

#[export] Instance StringOrArray_countable : Countable StringOrArray.
Proof.
  refine (inj_countable' (fun x => match x with SoaSingle s => inl s | SoaMultiple l => inr l end)
            (fun x => match x with inl s => SoaSingle s | inr l => SoaMultiple l end) _).
  by intros [].
Defined.
#[export] Instance Principal_countable : Countable Principal.
Proof.
  refine (inj_countable' (fun x => match x with PrincipalAll s => inl s | PrincipalAWS l => inr l end)
            (fun x => match x with inl s => PrincipalAll s | inr l => PrincipalAWS l end) _).
  by intros [].
Defined.
#[export] Instance ActionList_countable : Countable ActionList.
Proof.
  refine (inj_countable' (fun x => match x with ActionSingle s => inl s | ActionMultiple l => inr l end)
            (fun x => match x with inl s => ActionSingle s | inr l => ActionMultiple l end) _).
  by intros [].
Defined.
#[export] Instance ResourceList_countable : Countable ResourceList.
Proof.
  refine (inj_countable' (fun x => match x with ResourceSingle s => inl s | ResourceMultiple l => inr l end)
            (fun x => match x with inl s => ResourceSingle s | inr l => ResourceMultiple l end) _).
  by intros [].
Defined.

#[export] Instance PolicyStatementDocument_eq_dec : EqDecision PolicyStatementDocument.
Proof. solve_decision. Defined.
#[export] Instance PolicyStatementDocument_countable : Countable PolicyStatementDocument.
Proof.
  refine (inj_countable'
    (fun s => (st_sid s, st_effect s, st_principal s, st_action s, st_resource s, st_condition s))
    (fun '(i, e, p, a, r, c) => mkStatement i e p a r c) _).
  by intros [].
Defined.

#[export] Instance BucketPolicyDocument_eq_dec : EqDecision BucketPolicyDocument.
Proof. solve_decision. Defined.
#[export] Instance BucketPolicyDocument_countable : Countable BucketPolicyDocument.
Proof.
  refine (inj_countable' (fun d => (pd_version d, pd_statement d)) (fun x => mkPolicyDocument x.1 x.2) _).
  by intros [].
Defined.

(** ** The instances *)

Definition countable_codec {A} `{Countable A} : Codec A := mkCodec to_bytes of_bytes.

Definition concrete_store_env : StoreEnv := {|
  identity_codec := countable_codec;
  strmap_codec := countable_codec;
  acl_codec := countable_codec;
  lifecycle_codec := countable_codec;
  policy_codec := countable_codec;
  upload_codec := countable_codec;
  uploads_codec := countable_codec;
  utf8_valid _ := true;
  file_created _ _ := Some 0%Z |}.

Lemma concrete_store_laws : @StoreEnvLaws concrete_store_env.
Proof. split; intros x; apply of_to_bytes. Qed.

(** A readable stand-in for the digests: the length, and a byte sum. *)
Definition concrete_digests : Digests := {|
  md5_hex b := pretty (N.of_nat (length b));
  crc32c_append c b := foldl (fun acc x => (acc + Byte.to_N x)%N) c b |}.

Definition concrete_upload_env : UploadEnv := {|
  hex_decode s := Some (as_bytes s);
  base64_be n := pretty n;
  parse_tags s := Some ∅ |}.

#[export] Existing Instance concrete_env.
#[export] Existing Instance concrete_env_laws.
#[export] Existing Instance concrete_store_env.
#[export] Existing Instance concrete_store_laws.
#[export] Existing Instance concrete_digests.
#[export] Existing Instance concrete_upload_env.

Abbreviation Store := (World SortedList.t).

Definition bucket : string := "b".
Definition keys : list string := ["a"; "dir/x"; "dir/y"].
Definition quiet (n : nat) : Sched := mkSched [] (fun k => N.of_nat (n + k)) (fun _ => 0%Z).

Definition text_object (key body : string) : Object :=
  new_with_metadata_and_etag 0%Z key (as_bytes body) "text/plain" ∅ "etag".
Definition body_of (key : string) : Object := text_object key ("body of " +:+ key).

(** What the store is to hold of [key]. *)
Definition content (key : string) : Object * bytes :=
  (with_version_id None (body_of key), o_data (body_of key)).

Definition blank : Store := mkWorld (<[ [] := Directory ]> ∅) new_index ∅ ∅.
Definition run {A} (p : io Store A) (n : nat) (w : Store) : Store := (p (quiet n) w).1.2.
Definition fresh : Store := run (create_bucket bucket) 0 blank.
Definition put_key (w : Store) (key : string) : Store := run (put_object bucket key (body_of key)) 100 w.
Definition filled : Store := foldl put_key fresh keys.

Lemma quiet_calm n : sched_ok calm (quiet n).
Proof. by split; [intros _; constructor|]. Qed.
#[export] Hint Resolve quiet_calm : sqrzl.

(** A run that cannot fail ends as its weakest precondition says. *)
Lemma run_calm {A} (p : io Store A) (Q : A -> Store -> Prop) n w :
  wp calm p Q (fun _ _ => False) (fun _ => False) w -> exists a, Q a (run p n w).
Proof.
  intros Hwp. destruct (wp_calm_run p Q w (quiet n) Hwp (quiet_calm n)) as (a & w' & σ' & Hrun & HQ).
  exists a. unfold run. by rewrite Hrun.
Qed.

Lemma blank_ok : ok (w_fs blank).
Proof.
  assert (forall q e, w_fs blank !! q = Some e -> e = Directory /\ q = []) as Hs.
  { intros q e. simpl. rewrite lookup_insert_Some, lookup_empty. naive_solver. }
  split; [done| |].
  - intros d n [e [_ He]%Hs]. by destruct (join_ne_nil d n).
  - by intros p Hp [_ ->]%Hs.
Qed.

Lemma fresh_created : exists t, created bucket t (w_fs fresh) /\
  w_index fresh = get_or_create_bucket (w_index blank) bucket.
Proof.
  destruct (run_calm (create_bucket bucket) (fun _ w' => exists t, created bucket t (w_fs w') /\
    w_index w' = get_or_create_bucket (w_index blank) bucket) 0 blank) as [_ Hc]; [|exact Hc].
  apply wp_create_bucket; [done|apply blank_ok|done|by eauto].
Qed.

(** The names of the directories tell the keys apart. *)
Lemma keys_apart k k' : k ∈ keys -> k' ∈ keys -> object_dir bucket k = object_dir bucket k' -> k = k'.
Proof.
  intros Hk Hk'. revert k' Hk'. revert k Hk.
  assert (Forall (fun k => Forall (fun k' => object_dir bucket k = object_dir bucket k' -> k = k') keys) keys) as Hall.
  { repeat constructor; vm_compute; congruence. }
  intros k Hk k' Hk'. rewrite list.Forall_forall in Hall. specialize (Hall k Hk).
  rewrite list.Forall_forall in Hall. by apply Hall.
Qed.

(** The store after some of the puts. *)
Record shelf (present : list string) (w : Store) : Prop := mkShelf {
  sh_index : idx_wf (w_index w);
  sh_dir : is_dir (bucket_dir bucket) (w_fs w) = true;
  sh_unversioned : unversioned bucket (w_fs w);
  sh_held : forall key, key ∈ keys ->
    held (object_dir bucket key) (if bool_decide (key ∈ present) then Some (content key) else None) (w_fs w) }.

Lemma shelf_put present key w : key ∈ keys -> shelf present w -> shelf (key :: present) (put_key w key).
Proof.
  intros Hk Hs. unfold put_key.
  destruct (run_calm (put_object bucket key (body_of key)) (fun _ w' =>
      arrived (object_dir bucket key) (w_fs w) no_input (pair_record (object_dir bucket key) (content key).1)
        (content key).2 (encode_object (content key).1) (w_fs w') /\
      w_index w' = index_insert (w_index w) bucket key) 100 w) as [_ [Ha Hi]].
  { eapply wp_put_unversioned; [apply Hs|by apply Hs|by intros q []|done|done|by auto|by intros ? ? ?]. }
  pose proof (stands_surroundings _ _ _ _ _ _ _ (arrived_stands _ _ _ _ _ _ _ Ha)) as Hsur.
  set (w' := run _ _ _) in *. split.
  - rewrite Hi. apply (index_step_wf (w_index w)); [constructor|apply Hs].
  - rewrite (agree_is_dir _ _ _ _ Hsur); [apply Hs|apply plain_bucket_dir|].
    intros [Hq|[[]|[_ Hq]]].
    + unfold object_dir, object_id_dir in Hq. by rewrite below_join_self in Hq.
    + pose proof (sh_dir _ _ Hs) as Hd. apply is_dir_true in Hd. congruence.
  - eapply (unversioned_kept _ key no_input); [by intros q []|exact Hsur|apply Hs].
  - intros k Hk'. destruct (decide (k = key)) as [->|Hne].
    + rewrite bool_decide_eq_true_2 by set_solver. eapply arrived_held; [| |exact Ha]; [by intros q []|done].
    + rewrite (bool_decide_ext (k ∈ key :: present) (k ∈ present)) by set_solver.
      eapply (held_frame (object_dir bucket key) _ _ no_input); [| |by intros q []|exact Hsur|by apply Hs].
      * apply apart_same_length; [done|]. intros Heq. apply Hne. symmetry. by apply keys_apart.
      * unfold object_dir, object_id_dir. rewrite parent_join. apply Hs.
Qed.

Lemma shelf_fresh : shelf [] fresh.
Proof.
  destruct fresh_created as (t & Hc & Hi). split.
  - rewrite Hi. apply (index_step_wf new_index); [constructor|apply new_index_wf].
  - apply Hc.
  - by eapply created_unversioned.
  - intros key _. by eapply created_no_objects.
Qed.

Lemma shelf_filled : shelf (reverse keys) filled.
Proof. apply (shelf_put ["dir/x"; "a"]), (shelf_put ["a"]), (shelf_put []), shelf_fresh; set_solver. Qed.

Lemma filled_keys : indexed_keys (w_index filled) bucket = keys.
Proof. vm_compute. reflexivity. Qed.

Lemma filled_held key : key ∈ keys -> held (object_dir bucket key) (Some (content key)) (w_fs filled).
Proof.
  intros Hk. pose proof (sh_held _ _ shelf_filled key Hk) as Hh.
  rewrite bool_decide_eq_true_2 in Hh; [done|]. by rewrite elem_of_reverse.
Qed.

Lemma filled_stocked : stocked bucket content filled.
Proof.
  split; [apply shelf_filled|apply shelf_filled| |]; rewrite filled_keys.
  - apply filled_held.
  - intros k k' Hk Hk' Heq. apply keys_apart; [done..|]. unfold object_dir. by rewrite Heq.
Qed.
