(* ===== verification/Witnesses.v ===== *)
(** * Witnesses: the theorems at concrete stores

    Each lemma applies one theorem to the stores of [Scenario], to a small
    index, or to a small in-memory store, with its hypotheses discharged. *)

From Stdlib Require Import Ascii Strings.Byte.
From S2P Require Import Prelude Text Models Policy SkipMap Index IndexFacts FsModel Publication FileFacts.
From S2P Require Import PublicationFacts ConcreteEnv PublicationSafety Lifecycle Storage StorageFacts.
From S2P Require Import ConditionFacts BucketFacts Versions VersionFacts Listing ListingFacts.
From S2P Require Import Multipart MultipartFacts Scenario.

(** ** The index *)

Definition small_index : LockFreeIndex SortedList.t :=
  index_insert (index_insert new_index "b" "dir/x") "b" "top".

Lemma small_index_reachable : index_reachable small_index.
Proof. eapply rtc_l; [apply step_insert|]. eapply rtc_l; [apply step_insert|]. apply rtc_refl. Qed.

Definition small_bucket : BucketIndex SortedList.t :=
  match sk_get "b" small_index with Some b => b | None => new_bucket_index end.

Lemma index_reachable_wf_witness :
  child (bi_children small_bucket) "" "dir/" = Some KCommonPrefix <->
  exists key, key ∈ sk_keys (bi_objects small_bucket) /\ directory_prefix "" /\
    Text.starts_with key "" = true /\ mkEntry "dir/" KCommonPrefix = delimited_entry "" "/" key.
Proof. apply (index_reachable_wf small_index small_index_reachable "b"). vm_compute. reflexivity. Defined.

Lemma index_updates_keys_witness :
  ("new" ∈ indexed_keys (index_insert small_index "b" "new") "b" <->
     "b" = "b" /\ "new" = "new" \/ "new" ∈ indexed_keys small_index "b") /\
  ("new" ∈ indexed_keys (index_remove small_index "b" "new").1 "b" <->
     "new" ∈ indexed_keys small_index "b" /\ ("b", "new") <> ("b", "new")) /\
  (index_remove small_index "b" "new").2 = index_contains small_index "b" "new" /\
  (index_contains small_index "b" "new" = true <-> "new" ∈ indexed_keys small_index "b").
Proof.
  apply (index_updates_keys small_index "b" "new" "b" "new"). apply reachable_wf, small_index_reachable.
Defined.

Lemma list_prefix_marker_is_scan_witness :
  list_prefix_marker small_index "b" (Some "dir/") None (Some 5%N) =
  capped (Some 5%N) (filter (wanted (Some "dir/") None) (indexed_keys small_index "b")) /\
  StronglySorted Text.lt (list_prefix_marker small_index "b" (Some "dir/") None (Some 5%N)).
Proof. apply list_prefix_marker_is_scan. Defined.

Lemma child_entries_equal_scan_witness :
  list_child_entries small_index "b" "dir/" None (Some 10%N) =
  scan_delimited_entries small_index (fun _ => true) "b" "dir/" "/" None 10.
Proof.
  apply child_entries_equal_scan; [apply reachable_wf, small_index_reachable|by right; exists "dir"|done|done].
Defined.

Lemma flat_pages_complete_witness :
  follow id 3 (fun marker limit => list_prefix_marker small_index "b" None marker (Some limit)) 1 None =
  filter (fun key => is_none_or (Text.starts_with key) None = true) (indexed_keys small_index "b").
Proof. apply flat_pages_complete; [done|]. vm_compute. lia. Defined.

Lemma filled_present key :
  key ∈ indexed_keys (w_index filled) bucket -> metadata_present filled bucket key = true.
Proof. intros Hk. eapply stocked_metadata; [apply filled_stocked|done]. Qed.

Lemma delimited_pages_complete_witness :
  follow e_path 4 (delimited_entries filled bucket "" "/") 1 None =
  listing (indexed_keys (w_index filled) bucket) "" "/" None (fun _ => true).
Proof.
  apply delimited_pages_complete; [apply shelf_filled|apply filled_present|done|].
  rewrite filled_keys. simpl. lia.
Defined.

(** ** Objects *)

Lemma a_listed : "a" ∈ keys.
Proof. set_solver. Qed.

Definition newer : Object := text_object "a" "a newer body".

Lemma put_then_get_witness :
  exists w' σ', (put_object bucket "a" newer;; get_object bucket "a") (quiet 500) filled
                = (Done (with_version_id None newer), w', σ') /\
    w_index w' = index_insert (w_index filled) bucket "a".
Proof.
  apply (put_then_get bucket "a" newer (Some (content "a")));
    [apply shelf_filled|apply filled_held, a_listed|reflexivity|apply quiet_calm].
Defined.

(** The process dies while the new pair is being put in place. *)
Definition killed (n : nat) : Sched :=
  mkSched (replicate n Go ++ [Crash (mkResidue 0 [])]) (fun k => N.of_nat (700 + k)) (fun _ => 0%Z).
Definition torn : outcome unit * Store * Sched := put_object bucket "a" newer (killed 22) filled.
Definition reread : outcome Object * Store * Sched := get_object bucket "a" (quiet 900) torn.1.2.

Lemma interrupted_put_reads_old_or_new_witness :
  torn.1.1 = Crashed /\
  (forall r, reread.1.1 = Done r ->
     r = with_version_id None newer \/
     torn.1.1 <> Done tt /\ exists old b, Some (content "a") = Some (old, b) /\ r = with_data b (strip_data old)) /\
  (sched_ok calm (quiet 900) ->
     (exists r, reread.1.1 = Done r) \/
     reread.1.1 = Failed KeyNotFound /\ Some (content "a") = None /\ torn.1.1 <> Done tt).
Proof.
  split; [vm_compute; reflexivity|].
  apply (interrupted_put_reads_old_or_new bucket "a" newer (Some (content "a")) filled torn.1.2 torn.1.2
    reread.1.2 (killed 22) torn.1.1 torn.2 (quiet 900) reread.1.1 reread.2).
  - apply shelf_filled.
  - apply filled_held, a_listed.
  - reflexivity.
  - apply PublicationSafety.Example.run_eta.
  - reflexivity.
  - apply PublicationSafety.Example.run_eta.
Defined.

Lemma put_leaves_other_objects_witness :
  held (object_dir bucket "dir/x") (Some (content "dir/x")) (w_fs torn.1.2).
Proof.
  apply (put_leaves_other_objects bucket "a" newer (Some (content "a")) bucket "dir/x"
    (Some (content "dir/x")) filled torn.1.2 (killed 22) torn.1.1 torn.2).
  - apply shelf_filled.
  - apply filled_held, a_listed.
  - reflexivity.
  - intros Heq%keys_apart; [done|set_solver..].
  - apply shelf_filled.
  - apply filled_held. set_solver.
  - apply PublicationSafety.Example.run_eta.
Defined.

Lemma delete_then_get_witness :
  exists w1 σ1, delete_object bucket "a" (quiet 500) filled = (Done tt, w1, σ1) /\
    w_index w1 = (index_remove (w_index filled) bucket "a").1 /\
    (exists w2 σ2, get_object bucket "a" σ1 w1 = (Failed KeyNotFound, w2, σ2)) /\
    (exists w2 σ2, delete_object bucket "a" σ1 w1 = (Failed KeyNotFound, w2, σ2)) /\
    forall bucket' key' x, object_dir bucket' key' <> object_dir bucket "a" ->
      is_dir (bucket_dir bucket') (w_fs filled) = true ->
      held (object_dir bucket' key') x (w_fs filled) -> held (object_dir bucket' key') x (w_fs w1).
Proof.
  apply (delete_then_get bucket "a" (content "a").1 (content "a").2);
    [apply shelf_filled|apply filled_held, a_listed|apply quiet_calm].
Defined.

(** ** Conditional writes, ranges and metadata *)

Lemma put_object_if_compare_and_set_witness :
  exists w' σ', put_object_if bucket "a" newer Missing (quiet 500) filled = (Done false, w', σ') /\
    held (object_dir bucket "a") (Some (content "a")) (w_fs w') /\ w_index w' = w_index filled.
Proof.
  apply (put_object_if_compare_and_set bucket "a" newer Missing (Some (content "a")) filled (quiet 500));
    [apply shelf_filled|apply filled_held, a_listed|reflexivity|apply quiet_calm].
Defined.

Lemma range_read_is_slice_witness :
  exists w' σ', get_object_range bucket "a" 2 (Some 4%N) (quiet 500) filled =
    (Done (strip_data (content "a").1, [Byte.x64; Byte.x79; Byte.x20]), w', σ').
Proof.
  apply (range_read_is_slice bucket "a" (content "a").1 (content "a").2 2 (Some 4%N) filled (quiet 500));
    [apply filled_held, a_listed|apply quiet_calm].
Defined.

Definition tagged (o : Object) : Object := with_tags (<["t" := "1"]> ∅) o.
Definition retagged : outcome unit * Store * Sched := update_metadata bucket "a" tagged (killed 2) filled.

Lemma metadata_update_atomic_witness :
  (held (object_dir bucket "a") (Some (tagged (strip_data (content "a").1), (content "a").2)) (w_fs retagged.1.2) \/
   retagged.1.1 <> Done tt /\ held (object_dir bucket "a") (Some (content "a")) (w_fs retagged.1.2)) /\
  (sched_ok calm (killed 2) -> retagged.1.1 = Done tt) /\ w_index retagged.1.2 = w_index filled.
Proof.
  apply (metadata_update_atomic bucket "a" tagged (content "a").1 (content "a").2 filled retagged.1.2
    (killed 2) retagged.1.1 retagged.2).
  - apply filled_held, a_listed.
  - reflexivity.
  - apply PublicationSafety.Example.run_eta.
Defined.

Definition described : Object := with_tags ∅ (text_object "a" "x").
Definition replaced : outcome bool * Store * Sched :=
  replace_object_metadata_if_unchanged bucket "a" (content "a").1 described (quiet 500) filled.

Lemma replace_metadata_compare_and_set_witness :
  match replaced.1.1 with
  | Done true => unchanged (strip_data (content "a").1) (content "a").1 = true /\
      held (object_dir bucket "a") (Some (described_as described (strip_data (content "a").1), (content "a").2))
        (w_fs replaced.1.2)
  | Done false => unchanged (strip_data (content "a").1) (content "a").1 = false /\
      held (object_dir bucket "a") (Some (content "a")) (w_fs replaced.1.2)
  | _ => ~ sched_ok calm (quiet 500) /\
      (held (object_dir bucket "a") (Some (content "a")) (w_fs replaced.1.2) \/
       unchanged (strip_data (content "a").1) (content "a").1 = true /\
       held (object_dir bucket "a") (Some (described_as described (strip_data (content "a").1), (content "a").2))
         (w_fs replaced.1.2))
  end.
Proof.
  apply (replace_metadata_compare_and_set bucket "a" (content "a").1 described (content "a").1 (content "a").2
    filled replaced.1.2 (quiet 500) replaced.1.1 replaced.2).
  - apply filled_held, a_listed.
  - apply PublicationSafety.Example.run_eta.
Defined.

(** ** Buckets *)

Definition refused : outcome unit * Store * Sched := delete_bucket bucket (quiet 500) filled.

Lemma held_present `{EnvLaws} d x fs : held d (Some x) fs -> is_Some (fs !! d).
Proof.
  destruct x as [o b]. intros [Hs Hp _]. exists Directory. apply (ok_parent _ (se_ok _ _ Hs) _ META).
  unfold pair_at in Hp. injection Hp as _ Hm. by rewrite Hm.
Qed.

Lemma delete_bucket_refuses_objects_witness :
  refused.1.1 <> Done tt /\ refused.1.2 = filled /\
  (ok (w_fs filled) -> sched_ok calm (quiet 500) -> refused.1.1 = Failed BucketNotEmpty).
Proof.
  apply (delete_bucket_refuses_objects bucket "a" filled refused.1.2 (quiet 500) refused.1.1 refused.2).
  - apply (held_present _ (content "a")), filled_held, a_listed.
  - apply PublicationSafety.Example.run_eta.
Defined.

Lemma fresh_bucket_ok : bucket_ok bucket (w_fs fresh).
Proof. destruct fresh_created as (t & Hc & _). by eapply created_bucket_ok. Qed.

Lemma fresh_document : document_name bucket ".policy.json" (w_fs fresh).
Proof.
  destruct fresh_created as (t & Hc & _). split_and!; [done|by rewrite scratch_join|].
  unfold is_dir. by rewrite (cr_rest _ _ _ Hc); [..|rewrite scratch_join].
Qed.

Lemma sidecar_round_trip_witness :
  exists w' σ', (put_sidecar policy_codec ".policy.json" bucket (mkPolicyDocument "2012-10-17" []);;
                 get_sidecar policy_codec ".policy.json" bucket) (quiet 500) fresh
                = (Done (mkPolicyDocument "2012-10-17" []), w', σ') /\
    bucket_ok bucket (w_fs w') /\ w_index w' = w_index fresh.
Proof.
  apply (sidecar_round_trip policy_codec ".policy.json" bucket (mkPolicyDocument "2012-10-17" []) fresh
    (quiet 500)); [apply dec_enc_policy|apply fresh_bucket_ok|apply fresh_document|apply quiet_calm].
Defined.

Lemma create_then_get_bucket_witness :
  exists t w' σ', (create_bucket bucket;; get_bucket bucket) (quiet 0) blank
                  = (Done (mkBucket bucket t t false None [] ∅ None), w', σ') /\
    bucket_ok bucket (w_fs w') /\ unversioned bucket (w_fs w') /\
    w_index w' = get_or_create_bucket (w_index blank) bucket /\
    (forall key, held (object_dir bucket key) None (w_fs w')) /\
    exists w'' σ'', create_bucket bucket σ' w' = (Failed BucketAlreadyExists, w'', σ'').
Proof. apply create_then_get_bucket; [apply blank_ok|reflexivity|apply quiet_calm]. Defined.

Lemma fresh_entries n :
  is_Some (w_fs fresh !! join (bucket_dir bucket) n) ->
  is_bucket_control_entry (bucket_dir bucket) n (w_fs fresh) = true.
Proof.
  intros Hn%elem_of_children_of. revert n Hn. apply list.Forall_forall. vm_compute. repeat constructor.
Qed.

Lemma delete_empty_bucket_witness :
  exists w' σ', delete_bucket bucket (quiet 500) fresh = (Done tt, w', σ') /\
    w_index w' = clear_bucket (w_index fresh) bucket /\
    forall q, w_fs w' !! q = if below (bucket_dir bucket) q then None else w_fs fresh !! q.
Proof.
  apply delete_empty_bucket; [apply fresh_bucket_ok|apply fresh_bucket_ok|apply fresh_entries|apply quiet_calm].
Defined.

(** ** Listings *)

Lemma flat_page_contents_witness :
  exists w' σ', list_objects bucket (Some "dir/") None None (Some 1%N) (quiet 500) filled =
    (Done (flat_page bucket content (Some "dir/") None (Some 1%N) filled), w', σ') /\
    stocked bucket content w' /\ w_index w' = w_index filled.
Proof. apply flat_page_contents; [apply filled_stocked|apply quiet_calm]. Defined.

Lemma delimited_page_contents_witness :
  let entries := take 11 (listing (indexed_keys (w_index filled) bucket) "" "/" None (fun _ => true)) in
  let page := take 10 entries in
  exists w' σ', list_objects bucket None (Some "/") None (Some 10%N) (quiet 500) filled =
    (Done (mkListing
       (e_path <$> filter (fun e => is_object_entry e = false) page)
       ((fun e => strip_data (content (e_path e)).1) <$> filter (fun e => is_object_entry e = true) page)
       (10 <? N.of_nat (length entries))%N (page_marker e_path entries 10)), w', σ') /\
    stocked bucket content w' /\ w_index w' = w_index filled.
Proof.
  exact (delimited_page_contents bucket content None "/"%char "" None (Some 10%N) filled (quiet 500)
    filled_stocked (quiet_calm 500)).
Defined.

Lemma zero_page_skips_first_key_witness :
  exists w' σ', list_objects bucket None None None (Some 0%N) (quiet 500) filled
                = (Done (mkListing [] [] true (Some "a")), w', σ') /\
    exists r w'' σ'', list_objects bucket None None (Some "a") (Some 5%N) σ' w' = (Done r, w'', σ'') /\
      l_objects r = (fun k => strip_data (content k).1) <$> ["dir/x"; "dir/y"].
Proof.
  apply (zero_page_skips_first_key bucket content None "a" ["dir/x"; "dir/y"] 5 filled (quiet 500));
    [apply filled_stocked|apply quiet_calm|done|]. rewrite filled_keys. vm_compute. reflexivity.
Defined.

(** Versioning is turned on and one of the objects is written again. *)
Definition versioned : Store :=
  run (put_object bucket "a" newer) 400 (run (enable_versioning bucket) 300 filled).
Definition listing_run : outcome (list Object) * Store * Sched :=
  list_object_versions bucket None (quiet 500) versioned.
Definition listed : list Object := match listing_run.1.1 with Done l => l | _ => [] end.

Lemma version_listing_has_no_duplicates_witness :
  map o_key listed = ["a"; "a"; "dir/x"; "dir/y"] /\
  StronglySorted (fun a b => key_version_le a b /\ ~ key_version_le b a) listed /\
  (forall a b, a ∈ listed -> b ∈ listed -> o_key a = o_key b -> o_version_id a = o_version_id b -> a = b).
Proof.
  split; [vm_compute; reflexivity|].
  apply (version_listing_has_no_duplicates bucket None (quiet 500) versioned listing_run.1.2 listed listing_run.2).
  unfold listed. change (list_object_versions bucket None (quiet 500) versioned) with listing_run.
  assert (match listing_run.1.1 with Done _ => true | _ => false end = true) as Hd by (vm_compute; reflexivity).
  destruct listing_run as [[[l|e|] w'] σ']; [reflexivity|discriminate Hd..].
Defined.

(** ** Multipart uploads *)

Definition part (n : N) (b : bytes) : Part := mkPart n (md5_hex b) (size_of b) (Some (crc_of 0 b)) 0%Z.

Lemma put_part_updates_map_witness :
  StronglySorted part_lt (put_part (part 2 [Byte.x01]) [part 1 []; part 3 []]) /\
  part_at 2 (put_part (part 2 [Byte.x01]) [part 1 []; part 3 []]) = Some (part 2 [Byte.x01]).
Proof.
  apply (put_part_updates_map (part 2 [Byte.x01]) [part 1 []; part 3 []] 2).
  repeat constructor.
Defined.

(** Two part files in the directory of an upload. *)
Definition spool : path := ["spool"].
Definition uploaded : fs :=
  <[part_path "b" "u" 1 := File [Byte.x61]]> (<[part_path "b" "u" 2 := File [Byte.x62; Byte.x63]]>
  (<[ [] := Directory ]> ∅)).

Lemma assemble_concatenates_witness :
  exists σ', assemble "b" "u" spool [part 1 [Byte.x61]; part 2 [Byte.x62; Byte.x63]]
      (mkCompletion (Some (foldl crc_of 0%N [[Byte.x61]; [Byte.x62; Byte.x63]])) None None false)
      (quiet 500) uploaded =
    (Done (foldl crc_of 0%N [[Byte.x61]; [Byte.x62; Byte.x63]]),
     <[spool := File [Byte.x61; Byte.x62; Byte.x63]]> uploaded, σ').
Proof.
  apply (assemble_concatenates "b" "u" spool _ [[Byte.x61]; [Byte.x62; Byte.x63]]).
  - vm_compute. reflexivity.
  - vm_compute. reflexivity.
  - intros n Heq. apply (f_equal length) in Heq. unfold part_path, join in Heq.
    rewrite length_app in Heq. simpl in Heq. lia.
  - repeat constructor; try (vm_compute; reflexivity); by intros c [= <-].
  - by intros c [= <-].
  - apply quiet_calm.
Defined.

(** * Overwriting in a bucket with versioning on

    The store of [Scenario] with the versioning marker written, and the
    theorems of [VersionFacts] applied to an overwrite of its key [a]. *)

Definition kept_versions : Store :=
  mkWorld (<[versioning_marker bucket := File ENABLED]> (w_fs filled)) (w_index filled)
    (w_uploads_cache filled) (w_azure_protection_possible filled).

Abbreviation a_dir := (object_dir bucket "a").

Lemma filled_ok : ok (w_fs filled).
Proof. apply (se_ok _ _ (held_settled _ _ _ (filled_held "a" a_listed))). Qed.

Lemma marker_agrees : agree (at_path (versioning_marker bucket)) (w_fs filled) (w_fs kept_versions).
Proof.
  apply agree_insert_file; [done| | |apply join_ne_nil].
  - unfold versioning_marker. rewrite parent_join. apply shelf_filled.
  - vm_compute. reflexivity.
Qed.

Lemma kept_versions_on : VersionFacts.versioned bucket (w_fs kept_versions).
Proof. split; [vm_compute; reflexivity|]. exists ENABLED. split; [apply lookup_insert_eq|done]. Qed.

Lemma kept_versions_ok : ok (w_fs kept_versions).
Proof. apply marker_agrees, filled_ok. Qed.

Lemma kept_versions_dir : is_dir a_dir (w_fs kept_versions) = true.
Proof. vm_compute. reflexivity. Qed.

Lemma kept_versions_held : held a_dir (Some (content "a")) (w_fs kept_versions).
Proof.
  eapply held_kept; [apply marker_agrees| | |apply filled_held, a_listed].
  - intros q (n & rest & ->) Hq. apply (f_equal length) in Hq. rewrite length_app in Hq. simpl in Hq. lia.
  - apply dir_creatable; [apply kept_versions_ok|apply kept_versions_dir].
Qed.

(** The object has no history yet. *)
Lemma kept_versions_none : held (ver a_dir "null") None (w_fs kept_versions).
Proof.
  assert (forall q, below (join a_dir "versions") q = true -> w_fs kept_versions !! q = None) as Hnone.
  { intros q. apply ok_absent_below; [apply kept_versions_ok|]. vm_compute. reflexivity. }
  assert (forall q, inside (ver a_dir "null") q -> w_fs kept_versions !! q = None) as Hin.
  { intros q (n & rest & ->). apply Hnone, below_spec. exists ("null" :: n :: rest).
    unfold ver, join. by rewrite <- !app_assoc. }
  split; [|unfold pair_at; by rewrite !Hin by (by eexists _, [])|done].
  split; [apply kept_versions_ok| |apply Hin; by exists JOURNAL, []|].
  - split; intros q; [intros Hq%file_path_inside|intros b Hq%dir_path_inside]; by rewrite Hin.
  - intros q [<-|Hq]%below_parent; [split; [done|by rewrite Hnone]|].
    unfold ver in Hq. rewrite parent_join in Hq. apply below_parent in Hq as [<-|Hq]; [split; [done|by rewrite Hnone by apply below_refl]|].
    rewrite parent_join in Hq. exact (dir_creatable _ _ kept_versions_ok kept_versions_dir q Hq).
Qed.

Definition replaced_a : outcome unit * Store * Sched := put_object bucket "a" newer (killed 30) kept_versions.

Definition replaced_whole : outcome unit * Store * Sched := put_object bucket "a" newer (quiet 500) kept_versions.

(** Killed at its thirtieth call the put loses nothing; left alone it ends under a drawn id. *)
Lemma overwrite_never_loses_old_witness :
  (replaced_a.1.1 = Crashed /\
   (held a_dir (Some (content "a")) (w_fs replaced_a.1.2) \/
    held (ver a_dir "null") (Some (archived (content "a").1, (content "a").2)) (w_fs replaced_a.1.2))) /\
  held (ver a_dir "null") (Some (archived (content "a").1, (content "a").2)) (w_fs replaced_whole.1.2) /\
  exists u, drawn_id (quiet 500) u /\ held a_dir (Some (with_version_id (Some u) newer, o_data newer)) (w_fs replaced_whole.1.2).
Proof.
  pose proof (fun w1 σ out σ1 Hrun => overwrite_never_loses_old bucket "a" newer (content "a").1 (content "a").2 None kept_versions
    w1 σ out σ1 kept_versions_on kept_versions_held kept_versions_none eq_refl Hrun) as Hput.
  split; [split; [vm_compute; reflexivity|]|].
  - apply (Hput replaced_a.1.2 (killed 30) replaced_a.1.1 replaced_a.2), PublicationSafety.Example.run_eta.
  - destruct (Hput replaced_whole.1.2 (quiet 500) replaced_whole.1.1 replaced_whole.2) as (_ & Hok & Hdone);
      [apply PublicationSafety.Example.run_eta|].
    destruct (Hok (Hdone (quiet_calm 500))) as [Hv (u & Hu & Hh & _)]. split; [exact Hv|]. exists u. split; [exact Hu|exact Hh].
Defined.

Lemma overwritten_version_readable_witness :
  exists w' σ', (put_object bucket "a" newer;; get_object_version bucket "a" "null") (quiet 500) kept_versions
    = (Done (with_version_id (Some "null") (with_data (content "a").2 (content "a").1)), w', σ').
Proof.
  apply (overwritten_version_readable bucket "a" newer (content "a").1 (content "a").2 None kept_versions
    (quiet 500));
    [apply kept_versions_on|apply kept_versions_held|apply kept_versions_none|reflexivity|reflexivity|apply quiet_calm].
Defined.
