(* ===== verification/LifecycleWitnesses.v ===== *)
(** * LifecycleWitnesses: the lifecycle theorems at concrete stores

    An expiration rule on the store of [Scenario], and the executor over a small
    in-memory store that satisfies the interface [Guarded]. *)

From S2P Require Import Prelude Text Models SkipMap Index IndexFacts FsModel Publication FileFacts.
From S2P Require Import PublicationFacts ConcreteEnv PublicationSafety Lifecycle Storage.
From S2P Require Import StorageFacts Versions Listing ListingFacts Scenario.
From S2P Require Import LifecycleExecutor LifecycleFacts.

#[local] Instance no_dates : Chrono := {|
  parse_date _ := None; parse_rfc3339 _ := None; parse_rfc2822 _ := None |}.
#[local] Instance listed_order : HashOrder := {|
  hash_order _ l := l; hash_order_perm _ l := Permutation_refl l |}.

(** Objects whose key starts with [dir/] are to go after a day. *)
Definition tidy : Rule :=
  mkRule None RuleEnabled (Some (mkFilter (Some "dir/") [])) (Some (mkExpiration (Some 1%N) None None)) None [].

Definition later : time := (2 * NS_PER_DAY)%Z.

Lemma expiration_rule_exact_witness :
  exists w' σ', apply_current_object_rule bucket tidy later (quiet 500) filled = (Done tt, w', σ') /\
    (forall key, key ∈ indexed_keys (w_index filled) bucket -> held (object_dir bucket key)
       (if expired tidy later (content key).1 then None else Some (content key)) (w_fs w')) /\
    (forall key, key ∈ indexed_keys (w_index w') bucket <->
       key ∈ indexed_keys (w_index filled) bucket /\ expired tidy later (content key).1 = false).
Proof.
  apply (expiration_rule_exact bucket content tidy later filled (quiet 500)).
  - apply filled_stocked.
  - apply shelf_filled.
  - rewrite filled_keys. simpl. lia.
  - reflexivity.
  - reflexivity.
  - apply quiet_calm.
Defined.

(** *** Deleted objects under a noncurrent-version rule

    In a bucket with versioning an object under legal hold is put and then
    deleted, so that a delete marker hides it. *)
Definition on_hold : Object :=
  with_provider_metadata (<["s3_object_lock_legal_hold" := "ON"]> ∅) (text_object "k" "held").
Definition hidden : Store :=
  run (delete_object bucket "k") 800
    (run (put_object bucket "k" on_hold) 600 (run (enable_versioning bucket) 400 fresh)).
Definition old_versions_go : Rule :=
  mkRule None RuleEnabled None None (Some (mkNoncurrent 1)) [].
Definition swept_store : Store := run (apply_noncurrent_version_rule bucket old_versions_go later) 1000 hidden.

(** [noncurrent_rule_reveals_deleted_object]. An example: on a store where a
    versioned object under legal hold was deleted, the executor of a
    noncurrent-version rule removes the current delete marker as if it were
    noncurrent, and the object is readable again. *)
Theorem noncurrent_rule_reveals_deleted_object :
  (get_object bucket "k" (quiet 2000) hidden).1.1 = Failed KeyNotFound /\
  exists o, (get_object bucket "k" (quiet 2000) swept_store).1.1 = Done o /\ o_data o = o_data on_hold.
Proof. split; [vm_compute; reflexivity|]. eexists. split; vm_compute; reflexivity. Qed.

(** A store in memory, with one bucket and its objects by key, whose lifecycle
    configuration expires everything. *)
Module Memory.

Abbreviation state := (gmap string Object).
Definition purge : LifecycleConfiguration :=
  mkLifecycle [mkRule None RuleEnabled None (Some (mkExpiration (Some 0%N) None None)) (Some (mkNoncurrent 0)) []].

Definition all_objects (s : state) : list Object := (map_to_list s).*2.
Definition lookup_object (key : string) : io state Object :=
  o ← gets (fun s : state => s !! key); match o with Some o => mret o | None => fail KeyNotFound end.

Definition remove_key (bucket key : string) : io state unit :=
  if eqb bucket "b" then modify (delete key) else fail BucketNotFound.

#[local] Instance memory_storage : StorageOps state := {|
  st_list_buckets := mret [Models.new_bucket 0%Z "b"];
  st_get_bucket name := mret (Models.new_bucket 0%Z name);
  st_get_bucket_lifecycle _ := mret purge;
  st_list_objects _ _ _ _ _ := l ← gets all_objects; mret (mkListing [] l false None);
  st_get_object _ := lookup_object;
  st_get_object_metadata _ := lookup_object;
  st_get_object_tags _ key := o ← lookup_object key; mret (o_tags o);
  st_list_object_versions _ _ := gets all_objects;
  st_delete_object := remove_key;
  st_delete_object_version bucket key _ := remove_key bucket key;
  st_update_object_storage_class _ key class := modify (alter (with_storage_class class) key) |}.

Definition plain_object : Object := text_object "plain" "x".
Definition locked : Object := with_provider_metadata (<["s3_object_lock_legal_hold" := "ON"]> ∅) (text_object "locked" "y").
Definition two : state := <["plain" := plain_object]> (<["locked" := locked]> ∅).

(** Each object is under its own key, and the locked one is there. *)
Definition keyed (s : state) : Prop :=
  (forall key o, s !! key = Some o -> o_key o = key) /\
  exists o, s !! "locked" = Some o /\ o_provider_metadata o = o_provider_metadata locked.
Definition is_locked (o : Object) : Prop := o_provider_metadata o = o_provider_metadata locked.

Lemma all_objects_locked s o : keyed s -> o ∈ all_objects s -> o_key o = "locked" -> is_locked o.
Proof.
  intros [Hk (o' & Ho' & Hl)] Hin He. apply list_elem_of_fmap in Hin as ([k x] & -> & Hin).
  apply elem_of_map_to_list in Hin. cbn [snd] in *.
  rewrite (Hk _ _ Hin) in He. subst k. by injection (eq_trans (eq_sym Ho') Hin) as <-.
Qed.

Lemma wp_lookup key Q E (C : state -> Prop) s :
  (forall o, s !! key = Some o -> Q o s) -> E KeyNotFound s -> wp any_schedule (lookup_object key) Q E C s.
Proof.
  intros HQ HE. unfold lookup_object. apply wp_bind, wp_gets.
  destruct (s !! key) eqn:Ho; [apply wp_ret; auto|by apply wp_fail].
Qed.

Lemma keyed_delete key s : key <> "locked" -> keyed s -> keyed (delete key s).
Proof.
  intros Hne [Hk (o & Ho & Hl)]. split.
  - intros k x [_ ?]%lookup_delete_Some. eauto.
  - exists o. by rewrite lookup_delete_ne.
Qed.

Lemma wp_remove_key b k s :
  (b, k) <> ("b", "locked") -> keyed s ->
  wp any_schedule (remove_key b k) (fun _ => keyed) (fun _ => keyed) keyed s.
Proof.
  intros Hne Hs. unfold remove_key. destruct (eqb b "b") eqn:Eb; [|by apply wp_fail].
  rewrite eqb_true in Eb. apply wp_modify, keyed_delete; [|done]. naive_solver.
Qed.

Lemma guarded : @Guarded state _ any_schedule "b" "locked" keyed is_locked.
Proof.
  split; try (intros; intros s Hs; by apply wp_ret).
  - intros b k s Hs. by apply wp_lookup.
  - intros b k s Hs. apply wp_bind, wp_lookup; [|done]. intros. by apply wp_ret.
  - intros b k s Hs. apply wp_lookup; [|done]. intros o Ho. split; [done|]. intros _ ->.
    destruct Hs as [_ (o' & Ho' & Hl)]. by injection (eq_trans (eq_sym Ho') Ho) as <-.
  - intros b p d mk n s Hs. apply wp_bind, wp_gets, wp_ret. split; [done|]. intros _ o Ho.
    by eapply all_objects_locked.
  - intros b p s Hs. apply wp_gets. split; [done|]. intros _ o Ho. by eapply all_objects_locked.
  - intros b k c s [Hk (o & Ho & Hl)]. apply wp_modify. split.
    + intros k' x. rewrite lookup_alter_Some. intros [(<- & y & Hy & ->)|[_ Hx]]; [by apply Hk in Hy|by apply Hk].
    + destruct (decide (k = "locked")) as [->|Hne].
      * exists (with_storage_class c o). rewrite lookup_alter_eq, Ho. done.
      * exists o. by rewrite lookup_alter_ne.
  - intros b k Hne s Hs. by apply wp_remove_key.
  - intros b k v Hne s Hs. by apply wp_remove_key.
Qed.

Lemma two_keyed : keyed two.
Proof.
  split.
  - intros k o. unfold two. rewrite !lookup_insert_Some, lookup_empty. naive_solver.
  - by exists locked.
Qed.

Lemma lifecycle_spares_protected_objects_witness :
  (forall out s' σ', execute_lifecycle_rules (quiet 0) two = (out, s', σ') -> keyed s') /\
  (forall b k out s' σ', check_object_expiration b k (quiet 0) two = (out, s', σ') -> keyed s').
Proof.
  apply (lifecycle_spares_protected_objects "b" "locked" keyed is_locked two (quiet 0) guarded).
  - intros o now Hl. unfold object_has_active_data_protection. by rewrite Hl.
  - apply two_keyed.
Defined.

(** The other object does go. *)
Example plain_object_expires :
  (execute_lifecycle_rules (quiet 0) two).1.2 = <["locked" := locked]> ∅.
Proof. vm_compute. reflexivity. Qed.
End Memory.
