(* ===== verification/Capture.v ===== *)
(** * Capture: [src/capture.rs] and [src/capture/budget.rs]

    Captured messages are published in transactions: an intent listing the
    destinations is written to the journal directory, then every file, then a
    marker that decides the transaction.  Readers disregard what no marker
    covers; opening a store, and every commit, first undoes the transactions
    without one.  The budget bounds what one capture may materialize.

    The hooks of [commit_with_hook] are test instrumentation and return at once
    in a build without tests; they are left out. *)

From Stdlib Require Import Ascii.
From S2P Require Import Prelude Text Models Utf8 FsModel Publication FileFacts.

(** * The further [std::fs] calls of message capture

    [create_dir_all], files opened with [create_new], a file written in two
    parts, and the removal of a file that may be absent, with their rules. *)

(** ** Calls *)

(** [mkdir]: whether the directory was created; [false] is [NotFound]. *)
Definition mkdir (msg : string) (p : path) : io fs bool :=
  sys msg (fun _ s =>
    if is_dir (parent p) s && negb (path_exists p s) then Some (true, <[p := Directory]> s)
    else if path_exists (parent p) s then None else Some (false, s)) untouched.

(** [fs::create_dir_all], going up the path: [rp] is the path, last component
    first. *)
Fixpoint create_dir_all_rev (msg : string) (rp : list string) : io fs unit :=
  let p := reverse rp in
  let unless_dir (e : Error) : io fs unit :=
    dir ← gets (is_dir p); if (dir : bool) then mret tt else fail e in
  r ← attempt (mkdir msg p);
  match r with
  | Ok true => mret tt
  | Err e => unless_dir e
  | Ok false =>
      match rp with
      | [] => fail (InternalError msg)
      | _ :: rparent =>
          create_dir_all_rev msg rparent;;
          again ← attempt (mkdir msg p);
          match again with
          | Ok true => mret tt
          | Ok false => unless_dir (InternalError msg)
          | Err e => unless_dir e
          end
      end
  end.
Definition create_dir_all (msg : string) (p : path) : io fs unit :=
  create_dir_all_rev msg (reverse p).

(** [OpenOptions::new().write(true).create_new(true).open(p)] *)
Definition create_new_file (msg : string) (p : path) : io fs unit :=
  sys msg (fun _ s => if is_dir (parent p) s && negb (path_exists p s)
                      then Some (tt, <[p := File []]> s) else None) untouched.

(** [file.write_all(bytes)] after earlier writes *)
Definition append_all (msg : string) (p : path) (b : bytes) : io fs unit :=
  sys msg (fun _ s => match s !! p with
                      | Some (File b0) => Some (tt, <[p := File (b0 ++ b)]> s)
                      | _ => None end)
      (fun r s => match s !! p with
                  | Some (File b0) => <[p := File (b0 ++ take (written r) b)]> s
                  | _ => s end).

(** [Path::extension] of a file name *)
Definition extension (name : string) : option string :=
  match Utf8.rfind "."%char name with
  | Some (S n) => Some (Text.slice_from (S (S n)) name)
  | _ => None
  end.

(** [Path::file_stem] of a file name *)
Definition file_stem (name : string) : string :=
  match Utf8.rfind "."%char name with
  | Some (S n) => Text.slice_to (S n) name
  | _ => name
  end.

(** [fs::remove_file] with [NotFound] and [NotADirectory] accepted *)
Definition remove_file_if_present (msg : string) (p : path) : io fs unit :=
  sys msg (fun _ s => match s !! p with
                      | Some (File _) => Some (tt, delete p s)
                      | None => Some (tt, s)
                      | Some Directory => None end) untouched.

(** [fs::remove_dir_all] with [NotFound] accepted *)
Definition remove_dir_all_if_present (msg : string) (p : path) : io fs unit :=
  sys msg (fun _ s => match s !! p with
                      | Some Directory => Some (tt, filter (fun e => below p e.1 = false) s)
                      | None => Some (tt, s)
                      | Some (File _) => None end)
    (fun r s => if is_dir p s
                then filter (fun e => below p e.1 = false \/ existsb (below e.1) (kept r) = true) s
                else s).

(** [fs::read] with the error [NotFound] told apart *)
Definition read_if_present (msg : string) (p : path) : io fs (option bytes) :=
  sys msg (fun _ s => match s !! p with
                      | Some (File b) => Some (Some b, s)
                      | None => Some (None, s)
                      | Some Directory => None end) untouched.

(** ** Rules *)

Section Rules.
Context `{EnvLaws} {m : mode}.
Abbreviation fails := (@fails m).

Lemma wp_create_new_file msg p Q E C s :
  is_dir (parent p) s = true -> s !! p = None ->
  Q tt (<[p := File []]> s) -> fails E C s -> wp m (create_new_file msg p) Q E C s.
Proof.
  intros Hd Hn HQ HF. apply wp_sys; [|intros ? ?; by eapply HF..].
  intros _. by rewrite Hd, (proj2 (path_exists_false _ _) Hn).
Qed.

Lemma wp_append_all msg p b b0 Q E C s :
  s !! p = Some (File b0) -> Q tt (<[p := File (b0 ++ b)]> s) ->
  (forall b', fails E C (<[p := File b']> s)) -> wp m (append_all msg p b) Q E C s.
Proof.
  intros Hp HQ HF. apply wp_sys; [intros _|intros ? r..]; rewrite Hp; [done|..]; by eapply HF.
Qed.

Lemma wp_remove_if_present msg p Q E C s :
  (s !! p = None -> Q tt s) -> (forall b, s !! p = Some (File b) -> Q tt (delete p s)) ->
  (s !! p = Some Directory -> E (InternalError msg) s) -> fails E C s ->
  wp m (remove_file_if_present msg p) Q E C s.
Proof.
  intros Hn Hf Hd HF. apply wp_sys; [|intros ? ?; by eapply HF..].
  intros _. destruct (s !! p) as [[b|]|]; by eauto.
Qed.

Lemma wp_read_if_present msg p Q E C s :
  (s !! p = None -> Q None s) -> (forall b, s !! p = Some (File b) -> Q (Some b) s) ->
  (s !! p = Some Directory -> E (InternalError msg) s) -> fails E C s ->
  wp m (read_if_present msg p) Q E C s.
Proof.
  intros Hn Hf Hd HF. apply wp_sys; [|intros ? ?; by eapply HF..].
  intros _. destruct (s !! p) as [[b|]|]; by eauto.
Qed.

Lemma mkdirs_up d n s s' : mkdirs d s s' -> mkdirs (join d n) s s'.
Proof.
  intros [Hat Ho]. split; [|done]. intros q. destruct (Hat q) as [|(?&?&?)]; [by left|].
  right. split_and!; [done..|]. eapply below_trans; [done|apply below_join].
Qed.

Lemma mkdirs_insert d n s s1 :
  mkdirs d s s1 -> is_dir d s1 = true -> scratch (join d n) = false -> s !! join d n = None ->
  s1 !! join d n = None -> mkdirs (join d n) s (<[join d n := Directory]> s1).
Proof.
  intros H1 Hd Hsc Hz Hz1. split.
  - intros q. destruct (decide (join d n = q)) as [<-|Hne].
    + right. by split_and!; [|rewrite lookup_insert_eq|apply below_refl].
    + rewrite lookup_insert_ne by done. by apply (mkdirs_at _ _ _ (mkdirs_up _ n _ _ H1)).
  - intros Ho. apply ok_insert_dir; [by apply H1|by apply is_dir_true|done|done].
Qed.

Lemma wp_unless_dir p e Q E C s :
  (is_dir p s = true -> Q tt s) -> (is_dir p s = false -> E e s) ->
  wp m (dir ← gets (is_dir p); if (dir : bool) then mret tt else fail e) Q E C s.
Proof. intros HQ HE. apply wp_bind, wp_gets. destruct (is_dir p s); [by apply wp_ret, HQ|by apply wp_fail, HE]. Qed.

Lemma wp_create_dir_all_rev msg rp Q E C s :
  ok s -> creatable (reverse rp) s ->
  (forall s', mkdirs (reverse rp) s s' -> is_dir (reverse rp) s' = true -> Q tt s') ->
  (forall s', mkdirs (reverse rp) s s' -> fails E C s') ->
  wp m (create_dir_all_rev msg rp) Q E C s.
Proof.
  revert Q E C. induction rp as [|n rp IH]; intros Q E C Hok Hc HQ HF; simpl.
  { change (reverse []) with (@nil string) in *. pose proof (ok_root s Hok) as Hr.
    pose proof (mkdirs_refl [] s) as Hm0.
    apply wp_bind, wp_attempt, wp_sys; unfold untouched; [|intros ? ?; by apply wp_unless_dir; [auto|congruence]|by intros; apply HF].
    intros _. cbn [parent removelast]. apply is_dir_true in Hr as Hr'.
    rewrite (proj2 (path_exists_true [] s)), andb_false_r by by eauto.
    by apply wp_unless_dir; [auto|congruence]. }
  rewrite reverse_cons in *. change (reverse rp ++ [n]) with (join (reverse rp) n) in *.
  set (d := reverse rp) in *. pose proof (mkdirs_refl (join d n) s) as Hm0.
  destruct (Hc (join d n) (below_refl _)) as [Hns Hnf].
  assert (s !! join d n = None \/ is_dir (join d n) s = true) as Hcase.
  { destruct (s !! join d n) as [[b|]|] eqn:El; [by destruct (Hnf b)|right; by apply is_dir_true|by left]. }
  apply wp_bind, wp_attempt, wp_sys; unfold untouched; [|intros Hm r|by intros; apply HF].
  2:{ apply wp_unless_dir; [by auto|]. intros _. by apply (HF _ Hm0). }
  intros _. rewrite parent_join. destruct Hcase as [Hnone|Hdir].
  2:{ pose proof Hdir as Hd'. apply is_dir_true in Hd'. rewrite (proj2 (path_exists_true (join d n) s)), andb_false_r by by eauto.
      rewrite (proj2 (path_exists_true d s)) by (rewrite (ok_parent s Hok d n); by eauto).
      apply wp_unless_dir; [by auto|congruence]. }
  rewrite (proj2 (path_exists_false _ _) Hnone), andb_true_r.
  destruct (is_dir d s) eqn:Hd.
  { apply wp_ret, HQ; [by apply mkdirs_insert; [apply mkdirs_refl|..]|apply is_dir_true, lookup_insert_eq]. }
  destruct (path_exists d s) eqn:Hex.
  { apply path_exists_true in Hex as [[b|] He]; [|apply is_dir_true in He; congruence].
    destruct (Hc d (below_join d n)) as [_ Hdf]. by destruct (Hdf b). }
  apply wp_bind, IH; [done| |..].
  { intros q Hq. apply Hc. eapply below_trans; [done|apply below_join]. }
  2:{ intros s' Hs'. apply HF. by apply mkdirs_up. }
  intros s1 H1 Hd1. assert (s1 !! join d n = None) as Hn1.
  { destruct (mkdirs_at _ _ _ H1 (join d n)) as [->|(_ & _ & Hb)]; [done|]. by rewrite below_join_self in Hb. }
  apply wp_bind, wp_attempt, wp_sys; unfold untouched.
  - intros _. rewrite parent_join, Hd1, (proj2 (path_exists_false _ _) Hn1). simpl.
    apply wp_ret, HQ; [by apply mkdirs_insert|apply is_dir_true, lookup_insert_eq].
  - intros Hm r. apply wp_unless_dir; [intros Hx%is_dir_true; congruence|].
    intros _. by apply (HF s1 (mkdirs_up _ _ _ _ H1)).
  - intros Hm r. by apply (HF s1 (mkdirs_up _ _ _ _ H1)).
Qed.

Lemma wp_create_dir_all msg p Q E C s :
  ok s -> creatable p s ->
  (forall s', mkdirs p s s' -> is_dir p s' = true -> Q tt s') ->
  (forall s', mkdirs p s s' -> fails E C s') ->
  wp m (create_dir_all msg p) Q E C s.
Proof. intros. apply wp_create_dir_all_rev; rewrite ?reverse_involutive; auto. Qed.

End Rules.

(** ** Data *)

(** [serde_json::Value], of which the sources build strings and test for them. *)
Class Json : Type := {
  json_value : Type;
  json_string : string -> json_value;
  json_as_str : json_value -> option string }.

Class JsonLaws `{Json} : Prop := {
  as_str_string : forall s, json_as_str (json_string s) = Some s }.

Record RepeatabilityRecord `{Json} : Type := mkRecord {
  rr_key : string;
  rr_request_hash : string;
  rr_first_sent : string;
  rr_status : N;
  rr_result : json_value;
  rr_transaction_id : string }.

Definition with_transaction `{Json} (id : string) (r : RepeatabilityRecord) : RepeatabilityRecord :=
  mkRecord _ (rr_key r) (rr_request_hash r) (rr_first_sent r) (rr_status r) (rr_result r) id.

(** A relative path, as its components. *)
Record Intent : Type := mkIntent { in_paths : list path }.

(** [serde_json] on the records of the journal, and the pieces in which
    [serde_json::to_writer] renders a record. *)
Class CaptureEnv `{Json} : Type := {
  encode_intent : Intent -> bytes;
  decode_intent : bytes -> option Intent;
  encode_record : RepeatabilityRecord -> bytes;
  decode_record : bytes -> option RepeatabilityRecord;
  record_chunks : RepeatabilityRecord -> list bytes }.

Class CaptureEnvLaws `{CaptureEnv} : Prop := {
  decode_encode_intent : forall i, decode_intent (encode_intent i) = Some i;
  decode_encode_record : forall r, decode_record (encode_record r) = Some r }.

(** ** The budget *)

Definition MAX_CAPTURE_BYTES : N := 64 * 1024 * 1024.
Definition ENVELOPE_BYTES : N := 1024.

Record CaptureBudget : Type := mkBudget { cb_bytes : N }.
Definition default_budget : CaptureBudget := mkBudget 0.

(** [u64::checked_mul] *)
Definition checked_mul_u64 (a b : N) : option N :=
  if (a * b <=? U64_MAX)%N then Some (a * b)%N else None.

Definition budget_add (budget : CaptureBudget) (n : N) : Res CaptureBudget :=
  mkBudget <$> ok_or CaptureTooLarge
    (total ← checked_add_u64 (cb_bytes budget) n;
     if (total <=? MAX_CAPTURE_BYTES)%N then Some total else None).

Definition copies (budget : CaptureBudget) (n count : N) : Res CaptureBudget :=
  total ← ok_or CaptureTooLarge (checked_mul_u64 n count);
  budget_add budget total.

(** [CaptureBudget] as a [Write]: every chunk is counted, and an error stops
    the serializer. *)
Fixpoint write_chunks (budget : CaptureBudget) (chunks : list bytes) : Res CaptureBudget :=
  match chunks with
  | [] => Ok budget
  | chunk :: rest => budget' ← budget_add budget (size_of chunk); write_chunks budget' rest
  end.

Definition json_bytes (chunks : list bytes) : Res N :=
  counter ← write_chunks default_budget chunks; Ok (cb_bytes counter).

Section Capture.
Context `{Env} `{CaptureEnv}.

Fixpoint budget_records (budget : CaptureBudget) (records : list RepeatabilityRecord) : Res CaptureBudget :=
  match records with
  | [] => Ok budget
  | record :: rest =>
      n ← json_bytes (record_chunks record);
      b1 ← copies budget n 3;
      b2 ← budget_add b1 ENVELOPE_BYTES;
      budget_records b2 rest
  end.

(** ** Names in a store *)

Definition TRANSACTION_METADATA : string := "__sqrzl_capture_transaction".
Definition TRANSACTIONS : string := ".capture-transactions".
Definition RECORDS : string := ".repeatability".

Definition journal_dir (root : path) : path := join root TRANSACTIONS.
Definition transaction_dir (root : path) (id : string) : path := join (journal_dir root) id.
Definition marker_path (root : path) (id : string) : path := join (transaction_dir root id) "committed".
Definition intent_path (root : path) (id : string) : path := join (transaction_dir root id) "intent.json".

Definition new_transaction_id {S} : io S string := new_uuid.

Definition record_path (root : path) (key : string) : path :=
  join (join root RECORDS) (sha256_hex key +:+ ".json").

Definition record_file (root : path) (record : RepeatabilityRecord) : path * bytes :=
  (record_path root (rr_key record), encode_record record).

Definition is_committed (root : path) (transaction_id : string) (s : fs) : bool :=
  Text.is_empty transaction_id ||
  (uuid_valid transaction_id && is_file (marker_path root transaction_id) s).

Definition load_record (root : path) (key : string) : io fs (option RepeatabilityRecord) :=
  data ← read_if_present "io" (record_path root key);
  match data with
  | None => mret None
  | Some data =>
      record ← of_res (ok_or (InternalError "serialization") (decode_record data));
      if negb (eqb (rr_key record) key)
      then fail (InternalError "repeatability storage key collision")
      else visible ← gets (is_committed root (rr_transaction_id record));
           mret (if (visible : bool) then Some record else None)
  end.

(** [fs::read_dir] with [NotFound] told apart *)
Definition read_dir_if_present (msg : string) (p : path) : io fs (option (list string)) :=
  sys msg (fun _ s => match s !! p with
                      | Some Directory => Some (Some (dir_order (children_of p s)), s)
                      | None => Some (None, s)
                      | Some (File _) => None end) untouched.

Definition committed_snapshot (root : path) : io fs (gset string) :=
  entries ← read_dir_if_present "io" (journal_dir root);
  gets (fun s => list_to_set (filter (fun name => is_file (marker_path root name) s = true)
                                     (default [] entries))).

(** ** Recovery *)

Definition plain_component (c : string) : bool :=
  negb (Text.is_empty c || eqb c "." || eqb c ".." || Text.contains c "/").

Definition validate_relative (rel : path) : Res unit :=
  match rel with
  | [] => Err (InvalidRequest "invalid capture journal path")
  | _ :: _ => if forallb plain_component rel then Ok tt
              else Err (InvalidRequest "invalid capture journal path")
  end.

Definition remove_if_present (p : path) : io fs unit := remove_file_if_present "io" p.

Definition undo_path (root rel : path) : io fs unit :=
  of_res (validate_relative rel);;
  remove_if_present (root ++ rel).

Definition recover_entry (root : path) (name : string) : io fs unit :=
  let entry := transaction_dir root name in
  dir ← gets (is_dir entry);
  committed ← gets (is_file (marker_path root name));
  if negb dir || committed then mret tt
  else
    intended ← gets (is_file (intent_path root name));
    (if (intended : bool) then
       data ← read_file "io" (intent_path root name);
       intent ← of_res (ok_or (InternalError "serialization") (decode_intent data));
       for_each (undo_path root) (in_paths intent)
     else mret tt);;
    remove_dir_all "io" entry.

Definition recover (root : path) : io fs unit :=
  create_dir_all "io" (journal_dir root);;
  names ← read_dir "io" (journal_dir root);
  for_each (recover_entry root) names;;
  sync_directory (journal_dir root).

(** ** Commit *)

Definition pending_path (p : path) (id : string) : path :=
  join (parent p) (default "" (file_name p) +:+ ".pending-" +:+ id).

Definition write_new_synced (p : path) (data : bytes) : io fs unit :=
  create_new_file "io" p;;
  write_all "io" p data;;
  sync_file "io" p.

(** [path.strip_prefix(root)] *)
Definition strip_root (root p : path) : option path :=
  if below root p then Some (drop (length root) p) else None.

(** The loop over the destinations, with the set of those seen. *)
Fixpoint check_destinations (root : path) (id : string) (files : list (path * bytes)) (unique : list path)
    : io fs (list path) :=
  match files with
  | [] => mret []
  | (p, _) :: rest =>
      rel ← of_res (ok_or (InvalidRequest "capture path escapes store") (strip_root root p));
      of_res (validate_relative rel);;
      present ← gets (path_exists p);
      if (present : bool) || bool_decide (p ∈ unique)
      then fail (InvalidRequest "capture destination already exists")
      else more ← check_destinations root id rest (p :: unique);
           mret (rel :: pending_path rel id :: more)
  end.

(** [intent.split_at(intent.len().div_ceil(2))] *)
Definition half (n : nat) : nat := (n + 1) / 2.

Definition publish_intent (root : path) (id : string) (paths : list path) : io fs unit :=
  let tdir := transaction_dir root id in
  let intent := encode_intent (mkIntent paths) in
  let staged := join tdir "intent.pending" in
  create_new_file "io" staged;;
  write_all "io" staged (take (half (length intent)) intent);;
  append_all "io" staged (drop (half (length intent)) intent);;
  sync_file "io" staged;;
  rename "io" staged (intent_path root id);;
  sync_directory tdir;;
  sync_directory (journal_dir root).

Definition publish_file (id : string) (file : path * bytes) : io fs unit :=
  let '(p, data) := file in
  create_dir_all "io" (parent p);;
  let pending := pending_path p id in
  write_new_synced pending data;;
  rename "io" pending p;;
  sync_directory (parent p).

Definition publish_files (root : path) (id : string) (files : list (path * bytes)) (paths : list path)
    : io fs unit :=
  publish_intent root id paths;;
  for_each (publish_file id) files;;
  write_new_synced (marker_path root id) [];;
  sync_directory (transaction_dir root id).

Definition undo_file (id : string) (file : path * bytes) : io fs unit :=
  remove_if_present file.1;;
  remove_if_present (pending_path file.1 id).

Definition commit (root : path) (id : string) (files : list (path * bytes)) : io fs unit :=
  recover root;;
  paths ← check_destinations root id files [];
  create_dir_all "io" (transaction_dir root id);;
  result ← attempt (publish_files root id files paths);
  (if is_ok result then mret tt
   else
     committed ← gets (is_file (marker_path root id));
     if (committed : bool) then mret tt
     else
       for_each (undo_file id) files;;
       remove_dir_all "io" (transaction_dir root id);;
       sync_directory (journal_dir root));;
  of_res result.

End Capture.
