(* ===== verification/Startup.v ===== *)
(** * Startup: opening a storage root, and staged uploads

    [FilesystemStorage::open] and [try_new] of [src/storage/filesystem/io.rs] with
    the scans they run: recovery of the journals, the rebuilt index, buckets whose
    creation was interrupted, and cancelled uploads.  The upload payloads that the
    provider facades stage and compose ([UploadStore] of
    [src/storage/filesystem.rs]), and [StorageRootWriter::acquire] of
    [src/storage/ownership.rs].

    The root is the empty path and exists; a restart runs [try_new] on the disk that
    was left, and no field of the store before it matters. *)

From Stdlib Require Import Ascii Strings.Byte.
From S2P Require Import Prelude Text Models Utf8 Policy SkipMap Index FsModel Publication Lifecycle Storage Multipart Capture.

(** [UploadCancellation] of [src/storage/upload_cancellation.rs] *)
Record UploadCancellation : Type := mkCancellation {
  uc_session_id : string;
  uc_bucket : string;
  uc_bucket_created_at : time;
  uc_expires_at : time }.

Definition GCS_XML_CANCELLATION_STATE : string := "gcs-resumable-cancelled-v1".
Definition GCS_ACTIVE_SESSION_STATE : string := "gcs-resumable-session-v2".

Class StartupEnv : Type := { cancellation_codec : Codec UploadCancellation }.

(** [for x in l], with the variables the loop changes. *)
Fixpoint fold_io {S A B} (f : A -> B -> io S B) (l : list A) (b : B) : io S B :=
  match l with
  | [] => mret b
  | a :: l' => b' ← f a b; fold_io f l' b'
  end.

Definition FORMAT_MARKER : string := ".sqrzl-storage-format-v2".
Definition WRITER_LOCK_FILE : string := ".sqrzl-writer.lock".
Definition FORMAT_V2 : bytes := as_bytes (String "2" (String "010" "")).

Section Startup.
Context {M : Type -> Type} `{SkipMap M} `{Env} `{StoreEnv} `{StartupEnv} `{Digests}.
Abbreviation World := (World M).
Abbreviation LockFreeIndex := (LockFreeIndex M).

(** ** The writer of a root *)

(** [read_dir(root)?.any(|entry| entry.file_name() != WRITER_LOCK_FILE)] *)
Definition inhabited_root : io fs bool :=
  names ← read_dir "Failed to inspect storage root" [];
  mret (existsb (fun n => negb (eqb n WRITER_LOCK_FILE)) names).

(** [File::options().read(true).write(true).create(true).truncate(false).open(p)] *)
Definition open_or_create (msg : string) (p : path) : io fs unit :=
  sys msg (fun _ s =>
    match s !! p with
    | Some (File _) => Some (tt, s)
    | Some Directory => None
    | None => if is_dir (parent p) s then Some (tt, <[p := File []]> s) else None
    end) untouched.

(** [active]: whether another process holds the lock. *)
Definition acquire (active : bool) : io fs unit :=
  create_dir_all "Failed to create storage root" [];;
  marked ← gets (path_exists [FORMAT_MARKER]);
  inhabited ← (if (marked : bool) then mret false else inhabited_root);
  if (inhabited : bool) then fail (InvalidRequest "Legacy nonempty storage detected")
  else
    open_or_create "Failed to open storage writer lock" [WRITER_LOCK_FILE];;
    if active then fail (InvalidRequest "Storage root already has an active writer") else mret tt.

(** ** Buckets whose creation was interrupted *)

Definition lower_hex (a : ascii) : bool :=
  let n := N_of_ascii a in (48 <=? n)%N && (n <=? 57)%N || (97 <=? n)%N && (n <=? 102)%N.

(** A directory name of a bucket: the digest of its name. *)
Definition bucket_digest_name (name : string) : bool :=
  match Text.strip_prefix name "b-" with
  | Some digest => Nat.eqb (String.length digest) 64 && forallb lower_hex (String.list_ascii_of_string digest)
  | None => false
  end.

(** The private file of [atomic_write] for [.bucket.name]. *)
Definition name_temporary (name : string) : bool :=
  match Text.strip_prefix name "..bucket.name." ≫= fun suffix => Utf8.strip_suffix suffix ".tmp" with
  | Some suffix => uuid_valid suffix
  | None => false
  end.

Definition recover_uncommitted_bucket (d : path) : io fs bool :=
  if negb (is_some_and bucket_digest_name (file_name d)) then mret false
  else
    let msg := "Failed to recover uncommitted bucket" in
    names ← read_dir msg d;
    private ← gets (fun s => forallb (fun n => is_file (join d n) s && name_temporary n) names);
    if negb private then mret false
    else
      for_each (fun n => remove_file msg (join d n)) names;;
      remove_dir msg d;;
      sync_directory (parent d);;
      mret true.

(** ** The index *)

Definition REBUILD : string := "Failed to rebuild storage metadata index".

(** One entry of a bucket directory: whether protection is possible, and the index. *)
Definition index_object_dir (bucket : string) (d : path) (name : string) (acc : bool * LockFreeIndex)
    : io fs (bool * LockFreeIndex) :=
  let p := join d name in
  dir ← gets (is_dir p);
  if negb dir || Text.starts_with name "." then mret acc
  else
    has_payload ← gets (path_exists (join p BLOB));
    has_metadata ← gets (path_exists (join p META));
    if negb has_payload && negb has_metadata then mret acc
    else if negb has_payload then fail (InternalError "Current object metadata has no payload")
    else
      o ← read_object_metadata (join p META);
      if negb (eqb name (compute_object_id bucket (o_key o)))
      then fail (InternalError "Current object metadata has an invalid key identity")
      else mret (acc.1 || object_has_azure_protection_metadata o, index_insert acc.2 bucket (o_key o)).

Definition rebuild_bucket_index (bucket : string) (d : path) (index : LockFreeIndex)
    : io fs (bool * LockFreeIndex) :=
  names ← read_dir "Failed to rebuild bucket metadata index" d;
  fold_io (index_object_dir bucket d) names (false, index).

(** One entry of the root: the index and the protection cache built so far. *)
Definition index_root_entry (name : string) (acc : LockFreeIndex * gmap string bool)
    : io fs (LockFreeIndex * gmap string bool) :=
  dir ← gets (is_dir [name]);
  if negb dir || Text.starts_with name "." then mret acc
  else
    contents ← read_if_present REBUILD (join [name] ".bucket.name");
    match contents with
    | None =>
        if negb (Text.starts_with name "b-") then mret acc
        else
          recovered ← recover_uncommitted_bucket [name];
          if (recovered : bool) then mret acc else fail (InternalError REBUILD)
    | Some b =>
        if negb (utf8_valid b) then fail (InternalError REBUILD)
        else
          let bucket_name := text_of_bytes b in
          if negb (eqb name ("b-" +:+ sha256_hex bucket_name))
          then fail (InternalError "Bucket metadata has an invalid namespace identity")
          else
            '(possible, index) ← rebuild_bucket_index bucket_name [name] (get_or_create_bucket acc.1 bucket_name);
            mret (index, <[bucket_name := possible]> acc.2)
    end.

(** ** Cancelled uploads *)

Definition provider_upload_session_dir (provider session : string) : path :=
  [".provider-uploads"; sha256_hex provider; sha256_hex session].
Definition provider_upload_item_path (provider session item : string) : path :=
  join (provider_upload_session_dir provider session) (sha256_hex item +:+ ".blob").

Definition delete_upload_session (provider session : string) : io World unit :=
  let p := provider_upload_session_dir provider session in
  present ← on_disk (path_exists p);
  if (present : bool) then disk (remove_dir_all "Failed to remove upload session" p) else mret tt.

(** [path.extension() == "json"] of a path with this file name *)
Definition json_name (name : string) : bool := Text.ends_with name ".json" && negb (eqb name ".json").

(** A decision is obsolete once it expired, or its bucket is gone or another one. *)
Definition obsolete (decision : UploadCancellation) (bucket : option Bucket) (t : time) : bool :=
  (uc_expires_at decision <=? t)%Z ||
  match bucket with
  | Some b => negb (eqb (b_created_at b) (uc_bucket_created_at decision))
  | None => true
  end.

Definition cancellations_dir : path := [".provider-state"; GCS_XML_CANCELLATION_STATE].

Definition apply_cancellation (name : string) : io World unit :=
  let p := join cancellations_dir name in
  if negb (json_name name) then mret tt
  else
    json ← disk (read_file "" p);
    decision ← of_res (ok_or (InternalError "Invalid upload cancellation decision") (dec cancellation_codec json));
    if negb (eqb p (provider_state_path GCS_XML_CANCELLATION_STATE (uc_session_id decision)))
    then fail (InternalError "Upload cancellation decision has an invalid session identity")
    else
      delete_provider_state GCS_ACTIVE_SESSION_STATE (uc_session_id decision);;
      delete_upload_session "gcs" (uc_session_id decision);;
      r ← attempt (get_bucket (uc_bucket decision));
      current ← match r with
                | Ok b => mret (Some b)
                | Err BucketNotFound => mret None
                | Err e => fail e
                end;
      t ← now;
      if obsolete decision current t
      then delete_provider_state GCS_XML_CANCELLATION_STATE (uc_session_id decision)
      else mret tt.

Definition recover_gcs_cancellations : io World unit :=
  entries ← disk (read_dir_if_present "" cancellations_dir);
  match entries with
  | None => mret tt
  | Some names => for_each apply_cancellation names
  end.

(** ** Opening *)

Definition try_new : io World unit :=
  disk (create_directory_durable []);;
  disk (recover_publications []);;
  names ← disk (read_dir REBUILD []);
  '(index, azure) ← disk (fold_io index_root_entry names (new_index, ∅));
  modify (fun w => mkWorld (w_fs w) index ∅ azure);;
  recover_gcs_cancellations.

Definition purge_provider (provider : string) : io fs unit :=
  let p := [".provider-state"; provider] in
  present ← gets (path_exists p);
  if (present : bool) then remove_dir_all "Failed to remove obsolete vendor upload state" p else mret tt.

Definition purge_obsolete_vendor_upload_state : io fs unit :=
  for_each purge_provider ["azure-block-session"; "azure-committed-blocks"; "gcs-resumable-session"].

Definition initialize_root : io fs unit :=
  marked ← gets (path_exists [FORMAT_MARKER]);
  if (marked : bool) then mret tt
  else
    inhabited ← inhabited_root;
    if (inhabited : bool) then fail (InvalidRequest "Legacy nonempty storage detected")
    else map_fail (fun _ => InternalError "Failed to write storage format marker")
           (atomic_write [FORMAT_MARKER] FORMAT_V2).

Definition open : io World unit :=
  disk (create_directory_durable []);;
  disk initialize_root;;
  disk purge_obsolete_vendor_upload_state;;
  try_new.

(** ** Staged payloads *)

Definition checked_end (source_offset len : N) : Res N :=
  ok_or EntityTooLarge (checked_add_u64 source_offset len).

(** The part of a staged payload that is a slice of the request body. *)
Definition stage_slice (destination temporary payload_path : path) (source_offset len : N) : io fs unit :=
  r ← attempt (
    source ← read_file "Failed to open upload payload" payload_path;
    create_file "Failed to create staged upload payload" temporary;;
    let slice := take (N.to_nat len) (drop (N.to_nat source_offset) source) in
    write_all "Failed to stage upload payload" temporary slice;;
    (if N.eqb (size_of slice) len then mret tt
     else fail (InvalidRequest "Upload payload ended before the selected range"));;
    sync_file "Failed to sync staged upload payload" temporary;;
    rename "Failed to commit staged upload payload" temporary destination);
  (if is_ok r then mret tt else ignore (remove_file "" temporary));;
  of_res r.

Definition stage_upload_payload (provider session item : string) (payload_path : path) (source_offset len : N)
    : io World unit :=
  let destination := provider_upload_item_path provider session item in
  source_len ← disk (file_len "Failed to inspect upload payload" payload_path);
  stop ← of_res (checked_end source_offset len);
  if (source_len <? stop)%N then fail (InvalidRequest "Staged upload range exceeds the request payload")
  else if N.eqb source_offset 0 && N.eqb len source_len then disk (atomic_move payload_path destination)
  else
    disk (create_dir_all "Failed to create upload session directory" (parent destination));;
    u ← new_uuid;
    let temporary := join (parent destination) (sha256_hex item +:+ ".tmp-" +:+ u) in
    disk (stage_slice destination temporary payload_path source_offset len).

(** [io::copy] of a staged item to the end of the composed payload. *)
Definition append_item (provider session : string) (scratch : path) (item : string) : io fs unit :=
  b ← read_file "Failed to open staged upload item" (provider_upload_item_path provider session item);
  append_all "Failed to compose upload item" scratch b.

Definition compose_payload (provider session : string) (items : list string) (scratch : path) : io fs unit :=
  create_file "Failed to create composed payload" scratch;;
  for_each (append_item provider session scratch) items;;
  sync_file "Failed to sync composed upload" scratch.

Definition compose_upload_payloads (provider session : string) (items : list string) (bucket key : string)
    (object : Object) (condition : option ObjectCondition) : io World bool :=
  disk (create_dir_all "Failed to create composition directory" [".spool"]);;
  u ← new_uuid;
  let scratch := [".spool"; ".compose-" +:+ u +:+ ".tmp"] in
  r ← disk (attempt (compose_payload provider session items scratch));
  match r with
  | Err error => disk (ignore (remove_file "" scratch));; fail error
  | Ok _ =>
      written ← match condition with
                | Some c => put_object_streamed_if bucket key object scratch c
                | None => put_object_streamed bucket key object scratch;; mret true
                end;
      left_over ← on_disk (path_exists scratch);
      (if (left_over : bool) then disk (ignore (remove_file "" scratch)) else mret tt);;
      mret written
  end.

Definition retain_item (d : path) (retained : list path) (name : string) : io fs unit :=
  file ← gets (is_file (join d name));
  if (file : bool) && negb (existsb (eqb (join d name)) retained)
  then remove_file "Failed to remove unreferenced upload item" (join d name) else mret tt.

Definition retain_upload_items (provider session : string) (items : list string) : io fs unit :=
  let d := provider_upload_session_dir provider session in
  present ← gets (path_exists d);
  if negb present then mret tt
  else
    let retained := provider_upload_item_path provider session <$> items in
    names ← read_dir "Failed to inspect upload session" d;
    for_each (retain_item d retained) names;;
    rest ← attempt (read_dir "" d);
    match rest with
    | Ok [] => remove_dir "Failed to remove empty upload session" d
    | _ => mret tt
    end.
End Startup.
