(* ===== verification/StartupFacts.v ===== *)
(** * StartupFacts: what opening a storage root leaves

    Whatever the disk looks like and whatever calls fail, a store that opens has an
    index that agrees with its disk and a protection cache that is never wrong about
    absence; opening removes nothing of a root it does not own, nor of a bucket whose
    creation was decided; and cancelled uploads stay cancelled. *)

From Stdlib Require Import Ascii.
From stdpp Require Import countable.
From S2P Require Import Prelude Text Models Utf8 Policy SkipMap Index IndexFacts FsModel Publication FileFacts.
From S2P Require Import PublicationFacts ConcreteEnv PublicationSafety Lifecycle Storage StorageFacts.
From S2P Require Import BucketFacts Scenario Capture Startup.

(** ** Footprints *)

(** Two disks that differ at most on [X]. *)
Definition outside_same (X : path -> Prop) (s s' : fs) : Prop := forall q, ~ X q -> s' !! q = s !! q.

Lemma outside_refl X s : outside_same X s s.
Proof. by intros q Hq. Qed.

Lemma outside_trans X s1 s2 s3 : outside_same X s1 s2 -> outside_same X s2 s3 -> outside_same X s1 s3.
Proof. intros H1 H2 q Hq. by rewrite H2, H1. Qed.

(** Every run of [p], finished or not, ends in a state related to where it began. *)
Definition always {S A} (R : S -> S -> Prop) (p : io S A) : Prop := forall σ s, R s (p σ s).1.2.

Section Always.
Context {S : Type} (R : S -> S -> Prop) `{!Reflexive R, !Transitive R}.

Lemma always_ret {A} (a : A) : always R (mret a).
Proof. intros σ s. apply (reflexivity s). Qed.

Lemma always_fail {A} e : always R (fail e : io S A).
Proof. intros σ s. apply (reflexivity s). Qed.

Lemma always_gets {A} (f : S -> A) : always R (gets f).
Proof. intros σ s. apply (reflexivity s). Qed.

Lemma always_now : always R now.
Proof. intros σ s. apply (reflexivity s). Qed.

Lemma always_bind {A B} (p : io S A) (k : A -> io S B) : always R p -> (forall a, always R (k a)) -> always R (p ≫= k).
Proof.
  intros Hp Hk σ s. unfold mbind, io_bind. specialize (Hp σ s). destruct (p σ s) as [[[a|e|] s'] σ']; [|done..].
  etrans; [exact Hp|apply Hk].
Qed.

Lemma always_attempt {A} (p : io S A) : always R p -> always R (attempt p).
Proof. intros Hp σ s. specialize (Hp σ s). unfold attempt. by destruct (p σ s) as [[[a|e|] s'] σ']. Qed.

Lemma always_of_res {A} (r : Res A) : always R (of_res r).
Proof. destruct r; [apply always_ret|apply always_fail]. Qed.

Lemma always_for_each {A} (f : A -> io S unit) l : (forall a, a ∈ l -> always R (f a)) -> always R (for_each f l).
Proof.
  induction l as [|a l IH]; intros Hf; simpl; [apply always_ret|].
  apply always_bind; [apply Hf; set_solver|intros _; apply IH; set_solver].
Qed.

Lemma always_wp {A} (p : io S A) (s : S) :
  always R p -> wp any_schedule p (fun _ s' => R s s') (fun _ s' => R s s') (fun s' => R s s') s.
Proof.
  intros Hp σ Hσ. specialize (Hp σ s). destruct (p σ s) as [[o s'] σ']. split; [apply any_schedule_ok|by destruct o].
Qed.
End Always.

Lemma wp_always {S A} (R : S -> S -> Prop) (p : io S A) :
  (forall s, wp any_schedule p (fun _ s' => R s s') (fun _ s' => R s s') (fun s' => R s s') s) -> always R p.
Proof.
  intros Hp σ s. specialize (Hp s σ (any_schedule_ok σ)). destruct (p σ s) as [[o s'] σ']. destruct Hp as [_ Ho]. by destruct o.
Qed.

Lemma always_sys {A} (R : fs -> fs -> Prop) msg (run : bool -> fs -> option (A * fs)) partial :
  Reflexive R -> (forall linked s a s', run linked s = Some (a, s') -> R s s') -> (forall r s, R s (partial r s)) ->
  always R (sys msg run partial).
Proof.
  intros HR Hrun Hp. apply wp_always. intros s. apply wp_sys; [|by intros..].
  intros linked. destruct (run linked s) as [[a s']|] eqn:E; [by eapply Hrun|done].
Qed.

#[export] Instance outside_reflexive X : Reflexive (outside_same X).
Proof. intros s. apply outside_refl. Qed.
#[export] Instance outside_transitive X : Transitive (outside_same X).
Proof. intros s1 s2 s3. apply outside_trans. Qed.

Lemma wp_fold_io {S A B} {m : mode} (f : A -> B -> io S B) l (I : list A -> B -> S -> Prop) b Q E C (s : S) :
  I l b s ->
  (forall a l' b s, I (a :: l') b s -> wp m (f a b) (fun b' s' => I l' b' s') E C s) ->
  (forall b s, I [] b s -> Q b s) ->
  wp m (fold_io f l b) Q E C s.
Proof.
  intros HI Hstep HQ. revert b s HI. induction l as [|a l IH]; intros b s HI; simpl.
  - apply wp_ret. auto.
  - apply wp_bind. eapply wp_mono; [by apply Hstep|..]; simpl; auto.
Qed.

(** ** Buckets whose creation was interrupted *)

Section Unfinished.
Context `{EnvLaws}.

(** A bucket directory in which only private name files were made. *)
Definition unfinished (d : path) (s : fs) : Prop :=
  is_some_and bucket_digest_name (file_name d) = true /\
  forall n, is_Some (s !! join d n) -> is_file (join d n) s = true /\ name_temporary n = true.

(** Some of the directory [d] and its entries are gone, nothing else changed. *)
Definition thinned (d : path) (s s' : fs) : Prop :=
  forall q, s' !! q = s !! q \/ s' !! q = None /\ (q = d \/ exists n, q = join d n).

#[export] Instance thinned_reflexive d : Reflexive (thinned d).
Proof. intros s q. by left. Qed.
#[export] Instance thinned_transitive d : Transitive (thinned d).
Proof. intros s1 s2 s3 H12 H23 q. destruct (H23 q) as [->|?]; [apply H12|by right]. Qed.

Lemma thinned_delete d s q : q = d \/ (exists n, q = join d n) -> thinned d s (delete q s).
Proof.
  intros Hq q'. destruct (decide (q' = q)) as [->|Hne]; [right; by rewrite lookup_delete_eq|].
  left. by rewrite lookup_delete_ne.
Qed.

Lemma remove_file_thins d n msg : always (thinned d) (remove_file msg (join d n)).
Proof.
  apply always_sys; [apply _| |by intros; apply thinned_reflexive].
  intros _ s a s' E. destruct (is_file _ _); [|done]. injection E as _ <-. apply thinned_delete. eauto.
Qed.

Lemma remove_dir_thins d msg : always (thinned d) (remove_dir msg d).
Proof.
  apply always_sys; [apply _| |by intros; apply thinned_reflexive].
  intros _ s a s' E. destruct (is_dir _ _ && _); [|done]. injection E as _ <-. apply thinned_delete. by left.
Qed.

Lemma sync_keeps msg p : always eq (sync_file msg p).
Proof. apply always_sys; [apply _| |done]. intros _ s a s' E. destruct (path_exists _ _); [by injection E|done]. Qed.

Lemma sync_thins d msg p : always (thinned d) (sync_file msg p).
Proof. intros σ s. rewrite <- (sync_keeps msg p σ s). apply thinned_reflexive. Qed.

Lemma read_dir_any msg p Q E C s :
  (is_dir p s = true -> Q (dir_order (children_of p s)) s) -> (forall e, E e s) -> C s ->
  wp any_schedule (read_dir msg p) Q E C s.
Proof. intros HQ HE HC. apply wp_sys; [|by intros..]. intros _. by destruct (is_dir p s) eqn:Hd; [apply HQ|apply HE]. Qed.

Lemma elem_of_dir_order d s n : n ∈ dir_order (children_of d s) <-> is_Some (s !! join d n).
Proof. rewrite (dir_order_perm (children_of d s)). apply elem_of_children_of. Qed.

Lemma recover_uncommitted_wp d s :
  let after (s' : fs) := s' = s \/ unfinished d s /\ thinned d s s' in
  wp any_schedule (recover_uncommitted_bucket d) (fun r s' => after s' /\ (r = false -> s' = s)) (fun _ => after) after s.
Proof.
  intros after. unfold recover_uncommitted_bucket.
  destruct (is_some_and bucket_digest_name (file_name d)) eqn:Hn; simpl; [|by apply wp_ret; split; [left|]].
  apply wp_bind, read_dir_any; [|by left|by left]. intros Hd. apply wp_bind, wp_gets.
  lazymatch goal with |- context[forallb ?f ?l] => destruct (forallb f l) eqn:Hall end; simpl; [|by apply wp_ret; split; [left|]].
  rewrite forallb_true in Hall. assert (unfinished d s) as Hu.
  { split; [done|]. intros n Hin%elem_of_dir_order. apply Hall in Hin. by apply andb_true_iff in Hin. }
  lazymatch goal with |- wp _ ?prog _ _ _ _ => assert (always (thinned d) prog /\ forall σ s r s' σ', prog σ s = (Done r, s', σ') -> r = true) as [Hprog Hret] end.
  { split.
    - apply always_bind; [apply _|apply always_for_each; [apply _..|]; intros n _; apply remove_file_thins|].
      intros _. apply always_bind; [apply _|apply remove_dir_thins|].
      intros _. apply always_bind; [apply _|apply sync_thins|]. intros _. apply always_ret, _.
    - intros σ s0 r s' σ'. unfold mbind, io_bind. repeat case_match; by intros [= <-]. }
  intros σ Hσ. specialize (Hprog σ s). 
  lazymatch goal with |- context[?prog σ s] => destruct (prog σ s) as [[[r|e|] s'] σ'] eqn:Hrun end; simpl in Hprog;
    (split; [apply any_schedule_ok|]); simpl; [|by right..].
  split; [by right|]. by rewrite (Hret _ _ _ _ _ Hrun).
Qed.
End Unfinished.

(** ** The index *)

Section Rebuild.
Context {M : Type -> Type} `{SkipMapLaws M} `{EnvLaws} `{StoreEnv} `{StartupEnv} `{Digests}.
Abbreviation World := (World M).
Implicit Types s : fs.

(** The disk has a bucket of this name. *)
Definition named (bucket : string) s : Prop :=
  is_dir (bucket_dir bucket) s = true /\
  exists b, s !! join (bucket_dir bucket) ".bucket.name" = Some (File b) /\ utf8_valid b = true /\ text_of_bytes b = bucket.

(** The disk holds [o] as the current object of the key. *)
Definition current (bucket key : string) (o : Object) s : Prop :=
  is_dir (object_dir bucket key) s = true /\ path_exists (join (object_dir bucket key) BLOB) s = true /\
  exists json, s !! join (object_dir bucket key) META = Some (File json) /\ decode_object json = Some o /\ o_key o = key.

(** An object directory as the scan of the bucket finds it. *)
Lemma current_entry bucket o s : current bucket (o_key o) o s ->
  is_Some (s !! join (bucket_dir bucket) (compute_object_id bucket (o_key o))).
Proof. intros [Hd%is_dir_true _]. by exists Directory. Qed.

Lemma read_metadata_any p Q E C s :
  (forall json o, s !! p = Some (File json) -> decode_object json = Some o -> Q o s) -> (forall e, E e s) -> C s ->
  wp any_schedule (read_object_metadata p) Q E C s.
Proof.
  intros HQ HE HC. apply wp_bind, wp_sys; [intros _|by intros..].
  destruct (s !! p) as [[json|]|] eqn:Hp; [|by apply HE..].
  apply wp_of_res. destruct (decode_object json) eqn:Hj; simpl; [by eapply HQ|apply HE].
Qed.

(** The part of a bucket's index and cache that comes from the entries [done]. *)
Record rebuilt (bucket : string) (done : list string) (idx0 : LockFreeIndex M) (s : fs) (acc : bool * LockFreeIndex M) : Prop := mkRebuilt {
  rb_reach : index_reachable idx0 -> index_reachable acc.2;
  rb_keys : index_reachable idx0 -> forall b k, k ∈ indexed_keys acc.2 b <->
    k ∈ indexed_keys idx0 b \/ b = bucket /\ compute_object_id bucket k ∈ done /\ exists o, current bucket k o s;
  rb_clean : acc.1 = false -> forall k o, compute_object_id bucket k ∈ done -> current bucket k o s ->
    object_has_azure_protection_metadata o = false }.

Lemma rebuilt_skip bucket done idx0 s acc n :
  (forall k o, n = compute_object_id bucket k -> ~ current bucket k o s) ->
  rebuilt bucket done idx0 s acc -> rebuilt bucket (done ++ [n]) idx0 s acc.
Proof.
  intros Hn [Hr Hk Hc]. split; [done|..].
  - intros Hi b k. rewrite (Hk Hi). split; (intros [?|(-> & Hin & o & Ho)]; [by left|right]); split_and!; try done; try (by exists o).
    + apply elem_of_app. by left.
    + apply elem_of_app in Hin as [?|Heq%list_elem_of_singleton]; [done|]. by destruct (Hn k o).
  - intros Ha k o Hin Ho. apply elem_of_app in Hin as [?|Heq%list_elem_of_singleton]; [by eapply Hc|]. by destruct (Hn k o).
Qed.

Lemma current_unique bucket k k' o o' s :
  current bucket k o s -> current bucket k' o' s -> compute_object_id bucket k = compute_object_id bucket k' -> k = k' /\ o = o'.
Proof.
  intros (_ & _ & j & Hj & Hd & <-) (_ & _ & j' & Hj' & Hd' & <-) Hid. unfold object_dir in *. rewrite Hid, Hj' in Hj.
  injection Hj as ->. rewrite Hd' in Hd. by injection Hd as ->.
Qed.

Lemma rebuilt_insert bucket done idx0 s acc o :
  current bucket (o_key o) o s -> rebuilt bucket done idx0 s acc ->
  rebuilt bucket (done ++ [compute_object_id bucket (o_key o)]) idx0 s
    (acc.1 || object_has_azure_protection_metadata o, index_insert acc.2 bucket (o_key o)).
Proof.
  intros Ho [Hr Hk Hc]. split; simpl.
  - intros Hi. eapply rtc_r; [by apply Hr|constructor].
  - intros Hi b k. rewrite elem_of_indexed_insert by (by apply reachable_wf, Hr). rewrite (Hk Hi b k).
    setoid_rewrite elem_of_app. setoid_rewrite list_elem_of_singleton. split.
    + intros [[-> ->]|[?|(-> & Hin & o' & Ho')]]; [right; split_and!; eauto|by left|right; split_and!; eauto].
    + intros [?|(-> & [Hin|Hid] & o' & Ho')]; [by right; left|right; right; split_and!; eauto|].
      destruct (current_unique bucket k (o_key o) o' o s Ho' Ho Hid) as [-> ->]. by left.
  - intros [Ha Hp]%orb_false_iff k o' Hin Ho'. apply elem_of_app in Hin as [?|Hid%list_elem_of_singleton]; [by eapply Hc|].
    by destruct (current_unique bucket k (o_key o) o' o s Ho' Ho Hid) as [-> ->].
Qed.

Lemma hidden_no_id n bucket k : Text.starts_with n "." = true -> n <> compute_object_id bucket k.
Proof.
  intros [t ->]%Text.starts_with_spec Heq. by apply (object_id_not_hidden bucket k t).
Qed.

Lemma index_object_dir_any bucket n done idx0 acc s :
  rebuilt bucket done idx0 s acc ->
  wp any_schedule (index_object_dir bucket (bucket_dir bucket) n acc)
    (fun acc' s' => s' = s /\ rebuilt bucket (done ++ [n]) idx0 s acc') (fun _ _ => True) (fun _ => True) s.
Proof.
  intros Hr. unfold index_object_dir. apply wp_bind, wp_gets.
  destruct (is_dir (join (bucket_dir bucket) n) s) eqn:Hd; simpl.
  2: { apply wp_ret. split; [done|]. apply rebuilt_skip; [|done]. intros k o -> [Hd' _]. unfold object_dir, object_id_dir in Hd'. congruence. }
  destruct (Text.starts_with n ".") eqn:Hdot.
  { apply wp_ret. split; [done|]. apply rebuilt_skip; [|done]. intros k o Hn. by destruct (hidden_no_id n bucket k Hdot). }
  apply wp_bind, wp_gets, wp_bind, wp_gets.
  destruct (path_exists (join (join (bucket_dir bucket) n) BLOB) s) eqn:Hb; simpl.
  - apply wp_bind, read_metadata_any; [|done..]. intros json o Hj Hdec.
    destruct (eqb n (compute_object_id bucket (o_key o))) eqn:Hid; simpl; [|by apply wp_fail].
    apply wp_ret. apply eqb_true in Hid as ->. split; [done|]. apply rebuilt_insert; [|done].
    split_and!; [done..|]. by exists json.
  - destruct (path_exists (join (join (bucket_dir bucket) n) META) s); simpl; [by apply wp_fail|]. apply wp_ret. split; [done|]. apply rebuilt_skip; [|done].
    intros k o -> (_ & Hb' & _). unfold object_dir, object_id_dir in Hb'. congruence.
Qed.

Lemma rebuild_bucket_any bucket idx0 s :
  wp any_schedule (rebuild_bucket_index bucket (bucket_dir bucket) idx0)
    (fun acc s' => s' = s /\ rebuilt bucket (dir_order (children_of (bucket_dir bucket) s)) idx0 s acc)
    (fun _ _ => True) (fun _ => True) s.
Proof.
  apply wp_bind, read_dir_any; [|done..]. intros _. set (names := dir_order _).
  eapply (wp_fold_io _ _ (fun rest acc s' => s' = s /\ exists done, names = done ++ rest /\ rebuilt bucket done idx0 s acc)).
  - split; [done|]. exists []. split; [done|]. split; [done|..].
    + intros _ b k. split; [by left|]. intros [?|(_ & Hin & _)]; [done|]. by apply elem_of_nil in Hin.
    + intros _ k o Hin. by apply elem_of_nil in Hin.
  - intros n rest acc s' (-> & done & Hns & Hr). eapply wp_mono; [by eapply index_object_dir_any| |done..].
    intros acc' s' [-> Hr']. split; [done|]. exists (done ++ [n]). by rewrite <- app_assoc.
  - intros acc s' (-> & done & -> & Hr). by rewrite app_nil_r.
Qed.

Definition dir_name (bucket : string) : string := "b-" +:+ sha256_hex bucket.

(** The index and the cache over the root entries [done]. *)
Record scanned (done : list string) (s0 s : fs) (acc : LockFreeIndex M * gmap string bool) : Prop := mkScanned {
  sc_reach : index_reachable acc.1;
  sc_keys : forall b k, k ∈ indexed_keys acc.1 b <-> dir_name b ∈ done /\ named b s /\ exists o, current b k o s;
  sc_cache : forall b, dir_name b ∈ done -> named b s ->
    exists p, acc.2 !! b = Some p /\ (p = false -> forall k o, current b k o s -> object_has_azure_protection_metadata o = false);
  sc_only : forall b p, acc.2 !! b = Some p -> dir_name b ∈ done /\ named b s;
  sc_less : forall q, s !! q = s0 !! q \/ s !! q = None }.

Section Elsewhere.
Variables (s s' : fs) (bucket : string).
Hypothesis same : forall rest, s' !! (dir_name bucket :: rest) = s !! (dir_name bucket :: rest).

Lemma named_same : named bucket s' <-> named bucket s.
Proof. unfold named, is_dir, bucket_dir, join. simpl. by rewrite !same. Qed.

Lemma current_same k o : current bucket k o s' <-> current bucket k o s.
Proof. unfold current, path_exists, is_dir, object_dir, object_id_dir, bucket_dir, join. simpl. by rewrite !same. Qed.
End Elsewhere.

Lemma thinned_elsewhere n s s' bucket : thinned [n] s s' -> dir_name bucket <> n ->
  forall rest, s' !! (dir_name bucket :: rest) = s !! (dir_name bucket :: rest).
Proof. intros Ht Hne rest. destruct (Ht (dir_name bucket :: rest)) as [?|[_ [[= ? _]|[c [= ? _]]]]]; [done|by destruct Hne..]. Qed.

Lemma elem_of_done (n x : string) done : x <> n -> x ∈ done ++ [n] <-> x ∈ done.
Proof. rewrite elem_of_app, list_elem_of_singleton. naive_solver. Qed.

Lemma scanned_skip n done s0 s s' acc :
  n ∉ done -> thinned [n] s s' -> (forall b, dir_name b = n -> ~ named b s') ->
  scanned done s0 s acc -> scanned (done ++ [n]) s0 s' acc.
Proof.
  intros Hnd Ht Hno [Hr Hk Hc Ho Hl]. split; [done|..].
  - intros b k. destruct (decide (dir_name b = n)) as [Hb|Hb].
    + rewrite Hk. split; [intros (Hin & _)|intros (_ & Hn & _)]; [by rewrite Hb in Hin|by destruct (Hno b Hb)].
    + rewrite elem_of_done, Hk by done. pose proof (thinned_elsewhere n s s' b Ht Hb) as Hs.
      rewrite (named_same s s' b Hs). by setoid_rewrite (current_same s s' b Hs).
  - intros b Hin Hn. assert (dir_name b <> n) as Hb by (intros Hb; by destruct (Hno b Hb)).
    pose proof (thinned_elsewhere n s s' b Ht Hb) as Hs. apply elem_of_done in Hin; [|done].
    rewrite (named_same s s' b Hs) in Hn. destruct (Hc b Hin Hn) as (p & Hp & Hclean). exists p. split; [done|].
    intros Hf k o. rewrite (current_same s s' b Hs). eauto.
  - intros b p Hp. destruct (Ho b p Hp) as [Hin Hn]. assert (dir_name b <> n) as Hb by congruence.
    rewrite elem_of_done, (named_same s s' b) by (done || by apply (thinned_elsewhere n)). done.
  - intros q. destruct (Ht q) as [->|[? _]]; [apply Hl|by right].
Qed.

Lemma indexed_keys_create (idx : LockFreeIndex M) b b' : indexed_keys (get_or_create_bucket idx b) b' = indexed_keys idx b'.
Proof.
  unfold get_or_create_bucket. destruct (sk_get b idx) eqn:Hg; [done|]. rewrite indexed_keys_insert. case_decide as Hd; [|done].
  subst b'. unfold indexed_keys. rewrite Hg. unfold sk_keys. simpl.
  destruct (sk_entries _) as [|[k v] l] eqn:He; [done|].
  assert ((k, v) ∈ sk_entries (sk_empty : M unit)) as Hk%sk_entries_get by (rewrite He; set_solver). by rewrite sk_get_empty in Hk.
Qed.

Lemma scanned_bucket bucket done s0 s idx azure possible idx' :
  dir_name bucket ∉ done -> named bucket s -> scanned done s0 s (idx, azure) ->
  rebuilt bucket (dir_order (children_of (bucket_dir bucket) s)) (get_or_create_bucket idx bucket) s (possible, idx') ->
  scanned (done ++ [dir_name bucket]) s0 s (idx', <[bucket := possible]> azure).
Proof.
  intros Hnd Hn [Hr Hk Hc Ho Hl] [Hr' Hk' Hclean]. cbn [fst snd] in *.
  assert (index_reachable (get_or_create_bucket idx bucket)) as Hi by (eapply rtc_r; [done|constructor]).
  assert (forall k o, current bucket k o s -> compute_object_id bucket k ∈ dir_order (children_of (bucket_dir bucket) s)) as Hent.
  { intros k o Hcur. destruct (Hcur) as (_ & _ & _ & _ & _ & <-). by apply elem_of_dir_order, current_entry. }
  assert (forall b, dir_name b = dir_name bucket -> named b s -> b = bucket) as Hone.
  { intros b Hb (_ & c & Hf & _ & <-). destruct Hn as (_ & c' & Hf' & _ & <-).
    unfold bucket_dir, join in Hf, Hf'. cbn [app] in *. unfold dir_name in Hb. rewrite Hb, Hf' in Hf. by injection Hf as ->. }
  split; cbn [fst snd]; [by apply Hr'|..|done].
  - intros b k. rewrite (Hk' Hi), indexed_keys_create, Hk, elem_of_app, list_elem_of_singleton. split.
    + intros [(? & ? & ?)|(-> & _ & ?)]; split_and!; auto.
    + intros ([Hin|Hb] & Hb' & o & Hcur); [by left; eauto|]. right. rewrite (Hone b Hb Hb') in *. eauto.
  - intros b Hin Hb. destruct (decide (b = bucket)) as [->|Hne].
    + exists possible. rewrite lookup_insert_eq. split; [done|]. intros Hf k o Hcur. eauto.
    + rewrite lookup_insert_ne by done. apply Hc; [|done]. apply elem_of_app in Hin as [?|Heq%list_elem_of_singleton]; [done|].
      by destruct Hne, (Hone b Heq Hb).
  - intros b p Hp. rewrite elem_of_app, list_elem_of_singleton. destruct (decide (b = bucket)) as [->|Hne]; [auto|].
    rewrite lookup_insert_ne in Hp by done. destruct (Ho b p Hp). auto.
Qed.

Lemma dir_name_not_hidden b : Text.starts_with (dir_name b) "." = false.
Proof. done. Qed.

Lemma index_root_entry_any n done s0 s acc :
  n ∉ done -> scanned done s0 s acc ->
  wp any_schedule (index_root_entry n acc) (fun acc' s' => scanned (done ++ [n]) s0 s' acc') (fun _ _ => True) (fun _ => True) s.
Proof.
  intros Hnd Hs. unfold index_root_entry. apply wp_bind, wp_gets.
  destruct (is_dir [n] s) eqn:Hd; simpl.
  2: { apply wp_ret. eapply scanned_skip; [done|reflexivity| |done]. intros b Hb [Hd' _].
       unfold bucket_dir in Hd'. unfold dir_name in Hb. congruence. }
  destruct (Text.starts_with n ".") eqn:Hdot.
  { apply wp_ret. eapply scanned_skip; [done|reflexivity| |done]. intros b <-. by rewrite dir_name_not_hidden in Hdot. }
  apply wp_bind, wp_sys; [intros _|done..].
  destruct (s !! join [n] ".bucket.name") as [[b|]|] eqn:Hname; [|done|].
  - destruct (utf8_valid b) eqn:Hutf; simpl; [|by apply wp_fail].
    destruct (eqb n _) eqn:Hid; simpl; [|by apply wp_fail]. apply (proj1 (eqb_true _ _)) in Hid. set (bucket := text_of_bytes b) in *.
    assert (n = dir_name bucket) as -> by exact Hid.
    apply wp_bind. change [dir_name bucket] with (bucket_dir bucket). eapply wp_mono; [apply rebuild_bucket_any| |done..].
    intros [possible idx'] s' [-> Hr]. simpl. apply wp_ret. destruct acc as [idx azure].
    eapply scanned_bucket; [done| |done|done]. split; [done|]. by exists b.
  - assert (forall b, dir_name b = n -> ~ named b s) as Hno.
    { intros b <- (_ & c & Hf & _). unfold bucket_dir in Hf. fold (dir_name b) in Hf. congruence. }
    destruct (Text.starts_with n "b-"); simpl; [|by apply wp_ret; eapply scanned_skip].
    apply wp_bind. eapply wp_mono; [apply recover_uncommitted_wp| |done..]. intros [] s' [Hafter _]; [|by apply wp_fail].
    apply wp_ret. eapply scanned_skip; [done| | |done].
    + destruct Hafter as [->|[_ ?]]; [reflexivity|done].
    + intros b Hb (_ & c & Hf & _). destruct Hafter as [->|[_ Ht]].
      * apply (Hno b Hb). unfold bucket_dir in Hf. fold (dir_name b) in Hf. congruence.
      * unfold bucket_dir in Hf. fold (dir_name b) in Hf. rewrite Hb in Hf. destruct (Ht (join [n] ".bucket.name")) as [Heq|[Heq _]]; congruence.
Qed.
End Rebuild.

(** ** Cancelled uploads *)

Section Cancellations.
Context {M : Type -> Type} `{SkipMapLaws M} `{EnvLaws} `{StoreEnv} `{StartupEnv} `{Digests}.
Abbreviation World := (World M).
Abbreviation IDENTITY := ".bucket.identity.json".
Implicit Types s : fs.

(** The state and the payloads of the providers. *)
Definition provider_area (q : path) : Prop := exists rest, q = ".provider-state" :: rest \/ q = ".provider-uploads" :: rest.

(** The identity file of a bucket and its private copies. *)
Definition identity_area (q : path) : Prop :=
  exists bucket n, q = [dir_name bucket; n] /\ (n = IDENTITY \/ exists u, n = temp_name IDENTITY u).

(** Provider files only disappear, identities may be written, the rest stays. *)
Definition retired (s s' : fs) : Prop :=
  (forall q, provider_area q -> s' !! q = s !! q \/ s' !! q = None) /\
  outside_same (fun q => provider_area q \/ identity_area q) s s'.

#[export] Instance retired_reflexive : Reflexive retired.
Proof. intros s. split; [by left|apply outside_refl]. Qed.
#[export] Instance retired_transitive : Transitive retired.
Proof.
  intros s1 s2 s3 [H12 K12] [H23 K23]. split; [|by eapply outside_trans].
  intros q Hq. destruct (H23 q Hq) as [->|?]; [by apply H12|by right].
Qed.

Definition wretired (w w' : World) : Prop :=
  w_index w' = w_index w /\ w_azure_protection_possible w' = w_azure_protection_possible w /\ retired (w_fs w) (w_fs w').

#[export] Instance wretired_reflexive : Reflexive wretired.
Proof. intros w. by split_and!. Qed.
#[export] Instance wretired_transitive : Transitive wretired.
Proof. intros w1 w2 w3 (? & ? & ?) (? & ? & ?). split_and!; [congruence..|by etrans]. Qed.

Lemma always_disk {A} (p : io fs A) : always retired p -> always wretired (disk p).
Proof. intros Hp σ w. specialize (Hp σ (w_fs w)). unfold disk, zoom. destruct (p σ (w_fs w)) as [[o s'] σ']. by split_and!. Qed.

Lemma always_kept {A} (p : io fs A) : always eq p -> always retired p.
Proof. intros Hp σ s. rewrite <- (Hp σ s). apply retired_reflexive. Qed.

Lemma read_file_keeps msg p : always eq (read_file msg p).
Proof. apply always_sys; [apply _| |done]. intros _ s a s' E. destruct (s !! p) as [[]|]; by simplify_eq. Qed.

Lemma retired_removed s s' (P : path -> Prop) : (forall q, P q -> provider_area q) ->
  (forall q, s' !! q = s !! q \/ s' !! q = None /\ P q) -> retired s s'.
Proof.
  intros HP Hs. split.
  - intros q _. destruct (Hs q) as [?|[? _]]; auto.
  - intros q Hq. destruct (Hs q) as [?|[_ Hb]]; [done|]. destruct Hq. left. by apply HP.
Qed.

Lemma remove_file_retires msg p : provider_area p -> always retired (remove_file msg p).
Proof.
  intros Hp. apply always_sys; [apply _| |by intros; apply retired_reflexive].
  intros _ s a s' E. destruct (is_file p s); [|done]. injection E as _ <-.
  apply (retired_removed s _ (fun q => q = p)); [by intros ? ->|]. intros q.
  destruct (decide (q = p)) as [->|]; [right; by rewrite lookup_delete_eq|left; by rewrite lookup_delete_ne].
Qed.

Lemma filter_retires p s (P : path * entry -> Prop) `{forall e, Decision (P e)} :
  provider_area p -> (forall e, below p e.1 = false -> P e) -> retired s (filter P s).
Proof.
  intros [rest Hp] HP. apply (retired_removed s _ (fun q => below p q = true)).
  - intros q Hq. apply below_spec in Hq as [t ->]. exists (rest ++ t). destruct Hp as [->| ->]; [by left|by right].
  - intros q. destruct (filter P s !! q) as [e|] eqn:E; [left; by apply map_lookup_filter_Some in E as [-> _]|].
    destruct (below p q) eqn:Hb; [by right|left]. symmetry. destruct (s !! q) as [e|] eqn:Hq; [|done].
    rewrite map_lookup_filter_None in E. destruct E as [E|E]; [congruence|]. destruct (E e Hq). by apply HP.
Qed.

Lemma remove_dir_all_retires msg p : provider_area p -> always retired (remove_dir_all msg p).
Proof.
  intros Hp. apply always_sys; [apply _|..].
  - intros _ s a s' E. destruct (is_dir p s); [|done]. injection E as _ <-. by apply (filter_retires p).
  - intros r s. apply (filter_retires p); [done|]. auto.
Qed.

Lemma delete_state_retires provider key : always wretired (delete_provider_state provider key).
Proof.
  apply always_bind; [apply _|apply always_gets; apply _|]. intros []; [|apply always_ret, _].
  apply always_disk, remove_file_retires. exists [provider; compute_object_id provider key +:+ ".json"]. by left.
Qed.

Lemma delete_session_retires provider session : always wretired (delete_upload_session provider session).
Proof.
  apply always_bind; [apply _|apply always_gets; apply _|]. intros []; [|apply always_ret, _].
  apply always_disk, remove_dir_all_retires. exists [sha256_hex provider; sha256_hex session]. by right.
Qed.

Lemma create_existing d Q E C s :
  path_exists [d] s = true -> Q tt s -> (forall e, E e s) -> C s ->
  wp any_schedule (create_directory_durable [d]) Q E C s.
Proof.
  intros Hp HQ HE HC. unfold create_directory_durable. cbn [reverse rev_append create_directory_rev].
  apply wp_bind, wp_gets. change (reverse [d]) with [d]. destruct (is_dir [d] s) eqn:Hd; [by apply wp_ret|].
  apply wp_bind, wp_bind, wp_gets. change (reverse []) with (@nil string). destruct (is_dir [] s); [|by apply wp_fail].
  apply wp_ret, wp_bind, wp_attempt, wp_sys.
  - intros _. rewrite Hp, andb_false_r. apply wp_bind, wp_bind, wp_gets. rewrite Hd. by apply wp_fail.
  - intros _ r. unfold untouched. apply wp_bind, wp_bind, wp_gets. rewrite Hd. by apply wp_fail.
  - by intros.
Qed.

(** Only the file and its private copies change. *)
Definition rewritten (d n : string) (s s' : fs) : Prop :=
  outside_same (fun q => q = [d; n] \/ exists u, q = [d; temp_name n u]) s s'.

Lemma rewritten_insert d n q e s0 s : q = [d; n] \/ (exists u, q = [d; temp_name n u]) ->
  rewritten d n s0 s -> rewritten d n s0 (<[q := e]> s).
Proof. intros Hq Hs q' Hq'. rewrite lookup_insert_ne by (by intros ->). by apply Hs. Qed.

Lemma rewritten_delete d n q s0 s : q = [d; n] \/ (exists u, q = [d; temp_name n u]) ->
  rewritten d n s0 s -> rewritten d n s0 (delete q s).
Proof. intros Hq Hs q' Hq'. rewrite lookup_delete_ne by (by intros ->). by apply Hs. Qed.

Lemma atomic_write_any d n b s : path_exists [d] s = true ->
  wp any_schedule (atomic_write [d; n] b) (fun _ => rewritten d n s) (fun _ => rewritten d n s) (rewritten d n s) s.
Proof.
  intros Hp. assert (rewritten d n s s) as Hs0 by apply outside_refl. unfold atomic_write. change (parent [d; n]) with [d].
  apply wp_bind, create_existing; [done| |done|done]. apply wp_bind, wp_of_res. simpl.
  apply wp_bind, wp_new_uuid. intros k _. set (temp := join [d] (temp_name n (uuid_text k))).
  assert ((temp = [d; n]) \/ exists u, temp = [d; temp_name n u]) as Ht by (right; by eexists).
  assert (forall (r : Res unit) s', rewritten d n s s' ->
    wp any_schedule ((if is_ok r then mret tt else ignore (remove_file "" temp));; of_res r)
      (fun _ => rewritten d n s) (fun _ => rewritten d n s) (rewritten d n s) s') as Hend.
  { intros r s' Hs'. apply wp_bind. destruct r; simpl; [by apply wp_ret, wp_ret|].
    apply wp_ignore, wp_sys; [intros _|by intros; apply wp_fail|done]. destruct (is_file temp s'); apply wp_fail; [|done].
    by apply rewritten_delete. }
  apply wp_bind, wp_attempt.
  apply wp_bind, wp_sys; [intros _|by intros; apply Hend|by intros].
  destruct (is_dir _ s && _); [|by apply Hend]. set (s1 := <[temp := File []]> s).
  assert (rewritten d n s s1) as H1' by (by apply rewritten_insert).
  apply wp_bind, wp_sys; [intros _| |].
  2: { intros _ r. cbn beta. destruct (is_file temp s1); apply Hend; [|done]. by apply rewritten_insert. }
  2: { intros _ r. cbn beta. destruct (is_file temp s1); [|done]. by apply rewritten_insert. }
  assert (is_file temp s1 = true) as -> by (unfold is_file, s1; by rewrite lookup_insert_eq).
  set (s2 := <[temp := File b]> s1). assert (rewritten d n s s2) as H2' by (by apply rewritten_insert).
  apply wp_bind, wp_sys; [intros _|by intros; apply Hend|by intros]. destruct (path_exists temp s2); [|by apply Hend].
  apply wp_bind, wp_sys; [intros linked|by intros; apply Hend|by intros].
  assert (s2 !! temp = Some (File b)) as -> by (unfold s2; by rewrite lookup_insert_eq).
  assert (rewritten d n s (<[[d; n] := File b]> (delete temp s2))) as H3' by (apply rewritten_insert; [by left|by apply rewritten_delete]).
  destruct (is_dir _ s2 && _); [|by apply Hend].
  destruct (linked && _); (apply wp_sys; [intros _|by intros; apply Hend|by intros]);
    lazymatch goal with |- match (if ?c then _ else _) with _ => _ end => destruct c end; by apply Hend.
Qed.

Lemma rewritten_identity bucket s s' : rewritten (dir_name bucket) IDENTITY s s' -> retired s s'.
Proof.
  intros Hs. assert (forall q, provider_area q -> ~ (q = [dir_name bucket; IDENTITY] \/ exists u, q = [dir_name bucket; temp_name IDENTITY u])) as Hd.
  { intros q [rest [->| ->]] [?|[u ?]]; discriminate. }
  split; [intros q Hq; left; by apply Hs, Hd|]. intros q Hq. apply Hs. intros Hin. apply Hq. right.
  destruct Hin as [->|[u ->]]; exists bucket; eexists; (split; [done|]); [by left|right; by exists u].
Qed.

Lemma kept_wretired {A} (p : io fs A) : always eq p -> always wretired (disk p).
Proof. intros Hp. by apply always_disk, always_kept. Qed.

Lemma read_document_retires {A} (c : Codec A) r m p : always wretired (read_document c r m p).
Proof.
  apply always_bind; [apply _|apply kept_wretired, read_file_keeps|]. intros json. apply always_of_res, _.
Qed.

Lemma identity_retires bucket (w : World) : path_exists (bucket_dir bucket) (w_fs w) = true ->
  wp any_schedule (read_bucket_identity_locked bucket) (fun _ => wretired w) (fun _ => wretired w) (wretired w) w.
Proof.
  intros Hp. assert (wretired w w) as Hw by reflexivity. unfold read_bucket_identity_locked. apply wp_bind, wp_gets.
  destruct (path_exists (join (bucket_dir bucket) IDENTITY) (w_fs w)); [apply (always_wp wretired), read_document_retires|].
  apply wp_bind, wp_gets, wp_bind, wp_of_res. destruct (file_created _ _) as [t|]; simpl; [|done].
  apply wp_bind, wp_zoom. eapply wp_mono; [by apply atomic_write_any|..]; simpl;
    intros; try apply wp_ret; (split_and!; [done..|by apply rewritten_identity with bucket]).
Qed.

Lemma get_bucket_retires bucket : always wretired (get_bucket bucket).
Proof.
  apply wp_always. intros w. assert (wretired w w) as Hw by reflexivity. unfold get_bucket, get_bucket_locked.
  apply wp_bind, wp_bind, wp_gets. destruct (path_exists (bucket_dir bucket) (w_fs w)) eqn:Hp; [|by apply wp_fail].
  apply wp_ret, wp_bind. eapply wp_mono; [by apply identity_retires| |done..]. cbn beta. intros i w1 H1'.
  lazymatch goal with |- wp _ ?prog _ _ _ _ => assert (always wretired prog) as Hprog end.
  { apply always_bind; [apply _|apply always_now, _|intros t].
    apply always_bind; [apply _| |intros enabled; apply always_bind; [apply _| |intros; apply always_ret, _]].
    - apply always_bind; [apply _|apply always_gets, _|intros []; [|apply always_ret, _]].
      apply always_bind; [apply _|apply always_attempt, kept_wretired, read_file_keeps|intros; apply always_ret, _].
    - apply always_bind; [apply _|apply always_gets, _|intros []; [apply read_document_retires|apply always_ret, _]]. }
  eapply wp_mono; [by apply (always_wp wretired)|..]; simpl; intros; by etrans.
Qed.

(** What a finished cancellation leaves of its session. *)
Definition session_gone (decision : UploadCancellation) (s : fs) : Prop :=
  path_exists (provider_state_path GCS_ACTIVE_SESSION_STATE (uc_session_id decision)) s = false /\
  path_exists (provider_upload_session_dir "gcs" (uc_session_id decision)) s = false.

Lemma gone_retired p s s' : provider_area p -> retired s s' -> path_exists p s = false -> path_exists p s' = false.
Proof. rewrite !path_exists_false. intros Hp [Hr _] Hn. destruct (Hr p Hp); congruence. Qed.

Lemma state_path_area provider key : provider_area (provider_state_path provider key).
Proof. eexists. by left. Qed.
Lemma session_dir_area provider session : provider_area (provider_upload_session_dir provider session).
Proof. eexists. by right. Qed.

Lemma session_gone_retired decision s s' : retired s s' -> session_gone decision s -> session_gone decision s'.
Proof. intros Hr [? ?]. split; (eapply gone_retired; [|done|done]); [apply state_path_area|apply session_dir_area]. Qed.

(** An always-rule with the result of a finished run. *)
Lemma wp_finished {A} (p : io World A) (P : World -> Prop) (w : World) :
  always wretired p -> wp any_schedule p (fun _ => P) (fun _ _ => True) (fun _ => True) w ->
  wp any_schedule p (fun _ w' => wretired w w' /\ P w') (fun _ _ => True) (fun _ => True) w.
Proof.
  intros Hp Hwp σ Hσ. specialize (Hp σ w). specialize (Hwp σ Hσ). destruct (p σ w) as [[[a|e|] w'] σ']; simpl in *; naive_solver.
Qed.

Lemma delete_state_gone provider key (w : World) :
  wp any_schedule (delete_provider_state provider key)
    (fun _ w' => wretired w w' /\ path_exists (provider_state_path provider key) (w_fs w') = false) (fun _ _ => True) (fun _ => True) w.
Proof.
  apply wp_finished; [apply delete_state_retires|]. apply wp_bind, wp_gets.
  destruct (path_exists _ (w_fs w)) eqn:Hp; [|by apply wp_ret]. apply wp_zoom, wp_sys; [intros _|done..].
  destruct (is_file _ _); [|done]. apply path_exists_false. simpl. by rewrite lookup_delete_eq.
Qed.

Lemma delete_session_gone provider session (w : World) :
  wp any_schedule (delete_upload_session provider session)
    (fun _ w' => wretired w w' /\ path_exists (provider_upload_session_dir provider session) (w_fs w') = false)
    (fun _ _ => True) (fun _ => True) w.
Proof.
  apply wp_finished; [apply delete_session_retires|]. apply wp_bind, wp_gets.
  destruct (path_exists _ (w_fs w)) eqn:Hp; [|by apply wp_ret]. apply wp_zoom, wp_sys; [intros _|done..].
  destruct (is_dir _ _); [|done]. apply path_exists_false, map_lookup_filter_None. right. intros e _. cbn [fst]. by rewrite below_refl.
Qed.

(** The decision a file of the cancellations holds. *)
Definition decides (name : string) (decision : UploadCancellation) (s : fs) : Prop :=
  is_dir cancellations_dir s = true /\ json_name name = true /\
  exists json, s !! join cancellations_dir name = Some (File json) /\ dec cancellation_codec json = Some decision.

Lemma apply_cancellation_gone name (w w1 : World) : wretired w w1 ->
  wp any_schedule (apply_cancellation name)
    (fun _ w' => wretired w1 w' /\ forall decision, decides name decision (w_fs w) -> session_gone decision (w_fs w'))
    (fun _ _ => True) (fun _ => True) w1.
Proof.
  intros Hw. unfold apply_cancellation. destruct (json_name name) eqn:Hj; simpl.
  2: { apply wp_ret. split; [reflexivity|]. intros decision (_ & ? & _). congruence. }
  apply wp_bind, wp_zoom, wp_sys; [intros _|done..]. destruct (w_fs w1 !! _) as [[json|]|] eqn:Hf; [|done..]. rewrite set_fs_id.
  apply wp_bind, wp_of_res. destruct (dec cancellation_codec json) as [decision|] eqn:Hdec; simpl; [|done].
  assert (forall d, decides name d (w_fs w) -> d = decision) as Hone.
  { intros d (_ & _ & json' & Hf' & Hdec'). destruct Hw as (_ & _ & Hr & _).
    destruct (Hr (join cancellations_dir name)) as [Heq|Heq]; [eexists; by left|..]; rewrite Hf in Heq; [|done].
    rewrite Hf' in Heq. injection Heq as ->. congruence. }
  destruct (negb _); [by apply wp_fail|].
  apply wp_bind. eapply wp_mono; [apply delete_state_gone| |done..]. cbn beta. intros _ w2 [H12 Hg1].
  apply wp_bind. eapply wp_mono; [apply delete_session_gone| |done..]. cbn beta. intros _ w3 [H23 Hg2].
  assert (session_gone decision (w_fs w3)) as Hgone.
  { split; [|done]. eapply gone_retired; [apply state_path_area|apply H23|done]. }
  lazymatch goal with |- wp _ ?prog _ _ _ _ => assert (always wretired prog) as Hprog end.
  { apply always_bind; [apply _|apply always_attempt, get_bucket_retires|intros r].
    apply always_bind; [apply _|destruct r as [|[]]; first [apply always_ret, _|apply always_fail, _]|intros cur].
    apply always_bind; [apply _|apply always_now, _|intros t]. destruct (obsolete _ _ _); [apply delete_state_retires|apply always_ret, _]. }
  eapply wp_mono; [by apply (always_wp wretired)| |done..]. cbn beta. intros _ w4 H34. split.
  - by do 2 (etrans; [eassumption|]).
  - intros d ->%Hone. by eapply session_gone_retired; [apply H34|].
Qed.

Lemma recover_cancellations_any (w : World) :
  wp any_schedule recover_gcs_cancellations
    (fun _ w' => wretired w w' /\ forall name decision, decides name decision (w_fs w) -> session_gone decision (w_fs w'))
    (fun _ _ => True) (fun _ => True) w.
Proof.
  apply wp_bind, wp_zoom, wp_sys; [intros _|done..]. destruct (w_fs w !! cancellations_dir) as [[|]|] eqn:Hd; [done|..]; rewrite set_fs_id.
  - set (names := dir_order _).
    eapply (wp_for_each _ _ (fun rest w1 => wretired w w1 /\ exists done, names = done ++ rest /\
      forall name decision, name ∈ done -> decides name decision (w_fs w) -> session_gone decision (w_fs w1))).
    + split; [reflexivity|]. exists []. split; [done|]. intros ? ? Hin. by apply elem_of_nil in Hin.
    + intros name rest w1 (Hw & done & Hn & Hdone).
      eapply wp_mono; [by apply apply_cancellation_gone| |done..]. cbn beta. intros _ w2 [H12 Hnew].
      split; [by etrans|]. exists (done ++ [name]). rewrite <- app_assoc. split; [done|]. intros n d Hin Hd'.
      apply elem_of_app in Hin as [Hin| ->%list_elem_of_singleton]; [|by apply Hnew].
      eapply session_gone_retired; [apply H12|]. by eapply Hdone.
    + intros w1 (Hw & done & Hn & Hdone). rewrite app_nil_r in Hn. subst done. split; [done|]. intros name decision Hdec.
      apply (Hdone name); [|done]. unfold names. destruct Hdec as (_ & _ & json & Hf & _). apply elem_of_dir_order. by exists (File json).
  - apply wp_ret. split; [reflexivity|]. intros name decision (Hd' & _).
    apply is_dir_true in Hd'. congruence.
Qed.
End Cancellations.

(** ** Opening a root *)

Section Opening.
Context {M : Type -> Type} `{SkipMapLaws M} `{EnvLaws} `{StoreEnv} `{StartupEnv} `{Digests}.
Abbreviation World := (World M).

Lemma retired_bucket_area s s' bucket rest : retired s s' ->
  (forall n, rest = [n] -> n <> ".bucket.identity.json" /\ forall u, n <> temp_name ".bucket.identity.json" u) ->
  s' !! (dir_name bucket :: rest) = s !! (dir_name bucket :: rest).
Proof.
  intros [_ Hr] Hrest. apply Hr. intros [[r [Hq|Hq]]|(b & n & [= _ ->] & Hn)]; [done..|].
  destruct (Hrest n eq_refl) as [Hn1 Hn2]. destruct Hn as [?|[u ?]]; [done|by eapply Hn2].
Qed.

Lemma retired_named bucket s s' : retired s s' -> named bucket s' <-> named bucket s.
Proof.
  intros Hr. unfold named, is_dir, bucket_dir, join. cbn [app]. fold (dir_name bucket).
  by rewrite !(retired_bucket_area s s' bucket _ Hr) by (intros n; by intros [= <-]).
Qed.

Lemma retired_current bucket k o s s' : retired s s' -> current bucket k o s' <-> current bucket k o s.
Proof.
  intros Hr. unfold current, path_exists, is_dir, object_dir, object_id_dir, bucket_dir, join. cbn [app]. fold (dir_name bucket).
  rewrite !(retired_bucket_area s s' bucket _ Hr); [done|..]; intros n; try done. intros [= <-].
  split; [|intros u]; apply object_id_not_hidden.
Qed.

Lemma root_entries s : NoDup (dir_order (children_of [] s)).
Proof. rewrite (dir_order_perm (children_of [] s)). apply NoDup_children. Qed.

Lemma scan_root_any s :
  wp any_schedule (fold_io index_root_entry (dir_order (children_of [] s)) (new_index, ∅))
    (fun acc s' => scanned (dir_order (children_of [] s)) s s' acc) (fun _ _ => True) (fun _ => True) s.
Proof.
  set (names := dir_order _). pose proof (root_entries s : NoDup names) as Hnd.
  eapply (wp_fold_io _ _ (fun rest acc s' => exists done, names = done ++ rest /\ scanned done s s' acc)).
  - exists []. split; [done|]. split; cbn [fst snd].
    + constructor.
    + intros b k. split; [|intros [Hin _]; by apply elem_of_nil in Hin].
      unfold indexed_keys, new_index. rewrite sk_get_empty. by intros ?%elem_of_nil.
    + intros b Hin. by apply elem_of_nil in Hin.
    + intros b p. by rewrite lookup_empty.
    + by left.
  - intros n rest acc s' (done & Hns & Hsc). rewrite Hns in Hnd. apply list.NoDup_app in Hnd as (_ & Hdis & _).
    eapply wp_mono; [apply index_root_entry_any; [|done]| |done..].
    + intros Hin. apply (Hdis n Hin). set_solver.
    + intros acc' s'' Hsc'. exists (done ++ [n]). by rewrite <- app_assoc.
  - intros acc s' (done & -> & Hsc). by rewrite app_nil_r.
Qed.

(** C6 [opened_store_agrees]. A store that opens agrees with its disk,
    whatever the disk held and whatever recovery had to do: after try_new
    returns Ok the index is well formed, holds a key exactly when the
    directory of a named bucket shows a current object of that key, and a
    bucket the Azure protection cache clears has no object with protection
    metadata. *)
Theorem opened_store_agrees (w w' : World) σ σ' :
  try_new σ w = (Done tt, w', σ') ->
  index_reachable (w_index w') /\
  (forall bucket key, index_contains (w_index w') bucket key = true <->
     named bucket (w_fs w') /\ exists o, current bucket key o (w_fs w')) /\
  (forall bucket, azure_object_protection_absent bucket w' = true ->
     forall key o, current bucket key o (w_fs w') -> object_has_azure_protection_metadata o = false).
Proof.
  intros Hrun.
  assert (wp any_schedule try_new (fun _ w' => exists s0 s acc, is_dir [] s0 = true /\ scanned (dir_order (children_of [] s0)) s0 s acc /\
    w_index w' = acc.1 /\ w_azure_protection_possible w' = acc.2 /\ retired s (w_fs w')) (fun _ _ => True) (fun _ => True) w) as Hwp.
  { unfold try_new. assert (forall A (p : io World A), always (fun _ _ : World => True) p) as Hany by (by intros A p ? ?).
    apply wp_bind. eapply wp_mono; [apply (always_wp _ _ _ (Hany _ _))| |done..]. intros _ w0 _.
    apply wp_bind. eapply wp_mono; [apply (always_wp _ _ _ (Hany _ _))| |done..]. intros _ w1 _.
    apply wp_bind, wp_zoom, read_dir_any; [|done..]. intros Hroot. apply wp_bind, wp_zoom. rewrite set_fs_id.
    eapply wp_mono; [apply scan_root_any| |done..]. cbn beta. intros [idx azure] s Hsc. apply wp_bind, wp_modify.
    eapply wp_mono; [apply recover_cancellations_any| |done..]. cbn beta. intros _ w2 [(Hi & Ha & Hr) _].
    by exists (w_fs w1), s, (idx, azure). }
  pose proof (wp_run _ _ _ _ _ _ _ _ _ _ Hwp (any_schedule_ok σ) Hrun) as (s0 & s & acc & Hroot & [Hreach Hkeys Hcache Honly Hless] & Hi & Ha & Hr).
  assert (forall bucket, named bucket s -> dir_name bucket ∈ dir_order (children_of [] s0)) as Hin.
  { intros bucket [Hd%is_dir_true _]. apply elem_of_dir_order. unfold join. cbn [app].
    destruct (Hless (bucket_dir bucket)) as [Heq|Heq]; [rewrite Hd in Heq|congruence]. by exists Directory. }
  rewrite Hi. split_and!; [done|..].
  - intros bucket key. rewrite index_contains_keys, Hkeys, (retired_named bucket s (w_fs w') Hr).
    setoid_rewrite (retired_current bucket key _ s (w_fs w') Hr). naive_solver.
  - intros bucket Habs key o. rewrite (retired_current bucket key o s (w_fs w') Hr). unfold azure_object_protection_absent in Habs.
    apply (proj1 (eqb_true _ _)) in Habs. rewrite Ha in Habs. destruct (Honly _ _ Habs) as [Hin' Hn].
    destruct (Hcache bucket Hin' Hn) as (p & Hp & Hclean). rewrite Habs in Hp. injection Hp as <-. by apply Hclean.
Qed.

(** C22 [legacy_root_untouched]. Opening a root that holds something else than
    the writer lock and has no format marker changes nothing, under any
    schedule of failures and crashes: it never returns Ok, and without faults
    it answers that legacy storage was detected. *)
Theorem legacy_root_untouched (w w' : World) name σ out σ' :
  is_dir [] (w_fs w) = true -> w_fs w !! [FORMAT_MARKER] = None -> is_Some (w_fs w !! [name]) -> name <> WRITER_LOCK_FILE ->
  open σ w = (out, w', σ') ->
  w' = w /\ out <> Done tt /\ (sched_ok calm σ -> out = Failed (InvalidRequest "Legacy nonempty storage detected")).
Proof.
  intros Hroot Hmark Hin Hne Hrun.
  assert (forall m, wp m open (fun _ _ => False) (fun e w' => w' = w /\ (m_faults m = false -> e = InvalidRequest "Legacy nonempty storage detected"))
    (fun w' => w' = w /\ m_faults m = true) w) as Hwp.
  { intros m. unfold open. apply wp_bind, wp_zoom, wp_existing_directory; [done|]. rewrite set_fs_id.
    apply wp_bind, wp_zoom, wp_bind, wp_gets. rewrite (proj2 (path_exists_false _ _) Hmark).
    assert (set_fs (w_fs w) w = w) as Hw by apply set_fs_id.
    apply wp_bind, wp_bind, wp_sys; unfold untouched; [intros _|intros Hf; rewrite Hf; done|intros Hf; rewrite Hf; done].
    rewrite Hroot. apply wp_ret.
    replace (existsb _ _) with true; [by apply wp_fail|]. symmetry. apply existsb_true. exists name. split; [by apply elem_of_dir_order|].
    apply negb_true_iff. by apply eqb_false. }
  pose proof (wp_run _ _ _ _ _ _ _ _ _ _ (Hwp any_schedule) (any_schedule_ok σ) Hrun) as Hany.
  destruct out as [[]|e|]; [done|..]; destruct Hany as [-> _]; (split_and!; [done..|]); intros Hσ;
    pose proof (wp_run _ _ _ _ _ _ _ _ _ _ (Hwp calm) Hσ Hrun) as [_ Hc]; [by rewrite Hc|done].
Qed.

(** C23 [interrupted_creation_only]. The recovery of a bucket directory
    touches only a creation that was interrupted: if it changes anything then
    the directory had a digest for a name and held only private name files,
    and what is gone is that directory and these files. *)
Theorem interrupted_creation_only d s s' out σ σ' :
  recover_uncommitted_bucket d σ s = (out, s', σ') -> s' <> s ->
  unfinished d s /\ forall q, s' !! q = s !! q \/ s' !! q = None /\ (q = d \/ exists n, q = join d n /\ name_temporary n = true).
Proof.
  intros Hrun Hne. pose proof (wp_run _ _ _ _ _ _ _ _ _ _ (recover_uncommitted_wp d s) (any_schedule_ok σ) Hrun) as Hr.
  assert (s' = s \/ unfinished d s /\ thinned d s s') as [?|[Hu Ht]] by (destruct out; simpl in Hr; naive_solver); [done|].
  split; [done|]. intros q. destruct (Ht q) as [?|[Hn Hq]]; [by left|]. destruct (s !! q) as [e|] eqn:He; [|left; congruence].
  right. split; [done|]. destruct Hq as [->|[n ->]]; [by left|]. right. exists n. split; [done|]. by apply Hu.
Qed.

(** C24 [cancelled_uploads_stay_cancelled]. A cancellation recorded before a
    crash is carried out on restart: once recover_gcs_cancellations has
    returned Ok, no state and no staged payload of an upload session that a
    decision on disk cancels is left. *)
Theorem cancelled_uploads_stay_cancelled (w w' : World) σ σ' name decision :
  recover_gcs_cancellations σ w = (Done tt, w', σ') -> decides name decision (w_fs w) -> session_gone decision (w_fs w').
Proof.
  intros Hrun. pose proof (wp_run _ _ _ _ _ _ _ _ _ _ (recover_cancellations_any w) (any_schedule_ok σ) Hrun) as [_ Hg]. apply Hg.
Qed.
End Opening.

(** ** At a concrete root *)

Module Restart.
Definition cancellation_fields (c : UploadCancellation) : string * string * time * time :=
  (uc_session_id c, uc_bucket c, uc_bucket_created_at c, uc_expires_at c).

#[export] Instance cancellation_eq_dec : EqDecision UploadCancellation.
Proof. solve_decision. Defined.
#[export] Instance cancellation_countable : Countable UploadCancellation.
Proof.
  refine (inj_countable' cancellation_fields (fun '(a, b, c, d) => mkCancellation a b c d) _). by intros [].
Defined.
#[export] Instance concrete_startup_env : StartupEnv := {| cancellation_codec := countable_codec |}.

(** A finished run, as an equation. *)
Lemma finished {S} (p : io S unit) σ s : (p σ s).1.1 = Done tt -> p σ s = (Done tt, (p σ s).1.2, (p σ s).2).
Proof. destruct (p σ s) as [[o s'] σ']. simpl. by intros ->. Qed.

(** The store of [Scenario] after the process ended: only the disk is left. *)
Definition stopped : Store := mkWorld (w_fs filled) new_index ∅ ∅.
Definition reopened : Store := run try_new 400 stopped.

Lemma opened_store_agrees_witness :
  indexed_keys (w_index stopped) Scenario.bucket = [] /\ indexed_keys (w_index reopened) Scenario.bucket = keys /\
  (index_contains (w_index reopened) Scenario.bucket "dir/x" = true <->
   named Scenario.bucket (w_fs reopened) /\ exists o, current Scenario.bucket "dir/x" o (w_fs reopened)).
Proof.
  split_and!; [vm_compute; reflexivity..|].
  assert (try_new (quiet 400) stopped = (Done tt, reopened, (try_new (quiet 400) stopped).2)) as Hrun.
  { unfold reopened, run. apply finished. vm_compute. reflexivity. }
  destruct (opened_store_agrees stopped reopened (quiet 400) _ Hrun) as (_ & Hkeys & _). apply Hkeys.
Defined.

Lemma legacy_root_untouched_witness : (open (quiet 0) filled).1.2 = filled.
Proof.
  apply (legacy_root_untouched filled _ (dir_name Scenario.bucket) (quiet 0) (open (quiet 0) filled).1.1 (open (quiet 0) filled).2);
    [vm_compute; reflexivity|vm_compute; reflexivity|vm_compute; by eexists|discriminate|].
  by destruct (open (quiet 0) filled) as [[? ?] ?].
Defined.

(** A creation killed before its name was in place. *)
Definition digest_dir : string := "b-0123456789abcdef0123456789abcdef0123456789abcdef0123456789abcdef".
Definition half_made : fs :=
  <[ [digest_dir; temp_name ".bucket.name" (uuid_text 7)] := File [] ]> (<[ [digest_dir] := Directory ]> (w_fs filled)).

Lemma interrupted_creation_only_witness :
  (recover_uncommitted_bucket [digest_dir] (quiet 0) half_made).1.1 = Done true /\ unfinished [digest_dir] half_made.
Proof.
  assert ((recover_uncommitted_bucket [digest_dir] (quiet 0) half_made).1.1 = Done true) as Hr by (vm_compute; reflexivity).
  split; [exact Hr|].
  apply (interrupted_creation_only [digest_dir] half_made (recover_uncommitted_bucket [digest_dir] (quiet 0) half_made).1.2
           (Done true) (quiet 0) (recover_uncommitted_bucket [digest_dir] (quiet 0) half_made).2).
  - revert Hr. destruct (recover_uncommitted_bucket _ _ _) as [[? ?] ?]. by intros [= ->].
  - intros Heq%(f_equal (lookup [digest_dir])). vm_compute in Heq. discriminate Heq.
Defined.

(** A session that was cancelled while its payloads were staged. *)
Definition decision : UploadCancellation := mkCancellation "session" "b" 0%Z 5%Z.
Definition decision_name : string := compute_object_id GCS_XML_CANCELLATION_STATE "session" +:+ ".json".
Definition cancelled : Store :=
  mkWorld (<[ join cancellations_dir decision_name := File (enc cancellation_codec decision) ]>
          (<[ cancellations_dir := Directory ]> (<[ [".provider-state"] := Directory ]>
          (<[ provider_upload_session_dir "gcs" "session" := Directory ]> (w_fs filled))))) new_index ∅ ∅.

Lemma cancelled_uploads_stay_cancelled_witness :
  path_exists (provider_upload_session_dir "gcs" "session") (w_fs cancelled) = true /\
  session_gone decision (w_fs (recover_gcs_cancellations (quiet 0) cancelled).1.2).
Proof.
  split; [vm_compute; reflexivity|].
  apply (cancelled_uploads_stay_cancelled cancelled _ (quiet 0) (recover_gcs_cancellations (quiet 0) cancelled).2 decision_name).
  - apply finished. vm_compute. reflexivity.
  - split; [vm_compute; reflexivity|split; [vm_compute; reflexivity|]]. eexists. split; vm_compute; reflexivity.
Defined.
End Restart.
