(* ===== verification/Sms.v ===== *)
(** * Sms: captured text messages, [src/sms/*.rs]

    The messages, their admission against the capture budget, the store on disk
    ([src/sms/filesystem.rs]) with the trait it implements, and the simulator of
    deliveries and callbacks ([src/sms/simulator.rs]).  The lock of the store
    serializes its operations; the model runs one at a time.  The network, the
    digests, the URL parser and [serde_json] are parameters ([SmsEnv]); environment
    variables are the fields of [SmsSettings]. *)

From Stdlib Require Import Ascii.
From stdpp Require Import pretty.
From S2P Require Import Prelude Text Models Utf8 FsModel Publication FileFacts Capture.

(** ** Messages *)

Inductive SmsProvider : Type := Twilio | Sns | AwsSmsVoiceV2 | AcsSms.

Definition provider_as_str (p : SmsProvider) : string :=
  match p with
  | Twilio => "twilio" | Sns => "sns" | AwsSmsVoiceV2 => "aws-sms-voice-v2" | AcsSms => "acs"
  end.

(** [SmsProvider::from_str] *)
Definition provider_from_str (value : string) : result string SmsProvider :=
  let v := Text.to_ascii_lowercase (Text.trim value) in
  if eqb v "twilio" then Ok Twilio
  else if eqb v "sns" then Ok Sns
  else if eqb v "aws-sms-voice-v2" || eqb v "sms-voice" || eqb v "pinpoint-sms-voice-v2" then Ok AwsSmsVoiceV2
  else if eqb v "acs" || eqb v "azure" then Ok AcsSms
  else Err ("unsupported SMS provider: " +:+ value).

Inductive SmsDirection : Type := Inbound | Outbound.
Inductive SmsChannel : Type := SmsText | Mms.
Inductive SmsDeliveryState : Type := Accepted | Delivered | DeliveryFailed.
Inductive CallbackKind : Type := CallbackInbound | CallbackDelivery.
Inductive CallbackAttemptState : Type := AttemptSucceeded | AttemptFailed.

#[export] Instance SmsProvider_eq_dec : EqDecision SmsProvider.
Proof. solve_decision. Defined.
#[export] Instance SmsDirection_eq_dec : EqDecision SmsDirection.
Proof. solve_decision. Defined.
#[export] Instance SmsDeliveryState_eq_dec : EqDecision SmsDeliveryState.
Proof. solve_decision. Defined.

Record SmsMedia : Type := mkMedia {
  md_media_id : string;
  md_filename : string;
  md_content_type : string;
  md_size : option N;
  md_external_url : option string }.

Record SmsMessage `{Json} : Type := mkSms {
  sms_message_id : string;
  sms_batch_id : option string;
  sms_provider : SmsProvider;
  sms_provider_message_id : string;
  sms_direction : SmsDirection;
  sms_channel : SmsChannel;
  sms_from : string;
  sms_to : string;
  sms_body : string;
  sms_media : list SmsMedia;
  sms_metadata : gmap string json_value;
  sms_peer : string;
  sms_delivery_state : SmsDeliveryState;
  sms_created_at : time;
  sms_updated_at : time }.

Record NewSmsMedia : Type := mkNewMedia {
  nm_filename : string;
  nm_content_type : string;
  nm_content : option bytes;
  nm_external_url : option string }.

Record NewSmsMessage `{Json} : Type := mkNewSms {
  ns_batch_id : option string;
  ns_provider : SmsProvider;
  ns_provider_message_id : option string;
  ns_direction : SmsDirection;
  ns_channel : SmsChannel;
  ns_from : string;
  ns_to : string;
  ns_body : string;
  ns_media : list NewSmsMedia;
  ns_metadata : gmap string json_value }.

Record SmsConversation : Type := mkConversation {
  cv_peer : string;
  cv_message_count : N;
  cv_last_message_at : time;
  cv_last_message_body : string;
  cv_last_direction : SmsDirection;
  cv_provider : SmsProvider }.

Record ListSmsParams : Type := mkSmsParams { sp_marker : option string; sp_limit : option N }.
Definition default_sms_params : ListSmsParams := mkSmsParams None None.
Record ListSmsMessagesResult `{Json} : Type := mkSmsPage {
  sr_messages : list SmsMessage;
  sr_next_marker : option string }.

Record TextDestination : Type := mkDestination {
  td_provider : SmsProvider;
  td_local_number : string;
  td_callback_url : string;
  td_created_at : time;
  td_updated_at : time }.

Record CallbackAttempt : Type := mkAttempt {
  ca_attempt_id : string;
  ca_message_id : string;
  ca_kind : CallbackKind;
  ca_provider : SmsProvider;
  ca_url : string;
  ca_request_headers : strmap;
  ca_request_body : string;
  ca_response_status : option N;
  ca_response_body : option string;
  ca_error : option string;
  ca_state : CallbackAttemptState;
  ca_attempted_at : time;
  ca_retry_of : option string }.

Definition is_digit (a : ascii) : bool := let n := N_of_ascii a in (48 <=? n)%N && (n <=? 57)%N.
Definition is_alphanumeric (a : ascii) : bool :=
  let n := N_of_ascii a in is_digit a || (65 <=? n)%N && (n <=? 90)%N || (97 <=? n)%N && (n <=? 122)%N.

Definition is_e164 (value : string) : bool :=
  (8 <=? Text.len value)%N && (Text.len value <=? 16)%N &&
  match value with
  | String a rest => eqb a "+"%char && forallb is_digit (String.list_ascii_of_string rest)
  | EmptyString => false
  end.

Definition valid_sender (value : string) : bool :=
  negb (Text.is_empty (Text.trim value)) && (Text.len value <=? 64)%N &&
  negb (existsb (fun a => eqb a Utf8.CR || eqb a Utf8.LF) (String.list_ascii_of_string value)) &&
  (is_e164 value ||
   forallb (fun a => is_alphanumeric a || eqb a " "%char || eqb a "-"%char || eqb a "_"%char) (String.list_ascii_of_string value)).

(** ** What the code takes from outside *)

(** The [serde_json::Value]s that callbacks are made of. *)
Inductive JsonText : Type :=
| JNull
| JText (s : string)
| JObject (fields : list (string * JsonText))
| JArray (items : list JsonText).

(** A parsed URL: [http::Uri]. *)
Record Uri : Type := mkUri {
  uri_scheme : option string;
  uri_host : option string;
  uri_port : option N;
  uri_authority : option string;
  uri_path_and_query : option string }.

Class SmsEnv `{Json} : Type := {
  encode_sms : SmsMessage -> bytes;
  decode_sms : bytes -> option SmsMessage;
  encode_destination : TextDestination -> bytes;
  decode_destination : bytes -> option TextDestination;
  encode_attempt : CallbackAttempt -> bytes;
  decode_attempt : bytes -> option CallbackAttempt;
  (** the pieces in which the fields of a message and of a media item are rendered *)
  sms_chunks : NewSmsMessage -> list bytes;
  media_chunks : NewSmsMedia -> list bytes;
  (** [Uuid::simple], [serde_json::to_string], [to_rfc3339], [urlencoding::encode], HMAC-SHA1 in base64 *)
  uuid_simple : N -> string;
  render_json : JsonText -> string;
  rfc3339 : time -> string;
  url_encode : string -> string;
  hmac_sha1_base64 : string -> string -> string;
  (** [str::parse::<Uri>]; the order of a [HashMap] *)
  parse_uri : string -> result string Uri;
  header_order : strmap -> list (string * string);
  (** the bytes a peer answers to a request, in the exchange of one attempt, or
      the text of the error *)
  exchange : string -> string -> N -> bytes -> result string bytes }.

Class SmsEnvLaws `{SmsEnv} : Prop := {
  decode_encode_sms : forall m, decode_sms (encode_sms m) = Some m;
  decode_encode_destination : forall d, decode_destination (encode_destination d) = Some d;
  decode_encode_attempt : forall a, decode_attempt (encode_attempt a) = Some a;
  header_order_perm : forall h, header_order h ≡ₚ map_to_list h }.

(** The environment variables the simulator reads. *)
Record SmsSettings : Type := mkSettings {
  set_twilio_account_sid : option string;
  set_twilio_auth_token : option string;
  set_api_port : option string;
  set_allowed_hosts : option string }.

(** [str::parse::<u16>] *)
Definition parse_u16 (s : string) : option N :=
  n ← Text.parse_u64 s; if (n <? 65536)%N then Some n else None.

Section Sms.
Context `{Env} `{CaptureEnv} `{!SmsEnv}.

(** ** Admission: [src/sms/budget.rs] *)

Fixpoint add_media (budget : CaptureBudget) (media : list NewSmsMedia) : Res CaptureBudget :=
  match media with
  | [] => Ok budget
  | item :: rest =>
      n ← json_bytes (media_chunks item);
      b1 ← copies budget n 4;
      b2 ← budget_add b1 ENVELOPE_BYTES;
      b3 ← copies b2 (default 0%N (size_of <$> nm_content item)) 2;
      add_media b3 rest
  end.

Fixpoint add_sms (budget : CaptureBudget) (messages : list NewSmsMessage) : Res CaptureBudget :=
  match messages with
  | [] => Ok budget
  | message :: rest =>
      n ← json_bytes (sms_chunks message);
      b1 ← copies budget n 4;
      b2 ← copies b1 ENVELOPE_BYTES 4;
      b3 ← add_media b2 (ns_media message);
      add_sms b3 rest
  end.

Definition check_messages (messages : list NewSmsMessage) (records : list RepeatabilityRecord) : Res unit :=
  b ← add_sms default_budget messages;
  _ ← budget_records b records; Ok tt.

(** ** Names on disk *)

(** [{blobs_path}/_sms] *)
Definition sms_root : path := ["_sms"].

Definition validate_id (value : string) : Res unit :=
  if Text.is_empty value || Text.contains value "/" || Text.contains value "\" || Text.contains value ".."
  then Err (InvalidRequest ("invalid SMS storage identifier: " +:+ value)) else Ok tt.

Definition message_path (message_id : string) : Res path :=
  _ ← validate_id message_id; Ok (join (join sms_root "messages") (message_id +:+ ".json")).

Definition peer_hash (peer : string) : Res string :=
  if Text.is_empty (Text.trim peer) then Err (InvalidRequest "peer must not be empty") else Ok (sha256_hex peer).
Definition peer_sidecar (peer : string) : Res path :=
  hash ← peer_hash peer; Ok (join (join sms_root "conversations") (hash +:+ ".peer")).
Definition peer_index_dir (peer : string) : Res path :=
  hash ← peer_hash peer; Ok (join (join sms_root "conversations") hash).
Definition media_dir (message_id : string) : path := join (join sms_root "media") message_id.
Definition media_path (message_id media_id : string) : Res path :=
  _ ← validate_id message_id; _ ← validate_id media_id; Ok (join (media_dir message_id) media_id).
Definition destination_path (provider : SmsProvider) (local_number : string) : Res path :=
  hash ← peer_hash local_number;
  Ok (join (join (join sms_root "destinations") (provider_as_str provider)) (hash +:+ ".json")).
Definition callback_path (attempt_id : string) : Res path :=
  _ ← validate_id attempt_id; Ok (join (join sms_root "callbacks") (attempt_id +:+ ".json")).

(** [open] *)
Definition open_sms : io fs unit :=
  for_each (fun child => create_dir_all "io" (join sms_root child))
    ["messages"; "conversations"; "media"; "destinations"; "callbacks"];;
  recover sms_root.

(** ** Files *)

(** [fs::read] and [serde_json::from_slice], a missing file being [MessageNotFound] *)
Definition read_json {A} (decode : bytes -> option A) (p : path) : io fs A :=
  data ← read_if_present "io" p;
  match data with
  | None => fail MessageNotFound
  | Some b => of_res (ok_or (InternalError "json") (decode b))
  end.
Definition read_message_path : path -> io fs SmsMessage := read_json decode_sms.

Definition write_atomic (p : path) (data : bytes) : io fs unit :=
  create_dir_all "io" (parent p);;
  name ← of_res (ok_or (InternalError "SMS path has no filename") (file_name p));
  u ← new_uuid;
  let temporary := join (parent p) (name +:+ "." +:+ u +:+ ".tmp") in
  create_file "io" temporary;; write_all "io" temporary data;;
  rename "io" temporary p.

Definition message_ids_for_peer (peer : string) : io fs (list string) :=
  dir ← of_res (peer_index_dir peer);
  entries ← attempt (read_dir "io" dir);
  mret (match entries with
        | Err _ => []
        | Ok names => merge_sort String.le (file_stem <$> filter (fun n => extension n = Some "idx") names)
        end).

(** ** New messages *)

Fixpoint prepare_media (items : list NewSmsMedia) : io fs (list SmsMedia * list (string * bytes)) :=
  match items with
  | [] => mret ([], [])
  | item :: rest =>
      u ← new_uuid;
      let media_id := "media-" +:+ u in
      more ← prepare_media rest;
      mret (mkMedia media_id (nm_filename item) (nm_content_type item) (size_of <$> nm_content item) (nm_external_url item) :: more.1,
            match nm_content item with Some content => (media_id, content) :: more.2 | None => more.2 end)
  end.

(** [generate_provider_message_id] *)
Definition generate_provider_message_id (provider : SmsProvider) : io fs string :=
  match provider with
  | Twilio => n ← new_uuid_number; mret ("SM" +:+ uuid_simple n)
  | _ => new_uuid
  end.

Definition prepare_message (new : NewSmsMessage) (transaction_id : string) : io fs (SmsMessage * list (string * bytes)) :=
  if Text.is_empty (Text.trim (ns_from new)) || Text.is_empty (Text.trim (ns_to new))
  then fail (InvalidRequest "from and to must not be empty")
  else
    let peer := match ns_direction new with Outbound => ns_to new | Inbound => ns_from new end in
    u ← new_uuid;
    let message_id := "txt-" +:+ u in
    provider_message_id ← match ns_provider_message_id new with
                          | Some id => mret id
                          | None => generate_provider_message_id (ns_provider new)
                          end;
    t ← now;
    media ← prepare_media (ns_media new);
    mret (mkSms _ message_id (ns_batch_id new) (ns_provider new) provider_message_id (ns_direction new) (ns_channel new)
            (ns_from new) (ns_to new) (ns_body new) media.1
            (<[TRANSACTION_METADATA := json_string transaction_id]> (ns_metadata new)) peer Accepted t t, media.2).

(** The file of a conversation with its address. *)
Definition ensure_peer (peer : string) : io fs path :=
  peer_dir ← of_res (peer_index_dir peer);
  create_dir_all "io" peer_dir;;
  sidecar ← of_res (peer_sidecar peer);
  present ← gets (path_exists sidecar);
  (if (present : bool) then
     data ← read_file "io" sidecar;
     text ← of_res (ok_or (InternalError "io") (Utf8.from_utf8 data));
     if eqb text peer then mret tt else fail (InternalError "SMS peer storage key collision")
   else write_atomic sidecar (as_bytes peer));;
  mret peer_dir.

(** The files of one message. *)
Definition message_files (message : SmsMessage) (peer_dir : path) (media : list (string * bytes)) : Res (list (path * bytes)) :=
  p ← message_path (sms_message_id message);
  media_files ← (fix go (l : list (string * bytes)) : Res (list (path * bytes)) :=
    match l with
    | [] => Ok []
    | (media_id, content) :: rest =>
        q ← media_path (sms_message_id message) media_id; more ← go rest; Ok ((q, content) :: more)
    end) media;
  Ok ((p, encode_sms message) :: (join peer_dir (sms_message_id message +:+ ".idx"), []) :: media_files).

Fixpoint prepare_messages (messages : list NewSmsMessage) (id : string) : io fs (list SmsMessage * list (path * bytes)) :=
  match messages with
  | [] => mret ([], [])
  | new :: rest =>
      prepared ← prepare_message new id;
      let '(message, media) := prepared in
      peer_dir ← ensure_peer (sms_peer message);
      files ← of_res (message_files message peer_dir media);
      more ← prepare_messages rest id;
      mret (message :: more.1, files ++ more.2)
  end.

Definition capture_messages (messages : list NewSmsMessage) (records : list RepeatabilityRecord) : io fs (list SmsMessage) :=
  of_res (check_messages messages records);;
  id ← new_transaction_id;
  prepared ← prepare_messages messages id;
  let record_files := (fun record => record_file sms_root (with_transaction id record)) <$> records in
  commit sms_root id (prepared.2 ++ record_files);;
  mret prepared.1.

(** ** Readers *)

Definition transaction_of (message : SmsMessage) : string :=
  default "" (sms_metadata message !! TRANSACTION_METADATA ≫= json_as_str).
Definition visible (message : SmsMessage) (s : fs) : bool := is_committed sms_root (transaction_of message) s.

Definition file_get_message (message_id : string) : io fs SmsMessage :=
  p ← of_res (message_path message_id);
  message ← read_message_path p;
  shown ← gets (visible message);
  if (shown : bool) then mret message else fail MessageNotFound.

Fixpoint find_provider_id (provider_message_id : string) (names : list string) : io fs SmsMessage :=
  match names with
  | [] => fail MessageNotFound
  | name :: rest =>
      if negb (eqb (extension name) (Some "json")) then find_provider_id provider_message_id rest
      else
        message ← read_message_path (join (join sms_root "messages") name);
        shown ← gets (visible message);
        if eqb (sms_provider_message_id message) provider_message_id && (shown : bool) then mret message
        else find_provider_id provider_message_id rest
  end.

Definition file_get_message_by_provider_id (provider_message_id : string) : io fs SmsMessage :=
  names ← read_dir "io" (join sms_root "messages");
  find_provider_id provider_message_id names.

Fixpoint read_committed (committed : gset string) (ids : list string) : io fs (list SmsMessage) :=
  match ids with
  | [] => mret []
  | message_id :: rest =>
      match message_path message_id with
      | Err _ => read_committed committed rest
      | Ok p =>
          r ← attempt (read_message_path p);
          match r with
          | Err MessageNotFound => read_committed committed rest
          | Err e => fail e
          | Ok message =>
              more ← read_committed committed rest;
              let id := transaction_of message in
              mret (if Text.is_empty id || bool_decide (id ∈ committed) then message :: more else more)
          end
      end
  end.

(** [a.created_at.cmp(&b.created_at).then_with(|| a.message_id.cmp(&b.message_id))] *)
Definition sms_le (a b : SmsMessage) : Prop :=
  (sms_created_at a < sms_created_at b)%Z \/
  (sms_created_at a = sms_created_at b /\ String.le (sms_message_id a) (sms_message_id b)).
#[global] Instance sms_le_dec a b : Decision (sms_le a b).
Proof. unfold sms_le. apply _. Defined.

Fixpoint after_marker (marker : string) (l : list SmsMessage) : option (list SmsMessage) :=
  match l with
  | [] => None
  | m :: rest => if eqb (sms_message_id m) marker then Some rest else after_marker marker rest
  end.

Definition page_of (params : ListSmsParams) (messages : list SmsMessage) : ListSmsMessagesResult :=
  let page := match sp_marker params with
              | Some marker => default messages (after_marker marker messages)
              | None => messages
              end in
  let limit := default U64_MAX (sp_limit params) in
  if (limit <? N.of_nat (length page))%N then
    let page := take (N.to_nat limit) page in
    mkSmsPage _ page (sms_message_id <$> list.last page)
  else mkSmsPage _ page None.

Definition list_messages_snapshot (peer : string) (params : ListSmsParams) (committed : gset string) : io fs ListSmsMessagesResult :=
  ids ← message_ids_for_peer peer;
  messages ← read_committed committed ids;
  mret (page_of params (merge_sort sms_le messages)).

Definition file_list_messages (peer : string) (params : ListSmsParams) : io fs ListSmsMessagesResult :=
  committed ← committed_snapshot sms_root;
  list_messages_snapshot peer params committed.

Fixpoint collect_conversations (committed : gset string) (names : list string) : io fs (list SmsConversation) :=
  match names with
  | [] => mret []
  | name :: rest =>
      if negb (eqb (extension name) (Some "peer")) then collect_conversations committed rest
      else
        data ← read_file "io" (join (join sms_root "conversations") name);
        peer ← of_res (ok_or (InternalError "io") (Utf8.from_utf8 data));
        listed ← list_messages_snapshot peer default_sms_params committed;
        more ← collect_conversations committed rest;
        mret (match list.last (sr_messages listed) with
              | None => more
              | Some m => mkConversation peer (N.of_nat (length (sr_messages listed))) (sms_created_at m) (sms_body m)
                            (sms_direction m) (sms_provider m) :: more
              end)
  end.

(** Newest first, then by peer. *)
Definition conversation_le (a b : SmsConversation) : Prop :=
  (cv_last_message_at b < cv_last_message_at a)%Z \/
  (cv_last_message_at a = cv_last_message_at b /\ String.le (cv_peer a) (cv_peer b)).
#[global] Instance conversation_le_dec a b : Decision (conversation_le a b).
Proof. unfold conversation_le. apply _. Defined.

Definition file_list_conversations : io fs (list SmsConversation) :=
  committed ← committed_snapshot sms_root;
  names ← read_dir "io" (join sms_root "conversations");
  conversations ← collect_conversations committed names;
  mret (merge_sort conversation_le conversations).

(** ** Callbacks and destinations *)

Fixpoint collect_callbacks (message_id : string) (names : list string) : io fs (list CallbackAttempt) :=
  match names with
  | [] => mret []
  | name :: rest =>
      if negb (eqb (extension name) (Some "json")) then collect_callbacks message_id rest
      else
        data ← read_file "io" (join (join sms_root "callbacks") name);
        attempt ← of_res (ok_or (InternalError "json") (decode_attempt data));
        more ← collect_callbacks message_id rest;
        mret (if eqb (ca_message_id attempt) message_id then attempt :: more else more)
  end.

Definition attempt_le (a b : CallbackAttempt) : Prop :=
  (ca_attempted_at a < ca_attempted_at b)%Z \/
  (ca_attempted_at a = ca_attempted_at b /\ String.le (ca_attempt_id a) (ca_attempt_id b)).
#[global] Instance attempt_le_dec a b : Decision (attempt_le a b).
Proof. unfold attempt_le. apply _. Defined.

Definition file_list_callbacks (message_id : string) : io fs (list CallbackAttempt) :=
  names ← read_dir "io" (join sms_root "callbacks");
  attempts ← collect_callbacks message_id names;
  mret (merge_sort attempt_le attempts).

Definition file_get_callback (attempt_id : string) : io fs CallbackAttempt :=
  p ← of_res (callback_path attempt_id); read_json decode_attempt p.

Definition file_record_callback (attempt : CallbackAttempt) : io fs unit :=
  p ← of_res (callback_path (ca_attempt_id attempt));
  present ← gets (path_exists p);
  if (present : bool) then fail (InvalidRequest "callback attempt already exists")
  else write_atomic p (encode_attempt attempt).

Definition file_get_destination (provider : SmsProvider) (local_number : string) : io fs TextDestination :=
  p ← of_res (destination_path provider local_number); read_json decode_destination p.

Definition file_put_destination (provider : SmsProvider) (local_number callback_url : string) : io fs TextDestination :=
  if Text.is_empty (Text.trim local_number) || Text.is_empty (Text.trim callback_url)
  then fail (InvalidRequest "local_number and callback_url must not be empty")
  else
    p ← of_res (destination_path provider local_number);
    t ← now;
    old ← attempt (read_file "io" p);
    let created_at := match old with
                      | Ok data => default t (td_created_at <$> decode_destination data)
                      | Err _ => t
                      end in
    let destination := mkDestination provider local_number callback_url created_at t in
    write_atomic p (encode_destination destination);;
    mret destination.

Definition file_delete_destination (provider : SmsProvider) (local_number : string) : io fs unit :=
  p ← of_res (destination_path provider local_number);
  remove_file_if_present "io" p.

(** ** Deletion *)

Definition delete_message_locked (peer message_id : string) : io fs unit :=
  p ← of_res (message_path message_id);
  r ← attempt (read_message_path p);
  (match r with
   | Ok message => if eqb (sms_peer message) peer then mret tt else fail MessageNotFound
   | Err _ => mret tt
   end);;
  remove_file_if_present "io" p;;
  dir ← of_res (peer_index_dir peer);
  remove_file_if_present "io" (join dir (message_id +:+ ".idx"));;
  remove_dir_all_if_present "io" (media_dir message_id);;
  attempts ← file_list_callbacks message_id;
  for_each (fun a => q ← of_res (callback_path (ca_attempt_id a)); remove_file_if_present "io" q) attempts;;
  ids ← message_ids_for_peer peer;
  match ids with
  | [] =>
      remove_dir_all_if_present "io" dir;;
      sidecar ← of_res (peer_sidecar peer);
      remove_file_if_present "io" sidecar
  | _ :: _ => mret tt
  end.

Definition file_delete_conversation (peer : string) : io fs unit :=
  ids ← message_ids_for_peer peer;
  for_each (delete_message_locked peer) ids.

(** ** Delivery *)

Definition with_delivery (state : SmsDeliveryState) (t : time) (m : SmsMessage) : SmsMessage :=
  mkSms _ (sms_message_id m) (sms_batch_id m) (sms_provider m) (sms_provider_message_id m) (sms_direction m) (sms_channel m)
    (sms_from m) (sms_to m) (sms_body m) (sms_media m) (sms_metadata m) (sms_peer m) state (sms_created_at m) t.

Definition file_transition_delivery (message_id : string) (state : SmsDeliveryState) : io fs SmsMessage :=
  if eqb state Accepted then fail (InvalidRequest "delivery transition must be delivered or failed")
  else
    p ← of_res (message_path message_id);
    message ← read_message_path p;
    match sms_delivery_state message with
    | Accepted =>
        t ← now;
        let message := with_delivery state t message in
        write_atomic p (encode_sms message);;
        mret message
    | current => if eqb current state then mret message
                 else fail (InvalidRequest "terminal delivery states are immutable")
    end.

Definition file_read_media (message_id media_id : string) : io fs (SmsMedia * bytes) :=
  message ← file_get_message message_id;
  media ← of_res (ok_or MessageNotFound (head (filter (fun md => md_media_id md = media_id) (sms_media message))));
  if is_some (md_external_url media) then fail (InvalidRequest "external media is referenced, not stored locally")
  else
    p ← of_res (media_path message_id media_id);
    data ← read_if_present "io" p;
    match data with
    | None => fail MessageNotFound
    | Some content => mret (media, content)
    end.

(** ** The trait *)

Class SmsStore (S : Type) : Type := {
  capture_batch : list NewSmsMessage -> list RepeatabilityRecord -> io S (option (list SmsMessage));
  get_repeatability_record : string -> io S (option RepeatabilityRecord);
  store_message : NewSmsMessage -> io S SmsMessage;
  get_message : string -> io S SmsMessage;
  get_message_by_provider_id : string -> io S SmsMessage;
  list_messages : string -> ListSmsParams -> io S ListSmsMessagesResult;
  list_conversations : io S (list SmsConversation);
  delete_message : string -> string -> io S unit;
  delete_conversation : string -> io S unit;
  transition_delivery : string -> SmsDeliveryState -> io S SmsMessage;
  read_media : string -> string -> io S (SmsMedia * bytes);
  put_destination : SmsProvider -> string -> string -> io S TextDestination;
  get_destination : SmsProvider -> string -> io S TextDestination;
  delete_destination : SmsProvider -> string -> io S unit;
  record_callback : CallbackAttempt -> io S unit;
  get_callback : string -> io S CallbackAttempt;
  list_callbacks : string -> io S (list CallbackAttempt) }.

(** [Ok(self.capture_messages(vec![new], &[])?.remove(0))] *)
Definition file_store_message (new : NewSmsMessage) : io fs SmsMessage :=
  messages ← capture_messages [new] [];
  of_res (ok_or (InternalError "removal index (is 0) should be < len (is 0)") (head messages)).

#[export] Instance file_sms_store : SmsStore fs := {|
  capture_batch messages records := stored ← capture_messages messages records; mret (Some stored);
  get_repeatability_record := load_record sms_root;
  store_message := file_store_message;
  get_message := file_get_message;
  get_message_by_provider_id := file_get_message_by_provider_id;
  list_messages := file_list_messages;
  list_conversations := file_list_conversations;
  delete_message := delete_message_locked;
  delete_conversation := file_delete_conversation;
  transition_delivery := file_transition_delivery;
  read_media := file_read_media;
  put_destination := file_put_destination;
  get_destination := file_get_destination;
  delete_destination := file_delete_destination;
  record_callback := file_record_callback;
  get_callback := file_get_callback;
  list_callbacks := file_list_callbacks |}.
End Sms.

(** ** Callbacks: [src/sms/simulator.rs] *)

Definition MAX_RECORDED_RESPONSE_BYTES : N := 64 * 1024.
Definition CRLF : string := String Utf8.CR (String Utf8.LF "").

Section Simulator.
Context `{Env} `{CaptureEnv} `{!SmsEnv}.
Variable settings : SmsSettings.

Definition field_le (a b : string * string) : Prop := String.le a.1 b.1.
#[global] Instance field_le_dec a b : Decision (field_le a b).
Proof. unfold field_le. apply _. Defined.

Definition form_encode (fields : list (string * string)) : string :=
  Text.join_text "&" ((fun f => url_encode f.1 +:+ "=" +:+ url_encode f.2) <$> fields).

Definition twilio_signature (url : string) (fields : list (string * string)) (token : string) : string :=
  hmac_sha1_base64 token (foldl (fun payload f => payload +:+ f.1 +:+ f.2) url fields).

Definition delivery_word (s : SmsDeliveryState) : string :=
  match s with Delivered => "delivered" | DeliveryFailed => "failed" | Accepted => "accepted" end.

Definition media_fields (account_sid : string) (api_port : N) (message : SmsMessage) : list (string * string) :=
  concat (imap (fun i media =>
    [("MediaUrl" +:+ pretty (N.of_nat i),
      "http://localhost:" +:+ pretty api_port +:+ "/2010-04-01/Accounts/" +:+ account_sid +:+ "/Messages/" +:+
        sms_provider_message_id message +:+ "/Media/" +:+ md_media_id media);
     ("MediaContentType" +:+ pretty (N.of_nat i), md_content_type media)]) (sms_media message)).

Definition twilio_fields (message : SmsMessage) (kind : CallbackKind) : list (string * string) :=
  let account_sid := default "AC00000000000000000000000000000000" (set_twilio_account_sid settings) in
  merge_sort field_le
    ([("AccountSid", account_sid); ("MessageSid", sms_provider_message_id message);
      ("SmsSid", sms_provider_message_id message); ("To", sms_to message); ("From", sms_from message)] ++
     match kind with
     | CallbackInbound =>
         [("Body", sms_body message); ("SmsStatus", "received"); ("NumMedia", pretty (N.of_nat (length (sms_media message))))] ++
         media_fields account_sid (default 9000%N (set_api_port settings ≫= parse_u16)) message
     | CallbackDelivery =>
         let status := delivery_word (sms_delivery_state message) in [("MessageStatus", status); ("SmsStatus", status)]
     end).

Definition twilio_callback_payload (message : SmsMessage) (kind : CallbackKind) (url : string) : string * strmap :=
  let fields := twilio_fields message kind in
  let headers := <["content-type" := "application/x-www-form-urlencoded"]> ∅ in
  (form_encode fields,
   match set_twilio_auth_token settings with
   | Some token => <["x-twilio-signature" := twilio_signature url fields token]> headers
   | None => headers
   end).

Definition aws_event (message : SmsMessage) (kind : CallbackKind) : JsonText :=
  match kind with
  | CallbackInbound => JObject
      [("originationNumber", JText (sms_from message)); ("destinationNumber", JText (sms_to message));
       ("messageKeyword", JText (default "" (head (Text.split_whitespace (sms_body message)))));
       ("messageBody", JText (sms_body message)); ("inboundMessageId", JText (sms_provider_message_id message));
       ("previousPublishedMessageId", JNull)]
  | CallbackDelivery => JObject
      [("eventType", JText match sms_delivery_state message with
                           | Delivered => "TEXT_DELIVERED" | DeliveryFailed => "TEXT_FAILURE" | Accepted => "TEXT_SENT"
                           end);
       ("messageId", JText (sms_provider_message_id message)); ("destinationPhoneNumber", JText (sms_to message));
       ("originationIdentity", JText (sms_from message))]
  end.

Definition aws_callback_payload {S} (message : SmsMessage) (kind : CallbackKind) : io S (string * strmap) :=
  u ← new_uuid;
  t ← now;
  let envelope := JObject
    [("Type", JText "Notification"); ("MessageId", JText u);
     ("TopicArn", JText "arn:aws:sns:us-east-1:000000000000:sqrzl-text-events");
     ("Message", JText (render_json (aws_event message kind))); ("Timestamp", JText (rfc3339 t)); ("SignatureVersion", JText "1");
     ("Signature", JText "UNSIGNED-EMULATOR-NOTIFICATION");
     ("SigningCertURL", JText "http://localhost/sqrzl-emulator-no-production-certificate");
     ("UnsubscribeURL", JText "http://localhost/sqrzl-emulator-no-subscription-management")] in
  mret (render_json envelope,
        <["content-type" := "text/plain; charset=UTF-8"]> (<["x-amz-sns-message-type" := "Notification"]> ∅)).

Definition acs_event (message : SmsMessage) (kind : CallbackKind) : string * JsonText :=
  match kind with
  | CallbackInbound =>
      ("Microsoft.Communication.SMSReceived", JObject
        [("messageId", JText (sms_provider_message_id message)); ("from", JText (sms_from message)); ("to", JText (sms_to message));
         ("message", JText (sms_body message)); ("receivedTimestamp", JText (rfc3339 (sms_created_at message)))])
  | CallbackDelivery =>
      ("Microsoft.Communication.SMSDeliveryReportReceived", JObject
        [("messageId", JText (sms_provider_message_id message)); ("from", JText (sms_from message)); ("to", JText (sms_to message));
         ("deliveryStatus", JText match sms_delivery_state message with
                                  | Delivered => "Delivered" | DeliveryFailed => "Failed" | Accepted => "Queued"
                                  end);
         ("deliveryStatusDetails", JText "Sqrzl emulator explicit transition");
         ("receivedTimestamp", JText (rfc3339 (sms_updated_at message)))])
  end.

Definition acs_callback_payload {S} (message : SmsMessage) (kind : CallbackKind) : io S (string * strmap) :=
  let '(event_type, data) := acs_event message kind in
  u ← new_uuid;
  t ← now;
  let batch := JArray [JObject
    [("id", JText u);
     ("topic", JText "/subscriptions/00000000/resourceGroups/sqrzl/providers/Microsoft.Communication/communicationServices/emulator");
     ("subject", JText ("/phonenumber/" +:+ sms_to message)); ("data", data); ("eventType", JText event_type);
     ("dataVersion", JText "1.0"); ("metadataVersion", JText "1"); ("eventTime", JText (rfc3339 t))]] in
  mret (render_json batch,
        <["content-type" := "application/json; charset=utf-8"]> (<["aeg-event-type" := "Notification"]> ∅)).

Definition callback_payload {S} (message : SmsMessage) (kind : CallbackKind) (url : string) : io S (string * strmap) :=
  match sms_provider message with
  | Twilio => mret (twilio_callback_payload message kind url)
  | Sns | AwsSmsVoiceV2 => aws_callback_payload message kind
  | AcsSms => acs_callback_payload message kind
  end.

(** ** The exchange *)

Definition callback_host_allowed (host : string) : bool :=
  let configured := match set_allowed_hosts settings with
    | Some text => Text.to_ascii_lowercase <$> filter (fun h => Text.is_empty h = false) (Text.trim <$> Text.split "," text)
    | None => []
    end in
  existsb (eqb (Text.to_ascii_lowercase host)) (["localhost"; "127.0.0.1"; "::1"] ++ configured).

(** The checks of a callback URL, and its host. *)
Definition callback_target (url : string) : result string (Uri * string) :=
  uri ← match parse_uri url with Ok u => Ok u | Err e => Err ("invalid callback URL: " +:+ e) end;
  if negb (eqb (uri_scheme uri) (Some "http"))
  then Err "callback URL must use http; redirects and TLS callbacks are disabled"
  else
    host ← ok_or "callback URL must include a host" (uri_host uri);
    if negb (callback_host_allowed host) then Err ("callback host is not allowlisted: " +:+ host)
    else Ok (uri, host).

Definition validate_callback_url (url : string) : Res unit :=
  match callback_target url with Ok _ => Ok tt | Err e => Err (InvalidRequest e) end.

Definition has_line_break (s : string) : bool :=
  existsb (fun a => eqb a Utf8.CR || eqb a Utf8.LF) (String.list_ascii_of_string s).

(** A header the request does not carry. *)
Definition skipped_header (name value : string) : bool :=
  Text.eq_ignore_ascii_case name "host" || Text.eq_ignore_ascii_case name "connection" ||
  Text.eq_ignore_ascii_case name "content-length" || has_line_break name || has_line_break value.

Definition request_text (path authority : string) (headers : strmap) (body : string) : string :=
  "POST " +:+ path +:+ " HTTP/1.1" +:+ CRLF +:+ "Host: " +:+ authority +:+ CRLF +:+ "Connection: close" +:+ CRLF +:+
  Text.join_text "" ((fun h => if skipped_header h.1 h.2 then "" else h.1 +:+ ": " +:+ h.2 +:+ CRLF) <$> header_order headers) +:+
  "Content-Length: " +:+ pretty (Text.len body) +:+ CRLF +:+ CRLF.

Definition parse_http_response (response : bytes) : result string (N * string) :=
  '(head_text, body) ← ok_or "callback returned an invalid HTTP response"
    (Utf8.split_once_str (CRLF +:+ CRLF) (text_of_bytes response));
  status ← ok_or "callback returned an invalid HTTP status"
    (line ← head (Utf8.lines (Utf8.from_utf8_lossy (as_bytes head_text)));
     word ← Text.split_whitespace line !! 1;
     parse_u16 word);
  Ok (status, Utf8.from_utf8_lossy (take (N.to_nat MAX_RECORDED_RESPONSE_BYTES) (as_bytes body))).

Definition send_http_callback (attempt_id url : string) (headers : strmap) (body : string) : result string (N * string) :=
  '(uri, host) ← callback_target url;
  authority ← ok_or "callback URL must include an authority" (uri_authority uri);
  let request := request_text (default "/" (uri_path_and_query uri)) authority headers body in
  response ← exchange attempt_id host (default 80%N (uri_port uri)) (as_bytes (request +:+ body));
  parse_http_response (take (N.to_nat (MAX_RECORDED_RESPONSE_BYTES + 64 * 1024)) response).

(** What is recorded of the answer. *)
Definition callback_outcome (r : result string (N * string))
    : option N * option string * option string * CallbackAttemptState :=
  match r with
  | Ok (status, body) =>
      if (200 <=? status)%N && (status <? 300)%N then (Some status, Some body, None, AttemptSucceeded)
      else (Some status, Some body, Some ("callback returned HTTP " +:+ pretty status), AttemptFailed)
  | Err error => (None, None, Some error, AttemptFailed)
  end.

Definition attempt_callback {S} (message : SmsMessage) (kind : CallbackKind) (url : string) (retry_of : option string)
    : io S CallbackAttempt :=
  payload ← callback_payload message kind url;
  let '(body, headers) := payload in
  attempted_at ← now;
  u ← new_uuid;
  let attempt_id := "attempt-" +:+ u in
  let '(status, response, error, state) := callback_outcome (send_http_callback attempt_id url headers body) in
  mret (mkAttempt attempt_id (sms_message_id message) kind (sms_provider message) url
          (<["content-length" := pretty (Text.len body)]> headers) body status response error state attempted_at retry_of).

(** ** The simulator *)

Context {S : Type} `{!SmsStore S}.

Definition inject_inbound (message : NewSmsMessage) : io S SmsMessage :=
  if negb (eqb (ns_direction message) Inbound) then fail (InvalidRequest "inbound simulation requires direction=inbound")
  else if negb (valid_sender (ns_from message)) || negb (is_e164 (ns_to message))
  then fail (InvalidRequest "inbound to must be E.164 and from must be a valid sender identity")
  else if negb (match ns_media message with [] => true | _ => false end) && negb (eqb (ns_provider message) Twilio)
  then fail (InvalidRequest "inbound media is supported only for Twilio")
  else
    stored ← store_message message;
    destination ← FsModel.attempt (get_destination (sms_provider stored) (sms_to stored));
    match destination with
    | Ok d =>
        a ← attempt_callback stored CallbackInbound (td_callback_url d) None;
        record_callback a;;
        mret stored
    | Err _ => mret stored
    end.

(** The URL a delivery is reported to. *)
Definition delivery_callback_url (message : SmsMessage) : io S (option string) :=
  match sms_metadata message !! "status_callback" ≫= json_as_str with
  | Some url => mret (Some url)
  | None =>
      destination ← FsModel.attempt (get_destination (sms_provider message) (sms_from message));
      mret (match destination with Ok d => Some (td_callback_url d) | Err _ => None end)
  end.

Definition simulate_delivery (message_id : string) (state : SmsDeliveryState) : io S SmsMessage :=
  before ← get_message message_id;
  if negb (eqb (sms_direction before) Outbound)
  then fail (InvalidRequest "delivery transitions apply only to outbound messages")
  else
    transitioned ← transition_delivery message_id state;
    if negb (eqb (sms_delivery_state before) Accepted) then mret transitioned
    else
      url ← delivery_callback_url transitioned;
      match url with
      | Some url =>
          a ← attempt_callback transitioned CallbackDelivery url None;
          record_callback a;;
          mret transitioned
      | None => mret transitioned
      end.

Definition retry (attempt_id : string) : io S CallbackAttempt :=
  prior ← get_callback attempt_id;
  message ← get_message (ca_message_id prior);
  a ← attempt_callback message (ca_kind prior) (ca_url prior) (Some (ca_attempt_id prior));
  record_callback a;;
  mret a.
End Simulator.
