(* ===== verification/CaptureFacts.v ===== *)
(** * CaptureFacts: a capture is published as a whole or not at all

    The invariant of the journal directory, what recovery does to a store, and
    what a commit leaves behind when it returns, fails or is cut short.  A store
    tells the journal where its files are through [Layout]. *)

From S2P Require Import Prelude Text Models Utf8 FsModel Publication FileFacts Capture.

(** ** The interface of a store to the journal *)

(** Where a store under [root] may publish files: outside the journal, and no
    destination lies on the way to another. *)
Class Layout (root : path) (Dest : path -> Prop) : Prop := {
  dest_outside : forall q, Dest q -> below (journal_dir root) q = false;
  dest_apart : forall p q, Dest p -> Dest q -> below p (parent q) = false }.

Section Journal.
Context `{EnvLaws} `{CaptureEnvLaws} {root : path} {Dest : path -> Prop} `{!Layout root Dest}.

Abbreviation tdir := (transaction_dir root).
Abbreviation marker := (marker_path root).
Abbreviation jdir := (journal_dir root).

(** A transaction that no marker decides. *)
Definition uncommitted (t : string) (s : fs) : Prop :=
  is_dir (tdir t) s = true /\ is_file (marker t) s = false.

(** A destination the intent of a transaction lists. *)
Definition listed (t : string) (s : fs) (q : path) : Prop :=
  exists b i rel, s !! intent_path root t = Some (File b) /\ decode_intent b = Some i /\
    rel ∈ in_paths i /\ q = root ++ rel.

(** The invariant of a store whose files at [K] are to stay. *)
Record journal (K : path -> Prop) (s : fs) : Prop := mkJournal {
  jr_ok : ok s;
  jr_root : is_dir root s = true;
  jr_dir : forall b, s !! jdir <> Some (File b);
  jr_flat : forall q, Dest q -> s !! q <> Some Directory;
  jr_decodes : forall t b, uncommitted t s -> s !! intent_path root t = Some (File b) ->
    exists i, decode_intent b = Some i /\ Forall (fun rel => validate_relative rel = Ok tt) (in_paths i);
  jr_listed : forall t q, uncommitted t s -> listed t s q -> Dest q /\ ~ K q }.

(** No transaction is undecided. *)
Definition settled_journal (s : fs) : Prop := forall t, ~ uncommitted t s.

(** *** Names *)

Lemma jdir_not_scratch : scratch jdir = false.
Proof. unfold journal_dir. rewrite scratch_join. done. Qed.

Lemma marker_not_scratch t : scratch (marker t) = false.
Proof. unfold marker_path. by rewrite scratch_join. Qed.

Lemma intent_not_scratch t : scratch (intent_path root t) = false.
Proof. unfold intent_path. by rewrite scratch_join. Qed.

Lemma jdir_below_tdir t : below jdir (tdir t) = true.
Proof. apply below_join. Qed.

Lemma jdir_below_in t n : below jdir (join (tdir t) n) = true.
Proof. eapply below_trans; [apply jdir_below_tdir|apply below_join]. Qed.

Lemma tdir_ne t t' n : t <> t' -> below (tdir t) (join (tdir t') n) = false.
Proof.
  intros Hne. apply not_true_iff_false. intros Hb.
  pose proof (below_join_ne jdir t t' _ Hne Hb) as Hf. by rewrite below_join in Hf.
Qed.

Lemma tdir_ne_dir t t' : t <> t' -> below (tdir t) (tdir t') = false.
Proof.
  intros Hne. apply not_true_iff_false. intros Hb.
  pose proof (below_join_ne jdir t t' _ Hne Hb) as Hf. by rewrite below_refl in Hf.
Qed.

Lemma not_below_root : below jdir root = false.
Proof. apply below_join_self. Qed.

Lemma tdir_not_scratch t s : ok s -> is_dir (tdir t) s = true -> scratch (tdir t) = false.
Proof. apply dir_not_scratch. Qed.

(** *** Keeping the invariant *)

Lemma uncommitted_ext t s s' :
  s' !! tdir t = s !! tdir t -> s' !! marker t = s !! marker t -> uncommitted t s' -> uncommitted t s.
Proof. unfold uncommitted, is_dir, is_file. by intros -> ->. Qed.

Lemma listed_ext t s s' q :
  s' !! intent_path root t = s !! intent_path root t -> listed t s' q -> listed t s q.
Proof. unfold listed. by intros ->. Qed.

(** A change outside the journal. *)
Lemma journal_outside K X s s' :
  journal K s -> agree X s s' -> (forall q, X q -> below jdir q = false /\ q <> root) ->
  (forall q, Dest q -> s' !! q <> Some Directory) -> journal K s'.
Proof.
  intros [Hok Hr Hj Hfl Hdec Hl] Ha HX Hfl'.
  assert (forall q, below jdir q = true -> scratch q = false -> s' !! q = s !! q) as Hin.
  { intros q Hq Hsc. apply (agree_at _ _ _ Ha); [done|]. intros [Hx _]%HX. congruence. }
  assert (forall t, is_dir (tdir t) s' = true -> s' !! tdir t = s !! tdir t) as Ht.
  { intros t Hd. apply Hin; [apply jdir_below_tdir|]. eapply tdir_not_scratch; [|done]. by apply Ha. }
  assert (forall t, uncommitted t s' -> uncommitted t s) as Hun.
  { intros t Hu. eapply uncommitted_ext; [by apply Ht, Hu| |exact Hu].
    apply Hin; [apply jdir_below_in|apply marker_not_scratch]. }
  assert (forall t, s' !! intent_path root t = s !! intent_path root t) as Hint.
  { intros t. apply Hin; [apply jdir_below_in|apply intent_not_scratch]. }
  split; [by apply Ha| | |done| |].
  - rewrite (agree_is_dir _ _ _ _ Ha); [done|by eapply dir_not_scratch|]. by intros [_ ?]%HX.
  - intros b. rewrite Hin; [apply Hj|apply below_refl|apply jdir_not_scratch].
  - intros t b Hu. rewrite Hint. by apply Hdec, Hun.
  - intros t q Hu Hq. eapply Hl; [by apply Hun|]. eapply listed_ext; [apply Hint|done].
Qed.

(** Part of an undecided transaction's directory is removed. *)
Lemma journal_shrink K t s s' :
  journal K s -> uncommitted t s -> s' ⊆ s -> (ok s -> ok s') ->
  (forall q, below (tdir t) q = false -> s' !! q = s !! q) -> journal K s'.
Proof.
  intros [Hok Hr Hj Hfl Hdec Hl] Ht Hsub Hok' Hout.
  assert (forall q e, s' !! q = Some e -> s !! q = Some e) as Hs' by (intros; by eapply lookup_weaken).
  assert (forall t', uncommitted t' s' -> uncommitted t' s) as Hun.
  { intros t' [Hd Hm]. destruct (decide (t = t')) as [<-|Hne]; [done|]. split.
    - apply is_dir_true in Hd. by apply is_dir_true, Hs'.
    - revert Hm. unfold is_file. rewrite Hout; [done|]. by apply tdir_ne. }
  split; [by apply Hok'| | | | |].
  - unfold is_dir. rewrite Hout; [done|]. apply not_true_iff_false. intros Hb.
    assert (below jdir root = true) as Hx by (eapply below_trans; [apply jdir_below_tdir|done]).
    by rewrite not_below_root in Hx.
  - intros b Hb. by apply (Hj b), Hs'.
  - intros q Hq Hd. by apply (Hfl q Hq), Hs'.
  - intros t' b Hu Hb. by eapply Hdec; [apply Hun|apply Hs'].
  - intros t' q Hu (b & i & rel & Hb & Hi & Hrel & ->). eapply Hl; [by apply Hun|].
    exists b, i, rel. split_and!; [by apply Hs'|done..].
Qed.

(** ** Recovery *)

(** What recovery from [s0] may have done so far: files of undecided
    transactions are gone, and parts of their directories. *)
Record recovering (K : path -> Prop) (s0 s : fs) : Prop := mkRecovering {
  rc_journal : journal K s;
  rc_agree : agree (fun q => at_or_below jdir q \/ exists t, uncommitted t s0 /\ listed t s0 q) s0 s;
  rc_markers : forall t, is_file (marker t) s = is_file (marker t) s0;
  rc_subset : s ⊆ s0;
  rc_dir : s !! jdir = s0 !! jdir }.

Lemma recovering_refl K s : journal K s -> recovering K s s.
Proof. intros Hj. by split; [|apply agree_refl|..]. Qed.

Lemma recovering_undo K s0 s t q b :
  journal K s0 -> recovering K s0 s -> uncommitted t s0 -> listed t s0 q -> s !! q = Some (File b) ->
  recovering K s0 (delete q s).
Proof.
  intros Hj0 [Hj Ha Hm Hsub Hdir] Hu Hl Hq.
  destruct (jr_listed _ _ Hj0 t q Hu Hl) as [Hd _]. pose proof (dest_outside q Hd) as Hout.
  assert (agree (fun q' => q' = q) s (delete q s)) as Hdel by (by eapply agree_delete_file).
  split.
  - eapply journal_outside; [done|exact Hdel| |].
    + intros q' ->. split; [done|]. intros ->. pose proof (jr_root _ _ Hj) as Hr.
      apply is_dir_true in Hr. congruence.
    + intros q' Hq' [_ Hx]%lookup_delete_Some. by apply (jr_flat _ _ Hj q').
  - eapply agree_trans; [exact Ha|]. eapply agree_weaken; [|exact Hdel].
    intros q' ->. right. by exists t.
  - intros t'. rewrite <- Hm. unfold is_file. rewrite lookup_delete_ne; [done|]. intros ->.
    unfold marker_path in Hout. by rewrite jdir_below_in in Hout.
  - etrans; [apply delete_subseteq|done].
  - rewrite lookup_delete_ne; [done|]. intros ->. by rewrite below_refl in Hout.
Qed.

Lemma recovering_removed K s0 s s' t :
  recovering K s0 s -> uncommitted t s -> s' ⊆ s -> (ok s -> ok s') ->
  (forall q, below (tdir t) q = false -> s' !! q = s !! q) -> recovering K s0 s'.
Proof.
  intros [Hj Ha Hm Hsub Hdir] Hu Hs' Hok Hout. split.
  - by eapply journal_shrink.
  - eapply agree_trans; [exact Ha|]. split; [|done]. intros q _ Hq. apply Hout.
    apply not_true_iff_false. intros Hb. apply Hq. left. eapply below_trans; [apply jdir_below_tdir|done].
  - intros t'. rewrite <- Hm. destruct (decide (t = t')) as [<-|Hne].
    + destruct Hu as [_ Hmk]. rewrite Hmk. apply not_true_iff_false. intros [b Hb]%is_file_true.
      apply (lookup_weaken _ s) in Hb; [|done]. apply not_true_iff_false in Hmk. apply Hmk.
      apply is_file_true. by exists b.
    + unfold is_file. rewrite Hout; [done|]. by apply tdir_ne.
  - by etrans.
  - rewrite Hout; [done|apply below_join_self].
Qed.

Lemma uncommitted_before K s0 s t : recovering K s0 s -> uncommitted t s -> uncommitted t s0.
Proof.
  intros [Hj Ha Hm Hsub _] [Hd Hk]. split; [|by rewrite <- Hm].
  apply is_dir_true. apply is_dir_true in Hd. by eapply lookup_weaken.
Qed.

(** A transaction undone, and one still as it was. *)
Definition finished (t : string) (s0 s : fs) : Prop :=
  s !! tdir t = None /\ forall q, listed t s0 q -> s !! q = None.
Definition waiting (t : string) (s0 s : fs) : Prop :=
  forall q, below (tdir t) q = true -> s !! q = s0 !! q.

Definition undoing (K : path -> Prop) (s0 : fs) (l : list string) (s : fs) : Prop :=
  recovering K s0 s /\
  forall t, uncommitted t s0 -> finished t s0 s \/ (t ∈ l /\ waiting t s0 s).

(** Creating the journal directory. *)
Lemma mkdirs_jdir K s s' : journal K s -> mkdirs jdir s s' -> forall q, q <> jdir -> s' !! q = s !! q.
Proof.
  intros Hj Hm q Hq. destruct (mkdirs_at _ _ _ Hm q) as [|(Hn & _ & Hb)]; [done|].
  apply below_parent in Hb as [Hb|Hb]; [by destruct Hq|].
  unfold journal_dir in Hb. rewrite parent_join in Hb. pose proof (jr_root _ _ Hj) as Hr. apply is_dir_true in Hr.
  destruct (ok_dir_below s q root _ (jr_ok _ _ Hj) Hr Hb) as [Heq|]; congruence.
Qed.

Lemma tdir_ne_jdir t : tdir t <> jdir.
Proof. apply join_ne_self. Qed.
Lemma in_tdir_ne_jdir t n : join (tdir t) n <> jdir.
Proof.
  intros Heq%(f_equal length). unfold transaction_dir, join in Heq. rewrite !length_app in Heq. simpl in Heq. lia.
Qed.

Lemma journal_made K s s' : journal K s -> mkdirs jdir s s' -> journal K s'.
Proof.
  intros Hj Hm. pose proof (mkdirs_jdir K s s' Hj Hm) as Hq.
  assert (forall t, uncommitted t s' -> uncommitted t s) as Hun.
  { intros t. apply uncommitted_ext; apply Hq; [apply tdir_ne_jdir|apply in_tdir_ne_jdir]. }
  assert (forall t, s' !! intent_path root t = s !! intent_path root t) as Hint
    by (intros; apply Hq, in_tdir_ne_jdir).
  split; [by apply Hm, Hj| | | | |].
  - unfold is_dir. rewrite Hq; [apply Hj|]. intros Heq. symmetry in Heq. by apply join_ne_self in Heq.
  - intros b Hb. destruct (mkdirs_at _ _ _ Hm jdir) as [Heq|(_ & Heq & _)]; [|congruence].
    rewrite Heq in Hb. by destruct (jr_dir _ _ Hj b).
  - intros q Hd. rewrite Hq; [by apply (jr_flat _ _ Hj)|]. intros ->. by pose proof (dest_outside _ Hd) as Hb; rewrite below_refl in Hb.
  - intros t b Hu. rewrite Hint. by apply (jr_decodes _ _ Hj), Hun.
  - intros t q Hu Hl. eapply (jr_listed _ _ Hj); [by apply Hun|]. by eapply listed_ext; [apply Hint|].
Qed.

(** What recovery, complete or not, does to the store it started from. *)
Record cleaned (K : path -> Prop) (s s' : fs) : Prop := mkCleaned {
  cl_journal : journal K s';
  cl_agree : agree (fun q => at_or_below jdir q \/ exists t, uncommitted t s /\ listed t s q) s s';
  cl_markers : forall t, is_file (marker t) s' = is_file (marker t) s;
  cl_shrinks : forall q e, q <> jdir -> s' !! q = Some e -> s !! q = Some e }.

Lemma recovering_cleaned K s s0 s' :
  journal K s -> mkdirs jdir s s0 -> recovering K s0 s' -> cleaned K s s'.
Proof.
  intros Hj Hm [Hj' Ha Hk Hsub _]. pose proof (mkdirs_jdir K s s0 Hj Hm) as Hq. split; [done| | |].
  - split; [|intros _; apply Hj']. intros q Hsc Hx. rewrite (agree_at _ _ _ Ha); [|done|].
    + apply Hq. intros ->. apply Hx. left. apply below_refl.
    + intros [Hb|(t & Hu & Hl)]; [by apply Hx; left|]. apply Hx. right. exists t. split.
      * eapply uncommitted_ext; [..|exact Hu]; apply Hq; [apply tdir_ne_jdir|apply in_tdir_ne_jdir].
      * eapply listed_ext; [|exact Hl]. apply Hq, in_tdir_ne_jdir.
  - intros t. rewrite Hk. unfold is_file. rewrite Hq; [done|apply in_tdir_ne_jdir].
  - intros q e Hne He. apply (lookup_weaken _ s0) in He; [|done]. by rewrite Hq in He.
Qed.

Lemma cl_files K s s' q b : cleaned K s s' -> s' !! q = Some (File b) -> s !! q = Some (File b).
Proof.
  intros Hc Hb. apply (cl_shrinks _ _ _ Hc); [|done]. intros ->. by destruct (jr_dir _ _ (cl_journal _ _ _ Hc) b).
Qed.

(** Files that are to stay are not touched. *)
Lemma cleaned_kept K s s' q :
  journal K s -> cleaned K s s' -> K q -> below jdir q = false -> scratch q = false -> s' !! q = s !! q.
Proof.
  intros Hj Hc HK Hb Hsc. apply (agree_at _ _ _ (cl_agree _ _ _ Hc)); [done|].
  intros [Hx|(t & Hu & Hl)]; [by rewrite Hx in Hb|]. by apply (jr_listed _ _ Hj t q Hu Hl).
Qed.

Section Runs.
Context {m : mode}.
Abbreviation fails := (@fails m).
Abbreviation faulty R := (fun s' : fs => m_faults m = true /\ R s').

Lemma wp_undo_paths K s0 t rels s :
  journal K s0 -> uncommitted t s0 -> recovering K s0 s ->
  Forall (fun rel => validate_relative rel = Ok tt) rels ->
  (forall rel, rel ∈ rels -> listed t s0 (root ++ rel)) ->
  wp m (for_each (undo_path root) rels)
    (fun _ s' => recovering K s0 s' /\ (forall q, below jdir q = true -> s' !! q = s !! q) /\
       s' ⊆ s /\ forall rel, rel ∈ rels -> s' !! (root ++ rel) = None)
    (fun _ => faulty (recovering K s0)) (faulty (recovering K s0)) s.
Proof.
  intros Hj Hu Hr Hv Hl.
  apply (wp_for_each _ _ (fun todo s' => recovering K s0 s' /\
    (forall q, below jdir q = true -> s' !! q = s !! q) /\ s' ⊆ s /\ Forall (fun rel => rel ∈ rels) todo /\
    forall rel, rel ∈ rels -> rel ∈ todo \/ s' !! (root ++ rel) = None)).
  - split_and!; [done..|by apply list.Forall_forall|by auto].
  - intros rel todo s1 (Hr1 & Hin1 & Hs1 & Htodo & Hgone). apply list.Forall_cons in Htodo as [Hrel Htodo].
    pose proof (Hl _ Hrel) as Hlr. rewrite list.Forall_forall in Hv.
    apply wp_bind, wp_of_res. rewrite (Hv _ Hrel).
    destruct (jr_listed _ _ Hj t _ Hu Hlr) as [Hd _].
    assert (forall s2, s2 ⊆ s1 -> s2 !! (root ++ rel) = None ->
      forall rel', rel' ∈ rels -> rel' ∈ todo \/ s2 !! (root ++ rel') = None) as Hnext.
    { intros s2 Hs2 Hn rel' Hrel'. destruct (Hgone rel' Hrel') as [[->|?]%elem_of_cons|Hn']; [by right|by left|].
      right. by eapply lookup_weaken_None. }
    apply wp_remove_if_present.
    + intros Hn. split_and!; [done..|]. by apply Hnext.
    + intros b Hb. split_and!; [by eapply recovering_undo| |by etrans; [apply delete_subseteq|]|done|].
      * intros q Hq. rewrite lookup_delete_ne; [by apply Hin1|]. intros <-.
        by rewrite (dest_outside _ Hd) in Hq.
      * apply Hnext; [apply delete_subseteq|apply lookup_delete_eq].
    + intros Hdir. by destruct (jr_flat _ _ (rc_journal _ _ _ Hr1) _ Hd).
    + by apply fails_both.
  - intros s1 (Hr1 & Hin1 & Hs1 & _ & Hgone). split_and!; [done..|].
    intros rel Hrel. by destruct (Hgone rel Hrel) as [[]%elem_of_nil|].
Qed.

Lemma wp_remove_transaction K s0 t s (Q : unit -> fs -> Prop) :
  recovering K s0 s -> uncommitted t s ->
  (forall s', recovering K s0 s' -> s' ⊆ s -> (forall q, below (tdir t) q = false -> s' !! q = s !! q) ->
     (forall q, below (tdir t) q = true -> s' !! q = None) -> Q tt s') ->
  wp m (remove_dir_all "io" (tdir t)) Q (fun _ => faulty (recovering K s0)) (faulty (recovering K s0)) s.
Proof.
  intros Hr Hu HQ. pose proof (proj1 Hu) as Hd. apply is_dir_true in Hd.
  apply wp_remove_dir_all; [done|apply join_ne_nil| |].
  - intros s' Ha Hsub Hout Hgone. apply HQ; [|done..]. eapply recovering_removed; [done..|apply Ha|done].
  - intros s' Ha Hsub Hout. apply fails_both. eapply recovering_removed; [done..|apply Ha|done].
Qed.

Lemma wp_recover_entry K s0 t l s :
  journal K s0 -> undoing K s0 (t :: l) s ->
  wp m (recover_entry root t) (fun _ => undoing K s0 l)
    (fun _ => faulty (recovering K s0)) (faulty (recovering K s0)) s.
Proof.
  intros Hj0 [Hr Hun]. unfold recover_entry. apply wp_bind, wp_gets, wp_bind, wp_gets.
  assert (forall s', recovering K s0 s' ->
    (forall t', uncommitted t' s0 -> finished t' s0 s -> finished t' s0 s') ->
    (forall t', uncommitted t' s0 -> t' ∈ l -> waiting t' s0 s -> finished t' s0 s' \/ waiting t' s0 s') ->
    (uncommitted t s0 -> waiting t s0 s -> finished t s0 s') -> undoing K s0 l s') as Hnext.
  { intros s' Hr' Hf Hw Ht. split; [done|]. intros t' Ht'.
    destruct (Hun t' Ht') as [?|[[->|Hin]%elem_of_cons Hw']]; [left; by apply Hf|left; by apply Ht|].
    destruct (Hw t' Ht' Hin Hw'); [by left|by right]. }
  destruct (is_dir (tdir t) s) eqn:Hd; [destruct (is_file (marker t) s) eqn:Hm|]; simpl.
  - apply wp_ret, Hnext; [done..|by right|]. intros [_ Hm0]. by rewrite <- (rc_markers _ _ _ Hr), Hm in Hm0.
  - assert (uncommitted t s) as Hu by done. pose proof (uncommitted_before _ _ _ _ Hr Hu) as Hu0.
    assert (waiting t s0 s) as Hw.
    { destruct (Hun t Hu0) as [[Hn _]|[_ ?]]; [|done]. apply is_dir_true in Hd. congruence. }
    assert (s !! intent_path root t = s0 !! intent_path root t) as Hint by apply Hw, below_join.
    (* the directory goes once what it lists is gone *)
    assert (forall s1, recovering K s0 s1 -> uncommitted t s1 -> s1 ⊆ s ->
      (forall q, below jdir q = true -> s1 !! q = s !! q) -> (forall q, listed t s0 q -> s1 !! q = None) ->
      wp m (remove_dir_all "io" (tdir t)) (fun _ => undoing K s0 l)
        (fun _ => faulty (recovering K s0)) (faulty (recovering K s0)) s1) as Hrest.
    { intros s1 Hr1 Hu1 Hs1 Hin Hgone. eapply wp_remove_transaction; [done..|]. intros s2 Hr2 Hs2 Hout Hdel.
      assert (s2 ⊆ s) as Hs by (by etrans). apply Hnext; [done|..].
      - intros t' _ [Hn Hq]. split; [by eapply lookup_weaken_None|].
        intros q Hq'. eapply lookup_weaken_None; [|done]. by apply Hq.
      - intros t' _ _ Hw'. destruct (decide (t = t')) as [<-|Hne].
        + left. split; [apply Hdel, below_refl|]. intros q Hq. eapply lookup_weaken_None; [by apply Hgone|done].
        + right. intros q Hq. rewrite Hout, Hin; [by apply Hw'| |].
          * eapply below_trans; [apply jdir_below_tdir|done].
          * by apply (below_join_ne jdir t').
      - intros _ _. split; [apply Hdel, below_refl|]. intros q Hq. eapply lookup_weaken_None; [by apply Hgone|done]. }
    apply wp_bind, wp_gets. destruct (is_file (intent_path root t) s) eqn:Hi.
    + apply is_file_true in Hi as [b Hb].
      destruct (jr_decodes _ _ (rc_journal _ _ _ Hr) t b Hu Hb) as (i & Hdec & Hv).
      apply wp_bind, wp_bind. eapply wp_read_file; [done| |by apply fails_both].
      apply wp_bind, wp_of_res. rewrite Hdec. simpl.
      eapply wp_mono; [eapply (wp_undo_paths K s0 t)|..]; [done..| | |done|done]; simpl.
      * intros rel Hrel. exists b, i, rel. by rewrite <- Hint.
      * intros [] s1 (Hr1 & Hin & Hs1 & Hgone). apply Hrest; [done| |done|done|].
        -- split; unfold is_dir, is_file; rewrite Hin by (apply jdir_below_tdir || apply jdir_below_in); apply Hu.
        -- intros q (b' & i' & rel & Hb' & Hi' & Hrel & ->). rewrite <- Hint, Hb in Hb'. simplify_eq.
           by apply Hgone.
    + apply wp_bind, wp_ret. apply Hrest; [done..|].
      intros q (b' & i' & rel & Hb' & _). rewrite <- Hint in Hb'.
      apply not_true_iff_false in Hi. destruct Hi. apply is_file_true. by eauto.
  - apply wp_ret, Hnext; [done..|by right|]. intros [Hd0 _] Hw.
    unfold is_dir in Hd. rewrite (Hw _ (below_refl _)) in Hd. unfold is_dir in Hd0. congruence.
Qed.

Lemma jdir_creatable K s : journal K s -> creatable jdir s.
Proof.
  intros Hj q [<-|Hq]%below_parent; [split; [apply jdir_not_scratch|apply Hj]|].
  unfold journal_dir in Hq. rewrite parent_join in Hq. pose proof (jr_root _ _ Hj) as Hr. apply is_dir_true in Hr.
  assert (s !! q = Some Directory) as Hd by (by destruct (ok_dir_below s q root _ (jr_ok _ _ Hj) Hr Hq) as [->|]).
  split; [|congruence]. eapply dir_not_scratch; [apply Hj|]. by apply is_dir_true.
Qed.

(** Recovery of a store: when it returns, no transaction is undecided and what
    the undecided ones listed is gone; it fails only through a fault. *)
Lemma wp_recover K s Q E C :
  journal K s ->
  (forall s', cleaned K s s' -> settled_journal s' -> is_dir jdir s' = true ->
     (forall t q, uncommitted t s -> listed t s q -> s' !! q = None) -> Q tt s') ->
  (forall s', cleaned K s s' -> fails E C s') -> wp m (recover root) Q E C s.
Proof.
  intros Hj HQ HF. unfold recover.
  apply wp_bind, wp_create_dir_all; [apply Hj|by eapply jdir_creatable| |].
  2:{ intros s' Hm. apply HF. eapply recovering_cleaned; [done|exact Hm|].
      apply recovering_refl. by eapply journal_made. }
  intros s0 Hm Hd0. pose proof (journal_made _ _ _ Hj Hm) as Hj0.
  pose proof (mkdirs_jdir _ _ _ Hj Hm) as Hq.
  assert (forall s', recovering K s0 s' -> fails E C s') as HF'.
  { intros s' Hr. apply HF. by eapply recovering_cleaned. }
  apply wp_bind, wp_sys; unfold untouched; [|intros; by apply (HF' s0 (recovering_refl _ _ Hj0))..].
  intros _. rewrite Hd0. apply wp_bind.
  eapply wp_mono; [eapply (wp_for_each _ _ (undoing K s0) (fun _ => undoing K s0 [])
    (fun _ => faulty (recovering K s0)) (faulty (recovering K s0)))|..]; simpl.
  - split; [by apply recovering_refl|]. intros t Hu. right. split; [|by intros q].
    rewrite dir_order_perm, elem_of_children_of. destruct Hu as [Hd _]. apply is_dir_true in Hd. by exists Directory.
  - intros t l s1. by apply wp_recover_entry.
  - done.
  - intros [] s1 [Hr Hun].
    assert (is_dir jdir s1 = true) as Hd1.
    { unfold is_dir. by rewrite (rc_dir _ _ _ Hr). }
    apply wp_sync_file; [apply is_dir_true in Hd1; by eauto| |by apply HF'].
    apply HQ; [by eapply recovering_cleaned| |done|].
    + intros t Hu. pose proof (uncommitted_before _ _ _ _ Hr Hu) as Hu0.
      destruct (Hun t Hu0) as [[Hn _]|[[]%elem_of_nil _]]. destruct Hu as [Hd _]. apply is_dir_true in Hd. congruence.
    + intros t q Hu Hl. assert (uncommitted t s0) as Hu0.
      { eapply uncommitted_ext; [..|exact Hu]; symmetry; apply Hq; [apply tdir_ne_jdir|apply in_tdir_ne_jdir]. }
      destruct (Hun t Hu0) as [[_ Hg]|[[]%elem_of_nil _]]. apply Hg.
      eapply listed_ext; [|exact Hl]. symmetry. apply Hq, in_tdir_ne_jdir.
  - intros e s1 [Hm' Hr]. by apply HF'.
  - intros s1 [Hm' Hr]. by apply HF'.
Qed.

End Runs.

End Journal.
