(* ===== verification/CommitFacts.v ===== *)
(** * CommitFacts: the commit of a capture

    What [commit] leaves in a store when it returns, fails or is cut short: the
    transaction is decided and all its files are in place, or it is open and
    recovery will remove every one of them. *)

From S2P Require Import Prelude Text Models Utf8 FsModel Publication FileFacts Capture CaptureFacts.

(** ** Paths of a transaction *)

Lemma file_name_app (root rel : path) : rel <> [] -> file_name (root ++ rel) = file_name rel.
Proof.
  intros Hne. destruct (path_cases rel) as [->|(d & n & ->)]; [done|].
  unfold join. rewrite app_assoc. unfold file_name. by rewrite !last_snoc.
Qed.

Lemma parent_app (root rel : path) : rel <> [] -> parent (root ++ rel) = root ++ parent rel.
Proof.
  intros Hne. destruct (path_cases rel) as [->|(d & n & ->)]; [done|].
  unfold join. rewrite app_assoc. unfold parent. by rewrite !removelast_last.
Qed.

Lemma pending_app root rel id : rel <> [] -> pending_path (root ++ rel) id = root ++ pending_path rel id.
Proof.
  intros Hne. unfold pending_path. rewrite file_name_app, parent_app by done.
  unfold join. by rewrite app_assoc.
Qed.

Lemma app_ne_self (root rel : path) : rel <> [] -> root ++ rel <> root.
Proof. intros Hne Heq%(f_equal length). rewrite length_app in Heq. destruct rel; [done|]. simpl in Heq. lia. Qed.

Lemma pending_parent p id : parent (pending_path p id) = parent p.
Proof. apply parent_join. Qed.

Section Commit.
Context `{EnvLaws} `{CaptureEnvLaws} {root : path} {Dest : path -> Prop} `{!Layout root Dest}.
Variables (K : path -> Prop) (id : string) (files : list (path * bytes)).

Abbreviation tdir := (transaction_dir root).
Abbreviation marker := (marker_path root).
Abbreviation jdir := (journal_dir root).
Abbreviation pending p := (pending_path p id).

(** The intent's paths. *)
Definition intended : list path :=
  flat_map (fun f => [drop (length root) f.1; pending_path (drop (length root) f.1) id]) files.

(** A destination, by itself. *)
Record fit_path (p : path) : Prop := mkFitPath {
  fp_rel : exists rel, p = root ++ rel /\ validate_relative rel = Ok tt /\
             validate_relative (pending_path rel id) = Ok tt;
  fp_dest : Dest p;
  fp_pending : Dest (pending p);
  fp_kept : ~ K p;
  fp_pending_kept : ~ K (pending p);
  fp_scratch : scratch p = false;
  fp_pending_scratch : scratch (pending p) = false }.

(** A capture that may be committed to the store [s] under the fresh name [id]. *)
Record fit (s : fs) : Prop := mkFit {
  ft_id : scratch (tdir id) = false;
  ft_fresh : s !! tdir id = None;
  ft_paths : forall f, f ∈ files -> fit_path f.1;
  ft_pending : forall f f', f ∈ files -> f' ∈ files -> pending f.1 <> f'.1;
  ft_pending_fresh : forall f, f ∈ files -> s !! pending f.1 = None;
  ft_parent : forall f, f ∈ files -> creatable (parent f.1) s }.

Lemma rel_ne_nil rel : validate_relative rel = Ok tt -> rel <> [].
Proof. by intros Hv ->. Qed.

Lemma fit_path_drop p : fit_path p -> p = root ++ drop (length root) p /\
  pending p = root ++ pending_path (drop (length root) p) id /\
  validate_relative (drop (length root) p) = Ok tt /\
  validate_relative (pending_path (drop (length root) p) id) = Ok tt.
Proof.
  intros [(rel & -> & Hv & Hv') _ _ _ _ _ _]. rewrite drop_app_length. split_and!; try done.
  apply pending_app. by apply rel_ne_nil.
Qed.

Lemma fit_path_ne p : fit_path p -> p <> [].
Proof.
  intros [(rel & -> & Hv & _) _ _ _ _ _ _] [_ Hr]%app_eq_nil. by apply (rel_ne_nil rel).
Qed.

Lemma pending_inj p p' : p <> [] -> p' <> [] -> pending p = pending p' -> p = p'.
Proof.
  intros Hp Hp'. destruct (path_cases p) as [->|(d & n & ->)]; [done|].
  destruct (path_cases p') as [->|(d' & n' & ->)]; [done|].
  unfold pending_path. rewrite !parent_join, !file_name_join. simpl. rewrite join_inj. intros [-> Heq].
  f_equal. assert (String.rev (n +:+ ".pending-" +:+ id) = String.rev (n' +:+ ".pending-" +:+ id)) as Hrev by (by rewrite Heq).
  rewrite !rev_app_distr in Hrev. apply Text.app_inj_l in Hrev.
  apply (f_equal String.rev) in Hrev. by rewrite !rev_involutive in Hrev.
Qed.

(** What a run may change besides the transaction's own directory. *)
Definition touched (s1 : fs) (q : path) : Prop :=
  exists f, f ∈ files /\ (q = f.1 \/ q = pending f.1 \/ below q (parent f.1) = true /\ s1 !! q = None).

Definition absent (s : fs) : Prop := forall f, f ∈ files -> s !! f.1 = None /\ s !! pending f.1 = None.
Definition intent_written (s : fs) : Prop :=
  s !! intent_path root id = Some (File (encode_intent (mkIntent intended))).

(** No file is there in part. *)
Definition whole (s : fs) : Prop :=
  forall p d, (p, d) ∈ files -> s !! p = None \/ s !! p = Some (File d).

(** The transaction is open: no marker, and its intent covers whatever is
    there of it. *)
Record open_tx (s1 s : fs) : Prop := mkOpen {
  ot_journal : journal (root := root) (Dest := Dest) K s;
  ot_agree : agree (fun q => at_or_below (tdir id) q \/ touched s1 q) s1 s;
  ot_only : forall t, uncommitted (root := root) t s -> t = id;
  ot_marker : s !! marker id = None;
  ot_covered : absent s \/ intent_written s;
  ot_contents : whole s }.

(** The transaction is decided and its files are in place. *)
Record committed_tx (s1 s : fs) : Prop := mkCommitted {
  ct_journal : journal (root := root) (Dest := Dest) (fun q => K q \/ exists d, (q, d) ∈ files) s;
  ct_agree : agree (fun q => at_or_below (tdir id) q \/ touched s1 q) s1 s;
  ct_settled : settled_journal (root := root) s;
  ct_marker : is_file (marker id) s = true;
  ct_files : forall p d, (p, d) ∈ files -> s !! p = Some (File d) }.

Section Steps.
Variable s1 : fs.
Hypothesis Hfit : fit s1.
Hypothesis Hsettled : settled_journal (root := root) s1.
Hypothesis Hjournal : journal (root := root) (Dest := Dest) K s1.
Hypothesis Hjdir : is_dir jdir s1 = true.
Hypothesis Hnd : NoDup (files.*1).

Lemma intended_spec rel : rel ∈ intended ->
  validate_relative rel = Ok tt /\ Dest (root ++ rel) /\ ~ K (root ++ rel) /\
  exists f, f ∈ files /\ (root ++ rel = f.1 \/ root ++ rel = pending f.1).
Proof.
  unfold intended. rewrite list_elem_of_In, in_flat_map. intros (f & Hf & Hin).
  apply list_elem_of_In in Hf. pose proof (ft_paths _ Hfit f Hf) as Hp.
  destruct (fit_path_drop _ Hp) as (Heq & Heqp & Hv & Hvp).
  destruct Hin as [<-|[<-|[]]]; [rewrite <- Heq|rewrite <- Heqp]; split_and!; try done; try apply Hp;
    exists f; split; try done; [by left|by right].
Qed.

Lemma intended_all f : f ∈ files -> drop (length root) f.1 ∈ intended /\
  pending_path (drop (length root) f.1) id ∈ intended.
Proof.
  intros Hf. unfold intended. rewrite !list_elem_of_In, !in_flat_map.
  split; exists f; rewrite <- list_elem_of_In; simpl; tauto.
Qed.

Lemma touched_outside q : touched s1 q -> below jdir q = false /\ q <> root.
Proof.
  intros (f & Hf & Hq). pose proof (ft_paths _ Hfit f Hf) as Hp.
  assert (below jdir f.1 = false) as Hout by apply dest_outside, Hp.
  destruct (fit_path_drop _ Hp) as (Heq & Heqp & Hv & Hvp).
  pose proof (jr_root _ _ Hjournal) as Hr. apply is_dir_true in Hr.
  destruct Hq as [->|[->|[Hb Hn]]].
  - split; [done|]. rewrite Heq. by apply app_ne_self, rel_ne_nil.
  - split; [apply dest_outside, Hp|]. rewrite Heqp. by apply app_ne_self, rel_ne_nil.
  - split; [|congruence]. apply not_true_iff_false. intros Hx. apply not_true_iff_false in Hout. apply Hout.
    eapply below_trans; [exact Hx|]. eapply below_trans; [exact Hb|].
    destruct (path_cases f.1) as [->|(d & n & ->)]; [done|]. rewrite parent_join. apply below_join.
Qed.

(** One file of the transaction's directory changes. *)
Lemma journal_inside s s' n :
  journal (root := root) (Dest := Dest) K s -> agree (at_path (join (tdir id) n)) s s' ->
  n <> "committed" ->
  (forall b, s' !! intent_path root id = Some (File b) ->
     s !! intent_path root id = Some (File b) \/ b = encode_intent (mkIntent intended)) ->
  journal (root := root) (Dest := Dest) K s'.
Proof.
  intros Hj Ha Hn Hint.
  assert (forall q, scratch q = false -> q <> join (tdir id) n -> s' !! q = s !! q) as Hq.
  { intros q Hsc Hne. by apply (agree_at _ _ _ Ha). }
  assert (forall q, below jdir q = false -> scratch q = false -> s' !! q = s !! q) as Hout.
  { intros q Hb Hsc. apply Hq; [done|]. intros ->. by rewrite jdir_below_in in Hb. }
  assert (forall t, uncommitted (root := root) t s' -> uncommitted (root := root) t s) as Hun.
  { intros t Hu. eapply uncommitted_ext; [..|exact Hu].
    - apply Hq; [eapply tdir_not_scratch; [apply Ha, Hj|apply Hu]|]. unfold transaction_dir at 1.
      rewrite join_inj. intros [Heq _]. symmetry in Heq. by apply (join_ne_self jdir id).
    - apply Hq; [apply marker_not_scratch|]. unfold marker_path. rewrite join_inj. by intros [_ ?]. }
  assert (forall t b, s' !! intent_path root t = Some (File b) ->
    s !! intent_path root t = Some (File b) \/ b = encode_intent (mkIntent intended)) as Hi.
  { intros t b Hb. destruct (decide (t = id)) as [->|Hne]; [by apply Hint|]. left. rewrite <- Hb. symmetry.
    apply Hq; [apply intent_not_scratch|]. unfold intent_path. rewrite join_inj. intros [Heq _].
    apply join_inj in Heq as [_ ?]. done. }
  split; [apply Ha, Hj| | | | |].
  - unfold is_dir. rewrite Hout; [apply Hj|apply not_below_root|]. eapply dir_not_scratch; apply Hj.
  - intros b. rewrite Hq; [apply Hj|apply jdir_not_scratch|]. intros Heq. symmetry in Heq. by apply in_tdir_ne_jdir in Heq.
  - intros q Hd Hx. assert (scratch q = false) as Hsc.
    { eapply dir_not_scratch; [apply Ha, Hj|]. by apply is_dir_true. }
    rewrite Hout in Hx; [by apply (jr_flat _ _ Hj q)|by apply dest_outside|done].
  - intros t b Hu [Hb| ->]%Hi; [by eapply (jr_decodes _ _ Hj); [apply Hun|]|].
    exists (mkIntent intended). split; [apply decode_encode_intent|]. apply list.Forall_forall. intros rel Hrel.
    by apply intended_spec.
  - intros t q Hu (b & i & rel & Hb & Hdec & Hrel & ->). destruct (Hi _ _ Hb) as [Hb0| ->].
    + eapply (jr_listed _ _ Hj); [by apply Hun|]. by exists b, i, rel.
    + rewrite decode_encode_intent in Hdec. simplify_eq. simpl in Hrel. by apply intended_spec in Hrel as (_ & ? & ? & _).
Qed.

Lemma in_tdir_outside f n : f ∈ files ->
  f.1 <> join (tdir id) n /\ pending f.1 <> join (tdir id) n.
Proof.
  intros Hf. pose proof (ft_paths _ Hfit f Hf) as Hp.
  pose proof (dest_outside _ (fp_dest _ Hp)) as Ho. pose proof (dest_outside _ (fp_pending _ Hp)) as Ho'.
  split; intros Heq; [rewrite Heq in Ho|rewrite Heq in Ho']; by rewrite jdir_below_in in *.
Qed.

Lemma absent_ext s s' :
  (forall q, scratch q = false -> below jdir q = false -> s' !! q = s !! q) -> absent s -> absent s'.
Proof.
  intros Hq Ha f Hf. destruct (Ha f Hf) as [Hn Hn']. pose proof (ft_paths _ Hfit f Hf) as Hp.
  split; rewrite Hq; try done; (apply Hp || apply dest_outside, Hp).
Qed.

Lemma whole_ext s s' :
  (forall q, scratch q = false -> below jdir q = false -> s' !! q = s !! q) -> whole s -> whole s'.
Proof.
  intros Hq Hw p d Hf. pose proof (ft_paths _ Hfit _ Hf) as Hp.
  rewrite Hq; [by apply Hw|apply Hp|apply dest_outside, Hp].
Qed.

Lemma whole_subset s s' : s' ⊆ s -> whole s -> whole s'.
Proof.
  intros Hsub Hw p d Hf. destruct (s' !! p) as [e|] eqn:E; [right|by left].
  apply (lookup_weaken _ s) in E as E'; [|done]. destruct (Hw p d Hf); congruence.
Qed.

Lemma absent_whole s : absent s -> whole s.
Proof. intros Ha p d Hf. left. by apply (Ha (p, d)). Qed.

Lemma open_inside s s' n :
  open_tx s1 s -> agree (at_path (join (tdir id) n)) s s' -> n <> "committed" ->
  n <> "intent.json" \/ intent_written s' -> open_tx s1 s'.
Proof.
  intros [Hj Ha Hon Hm Hc Hwh] Hs Hn Hi.
  assert (forall q, scratch q = false -> q <> join (tdir id) n -> s' !! q = s !! q) as Hq.
  { intros q Hsc Hne. by apply (agree_at _ _ _ Hs). }
  assert (forall t, scratch (tdir t) = false -> s' !! tdir t = s !! tdir t) as Ht.
  { intros t Hsc. apply Hq; [done|]. unfold transaction_dir at 1. rewrite join_inj. intros [Heq _].
    symmetry in Heq. by apply (join_ne_self jdir id). }
  assert (n <> "intent.json" -> s' !! intent_path root id = s !! intent_path root id) as Hint.
  { intros Hne. apply Hq; [apply intent_not_scratch|]. unfold intent_path. rewrite join_inj. by intros [_ ?]. }
  split.
  - eapply journal_inside; [exact Hj|exact Hs|done|]. intros b Hb.
    destruct Hi as [Hne|Hw]; [left; by rewrite <- Hint|right]. unfold intent_written in Hw. congruence.
  - eapply agree_trans; [exact Ha|]. eapply agree_weaken; [|exact Hs]. intros q ->. left. apply below_join.
  - intros t Hu. apply Hon. eapply uncommitted_ext; [..|exact Hu].
    + apply Ht. eapply tdir_not_scratch; [apply Hs, Hj|apply Hu].
    + apply Hq; [apply marker_not_scratch|]. unfold marker_path. rewrite join_inj. by intros [_ ?].
  - rewrite Hq; [done|apply marker_not_scratch|]. unfold marker_path. rewrite join_inj. by intros [_ ?].
  - destruct Hi as [Hne|Hw]; [|by right]. destruct Hc as [Hab|Hw]; [left|right].
    + eapply absent_ext; [|exact Hab]. intros q Hsc Hb. apply Hq; [done|]. intros ->. by rewrite jdir_below_in in Hb.
    + unfold intent_written. by rewrite Hint.
  - eapply whole_ext; [|exact Hwh]. intros q Hsc Hb. apply Hq; [done|]. intros ->. by rewrite jdir_below_in in Hb.
Qed.

Lemma open_outside s s' X :
  open_tx s1 s -> intent_written s -> agree X s s' -> (forall q, X q -> touched s1 q) ->
  (forall q, Dest q -> s' !! q <> Some Directory) -> whole s' -> open_tx s1 s' /\ intent_written s'.
Proof.
  intros [Hj Ha Hon Hm Hc _] Hw Hs HX Hfl Hwh.
  assert (forall q, scratch q = false -> below jdir q = true -> s' !! q = s !! q) as Hq.
  { intros q Hsc Hb. apply (agree_at _ _ _ Hs); [done|]. intros Hx%HX%touched_outside. destruct Hx. congruence. }
  assert (intent_written s') as Hw'.
  { unfold intent_written. rewrite Hq; [done|apply intent_not_scratch|apply jdir_below_in]. }
  split; [|done]. split; [| | | |by right|done].
  - eapply journal_outside; [exact Hj|exact Hs| |done]. intros q Hx. by apply touched_outside, HX.
  - eapply agree_trans; [exact Ha|]. eapply agree_weaken; [|exact Hs]. intros q Hx. right. by apply HX.
  - intros t Hu. apply Hon. eapply uncommitted_ext; [..|exact Hu]; apply Hq.
    + eapply tdir_not_scratch; [apply Hs, Hj|apply Hu].
    + apply jdir_below_tdir.
    + apply marker_not_scratch.
    + apply jdir_below_in.
  - rewrite Hq; [done|apply marker_not_scratch|apply jdir_below_in].
Qed.

(** The transaction's directory, or part of it, goes after its files have. *)
Lemma open_removed s s' :
  open_tx s1 s -> absent s -> is_dir (tdir id) s = true -> s' ⊆ s -> (ok s -> ok s') ->
  (forall q, below (tdir id) q = false -> s' !! q = s !! q) -> open_tx s1 s' /\ absent s'.
Proof.
  intros [Hj Ha Hon Hm Hc _] Hab Hd Hsub Hok Hout.
  assert (uncommitted (root := root) id s) as Hu by (split; [done|]; unfold is_file; by rewrite Hm).
  assert (absent s') as Hab'.
  { intros f Hf. destruct (Hab f Hf). split; by eapply lookup_weaken_None. }
  split; [|done]. split; [by eapply journal_shrink| | |by eapply lookup_weaken_None|by left|by apply absent_whole].
  - eapply agree_trans; [exact Ha|]. split; [|done]. intros q _ Hq. apply Hout.
    apply not_true_iff_false. intros Hb. apply Hq. by left.
  - intros t [Hd' Hm']. destruct (decide (t = id)) as [->|Hne]; [done|]. apply Hon. split.
    + apply is_dir_true. apply is_dir_true in Hd'. by eapply lookup_weaken.
    + revert Hm'. unfold is_file. rewrite Hout; [done|]. by apply tdir_ne.
Qed.

(** The marker decides. *)
Lemma open_decided s s' b :
  open_tx s1 s -> (forall p d, (p, d) ∈ files -> s !! p = Some (File d)) ->
  agree (at_path (marker id)) s s' -> s' !! marker id = Some (File b) -> committed_tx s1 s'.
Proof.
  intros [Hj Ha Hon Hm Hc _] Hf Hs Hmk.
  assert (forall q, scratch q = false -> q <> marker id -> s' !! q = s !! q) as Hq.
  { intros q Hsc Hne. by apply (agree_at _ _ _ Hs). }
  assert (settled_journal (root := root) s') as Hset.
  { intros t Hu. assert (t <> id) as Hne.
    { intros ->. destruct Hu as [_ Hx]. unfold is_file in Hx. by rewrite Hmk in Hx. }
    apply Hne, Hon. eapply uncommitted_ext; [..|exact Hu].
    - apply Hq; [eapply tdir_not_scratch; [apply Hs, Hj|apply Hu]|]. unfold transaction_dir at 1, marker_path.
      rewrite join_inj. intros [Heq _]. symmetry in Heq. by apply (join_ne_self jdir id).
    - apply Hq; [apply marker_not_scratch|]. unfold marker_path. rewrite join_inj. intros [Heq _].
      apply join_inj in Heq as [_ ?]. done. }
  assert (forall q, below jdir q = false -> q <> marker id) as Hne.
  { intros q Hb ->. unfold marker_path in Hb. by rewrite jdir_below_in in Hb. }
  split; [|..|done| |].
  - split; [apply Hs, Hj| | | |by intros t b' []%Hset|by intros t q []%Hset].
    + unfold is_dir. rewrite Hq; [apply Hj| |apply Hne, not_below_root]. eapply dir_not_scratch; apply Hj.
    + intros b'. rewrite Hq; [apply Hj|apply jdir_not_scratch|]. intros Heq. symmetry in Heq. by apply in_tdir_ne_jdir in Heq.
    + intros q Hd Hx. assert (scratch q = false) as Hsc.
      { eapply dir_not_scratch; [apply Hs, Hj|]. by apply is_dir_true. }
      rewrite Hq in Hx; [by apply (jr_flat _ _ Hj q)|done|by apply Hne, dest_outside].
  - eapply agree_trans; [exact Ha|]. eapply agree_weaken; [|exact Hs]. intros q ->. left. apply below_join.
  - apply is_file_true. by exists b.
  - intros p d Hpd. pose proof (ft_paths _ Hfit _ Hpd) as Hp. rewrite Hq; [by apply Hf|apply Hp|].
    by apply Hne, dest_outside, Hp.
Qed.

(** *** The runs *)

Context {m : mode}.
Abbreviation fails := (@fails m).
Abbreviation faulty R := (fun s' : fs => m_faults m = true /\ R s').

Definition live (s : fs) : Prop := open_tx s1 s /\ is_dir (tdir id) s = true /\ is_dir jdir s = true.

Lemma dirs_insert q b s :
  q <> tdir id -> q <> jdir -> is_dir (tdir id) s = true /\ is_dir jdir s = true ->
  is_dir (tdir id) (<[q := File b]> s) = true /\ is_dir jdir (<[q := File b]> s) = true.
Proof. intros Hq Hq'. unfold is_dir. by rewrite !lookup_insert_ne by done. Qed.

Lemma dirs_delete q b s :
  s !! q = Some (File b) -> is_dir (tdir id) s = true /\ is_dir jdir s = true ->
  is_dir (tdir id) (delete q s) = true /\ is_dir jdir (delete q s) = true.
Proof. rewrite !is_dir_true. intros Hq [Ht Hj]. rewrite !lookup_delete_ne; [done|congruence..]. Qed.

Lemma in_tdir_ne n : join (tdir id) n <> tdir id.
Proof. apply join_ne_self. Qed.

Lemma live_file s n b :
  live s -> n <> "committed" -> n <> "intent.json" \/ b = encode_intent (mkIntent intended) ->
  is_dir (join (tdir id) n) s = false -> live (<[join (tdir id) n := File b]> s).
Proof.
  intros (Ho & Hd) Hn Hi Hnotdir. split; [|apply dirs_insert; [apply in_tdir_ne|apply in_tdir_ne_jdir|done]].
  eapply open_inside; [exact Ho| |done|].
  - apply agree_insert_file; [done|rewrite parent_join; apply Hd|done|apply join_ne_nil].
  - destruct (decide (n = "intent.json")) as [->|]; [|by left]. destruct Hi as [|Hb]; [done|].
    right. unfold intent_written, intent_path. by rewrite lookup_insert_eq, Hb.
Qed.

Lemma live_unstage s n b :
  live s -> n <> "committed" -> n <> "intent.json" -> s !! join (tdir id) n = Some (File b) ->
  live (delete (join (tdir id) n) s).
Proof.
  intros (Ho & Hd) Hn Hi Hb. split; [|by eapply dirs_delete].
  eapply open_inside; [exact Ho| |done|by left]. by eapply agree_delete_file.
Qed.

Lemma absent_inside s n e : absent s -> absent (<[join (tdir id) n := e]> s).
Proof.
  intros Ha f Hf. destruct (in_tdir_outside f n Hf). rewrite !lookup_insert_ne by done. by apply Ha.
Qed.
Lemma absent_delete s q : absent s -> absent (delete q s).
Proof. intros Ha f Hf. destruct (Ha f Hf). split; apply lookup_delete_None; by right. Qed.

(** The directories on the way to the destinations stay available. *)
Definition roads (s : fs) : Prop := forall f, f ∈ files -> creatable (parent f.1) s.

Lemma road_not_dest f q : f ∈ files -> below q (parent f.1) = true -> Dest q -> False.
Proof.
  intros Hf Hb Hd. pose proof (dest_apart q f.1 Hd (fp_dest _ (ft_paths _ Hfit f Hf))). congruence.
Qed.

Lemma road_not_journal f q : f ∈ files -> below q (parent f.1) = true -> below jdir q = false.
Proof.
  intros Hf Hb. pose proof (ft_paths _ Hfit f Hf) as Hp. pose proof (dest_outside _ (fp_dest _ Hp)) as Ho.
  apply not_true_iff_false. intros Hx. apply not_true_iff_false in Ho. apply Ho.
  eapply below_trans; [exact Hx|]. eapply below_trans; [exact Hb|].
  destruct (path_cases f.1) as [->|(d & n & ->)]; [done|]. rewrite parent_join. apply below_join.
Qed.

Lemma road_touched s f q :
  open_tx s1 s -> f ∈ files -> below q (parent f.1) = true -> s !! q = None -> touched s1 q.
Proof.
  intros Ho Hf Hb Hn. exists f. split; [done|]. right; right. split; [done|].
  destruct (s1 !! q) as [e|] eqn:E1; [|done]. exfalso.
  rewrite (agree_at _ _ _ (ot_agree _ _ Ho)) in Hn; [congruence|by apply (ft_parent _ Hfit f Hf)|].
  intros [Hx|(f' & Hf' & [->|[->|[_ Hx]]])]; [| | |congruence];
    [|by apply (road_not_dest f _ Hf Hb); apply (ft_paths _ Hfit f' Hf')..].
  pose proof (road_not_journal f q Hf Hb) as Hj. apply not_true_iff_false in Hj. apply Hj.
  eapply below_trans; [apply jdir_below_tdir|exact Hx].
Qed.

Lemma live_outside s s' X :
  live s -> intent_written s -> agree X s s' -> (forall q, X q -> touched s1 q) ->
  (forall q, Dest q -> s' !! q <> Some Directory) -> whole s' -> live s' /\ intent_written s'.
Proof.
  intros (Ho & Ht & Hj) Hw Ha HX Hfl Hwh.
  destruct (open_outside s s' X Ho Hw Ha HX Hfl Hwh) as [Ho' Hw']. split; [|done]. split; [done|].
  assert (forall q, below jdir q = true -> is_dir q s = true -> is_dir q s' = true) as Hk.
  { intros q Hb Hd. rewrite (agree_is_dir _ _ _ _ Ha); [done|by eapply dir_not_scratch; [apply Ho|]|].
    intros Hx%HX%touched_outside. destruct Hx. congruence. }
  split; apply Hk; [apply jdir_below_tdir|done|apply below_refl|done].
Qed.

Lemma same_contents f f' : f ∈ files -> f' ∈ files -> f.1 = f'.1 -> f = f'.
Proof.
  intros [i Hi]%list_elem_of_lookup [j Hj]%list_elem_of_lookup Heq.
  assert (i = j) as ->; [|congruence].
  eapply (NoDup_lookup (files.*1)); [done|by rewrite list_lookup_fmap, Hi|rewrite list_lookup_fmap, Hj; simpl; by rewrite Heq].
Qed.

Lemma live_insert s q b f :
  live s -> intent_written s -> f ∈ files -> (q = f.1 /\ b = f.2) \/ q = pending f.1 ->
  is_dir (parent f.1) s = true -> live (<[q := File b]> s) /\ intent_written (<[q := File b]> s).
Proof.
  intros Hl Hw Hf Hq Hd. pose proof (ft_paths _ Hfit f Hf) as Hp.
  assert (Dest q) as Hdq by (destruct Hq as [[-> _] | ->]; apply Hp).
  pose proof (ot_journal _ _ (proj1 Hl)) as Hj.
  apply (live_outside s _ (at_path q)); [done..| | | |].
  - apply agree_insert_file; [done| | |].
    + destruct Hq as [[-> _] | ->]; [done|by rewrite pending_parent].
    + apply not_true_iff_false. rewrite is_dir_true. by apply (jr_flat _ _ Hj).
    + destruct Hq as [[-> _] | ->]; [by apply fit_path_ne|apply join_ne_nil].
  - intros q' ->. exists f. split; [done|]. destruct Hq as [[-> _] | ->]; auto.
  - intros q' Hq' [[_ ?]|[_ Hx]]%lookup_insert_Some; [done|]. by apply (jr_flat _ _ Hj q').
  - intros p d Hpd. destruct (decide (q = p)) as [->|Hne]; [right|rewrite lookup_insert_ne by done; by apply (ot_contents _ _ (proj1 Hl))].
    rewrite lookup_insert_eq. destruct Hq as [[Heq ->]|Heq].
    + by rewrite (same_contents f (p, d)).
    + by destruct (ft_pending _ Hfit f (p, d) Hf Hpd).
Qed.

Lemma live_drop s q b f :
  live s -> intent_written s -> f ∈ files -> q = f.1 \/ q = pending f.1 -> s !! q = Some (File b) ->
  live (delete q s) /\ intent_written (delete q s).
Proof.
  intros Hl Hw Hf Hq Hb. pose proof (ot_journal _ _ (proj1 Hl)) as Hj.
  apply (live_outside s _ (at_path q)); [done..| | | |].
  - by eapply agree_delete_file.
  - intros q' ->. exists f. split; [done|]. destruct Hq as [-> | ->]; auto.
  - intros q' Hq' [_ Hx]%lookup_delete_Some. by apply (jr_flat _ _ Hj q').
  - eapply whole_subset; [apply delete_subseteq|apply (proj1 Hl)].
Qed.

Lemma roads_insert s q b f : roads s -> f ∈ files -> q = f.1 \/ q = pending f.1 -> roads (<[q := File b]> s).
Proof.
  intros Hr Hf Hq f' Hf' q' Hb. destruct (Hr f' Hf' q' Hb) as [Hsc Hnf]. split; [done|].
  intros b'. rewrite lookup_insert_ne; [apply Hnf|]. intros <-.
  eapply road_not_dest; [exact Hf'|exact Hb|]. destruct Hq as [-> | ->]; apply (ft_paths _ Hfit f Hf).
Qed.
Lemma roads_delete s q : roads s -> roads (delete q s).
Proof.
  intros Hr f' Hf' q' Hb. destruct (Hr f' Hf' q' Hb) as [Hsc Hnf]. split; [done|].
  intros b' [_ Hx]%lookup_delete_Some. by apply (Hnf b').
Qed.

Lemma roads_inside s n e : roads s -> roads (<[join (tdir id) n := e]> s).
Proof.
  intros Hr f Hf q Hb. destruct (Hr f Hf q Hb) as [Hsc Hnf]. split; [done|].
  intros b. rewrite lookup_insert_ne; [apply Hnf|]. intros <-.
  pose proof (road_not_journal f _ Hf Hb) as Hj. by rewrite jdir_below_in in Hj.
Qed.

Lemma wp_publish_intent s (Q : unit -> fs -> Prop) :
  live s -> absent s -> s !! join (tdir id) "intent.pending" = None -> s !! intent_path root id = None -> roads s ->
  (forall s', live s' -> intent_written s' -> absent s' -> roads s' -> Q tt s') ->
  wp m (publish_intent root id intended) Q (fun _ => faulty live) (faulty live) s.
Proof.
  intros Hlive Hab Hst Hin Hroads HQ. unfold publish_intent, intent_path in *.
  set (staged := join (tdir id) "intent.pending") in *. set (ij := join (tdir id) "intent.json") in *.
  set (enc := encode_intent (mkIntent intended)). destruct (Hlive) as (_ & Hd & _).
  assert (is_dir staged s = false) as Hsd by (unfold is_dir; by rewrite Hst).
  assert (forall b, live (<[staged := File b]> s)) as Hl by (intros b; apply live_file; auto).
  assert (staged <> ij) as Hne by (unfold staged, ij; rewrite join_inj; by intros [_ ?]).
  apply wp_bind, wp_create_new_file; [by unfold staged; rewrite parent_join|done| |by apply fails_both].
  apply wp_bind. eapply wp_write_all; [apply lookup_insert_eq| |intros; rewrite insert_insert_eq; by apply fails_both].
  rewrite insert_insert_eq.
  apply wp_bind. eapply wp_append_all; [apply lookup_insert_eq| |intros; rewrite insert_insert_eq; by apply fails_both].
  rewrite insert_insert_eq, take_drop.
  apply wp_bind, wp_sync_file; [rewrite lookup_insert_eq; by eauto| |by apply fails_both].
  assert (live (delete staged (<[staged := File enc]> s))) as Hdel.
  { eapply (live_unstage _ "intent.pending"); [apply Hl|done|done|apply lookup_insert_eq]. }
  assert (is_dir ij (delete staged (<[staged := File enc]> s)) = false) as Hijd.
  { unfold is_dir. by rewrite lookup_delete_ne, lookup_insert_ne, Hin by done. }
  assert (live (<[ij := File enc]> (delete staged (<[staged := File enc]> s)))) as Hfin
    by (apply live_file; auto).
  apply wp_bind. eapply wp_rename_file; [apply lookup_insert_eq| | | |..].
  - unfold ij. rewrite parent_join. apply (Hl enc).
  - unfold is_dir. by rewrite lookup_insert_ne, Hin.
  - apply wp_bind, wp_sync_file; [destruct Hfin as (_ & Hx & _); apply is_dir_true in Hx; by eauto| |by apply fails_both].
    apply wp_sync_file; [destruct Hfin as (_ & _ & Hx); apply is_dir_true in Hx; by eauto| |by apply fails_both].
    apply HQ; [done|unfold intent_written; by apply lookup_insert_eq|..].
    + by apply absent_inside, absent_delete, absent_inside.
    + by apply roads_inside, roads_delete, roads_inside.
  - rewrite lookup_insert_ne by done. by rewrite Hin.
  - by apply fails_both.
Qed.

(** The state between two files. *)
Record publishing (l : list (path * bytes)) (s : fs) : Prop := mkPublishing {
  pu_live : live s;
  pu_intent : intent_written s;
  pu_roads : roads s;
  pu_done : exists don, files = don ++ l /\ forall f, f ∈ don -> s !! f.1 = Some (File f.2);
  pu_todo : forall f, f ∈ l -> s !! f.1 = None /\ s !! pending f.1 = None }.

Lemma live_mkdirs s s' f :
  live s -> intent_written s -> roads s -> f ∈ files -> mkdirs (parent f.1) s s' ->
  live s' /\ intent_written s' /\ roads s' /\ forall q, Dest q -> s' !! q = s !! q.
Proof.
  intros Hl Hw Hr Hf Hm. pose proof (proj1 Hl) as Ho. pose proof (ot_journal _ _ Ho) as Hj.
  assert (forall q, Dest q -> s' !! q = s !! q) as Hd.
  { intros q Hq. destruct (mkdirs_at _ _ _ Hm q) as [|(_ & _ & Hb)]; [done|]. by destruct (road_not_dest f q Hf Hb). }
  destruct (live_outside s s' _ Hl Hw (mkdirs_agree _ _ _ Hm)) as [Hl' Hw'].
  - intros q [Hb Hn]. by eapply road_touched.
  - intros q Hq. rewrite Hd by done. by apply (jr_flat _ _ Hj).
  - intros p d Hpd. rewrite Hd by apply (ft_paths _ Hfit _ Hpd). by apply (ot_contents _ _ Ho).
  - split_and!; [done..| |done]. intros f' Hf' q Hb. destruct (Hr f' Hf' q Hb) as [Hsc Hnf]. split; [done|].
    intros b. destruct (mkdirs_at _ _ _ Hm q) as [->|(_ & -> & _)]; [apply Hnf|done].
Qed.

Lemma fits f : f ∈ files -> Dest f.1 /\ Dest (pending f.1) /\ f.1 <> [] /\ f.1 <> pending f.1.
Proof.
  intros Hf. pose proof (ft_paths _ Hfit f Hf) as Hp. split_and!; [apply Hp..|by apply fit_path_ne|].
  intros Heq. by apply (ft_pending _ Hfit f f Hf Hf).
Qed.

Lemma is_dir_road f q e s : f ∈ files -> Dest q -> is_dir (parent f.1) s = true -> is_dir (parent f.1) (<[q := e]> s) = true.
Proof.
  intros Hf Hq Hd. apply is_dir_true. rewrite lookup_insert_ne; [by apply is_dir_true|].
  intros Heq. eapply (road_not_dest f q); [done|rewrite Heq; apply below_refl|done].
Qed.

Lemma other_files don p d l f' :
  files = don ++ (p, d) :: l -> f' ∈ don \/ f' ∈ l ->
  f' ∈ files /\ f'.1 <> p /\ f'.1 <> pending p /\ pending f'.1 <> p /\ pending f'.1 <> pending p.
Proof.
  intros Hfiles Hf'. assert (f' ∈ files) as Hin by (rewrite Hfiles; set_solver).
  assert ((p, d) ∈ files) as Hf by (rewrite Hfiles; set_solver).
  assert (f'.1 <> p) as Hnp.
  { intros <-. pose proof Hnd as Hn. rewrite Hfiles, fmap_app, fmap_cons in Hn. apply list.NoDup_app in Hn as (_ & Hdis & Hn).
    apply list.NoDup_cons in Hn as [Hnl _]. destruct Hf' as [Hf'|Hf'].
    - apply (Hdis f'.1); [apply list_elem_of_fmap; by eauto|]. simpl. left.
    - apply Hnl. simpl. apply list_elem_of_fmap. by eauto. }
  split_and!; [done..| | |].
  - intros Heq. by apply (ft_pending _ Hfit (p, d) f').
  - by apply (ft_pending _ Hfit f' (p, d)).
  - intros Heq. apply pending_inj in Heq; [done|by apply fits|]. by apply (fits (p, d)).
Qed.

Lemma wp_publish_file f l s :
  publishing (f :: l) s ->
  wp m (publish_file id f) (fun _ => publishing l) (fun _ => faulty live) (faulty live) s.
Proof.
  intros [Hl Hw Hr (don & Hfiles & Hdon) Htodo]. unfold publish_file. destruct f as [p d]. simpl in *.
  assert ((p, d) ∈ files) as Hf by (rewrite Hfiles; set_solver).
  destruct (fits _ Hf) as (HDp & HDq & Hne & Hpq). simpl in *. set (pend := pending_path p id) in *.
  apply wp_bind, wp_create_dir_all; [apply (proj1 Hl)|by apply (Hr _ Hf)| |].
  2:{ intros s' Hm. apply fails_both. by apply (live_mkdirs s s' (p, d)). }
  intros s2 Hm Hd2. destruct (live_mkdirs s s2 (p, d)) as (Hl2 & Hw2 & Hr2 & Hsame); [done..|].
  assert (forall q, (p, d) ∈ files -> q = p \/ q = pend -> s2 !! q = None) as Hn2.
  { destruct (Htodo (p, d)) as [Hn Hn']; [set_solver|]. by intros q _ [-> | ->]; rewrite Hsame. }
  assert (forall b, live (<[pend := File b]> s2) /\ intent_written (<[pend := File b]> s2)) as Hl3.
  { intros b. apply (live_insert _ _ _ (p, d)); simpl; auto. }
  unfold write_new_synced. apply wp_bind, wp_bind, wp_create_new_file;
    [by unfold pend; rewrite pending_parent|by apply Hn2; auto| |by apply fails_both].
  apply wp_bind. eapply wp_write_all; [apply lookup_insert_eq| |intros b; rewrite insert_insert_eq; apply fails_both, Hl3].
  rewrite insert_insert_eq. apply wp_sync_file; [rewrite lookup_insert_eq; by eauto| |apply fails_both, Hl3].
  set (s3 := <[pend := File d]> s2). destruct (Hl3 d) as [Hls3 Hws3]. fold s3 in Hls3, Hws3.
  assert (is_dir (parent p) s3 = true) as Hd3 by (by apply (is_dir_road (p, d))).
  assert (s3 !! pend = Some (File d)) as Hpend by apply lookup_insert_eq.
  assert (s3 !! p = None) as Hp3 by (unfold s3; rewrite lookup_insert_ne by done; by apply Hn2; auto).
  destruct (live_drop s3 pend d (p, d)) as [Hl4 Hw4]; [by auto..|].
  assert (is_dir (parent p) (delete pend s3) = true) as Hd4.
  { apply is_dir_true. rewrite lookup_delete_ne; [by apply is_dir_true|]. intros Heq.
    eapply (road_not_dest (p, d) pend); [done|simpl; rewrite Heq; apply below_refl|done]. }
  destruct (live_insert (delete pend s3) p d (p, d)) as [Hl5 Hw5]; [by auto..|].
  set (s5 := <[p := File d]> (delete pend s3)) in *.
  apply wp_bind. eapply wp_rename_file; [exact Hpend|exact Hd3|unfold is_dir; by rewrite Hp3| |by rewrite Hp3|by apply fails_both].
  fold s5. assert (is_dir (parent p) s5 = true) as Hd5 by (by apply (is_dir_road (p, d))).
  apply wp_sync_file; [apply is_dir_true in Hd5; by eauto| |by apply fails_both].
  assert (forall q, q <> p -> q <> pend -> Dest q -> s5 !! q = s !! q) as Hrest.
  { intros q Hq Hq' Hdq. unfold s5, s3. rewrite lookup_insert_ne, lookup_delete_ne, lookup_insert_ne by done. by apply Hsame. }
  pose proof (fun f' => other_files don p d l f' Hfiles) as Hother.
  split; [done..| |exists (don ++ [(p, d)]); split; [by rewrite <- app_assoc|]|].
  - apply (roads_insert _ _ _ (p, d)); [|done|by left]. apply roads_delete.
    by apply (roads_insert _ _ _ (p, d)); [|done|right].
  - intros f' [Hf'|Hf'%list_elem_of_singleton]%elem_of_app; [|subst f'; apply lookup_insert_eq].
    destruct (Hother f') as (Hin & ? & ? & _); [by left|]. rewrite Hrest by (done || by apply fits). by apply Hdon.
  - intros f' Hf'. destruct (Hother f') as (Hin & ? & ? & ? & ?); [by right|].
    rewrite !Hrest by (done || by apply fits). apply Htodo. by right.
Qed.

Definition ended (s : fs) : Prop := open_tx s1 s \/ committed_tx s1 s.

Lemma wp_decide s :
  live s -> (forall p d, (p, d) ∈ files -> s !! p = Some (File d)) ->
  wp m (write_new_synced (marker id) [];; sync_directory (tdir id))
    (fun _ => committed_tx s1) (fun _ => faulty (fun s' => live s' \/ committed_tx s1 s')) 
    (faulty (fun s' => live s' \/ committed_tx s1 s')) s.
Proof.
  intros (Ho & Ht & Hj) Hf. pose proof (ot_marker _ _ Ho) as Hm.
  assert (committed_tx s1 (<[marker id := File []]> s)) as Hc.
  { eapply open_decided; [exact Ho|done| |apply lookup_insert_eq].
    apply agree_insert_file; [done|by unfold marker_path; rewrite parent_join|unfold is_dir; by rewrite Hm|apply join_ne_nil]. }
  assert (fails (fun _ => faulty (fun s' => live s' \/ committed_tx s1 s')) 
    (faulty (fun s' => live s' \/ committed_tx s1 s')) (<[marker id := File []]> s)) as HF by (apply fails_both; by right).
  assert (is_dir (tdir id) (<[marker id := File []]> s) = true) as Ht'
    by (by apply dirs_insert; [apply in_tdir_ne|apply in_tdir_ne_jdir|]).
  unfold write_new_synced. apply wp_bind, wp_bind, wp_create_new_file;
    [by unfold marker_path; rewrite parent_join|done| |apply fails_both; by left].
  apply wp_bind. eapply wp_write_all; [apply lookup_insert_eq| |].
  - rewrite insert_insert_eq. apply wp_sync_file; [rewrite lookup_insert_eq; by eauto| |done].
    apply wp_sync_file; [apply is_dir_true in Ht'; by eauto|done|done].
  - intros b. rewrite insert_insert_eq. apply fails_both. right.
    eapply open_decided; [exact Ho|done| |apply lookup_insert_eq].
    apply agree_insert_file; [done|by unfold marker_path; rewrite parent_join|unfold is_dir; by rewrite Hm|apply join_ne_nil].
Qed.

Lemma wp_publish_files s :
  live s -> absent s -> roads s ->
  s !! join (tdir id) "intent.pending" = None -> s !! intent_path root id = None ->
  wp m (publish_files root id files intended) (fun _ => committed_tx s1)
    (fun _ => faulty (fun s' => live s' \/ committed_tx s1 s')) (faulty (fun s' => live s' \/ committed_tx s1 s')) s.
Proof.
  intros Hl Hab Hr Hst Hin. unfold publish_files. apply wp_bind.
  eapply wp_mono; [eapply (wp_publish_intent s (fun _ s' => live s' /\ intent_written s' /\ absent s' /\ roads s'))|..];
    [done..| | |naive_solver|naive_solver]; [by auto|].
  intros [] s2 (Hl2 & Hw2 & Hab2 & Hr2). apply wp_bind.
  eapply wp_mono; [eapply (wp_for_each _ _ publishing (fun _ => publishing []) (fun _ => faulty live) (faulty live))|..].
  - split; [done..| |done]. exists []. split; [done|]. by intros f []%elem_of_nil.
  - intros f l s3. by apply wp_publish_file.
  - done.
  - intros [] s3 [Hl3 _ _ (don & Hfiles & Hdon) _]. rewrite app_nil_r in Hfiles. subst don.
    apply wp_decide; [done|]. intros p d. apply (Hdon (p, d)).
  - naive_solver.
  - naive_solver.
Qed.

(** *** Rollback *)

Lemma wp_undo_one s f q (Q : unit -> fs -> Prop) :
  live s -> f ∈ files -> q = f.1 \/ q = pending f.1 ->
  (forall s', live s' -> s' ⊆ s -> s' !! q = None -> Q tt s') ->
  wp m (remove_if_present q) Q (fun _ => faulty live) (faulty live) s.
Proof.
  intros Hl Hf Hq HQ. apply wp_remove_if_present; [by auto| | |by apply fails_both].
  - intros b Hb. destruct (ot_covered _ _ (proj1 Hl)) as [Hab|Hw].
    + destruct (Hab f Hf) as [Hn Hn']. destruct Hq as [-> | ->]; congruence.
    + apply HQ; [by apply (live_drop s q b f)|apply delete_subseteq|apply lookup_delete_eq].
  - intros Hd. exfalso. apply (jr_flat _ _ (ot_journal _ _ (proj1 Hl)) q); [|done].
    destruct Hq as [-> | ->]; by apply fits.
Qed.

Lemma wp_undo_files s (Q : unit -> fs -> Prop) :
  live s -> (forall s', live s' -> absent s' -> Q tt s') ->
  wp m (for_each (undo_file id) files) Q (fun _ => faulty live) (faulty live) s.
Proof.
  intros Hl HQ. apply (wp_for_each _ _ (fun l s' => live s' /\ (forall f, f ∈ l -> f ∈ files) /\
    forall f, f ∈ files -> f ∈ l \/ s' !! f.1 = None /\ s' !! pending f.1 = None)).
  - by split_and!; [|auto..].
  - intros f l s2 (Hl2 & Hsub & Hgone). assert (f ∈ files) as Hf by (apply Hsub; left). unfold undo_file.
    apply wp_bind, (wp_undo_one s2 f); [done..|by left|]. intros s3 Hl3 Hs3 Hn3.
    apply (wp_undo_one s3 f); [done..|by right|]. intros s4 Hl4 Hs4 Hn4. split_and!; [done| |].
    + intros f' Hf'. apply Hsub. by right.
    + assert (s4 ⊆ s2) as Hs by (by etrans). intros f' Hf'.
      destruct (Hgone f' Hf') as [[->|?]%elem_of_cons|[Hn Hn']]; [right|by left|right].
      * split; [by eapply lookup_weaken_None|done].
      * split; by eapply lookup_weaken_None.
  - intros s2 (Hl2 & _ & Hgone). apply HQ; [done|]. intros f Hf. by destruct (Hgone f Hf) as [[]%elem_of_nil|].
Qed.

Lemma wp_rollback s (Q : unit -> fs -> Prop) :
  live s -> (forall s', open_tx s1 s' -> absent s' -> Q tt s') ->
  wp m (for_each (undo_file id) files;; remove_dir_all "io" (tdir id);; sync_directory jdir) Q
    (fun _ => faulty (open_tx s1)) (faulty (open_tx s1)) s.
Proof.
  intros Hl HQ. apply wp_bind. eapply wp_mono; [eapply (wp_undo_files s (fun _ s' => live s' /\ absent s'))|..];
    [done|by auto| |intros ? s' [? Hl']; by split; [|apply Hl']|intros s' [? Hl']; by split; [|apply Hl']].
  intros [] s2 [Hl2 Hab]. destruct (Hl2) as (Ho & Ht & Hj).
  apply wp_bind, wp_remove_dir_all; [by apply is_dir_true|apply join_ne_nil| |].
  - intros s3 Ha Hsub Hout Hgone. destruct (open_removed s2 s3) as [Ho3 Hab3]; [done..|apply Ha|done|].
    apply wp_sync_file; [|by apply HQ|by apply fails_both]. rewrite Hout by apply below_join_self.
    apply is_dir_true in Hj. by eauto.
  - intros s3 Ha Hsub Hout. apply fails_both. apply (open_removed s2 s3); [done..|apply Ha|done].
Qed.

(** *** Opening the transaction *)

Lemma tdir_empty n : s1 !! join (tdir id) n = None.
Proof. eapply ok_absent_below; [apply Hjournal|apply Hfit|apply below_join]. Qed.

Lemma open_start s : absent s1 -> mkdirs (tdir id) s1 s ->
  open_tx s1 s /\ absent s /\ forall q, q <> tdir id -> s !! q = s1 !! q.
Proof.
  intros Hab Hm. assert (forall q, q <> tdir id -> s !! q = s1 !! q) as Hq.
  { intros q Hne. destruct (mkdirs_at _ _ _ Hm q) as [|(Hn & _ & Hb)]; [done|].
    apply below_parent in Hb as [Hb|Hb]; [by destruct Hne|]. unfold transaction_dir in Hb. rewrite parent_join in Hb.
    pose proof Hjdir as Hd. apply is_dir_true in Hd.
    destruct (ok_dir_below s1 q jdir _ (jr_ok _ _ Hjournal) Hd Hb) as [Heq|]; congruence. }
  assert (forall t, uncommitted (root := root) t s -> t = id) as Hun.
  { intros t Hu. destruct (decide (t = id)) as [->|Hne]; [done|]. destruct (Hsettled t).
    eapply uncommitted_ext; [..|exact Hu]; apply Hq.
    - unfold transaction_dir. rewrite join_inj. by intros [_ ?].
    - unfold marker_path. intros Heq. pose proof (tdir_ne (root := root) id t "committed" (not_eq_sym Hne)) as Hb.
      rewrite Heq, below_refl in Hb. done. }
  assert (forall n, s !! join (tdir id) n = None) as Hempty.
  { intros n. rewrite Hq by apply in_tdir_ne. apply tdir_empty. }
  assert (absent s) as Hab'.
  { eapply absent_ext; [|exact Hab]. intros q _ Hb. apply Hq. intros ->. by rewrite jdir_below_tdir in Hb. }
  split_and!; [|done|done]. split; [| |done|apply Hempty|by left|by apply absent_whole].
  - split; [by apply Hm, Hjournal| | | | |].
    + unfold is_dir. rewrite Hq; [apply Hjournal|]. intros Heq%(f_equal length).
      unfold transaction_dir, journal_dir, join in Heq. rewrite !length_app in Heq. simpl in Heq. lia.
    + intros b. rewrite Hq; [apply Hjournal|]. intros Heq. symmetry in Heq. by apply tdir_ne_jdir in Heq.
    + intros q Hd. rewrite Hq; [by apply (jr_flat _ _ Hjournal)|]. intros ->.
      pose proof (dest_outside _ Hd) as Hb. by rewrite jdir_below_tdir in Hb.
    + intros t b ->%Hun. unfold intent_path. by rewrite Hempty.
    + intros t q ->%Hun (b & i & rel & Hb & _). unfold intent_path in Hb. by rewrite Hempty in Hb.
  - split; [|by apply Hm]. intros q _ Hx. apply Hq. intros ->. apply Hx. left. apply below_refl.
Qed.

End Steps.

(** ** The commit *)

Section Run.
Context {m : mode}.
Abbreviation fails := (@fails m).

(** The destinations are new and distinct. *)
Definition vacant (unique : list path) (l : list (path * bytes)) (s : fs) : Prop :=
  NoDup (l.*1) /\ forall f, f ∈ l -> s !! f.1 = None /\ f.1 ∉ unique.

Lemma wp_check_destinations l unique Q E C s :
  (forall f, f ∈ l -> fit_path f.1) ->
  (vacant unique l s -> Q (flat_map (fun f => [drop (length root) f.1; pending_path (drop (length root) f.1) id]) l) s) ->
  (~ vacant unique l s -> E (InvalidRequest "capture destination already exists") s) ->
  wp m (check_destinations root id l unique) Q E C s.
Proof.
  revert unique Q E. induction l as [|[p d] l IH]; intros unique Q E Hfit HQ HE; simpl.
  { apply wp_ret, HQ. split; [constructor|]. by intros f []%elem_of_nil. }
  destruct (fit_path_drop p) as (Heq & _ & Hv & _); [apply (Hfit (p, d)); left|].
  apply wp_bind, wp_of_res. unfold strip_root.
  rewrite (proj2 (below_spec root p)) by eauto. simpl. apply wp_bind, wp_of_res. rewrite Hv.
  apply wp_bind, wp_gets. destruct (path_exists p s) eqn:Hex; simpl.
  { apply path_exists_true in Hex as [e He]. apply wp_fail, HE. intros [_ Hn].
    destruct (Hn (p, d)) as [Hx _]; [left|]. simpl in Hx. congruence. }
  apply path_exists_false in Hex. destruct (bool_decide_reflect (p ∈ unique)) as [Hin|Hnin].
  { apply wp_fail, HE. intros [_ Hn]. destruct (Hn (p, d)) as [_ Hx]; [left|]. done. }
  apply wp_bind, IH; [intros f Hf; apply Hfit; by right| |].
  - intros [Hnd Hn]. apply wp_ret, HQ. split.
    + simpl. apply list.NoDup_cons. split; [|done]. intros Hp%list_elem_of_fmap.
      destruct Hp as (f & Hpf & Hf). simpl in Hpf. destruct (Hn f Hf) as [_ Hx]. apply Hx. rewrite <- Hpf. left.
    + intros f [->|Hf]%elem_of_cons; [done|]. destruct (Hn f Hf) as [? Hx]. split; [done|]. intros Hu. apply Hx. by right.
  - intros Hnv. apply HE. intros [Hnd Hn]. apply Hnv. simpl in Hnd. apply list.NoDup_cons in Hnd as [Hp Hnd].
    split; [done|]. intros f Hf. destruct (Hn f) as [? Hx]; [by right|]. split; [done|].
    intros [Hpf|?]%elem_of_cons; [|done]. apply Hp. rewrite <- Hpf. by apply list_elem_of_fmap_2.
Qed.

Lemma fit_cleaned s s' : journal (root := root) (Dest := Dest) K s ->
  cleaned (root := root) (Dest := Dest) K s s' -> fit s -> fit s'.
Proof.
  intros Hj Hc [Hid Hfr Hp Hpe Hpf Hpa].
  assert (forall q, q <> jdir -> s !! q = None -> s' !! q = None) as Hn.
  { intros q Hne Hq. destruct (s' !! q) as [e|] eqn:E1; [|done].
    apply (cl_shrinks _ _ _ Hc) in E1; [congruence|done]. }
  split; [done| |done|done| |].
  - apply Hn; [apply tdir_ne_jdir|done].
  - intros f Hf. apply Hn; [|by apply Hpf]. intros Heq. pose proof (dest_outside _ (fp_pending _ (Hp f Hf))) as Hb.
    by rewrite Heq, below_refl in Hb.
  - intros f Hf q Hb. destruct (Hpa f Hf q Hb) as [Hsc Hnf]. split; [done|]. intros b Hb'.
    by apply (Hnf b), (cl_files _ _ _ _ _ Hc).
Qed.

(** A commit decides the transaction, or leaves it for recovery to undo; it
    fails without a fault only when a destination is taken. *)
Lemma wp_commit s Q E C :
  journal (root := root) (Dest := Dest) K s -> fit s ->
  (forall s1 s', cleaned (root := root) (Dest := Dest) K s s1 -> settled_journal (root := root) s1 -> vacant [] files s1 ->
     committed_tx s1 s' -> Q tt s') ->
  (forall s', cleaned (root := root) (Dest := Dest) K s s' -> fails E C s') ->
  (forall s1, cleaned (root := root) (Dest := Dest) K s s1 -> settled_journal (root := root) s1 -> ~ vacant [] files s1 ->
     E (InvalidRequest "capture destination already exists") s1) ->
  (forall s1 s', cleaned (root := root) (Dest := Dest) K s s1 -> settled_journal (root := root) s1 -> vacant [] files s1 ->
     ended s1 s' -> fails E C s') ->
  wp m (commit root id files) Q E C s.
Proof.
  intros Hj Hfit HQ HFr HEx HF. unfold commit.
  apply wp_bind, (wp_recover K); [done| |by auto]. intros s1 Hc Hset Hd _.
  pose proof (fit_cleaned s s1 Hj Hc Hfit) as Hf1. pose proof (cl_journal _ _ _ Hc) as Hj1.
  apply wp_bind, wp_check_destinations; [apply Hf1| |by auto]. fold intended. intros Hvac.
  assert (absent s1) as Hab.
  { intros f Hf. split; [by apply Hvac|by apply Hf1]. }
  assert (forall s', ended s1 s' -> fails E C s') as HF' by by eauto.
  assert (roads s1) as Hr1 by exact (ft_parent _ Hf1).
  apply wp_bind, wp_create_dir_all; [apply Hj1| | |].
  - intros q [<-|Hq]%below_parent; [split; [apply Hf1|by rewrite (ft_fresh _ Hf1)]|].
    unfold transaction_dir in Hq. rewrite parent_join in Hq. by eapply jdir_creatable.
  - intros s2 Hm Hd2. destruct (open_start s1 Hf1 Hset Hj1 Hd s2 Hab Hm) as (Ho & Hab2 & Hsame).
    assert (live s1 s2) as Hl.
    { split_and!; [done..|]. unfold is_dir. rewrite Hsame; [done|]. intros Heq. symmetry in Heq. by apply tdir_ne_jdir in Heq. }
    assert (roads s2) as Hr2.
    { intros f Hf q Hb. destruct (Hr1 f Hf q Hb) as [Hsc Hnf]. split; [done|]. intros b. rewrite Hsame; [apply Hnf|].
      intros ->. pose proof (road_not_journal s1 Hf1 f _ Hf Hb) as Hx. by rewrite jdir_below_tdir in Hx. }
    apply wp_bind, wp_attempt.
    eapply wp_mono; [apply (wp_publish_files s1 Hf1 Hset Hj1 Hd)|..]; [apply Hvac|done..| | | | |].
    + rewrite Hsame by apply in_tdir_ne. by apply tdir_empty.
    + unfold intent_path. rewrite Hsame by apply in_tdir_ne. by apply tdir_empty.
    + intros [] s3 Hct. simpl. apply wp_bind, wp_ret, wp_ret. by eapply HQ.
    + intros e s3 [Hm3 Hend]. simpl. apply wp_bind, wp_bind, wp_gets. destruct Hend as [Hl3|Hct].
      * unfold is_file at 1. rewrite (ot_marker _ _ (proj1 Hl3)).
        eapply wp_mono; [eapply (wp_rollback s1 Hf1 Hj1 _ (fun _ => open_tx s1))|..]; [done|done| | |].
        -- intros [] s4 Ho4. apply wp_fail. by apply (HF' s4); [left|].
        -- intros e' s4 [_ Ho4]. by apply (HF' s4); [left|].
        -- intros s4 [_ Ho4]. by apply (HF' s4); [left|].
      * rewrite (ct_marker _ _ Hct). apply wp_ret, wp_fail. by apply (HF' s3); [right|].
    + intros s3 [Hm3 [Hl3|Hct]]; apply (HF' s3); try done; [left; apply Hl3|by right].
  - intros s2 Hm. apply HF'. left. by apply (open_start s1 Hf1 Hset Hj1 Hd s2 Hab Hm).
Qed.

End Run.

(** ** What stays *)

Lemma ended_agree s1 s : ended s1 s -> agree (fun q => at_or_below (tdir id) q \/ touched s1 q) s1 s.
Proof. by intros [Ho|Hc]; [apply Ho|apply Hc]. Qed.

(** A destination that is not one of the files of the transaction. *)
Lemma ended_other s1 s q :
  fit s1 -> ended s1 s -> Dest q -> scratch q = false ->
  (forall f, f ∈ files -> q <> f.1 /\ q <> pending f.1) -> s !! q = s1 !! q.
Proof.
  intros Hf He Hd Hsc Hne. apply (agree_at _ _ _ (ended_agree _ _ He)); [done|].
  intros [Hb|(f & Hin & [->|[->|[Hb _]]])].
  - pose proof (dest_outside _ Hd) as Ho. apply not_true_iff_false in Ho. apply Ho.
    eapply below_trans; [apply jdir_below_tdir|exact Hb].
  - by destruct (Hne f Hin).
  - by destruct (Hne f Hin).
  - by eapply (road_not_dest s1 Hf).
Qed.

Lemma ended_marker s1 s t :
  fit s1 -> journal (root := root) (Dest := Dest) K s1 -> ended s1 s -> t <> id -> s !! marker t = s1 !! marker t.
Proof.
  intros Hf Hj He Hne. apply (agree_at _ _ _ (ended_agree _ _ He)); [apply marker_not_scratch|].
  intros [Hb|Hx].
  - unfold at_or_below, marker_path in Hb. by rewrite tdir_ne in Hb by congruence.
  - apply (touched_outside s1 Hf Hj) in Hx as [Hx _]. unfold marker_path in Hx. by rewrite jdir_below_in in Hx.
Qed.

(** An open transaction is undone by a recovery that returns. *)
Lemma open_undone s1 s s' :
  fit s1 -> open_tx s1 s -> cleaned (root := root) (Dest := Dest) K s s' ->
  (forall t q, uncommitted (root := root) t s -> listed (root := root) t s q -> s' !! q = None) ->
  absent s' /\ is_file (marker id) s' = false.
Proof.
  intros Hf Ho Hc Hgone. split; [|rewrite (cl_markers _ _ _ Hc); unfold is_file; by rewrite (ot_marker _ _ Ho)].
  intros f Hin. pose proof (ft_paths _ Hf f Hin) as Hp.
  destruct (ot_covered _ _ Ho) as [Hab|Hw].
  - assert (forall q, Dest q -> s !! q = None -> s' !! q = None) as Hn.
    { intros q Hd Hq. destruct (s' !! q) as [e|] eqn:E1; [|done]. apply (cl_shrinks _ _ _ Hc) in E1; [congruence|].
      intros ->. pose proof (dest_outside _ Hd) as Hb. by rewrite below_refl in Hb. }
    destruct (Hab f Hin). split; apply Hn; (apply Hp || done).
  - assert (uncommitted (root := root) id s) as Hu.
    { split; [|unfold is_file; by rewrite (ot_marker _ _ Ho)]. apply is_dir_true.
      apply (ok_parent s (jr_ok _ _ (ot_journal _ _ Ho)) (tdir id) "intent.json").
      change (join (tdir id) "intent.json") with (intent_path root id). rewrite Hw. by eauto. }
    destruct (fit_path_drop _ Hp) as (Heq & Heqp & _). destruct (intended_all f Hin) as [Hi Hi'].
    split; apply (Hgone id _ Hu).
    + exists (encode_intent (mkIntent intended)), (mkIntent intended), (drop (length root) f.1).
      by split_and!; [|apply decode_encode_intent|..].
    + exists (encode_intent (mkIntent intended)), (mkIntent intended), (pending_path (drop (length root) f.1) id).
      by split_and!; [|apply decode_encode_intent|..].
Qed.

End Commit.

(** ** All or nothing *)

Section Theorems.
Context `{EnvLaws} `{CaptureEnvLaws} {root : path} {Dest : path -> Prop} `{!Layout root Dest}.

Section One.
Variables (K : path -> Prop) (id : string) (files : list (path * bytes)) (s : fs).
Hypothesis Hj : journal (root := root) (Dest := Dest) K s.
Hypothesis Hfit : fit (root := root) (Dest := Dest) K id files s.
Hypothesis Hvac : vacant [] files s.

Abbreviation cleaned := (cleaned (root := root) (Dest := Dest) K).
Abbreviation ended := (ended (root := root) (Dest := Dest) K id files).

Lemma vacant_cleaned s1 : cleaned s s1 -> vacant [] files s1.
Proof.
  intros Hc. destruct Hvac as [Hnd Hn]. split; [done|]. intros f Hf. destruct (Hn f Hf) as [Hq ?]. split; [|done].
  destruct (s1 !! f.1) as [e|] eqn:E1; [|done]. apply (cl_shrinks _ _ _ Hc) in E1; [congruence|].
  intros Heq. pose proof (dest_outside _ (fp_dest _ _ _ (ft_paths _ _ _ _ Hfit f Hf))) as Hb.
  by rewrite Heq, below_refl in Hb.
Qed.

(** What a run leaves: the store cleaned, and from there a transaction open or
    decided. *)
Definition left_behind (s' : fs) : Prop :=
  exists s1, cleaned s s1 /\ (s' = s1 \/ ended s1 s').

Lemma commit_leaves σ out s' σ' :
  commit root id files σ s = (out, s', σ') ->
  left_behind s' /\ (out = Done tt -> exists s1, cleaned s s1 /\
    committed_tx (root := root) (Dest := Dest) K id files s1 s') /\ (sched_ok calm σ -> out = Done tt).
Proof.
  intros Hrun.
  assert (forall m, wp m (commit root id files)
    (fun _ s' => exists s1, cleaned s s1 /\ committed_tx (root := root) (Dest := Dest) K id files s1 s')
    (fun _ s' => m_faults m = true /\ left_behind s') (fun s' => m_faults m = true /\ left_behind s') s) as Hwp.
  { intros m. eapply (wp_commit K id files s); [done..| | | |].
    - intros s1 s2 Hc _ _ Hct. by exists s1.
    - intros s2 Hc. apply fails_both. exists s2. by auto.
    - intros s1 Hc _ Hnv. by destruct Hnv; apply vacant_cleaned.
    - intros s1 s2 Hc _ _ He. apply fails_both. exists s1. by auto. }
  pose proof (wp_run _ _ _ _ _ _ _ _ _ _ (Hwp any_schedule) (any_schedule_ok σ) Hrun) as Hr.
  split_and!.
  - destruct out as [[]|e|]; simpl in Hr; [|by apply Hr..].
    destruct Hr as (s1 & Hc & Hct). exists s1. split; [done|]. right. by right.
  - by intros ->.
  - intros Hσ. pose proof (wp_run _ _ _ _ _ _ _ _ _ _ (Hwp calm) Hσ Hrun) as Hq.
    destruct out as [[]|e|]; simpl in Hq; [done|by destruct Hq..].
Qed.

Lemma left_other s' q :
  left_behind s' -> K q -> Dest q -> scratch q = false -> s' !! q = s !! q.
Proof.
  intros (s1 & Hc & Hs) HK Hd Hsc. transitivity (s1 !! q); [|eapply cleaned_kept; [exact Hj|exact Hc|done|by apply dest_outside|done]].
  destruct Hs as [->|He]; [done|]. eapply ended_other; [by eapply fit_cleaned|done..|].
  intros f Hf. pose proof (ft_paths _ _ _ _ Hfit f Hf) as Hp. split; intros ->; [by apply (fp_kept _ _ _ Hp)|by apply (fp_pending_kept _ _ _ Hp)].
Qed.

Lemma left_marker s' t : left_behind s' -> t <> id -> is_file (marker_path root t) s' = is_file (marker_path root t) s.
Proof.
  intros (s1 & Hc & Hs) Hne. rewrite <- (cl_markers _ _ _ Hc t). destruct Hs as [->|He]; [done|].
  unfold is_file. rewrite (ended_marker K id files s1 s' t); [done|by eapply fit_cleaned|apply Hc|done|done].
Qed.

(** Recovery after the run decides between all and nothing. *)
Lemma left_recovered s' s2 σ σ2 :
  left_behind s' -> recover root σ s' = (Done tt, s2, σ2) ->
  ((is_file (marker_path root id) s2 = true /\ forall p d, (p, d) ∈ files -> s2 !! p = Some (File d)) \/
   (is_file (marker_path root id) s' = false /\ is_file (marker_path root id) s2 = false /\ absent id files s2)) /\
  exists K', (forall q, K q -> K' q) /\ journal (root := root) (Dest := Dest) K' s' /\
    CaptureFacts.cleaned (root := root) (Dest := Dest) K' s' s2.
Proof.
  intros (s1 & Hc & Hs) Hrun. pose proof (fit_cleaned _ _ _ _ _ Hj Hc Hfit) as Hf1.
  assert (forall K', journal (root := root) (Dest := Dest) K' s' ->
    CaptureFacts.cleaned (root := root) (Dest := Dest) K' s' s2 /\
    forall t q, uncommitted (root := root) t s' -> listed (root := root) t s' q -> s2 !! q = None) as Hrec.
  { intros K' Hj'.
    assert (wp any_schedule (recover root) (fun _ s3 => CaptureFacts.cleaned (root := root) (Dest := Dest) K' s' s3 /\
      forall t q, uncommitted (root := root) t s' -> listed (root := root) t s' q -> s3 !! q = None)
      (fun _ _ => True) (fun _ => True) s') as Hwp by (apply (wp_recover K'); [done|by auto|done]).
    exact (wp_run _ _ _ _ _ _ _ _ _ _ Hwp (any_schedule_ok σ) Hrun). }
  assert (forall s3, absent id files s3 -> CaptureFacts.cleaned (root := root) (Dest := Dest) K s3 s2 -> absent id files s2) as Habs.
  { intros s3 Hab Hc3 f Hf. pose proof (ft_paths _ _ _ _ Hfit f Hf) as Hp.
    assert (forall q, Dest q -> s3 !! q = None -> s2 !! q = None) as Hn.
    { intros q Hd Hq. destruct (s2 !! q) as [e|] eqn:E1; [|done]. apply (cl_shrinks _ _ _ Hc3) in E1; [congruence|].
      intros ->. pose proof (dest_outside _ Hd) as Hb. by rewrite below_refl in Hb. }
    destruct (Hab f Hf). split; apply Hn; (apply Hp || done). }
  destruct Hs as [->|[Ho|Hct]].
  - destruct (Hrec K (cl_journal _ _ _ Hc)) as [Hc2 Hg]. split; [right|by exists K; split_and!; [|apply Hc|]].
    assert (is_file (marker_path root id) s1 = false) as Hm.
    { unfold is_file, marker_path. by rewrite (tdir_empty K id files s1 Hf1 (cl_journal _ _ _ Hc)). }
    split_and!; [done|by rewrite (cl_markers _ _ _ Hc2)|]. eapply Habs; [|done].
    intros f Hf. split; [by apply (vacant_cleaned s1 Hc)|by apply Hf1].
  - destruct (Hrec K (ot_journal _ _ _ _ _ Ho)) as [Hc2 Hg]. split; [right|by exists K; split_and!; [|apply Ho|]].
    destruct (open_undone K id files s1 s' s2) as [Ha Hm]; [done..|]. split_and!; [|done..].
    unfold is_file. by rewrite (ot_marker _ _ _ _ _ Ho).
  - destruct (Hrec _ (ct_journal _ _ _ _ _ Hct)) as [Hc2 Hg].
    split; [left|exists (fun q => K q \/ exists d, (q, d) ∈ files); split_and!; [by left|apply Hct|done]].
    split; [by rewrite (cl_markers _ _ _ Hc2); apply Hct|]. intros p d Hpd.
    pose proof (ft_paths _ _ _ _ Hfit _ Hpd) as Hp. rewrite <- (ct_files _ _ _ _ _ Hct p d Hpd).
    eapply cleaned_kept; [apply Hct|exact Hc2|right; by exists d|apply dest_outside, Hp|apply Hp].
Qed.

End One.

(** C9 [capture_all_or_nothing]. A capture transaction is all or nothing:
    whatever calls of commit fail and wherever the process dies, once recover
    has run either the marker decides the transaction and every file is there
    in full, or commit did not return Ok and no file, pending file or marker
    of it is left; the files and markers of other captures are kept, and
    without faults commit returns Ok. *)
Theorem capture_all_or_nothing K id files (s s1 s2 : fs) σ out σ1 σ' σ2 :
  journal (root := root) (Dest := Dest) K s -> fit (root := root) (Dest := Dest) K id files s ->
  vacant [] files s -> (forall q, K q -> Dest q /\ scratch q = false) ->
  commit root id files σ s = (out, s1, σ1) -> recover root σ' s1 = (Done tt, s2, σ2) ->
  ((is_file (marker_path root id) s2 = true /\ forall p d, (p, d) ∈ files -> s2 !! p = Some (File d)) \/
   (out <> Done tt /\ is_file (marker_path root id) s2 = false /\
    forall p d, (p, d) ∈ files -> s2 !! p = None /\ s2 !! pending_path p id = None)) /\
  (forall q, K q -> s2 !! q = s !! q) /\
  (forall t, t <> id -> is_file (marker_path root t) s2 = is_file (marker_path root t) s) /\
  (sched_ok calm σ -> out = Done tt).
Proof.
  intros Hj Hfit Hvac HK Hrun Hrec.
  destruct (commit_leaves K id files s Hj Hfit Hvac _ _ _ _ Hrun) as (Hleft & Hdone & Hcalm).
  destruct (left_recovered K id files s Hj Hfit Hvac _ _ _ _ Hleft Hrec) as [Hall (K' & HKK & Hj' & Hc')].
  split_and!; [| | |done].
  - destruct Hall as [Hall|(Hm & Hm2 & Hab)]; [by left|right]. split_and!; [|done|].
    + intros ->. destruct (Hdone eq_refl) as (s3 & _ & Hct). by rewrite (ct_marker _ _ _ _ _ Hct) in Hm.
    + intros p d Hpd. apply (Hab (p, d) Hpd).
  - intros q Hq. destruct (HK q Hq). rewrite <- (left_other K id files s Hj Hfit s1 q) by done.
    eapply cleaned_kept; [exact Hj'|exact Hc'|by apply HKK|by apply dest_outside|done].
  - intros t Ht. rewrite (cl_markers _ _ _ Hc'). by eapply left_marker.
Qed.
End Theorems.
