(* ===== verification/Mail.v ===== *)
(** * Mail: [src/mail/model.rs], [src/mail/budget.rs] and [src/mail/mod.rs]

    Captured messages, the admission of a message against the capture budget,
    the trait of the stores that keep them, and the fan-out of a message to the
    mailboxes of its recipients. *)

From S2P Require Import Prelude Text Models Utf8 FsModel Publication Capture.

(** ** Messages *)

Inductive SourceProtocol : Type := Smtp | SendGrid | Ses | Acs.

Record Address : Type := mkAddress { ad_email : string; ad_name : option string }.

(** [Address::new] *)
Definition new_address (email : string) : Address := mkAddress email None.
Definition mailbox_key (a : Address) : string := Text.to_ascii_lowercase (Text.trim (ad_email a)).

Record Attachment : Type := mkAttachment {
  at_filename : string;
  at_content_type : string;
  at_content : bytes;
  at_disposition : option string;
  at_content_id : option string }.

Inductive DeliveryState : Type := Accepted | Delivered | Bounced | Rejected.

Record DeliveryStatus : Type := mkDelivery {
  ds_state : DeliveryState;
  ds_detail : option string;
  ds_updated_at : time }.

(** [DeliveryStatus::accepted] *)
Definition accepted (t : time) : DeliveryStatus := mkDelivery Accepted None t.

Record Message `{Json} : Type := mkMessage {
  ms_source_protocol : SourceProtocol;
  ms_from : Address;
  ms_to : list Address;
  ms_cc : list Address;
  ms_bcc : list Address;
  ms_reply_to : list Address;
  ms_subject : string;
  ms_headers : strmap;
  ms_body_text : option string;
  ms_body_html : option string;
  ms_attachments : list Attachment;
  ms_user_engagement_tracking_disabled : option bool;
  ms_provider_metadata : gmap string json_value;
  ms_raw_mime : option bytes;
  ms_thread_id : option string }.

Definition recipients `{Json} (m : Message) : list Address := ms_to m ++ ms_cc m ++ ms_bcc m.

Record StoredMessage `{Json} : Type := mkStored {
  sm_message_id : string;
  sm_mailbox : string;
  sm_message : Message;
  sm_delivery_status : DeliveryStatus;
  sm_received_at : time }.

Record ListMessagesParams : Type := mkParams { lp_marker : option string; lp_limit : option N }.
Definition default_params : ListMessagesParams := mkParams None None.

Record ListMessagesResult `{Json} : Type := mkListed {
  lr_messages : list StoredMessage;
  lr_next_marker : option string }.

Record MailboxInfo : Type := mkMailbox {
  mb_address : string;
  mb_message_count : N;
  mb_last_received_at : option time }.

Definition ALL_MAILBOX : string := "_all".

(** ** Distinct targets *)

(** [Vec::dedup] *)
Fixpoint dedup (l : list string) : list string :=
  match l with
  | a :: (b :: _) as rest => if eqb a b then dedup rest else a :: dedup rest
  | _ => l
  end.

(** [targets.sort(); targets.dedup();] on the mailbox keys of the recipients *)
Definition targets `{Json} (m : Message) : list string :=
  dedup (merge_sort String.le (mailbox_key <$> recipients m)).

(** What [serde_json] makes of a message: its pieces when it is rendered, and
    the stored form. *)
Class MailEnv `{Json} : Type := {
  message_chunks : Message -> list bytes;
  encode_stored : StoredMessage -> bytes;
  decode_stored : bytes -> option StoredMessage }.

Class MailEnvLaws `{MailEnv} : Prop := {
  decode_encode_stored : forall st, decode_stored (encode_stored st) = Some st;
  (** the raw bytes are rendered as an array of numbers: a digit and a comma
      or bracket for each at the least *)
  message_chunks_raw : forall m,
    (2 * default 0 (size_of <$> ms_raw_mime m) <= N.of_nat (length (concat (message_chunks m))))%N }.

Section Mail.
Context `{CaptureEnv} `{!MailEnv}.

(** ** Admission *)

Fixpoint add_targets (budget : CaptureBudget) (bytes raw_bytes : N) (l : list string) : Res CaptureBudget :=
  match l with
  | [] => Ok budget
  | target :: rest =>
      b1 ← budget_add budget bytes;
      b2 ← budget_add b1 (ENVELOPE_BYTES + Text.len target);
      b3 ← budget_add b2 raw_bytes;
      b4 ← (if eqb target ALL_MAILBOX then Ok b3 else budget_add b3 bytes);
      add_targets b4 bytes raw_bytes rest
  end.

Definition add_message (budget : CaptureBudget) (message : Message) : Res CaptureBudget :=
  let raw_bytes := default 0%N (size_of <$> ms_raw_mime message) in
  bytes ← json_bytes (message_chunks message);
  b1 ← copies budget bytes 3;
  add_targets b1 bytes raw_bytes (targets message ++ [ALL_MAILBOX]).

Fixpoint add_messages (budget : CaptureBudget) (messages : list Message) : Res CaptureBudget :=
  match messages with
  | [] => Ok budget
  | message :: rest => b ← add_message budget message; add_messages b rest
  end.

Definition check_messages (messages : list Message) (records : list RepeatabilityRecord) : Res unit :=
  b ← add_messages default_budget messages;
  _ ← budget_records b records; Ok tt.

Definition check_single_copy (message : Message) (mailbox id : string) : Res unit :=
  bytes ← json_bytes (message_chunks message);
  b1 ← copies default_budget bytes 3;
  b2 ← budget_add b1 (default 0%N (size_of <$> ms_raw_mime message));
  _ ← budget_add b2 (ENVELOPE_BYTES + Text.len mailbox + Text.len id); Ok tt.

(** ** Stores of messages *)

Class MailStore (S : Type) : Type := {
  capture_batch : list (string * Message) -> list RepeatabilityRecord ->
    io S (option (list (list StoredMessage)));
  get_repeatability_record : string -> io S (option RepeatabilityRecord);
  store_message : string -> string -> Message -> io S StoredMessage;
  get_message : string -> string -> io S StoredMessage;
  get_message_case_insensitive : string -> string -> io S StoredMessage;
  list_messages : string -> ListMessagesParams -> io S ListMessagesResult;
  delete_message : string -> string -> io S unit;
  delete_mailbox : string -> io S unit;
  update_delivery_status : string -> string -> DeliveryStatus -> io S unit;
  list_mailboxes : io S (list MailboxInfo);
  ensure_mailbox : string -> io S unit }.

Context `{Env} {S : Type} `{!MailStore S}.

(** The default [get_message_case_insensitive] of the trait. *)
Definition default_case_insensitive (mailbox message_id : string) : io S StoredMessage :=
  r ← attempt (get_message mailbox message_id);
  match r with
  | Ok stored => mret stored
  | Err MessageNotFound =>
      listed ← list_messages mailbox default_params;
      of_res (ok_or MessageNotFound
        (head (filter (fun st => Text.eq_ignore_ascii_case (sm_message_id st) message_id = true)
                      (lr_messages listed))))
  | Err e => fail e
  end.

Definition generate_message_id : io S string := u ← new_uuid; mret ("msg-" +:+ u).

(** ** Fan-out *)

(** Every target is created, and must not hold the message yet. *)
Fixpoint prepare_targets (message_id : string) (l : list string) : io S unit :=
  match l with
  | [] => mret tt
  | mailbox :: rest =>
      ensure_mailbox mailbox;;
      r ← attempt (get_message mailbox message_id);
      match r with
      | Err MessageNotFound => prepare_targets message_id rest
      | Ok _ => fail (InvalidRequest ("message id " +:+ message_id +:+ " already exists"))
      | Err e => fail e
      end
  end.

(** The errors of the deletions, each with its target. *)
Fixpoint roll_back (l : list (string * string)) : io S (list (string * string * Error)) :=
  match l with
  | [] => mret []
  | (mailbox, id) :: rest =>
      r ← attempt (delete_message mailbox id);
      errors ← roll_back rest;
      mret (match r with Ok _ => errors | Err e => (mailbox, id, e) :: errors end)
  end.

Fixpoint store_copies (message_id : string) (message : Message) (l written : list string)
    (stored : list StoredMessage) : io S (list StoredMessage) :=
  match l with
  | [] => mret stored
  | mailbox :: rest =>
      r ← attempt (store_message mailbox message_id message);
      match r with
      | Ok copy =>
          store_copies message_id message rest (written ++ [mailbox])
            (if eqb mailbox ALL_MAILBOX then stored else stored ++ [copy])
      | Err error =>
          errors ← roll_back ((fun target => (target, message_id)) <$> written ++ [mailbox]);
          match errors with
          | [] => fail error
          | _ :: _ => fail (InternalError ("mail fan-out failed (" +:+ display error +:+
              "); rollback failed for " +:+
              Text.join_text ", " ((fun e => e.1.1 +:+ ": " +:+ display e.2) <$> errors)))
          end
      end
  end.

Definition fan_out_with_id (message : Message) (message_id : string) : io S (list StoredMessage) :=
  of_res (check_messages [message] []);;
  captured ← capture_batch [(message_id, message)] [];
  match captured with
  (* [captured.remove(0)]: a batch of one gives one result *)
  | Some results => mret (default [] (head results))
  | None =>
      match targets message with
      | [] => fail (InvalidRequest "message has no recipients")
      | mailboxes =>
          let all := ALL_MAILBOX :: mailboxes in
          prepare_targets message_id all;;
          store_copies message_id message all [] []
      end
  end.

Definition fan_out (message : Message) : io S (list StoredMessage) :=
  id ← generate_message_id;
  fan_out_with_id message id.

(** The message identifiers of a batch are drawn in order. *)
Fixpoint with_ids (messages : list Message) : io S (list (string * Message)) :=
  match messages with
  | [] => mret []
  | message :: rest =>
      id ← generate_message_id; others ← with_ids rest; mret ((id, message) :: others)
  end.

(** The path of stores without batches: [captured] is what to delete when a
    later message fails. *)
Fixpoint fan_out_each (messages : list Message) (captured : list (string * string))
    (result : list (list StoredMessage)) : io S (list (list StoredMessage)) :=
  match messages with
  | [] => mret result
  | message :: rest =>
      id ← generate_message_id;
      r ← attempt (fan_out_with_id message id);
      match r with
      | Ok stored =>
          let mailboxes := (mailbox_key <$> recipients message) ++ [ALL_MAILBOX] in
          fan_out_each rest (captured ++ ((fun mailbox => (mailbox, id)) <$> mailboxes)) (result ++ [stored])
      | Err error =>
          errors ← roll_back captured;
          match errors with
          | [] => fail error
          | _ :: _ => fail (InternalError ("mail batch failed (" +:+ display error +:+
              "); rollback failed for " +:+
              Text.join_text ", " ((fun e => e.1.1 +:+ "/" +:+ e.1.2 +:+ ": " +:+ display e.2) <$> errors)))
          end
      end
  end.

Definition fan_out_batch (messages : list Message) : io S (list (list StoredMessage)) :=
  of_res (check_messages messages []);;
  requests ← with_ids messages;
  captured ← capture_batch requests [];
  match captured with
  | Some results => mret results
  | None => fan_out_each messages [] []
  end.

End Mail.
