(* ===== verification/MailFacts.v ===== *)
(** * MailFacts: admission and the targets of a message

    The budget adds up costs with checked arithmetic, one piece at a time; it
    admits a capture exactly when the sum of its costs, computed without bounds,
    is within the limit.  The targets of a message are the distinct mailbox keys
    of its recipients. *)

From S2P Require Import Prelude Text Models Utf8 FsModel Publication Capture Mail.

(** ** Charges *)

(** One charge against a budget. *)
Definition charge (b : CaptureBudget) (n : N) : Res CaptureBudget :=
  if (cb_bytes b + n <=? MAX_CAPTURE_BYTES)%N then Ok (mkBudget (cb_bytes b + n)) else Err CaptureTooLarge.

Lemma max_capture_small : (MAX_CAPTURE_BYTES < U64_MAX)%N.
Proof. done. Qed.

Lemma budget_add_charge b n : budget_add b n = charge b n.
Proof.
  unfold budget_add, charge, checked_add_u64. pose proof max_capture_small.
  case_bool_decide; simpl; destruct (N.leb_spec (cb_bytes b + n) MAX_CAPTURE_BYTES); done || lia.
Qed.

Lemma copies_charge b n k : copies b n k = charge b (n * k).
Proof.
  unfold copies, checked_mul_u64. pose proof max_capture_small.
  destruct (N.leb_spec (n * k) U64_MAX); simpl; [apply budget_add_charge|].
  unfold charge. destruct (N.leb_spec (cb_bytes b + n * k) MAX_CAPTURE_BYTES); [lia|done].
Qed.

Lemma charge_charge b n k : (b' ← charge b n; charge b' k) = charge b (n + k).
Proof.
  unfold charge. destruct (N.leb_spec (cb_bytes b + n) MAX_CAPTURE_BYTES); simpl.
  - by rewrite N.add_assoc.
  - by destruct (N.leb_spec (cb_bytes b + (n + k)) MAX_CAPTURE_BYTES); [lia|].
Qed.

Lemma bind_charge {A} b n k (f : CaptureBudget -> Res A) :
  (b' ← charge b n; b'' ← charge b' k; f b'') = (b'' ← charge b (n + k); f b'').
Proof. rewrite <- charge_charge. by destruct (charge b n). Qed.

Lemma charge_zero b : (cb_bytes b <= MAX_CAPTURE_BYTES)%N -> charge b 0 = Ok b.
Proof.
  intros Hb. unfold charge. rewrite N.add_0_r. destruct b as [n]; simpl in *.
  by destruct (N.leb_spec n MAX_CAPTURE_BYTES); [|lia].
Qed.

Lemma charge_bounded b n b' : charge b n = Ok b' -> (cb_bytes b' <= MAX_CAPTURE_BYTES)%N.
Proof. unfold charge. destruct (N.leb_spec (cb_bytes b + n) MAX_CAPTURE_BYTES); [by intros [= <-]|done]. Qed.

(** The bytes a record is rendered in. *)
Definition rendered (chunks : list bytes) : N := N.of_nat (length (concat chunks)).

Lemma write_chunks_charge b chunks :
  (cb_bytes b <= MAX_CAPTURE_BYTES)%N -> write_chunks b chunks = charge b (rendered chunks).
Proof.
  revert b. induction chunks as [|c chunks IH]; intros b Hb; simpl.
  - by rewrite charge_zero.
  - unfold rendered. simpl. rewrite length_app, Nat2N.inj_add, <- charge_charge, budget_add_charge.
    destruct (charge b (size_of c)) as [b'|e] eqn:E; [|by unfold size_of in E; rewrite E].
    unfold size_of in E. rewrite E. simpl. apply IH. by eapply charge_bounded.
Qed.

Lemma json_bytes_spec chunks :
  json_bytes chunks = if (rendered chunks <=? MAX_CAPTURE_BYTES)%N then Ok (rendered chunks) else Err CaptureTooLarge.
Proof.
  unfold json_bytes. rewrite write_chunks_charge by done. unfold charge, default_budget. cbn [cb_bytes]. rewrite N.add_0_l.
  by destruct (rendered chunks <=? MAX_CAPTURE_BYTES)%N.
Qed.

(** Rendering first refuses nothing that is charged for anyway. *)
Lemma json_bytes_charge {A} chunks b (f : N -> N) (g : N -> CaptureBudget -> Res A) :
  (forall n, n <= f n)%N ->
  (n ← json_bytes chunks; b' ← charge b (f n); g n b') =
  (b' ← charge b (f (rendered chunks)); g (rendered chunks) b').
Proof.
  intros Hf. rewrite json_bytes_spec. destruct (N.leb_spec (rendered chunks) MAX_CAPTURE_BYTES); [done|].
  simpl. unfold charge. specialize (Hf (rendered chunks)).
  by destruct (N.leb_spec (cb_bytes b + f (rendered chunks)) MAX_CAPTURE_BYTES); [lia|].
Qed.

(** ** The cost of a capture *)

Section Costs.
Context `{CaptureEnv} `{!MailEnv}.

Definition raw_size (m : Message) : N := default 0%N (size_of <$> ms_raw_mime m).

Definition target_cost (bytes raw : N) (target : string) : N :=
  bytes + (ENVELOPE_BYTES + Text.len target) + raw + (if eqb target ALL_MAILBOX then 0 else bytes).
Definition sum (l : list N) : N := foldr N.add 0%N l.

Definition message_cost (m : Message) : N :=
  let bytes := rendered (message_chunks m) in
  3 * bytes + sum (target_cost bytes (raw_size m) <$> targets m ++ [ALL_MAILBOX]).
Definition record_cost (r : RepeatabilityRecord) : N := 3 * rendered (record_chunks r) + ENVELOPE_BYTES.

Lemma add_targets_charge b bytes raw l :
  (cb_bytes b <= MAX_CAPTURE_BYTES)%N -> add_targets b bytes raw l = charge b (sum (target_cost bytes raw <$> l)).
Proof.
  revert b. induction l as [|t l IH]; intros b Hb; simpl; [by rewrite charge_zero|].
  rewrite <- charge_charge.
  transitivity (b4 ← charge b (target_cost bytes raw t); add_targets b4 bytes raw l).
  - rewrite !budget_add_charge. unfold target_cost. rewrite <- !bind_charge.
    destruct (charge b bytes) as [b1|]; [|done]. simpl. rewrite budget_add_charge.
    destruct (charge b1 _) as [b2|] eqn:E2; [|done]. simpl. rewrite budget_add_charge.
    destruct (charge b2 raw) as [b3|] eqn:E3; [|done]. simpl.
    destruct (eqb t ALL_MAILBOX); [|by rewrite budget_add_charge].
    by rewrite charge_zero by (by eapply charge_bounded).
  - destruct (charge b (target_cost bytes raw t)) as [b4|] eqn:E4; [|done]. simpl. apply IH.
    by eapply charge_bounded.
Qed.

Lemma add_message_charge b m :
  (cb_bytes b <= MAX_CAPTURE_BYTES)%N -> add_message b m = charge b (message_cost m).
Proof.
  intros Hb. unfold add_message, message_cost. rewrite <- charge_charge.
  transitivity (n ← json_bytes (message_chunks m); b1 ← charge b (3 * n);
    add_targets b1 n (raw_size m) (targets m ++ [ALL_MAILBOX])).
  { destruct (json_bytes (message_chunks m)); [|done]. simpl. by rewrite copies_charge, N.mul_comm. }
  rewrite json_bytes_charge by lia. destruct (charge b _) as [b1|] eqn:E1; [|done]. simpl.
  apply add_targets_charge. by eapply charge_bounded.
Qed.

Lemma add_messages_charge b ms :
  (cb_bytes b <= MAX_CAPTURE_BYTES)%N -> add_messages b ms = charge b (sum (message_cost <$> ms)).
Proof.
  revert b. induction ms as [|m ms IH]; intros b Hb; simpl; [by rewrite charge_zero|].
  rewrite add_message_charge, <- charge_charge by done.
  destruct (charge b (message_cost m)) as [b'|] eqn:E1; [|done]. simpl. apply IH. by eapply charge_bounded.
Qed.

Lemma budget_records_charge b rs :
  (cb_bytes b <= MAX_CAPTURE_BYTES)%N -> budget_records b rs = charge b (sum (record_cost <$> rs)).
Proof.
  revert b. induction rs as [|r rs IH]; intros b Hb; simpl; [by rewrite charge_zero|].
  rewrite <- charge_charge.
  transitivity (b2 ← charge b (record_cost r); budget_records b2 rs).
  - unfold record_cost. rewrite <- bind_charge.
    transitivity (n ← json_bytes (record_chunks r); b1 ← charge b (3 * n);
      b2 ← charge b1 ENVELOPE_BYTES; budget_records b2 rs).
    + destruct (json_bytes (record_chunks r)); [|done]. simpl. rewrite copies_charge, N.mul_comm.
      destruct (charge b _); [|done]. simpl. by rewrite budget_add_charge.
    + by rewrite json_bytes_charge by lia.
  - destruct (charge b (record_cost r)) as [b2|] eqn:E2; [|done]. simpl. apply IH. by eapply charge_bounded.
Qed.

Lemma check_messages_spec messages records :
  check_messages messages records =
  if (sum (message_cost <$> messages) + sum (record_cost <$> records) <=? MAX_CAPTURE_BYTES)%N
  then Ok tt else Err CaptureTooLarge.
Proof.
  unfold check_messages. rewrite add_messages_charge by done.
  transitivity (_ ← (b ← charge default_budget (sum (message_cost <$> messages)); charge b (sum (record_cost <$> records))); Ok tt).
  - destruct (charge default_budget _) as [b|] eqn:E1; [|done]. simpl.
    rewrite budget_records_charge; [done|]. by eapply charge_bounded.
  - rewrite charge_charge. unfold charge, default_budget. cbn [cb_bytes]. rewrite N.add_0_l. by destruct (_ <=? _)%N.
Qed.

(** [budget_admits_exactly]. check_messages, which adds up costs piece by
    piece with checked 64-bit arithmetic and stops early, admits a batch
    exactly when the unbounded sum of the costs of its messages and records is
    at most the limit. *)
Theorem budget_admits_exactly messages records :
  check_messages messages records =
  if (sum (message_cost <$> messages) + sum (record_cost <$> records) <=? MAX_CAPTURE_BYTES)%N
  then Ok tt else Err CaptureTooLarge.
Proof. apply check_messages_spec. Qed.

End Costs.

(** ** Targets *)

Lemma dedup_cons a b l : dedup (a :: b :: l) = if eqb a b then dedup (b :: l) else a :: dedup (b :: l).
Proof. done. Qed.

Lemma elem_of_dedup x l : x ∈ dedup l <-> x ∈ l.
Proof.
  induction l as [|a [|b l] IH]; [done..|]. rewrite dedup_cons. destruct (eqb a b) eqn:E.
  - apply eqb_true in E as ->. rewrite IH. set_solver.
  - rewrite !elem_of_cons, IH. set_solver.
Qed.

Lemma dedup_sorted l : Sorted String.le l -> StronglySorted Text.lt (dedup l).
Proof.
  intros Hs. apply Sorted_StronglySorted in Hs; [|apply _].
  induction Hs as [|a l Hs IH Ha]; [constructor|]. destruct l as [|b l]; [repeat constructor|].
  rewrite dedup_cons. destruct (eqb a b) eqn:E; [done|]. apply eqb_false in E. constructor; [done|].
  apply list.Forall_forall. intros x Hx. rewrite elem_of_dedup in Hx. rewrite list.Forall_forall in Ha.
  inversion Hs as [|? ? _ Hb]; subst. rewrite list.Forall_forall in Hb.
  assert (String.le a b) as Hab by (apply Ha; left).
  apply (Text.lt_le_trans _ b); [done|]. apply elem_of_cons in Hx as [->|Hx]; [done|]. by apply Hb.
Qed.

Lemma sorted_nodup l : StronglySorted Text.lt l -> NoDup l.
Proof.
  induction 1 as [|a l _ IH Ha]; constructor; [|done]. intros Hin.
  rewrite list.Forall_forall in Ha. by apply (Text.lt_irrefl a), Ha.
Qed.

Section Targets.
Context `{Json}.

Lemma elem_of_targets (m : Message) mailbox :
  mailbox ∈ targets m <-> exists a, a ∈ recipients m /\ mailbox_key a = mailbox.
Proof.
  unfold targets. rewrite elem_of_dedup, merge_sort_Permutation, list_elem_of_fmap. naive_solver.
Qed.

Lemma targets_nodup (m : Message) : NoDup (targets m).
Proof. apply sorted_nodup, dedup_sorted, Sorted_merge_sort, _. Qed.

Lemma targets_nil (m : Message) : targets m = [] <-> recipients m = [].
Proof.
  split; intros Hn.
  - destruct (recipients m) as [|a l] eqn:E; [done|]. exfalso.
    assert (mailbox_key a ∈ targets m) as Hin.
    { apply elem_of_targets. exists a. split; [rewrite E; left|done]. }
    rewrite Hn in Hin. by apply elem_of_nil in Hin.
  - destruct (targets m) as [|x l] eqn:E; [done|]. exfalso.
    assert (x ∈ targets m) as (a & Ha & _)%elem_of_targets by (rewrite E; left).
    rewrite Hn in Ha. by apply elem_of_nil in Ha.
Qed.
End Targets.

(** A message with a recipient costs at least fourteen times its raw bytes. *)
Lemma message_cost_raw `{CaptureEnv} `{!MailEnv} `{!MailEnvLaws} m mailbox :
  mailbox ∈ targets m -> mailbox <> ALL_MAILBOX -> (14 * raw_size m <= message_cost m)%N.
Proof.
  intros Hin Hne. unfold message_cost. pose proof (message_chunks_raw m) as Hr.
  fold (raw_size m) in Hr. fold (rendered (message_chunks m)) in Hr.
  set (n := rendered (message_chunks m)) in *. set (r := raw_size m) in *.
  assert (forall l, sum (target_cost n r <$> l ++ [ALL_MAILBOX]) =
    sum (target_cost n r <$> l) + target_cost n r ALL_MAILBOX)%N as Happ.
  { intros l. rewrite fmap_app. induction l as [|x l IH]; cbn [fmap list_fmap app sum foldr] in *; [lia|].
    unfold sum in IH. simpl in *. lia. }
  assert (forall l, mailbox ∈ l -> target_cost n r mailbox <= sum (target_cost n r <$> l))%N as Hsum.
  { induction l as [|x l IH]; intros Hx; [by apply elem_of_nil in Hx|]. rewrite fmap_cons; unfold sum in *; cbn [foldr].
    apply elem_of_cons in Hx as [<-|Hx]; [lia|]. specialize (IH Hx). lia. }
  rewrite Happ. specialize (Hsum _ Hin).
  assert (target_cost n r mailbox >= 2 * n + r)%N as Hm.
  { unfold target_cost. destruct (eqb mailbox ALL_MAILBOX) eqn:E; [rewrite eqb_true in E; congruence|]. lia. }
  assert (target_cost n r ALL_MAILBOX >= n + r)%N as Ha by (unfold target_cost; lia). lia.
Qed.
