(* ===== verification/Smtp.v ===== *)
(** * Smtp: [src/mail/smtp.rs]

    The SMTP session that captures submissions.  A connection is the bytes the
    client sends, how the stream ends, and the replies written so far; a write
    may find the connection closed.  The session runs on a connection and a
    store of messages.  Indexing a [str] with a reversed range panics, which
    ends the task of the session: that outcome is a value of the model. *)

From Stdlib Require Import Ascii Strings.Byte.
From stdpp Require Import pretty.
From S2P Require Import Prelude Text Models Utf8 FsModel Publication Capture Mail.

(** ** Connections *)

Record Conn : Type := mkConn {
  cn_input : bytes;               (* bytes still to be read *)
  cn_eof : bool;                  (* the stream ends, or breaks *)
  cn_writable : option nat;       (* how many more writes go through, if limited *)
  cn_sent : list string }.        (* the lines written, oldest first *)

Definition set_input (b : bytes) (c : Conn) : Conn := mkConn b (cn_eof c) (cn_writable c) (cn_sent c).

Record Session (S : Type) : Type := mkSession { se_conn : Conn; se_store : S }.
Global Arguments mkSession {S} _ _.
Global Arguments se_conn {S} _.
Global Arguments se_store {S} _.

Section Connection.
Context {S : Type}.

Definition on_conn {A} : io Conn A -> io (Session S) A :=
  zoom se_conn (fun c s => mkSession c (se_store s)).
Definition on_store {A} : io S A -> io (Session S) A :=
  zoom se_store (fun st s => mkSession (se_conn s) st).

Definition write_line (line : string) : io (Session S) unit := on_conn (fun σ c =>
  match cn_writable c with
  | Some O => (Failed (InternalError "write"), c, σ)
  | w => (Done tt, mkConn (cn_input c) (cn_eof c) (pred <$> w) (cn_sent c ++ [line]), σ)
  end).

(** The input ran out in the middle of a read. *)
Definition input_ended {A} : io (Session S) (option A) := on_conn (fun σ c =>
  if cn_eof c then (Done None, set_input [] c, σ)
  else (Failed (InternalError "read"), set_input [] c, σ)).

Definition set_rest (rest : bytes) : io (Session S) unit := on_conn (modify (set_input rest)).
Definition pending_input : io (Session S) bytes := gets (fun s => cn_input (se_conn s)).
End Connection.

(** ** Command lines *)

Inductive CommandLine : Type := Valid (line : string) | Invalid (message : string).

Definition LF : Byte.byte := x0a.
Definition CR : Byte.byte := x0d.

(** The loop of [next_line]: the line kept, whether bytes were dropped, and the
    input after it. *)
Fixpoint scan_line (input line : bytes) (too_long : bool) : option (bytes * bool * bytes) :=
  match input with
  | [] => None
  | byte :: rest =>
      let '(line, too_long) :=
        if (size_of line <? 512)%N then (line ++ [byte], too_long) else (line, true) in
      if eqb byte LF then Some (line, too_long, rest) else scan_line rest line too_long
  end.

(** [line.ends_with(b"\r\n")] *)
Definition ends_with_crlf (line : bytes) : bool := bool_decide ([CR; LF] `suffix_of` line).

Definition command_line (line : bytes) (too_long : bool) : CommandLine :=
  if too_long then Invalid "500 Command line too long"
  else if negb (ends_with_crlf line) then Invalid "501 Command must end with CRLF"
  else match Utf8.from_utf8 (take (length line - 2) line) with
       | Some text => Valid text
       | None => Invalid "500 Command is not valid UTF-8"
       end.

Definition next_line {S} : io (Session S) (option CommandLine) :=
  input ← pending_input;
  match scan_line input [] false with
  | None => input_ended
  | Some (line, too_long, rest) => set_rest rest;; mret (Some (command_line line too_long))
  end.

Definition split_command (line : string) : option (string * string) :=
  if Text.is_empty line || Text.starts_with line " " || Utf8.any_char Utf8.is_control line then None
  else let '(command, rest) := default (line, "") (Text.split_once " " line) in
       Some (Utf8.to_ascii_uppercase command, Text.trim rest).

Definition command_argument_error (command rest : string) (has_parameters : bool) : option string :=
  if (eqb command "EHLO" || eqb command "HELO")
     && (Text.is_empty rest || Utf8.any_char Utf8.is_whitespace rest)
  then Some "501 Domain/address required"
  else if (eqb command "DATA" || eqb command "RSET" || eqb command "QUIT") && has_parameters
  then Some "501 Command does not accept arguments"
  else None.

Definition unsupported_envelope_parameters (rest : string) : bool :=
  is_some_and (fun lr => Text.starts_with lr.2 " " && negb (Text.is_empty (Text.trim lr.2)))
              (Text.split_once ">" rest).

Definition parse_address (rest prefix : string) (allow_null : bool) : option Address :=
  let rest := Text.trim rest in
  head ← Utf8.get_to (String.length prefix) rest;
  if negb (Text.eq_ignore_ascii_case head prefix) then None
  else
    let without_prefix := Text.trim (Text.slice_from (String.length prefix) rest) in
    p ← Text.strip_prefix without_prefix "<";
    close ← Text.find p ">";
    let email := Text.trim (Text.slice_to close p) in
    let parameters := Text.slice_from (close + 1) p in
    if negb (Text.is_empty (Text.trim parameters)) then None
    else if allow_null && Text.is_empty email then Some (new_address "")
    else if Text.is_empty email || (Text.contains email "<" || Text.contains email ">")
            || Utf8.any_char Utf8.is_whitespace email
    then None
    else Some (new_address email).

(** ** Message data *)

Definition raw_capture_limit : N := MAX_CAPTURE_BYTES / 14.
Definition input_limit (max_message_bytes : N) : N := N.min max_message_bytes raw_capture_limit.

(** [line.strip_prefix(b".").unwrap_or(&line)] *)
Definition unstuff (line : bytes) : bytes :=
  match line with x2e :: rest => rest | _ => line end.

(** The loop of [read_data]: the bytes kept, whether the limit was exceeded,
    and the input after the terminator. *)
Fixpoint scan_data (limit : N) (input raw line : bytes) (too_large : bool) : option (bytes * bool * bytes) :=
  match input with
  | [] => None
  | byte :: rest =>
      let line_limit := if too_large then 3%N else saturating_add_usize limit 3 in
      let '(raw, line, too_large) :=
        if (size_of line <? line_limit)%N then (raw, line ++ [byte], too_large) else ([], line, true) in
      if eqb byte LF then
        let ended_with_crlf := ends_with_crlf line in
        let line := if ended_with_crlf then take (length line - 2) line else removelast line in
        if ended_with_crlf && eqb line [x2e] then Some (raw, too_large, rest)
        else
          let '(raw, too_large) :=
            if too_large then (raw, true)
            else
              let unescaped := unstuff line in
              let added := saturating_add_usize (size_of unescaped) 1 in
              if (limit <? saturating_add_usize (size_of raw) added)%N then ([], true)
              else (raw ++ unescaped ++ [LF], false) in
          scan_data limit rest raw [] too_large
      else scan_data limit rest raw line too_large
  end.

Definition read_data {S} (max_message_bytes : N) : io (Session S) (option bytes) :=
  let limit := input_limit max_message_bytes in
  input ← pending_input;
  match scan_data limit input [] [] false with
  | None => input_ended
  | Some (raw, too_large, rest) =>
      set_rest rest;;
      if too_large && (limit <? max_message_bytes)%N then fail CaptureTooLarge
      else if (too_large : bool) then
        fail (InvalidRequest ("message exceeds the " +:+ pretty max_message_bytes +:+ "-byte emulator limit"))
      else mret (Some raw)
  end.

(** ** Headers *)

(** [None]: the slice is reversed, and the call panics. *)
Definition parse_header_address (value : string) : option (option Address) :=
  let value := Text.trim value in
  if Text.is_empty value then Some None
  else
    value ←
      match Text.find value "<", Utf8.rfind ">" value with
      | Some start, Some finish =>
          if start + 1 <=? finish
          then Some (Text.slice_to (finish - (start + 1)) (Text.slice_from (start + 1) value))
          else None
      | _, _ => Some value
      end;
    Some (if Text.is_empty value then None else Some (new_address (Text.trim value))).

Fixpoint parse_all (l : list string) : option (list Address) :=
  match l with
  | [] => Some []
  | raw :: rest =>
      address ← parse_header_address raw;
      others ← parse_all rest;
      Some (option_list address ++ others)
  end.

Definition parse_header_address_list (value : string) : option (list Address) :=
  parse_all (Text.split "," value).

(** The header lines, a later one replacing an earlier one of the same name. *)
Definition parse_headers (header_block : string) : strmap :=
  foldl (fun headers line =>
    match Text.split_once ":" line with
    | Some (name, value) => <[Text.to_ascii_lowercase (Text.trim name) := Text.trim value]> headers
    | None => headers
    end) ∅ (Utf8.lines header_block).

Record Transaction : Type := mkTransaction { tx_from : option Address; tx_recipients : list Address }.
Definition default_transaction : Transaction := mkTransaction None [].

Definition build_message `{Json} (transaction : Transaction) (raw : bytes) : option Message :=
  let text := Utf8.from_utf8_lossy raw in
  let '(header_block, body) := default (text, "") (Utf8.split_once_str (String Utf8.LF (String Utf8.LF "")) text) in
  let headers := parse_headers header_block in
  let header name := default "" (headers !! name) in
  from ← parse_header_address
    (match headers !! "from" with
     | Some value => value
     | None => default "unknown@localhost" (headers !! "x-envelope-from")
     end);
  let from := default (new_address "unknown@localhost") from in
  recipients ← parse_header_address_list
    (match headers !! "to" with
     | Some value => value
     | None => header "x-envelope-to"
     end);
  cc ← parse_header_address_list (header "cc");
  bcc ← parse_header_address_list (header "bcc");
  Some {|
    ms_source_protocol := Smtp;
    ms_from := default from (tx_from transaction);
    ms_to := match tx_recipients transaction with [] => recipients | l => l end;
    ms_cc := cc;
    ms_bcc := bcc;
    ms_reply_to := [];
    ms_subject := header "subject";
    ms_headers := headers;
    ms_body_text := Some (Text.trim body);
    ms_body_html := None;
    ms_attachments := [];
    ms_user_engagement_tracking_disabled := None;
    ms_provider_metadata := ∅;
    ms_raw_mime := Some raw;
    ms_thread_id := None |}.

(** ** The session *)

(** How a session ends: it returns, its task panics, or (never, as proved) the
    fuel of the loop runs out. *)
Inductive session_end : Type := Closed | Panicked | OutOfFuel.

(** One round of the loop: on with the next command, or out. *)
Inductive round : Type := Next (greeted : bool) (transaction : Transaction) | End (e : session_end).

Section Session.
Context `{CaptureEnv} `{!MailEnv} `{Env} {S : Type} `{!MailStore S}.
Variable max_message_bytes : N.

Definition bad_sequence (greeted : bool) (t : Transaction) : io (Session S) round :=
  write_line "503 Bad sequence of commands";; mret (Next greeted t).

Definition data_command (greeted : bool) (t : Transaction) : io (Session S) round :=
  if is_none (tx_from t) || bool_decide (tx_recipients t = []) then bad_sequence greeted t
  else
    write_line "354 Start mail input; end with <CRLF>.<CRLF>";;
    r ← attempt (read_data max_message_bytes);
    match r with
    | Ok (Some raw) =>
        match build_message t raw with
        | None => mret (End Panicked)
        | Some message =>
            r ← attempt (on_store (fan_out message));
            match r with
            | Ok _ => write_line "250 OK: message accepted"
            | Err CaptureTooLarge => write_line ("552 " +:+ display CaptureTooLarge)
            | Err e => write_line ("451 " +:+ display e)
            end;;
            mret (Next greeted default_transaction)
        end
    | Ok None => mret (End Closed)
    | Err (InvalidRequest message) =>
        write_line ("552 " +:+ message);; mret (Next greeted default_transaction)
    | Err CaptureTooLarge =>
        write_line ("552 " +:+ display CaptureTooLarge);; mret (Next greeted default_transaction)
    | Err e => fail e
    end.

Definition run_command (greeted : bool) (t : Transaction) (command rest : string) : io (Session S) round :=
  if eqb command "EHLO" || eqb command "HELO" then
    write_line "250 sqrzl-emulator";; mret (Next true default_transaction)
  else if eqb command "MAIL" then
    if negb greeted || is_some (tx_from t) then bad_sequence greeted t
    else match parse_address rest "FROM:" true with
         | Some address =>
             write_line "250 OK";; mret (Next greeted (mkTransaction (Some address) (tx_recipients t)))
         | None =>
             (if unsupported_envelope_parameters rest
              then write_line "555 MAIL FROM parameters not supported"
              else write_line "501 Syntax error in MAIL FROM");;
             mret (Next greeted t)
         end
  else if eqb command "RCPT" then
    if is_none (tx_from t) then bad_sequence greeted t
    else match parse_address rest "TO:" false with
         | Some address =>
             write_line "250 OK";; mret (Next greeted (mkTransaction (tx_from t) (tx_recipients t ++ [address])))
         | None =>
             (if unsupported_envelope_parameters rest
              then write_line "555 RCPT TO parameters not supported"
              else write_line "501 Syntax error in RCPT TO");;
             mret (Next greeted t)
         end
  else if eqb command "DATA" then data_command greeted t
  else if eqb command "RSET" then
    write_line "250 OK";; mret (Next greeted default_transaction)
  else if eqb command "NOOP" then write_line "250 OK";; mret (Next greeted t)
  else if eqb command "QUIT" then write_line "221 Bye";; mret (End Closed)
  else write_line "502 Command not implemented";; mret (Next greeted t).

Definition run_line (greeted : bool) (t : Transaction) (line : CommandLine) : io (Session S) round :=
  let answer text := write_line text;; mret (Next greeted t) in
  match line with
  | Invalid message => answer message
  | Valid line =>
      match split_command line with
      | None => answer "500 Command not recognized"
      | Some (command, rest) =>
          match command_argument_error command rest (Text.contains line " ") with
          | Some error => answer error
          | None => run_command greeted t command rest
          end
      end
  end.

Fixpoint session_loop (fuel : nat) (greeted : bool) (t : Transaction) : io (Session S) session_end :=
  match fuel with
  | O => mret OutOfFuel
  | Datatypes.S fuel' =>
      line ← next_line;
      match line with
      | None => mret Closed
      | Some line =>
          r ← run_line greeted t line;
          match r with
          | Next greeted' t' => session_loop fuel' greeted' t'
          | End e => mret e
          end
      end
  end.

(** Every round reads at least a byte: the length of the input is fuel. *)
Definition handle_session : io (Session S) session_end :=
  write_line "220 sqrzl-emulator SMTP ready";;
  input ← pending_input;
  session_loop (Datatypes.S (length input)) false default_transaction.

End Session.
