(* ===== verification/SmtpSession.v ===== *)
(** * SmtpSession: a session is a run of the protocol

    The protocol as a transition system over the phases of a transaction and
    the store, and the theorems that every session is one of its runs and that
    a session always ends. *)

From Stdlib Require Import Ascii Strings.Byte.
From S2P Require Import Prelude Text Models Utf8 FsModel Publication Capture Mail MailFacts Smtp SmtpFacts.

(** ** The protocol *)

(** Before a greeting, after one, with a sender, and with recipients. *)
Inductive phase : Type :=
| Start
| Ready
| Sender (from : Address)
| Envelope (from : Address) (to : list Address).

Definition reset (p : phase) : phase := match p with Start => Start | _ => Ready end.

(** A reply that refuses: its code starts with 4 or 5. *)
Definition refusal (r : string) : Prop := Text.starts_with r "4" = true \/ Text.starts_with r "5" = true.

Definition DATA_REPLY : string := "354 Start mail input; end with <CRLF>.<CRLF>".
Definition ACCEPTED_REPLY : string := "250 OK: message accepted".

Section Protocol.
Context `{CaptureEnv} `{!MailEnv} `{Env} {S : Type} `{!MailStore S}.
Variable max : N.

(** The message is what the envelope and the data say. *)
Definition of_envelope (m : Message) (from : Address) (to : list Address) (raw : bytes) : Prop :=
  ms_source_protocol m = Smtp /\ ms_from m = from /\ ms_to m = to /\ ms_raw_mime m = Some raw /\
  (size_of raw <= input_limit max)%N.

(** One exchange: the replies, and what becomes of the phase and the store. *)
Inductive exchange : phase * S -> list string -> phase * S -> Prop :=
| ex_refuse p s r : refusal r -> exchange (p, s) [r] (p, s)
| ex_noop p s : exchange (p, s) ["250 OK"] (p, s)
| ex_hello p s : exchange (p, s) ["250 sqrzl-emulator"] (Ready, s)
| ex_reset p s : exchange (p, s) ["250 OK"] (reset p, s)
| ex_mail arg from s :
    parse_address arg "FROM:" true = Some from -> exchange (Ready, s) ["250 OK"] (Sender from, s)
| ex_rcpt arg from a s :
    parse_address arg "TO:" false = Some a -> exchange (Sender from, s) ["250 OK"] (Envelope from [a], s)
| ex_rcpt_more arg from to a s :
    parse_address arg "TO:" false = Some a ->
    exchange (Envelope from to, s) ["250 OK"] (Envelope from (to ++ [a]), s)
| ex_discard from to s r :
    refusal r -> exchange (Envelope from to, s) [DATA_REPLY; r] (Ready, s)
| ex_accept from to raw m σ σ' copies s s' :
    of_envelope m from to raw -> fan_out m σ s = (Done copies, s', σ') ->
    exchange (Envelope from to, s) [DATA_REPLY; ACCEPTED_REPLY] (Ready, s')
| ex_fail from to raw m σ σ' e r s s' :
    of_envelope m from to raw -> fan_out m σ s = (Failed e, s', σ') -> refusal r ->
    exchange (Envelope from to, s) [DATA_REPLY; r] (Ready, s').

(** The exchanges of a session. *)
Inductive exchanges : phase * S -> list string -> phase * S -> Prop :=
| exs_none x : exchanges x [] x
| exs_step x y z l l' : exchange x l y -> exchanges y l' z -> exchanges x (l ++ l') z.

(** How a session breaks off: between exchanges, on [QUIT], while data is read,
    or after the message went to the store and before the client was told. *)
Inductive breaks_off : phase * S -> list string -> S -> Prop :=
| bo_idle p s : breaks_off (p, s) [] s
| bo_quit p s : breaks_off (p, s) ["221 Bye"] s
| bo_reading from to s : breaks_off (Envelope from to, s) [DATA_REPLY] s
| bo_unanswered from to raw m σ σ' o s s' :
    of_envelope m from to raw -> fan_out m σ s = (o, s', σ') ->
    breaks_off (Envelope from to, s) [DATA_REPLY] s'.

(** ** The session *)

Definition in_phase (p : phase) (greeted : bool) (t : Transaction) : Prop :=
  match p with
  | Start => greeted = false /\ t = default_transaction
  | Ready => greeted = true /\ t = default_transaction
  | Sender from => greeted = true /\ t = mkTransaction (Some from) []
  | Envelope from to => greeted = true /\ to <> [] /\ t = mkTransaction (Some from) to
  end.

Abbreviation Session := (Session S).

Lemma wp_write_line {m : mode} line Q E C (s : Session) :
  (forall s', se_store s' = se_store s -> cn_input (se_conn s') = cn_input (se_conn s) ->
     cn_sent (se_conn s') = cn_sent (se_conn s) ++ [line] -> Q tt s') ->
  (forall e, E e s) -> wp m (write_line line) Q E C s.
Proof.
  intros HQ HE σ Hσ. unfold write_line, on_conn, zoom. destruct s as [c st]. simpl.
  destruct (cn_writable c) as [[|n]|]; (split; [done|]); simpl; [apply HE|by apply HQ..].
Qed.

Lemma bind_done {T A B} (p : io T A) (f : A -> io T B) σ (s : T) a s1 σ1 :
  p σ s = (Done a, s1, σ1) -> (p ≫= f) σ s = f a σ1 s1.
Proof. intros Hp. unfold mbind, io_bind. by rewrite Hp. Qed.

(** Any run of a program. *)
Lemma wp_exact {T A} (p : io T A) Q E C (s : T) :
  (forall σ o s' σ', p σ s = (o, s', σ') -> holds Q E C o s') -> wp any_schedule p Q E C s.
Proof.
  intros Hp σ _. destruct (p σ s) as [[o s'] σ'] eqn:Hr. split; [apply any_schedule_ok|by eapply Hp].
Qed.

Lemma wp_input_ended {m : mode} {A} Q E C (s : Session) :
  Q None (with_input [] s) -> (forall e, E e (with_input [] s)) -> wp m (input_ended (A := A)) Q E C s.
Proof.
  intros HQ HE σ Hσ. unfold input_ended, on_conn, zoom. destruct (cn_eof (se_conn s)); (split; [done|]); [apply HQ|apply HE].
Qed.

(** *** What a round does *)

Definition answers (p : phase) (s0 : Session) (r : round) (s : Session) : Prop :=
  exists l, cn_sent (se_conn s) = cn_sent (se_conn s0) ++ l /\
  match r with
  | Next greeted t => (exists p', exchange (p, se_store s0) l (p', se_store s) /\ in_phase p' greeted t) /\
      length (cn_input (se_conn s)) <= length (cn_input (se_conn s0))
  | End e => breaks_off (p, se_store s0) l (se_store s) /\ e <> OutOfFuel
  end.
Definition broken (p : phase) (s0 s : Session) : Prop :=
  exists l, cn_sent (se_conn s) = cn_sent (se_conn s0) ++ l /\ breaks_off (p, se_store s0) l (se_store s).

Abbreviation runs p q s0 := (wp any_schedule q (answers p s0) (fun _ => broken p s0) (broken p s0) s0).

Lemma broken_idle p s : broken p s s.
Proof. exists []. split; [by rewrite app_nil_r|constructor]. Qed.

Lemma runs_reply p line r s :
  (forall s', se_store s' = se_store s -> cn_input (se_conn s') = cn_input (se_conn s) ->
     cn_sent (se_conn s') = cn_sent (se_conn s) ++ [line] -> answers p s r s') ->
  runs p (write_line line;; mret r) s.
Proof.
  intros Hr. apply wp_bind, wp_write_line; [|intros _; apply broken_idle].
  intros s' Hst Hin Hsent. apply wp_ret. by apply Hr.
Qed.

Lemma runs_exchange p p' line greeted t s :
  (forall st, exchange (p, st) [line] (p', st)) -> in_phase p' greeted t ->
  runs p (write_line line;; mret (Next greeted t)) s.
Proof.
  intros Hex Hp. apply runs_reply. intros s' Hst Hin Hsent. exists [line]. split; [done|]. rewrite Hst, Hin. by eauto.
Qed.

Lemma runs_refuse p line greeted t s :
  refusal line -> in_phase p greeted t -> runs p (write_line line;; mret (Next greeted t)) s.
Proof. intros Hr Hp. apply (runs_exchange p p); [|done]. intros st. by constructor. Qed.

Lemma in_phase_reset p greeted t : in_phase p greeted t -> in_phase (reset p) greeted default_transaction.
Proof. destruct p; simpl; naive_solver. Qed.

Lemma build_message_envelope from to raw m :
  build_message (mkTransaction (Some from) to) raw = Some m -> to <> [] -> (size_of raw <= input_limit max)%N ->
  of_envelope m from to raw.
Proof.
  unfold build_message. intros Hb Hto Hsz.
  destruct (default _ (Utf8.split_once_str _ _)) as [header_block body].
  repeat match type of Hb with mbind _ ?x = Some _ => destruct x; [|done]; simpl in Hb end.
  simplify_eq. by destruct to.
Qed.

(** After [354]: the state is that of the round's start but for the reply. *)
Lemma data_prefix (s0 s1 s : Session) l :
  cn_sent (se_conn s1) = cn_sent (se_conn s0) ++ [DATA_REPLY] ->
  cn_sent (se_conn s) = cn_sent (se_conn s1) ++ l -> cn_sent (se_conn s) = cn_sent (se_conn s0) ++ DATA_REPLY :: l.
Proof. intros -> ->. by rewrite <- app_assoc. Qed.

Lemma refusal_5 x : refusal (String "5" x).
Proof. right. apply (Text.starts_with_app "5" x). Qed.
Lemma refusal_4 x : refusal (String "4" x).
Proof. left. apply (Text.starts_with_app "4" x). Qed.
#[local] Hint Resolve refusal_5 refusal_4 : core.

Lemma data_lines_shorter input cur lines rest :
  data_lines input cur = Some (lines, rest) -> length rest <= length input.
Proof.
  revert cur lines. induction input as [|b input IH]; intros cur lines; simpl; [done|].
  destruct (eqb b LF); [|intros Hl%IH; lia]. destruct (is_dot cur); [intros [= _ <-]; lia|].
  destruct (data_lines input []) as [[l r]|] eqn:E; simpl; [|done]. intros [= _ <-]. apply IH in E. lia.
Qed.

Lemma wp_read_data {m : mode} Q E C (s : Session) :
  let n := length (cn_input (se_conn s)) in
  (forall raw rest, (size_of raw <= input_limit max)%N -> length rest <= n -> Q (Some raw) (with_input rest s)) ->
  Q None (with_input [] s) -> (forall e rest, length rest <= n -> E e (with_input rest s)) ->
  wp m (read_data max) Q E C s.
Proof.
  intros n HQ HN HE σ Hσ. rewrite read_data_run. destruct (data_lines _ _) as [[lines rest]|] eqn:Hl.
  - apply data_lines_shorter in Hl.
    destruct (N.leb_spec (size_of (payload lines)) (input_limit max)); (split; [done|]); simpl; [by apply HQ|by apply HE].
  - revert σ Hσ. apply wp_input_ended; [done|]. intros e. apply HE. simpl. lia.
Qed.

Definition data_answer (r : Res (list StoredMessage)) : string :=
  match r with
  | Ok _ => ACCEPTED_REPLY
  | Err CaptureTooLarge => "552 " +:+ display CaptureTooLarge
  | Err e => "451 " +:+ display e
  end.

Lemma exchange_deliver from to raw m σ σ' r s s' :
  of_envelope m from to raw ->
  fan_out m σ s = (match r with Ok l => Done l | Err e => Failed e end, s', σ') ->
  exchange (Envelope from to, s) [DATA_REPLY; data_answer r] (Ready, s').
Proof.
  intros Hm Hf. destruct r as [l|e]; [by eapply ex_accept|]. eapply ex_fail; [done..|].
  unfold data_answer. destruct e; apply refusal_5 || apply refusal_4.
Qed.

(** The message goes to the store and the client is told. *)
Lemma runs_deliver from to raw m greeted (s0 s1 : Session) :
  of_envelope m from to raw -> greeted = true -> se_store s1 = se_store s0 ->
  length (cn_input (se_conn s1)) <= length (cn_input (se_conn s0)) ->
  cn_sent (se_conn s1) = cn_sent (se_conn s0) ++ [DATA_REPLY] ->
  wp any_schedule
    (r ← attempt (on_store (fan_out m));
     match r with
     | Ok _ => write_line "250 OK: message accepted"
     | Err CaptureTooLarge => write_line ("552 " +:+ display CaptureTooLarge)
     | Err e => write_line ("451 " +:+ display e)
     end;;
     mret (Next greeted default_transaction))
    (answers (Envelope from to) s0) (fun _ => broken (Envelope from to) s0) (broken (Envelope from to) s0) s1.
Proof.
  intros Hm -> Hst Hin Hsent.
  assert (forall r s2 σ σ', fan_out m σ (se_store s0) = (match r with Ok l => Done l | Err e => Failed e end, se_store s2, σ') ->
    se_conn s2 = se_conn s1 ->
    wp any_schedule (write_line (data_answer r);; mret (Next true default_transaction))
      (answers (Envelope from to) s0) (fun _ => broken (Envelope from to) s0) (broken (Envelope from to) s0) s2) as Htell.
  { intros r s2 σ σ' Hf Hc. apply wp_bind, wp_write_line.
    - intros s3 Hst3 Hin3 Hs3. apply wp_ret. exists [DATA_REPLY; data_answer r]. rewrite Hc in Hs3, Hin3.
      split; [by eapply data_prefix|]. split; [|by rewrite Hin3]. exists Ready. rewrite Hst3.
      split; [by eapply exchange_deliver|done].
    - intros e. exists [DATA_REPLY]. rewrite Hc. split; [done|]. by eapply bo_unanswered. }
  apply wp_bind, wp_attempt, wp_zoom. rewrite Hst. apply wp_exact. intros σ o st' σ' Hf. destruct o as [l|e|]; simpl.
  - by apply (Htell (Ok l) _ σ σ').
  - pose proof (Htell (Err e) (mkSession (se_conn s1) st') σ σ' Hf eq_refl) as Ht. by destruct e.
  - exists [DATA_REPLY]. split; [done|]. by eapply bo_unanswered.
Qed.

Lemma runs_data p greeted t s : in_phase p greeted t -> runs p (data_command max greeted t) s.
Proof.
  intros Hp. unfold data_command, bad_sequence.
  destruct p as [| |from|from to]; try by (destruct Hp as [-> ->]; simpl; apply runs_refuse).
  destruct Hp as (-> & Hto & ->). simpl. rewrite bool_decide_eq_false_2 by done. simpl.
  apply wp_bind, wp_write_line; [|by intros _; apply broken_idle]. intros s1 Hst Hin Hsent.
  assert (forall rest, broken (Envelope from to) s (with_input rest s1)) as Hread.
  { intros rest. exists [DATA_REPLY]. split; [done|]. simpl. rewrite Hst. constructor. }
  apply wp_bind, wp_attempt, wp_read_data.
  - intros raw rest Hsz Hlen. rewrite Hin in Hlen. destruct (build_message _ raw) as [m|] eqn:Hb.
    + eapply runs_deliver; [by eapply build_message_envelope|done..].
    + apply wp_ret. exists [DATA_REPLY]. split; [done|]. simpl. rewrite Hst. split; [constructor|done].
  - apply wp_ret. exists [DATA_REPLY]. split; [done|]. simpl. rewrite Hst. split; [constructor|done].
  - intros e rest Hlen. rewrite Hin in Hlen.
    assert (forall line, refusal line -> wp any_schedule (write_line line;; mret (Next true default_transaction))
      (answers (Envelope from to) s) (fun _ => broken (Envelope from to) s) (broken (Envelope from to) s) (with_input rest s1)) as Hdis.
    { intros line Hr. apply wp_bind, wp_write_line; [|intros _; apply Hread]. intros s3 Hst3 Hin3 Hs3. apply wp_ret.
      exists [DATA_REPLY; line]. split; [by eapply data_prefix|]. split; [|by rewrite Hin3]. exists Ready. split; [|done].
      rewrite Hst3. simpl. rewrite Hst. by constructor. }
    destruct e; try (apply wp_fail, Hread); apply Hdis; apply refusal_5.
Qed.

Lemma runs_command p greeted t command rest s :
  in_phase p greeted t -> runs p (run_command max greeted t command rest) s.
Proof.
  intros Hp. unfold run_command, bad_sequence.
  destruct (eqb command "EHLO" || eqb command "HELO").
  { apply (runs_exchange p Ready); [|done]. intros st. apply ex_hello. }
  destruct (eqb command "MAIL").
  { destruct p as [| |from|from to]; try by (destruct Hp as [-> ->] || destruct Hp as (-> & Hto & ->); simpl; apply runs_refuse).
    destruct Hp as [-> ->]. simpl. destruct (parse_address rest "FROM:" true) as [a|] eqn:Ha.
    - apply (runs_exchange Ready (Sender a)); [|done]. intros st. by eapply ex_mail.
    - destruct (unsupported_envelope_parameters rest); by apply runs_refuse. }
  destruct (eqb command "RCPT").
  { destruct p as [| |from|from to]; try by (destruct Hp as [-> ->]; simpl; apply runs_refuse).
    - destruct Hp as [-> ->]. simpl. destruct (parse_address rest "TO:" false) as [a|] eqn:Ha.
      + apply (runs_exchange (Sender from) (Envelope from [a])); [|done]. intros st. by eapply ex_rcpt.
      + destruct (unsupported_envelope_parameters rest); by apply runs_refuse.
    - destruct Hp as (-> & Hto & ->). simpl. destruct (parse_address rest "TO:" false) as [a|] eqn:Ha.
      + apply (runs_exchange _ (Envelope from (to ++ [a]))); [intros st; by eapply ex_rcpt_more|].
        split_and!; [done|by destruct to|done].
      + destruct (unsupported_envelope_parameters rest); by apply runs_refuse. }
  destruct (eqb command "DATA"); [by apply runs_data|].
  destruct (eqb command "RSET").
  { apply (runs_exchange p (reset p)); [intros st; apply ex_reset|by eapply in_phase_reset]. }
  destruct (eqb command "NOOP").
  { apply (runs_exchange p p); [intros st; apply ex_noop|done]. }
  destruct (eqb command "QUIT"); [|by apply runs_refuse].
  apply runs_reply. intros s' Hst _ Hsent. exists ["221 Bye"]. split; [done|]. rewrite Hst. split; [constructor|done].
Qed.

Lemma command_line_refusal line too_long message : command_line line too_long = Invalid message -> refusal message.
Proof.
  unfold command_line. destruct too_long; [by intros [= <-]|]. destruct (negb _); [by intros [= <-]|].
  destruct (Utf8.from_utf8 _); [done|]. by intros [= <-].
Qed.

Lemma argument_error_refusal command rest b e : command_argument_error command rest b = Some e -> refusal e.
Proof. unfold command_argument_error. destruct (_ && _); [by intros [= <-]|]. destruct (_ && _); [by intros [= <-]|done]. Qed.

Lemma runs_line p greeted t line too_long s :
  in_phase p greeted t -> runs p (run_line max greeted t (command_line line too_long)) s.
Proof.
  intros Hp. unfold run_line. destruct (command_line line too_long) as [text|message] eqn:Hl.
  - destruct (split_command text) as [[command rest]|]; [|by apply runs_refuse].
    destruct (command_argument_error command rest (Text.contains text " ")) as [e|] eqn:He; [|by apply runs_command].
    apply runs_refuse; [|done]. by eapply argument_error_refusal.
  - apply runs_refuse; [|done]. by eapply command_line_refusal.
Qed.

(** *** The whole session *)

Definition has_run (p : phase) (s0 s : Session) : Prop :=
  exists l l' p1 st1, cn_sent (se_conn s) = cn_sent (se_conn s0) ++ l ++ l' /\
    exchanges (p, se_store s0) l (p1, st1) /\ breaks_off (p1, st1) l' (se_store s).

Lemma broken_has_run p s0 s : broken p s0 s -> has_run p s0 s.
Proof. intros (l & Hsent & Hb). exists [], l, p, (se_store s0). split_and!; [done|constructor|done]. Qed.

Lemma scan_line_shorter input line too_long line' too_long' rest :
  scan_line input line too_long = Some (line', too_long', rest) -> length rest < length input.
Proof.
  revert line too_long. induction input as [|b input IH]; intros line too_long; simpl; [done|].
  destruct (size_of line <? 512)%N; destruct (eqb b LF); (intros [= _ _ <-]; lia) || (intros Hl%IH; lia).
Qed.

Lemma wp_next_line {m : mode} Q E C (s : Session) :
  (forall line too_long rest, length rest < length (cn_input (se_conn s)) ->
     Q (Some (command_line line too_long)) (with_input rest s)) ->
  Q None (with_input [] s) -> (forall e, E e (with_input [] s)) -> wp m next_line Q E C s.
Proof.
  intros HQ HN HE. unfold next_line. apply wp_bind, wp_gets.
  destruct (scan_line _ _ _) as [[[line too_long] rest]|] eqn:Hl; [|by apply wp_input_ended].
  apply wp_bind, wp_zoom, wp_modify, wp_ret, HQ. by eapply scan_line_shorter.
Qed.

Lemma wp_session_loop fuel p greeted t s :
  in_phase p greeted t -> length (cn_input (se_conn s)) < fuel ->
  wp any_schedule (session_loop max fuel greeted t) (fun e s' => e <> OutOfFuel /\ has_run p s s')
    (fun _ => has_run p s) (has_run p s) s.
Proof.
  revert p greeted t s. induction fuel as [|fuel IH]; intros p greeted t s Hp Hlen; [lia|]. simpl.
  assert (forall rest, has_run p s (with_input rest s)) as Hidle.
  { intros rest. apply broken_has_run. exists []. split; [by rewrite app_nil_r|constructor]. }
  apply wp_bind, wp_next_line; [|by apply wp_ret; split|by intros _; apply Hidle].
  intros line too_long rest Hshort. apply wp_bind.
  eapply wp_mono; [by apply (runs_line p)|..]; simpl.
  - intros r s1 (l & Hsent & Hr). destruct r as [greeted' t'|e].
    + destruct Hr as [(p' & Hex & Hp') Hlen']. simpl in Hlen'.
      eapply wp_mono; [apply (IH p'); [done|lia]|..]; simpl.
      all: assert (forall s', has_run p' s1 s' -> has_run p s s') as Hchain by
        (intros s' (l1 & l2 & p1 & st1 & Hs' & Hexs & Hb); exists (l ++ l1), l2, p1, st1;
         split_and!; [by rewrite Hs', Hsent, <- !app_assoc|by econstructor|done]).
      * intros e s' [He Hh]. split; [done|by apply Hchain].
      * intros e s' Hh. by apply Hchain.
      * intros s' Hh. by apply Hchain.
    + apply wp_ret. destruct Hr as [Hb He]. split; [done|]. apply broken_has_run. by exists l.
  - intros e s1 (l & Hsent & Hb). apply broken_has_run. by exists l.
  - intros s1 (l & Hsent & Hb). apply broken_has_run. by exists l.
Qed.

Lemma session_outcome σ (s s' : Session) out σ' :
  handle_session max σ s = (out, s', σ') ->
  out <> Done OutOfFuel /\
  (cn_sent (se_conn s') = cn_sent (se_conn s) /\ se_store s' = se_store s \/
   exists s1, se_store s1 = se_store s /\
     cn_sent (se_conn s1) = cn_sent (se_conn s) ++ ["220 sqrzl-emulator SMTP ready"] /\ has_run Start s1 s').
Proof.
  intros Hrun.
  set (P := fun s2 : Session => cn_sent (se_conn s2) = cn_sent (se_conn s) /\ se_store s2 = se_store s \/
     exists s1, se_store s1 = se_store s /\
       cn_sent (se_conn s1) = cn_sent (se_conn s) ++ ["220 sqrzl-emulator SMTP ready"] /\ has_run Start s1 s2).
  assert (wp any_schedule (handle_session max) (fun e s2 => e <> OutOfFuel /\ P s2) (fun _ => P) P s) as Hwp.
  { unfold handle_session. apply wp_bind, wp_write_line; [|by left].
    intros s1 Hst Hin Hsent. apply wp_bind, wp_gets.
    eapply wp_mono; [apply (wp_session_loop _ Start); [done|lia]|..]; simpl.
    - intros e s2 [He Hh]. split; [done|right]. by exists s1.
    - intros e s2 Hh. right. by exists s1.
    - intros s2 Hh. right. by exists s1. }
  pose proof (wp_run _ _ _ _ _ _ _ _ _ _ Hwp (any_schedule_ok σ) Hrun) as Hr.
  destruct out as [e|e|]; simpl in Hr; [|by split..]. destruct Hr as [He HP]. split; [congruence|done].
Qed.

(** C30 [session_terminates]. A session over a finite input always ends: the
    loop of handle_session reads at least one byte per round, so the length of
    the input is enough fuel. *)
Theorem session_terminates σ (s : Session) : (handle_session max σ s).1.1 <> Done OutOfFuel.
Proof. destruct (handle_session max σ s) as [[out s'] σ'] eqn:Hr. by apply session_outcome in Hr as [? _]. Qed.

(** C10 [session_refines_protocol]. Every SMTP session is a run of the
    abstract protocol: for any input bytes, store and faults, the replies sent
    and the changes of the store are a sequence of its exchanges (greeting,
    envelope in order, data delivered through the store exactly once per
    accepted message) followed by one way of breaking off. *)
Theorem session_refines_protocol σ (s s' : Session) out σ' :
  cn_sent (se_conn s) = [] -> handle_session max σ s = (out, s', σ') ->
  (cn_sent (se_conn s') = [] /\ se_store s' = se_store s) \/
  exists replies final p st,
    cn_sent (se_conn s') = "220 sqrzl-emulator SMTP ready" :: replies ++ final /\
    exchanges (Start, se_store s) replies (p, st) /\ breaks_off (p, st) final (se_store s').
Proof.
  intros Hnil Hrun. destruct (session_outcome _ _ _ _ _ Hrun) as [_ [[Hs Hst]|(s1 & Hst & Hs & Hh)]].
  - left. by rewrite Hs.
  - right. destruct Hh as (l & l' & p1 & st1 & Hs' & Hex & Hb). exists l, l', p1, st1.
    rewrite Hst in Hex. split_and!; [by rewrite Hs', Hs, Hnil|done|done].
Qed.

(** ** A panic *)

(** A sender line whose angle brackets are the wrong way round. *)
Definition reversed_brackets : list bytes := [as_bytes "From: b> <a"; []; as_bytes "hi"].

(** [reversed_header_brackets_panic]. A message with a sender line in which
    the closing angle bracket comes before the opening one makes build_message
    slice backwards: the session ends in a panic after 354, the message is not
    stored and the client gets no reply. *)
Theorem reversed_header_brackets_panic greeted t from σ (s : Session) rest :
  tx_from t = Some from -> tx_recipients t <> [] -> cn_writable (se_conn s) = None ->
  cn_input (se_conn s) = encode_data reversed_brackets ++ rest -> (17 <= input_limit max)%N ->
  exists s', data_command max greeted t σ s = (Done (End Panicked), s', σ) /\ se_store s' = se_store s /\
    cn_sent (se_conn s') = cn_sent (se_conn s) ++ [DATA_REPLY].
Proof.
  intros Hfrom Hto Hw Hin Hlim. unfold data_command. rewrite Hfrom, bool_decide_eq_false_2 by done. simpl.
  destruct s as [[input eof writable sent] store]. simpl in *. subst.
  rewrite (bind_done _ _ _ _ tt (mkSession (mkConn (encode_data reversed_brackets ++ rest) eof None (sent ++ [DATA_REPLY])) store) σ)
    by done.
  erewrite bind_done; [|unfold attempt; rewrite read_data_run; cbn [cn_input se_conn]; rewrite data_lines_encoded, payload_encoded; [|repeat constructor; set_solver]].
  2:{ destruct (N.leb_spec (size_of (concat ((fun line => line ++ [LF]) <$> reversed_brackets))) (input_limit max)) as [|Hx]; [reflexivity|].
      exfalso. revert Hx. change (size_of _) with 16%N. lia. }
  cbv beta iota. change (build_message t _) with (@None (@Message H)). eexists. done.
Qed.

End Protocol.
