(* ===== verification/MailFiles.v ===== *)
(** * MailFiles: [src/mail/filesystem.rs]

    The store of messages on disk: a directory per mailbox, named by the digest
    of its address and holding the address in a file of its own, a JSON file
    per message and its raw bytes beside it.  The lock of the store serializes
    its operations; the model runs one at a time. *)

From Stdlib Require Import Ascii.
From S2P Require Import Prelude Text Models Utf8 FsModel Publication FileFacts Capture Mail.

(** [{blobs_path}/_mail] *)
Definition mail_root : path := ["_mail"].

Definition RAW_SUFFIX : string := ".raw".
Definition MAILBOX_METADATA : string := ".mailbox".
Definition MAILBOX_DIRECTORY_PREFIX : string := "mbx-".

(** [root.join(name)] for a single segment *)
Definition segment (root : path) (name : string) : path := if eqb name "." then root else join root name.

Definition validate_segment (value : string) : Res unit :=
  if Text.is_empty value || Text.contains value "/" || Text.contains value "\" || Text.contains value ".."
  then Err (InvalidRequest ("invalid mail path segment: " +:+ value)) else Ok tt.

Section MailFiles.
Context `{Env} `{CaptureEnv} `{!MailEnv}.

Definition mailbox_storage_key (mailbox : string) : string := MAILBOX_DIRECTORY_PREFIX +:+ sha256_hex mailbox.

(** [open] *)
Definition open_mail : io fs unit :=
  create_dir_all "io" mail_root;;
  recover mail_root.

(** ** Paths *)

Definition mailbox_dir (mailbox : string) : io fs path :=
  if Text.is_empty mailbox then fail (InvalidRequest "mailbox address must not be empty")
  else
    let legacy := segment mail_root mailbox in
    found ← gets (is_dir legacy);
    mret (if is_ok (validate_segment mailbox) && found then legacy
          else join mail_root (mailbox_storage_key mailbox)).

(** [fs::write] *)
Definition write_file (p : path) (data : bytes) : io fs unit :=
  create_file "io" p;; write_all "io" p data.

Definition write_atomic (p : path) (data : bytes) : io fs unit :=
  create_dir_all "io" (parent p);;
  name ← of_res (ok_or (InternalError "message path has no file name") (file_name p));
  let tmp_path := join (parent p) (name +:+ ".tmp") in
  write_file tmp_path data;;
  rename "io" tmp_path p.

(** [fs::read_to_string], [NotFound] told apart *)
Definition read_to_string (p : path) : io fs (option string) :=
  data ← read_if_present "io" p;
  match data with
  | None => mret None
  | Some b => text ← of_res (ok_or (InternalError "io") (Utf8.from_utf8 b)); mret (Some text)
  end.

Definition ensure_mailbox_dir (mailbox : string) : io fs path :=
  dir ← mailbox_dir mailbox;
  create_dir_all "io" dir;;
  stored_mailbox ← read_to_string (join dir MAILBOX_METADATA);
  match stored_mailbox with
  | Some stored_mailbox =>
      if eqb stored_mailbox mailbox then mret tt
      else fail (InternalError "mailbox storage key collision")
  | None => write_atomic (join dir MAILBOX_METADATA) (as_bytes mailbox)
  end;;
  mret dir.

Definition message_path (mailbox message_id : string) : io fs path :=
  of_res (validate_segment message_id);;
  dir ← mailbox_dir mailbox;
  mret (join dir (message_id +:+ ".json")).

Definition raw_message_path (mailbox message_id : string) : io fs path :=
  of_res (validate_segment message_id);;
  dir ← mailbox_dir mailbox;
  mret (join dir (message_id +:+ RAW_SUFFIX)).

(** ** Copies *)

Definition with_metadata (key : string) (v : json_value) (m : Message) : Message :=
  {| ms_source_protocol := ms_source_protocol m; ms_from := ms_from m; ms_to := ms_to m;
     ms_cc := ms_cc m; ms_bcc := ms_bcc m; ms_reply_to := ms_reply_to m; ms_subject := ms_subject m;
     ms_headers := ms_headers m; ms_body_text := ms_body_text m; ms_body_html := ms_body_html m;
     ms_attachments := ms_attachments m;
     ms_user_engagement_tracking_disabled := ms_user_engagement_tracking_disabled m;
     ms_provider_metadata := <[key := v]> (ms_provider_metadata m);
     ms_raw_mime := ms_raw_mime m; ms_thread_id := ms_thread_id m |}.

Definition with_raw (raw : bytes) (m : Message) : Message :=
  {| ms_source_protocol := ms_source_protocol m; ms_from := ms_from m; ms_to := ms_to m;
     ms_cc := ms_cc m; ms_bcc := ms_bcc m; ms_reply_to := ms_reply_to m; ms_subject := ms_subject m;
     ms_headers := ms_headers m; ms_body_text := ms_body_text m; ms_body_html := ms_body_html m;
     ms_attachments := ms_attachments m;
     ms_user_engagement_tracking_disabled := ms_user_engagement_tracking_disabled m;
     ms_provider_metadata := ms_provider_metadata m;
     ms_raw_mime := Some raw; ms_thread_id := ms_thread_id m |}.

Definition prepare_copy (mailbox message_id : string) (message : Message) (transaction_id : string)
    : io fs (StoredMessage * list (path * bytes)) :=
  ensure_mailbox_dir mailbox;;
  p ← message_path mailbox message_id;
  let message := with_metadata TRANSACTION_METADATA (json_string transaction_id) message in
  received_at ← now;
  let stored := mkStored _ message_id mailbox message (accepted received_at) received_at in
  let json := (p, encode_stored stored) in
  match ms_raw_mime message with
  | Some raw_mime =>
      raw_path ← raw_message_path mailbox message_id;
      mret (stored, [json; (raw_path, raw_mime)])
  | None => mret (stored, [json])
  end.

(** The transaction a stored message carries. *)
Definition transaction_of (st : StoredMessage) : string :=
  default "" (ms_provider_metadata (sm_message st) !! TRANSACTION_METADATA ≫= json_as_str).

Definition visible (st : StoredMessage) (s : fs) : bool := is_committed mail_root (transaction_of st) s.

Definition read_stored (p : path) : io fs StoredMessage :=
  data ← read_if_present "io" p;
  match data with
  | None => fail MessageNotFound
  | Some data => of_res (ok_or (InternalError "json") (decode_stored data))
  end.

(** ** The operations of the trait *)

Fixpoint prepare_copies (message_id : string) (message : Message) (id : string) (l : list string)
    : io fs (list StoredMessage * list (path * bytes)) :=
  match l with
  | [] => mret ([], [])
  | mailbox :: rest =>
      copy ← prepare_copy mailbox message_id message id;
      others ← prepare_copies message_id message id rest;
      mret ((if eqb mailbox ALL_MAILBOX then others.1 else copy.1 :: others.1), copy.2 ++ others.2)
  end.

Fixpoint prepare_batch (messages : list (string * Message)) (id : string)
    : io fs (list (list StoredMessage) * list (path * bytes)) :=
  match messages with
  | [] => mret ([], [])
  | (message_id, message) :: rest =>
      copies ← match targets message with
               | [] => fail (InvalidRequest "message has no recipients")
               | l => prepare_copies message_id message id (ALL_MAILBOX :: l)
               end;
      others ← prepare_batch rest id;
      mret (copies.1 :: others.1, copies.2 ++ others.2)
  end.

Definition file_capture_batch (messages : list (string * Message)) (records : list RepeatabilityRecord)
    : io fs (option (list (list StoredMessage))) :=
  of_res (check_messages messages.*2 records);;
  id ← new_transaction_id;
  prepared ← prepare_batch messages id;
  let record_files := (fun record => record_file mail_root (with_transaction id record)) <$> records in
  commit mail_root id (prepared.2 ++ record_files);;
  mret (Some prepared.1).

Definition file_store_message (mailbox message_id : string) (message : Message) : io fs StoredMessage :=
  of_res (check_single_copy message mailbox message_id);;
  id ← new_transaction_id;
  copy ← prepare_copy mailbox message_id message id;
  commit mail_root id copy.2;;
  mret copy.1.

Definition file_get_message (mailbox message_id : string) : io fs StoredMessage :=
  p ← message_path mailbox message_id;
  stored ← read_stored p;
  shown ← gets (visible stored);
  if negb shown then fail MessageNotFound
  else
    raw_path ← raw_message_path mailbox message_id;
    raw ← attempt (read_file "io" raw_path);
    mret (match raw with
          | Ok raw_mime => mkStored _ (sm_message_id stored) (sm_mailbox stored)
              (with_raw raw_mime (sm_message stored)) (sm_delivery_status stored) (sm_received_at stored)
          | Err _ => stored
          end).

(** The names of a directory tried until one gives a message. *)
Fixpoint find_message (mailbox message_id : string) (names : list string) : io fs StoredMessage :=
  match names with
  | [] => fail MessageNotFound
  | name :: rest =>
      match Utf8.strip_suffix name ".json" with
      | Some candidate =>
          if Text.eq_ignore_ascii_case candidate message_id then
            r ← attempt (file_get_message mailbox candidate);
            match r with
            | Err MessageNotFound => find_message mailbox message_id rest
            | Err e => fail e
            | Ok stored => mret stored
            end
          else find_message mailbox message_id rest
      | None => find_message mailbox message_id rest
      end
  end.

Definition file_get_message_case_insensitive (mailbox message_id : string) : io fs StoredMessage :=
  r ← attempt (file_get_message mailbox message_id);
  match r with
  | Ok stored => mret stored
  | Err MessageNotFound =>
      dir ← mailbox_dir mailbox;
      entries ← read_dir_if_present "io" dir;
      match entries with
      | None => fail MessageNotFound
      | Some names => find_message mailbox message_id names
      end
  | Err e => fail e
  end.

(** [a.received_at.cmp(&b.received_at).then_with(|| a.message_id.cmp(&b.message_id))] *)
Definition stored_le (a b : StoredMessage) : Prop :=
  (sm_received_at a < sm_received_at b)%Z \/
  (sm_received_at a = sm_received_at b /\ String.le (sm_message_id a) (sm_message_id b)).
#[global] Instance stored_le_dec a b : Decision (stored_le a b).
Proof. unfold stored_le. apply _. Defined.

Fixpoint read_committed (dir : path) (committed : gset string) (names : list string) : io fs (list StoredMessage) :=
  match names with
  | [] => mret []
  | name :: rest =>
      if negb (eqb (extension name) (Some "json")) then read_committed dir committed rest
      else
        r ← attempt (read_stored (join dir name));
        match r with
        | Err MessageNotFound => read_committed dir committed rest
        | Err e => fail e
        | Ok stored =>
            others ← read_committed dir committed rest;
            let id := transaction_of stored in
            mret (if Text.is_empty id || bool_decide (id ∈ committed) then stored :: others else others)
        end
  end.

(** [position(..).map_or(0, |index| index + 1)] *)
Fixpoint after_marker (marker : string) (l : list StoredMessage) : option (list StoredMessage) :=
  match l with
  | [] => None
  | st :: rest => if eqb (sm_message_id st) marker then Some rest else after_marker marker rest
  end.

Definition page_of (params : ListMessagesParams) (messages : list StoredMessage) : ListMessagesResult :=
  let page := match lp_marker params with
              | Some marker => default messages (after_marker marker messages)
              | None => messages
              end in
  let limit := default U64_MAX (lp_limit params) in
  if (limit <? N.of_nat (length page))%N then
    let page := take (N.to_nat limit) page in
    mkListed _ page (sm_message_id <$> list.last page)
  else mkListed _ page None.

Definition list_messages_snapshot (mailbox : string) (params : ListMessagesParams) (committed : gset string)
    : io fs ListMessagesResult :=
  dir ← mailbox_dir mailbox;
  entries ← attempt (read_dir "io" dir);
  match entries with
  | Err _ => mret (mkListed _ [] None)
  | Ok names =>
      messages ← read_committed dir committed names;
      mret (page_of params (merge_sort stored_le messages))
  end.

Definition file_list_messages (mailbox : string) (params : ListMessagesParams) : io fs ListMessagesResult :=
  committed ← committed_snapshot mail_root;
  list_messages_snapshot mailbox params committed.

(** [fs::remove_file] with [NotFound] accepted *)
Definition remove_message_file (p : path) : io fs unit := remove_file_if_present "io" p.

Definition file_delete_message (mailbox message_id : string) : io fs unit :=
  p ← message_path mailbox message_id;
  raw_path ← raw_message_path mailbox message_id;
  remove_message_file p;;
  remove_message_file raw_path.

(** [remove_dir_all] of a path that ends in [.] empties the directory and
    fails. *)
Definition file_delete_mailbox (mailbox : string) : io fs unit :=
  dir ← mailbox_dir mailbox;
  if eqb mailbox "." && eqb dir mail_root then
    sys "io" (fun _ s => Some (tt, filter (fun e => below dir e.1 = false \/ e.1 = dir) s)) untouched;;
    fail (InternalError "io")
  else remove_dir_all_if_present "io" dir.

Definition file_update_delivery_status (mailbox message_id : string) (status : DeliveryStatus) : io fs unit :=
  p ← message_path mailbox message_id;
  stored ← read_stored p;
  write_atomic p (encode_stored (mkStored _ (sm_message_id stored) (sm_mailbox stored)
    (sm_message stored) status (sm_received_at stored))).

Fixpoint collect_mailboxes (committed : gset string) (names : list string) : io fs (list MailboxInfo) :=
  match names with
  | [] => mret []
  | name :: rest =>
      dir ← gets (is_dir (join mail_root name));
      if negb dir then collect_mailboxes committed rest
      else
        metadata ← read_to_string (join (join mail_root name) MAILBOX_METADATA);
        let address := default name metadata in
        if eqb address ALL_MAILBOX || Text.starts_with name "." then collect_mailboxes committed rest
        else
          result ← list_messages_snapshot address default_params committed;
          others ← collect_mailboxes committed rest;
          mret (match lr_messages result with
                | [] => others
                | messages => mkMailbox address (N.of_nat (length messages))
                                (sm_received_at <$> list.last messages) :: others
                end)
  end.

Definition mailbox_le (a b : MailboxInfo) : Prop := String.le (mb_address a) (mb_address b).
#[global] Instance mailbox_le_dec a b : Decision (mailbox_le a b).
Proof. unfold mailbox_le. apply _. Defined.

Definition file_list_mailboxes : io fs (list MailboxInfo) :=
  committed ← committed_snapshot mail_root;
  entries ← attempt (read_dir "io" mail_root);
  match entries with
  | Err _ => mret []
  | Ok names => mailboxes ← collect_mailboxes committed names; mret (merge_sort mailbox_le mailboxes)
  end.

Definition file_ensure_mailbox (mailbox : string) : io fs unit := ensure_mailbox_dir mailbox;; mret tt.

#[export] Instance file_mail_store : MailStore fs := {|
  capture_batch := file_capture_batch;
  get_repeatability_record := load_record mail_root;
  store_message := file_store_message;
  get_message := file_get_message;
  get_message_case_insensitive := file_get_message_case_insensitive;
  list_messages := file_list_messages;
  delete_message := file_delete_message;
  delete_mailbox := file_delete_mailbox;
  update_delivery_status := file_update_delivery_status;
  list_mailboxes := file_list_mailboxes;
  ensure_mailbox := file_ensure_mailbox |}.

End MailFiles.
