(* ===== verification/MailStoreFacts.v ===== *)
(** * MailStoreFacts: what readers of the mail store see

    The message a mailbox shows under an identifier, as a function of the disk;
    the invariant of the store; and that preparing mailboxes changes neither. *)

From Stdlib Require Import Ascii.
From S2P Require Import Prelude Text Models Utf8 FsModel Publication FileFacts PublicationFacts.
From S2P Require Import PublicationSafety Capture CaptureFacts CommitFacts Mail MailFacts MailFiles.

(** * Where the store of messages keeps its files

    The destinations of the mail store for the journal, and the shapes of the
    names of messages, raw bytes, pending files and mailbox records. *)

(** ** Text *)

Lemma contains_app_false p s t (a : ascii) :
  p = String a "" -> Text.contains s p = false -> Text.contains t p = false -> Text.contains (s +:+ t) p = false.
Proof.
  intros -> Hs Ht. apply not_true_iff_false. intros (l & r & Heq)%Text.contains_spec.
  apply not_true_iff_false in Hs. apply not_true_iff_false in Ht.
  revert s Hs Heq. induction l as [|b l IH]; intros s Hs Heq; destruct s as [|c s].
  - apply Ht, Text.contains_spec. by exists "", r.
  - rewrite Text.app_cons in Heq. injection Heq as -> Heq. apply Hs, Text.contains_spec. by exists "", s.
  - apply Ht, Text.contains_spec. by exists (String b l), r.
  - rewrite !Text.app_cons in Heq. injection Heq as -> Heq. apply (IH s); [|done].
    intros (l' & r' & ->)%Text.contains_spec. apply Hs, Text.contains_spec. by exists (String b l'), r'.
Qed.

Lemma ends_with_spec s p : Text.ends_with s p = true <-> exists t, s = t +:+ p.
Proof.
  split; [|intros [t ->]; apply ends_with_app]. unfold Text.ends_with.
  intros [t Ht]%Text.starts_with_spec. exists (String.rev t).
  rewrite <- (rev_involutive s), Ht, rev_app_distr. by rewrite rev_involutive.
Qed.

(** Suffixes of the same length exclude one another. *)
Lemma ends_with_other s p q :
  String.length p = String.length q -> p <> q -> Text.ends_with (s +:+ p) q = false.
Proof.
  intros Hlen Hne. apply not_true_iff_false. intros [t Ht]%ends_with_spec. apply Hne.
  apply (f_equal String.rev) in Ht. rewrite !rev_app_distr in Ht.
  assert (forall x y u v, String.length x = String.length y -> x +:+ u = y +:+ v -> x = y) as Hinj.
  { clear. induction x as [|a x IH]; intros [|b y] u v Hlen Heq; try done.
    rewrite !Text.app_cons in Heq. injection Heq as -> Heq. injection Hlen as Hlen. f_equal. by eapply IH. }
  apply Hinj in Ht.
  - by rewrite <- (rev_involutive p), Ht, rev_involutive.
  - assert (forall z, String.length (String.rev z) = String.length z) as Hl.
    { induction z as [|a z IH]; [done|]. change (String a z) with (String a "" +:+ z).
      rewrite rev_app_distr, !Text.length_app, IH. simpl. lia. }
    by rewrite !Hl.
Qed.

Lemma app_suffix_inj s t p : s +:+ p = t +:+ p -> s = t.
Proof.
  intros Heq%(f_equal String.rev). rewrite !rev_app_distr in Heq. apply Text.app_inj_l in Heq.
  apply (f_equal String.rev) in Heq. by rewrite !rev_involutive in Heq.
Qed.

(** ** Laws of the names *)

(** Digests are hexadecimal, and the text of a [Uuid] ends in a hexadecimal
    digit. *)
Class NameLaws `{Env} : Prop := {
  sha256_plain : forall s, Text.contains (sha256_hex s) "/" = false;
  uuid_tail : forall n p suffix, suffix ∈ [".json"; ".raw"; ".mailbox"] ->
    Text.ends_with (p +:+ uuid_text n) suffix = false }.

(** ** Destinations *)

Definition mail_dest (q : path) : Prop :=
  exists a b, q = mail_root ++ [a; b] /\ a <> TRANSACTIONS.

#[export] Instance mail_layout : Layout mail_root mail_dest.
Proof.
  split.
  - intros q (a & b & -> & Ha). apply not_true_iff_false. intros [r Hr]%below_spec.
    unfold journal_dir, mail_root, join in Hr. simpl in Hr. by injection Hr as ->.
  - intros p q (a & b & -> & Ha) (c & d & -> & Hc). apply not_true_iff_false. intros [r Hr]%below_spec.
    apply (f_equal length) in Hr. simpl in Hr. lia.
Qed.

(** The directory of an ordinary mailbox: one below the root, not the journal. *)
Definition mail_dir (d : path) : Prop := exists a, d = join mail_root a /\ a <> TRANSACTIONS.

Lemma dest_in_dir d n : mail_dir d -> mail_dest (join d n).
Proof. intros (a & -> & Ha). exists a, n. split; [done|done]. Qed.

Lemma mail_dest_dir q : mail_dest q -> exists d n, q = join d n /\ mail_dir d.
Proof. intros (a & b & -> & Ha). exists (join mail_root a), b. split; [done|]. by exists a. Qed.

(** A name that ends like a message or its raw bytes. *)
Definition message_name (name : string) : Prop :=
  exists id suffix, name = id +:+ suffix /\ suffix ∈ [".json"; ".raw"].

Lemma scratch_suffix d x suffix :
  suffix <> ".tmp" -> String.length suffix = 4 -> scratch (join d (x +:+ suffix)) = false.
Proof. intros Hne Hl. rewrite scratch_join, andb_false_iff. right. by apply ends_with_other. Qed.

Lemma json_not_tmp x : Text.ends_with (x +:+ ".json") ".tmp" = false.
Proof.
  change ".json" with ("." +:+ "json"). rewrite <- Text.app_assoc. by apply ends_with_other.
Qed.

Lemma message_name_not_scratch d name : message_name name -> scratch (join d name) = false.
Proof.
  intros (id & suffix & -> & Hs). rewrite scratch_join, andb_false_iff. right.
  apply elem_of_cons in Hs as [->|Hs]; [apply json_not_tmp|].
  apply list_elem_of_singleton in Hs as ->. by apply ends_with_other.
Qed.

Section Names.
Context `{EnvLaws} `{!NameLaws}.

Lemma uuid_no_slash n : Text.contains (uuid_text n) "/" = false.
Proof.
  pose proof (uuid_text_version_id n) as Hv. unfold validate_version_id in Hv.
  destruct (has_separator (uuid_text n)) eqn:Hs; [by rewrite orb_true_r in Hv|]. clear Hv.
  apply not_true_iff_false. intros (l & r & Heq)%Text.contains_spec. apply not_true_iff_false in Hs. apply Hs.
  unfold has_separator. rewrite Heq. apply existsb_true. exists "/"%char. split; [|done].
  clear. induction l as [|a l IH]; [left|]. rewrite Text.app_cons. simpl. right. apply IH.
Qed.

Lemma pending_not_scratch p n : scratch (pending_path p (uuid_text n)) = false.
Proof.
  unfold pending_path. rewrite scratch_join, andb_false_iff. right. rewrite <- Text.app_assoc.
  apply uuid_valid_tail, uuid_text_valid.
Qed.

Lemma pending_not_message p n d name suffix :
  suffix ∈ [".json"; ".raw"; ".mailbox"] -> pending_path p (uuid_text n) <> join d (name +:+ suffix).
Proof.
  intros Hs Heq. unfold pending_path in Heq. apply join_inj in Heq as [_ Heq].
  rewrite <- Text.app_assoc in Heq. pose proof (uuid_tail n (default "" (file_name p) +:+ ".pending-") suffix Hs) as Ht.
  rewrite Heq, ends_with_app in Ht. done.
Qed.

Lemma plain_component_intro c :
  c <> "" -> c <> "." -> c <> ".." -> Text.contains c "/" = false -> plain_component c = true.
Proof.
  intros He Hd Hdd Hs. unfold plain_component. rewrite Hs, orb_false_r.
  destruct (eqb c ".") eqn:E1; [by rewrite eqb_true in E1|].
  destruct (eqb c "..") eqn:E2; [by rewrite eqb_true in E2|]. by destruct c.
Qed.

End Names.

(** An address that is no name of the store's own files and directories. *)
Definition plain_mailbox (mailbox : string) : Prop :=
  mailbox <> "" /\ Text.starts_with mailbox "." = false /\ Text.starts_with mailbox "mbx-" = false.

(** An existing directory is left alone. *)
Lemma mkdirs_existing d s s' : ok s -> is_dir d s = true -> mkdirs d s s' -> s' = s.
Proof.
  intros Hok Hd%is_dir_true Hm. apply map_eq. intros q. destruct (mkdirs_at _ _ _ Hm q) as [|(Hn & _ & Hb)]; [done|].
  destruct (ok_dir_below s q d _ Hok Hd Hb) as [->|]; congruence.
Qed.

Section View.
Context `{EnvLaws} `{!NameLaws} `{CaptureEnvLaws} `{!MailEnv} `{!MailEnvLaws} `{!JsonLaws}.

(** ** What is shown *)

Definition dir_of (s : fs) (mailbox : string) : path :=
  if is_ok (validate_segment mailbox) && is_dir (segment mail_root mailbox) s
  then segment mail_root mailbox else join mail_root (mailbox_storage_key mailbox).

Definition json_path (d : path) (id : string) : path := join d (id +:+ ".json").
Definition raw_path (d : path) (id : string) : path := join d (id +:+ RAW_SUFFIX).

Definition with_raw_file (e : option entry) (st : StoredMessage) : StoredMessage :=
  match e with
  | Some (File raw) => mkStored _ (sm_message_id st) (sm_mailbox st) (with_raw raw (sm_message st))
                         (sm_delivery_status st) (sm_received_at st)
  | _ => st
  end.

Definition message_at (d : path) (id : string) (s : fs) : option StoredMessage :=
  match s !! json_path d id with
  | Some (File b) =>
      st ← decode_stored b;
      if visible st s then Some (with_raw_file (s !! raw_path d id) st) else None
  | _ => None
  end.

Definition shown (s : fs) (mailbox id : string) : option StoredMessage := message_at (dir_of s mailbox) id s.

(** The files of the messages that are shown. *)
Definition message_file (s : fs) (q : path) : Prop :=
  exists d id st, mail_dir d /\ message_at d id s = Some st /\ (q = json_path d id \/ q = raw_path d id).

(** The invariant of the store. *)
Record mail_ok (s : fs) : Prop := mkMailOk {
  mo_journal : journal (root := mail_root) (Dest := mail_dest) (message_file s) s;
  mo_top : forall a b, scratch (join mail_root a) = false -> s !! join mail_root a <> Some (File b) }.

(** *** Paths *)

Lemma json_name id : message_name (id +:+ ".json").
Proof. exists id, ".json". split; [done|]. set_solver. Qed.
Lemma raw_name id : message_name (id +:+ RAW_SUFFIX).
Proof. exists id, ".raw". split; [done|]. set_solver. Qed.

Lemma message_file_dest s q : message_file s q -> mail_dest q /\ scratch q = false.
Proof.
  intros (d & id & st & Hd & _ & [-> | ->]); (split; [by apply dest_in_dir|apply message_name_not_scratch]);
    [apply json_name|apply raw_name].
Qed.

Lemma key_dir mailbox : mail_dir (join mail_root (mailbox_storage_key mailbox)).
Proof. exists (mailbox_storage_key mailbox). split; [done|]. unfold mailbox_storage_key. done. Qed.

Lemma plain_segment mailbox : plain_mailbox mailbox -> segment mail_root mailbox = join mail_root mailbox.
Proof.
  intros (_ & Hd & _). unfold segment. destruct (eqb mailbox ".") eqn:E; [|done].
  rewrite eqb_true in E. by subst.
Qed.

Lemma dir_of_dir s mailbox : plain_mailbox mailbox -> mail_dir (dir_of s mailbox).
Proof.
  intros Hp. unfold dir_of. destruct (_ && _); [|apply key_dir]. rewrite plain_segment by done.
  exists mailbox. split; [done|]. destruct Hp as (_ & Hd & _). by intros ->.
Qed.

Lemma mail_dir_not_scratch_dir s d : ok s -> is_dir d s = true -> scratch d = false.
Proof. apply dir_not_scratch. Qed.

(** *** Dependence on the disk *)

Lemma visible_ext st s s' :
  (forall t, is_file (marker_path mail_root t) s' = is_file (marker_path mail_root t) s) -> visible st s' = visible st s.
Proof. intros Hm. unfold visible, is_committed. by rewrite Hm. Qed.

Lemma message_at_ext d id s s' :
  s' !! json_path d id = s !! json_path d id -> s' !! raw_path d id = s !! raw_path d id ->
  (forall t, is_file (marker_path mail_root t) s' = is_file (marker_path mail_root t) s) ->
  message_at d id s' = message_at d id s.
Proof.
  intros Hj Hr Hm. unfold message_at. rewrite Hj, Hr. destruct (s !! json_path d id) as [[b|]|]; [|done..].
  destruct (decode_stored b) as [st|]; [|done]. simpl. by rewrite (visible_ext st s s').
Qed.

(** ** Preparing mailboxes *)

(** Mailbox directories and their records were added, nothing else. *)
Record prepared (s s' : fs) : Prop := mkPrepared {
  pr_agree : agree (fun q => (exists a, q = join mail_root ("mbx-" +:+ a) /\ s !! q = None) \/
                             exists d, mail_dir d /\ q = join d MAILBOX_METADATA) s s';
  pr_dirs : forall q, s !! q = Some Directory -> s' !! q = Some Directory;
  pr_top : (forall a b, scratch (join mail_root a) = false -> s !! join mail_root a <> Some (File b)) ->
    forall a b, scratch (join mail_root a) = false -> s' !! join mail_root a <> Some (File b);
  pr_flat : (forall q, mail_dest q -> s !! q <> Some Directory) -> forall q, mail_dest q -> s' !! q <> Some Directory }.

Lemma prepared_refl s : prepared s s.
Proof. by split; [apply agree_refl|..]. Qed.

Lemma prepared_trans s1 s2 s3 : prepared s1 s2 -> prepared s2 s3 -> prepared s1 s3.
Proof.
  intros [A1 D1 T1 F1] [A2 D2 T2 F2]. split; [|auto..]. split; [|intros Ho; by apply A2, A1].
  intros q Hsc Hx. destruct (s1 !! q) as [e|] eqn:E1.
  - rewrite (agree_at _ _ _ A2), (agree_at _ _ _ A1); [done|done|naive_solver|done|].
    intros [(a & -> & Hn)|Hd]; [|naive_solver]. rewrite (agree_at _ _ _ A1) in Hn; [congruence|done|].
    intros [(b & Heq & Hn')|Hd]; [congruence|naive_solver].
  - rewrite (agree_at _ _ _ A2), (agree_at _ _ _ A1); [done|done|naive_solver|done|].
    intros [(a & -> & Hn)|Hd]; naive_solver.
Qed.

Lemma mailbox_record_not_message d name : message_name name -> join d MAILBOX_METADATA <> join d name.
Proof.
  intros (id & suffix & -> & Hs). rewrite join_inj. intros [_ Heq].
  apply elem_of_cons in Hs as [->|Hs]; [|apply list_elem_of_singleton in Hs as ->];
    (assert (Text.ends_with MAILBOX_METADATA ".json" = false /\ Text.ends_with MAILBOX_METADATA ".raw" = false) as [Hj Hr] by done);
    [rewrite Heq, ends_with_app in Hj|rewrite Heq, ends_with_app in Hr]; done.
Qed.

(** A prepared store shows what it showed. *)
Lemma prepared_message s s' d name :
  prepared s s' -> mail_dir d -> message_name name -> s' !! join d name = s !! join d name.
Proof.
  intros Hp (a & -> & Ha) Hn. apply (agree_at _ _ _ (pr_agree _ _ Hp)); [by apply message_name_not_scratch|].
  intros [(b & Heq & _)|(d' & (b & -> & _) & Heq)].
  - apply (f_equal length) in Heq. done.
  - apply join_inj in Heq as [Heq1 Heq2]. by apply (mailbox_record_not_message (join mail_root b) name Hn); f_equal.
Qed.

Lemma prepared_journal_entry s s' q :
  prepared s s' -> below (journal_dir mail_root) q = true -> scratch q = false -> s' !! q = s !! q.
Proof.
  intros Hp [r Hr]%below_spec Hsc. apply (agree_at _ _ _ (pr_agree _ _ Hp)); [done|].
  unfold journal_dir, mail_root, join in Hr. simpl in Hr.
  intros [(b & Heq & _)|(d' & (b & -> & Hb) & Heq)].
  - subst. unfold mail_root, join in Heq. simpl in Heq. by injection Heq as Heq _.
  - subst. unfold mail_root, join in Heq. simpl in Heq. injection Heq as Heq _. congruence.
Qed.

Lemma prepared_markers s s' t : prepared s s' -> is_file (marker_path mail_root t) s' = is_file (marker_path mail_root t) s.
Proof.
  intros Hp. unfold is_file. rewrite (prepared_journal_entry s s'); [done|done|apply jdir_below_in|apply marker_not_scratch].
Qed.

Lemma prepared_message_at s s' d id : prepared s s' -> mail_dir d -> message_at d id s' = message_at d id s.
Proof.
  intros Hp Hd. apply message_at_ext; [| |intros t; by apply prepared_markers];
    apply prepared_message; try done; [apply json_name|apply raw_name].
Qed.

Lemma prepared_dir_of s s' mailbox : ok s -> prepared s s' -> plain_mailbox mailbox -> dir_of s' mailbox = dir_of s mailbox.
Proof.
  intros Hok Hp Hm. unfold dir_of. rewrite plain_segment by done.
  destruct (is_ok (validate_segment mailbox)); [|done]. simpl.
  assert (is_dir (join mail_root mailbox) s' = is_dir (join mail_root mailbox) s) as ->; [|done].
  assert (scratch (join mail_root mailbox) = false) as Hsc.
  { rewrite scratch_join. by destruct Hm as (_ & -> & _). }
  apply (agree_is_dir _ _ _ _ (pr_agree _ _ Hp)); [done|].
  intros [(a & Heq & _)|(d & (b & -> & _) & Heq)].
  - apply join_inj in Heq as [_ ->]. destruct Hm as (_ & _ & Hx). by rewrite Text.starts_with_app in Hx.
  - apply (f_equal length) in Heq. done.
Qed.

Lemma prepared_shown s s' mailbox id : ok s -> prepared s s' -> plain_mailbox mailbox -> shown s' mailbox id = shown s mailbox id.
Proof.
  intros Hok Hp Hm. unfold shown. rewrite (prepared_dir_of s s') by done.
  apply prepared_message_at; [done|]. by apply dir_of_dir.
Qed.

Lemma prepared_ok s s' : prepared s s' -> mail_ok s -> mail_ok s'.
Proof.
  intros Hp [Hm Htop]. split; [|by apply (pr_top _ _ Hp)].
  assert (journal (root := mail_root) (Dest := mail_dest) (message_file s) s') as Hj.
  { eapply journal_outside; [exact Hm|apply Hp| |].
    - intros q [(a & -> & _)|(d & (b & -> & Hb) & ->)]; (split; [|by intros Heq; apply (f_equal length) in Heq]).
      + apply not_true_iff_false. intros [r Hr]%below_spec. unfold journal_dir, mail_root, join in Hr. simpl in Hr.
        by injection Hr as Hr _.
      + apply dest_outside. apply dest_in_dir. by exists b.
    - apply (pr_flat _ _ Hp), Hm. }
  destruct Hj as [J1 J2 J3 J4 J5 J6]. split; [done..|]. intros t q Hu Hl. destruct (J6 t q Hu Hl) as [Hd Hn].
  split; [done|]. intros (d & id & st & Hdd & Hat & Hq). apply Hn. exists d, id, st. split_and!; [done| |done].
  by rewrite <- (prepared_message_at s s').
Qed.

Section Runs.
Context {m : mode}.
Abbreviation fails := (@fails m).

Lemma wp_mailbox_dir mailbox Q E C s :
  mailbox <> "" -> Q (dir_of s mailbox) s -> wp m (mailbox_dir mailbox) Q E C s.
Proof.
  intros Hne HQ. unfold mailbox_dir. destruct mailbox as [|a l]; [done|]. apply wp_bind, wp_gets. by apply wp_ret.
Qed.

Lemma mkdirs_prepared d s s' :
  mail_ok s -> mail_dir d -> is_dir d s = true \/ (exists x, d = join mail_root (mailbox_storage_key x)) ->
  mkdirs d s s' -> prepared s s'.
Proof.
  intros Hm (a & -> & Ha) Hd Hmk. pose proof (mo_journal _ Hm) as Hj.
  assert (forall q, q <> join mail_root a -> s' !! q = s !! q) as Hq.
  { intros q Hne. destruct (mkdirs_at _ _ _ Hmk q) as [|(Hn & _ & Hb)]; [done|].
    apply below_parent in Hb as [Hb|Hb]; [by destruct Hne|]. rewrite parent_join in Hb.
    pose proof (jr_root _ _ Hj) as Hr. apply is_dir_true in Hr.
    destruct (ok_dir_below s q mail_root _ (jr_ok _ _ Hj) Hr Hb) as [Heq|]; congruence. }
  assert (forall q, s !! q = Some Directory -> s' !! q = Some Directory) as Hdirs.
  { intros q Hdq. destruct (mkdirs_at _ _ _ Hmk q) as [->|(Hn & _)]; congruence. }
  split; [|done| |].
  - split; [|apply Hmk]. intros q _ Hx. destruct (decide (q = join mail_root a)) as [->|Hne]; [|by apply Hq].
    destruct (mkdirs_at _ _ _ Hmk (join mail_root a)) as [|(Hn & _)]; [done|]. destruct Hx. left.
    destruct Hd as [Hd|[x Hd]]; [apply is_dir_true in Hd; congruence|]. apply join_inj in Hd as [_ ->]. by eexists.
  - intros Htop b x Hsc Hx. destruct (mkdirs_at _ _ _ Hmk (join mail_root b)) as [Heq|(_ & Heq & _)]; [|congruence].
    rewrite Heq in Hx. by apply (Htop b x).
  - intros Hfl q Hdq. rewrite Hq; [by apply Hfl|]. intros ->. destruct Hdq as (c & e & Heq & _).
    apply (f_equal length) in Heq. done.
Qed.

Lemma prepared_insert s d b :
  ok s -> is_dir d s = true -> mail_dir d -> is_dir (join d MAILBOX_METADATA) s = false ->
  prepared s (<[join d MAILBOX_METADATA := File b]> s).
Proof.
  intros Hok Hd Hdd Hn. split.
  - eapply agree_weaken; [|apply (agree_insert_file (at_path (join d MAILBOX_METADATA)))];
      [|done|by rewrite parent_join|done|apply join_ne_nil]. intros q ->. right. by exists d.
  - intros q Hq. rewrite lookup_insert_ne; [done|]. intros <-. apply is_dir_true in Hq. congruence.
  - intros Htop a b' Hsc [[Heq _]|[_ Hx]]%lookup_insert_Some; [|by apply (Htop a b')].
    destruct Hdd as (c & -> & _). apply (f_equal length) in Heq. done.
  - intros Hfl q Hq [[_ ?]|[_ Hx]]%lookup_insert_Some; [done|]. by apply (Hfl q).
Qed.

(** Scratch files do not count. *)
Lemma prepared_scratch s d n b :
  ok s -> is_dir d s = true -> mail_dir d -> scratch (join d n) = true -> prepared s (<[join d n := File b]> s).
Proof.
  intros Hok Hd Hdd Hn. pose proof (scratch_not_dir s _ Hok Hn) as Hnd. split.
  - by apply agree_scratch.
  - intros q Hq. rewrite lookup_insert_ne; [done|]. intros <-. apply is_dir_true in Hq. congruence.
  - intros Htop a b' Hsc [[Heq _]|[_ Hx]]%lookup_insert_Some; [|by apply (Htop a b')].
    destruct Hdd as (c & -> & _). apply (f_equal length) in Heq. done.
  - intros Hfl q Hq [[_ ?]|[_ Hx]]%lookup_insert_Some; [done|]. by apply (Hfl q).
Qed.

Lemma prepared_unscratch s d n b :
  scratch (join d n) = true -> s !! join d n = Some (File b) -> prepared s (delete (join d n) s).
Proof.
  intros Hn Hf. split.
  - by eapply agree_delete_file; [congruence|].
  - intros q Hq. rewrite lookup_delete_ne; [done|]. congruence.
  - intros Htop a b' Hsc [_ Hx]%lookup_delete_Some. by apply (Htop a b').
  - intros Hfl q Hq [_ Hx]%lookup_delete_Some. by apply (Hfl q).
Qed.

Lemma wp_write_record d data Q E C s :
  ok s -> is_dir d s = true -> mail_dir d -> is_dir (join d MAILBOX_METADATA) s = false ->
  (forall s', prepared s s' -> Q tt s') -> (forall s', prepared s s' -> fails E C s') ->
  wp m (write_atomic (join d MAILBOX_METADATA) data) Q E C s.
Proof.
  intros Hok Hd Hdd Hn HQ HF. unfold write_atomic. rewrite parent_join, file_name_join.
  apply wp_bind, wp_create_dir_all; [done|by apply dir_creatable| |].
  2:{ intros s' Hm. apply HF. by rewrite (mkdirs_existing d s s'). }
  intros s' Hm _. rewrite (mkdirs_existing d s s') in * by done. apply wp_bind, wp_of_res. simpl.
  set (t := join d (MAILBOX_METADATA +:+ ".tmp")).
  assert (scratch t = true) as Ht by (unfold t; by rewrite scratch_join).
  assert (forall b, prepared s (<[t := File b]> s)) as Hp by (intros b; by apply prepared_scratch).
  unfold write_file. apply wp_bind, wp_bind, wp_create_file; [by unfold t; rewrite parent_join|by apply scratch_not_dir| |apply HF, prepared_refl].
  eapply wp_write_all; [apply lookup_insert_eq| |intros b; rewrite insert_insert_eq; by apply HF].
  rewrite insert_insert_eq. assert (t <> join d MAILBOX_METADATA) as Hne by (unfold t; rewrite join_inj; by intros [_ ?]).
  eapply wp_rename_file; [apply lookup_insert_eq| | | | |by apply HF].
  - rewrite parent_join. apply is_dir_true, (pr_dirs _ _ (Hp data)). by apply is_dir_true.
  - unfold is_dir. by rewrite lookup_insert_ne.
  - apply HQ. eapply prepared_trans; [apply (Hp data)|].
    assert (prepared (<[t := File data]> s) (delete t (<[t := File data]> s))) as Hp2
      by (eapply prepared_unscratch; [done|apply lookup_insert_eq]).
    eapply prepared_trans; [exact Hp2|].
    assert (ok (delete t (<[t := File data]> s))) as Hok2 by (by apply (pr_agree _ _ Hp2), (pr_agree _ _ (Hp data))).
    apply prepared_insert; [done| |done|].
    + apply is_dir_true, (pr_dirs _ _ Hp2), (pr_dirs _ _ (Hp data)). by apply is_dir_true.
    + unfold is_dir. by rewrite lookup_delete_ne, lookup_insert_ne by done.
  - intros _. by apply HQ.
Qed.

(** A mailbox is made ready: its directory is there, and readers see no change. *)
Lemma wp_ensure_mailbox mailbox Q E C s :
  mail_ok s -> plain_mailbox mailbox ->
  (forall s', prepared s s' -> is_dir (dir_of s mailbox) s' = true -> Q (dir_of s mailbox) s') ->
  (forall e s', prepared s s' -> E e s') -> (forall s', prepared s s' -> m_faults m = true -> C s') ->
  wp m (ensure_mailbox_dir mailbox) Q E C s.
Proof.
  intros Hm Hp HQ HE HC. pose proof (mo_journal _ Hm) as Hj. pose proof (jr_ok _ _ Hj) as Hok.
  assert (forall s', prepared s s' -> fails E C s') as HF by (intros s' Hs'; split; [auto|by apply HC]).
  unfold ensure_mailbox_dir. apply wp_bind, wp_mailbox_dir; [apply Hp|]. set (d := dir_of s mailbox).
  pose proof (dir_of_dir s mailbox Hp) as Hdd. fold d in Hdd.
  assert (is_dir d s = true \/ (exists x, d = join mail_root (mailbox_storage_key x))) as Hcase.
  { unfold d, dir_of. destruct (is_ok _); simpl; [|right; by eexists].
    destruct (is_dir (segment mail_root mailbox) s) eqn:Hd; [by left|right; by eexists]. }
  assert (forall s', mkdirs d s s' -> prepared s s') as Hmk by (intros s'; by apply mkdirs_prepared).
  apply wp_bind, wp_create_dir_all; [done| | |by auto].
  { intros q [<-|Hq]%below_parent.
    - destruct Hcase as [Hd|[x Hx]]; [exact (dir_creatable d s Hok Hd d (below_refl d))|]. assert (scratch d = false) as Hsc by (rewrite Hx, scratch_join; done).
      split; [done|]. rewrite Hx in *. intros b. by apply Hm.
    - destruct Hdd as (a & Heq & _). rewrite Heq, parent_join in Hq.
      exact (dir_creatable mail_root s Hok (jr_root _ _ Hj) q Hq). }
  intros s1 Hs1 Hd1. pose proof (Hmk s1 Hs1) as Hp1.
  assert (ok s1) as Hok1 by (by apply (pr_agree _ _ Hp1)).
  assert (is_dir (join d MAILBOX_METADATA) s1 = false) as Hnd.
  { apply not_true_iff_false. rewrite is_dir_true. apply (pr_flat _ _ Hp1 (jr_flat _ _ Hj)). by apply dest_in_dir. }
  apply wp_bind. unfold read_to_string. apply wp_bind, wp_read_if_present; [| |intros Hx; by apply HE|by apply HF].
  - intros _. apply wp_ret. apply wp_bind. eapply wp_write_record; [done..| |].
    + intros s2 Hp2. apply wp_ret, HQ; [by eapply prepared_trans|].
      apply is_dir_true, (pr_dirs _ _ Hp2). by apply is_dir_true.
    + intros s2 Hp2. apply HF. by eapply prepared_trans.
  - intros b _. apply wp_bind, wp_of_res. destruct (Utf8.from_utf8 b) as [text|]; simpl; [|by apply HE].
    apply wp_ret. apply wp_bind. destruct (eqb text mailbox); [apply wp_ret, wp_ret; by apply HQ|apply wp_fail; by apply HE].
Qed.

End Runs.
End View.
