(* ===== verification/MailCommit.v ===== *)
(** * MailCommit: what readers of the mail store see of a capture

    The commit of a batch of copies, read through [shown]: the readers of a
    store see no change until the transaction is decided, then every copy of
    the batch at once; and the store keeps its invariant. *)

From Stdlib Require Import Ascii.
From S2P Require Import Prelude Text Models Utf8 FsModel Publication FileFacts PublicationFacts.
From S2P Require Import PublicationSafety Capture CaptureFacts CommitFacts Mail MailFacts MailFiles.
From S2P Require Import MailStoreFacts.

(** * Capturing messages on disk

    A batch of messages is prepared copy by copy and committed in one
    transaction.  Readers see all of its copies or none, whatever happens to
    the process, and every message they saw before. *)

Section Captures.
Context `{EnvLaws} `{!NameLaws} `{CaptureEnvLaws} `{!MailEnv} `{!MailEnvLaws} `{!JsonLaws}.

(** ** Copies *)

Record Copy : Type := mkCopy {
  cp_id : string;
  cp_message : Message;
  cp_mailbox : string;
  cp_stored : StoredMessage }.

Definition files_of (d : path) (id : string) (st : StoredMessage) : list (path * bytes) :=
  (json_path d id, encode_stored st) ::
  match ms_raw_mime (sm_message st) with Some raw => [(raw_path d id, raw)] | None => [] end.

(** The stored form of a copy captured by the transaction [t]. *)
Definition stored_copy (t : string) (c : Copy) : Prop :=
  sm_message_id (cp_stored c) = cp_id c /\ sm_mailbox (cp_stored c) = cp_mailbox c /\
  sm_message (cp_stored c) = with_metadata TRANSACTION_METADATA (json_string t) (cp_message c) /\
  sm_delivery_status (cp_stored c) = accepted (sm_received_at (cp_stored c)).

Definition good (t : string) (s : fs) (c : Copy) : Prop :=
  stored_copy t c /\ validate_segment (cp_id c) = Ok tt /\ plain_mailbox (cp_mailbox c) /\
  is_dir (dir_of s (cp_mailbox c)) s = true.

Definition copy_files (s : fs) (c : Copy) : list (path * bytes) :=
  files_of (dir_of s (cp_mailbox c)) (cp_id c) (cp_stored c).

Lemma good_prepared t s s' c : ok s -> prepared s s' -> good t s c -> good t s' c /\ copy_files s' c = copy_files s c.
Proof.
  intros Hok Hp (Hs & Hv & Hm & Hd). unfold good, copy_files. rewrite (prepared_dir_of s s') by done.
  split_and!; try done. apply is_dir_true, (pr_dirs _ _ Hp). by apply is_dir_true.
Qed.

Lemma goods_prepared t s s' cs :
  ok s -> prepared s s' -> Forall (good t s) cs -> Forall (good t s') cs /\ flat_map (copy_files s') cs = flat_map (copy_files s) cs.
Proof.
  intros Hok Hp. induction 1 as [|c cs Hc _ [IH1 IH2]]; [done|]. destruct (good_prepared t s s' c Hok Hp Hc) as [Hg Hf].
  split; [by constructor|]. cbn [flat_map]. by rewrite Hf, IH2.
Qed.

(** The copies of a batch, one per message and target. *)
Definition copies_of (messages : list (string * Message)) : list (string * Message * string) :=
  flat_map (fun im => (fun mailbox => (im.1, im.2, mailbox)) <$> ALL_MAILBOX :: targets im.2) messages.
Lemma copies_of_cons id message messages :
  copies_of ((id, message) :: messages) =
  ((fun mailbox => (id, message, mailbox)) <$> ALL_MAILBOX :: targets message) ++ copies_of messages.
Proof. done. Qed.
Definition key_of (c : Copy) : string * Message * string := (cp_id c, cp_message c, cp_mailbox c).

Section Runs.
Context {m : mode}.
Abbreviation fails := (@fails m).

Lemma wp_message_path mailbox id suffix Q E C s :
  mailbox <> "" -> (validate_segment id = Ok tt -> Q (join (dir_of s mailbox) (id +:+ suffix)) s) ->
  (forall e, validate_segment id = Err e -> E e s) ->
  wp m (of_res (validate_segment id);; dir ← mailbox_dir mailbox; mret (join dir (id +:+ suffix))) Q E C s.
Proof.
  intros Hne HQ HE. apply wp_bind, wp_of_res. destruct (validate_segment id) as [[]|e]; [|by apply HE].
  apply wp_bind, wp_mailbox_dir; [done|]. apply wp_ret. by apply HQ.
Qed.

Lemma wp_prepare_copy mailbox id message t Q E C s :
  mail_ok s -> plain_mailbox mailbox ->
  (forall st s', prepared s s' -> good t s' (mkCopy id message mailbox st) ->
     Q (st, copy_files s' (mkCopy id message mailbox st)) s') ->
  (forall e s', prepared s s' -> E e s') -> (forall s', prepared s s' -> m_faults m = true -> C s') ->
  wp m (prepare_copy mailbox id message t) Q E C s.
Proof.
  intros Hm Hp HQ HE HC. pose proof (jr_ok _ _ (mo_journal _ Hm)) as Hok. unfold prepare_copy.
  apply wp_bind, wp_ensure_mailbox; [done..| |done|done]. intros s1 Hp1 Hd1.
  rewrite <- (prepared_dir_of s s1 mailbox) in * by done.
  apply wp_bind, wp_message_path; [apply Hp| |by auto]. intros Hv. apply wp_bind, wp_now. intros now.
  set (st := mkStored _ id mailbox (with_metadata TRANSACTION_METADATA (json_string t) message) (accepted now) now).
  assert (good t s1 (mkCopy id message mailbox st)) as Hg by (by split_and!).
  specialize (HQ st s1 Hp1 Hg). unfold copy_files, files_of in HQ. simpl in HQ.
  change (ms_raw_mime (with_metadata TRANSACTION_METADATA (json_string t) message)) with (ms_raw_mime message) in *.
  cbv zeta. destruct (ms_raw_mime message) as [raw|]; [|by apply wp_ret].
  apply wp_bind, wp_message_path; [apply Hp| |by auto]. intros _. by apply wp_ret.
Qed.

Lemma wp_prepare_copies id message t l Q E C s :
  mail_ok s -> Forall plain_mailbox l ->
  (forall stored cs s', prepared s s' -> Forall (good t s') cs -> key_of <$> cs = (fun mb => (id, message, mb)) <$> l ->
     Q (stored, flat_map (copy_files s') cs) s') ->
  (forall e s', prepared s s' -> E e s') -> (forall s', prepared s s' -> m_faults m = true -> C s') ->
  wp m (prepare_copies id message t l) Q E C s.
Proof.
  revert Q E C s. induction l as [|mb l IH]; intros Q E C s Hm Hl HQ HE HC; simpl.
  { apply wp_ret. apply (HQ [] []); [apply prepared_refl|constructor|done]. }
  apply list.Forall_cons in Hl as [Hmb Hl].
  apply wp_bind, wp_prepare_copy; [done..| |done|done]. intros st s1 Hp1 Hg1.
  apply wp_bind, IH; [by eapply prepared_ok|done|..].
  - intros stored cs s2 Hp2 Hgs Hk. apply wp_ret.
    destruct (good_prepared t s1 s2 (mkCopy id message mb st)) as [Hg2 Hf2];
      [by apply (jr_ok _ _ (mo_journal _ (prepared_ok _ _ Hp1 Hm)))|done|done|].
    cbn [fst snd]. rewrite <- Hf2. apply (HQ _ (mkCopy id message mb st :: cs)); [by eapply prepared_trans|by constructor|].
    by rewrite !fmap_cons, Hk.
  - intros e s2 Hp2. apply HE. by eapply prepared_trans.
  - intros s2 Hp2. apply HC. by eapply prepared_trans.
Qed.

Lemma wp_prepare_batch messages t Q E C s :
  mail_ok s -> (forall id message mb, (id, message, mb) ∈ copies_of messages -> plain_mailbox mb) ->
  (forall stored cs s', prepared s s' -> Forall (good t s') cs -> key_of <$> cs = copies_of messages ->
     Q (stored, flat_map (copy_files s') cs) s') ->
  (forall e s', prepared s s' -> E e s') -> (forall s', prepared s s' -> m_faults m = true -> C s') ->
  wp m (prepare_batch messages t) Q E C s.
Proof.
  revert Q E C s. induction messages as [|[id message] messages IH]; intros Q E C s Hm Hpl HQ HE HC; cbn [prepare_batch].
  { apply wp_ret. apply (HQ [] []); [apply prepared_refl|constructor|done]. }
  apply wp_bind. destruct (targets message) as [|mb l] eqn:Ht; [apply wp_fail, HE, prepared_refl|].
  rewrite <- Ht. apply wp_prepare_copies; [done| |..|done|done].
  { apply list.Forall_forall. intros mb' Hmb'. apply (Hpl id message). rewrite copies_of_cons. apply elem_of_app. left. by apply (list_elem_of_fmap_2 (fun mailbox => (id, message, mailbox))). }
  intros stored cs s1 Hp1 Hgs Hk. apply wp_bind, IH; [by eapply prepared_ok| | | |].
  - intros id' m' mb' Hin. apply (Hpl id' m'). rewrite copies_of_cons. apply elem_of_app. by right.
  - intros stored' cs' s2 Hp2 Hgs' Hk'. apply wp_ret.
    destruct (goods_prepared t s1 s2 cs) as [Hg2 Hf2];
      [by apply (jr_ok _ _ (mo_journal _ (prepared_ok _ _ Hp1 Hm)))|done|done|].
    simpl. rewrite <- Hf2, <- flat_map_app. apply (HQ _ (cs ++ cs')); [by eapply prepared_trans|by apply Forall_app|].
    rewrite fmap_app, Hk, Hk'. done.
  - intros e s2 Hp2. apply HE. by eapply prepared_trans.
  - intros s2 Hp2. apply HC. by eapply prepared_trans.
Qed.

End Runs.
End Captures.

Section MailCommit.
Context `{EnvLaws} `{!NameLaws} `{CaptureEnvLaws} `{!MailEnv} `{!MailEnvLaws} `{!JsonLaws}.

(** A transaction's name of which the store has no trace. *)
Record fresh_id (t : string) (s : fs) : Prop := mkFresh {
  fi_dir : s !! transaction_dir mail_root t = None;
  fi_pending : forall q, mail_dest q -> s !! pending_path q t = None;
  fi_tag : forall d id b st, mail_dir d -> s !! json_path d id = Some (File b) -> decode_stored b = Some st ->
    transaction_of st <> t }.

Lemma uuid_not_empty n : uuid_text n <> "".
Proof. intros Heq. pose proof (uuid_text_version_id n) as Hv. by rewrite Heq in Hv. Qed.

Lemma tdir_uuid_not_scratch n : scratch (transaction_dir mail_root (uuid_text n)) = false.
Proof.
  unfold transaction_dir. rewrite scratch_join, andb_false_iff. right.
  apply (uuid_valid_tail _ ""), uuid_text_valid.
Qed.

Lemma pending_dest q t : mail_dest q -> mail_dest (pending_path q t).
Proof.
  intros (d & k & -> & Hd)%mail_dest_dir. unfold pending_path. rewrite parent_join. by apply dest_in_dir.
Qed.

Lemma prepared_fresh s s' n : prepared s s' -> fresh_id (uuid_text n) s -> fresh_id (uuid_text n) s'.
Proof.
  intros Hp [Hd Hq Ht]. split.
  - rewrite (prepared_journal_entry s s'); [done|done|apply jdir_below_tdir|apply tdir_uuid_not_scratch].
  - intros q Hdq. rewrite (agree_at _ _ _ (pr_agree _ _ Hp)); [by apply Hq|apply pending_not_scratch|].
    intros [(a & Heq & _)|(d & _ & Heq)].
    + destruct (pending_dest q (uuid_text n) Hdq) as (b & c & Hx & _). rewrite Hx in Heq. by apply (f_equal length) in Heq.
    + change MAILBOX_METADATA with ("" +:+ MAILBOX_METADATA) in Heq. revert Heq. apply pending_not_message. set_solver.
  - intros d id b st Hdd. unfold json_path. rewrite (prepared_message s s') by (done || apply json_name). by apply Ht.
Qed.

(** ** A stored copy *)

Lemma stored_copy_tag t c : stored_copy t c -> transaction_of (cp_stored c) = t.
Proof.
  intros (_ & _ & Hm & _). unfold transaction_of. rewrite Hm. simpl. rewrite lookup_insert_eq. simpl.
  by rewrite as_str_string.
Qed.

Lemma visible_tagged n s st :
  transaction_of st = uuid_text n -> visible st s = is_file (marker_path mail_root (uuid_text n)) s.
Proof.
  intros Ht. unfold visible, is_committed. rewrite Ht, uuid_text_valid.
  pose proof (uuid_not_empty n) as Hne. by destruct (uuid_text n).
Qed.

Lemma with_raw_same (raw : bytes) (m : Message) : ms_raw_mime m = Some raw -> with_raw raw m = m.
Proof. destruct m; simpl. by intros ->. Qed.

(** ** One batch *)

Section Batch.
Variables (n : N) (s0 : fs) (cs : list Copy).
Abbreviation t := (uuid_text n).
Abbreviation journal := (journal (root := mail_root) (Dest := mail_dest)).
Abbreviation cleaned := (cleaned (root := mail_root) (Dest := mail_dest)).

Hypothesis Hm : mail_ok s0.
Hypothesis Hgood : Forall (good t s0) cs.
Hypothesis Hfresh : fresh_id t s0.

Definition batch : list (path * bytes) := flat_map (copy_files s0) cs.
Definition kept (q : path) : Prop := message_file s0 q /\ q ∉ batch.*1.
Definition home (c : Copy) : path := dir_of s0 (cp_mailbox c).

Abbreviation ended := (ended (root := mail_root) (Dest := mail_dest) kept t batch).
Abbreviation open_tx := (open_tx (root := mail_root) (Dest := mail_dest) kept t batch).
Abbreviation committed_tx := (committed_tx (root := mail_root) (Dest := mail_dest) kept t batch).

Lemma elem_of_batch p b : (p, b) ∈ batch <-> exists c, c ∈ cs /\
  (p = json_path (home c) (cp_id c) /\ b = encode_stored (cp_stored c) \/
   p = raw_path (home c) (cp_id c) /\ ms_raw_mime (sm_message (cp_stored c)) = Some b).
Proof.
  unfold batch. rewrite list_elem_of_In, in_flat_map. split.
  - intros (c & Hc%list_elem_of_In & Hin). exists c. split; [done|]. destruct Hin as [[= <- <-]|Hin]; [by left|right].
    destruct (ms_raw_mime _) as [raw|] eqn:Hr; [|done]. destruct Hin as [[= <- <-]|[]]. done.
  - intros (c & Hc & Hb). exists c. rewrite <- list_elem_of_In. split; [done|]. unfold copy_files, files_of.
    destruct Hb as [[-> ->]|[-> Hr]]; [by left|right]. rewrite Hr. by left.
Qed.

Lemma good_home c : c ∈ cs -> good t s0 c /\ mail_dir (home c) /\ is_dir (home c) s0 = true.
Proof.
  intros Hc. rewrite list.Forall_forall in Hgood. pose proof (Hgood c Hc) as Hg.
  destruct (Hg) as (_ & _ & Hp & Hd). split_and!; [done|by apply dir_of_dir|done].
Qed.

Lemma json_ne_raw d id d' id' : json_path d id <> raw_path d' id'.
Proof.
  unfold json_path, raw_path. rewrite join_inj. intros [_ Heq].
  assert (Text.ends_with (id +:+ ".json") ".raw" = false) as Hf.
  { change ".json" with ("." +:+ "json"). rewrite <- Text.app_assoc. by apply ends_with_other. }
  by rewrite Heq, ends_with_app in Hf.
Qed.

Lemma json_inj d id d' id' : json_path d id = json_path d' id' -> d = d' /\ id = id'.
Proof. unfold json_path. rewrite join_inj. intros [-> Heq]. split; [done|]. by eapply app_suffix_inj. Qed.
Lemma raw_inj d id d' id' : raw_path d id = raw_path d' id' -> d = d' /\ id = id'.
Proof. unfold raw_path. rewrite join_inj. intros [-> Heq]. split; [done|]. by eapply app_suffix_inj. Qed.

(** A message is one of the batch, or none of its files is. *)
Lemma batch_json d id b : (json_path d id, b) ∈ batch ->
  exists c, c ∈ cs /\ d = home c /\ id = cp_id c /\ b = encode_stored (cp_stored c).
Proof.
  intros (c & Hc & [[Heq ->]|[Heq _]])%elem_of_batch; [|by apply json_ne_raw in Heq].
  apply json_inj in Heq as [-> ->]. by exists c.
Qed.

Lemma batch_raw d id : raw_path d id ∈ batch.*1 -> json_path d id ∈ batch.*1.
Proof.
  intros ([p b] & Heq & Hb)%list_elem_of_fmap. simpl in Heq. subst.
  apply elem_of_batch in Hb as (c & Hc & [[Heq _]|[Heq _]]); [by symmetry in Heq; apply json_ne_raw in Heq|].
  apply raw_inj in Heq as [-> ->]. apply list_elem_of_fmap.
  exists (json_path (home c) (cp_id c), encode_stored (cp_stored c)). split; [done|].
  apply elem_of_batch. exists c. by auto.
Qed.

(** *** The batch fits the store *)

Lemma segment_plain mb : plain_mailbox mb -> validate_segment mb = Ok tt -> plain_component mb = true.
Proof.
  intros (Hne & Hdot & _) Hv. unfold validate_segment in Hv.
  destruct (Text.is_empty mb || _ || _ || _) eqn:E1; [done|]. rewrite !orb_false_iff in E1.
  destruct E1 as [[[_ Hs] _] _]. apply plain_component_intro; [done| | |done]; by intros ->.
Qed.

Lemma home_component c : c ∈ cs -> exists a, home c = join mail_root a /\ plain_component a = true.
Proof.
  intros Hc. destruct (good_home c Hc) as ((_ & _ & Hp & _) & _ & _). unfold home, dir_of.
  destruct (validate_segment (cp_mailbox c)) as [[]|] eqn:Hv; simpl.
  - destruct (is_dir _ s0).
    + exists (cp_mailbox c). rewrite plain_segment by done. split; [done|]. by apply segment_plain.
    + exists (mailbox_storage_key (cp_mailbox c)). split; [done|]. apply plain_component_intro; [done..|].
      unfold mailbox_storage_key. apply contains_app_false with (a := "/"%char); [done..|apply sha256_plain].
  - exists (mailbox_storage_key (cp_mailbox c)). split; [done|]. apply plain_component_intro; [done..|].
    unfold mailbox_storage_key. apply contains_app_false with (a := "/"%char); [done..|apply sha256_plain].
Qed.

Lemma name_plain id suffix : Text.contains id "/" = false -> String.length suffix >= 4 ->
  Text.contains suffix "/" = false -> plain_component (id +:+ suffix) = true.
Proof.
  intros Hid Hl Hs. assert (String.length (id +:+ suffix) >= 4) as Hlen by (rewrite Text.length_app; lia).
  apply plain_component_intro; [| | |by apply contains_app_false with (a := "/"%char)];
    intros Heq; rewrite Heq in Hlen; simpl in Hlen; lia.
Qed.

Lemma batch_shape p b : (p, b) ∈ batch -> exists c a suffix, c ∈ cs /\ home c = join mail_root a /\
  plain_component a = true /\ p = join (home c) (cp_id c +:+ suffix) /\ suffix ∈ [".json"; ".raw"].
Proof.
  intros (c & Hc & Hb)%elem_of_batch. destruct (home_component c Hc) as (a & Ha & Hp).
  destruct Hb as [[-> _]|[-> _]]; [exists c, a, ".json"|exists c, a, ".raw"]; split_and!; try done; set_solver.
Qed.

Lemma validate_two a b : plain_component a = true -> plain_component b = true -> validate_relative [a; b] = Ok tt.
Proof. intros Ha Hb. unfold validate_relative. simpl. by rewrite Ha, Hb. Qed.

Lemma suffix_long suffix : suffix ∈ [".json"; ".raw"] -> String.length suffix >= 4 /\ Text.contains suffix "/" = false.
Proof. intros [->|Hs]%elem_of_cons; [|apply list_elem_of_singleton in Hs as ->]; split; (done || simpl; lia). Qed.

Lemma batch_fit_path f : f ∈ batch -> fit_path (root := mail_root) (Dest := mail_dest) kept t f.1.
Proof.
  destruct f as [p b]. intros Hf. simpl. destruct (batch_shape p b Hf) as (c & a & suffix & Hc & Ha & Hpa & Hp & Hs).
  destruct (good_home c Hc) as ((_ & Hv & _ & _) & Hd & _). destruct (suffix_long _ Hs) as [Hl Hns].
  assert (Text.contains (cp_id c) "/" = false) as Hid.
  { unfold validate_segment in Hv. destruct (Text.is_empty (cp_id c) || _ || _ || _) eqn:E1; [done|].
    rewrite !orb_false_iff in E1. apply E1. }
  assert (message_name (cp_id c +:+ suffix)) as Hmn by (by exists (cp_id c), suffix).
  assert (mail_dest p) as Hdp by (rewrite Hp; by apply dest_in_dir).
  split; [|done|by apply pending_dest| | | |].
  - exists [a; cp_id c +:+ suffix]. split_and!; [by rewrite Hp, Ha|apply validate_two; [done|by apply name_plain]|].
    change [a; cp_id c +:+ suffix] with (join [a] (cp_id c +:+ suffix)). unfold pending_path.
    rewrite parent_join, file_name_join. simpl. apply validate_two; [done|].
    apply name_plain; [|rewrite Text.length_app; simpl; lia|].
    + by apply contains_app_false with (a := "/"%char).
    + apply contains_app_false with (a := "/"%char); [done..|apply uuid_no_slash].
  - intros [_ Hk]. apply Hk. apply list_elem_of_fmap. by exists (p, b).
  - intros [(d & id & st & _ & _ & Hq) _].
    destruct Hq as [Hq|Hq]; revert Hq; apply pending_not_message; set_solver.
  - rewrite Hp. by apply message_name_not_scratch.
  - apply pending_not_scratch.
Qed.

Lemma batch_fit : fit (root := mail_root) (Dest := mail_dest) kept t batch s0.
Proof.
  split; [apply tdir_uuid_not_scratch|apply Hfresh|apply batch_fit_path| | |].
  - intros [p b] [p' b'] Hf Hf'. destruct (batch_shape p' b' Hf') as (c & a & suffix & _ & _ & _ & Hp & Hs).
    simpl. rewrite Hp. apply pending_not_message. set_solver.
  - intros f Hf. apply (fi_pending _ _ Hfresh). apply (fp_dest _ _ _ (batch_fit_path f Hf)).
  - intros [p b] Hf. destruct (batch_shape p b Hf) as (c & a & suffix & Hc & _ & _ & Hp & _). simpl.
    rewrite Hp, parent_join. apply dir_creatable; [apply (mo_journal _ Hm)|]. by apply good_home.
Qed.

Lemma batch_journal : journal kept s0.
Proof.
  destruct (mo_journal _ Hm) as [J1 J2 J3 J4 J5 J6]. split; [done..|].
  intros t' q Hu Hl. destruct (J6 t' q Hu Hl) as [Hd Hn]. split; [done|]. by intros [? _].
Qed.

(** *** After recovery *)

Lemma cleaned_message_file s1 q : cleaned kept s0 s1 -> message_file s0 q -> s1 !! q = s0 !! q.
Proof.
  intros Hc Hq. destruct (message_file_dest s0 q Hq) as [Hd Hsc].
  apply (agree_at _ _ _ (cl_agree _ _ _ Hc)); [done|]. intros [Hb|(t' & Hu & Hl)].
  - pose proof (dest_outside _ Hd) as Ho. unfold at_or_below in Hb. congruence.
  - by apply (jr_listed _ _ (mo_journal _ Hm) t' q Hu Hl).
Qed.

Lemma cleaned_view s1 d id : cleaned kept s0 s1 -> mail_dir d -> message_at d id s1 = message_at d id s0.
Proof.
  intros Hc Hd. destruct (message_at d id s0) as [st|] eqn:Hat.
  - rewrite <- Hat. apply message_at_ext; [..|by apply (cl_markers _ _ _ Hc)];
      (apply cleaned_message_file; [done|]; exists d, id, st; by auto).
  - revert Hat. unfold message_at. destruct (s1 !! json_path d id) as [[b|]|] eqn:Hj; [|done..].
    rewrite (cl_files _ _ _ _ _ Hc Hj). destruct (decode_stored b) as [st|]; [|done]. simpl.
    rewrite (visible_ext st s0 s1) by apply (cl_markers _ _ _ Hc). by destruct (visible st s0).
Qed.

Lemma cleaned_dirs s1 a : cleaned kept s0 s1 -> scratch (join mail_root a) = false -> a <> TRANSACTIONS ->
  s1 !! join mail_root a = s0 !! join mail_root a.
Proof.
  intros Hc Hsc Ha. apply (agree_at _ _ _ (cl_agree _ _ _ Hc)); [done|]. intros [Hb|(t' & Hu & Hl)].
  - apply below_spec in Hb as [r Hr]. unfold journal_dir, mail_root, join in Hr. simpl in Hr. by injection Hr.
  - destruct (jr_listed _ _ (mo_journal _ Hm) t' _ Hu Hl) as [(x & y & Hx & _) _]. by apply (f_equal length) in Hx.
Qed.

Lemma mail_ok_message_file s' q :
  (forall d id, mail_dir d -> message_at d id s' = message_at d id s0) -> message_file s' q -> message_file s0 q.
Proof. intros Hv (d & id & st & Hd & Hat & Hq). exists d, id, st. by rewrite <- Hv. Qed.

Lemma cleaned_mail_ok s1 : cleaned kept s0 s1 -> mail_ok s1.
Proof.
  intros Hc. destruct (cl_journal _ _ _ Hc) as [J1 J2 J3 J4 J5 J6]. split; [split; [done..|]|].
  - intros t' q Hu (b & i & rel & Hb & Hdec & Hrel & ->).
    assert (uncommitted (root := mail_root) t' s0) as Hu0.
    { destruct Hu as [Hd Hk]. split; [|by rewrite <- (cl_markers _ _ _ Hc)].
      apply is_dir_true. apply is_dir_true in Hd. by apply (cl_shrinks _ _ _ Hc); [apply tdir_ne_jdir|]. }
    destruct (jr_listed _ _ (mo_journal _ Hm) t' (mail_root ++ rel) Hu0) as [Hd Hn].
    { exists b, i, rel. by split_and!; [apply (cl_files _ _ _ _ _ Hc)|..]. }
    split; [done|]. intros Hq. apply Hn. eapply mail_ok_message_file; [|exact Hq]. intros d id. by apply cleaned_view.
  - intros a b Hsc Hb. apply (cl_files _ _ _ _ _ Hc) in Hb. by apply (mo_top _ Hm a b).
Qed.

(** *** After the commit *)

Section After.
Variables s1 s' : fs.
Hypothesis Hclean : cleaned kept s0 s1.
Hypothesis Hvac : vacant [] batch s1.
Hypothesis Hended : ended s1 s'.

Lemma fit_after : fit (root := mail_root) (Dest := mail_dest) kept t batch s1.
Proof. eapply fit_cleaned; [apply batch_journal|exact Hclean|apply batch_fit]. Qed.

Lemma message_same d id suffix : mail_dir d -> suffix ∈ [".json"; ".raw"] -> join d (id +:+ suffix) ∉ batch.*1 ->
  s' !! join d (id +:+ suffix) = s1 !! join d (id +:+ suffix).
Proof.
  intros Hd Hs Hn. eapply ended_other; [apply fit_after|done|by apply dest_in_dir|apply message_name_not_scratch; by exists id, suffix|].
  intros f Hf. split; [|apply not_eq_sym, pending_not_message; set_solver].
  intros Heq. apply Hn. rewrite Heq. by apply list_elem_of_fmap_2.
Qed.

Lemma marker_before : is_file (marker_path mail_root t) s1 = false.
Proof.
  unfold is_file, marker_path.
  by rewrite (tdir_empty kept t batch s1 fit_after (cl_journal _ _ _ Hclean)).
Qed.

Lemma other_message d id : mail_dir d -> json_path d id ∉ batch.*1 -> message_at d id s' = message_at d id s1.
Proof.
  intros Hd Hn. assert (s' !! json_path d id = s1 !! json_path d id) as Hj by (apply message_same; [done|set_solver|done]).
  assert (s' !! raw_path d id = s1 !! raw_path d id) as Hr.
  { apply message_same; [done|set_solver|]. intros Hx. by apply Hn, batch_raw. }
  unfold message_at. rewrite Hj, Hr. destruct (s1 !! json_path d id) as [[b|]|] eqn:E1; [|done..].
  destruct (decode_stored b) as [st|] eqn:Hdec; [|done]. simpl.
  assert (transaction_of st <> t) as Hne.
  { apply (fi_tag _ _ Hfresh d id b); [done|by apply (cl_files _ _ _ _ _ Hclean)|done]. }
  assert (visible st s' = visible st s1) as ->; [|done]. unfold visible, is_committed, is_file.
  rewrite (ended_marker kept t batch s1 s'); [done|apply fit_after|apply Hclean|done|done].
Qed.

Lemma batch_message_before d id : json_path d id ∈ batch.*1 -> message_at d id s1 = None.
Proof.
  intros ([p b] & Heq & Hb)%list_elem_of_fmap. simpl in Heq. subst p.
  destruct (proj2 Hvac _ Hb) as [Hx _]. simpl in Hx. unfold message_at. by rewrite Hx.
Qed.

Lemma open_message d id : open_tx s1 s' -> json_path d id ∈ batch.*1 -> message_at d id s' = None.
Proof.
  intros Ho ([p b] & Heq & Hb)%list_elem_of_fmap. simpl in Heq. subst p. unfold message_at.
  destruct (ot_contents _ _ _ _ _ Ho _ _ Hb) as [->| ->]; [done|].
  destruct (batch_json d id b Hb) as (c & Hc & _ & _ & ->). rewrite decode_encode_stored. simpl.
  destruct (good_home c Hc) as ((Hst & _) & _ & _).
  rewrite (visible_tagged n) by (by apply stored_copy_tag). unfold is_file. by rewrite (ot_marker _ _ _ _ _ Ho).
Qed.

(** An open transaction is not seen. *)
Lemma open_view d id : open_tx s1 s' -> mail_dir d -> message_at d id s' = message_at d id s0.
Proof.
  intros Ho Hd. rewrite <- (cleaned_view s1) by done. destruct (decide (json_path d id ∈ batch.*1)) as [Hin|Hn].
  - by rewrite open_message, batch_message_before.
  - by apply other_message.
Qed.

(** A decided one is seen as a whole. *)
Lemma committed_view c : committed_tx s1 s' -> c ∈ cs -> s0 !! raw_path (home c) (cp_id c) = None ->
  message_at (home c) (cp_id c) s' = Some (cp_stored c).
Proof.
  intros Hct Hc Hraw. destruct (good_home c Hc) as ((Hst & _) & Hd & _). unfold message_at.
  rewrite (ct_files _ _ _ _ _ Hct (json_path (home c) (cp_id c)) (encode_stored (cp_stored c)))
    by (apply elem_of_batch; exists c; by auto).
  rewrite decode_encode_stored. simpl. rewrite (visible_tagged n) by (by apply stored_copy_tag).
  rewrite (ct_marker _ _ _ _ _ Hct). f_equal.
  destruct (ms_raw_mime (sm_message (cp_stored c))) as [raw|] eqn:Hr.
  - rewrite (ct_files _ _ _ _ _ Hct (raw_path (home c) (cp_id c)) raw) by (apply elem_of_batch; exists c; by auto).
    simpl. rewrite with_raw_same by done. by destruct (cp_stored c).
  - assert (s' !! raw_path (home c) (cp_id c) = None) as ->; [|done].
    destruct (decide (raw_path (home c) (cp_id c) ∈ batch.*1)) as [([p b] & Heq & Hb)%list_elem_of_fmap|Hn].
    + simpl in Heq. subst p. destruct (proj2 Hvac _ Hb) as [Hx _]. simpl in Hx.
      apply elem_of_batch in Hb as (c' & Hc' & [[Heq _]|[Heq Hr']]); [by symmetry in Heq; apply json_ne_raw in Heq|].
      apply raw_inj in Heq as [Hh Hid].
      assert ((json_path (home c) (cp_id c), encode_stored (cp_stored c)) =
              (json_path (home c') (cp_id c'), encode_stored (cp_stored c'))) as [= _ Heq].
      { apply (same_contents batch (proj1 Hvac)); [apply elem_of_batch; exists c; by auto|apply elem_of_batch; exists c'; by auto|].
        simpl. by rewrite Hh, Hid. }
      apply (f_equal decode_stored) in Heq. rewrite !decode_encode_stored in Heq. congruence.
    + unfold raw_path. rewrite message_same; [|done|set_solver|done].
      destruct (s1 !! join (home c) (cp_id c +:+ ".raw")) as [e|] eqn:E1; [|done].
      apply (cl_shrinks _ _ _ Hclean) in E1; [unfold raw_path, RAW_SUFFIX in Hraw; congruence|].
      destruct Hd as (a & Ha & _). rewrite Ha. intros Heq. by apply (f_equal length) in Heq.
Qed.

(** The directories of mailboxes are where they were. *)
Lemma ended_dirs a : scratch (join mail_root a) = false -> a <> TRANSACTIONS ->
  s' !! join mail_root a = s0 !! join mail_root a.
Proof.
  intros Hsc Ha. rewrite <- (cleaned_dirs s1) by done.
  apply (agree_at _ _ _ (ended_agree _ _ _ _ _ Hended)); [done|]. intros [Hb|([p b] & Hf & Hx)].
  - apply below_spec in Hb as [r Hr]. apply (f_equal length) in Hr. simpl in Hr. lia.
  - pose proof (batch_fit_path _ Hf) as Hp. destruct (batch_shape p b Hf) as (c & a' & suffix & Hc & Hh & Hpa & -> & _).
    cbn [fst] in Hx. destruct Hx as [Heq|[Heq|[Hb Hn]]].
    + destruct (fp_dest _ _ _ Hp) as (x & y & Hxy & _). simpl in Hxy. rewrite <- Heq in Hxy. by apply (f_equal length) in Hxy.
    + destruct (fp_pending _ _ _ Hp) as (x & y & Hxy & _). simpl in Hxy. rewrite <- Heq in Hxy. by apply (f_equal length) in Hxy.
    + rewrite parent_join, Hh in Hb. apply below_parent in Hb as [Heq|Hb].
      * destruct (good_home c Hc) as (_ & _ & Hd). rewrite Hh, Heq in Hd. apply is_dir_true in Hd.
        rewrite (cleaned_dirs s1) in Hn by done. congruence.
      * rewrite parent_join in Hb. apply below_spec in Hb as [r Hr]. apply (f_equal length) in Hr. simpl in Hr. lia.
Qed.

Lemma ended_top a b : scratch (join mail_root a) = false -> s' !! join mail_root a <> Some (File b).
Proof.
  intros Hsc. destruct (decide (a = TRANSACTIONS)) as [->|Ha].
  - destruct Hended as [Ho|Hct]; [apply (jr_dir _ _ (ot_journal _ _ _ _ _ Ho))|apply (jr_dir _ _ (ct_journal _ _ _ _ _ Hct))].
  - rewrite ended_dirs by done. by apply Hm.
Qed.

Lemma ended_mail_ok : mail_ok s'.
Proof.
  split; [|apply ended_top]. destruct Hended as [Ho|Hct].
  - destruct (ot_journal _ _ _ _ _ Ho) as [J1 J2 J3 J4 J5 J6]. split; [done..|]. intros t' q Hu Hl.
    destruct (J6 t' q Hu Hl) as [Hd Hn]. split; [done|]. intros Hq. apply Hn. split.
    + eapply mail_ok_message_file; [|exact Hq]. intros d id. by apply open_view.
    + intros Hin. destruct Hq as (d & id & st & Hdd & Hat & Hq).
      assert (json_path d id ∈ batch.*1) as Hj by (destruct Hq as [-> | ->]; [done|by apply batch_raw]).
      by rewrite open_message in Hat.
  - destruct (ct_journal _ _ _ _ _ Hct) as [J1 J2 J3 J4 J5 _]. split; [done..|].
    by intros t' q Hu%(ct_settled _ _ _ _ _ Hct).
Qed.

End After.
End Batch.
(** ** The capture *)

(** Readers of the ordinary mailboxes see what they saw. *)
Definition same_view (s s' : fs) : Prop :=
  forall mailbox id, plain_mailbox mailbox -> shown s' mailbox id = shown s mailbox id.

(** Readers see every copy of the batch, as it was captured, and besides them
    what they saw. *)
Definition batch_shown (messages : list (string * Message)) (s s' : fs) : Prop :=
  exists t cs, key_of <$> cs = copies_of messages /\ Forall (stored_copy t) cs /\
    (forall c, c ∈ cs -> shown s' (cp_mailbox c) (cp_id c) = Some (cp_stored c)) /\
    forall mailbox id, plain_mailbox mailbox ->
      (forall c, c ∈ cs -> cp_id c = id -> dir_of s (cp_mailbox c) <> dir_of s mailbox) ->
      shown s' mailbox id = shown s mailbox id.

(** No raw bytes were left behind under the identifiers of the batch. *)
Definition no_leftovers (messages : list (string * Message)) (s : fs) : Prop :=
  forall id message mailbox, (id, message, mailbox) ∈ copies_of messages ->
    s !! raw_path (dir_of s mailbox) id = None.

Definition plain_batch (messages : list (string * Message)) : Prop :=
  forall id message mailbox, (id, message, mailbox) ∈ copies_of messages -> plain_mailbox mailbox.

Lemma plain_not_scratch mailbox : plain_mailbox mailbox ->
  scratch (join mail_root mailbox) = false /\ mailbox <> TRANSACTIONS.
Proof. intros (_ & Hd & _). rewrite scratch_join, Hd. split; [done|]. by intros ->. Qed.

Lemma dir_of_ext s s' mailbox : plain_mailbox mailbox ->
  s' !! join mail_root mailbox = s !! join mail_root mailbox -> dir_of s' mailbox = dir_of s mailbox.
Proof. intros Hp Heq. unfold dir_of, is_dir. by rewrite plain_segment, Heq by done. Qed.

Lemma same_view_dirs s s' :
  (forall a, scratch (join mail_root a) = false -> a <> TRANSACTIONS -> s' !! join mail_root a = s !! join mail_root a) ->
  (forall d id, mail_dir d -> message_at d id s' = message_at d id s) -> same_view s s'.
Proof.
  intros Hd Hv mailbox id Hp. destruct (plain_not_scratch _ Hp). unfold shown.
  rewrite (dir_of_ext s s') by auto. by apply Hv, dir_of_dir.
Qed.

Lemma same_view_trans s1 s2 s3 : same_view s1 s2 -> same_view s2 s3 -> same_view s1 s3.
Proof. intros H12 H23 mb id Hp. rewrite H23 by done. by apply H12. Qed.

Lemma prepared_same_view s s' : ok s -> prepared s s' -> same_view s s'.
Proof. intros Hok Hp mb id Hm. by apply prepared_shown. Qed.

Lemma prepared_no_leftovers messages s s' :
  ok s -> plain_batch messages -> prepared s s' -> no_leftovers messages s -> no_leftovers messages s'.
Proof.
  intros Hok Hpl Hp Hn id m mb Hin. pose proof (Hpl _ _ _ Hin) as Hmb. rewrite (prepared_dir_of s s') by done.
  unfold raw_path. rewrite (prepared_message s s'); [by apply (Hn id m)|done|by apply dir_of_dir|apply raw_name].
Qed.

Lemma batch_shown_prepared messages s s0 s' :
  ok s -> plain_batch messages -> prepared s s0 -> batch_shown messages s0 s' -> batch_shown messages s s'.
Proof.
  intros Hok Hpl Hp (t & cs & Hk & Hst & Hall & Hrest). exists t, cs. split_and!; [done..|].
  intros mb id Hmb Hne. rewrite Hrest; [by apply prepared_shown|done|].
  intros c Hc Hid. rewrite !(prepared_dir_of s s0); [by apply Hne|done..|].
  apply (Hpl (cp_id c) (cp_message c)). rewrite <- Hk. by apply (list_elem_of_fmap_2 key_of).
Qed.

Lemma committed_shown n s0 cs messages s1 s' :
  mail_ok s0 -> Forall (good (uuid_text n) s0) cs -> fresh_id (uuid_text n) s0 -> no_leftovers messages s0 ->
  key_of <$> cs = copies_of messages -> cleaned (root := mail_root) (Dest := mail_dest) (kept s0 cs) s0 s1 ->
  vacant [] (batch s0 cs) s1 ->
  committed_tx (root := mail_root) (Dest := mail_dest) (kept s0 cs) (uuid_text n) (batch s0 cs) s1 s' ->
  batch_shown messages s0 s'.
Proof.
  intros Hm Hg Hf Hn Hk Hc Hv Hct. exists (uuid_text n), cs.
  assert (forall mailbox, plain_mailbox mailbox -> dir_of s' mailbox = dir_of s0 mailbox) as Hdir.
  { intros mb Hp. destruct (plain_not_scratch _ Hp). apply dir_of_ext; [done|].
    apply (ended_dirs n s0 cs Hm Hg Hf s1); try done. by right. }
  split_and!; [done|eapply list.Forall_impl; [exact Hg|]; intros c Hx; apply Hx| |].
  - intros c Hin. destruct (good_home n s0 cs Hg c Hin) as ((_ & _ & Hp & _) & _). unfold shown. rewrite Hdir by done.
    apply (committed_view n s0 cs Hm Hg Hf s1); try done; [by right|].
    apply (Hn _ (cp_message c)). rewrite <- Hk. by apply (list_elem_of_fmap_2 key_of).
  - intros mb id Hp Hne. unfold shown. rewrite Hdir by done. pose proof (dir_of_dir s0 mb Hp) as Hd.
    rewrite <- (cleaned_view s0 cs Hm s1) by done.
    apply (other_message n s0 cs Hm Hg Hf s1); try done; [by right|].
    intros ([p b] & Heq & Hb)%list_elem_of_fmap. simpl in Heq. subst p.
    destruct (batch_json s0 cs _ _ _ Hb) as (c & Hin & Hh & Hid & _). by apply (Hne c).
Qed.

(** What a run may leave. *)
Definition outcome_ok (messages : list (string * Message)) (s s' : fs) : Prop :=
  mail_ok s' /\ (same_view s s' \/ batch_shown messages s s').

Lemma wp_file_capture_batch messages s :
  mail_ok s -> plain_batch messages -> no_leftovers messages s ->
  wp (mkMode true (fun n => fresh_id (uuid_text n) s) (fun _ => True)) (file_capture_batch messages [])
    (fun _ s' => mail_ok s' /\ batch_shown messages s s')
    (fun _ => outcome_ok messages s) (outcome_ok messages s) s.
Proof.
  intros Hm Hpl Hn. pose proof (jr_ok _ _ (mo_journal _ Hm)) as Hok. unfold file_capture_batch.
  assert (forall s', prepared s s' -> outcome_ok messages s s') as Hprep.
  { intros s' Hp. split; [by eapply prepared_ok|]. left. by apply prepared_same_view. }
  apply wp_bind, wp_of_res. destruct (check_messages _ _) as [[]|e]; [|apply Hprep, prepared_refl].
  apply wp_bind, wp_new_uuid. intros n Hf. simpl in Hf.
  apply wp_bind, wp_prepare_batch; [done..| |by auto|by auto].
  intros stored cs s0 Hp Hg Hk. simpl. rewrite app_nil_r.
  pose proof (prepared_ok _ _ Hp Hm) as Hm0. pose proof (jr_ok _ _ (mo_journal _ Hm0)) as Hok0.
  apply prepared_fresh with (s' := s0) in Hf; [|done].
  pose proof (prepared_no_leftovers messages s s0 Hok Hpl Hp Hn) as Hn0.
  pose proof (prepared_same_view s s0 Hok Hp) as Hu0.
  assert (forall s1, cleaned (root := mail_root) (Dest := mail_dest) (kept s0 cs) s0 s1 -> outcome_ok messages s s1) as Hcl.
  { intros s1 Hc. split; [by eapply cleaned_mail_ok|]. left. eapply same_view_trans; [exact Hu0|].
    apply same_view_dirs; [intros a; by eapply cleaned_dirs|intros d id; by eapply cleaned_view]. }
  apply wp_bind, (wp_commit (kept s0 cs)); [by apply batch_journal|by apply batch_fit| | | |].
  - intros s1 s' Hc _ Hv Hct. apply wp_ret. split; [by eapply ended_mail_ok; [..|right]|].
    eapply batch_shown_prepared; [done..|]. by eapply committed_shown.
  - intros s1 Hc _. split; [intros e|]; by apply Hcl.
  - intros s1 Hc _ _. by apply Hcl.
  - intros s1 s' Hc _ Hv He.
    assert (outcome_ok messages s s') as Ho; [|by split].
    split; [by eapply ended_mail_ok|]. destruct (He) as [Ho|Hct]; [left|right].
    + eapply same_view_trans; [exact Hu0|].
      apply same_view_dirs; [intros a; by eapply ended_dirs|intros d id Hd; by eapply open_view].
    + eapply batch_shown_prepared; [done..|]. by eapply committed_shown.
Qed.

(** C8 [mail_capture_atomic]. Readers of the mail store see a batch as a
    whole: after capture_batch of messages without repeatability records, to
    mailboxes with plain names and with fresh transaction ids, in a store
    without left-over raw files of the copies, completed, failed or killed at
    any call, every mailbox shows what it showed before (and the call did not
    return Ok) or every copy of the batch is shown as captured and everything
    else as before; the invariant of the store holds again. *)
Theorem mail_capture_atomic messages (s s' : fs) σ out σ' :
  mail_ok s -> plain_batch messages -> no_leftovers messages s ->
  (forall n, fresh_id (uuid_text (sc_uuids σ n)) s) ->
  file_capture_batch messages [] σ s = (out, s', σ') ->
  mail_ok s' /\ (same_view s s' /\ (forall stored, out <> Done stored) \/ batch_shown messages s s').
Proof.
  intros Hm Hpl Hn Hf Hrun. pose proof (wp_file_capture_batch messages s Hm Hpl Hn) as Hwp.
  pose proof (wp_run _ _ _ _ _ _ _ _ _ _ Hwp (conj (fun Hx => match diff_true_false Hx with end) (conj Hf (fun _ => I))) Hrun) as Hr.
  destruct out as [stored|e|]; simpl in Hr; destruct Hr as [Hok Hr]; (split; [done|]); [by right|..];
    (destruct Hr as [Hr|Hr]; [left; by split|by right]).
Qed.

End MailCommit.
