(* ===== verification/MailReads.v ===== *)
(** * MailReads: reading messages back, and what breaks a store

    Reading returns what the disk shows.  A message addressed to the mailbox of
    all messages is never captured, and deleting the mailbox that is named like
    the journal hides every captured message. *)

From Stdlib Require Import Ascii.
From S2P Require Import Prelude Text Models Utf8 FsModel Publication FileFacts PublicationFacts PublicationSafety.
From S2P Require Import Capture CaptureFacts CommitFacts Mail MailFacts MailFiles MailStoreFacts.
From S2P Require Import MailCommit.

Section MailReads.
Context `{EnvLaws} `{!NameLaws} `{CaptureEnvLaws} `{!MailEnv} `{!MailEnvLaws} `{!JsonLaws}.

(** ** Reading *)

Lemma wp_read_message d id Q E C s :
  mail_ok s -> mail_dir d ->
  (forall b st, s !! json_path d id = Some (File b) -> decode_stored b = Some st -> Q st s) ->
  (message_at d id s = None -> forall e, E e s) -> wp calm (read_stored (json_path d id)) Q E C s.
Proof.
  intros Hm Hd HQ HE. unfold read_stored, message_at in *.
  apply wp_bind, wp_read_if_present; [| | |by intros [=]].
  - intros Hn. apply wp_fail, HE. by rewrite Hn.
  - intros b Hb. apply wp_of_res. destruct (decode_stored b) as [st|] eqn:Hdec; simpl; [by eapply HQ|].
    apply HE. by rewrite Hb, Hdec.
  - intros Hx. destruct (jr_flat _ _ (mo_journal _ Hm) (json_path d id)); [by apply dest_in_dir|done].
Qed.

Lemma wp_get_message mailbox id s :
  mail_ok s -> plain_mailbox mailbox -> validate_segment id = Ok tt ->
  wp calm (file_get_message mailbox id) (fun st s' => s' = s /\ shown s mailbox id = Some st)
    (fun _ s' => s' = s /\ shown s mailbox id = None) (fun _ => False) s.
Proof.
  intros Hm Hp Hid. pose proof (dir_of_dir s mailbox Hp) as Hd. unfold file_get_message, shown.
  apply wp_bind, wp_message_path; [apply Hp| |by rewrite Hid; intros e [=]]. intros _.
  apply wp_bind, wp_read_message; [done..| |by auto]. intros b st Hb Hdec.
  assert (message_at (dir_of s mailbox) id s =
    if visible st s then Some (with_raw_file (s !! raw_path (dir_of s mailbox) id) st) else None) as Hat.
  { unfold message_at. by rewrite Hb, Hdec. }
  rewrite Hat. apply wp_bind, wp_gets. destruct (visible st s); simpl; [|by apply wp_fail].
  apply wp_bind, wp_message_path; [apply Hp| |by rewrite Hid; intros e [=]]. intros _.
  change (join (dir_of s mailbox) (id +:+ RAW_SUFFIX)) with (raw_path (dir_of s mailbox) id).
  apply wp_bind, wp_attempt, wp_sys; [intros _|by intros [=]..].
  destruct (s !! raw_path (dir_of s mailbox) id) as [[raw|]|]; by apply wp_ret.
Qed.

(** [get_message_returns_shown]. get_message without faults returns exactly
    the message the disk shows under the mailbox and identifier, with its raw
    bytes, and fails when none is shown; it changes nothing. *)
Theorem get_message_returns_shown mailbox id (s : fs) σ :
  mail_ok s -> plain_mailbox mailbox -> validate_segment id = Ok tt -> sched_ok calm σ ->
  exists σ', match shown s mailbox id with
             | Some st => file_get_message mailbox id σ s = (Done st, s, σ')
             | None => exists e, file_get_message mailbox id σ s = (Failed e, s, σ')
             end.
Proof.
  intros Hm Hp Hid Hσ. pose proof (wp_get_message mailbox id s Hm Hp Hid σ Hσ) as Hwp.
  destruct (file_get_message mailbox id σ s) as [[[st|e|] s'] σ']; exists σ'; destruct Hwp as [_ Hr]; simpl in Hr;
    [destruct Hr as [-> ->]..|]; by eauto.
Qed.

(** ** The mailbox of all messages as a recipient *)

Lemma duplicate_all id message cs s0 :
  ALL_MAILBOX ∈ targets message -> key_of <$> cs = copies_of [(id, message)] -> ~ NoDup ((batch s0 cs).*1).
Proof.
  intros Hall Hk Hnd. destruct cs as [|c cs]; [done|].
  unfold copies_of in Hk. cbn [flat_map fst snd] in Hk. rewrite app_nil_r in Hk. rewrite !fmap_cons in Hk.
  pose proof (f_equal (@head _) Hk) as Hc. apply (f_equal (@tail _)) in Hk. cbn [head tail] in Hc, Hk.
  unfold key_of in Hc. injection Hc as Hid _ Hmb.
  assert ((id, message, ALL_MAILBOX) ∈ key_of <$> cs) as Hin.
  { rewrite Hk. by apply (list_elem_of_fmap_2 (fun mailbox => (id, message, mailbox))). }
  apply list_elem_of_fmap in Hin as (c' & Heq & Hc'). unfold key_of in Heq. injection Heq as Hid' _ Hmb'.
  unfold batch in Hnd. cbn [flat_map] in Hnd. unfold copy_files at 1, files_of in Hnd.
  rewrite fmap_app, fmap_cons, <- app_comm_cons in Hnd. apply list.NoDup_cons in Hnd as [Hn _]. apply Hn.
  apply elem_of_app. right. apply list_elem_of_fmap. exists (json_path (home s0 c') (cp_id c'), encode_stored (cp_stored c')).
  split; [simpl; unfold home; congruence|]. apply elem_of_batch. exists c'. by auto.
Qed.

Lemma wp_capture_all_recipient id message s :
  mail_ok s -> plain_batch [(id, message)] -> ALL_MAILBOX ∈ targets message ->
  wp (mkMode true (fun n => fresh_id (uuid_text n) s) (fun _ => True)) (file_capture_batch [(id, message)] [])
    (fun _ _ => False) (fun _ _ => True) (fun _ => True) s.
Proof.
  intros Hm Hpl Hall. unfold file_capture_batch.
  apply wp_bind, wp_of_res. destruct (check_messages _ _) as [[]|e]; [|done].
  apply wp_bind, wp_new_uuid. intros n Hf. simpl in Hf.
  apply wp_bind, wp_prepare_batch; [done..| |done|done].
  intros stored cs s0 Hp Hg Hk. simpl. rewrite app_nil_r.
  pose proof (prepared_ok _ _ Hp Hm) as Hm0. apply prepared_fresh with (s' := s0) in Hf; [|done].
  apply wp_bind, (wp_commit (kept s0 cs)); [by apply batch_journal|by apply batch_fit| |by split..|done|by split].
  intros s1 s' _ _ [Hnd _]. by destruct (duplicate_all id message cs s0).
Qed.

(** [all_recipient_never_captured]. A message with a recipient named like the
    mailbox of all messages is never captured: its list of targets holds the
    same destination twice and commit refuses it, whatever the schedule. *)
Theorem all_recipient_never_captured id message (s s' : fs) σ out σ' :
  mail_ok s -> plain_batch [(id, message)] -> (forall n, fresh_id (uuid_text (sc_uuids σ n)) s) ->
  ALL_MAILBOX ∈ targets message ->
  file_capture_batch [(id, message)] [] σ s = (out, s', σ') -> forall stored, out <> Done stored.
Proof.
  intros Hm Hpl Hf Hall Hrun stored ->. pose proof (wp_capture_all_recipient id message s Hm Hpl Hall) as Hwp.
  exact (wp_run _ _ _ _ _ _ _ _ _ _ Hwp (conj (fun Hx => match diff_true_false Hx with end) (conj Hf (fun _ => I))) Hrun).
Qed.

(** ** The journal as a mailbox *)

(** [deleting_journal_hides_captures]. Deleting the mailbox named like the
    journal directory succeeds and removes the markers of all transactions: no
    message captured by a transaction is shown afterwards. *)
Theorem deleting_journal_hides_captures (s : fs) σ :
  mail_ok s -> is_dir (journal_dir mail_root) s = true -> sched_ok calm σ ->
  exists s' σ', file_delete_mailbox TRANSACTIONS σ s = (Done tt, s', σ') /\
    forall mailbox id st, plain_mailbox mailbox -> shown s' mailbox id = Some st -> transaction_of st = "".
Proof.
  intros Hm Hd Hσ.
  assert (wp calm (file_delete_mailbox TRANSACTIONS)
    (fun _ s' => forall t, is_file (marker_path mail_root t) s' = false) (fun _ _ => False) (fun _ => False) s) as Hwp.
  { unfold file_delete_mailbox, mailbox_dir. apply wp_bind, wp_bind, wp_gets, wp_ret.
    change (segment mail_root TRANSACTIONS) with (journal_dir mail_root). rewrite Hd.
    change (is_ok (validate_segment TRANSACTIONS) && true) with true. cbn [andb eqb].
    change (_ && _) with false. cbv iota. apply wp_sys; [intros _|by intros [=]..].
    apply is_dir_true in Hd. rewrite Hd. intros t. unfold is_file.
    assert (filter (fun e => below (journal_dir mail_root) e.1 = false) s !! marker_path mail_root t = None) as ->; [|done].
    apply map_lookup_filter_None. right. intros e _. cbn [fst]. unfold marker_path. by rewrite jdir_below_in. }
  destruct (wp_calm_run _ _ _ _ Hwp Hσ) as ([] & s' & σ' & Hrun & Hgone). exists s', σ'. split; [done|].
  intros mb id st Hp. unfold shown, message_at. destruct (s' !! _) as [[b|]|]; [|done..].
  destruct (decode_stored b) as [st'|]; [|done]. simpl. unfold visible, is_committed. rewrite Hgone, andb_false_r, orb_false_r.
  destruct (transaction_of st') as [|a l] eqn:Ht; [|done]. simpl. intros [= <-]. 
  by destruct (s' !! _) as [[raw|]|].
Qed.

End MailReads.
