(* ===== verification/MailWitnesses.v ===== *)
(** * MailWitnesses: the theorems on captured mail at concrete stores *)

From Stdlib Require Import Ascii Strings.Byte.
From stdpp Require Import countable.
From S2P Require Import Prelude Text Models Utf8 FsModel Publication FileFacts ConcreteEnv Scenario Capture.
From S2P Require Import CaptureFacts CommitFacts Mail MailFacts Smtp SmtpFacts SmtpSession MailFiles.
From S2P Require Import MailStoreFacts MailCommit MailReads.

(** * A mail environment on which the definitions compute

    Codecs for the journal's records and the stored messages, over the
    environment of [ConcreteEnv], and an empty mail store. *)

(** JSON values that are strings. *)
#[export] Instance concrete_json : Json := {|
  json_value := string; json_string := id; json_as_str := Some |}.
#[export] Instance concrete_json_laws : JsonLaws.
Proof. by split. Qed.

(** ** The records are countable *)

#[export] Instance Intent_eq_dec : EqDecision Intent.
Proof. solve_decision. Defined.
#[export] Instance Intent_countable : Countable Intent.
Proof. by refine (inj_countable' in_paths mkIntent _); intros []. Defined.

#[local] Instance json_value_eq_dec : EqDecision json_value := String.string_dec.
#[local] Instance json_value_countable : Countable json_value := String.countable.

#[export] Instance Record_eq_dec : EqDecision RepeatabilityRecord.
Proof. solve_decision. Defined.
#[export] Instance Record_countable : Countable RepeatabilityRecord.
Proof.
  refine (inj_countable'
    (fun r => (rr_key r, rr_request_hash r, rr_first_sent r, rr_status r, rr_result r : string, rr_transaction_id r))
    (fun '(k, h, f, s, r, t) => mkRecord _ k h f s r t) _). by intros [].
Defined.

#[export] Instance SourceProtocol_eq_dec : EqDecision SourceProtocol.
Proof. solve_decision. Defined.
#[export] Instance SourceProtocol_countable : Countable SourceProtocol.
Proof.
  refine (inj_countable' (fun p => match p with Smtp => 0 | SendGrid => 1 | Ses => 2 | Acs => 3 end)
    (fun n => match n with 0 => Smtp | 1 => SendGrid | 2 => Ses | _ => Acs end) _). by intros [].
Defined.

#[export] Instance Address_eq_dec : EqDecision Address.
Proof. solve_decision. Defined.
#[export] Instance Address_countable : Countable Address.
Proof. by refine (inj_countable' (fun a => (ad_email a, ad_name a)) (fun '(e, n) => mkAddress e n) _); intros []. Defined.

#[export] Instance Attachment_eq_dec : EqDecision Attachment.
Proof. solve_decision. Defined.
#[export] Instance Attachment_countable : Countable Attachment.
Proof.
  refine (inj_countable'
    (fun a => (at_filename a, at_content_type a, at_content a, at_disposition a, at_content_id a))
    (fun '(f, t, c, d, i) => mkAttachment f t c d i) _). by intros [].
Defined.

#[export] Instance DeliveryState_eq_dec : EqDecision DeliveryState.
Proof. solve_decision. Defined.
#[export] Instance DeliveryState_countable : Countable DeliveryState.
Proof.
  refine (inj_countable' (fun p => match p with Accepted => 0 | Delivered => 1 | Bounced => 2 | Rejected => 3 end)
    (fun n => match n with 0 => Accepted | 1 => Delivered | 2 => Bounced | _ => Rejected end) _). by intros [].
Defined.

#[export] Instance DeliveryStatus_eq_dec : EqDecision DeliveryStatus.
Proof. solve_decision. Defined.
#[export] Instance DeliveryStatus_countable : Countable DeliveryStatus.
Proof.
  refine (inj_countable' (fun d => (ds_state d, ds_detail d, ds_updated_at d : Z)) (fun '(s, d, u) => mkDelivery s d u) _).
  by intros [].
Defined.

#[export] Instance Message_eq_dec : EqDecision Message.
Proof. solve_decision. Defined.
#[export] Instance Message_countable : Countable Message.
Proof.
  refine (inj_countable'
    (fun m => ((ms_source_protocol m, ms_from m, ms_to m, ms_cc m, ms_bcc m, ms_reply_to m, ms_subject m, ms_headers m),
       (ms_body_text m, ms_body_html m, ms_attachments m, ms_user_engagement_tracking_disabled m,
        ms_provider_metadata m : gmap string string, ms_raw_mime m, ms_thread_id m)))
    (fun '((p, f, t, c, b, r, s, h), (x, y, a, u, pm, raw, th)) => mkMessage _ p f t c b r s h x y a u pm raw th) _).
  by intros [].
Defined.

#[export] Instance StoredMessage_eq_dec : EqDecision StoredMessage.
Proof. solve_decision. Defined.
#[export] Instance StoredMessage_countable : Countable StoredMessage.
Proof.
  refine (inj_countable'
    (fun m => (sm_message_id m, sm_mailbox m, sm_message m, sm_delivery_status m, sm_received_at m : Z))
    (fun '(i, b, m, d, t) => mkStored _ i b m d t) _). by intros [].
Defined.

(** ** The instances *)

#[export] Instance concrete_capture_env : CaptureEnv := {|
  encode_intent := to_bytes; decode_intent := of_bytes;
  encode_record := to_bytes; decode_record := of_bytes;
  record_chunks r := [as_bytes (rr_key r)] |}.
#[export] Instance concrete_capture_laws : CaptureEnvLaws.
Proof. split; intros; apply of_to_bytes. Qed.

#[export] Instance concrete_mail_env : MailEnv := {|
  message_chunks m := [as_bytes (ms_subject m); flat_map (fun b => [b; x2c]) (default [] (ms_raw_mime m))];
  encode_stored := to_bytes; decode_stored := of_bytes |}.
#[export] Instance concrete_mail_laws : MailEnvLaws.
Proof.
  split; [intros; apply of_to_bytes|]. intros m. simpl. rewrite app_nil_r, length_app.
  destruct (ms_raw_mime m) as [raw|]; simpl; [|lia]. unfold size_of.
  assert (length (flat_map (fun b => [b; x2c]) raw) = 2 * length raw) as ->; [|lia].
  induction raw as [|b raw IH]; simpl; [done|]. rewrite IH. lia.
Qed.

Lemma hex_char a : uuid_chars a = true -> a <> "/"%char.
Proof. by intros Ha ->. Qed.

Lemma hyphenated_suffix n p suffix :
  suffix ∈ [".json"; ".raw"; ".mailbox"] -> Text.ends_with (p +:+ hyphenated n) suffix = false.
Proof.
  intros Hs. pose proof (hyphenated_valid n) as Hv. unfold is_hyphenated in Hv. rewrite !andb_true_iff in Hv.
  destruct Hv as [_ (c & Hl & Hc)%is_some_and_true]. apply not_true_iff_false. unfold Text.ends_with.
  rewrite rev_app_distr. destruct (last_char_rev _ c Hl) as [t ->]. rewrite Text.app_cons.
  intros [x Hx]%Text.starts_with_spec.
  repeat (apply elem_of_cons in Hs as [->|Hs]; [by injection Hx as -> _|]). by apply elem_of_nil in Hs.
Qed.

#[export] Instance concrete_names : NameLaws.
Proof.
  split; [|intros n p suffix; apply hyphenated_suffix]. intros s. simpl. apply not_true_iff_false.
  intros (l & r & Heq)%Text.contains_spec. pose proof (hex_text_chars s) as Hc.
  rewrite Heq, !all_chars_app, !andb_true_iff in Hc. by destruct Hc as (_ & ? & _).
Qed.

(** ** An empty store *)

Definition mail_disk : fs := <[mail_root := Directory]> (<[[] := Directory]> ∅).

Lemma mail_disk_at q e : mail_disk !! q = Some e -> e = Directory /\ (q = [] \/ q = mail_root).
Proof. unfold mail_disk. rewrite !lookup_insert_Some, lookup_empty. naive_solver. Qed.

Lemma mail_disk_None q : q <> [] -> q <> mail_root -> mail_disk !! q = None.
Proof.
  intros Hn Hr. destruct (mail_disk !! q) as [e|] eqn:Hq; [|done].
  apply mail_disk_at in Hq as [_ [?|?]]; done.
Qed.

Lemma mail_disk_deep (q : path) : 1 < length q -> mail_disk !! q = None.
Proof. intros Hl. apply mail_disk_None; intros ->; simpl in Hl; lia. Qed.

Lemma mail_disk_ok : mail_ok mail_disk.
Proof.
  split.
  - split; [|done|..].
    + split; [done| |].
      * intros d n [e [_ [Hq|Hq]]%mail_disk_at]; [by destruct (join_ne_nil d n)|].
        destruct d as [|x d]; [done|]. unfold join in Hq. apply (f_equal length) in Hq. rewrite length_app in Hq. simpl in Hq. lia.
      * by intros p Hp [_ [->| ->]]%mail_disk_at.
    + intros b Hb. by apply mail_disk_at in Hb as [? _].
    + intros q (a & b & -> & _). by rewrite mail_disk_deep by (simpl; lia).
    + intros t b _. by rewrite mail_disk_deep by (simpl; lia).
    + intros t q [Hd _]. apply is_dir_true in Hd. by rewrite mail_disk_deep in Hd by (simpl; lia).
  - intros a b _. by rewrite mail_disk_deep by (simpl; lia).
Qed.

Lemma mail_disk_fresh t : fresh_id t mail_disk.
Proof.
  split; [by apply mail_disk_deep; simpl; lia| |].
  - intros q (a & b & -> & _). apply mail_disk_deep. simpl. lia.
  - intros d id b st (a & -> & _). by rewrite mail_disk_deep by (simpl; lia).
Qed.

(** ** A message *)

Definition sample : Message := {|
  ms_source_protocol := Smtp; ms_from := new_address "bob@example.org";
  ms_to := [new_address "Alice@example.org"]; ms_cc := []; ms_bcc := []; ms_reply_to := [];
  ms_subject := "greetings"; ms_headers := ∅; ms_body_text := Some "hello"; ms_body_html := None;
  ms_attachments := []; ms_user_engagement_tracking_disabled := None; ms_provider_metadata := ∅;
  ms_raw_mime := Some (as_bytes "hello"); ms_thread_id := None |}.

Definition samples : list (string * Message) := [("m1", sample)].

Lemma samples_copies id m mb : (id, m, mb) ∈ copies_of samples -> id = "m1" /\ (mb = "_all" \/ mb = "alice@example.org").
Proof.
  change (copies_of samples) with [("m1", sample, "_all"); ("m1", sample, "alice@example.org")].
  rewrite !elem_of_cons, elem_of_nil. naive_solver.
Qed.

Lemma plain_all : plain_mailbox "_all".
Proof. by split_and!. Qed.
Lemma plain_alice : plain_mailbox "alice@example.org".
Proof. by split_and!. Qed.

Lemma samples_plain : plain_batch samples.
Proof. intros id m mb [_ [->| ->]]%samples_copies; [apply plain_all|apply plain_alice]. Qed.

Lemma samples_no_leftovers : no_leftovers samples mail_disk.
Proof.
  intros id m mb Hin. pose proof (samples_plain _ _ _ Hin) as Hp. destruct (dir_of_dir mail_disk mb Hp) as (a & -> & _).
  apply mail_disk_deep. simpl. lia.
Qed.

(** The store after the sample was captured. *)
Definition captured : fs := (file_capture_batch samples [] (quiet 0) mail_disk).1.2.

Lemma captured_ok : mail_ok captured /\ batch_shown samples mail_disk captured.
Proof.
  destruct (file_capture_batch samples [] (quiet 0) mail_disk) as [[o s'] σ'] eqn:Hrun.
  pose proof (wp_file_capture_batch samples mail_disk mail_disk_ok samples_plain samples_no_leftovers) as Hwp.
  assert (exists r, o = Done r) as [r ->].
  { pose proof (f_equal (fun x => match x.1.1 with Done _ => true | _ => false end) Hrun) as Hd.
    vm_compute in Hd. destruct o; [by eexists|done..]. }
  pose proof (wp_run _ _ _ _ _ _ _ _ _ _ Hwp
    (conj (fun Hx => match diff_true_false Hx with end) (conj (fun n => mail_disk_fresh _) (fun _ => I))) Hrun) as Hr.
  unfold captured. rewrite Hrun. exact Hr.
Qed.

Lemma outcome_parts {A S} (x : outcome A * S * Sched) o : x.1.1 = o -> x = (o, x.1.2, x.2).
Proof. by destruct x as [[o' s] σ]; simpl; intros ->. Qed.

(** ** The journal *)

Definition tx : string := uuid_text 7.
Definition one_file : list (path * bytes) := [(["_mail"; "box"; "m1.json"], as_bytes "hello")].

Lemma one_file_fit : fit (root := mail_root) (Dest := mail_dest) (fun _ => False) tx one_file mail_disk.
Proof.
  split; [done|by apply mail_disk_deep; simpl; lia| | | |]; unfold one_file;
    [intros f ->%list_elem_of_singleton|intros f f' ->%list_elem_of_singleton ->%list_elem_of_singleton|
     intros f ->%list_elem_of_singleton|intros f ->%list_elem_of_singleton].
  - split; [exists ["box"; "m1.json"]; by split_and!|by exists "box", "m1.json"| |by intros []|by intros []|done|done].
    eexists "box", _. split; [reflexivity|done].
  - done.
  - apply mail_disk_deep. simpl. lia.
  - intros q [r Hr]%below_spec. split.
    + destruct q as [|a [|b [|c q]]]; [done|by injection Hr as <- _|by injection Hr as <- <- _|]. 
      by apply (f_equal length) in Hr; rewrite length_app in Hr; simpl in Hr; lia.
    + intros b Hb. by apply mail_disk_at in Hb as [? _].
Qed.

Lemma one_file_vacant : vacant [] one_file mail_disk.
Proof.
  split; [unfold one_file; simpl; apply NoDup_singleton|]. intros f ->%list_elem_of_singleton.
  split; [apply mail_disk_deep; simpl; lia|set_solver].
Qed.

(** The process dies when the file is in place and the marker is not; the next
    start removes it. *)
Definition cut_short : Sched :=
  mkSched (repeat Go 16 ++ [Crash (mkResidue 0 [])]) (fun n => N.of_nat n) (fun _ => 0%Z).
Definition cut : fs := (commit mail_root tx one_file cut_short mail_disk).1.2.
Definition restarted : fs := (recover mail_root (quiet 0) cut).1.2.

Example cut_has_file : cut !! ["_mail"; "box"; "m1.json"] = Some (File (as_bytes "hello")).
Proof. vm_compute. reflexivity. Qed.

Lemma one_file_journal : journal (root := mail_root) (Dest := mail_dest) (fun _ => False) mail_disk.
Proof.
  destruct (mo_journal _ mail_disk_ok) as [J1 J2 J3 J4 J5 J6]. split; [done..|].
  intros t q Hu Hl. split; [by apply (J6 t q)|by intros []].
Qed.

Lemma capture_all_or_nothing_witness :
  ((is_file (marker_path mail_root tx) restarted = true /\
    forall p d, (p, d) ∈ one_file -> restarted !! p = Some (File d)) \/
   (Crashed (A := unit) <> Done tt /\ is_file (marker_path mail_root tx) restarted = false /\
    forall p d, (p, d) ∈ one_file -> restarted !! p = None /\ restarted !! pending_path p tx = None)) /\
  (forall q, False -> restarted !! q = mail_disk !! q) /\
  (forall t, t <> tx -> is_file (marker_path mail_root t) restarted = is_file (marker_path mail_root t) mail_disk) /\
  (sched_ok calm cut_short -> Crashed (A := unit) = Done tt).
Proof.
  refine (capture_all_or_nothing (root := mail_root) (Dest := mail_dest) (fun _ => False) tx one_file mail_disk cut restarted
    cut_short Crashed (commit mail_root tx one_file cut_short mail_disk).2 (quiet 0) (recover mail_root (quiet 0) cut).2 _ _ _ _ _ _).
  - exact one_file_journal.
  - exact one_file_fit.
  - exact one_file_vacant.
  - by intros q [].
  - apply outcome_parts. vm_compute. reflexivity.
  - apply outcome_parts. vm_compute. reflexivity.
Defined.

(** ** Captures *)

Lemma mail_capture_atomic_witness :
  mail_ok captured /\ batch_shown samples mail_disk captured.
Proof.
  destruct (mail_capture_atomic samples mail_disk captured (quiet 0)
    (file_capture_batch samples [] (quiet 0) mail_disk).1.1 (file_capture_batch samples [] (quiet 0) mail_disk).2) as [Hok Hor].
  - exact mail_disk_ok.
  - exact samples_plain.
  - exact samples_no_leftovers.
  - intros n. apply mail_disk_fresh.
  - unfold captured. destruct (file_capture_batch _ _ _ _) as [[? ?] ?]. reflexivity.
  - split; [done|]. destruct Hor as [[_ Hno]|]; [exfalso|done].
    destruct (file_capture_batch samples [] (quiet 0) mail_disk).1.1 as [stored|e|] eqn:Ho; [by apply (Hno stored)|..];
      vm_compute in Ho; discriminate.
Defined.

Lemma get_message_returns_shown_witness :
  exists σ', match shown captured "alice@example.org" "m1" with
             | Some st => file_get_message "alice@example.org" "m1" (quiet 5) captured = (Done st, captured, σ')
             | None => exists e, file_get_message "alice@example.org" "m1" (quiet 5) captured = (Failed e, captured, σ')
             end.
Proof.
  apply (get_message_returns_shown "alice@example.org" "m1" captured (quiet 5)).
  - apply captured_ok.
  - apply plain_alice.
  - reflexivity.
  - apply quiet_calm.
Defined.

(** The sample is the message shown. *)
Example captured_shown :
  (ms_subject ∘ sm_message) <$> shown captured "alice@example.org" "m1" = Some "greetings".
Proof. vm_compute. reflexivity. Qed.

Definition to_all : Message := {|
  ms_source_protocol := Smtp; ms_from := new_address "bob@example.org";
  ms_to := [new_address "_ALL"]; ms_cc := []; ms_bcc := []; ms_reply_to := [];
  ms_subject := "greetings"; ms_headers := ∅; ms_body_text := None; ms_body_html := None;
  ms_attachments := []; ms_user_engagement_tracking_disabled := None; ms_provider_metadata := ∅;
  ms_raw_mime := None; ms_thread_id := None |}.

Lemma all_recipient_never_captured_witness :
  forall stored, (file_capture_batch [("m1", to_all)] [] (quiet 0) mail_disk).1.1 <> Done stored.
Proof.
  apply (all_recipient_never_captured "m1" to_all mail_disk
    (file_capture_batch [("m1", to_all)] [] (quiet 0) mail_disk).1.2 (quiet 0)
    (file_capture_batch [("m1", to_all)] [] (quiet 0) mail_disk).1.1
    (file_capture_batch [("m1", to_all)] [] (quiet 0) mail_disk).2).
  - exact mail_disk_ok.
  - intros id m mb. change (copies_of [("m1", to_all)]) with [("m1", to_all, "_all"); ("m1", to_all, "_all")].
    rewrite !elem_of_cons, elem_of_nil. intros [[= -> -> ->]|[[= -> -> ->]|[]]]; apply plain_all.
  - intros n. apply mail_disk_fresh.
  - change (targets to_all) with ["_all"]. by left.
  - destruct (file_capture_batch _ _ _ _) as [[? ?] ?]. reflexivity.
Defined.

Lemma deleting_journal_hides_captures_witness :
  exists s' σ', file_delete_mailbox TRANSACTIONS (quiet 0) captured = (Done tt, s', σ') /\
    forall mailbox id st, plain_mailbox mailbox -> shown s' mailbox id = Some st -> transaction_of st = "".
Proof.
  apply (deleting_journal_hides_captures captured (quiet 0)).
  - apply captured_ok.
  - vm_compute. reflexivity.
  - apply quiet_calm.
Defined.

(** ** Sessions *)

(** A client that sends these bytes and closes. *)
Definition client (input : bytes) : Session fs := mkSession (mkConn input true None []) mail_disk.

Definition dotted : list bytes := [as_bytes "Subject: dots"; []; as_bytes ".hidden"; as_bytes "..more"; as_bytes "."].

Lemma dotted_no_lf : Forall (fun line => LF ∉ line) dotted.
Proof. repeat constructor; vm_compute; intros Hin; repeat (apply elem_of_cons in Hin as [[=]|Hin]); by apply elem_of_nil in Hin. Qed.

Lemma read_data_is_reference_witness :
  exists lines rest, data_lines (cn_input (se_conn (client (encode_data dotted)))) [] = Some (lines, rest) /\
  read_data 4096 (quiet 0) (client (encode_data dotted)) =
    (if (size_of (payload lines) <=? input_limit 4096)%N then Done (Some (payload lines))
     else Failed (too_large_error 4096), with_input rest (client (encode_data dotted)), quiet 0).
Proof.
  eexists _, []. split; [|apply (read_data_is_reference 4096 (quiet 0) (client (encode_data dotted)))];
    vm_compute; reflexivity.
Defined.

Lemma dot_stuffing_round_trip_witness :
  read_data 4096 (quiet 0) (client (encode_data dotted)) =
    (Done (Some (concat ((fun line => line ++ [LF]) <$> dotted))), with_input [] (client (encode_data dotted)), quiet 0).
Proof.
  apply (dot_stuffing_round_trip 4096 (quiet 0) (client (encode_data dotted)) dotted []).
  - exact dotted_no_lf.
  - by rewrite app_nil_r.
  - vm_compute. discriminate.
Defined.

(** The line of a command. *)
Definition command (text : string) : bytes := as_bytes text ++ [CR; LF].
Definition dialogue (data : bytes) : bytes :=
  concat [command "EHLO client"; command "MAIL FROM:<bob@example.org>"; command "RCPT TO:<alice@example.org>";
          command "DATA"; data; command "QUIT"].
Definition talk : Session fs := client (dialogue (encode_data dotted)).
Definition talked : outcome session_end * Session fs * Sched := handle_session 4096 (quiet 0) talk.

Example talk_replies : cn_sent (se_conn talked.1.2) =
  ["220 sqrzl-emulator SMTP ready"; "250 sqrzl-emulator"; "250 OK"; "250 OK"; DATA_REPLY; ACCEPTED_REPLY; "221 Bye"].
Proof. vm_compute. reflexivity. Qed.

Lemma session_refines_protocol_witness :
  (cn_sent (se_conn talked.1.2) = [] /\ se_store talked.1.2 = mail_disk) \/
  exists replies final p st,
    cn_sent (se_conn talked.1.2) = "220 sqrzl-emulator SMTP ready" :: replies ++ final /\
    exchanges 4096 (Start, mail_disk) replies (p, st) /\ breaks_off 4096 (p, st) final (se_store talked.1.2).
Proof.
  apply (session_refines_protocol 4096 (quiet 0) talk talked.1.2 talked.1.1 talked.2).
  - reflexivity.
  - unfold talked. destruct (handle_session 4096 (quiet 0) talk) as [[? ?] ?]. reflexivity.
Defined.

Definition bob_to_alice : Transaction :=
  mkTransaction (Some (new_address "bob@example.org")) [new_address "alice@example.org"].

Lemma reversed_header_brackets_panic_witness :
  exists s', data_command 4096 true bob_to_alice (quiet 0) (client (encode_data reversed_brackets)) =
      (Done (End Panicked), s', quiet 0) /\ se_store s' = mail_disk /\
    cn_sent (se_conn s') = [] ++ [DATA_REPLY].
Proof.
  apply (reversed_header_brackets_panic 4096 true bob_to_alice (new_address "bob@example.org") (quiet 0)
    (client (encode_data reversed_brackets)) []).
  - reflexivity.
  - discriminate.
  - reflexivity.
  - by rewrite app_nil_r.
  - vm_compute. discriminate.
Defined.

(** A message of five megabytes, more than any copy of it may take. *)
Definition large_line : bytes := replicate (N.to_nat 5000000) x61.
Definition large_lines : list bytes := (fun line => stuff line ++ [CR]) <$> [large_line].
Definition large : Message := {|
  ms_source_protocol := Smtp; ms_from := new_address "bob@example.org";
  ms_to := [new_address "Alice@example.org"]; ms_cc := []; ms_bcc := []; ms_reply_to := [];
  ms_subject := "greetings"; ms_headers := ∅; ms_body_text := None; ms_body_html := None;
  ms_attachments := []; ms_user_engagement_tracking_disabled := None; ms_provider_metadata := ∅;
  ms_raw_mime := Some (payload large_lines); ms_thread_id := None |}.

Lemma large_plain : Forall (fun line => LF ∉ line) [large_line].
Proof.
  repeat constructor. intros Hin. unfold large_line in Hin. apply elem_of_replicate in Hin as [Hx _]. discriminate.
Qed.

Lemma large_read (s : Session fs) :
  cn_input (se_conn s) = encode_data [large_line] ++ [] ->
  read_data MAX_CAPTURE_BYTES (quiet 0) s = (Failed CaptureTooLarge, with_input [] s, quiet 0).
Proof.
  intros Hin. rewrite read_data_run, Hin, data_lines_encoded by apply large_plain. fold large_lines.
  assert (size_of (payload large_lines) = 5000001)%N as ->.
  { unfold large_lines. rewrite payload_encoded. unfold size_of. rewrite fmap_cons, concat_cons, !length_app.
    unfold large_line. rewrite length_replicate. simpl length. lia. }
  reflexivity.
Qed.

Lemma early_rejection_sound_witness : check_messages [large] [] = Err CaptureTooLarge.
Proof.
  apply (early_rejection_sound MAX_CAPTURE_BYTES (quiet 0) (client (encode_data [large_line] ++ []))
    (with_input [] (client (encode_data [large_line] ++ []))) (quiet 0) large_lines [] large "alice@example.org").
  - apply data_lines_encoded, large_plain.
  - by apply large_read.
  - reflexivity.
  - change (targets large) with ["alice@example.org"]. left.
  - discriminate.
Defined.
