(* ===== verification/Http.v ===== *)
(** * Http: requests and responses

    [src/server/http.rs] without routing, the response helpers of
    [src/services/mod.rs] and the error document of [src/utils/xml.rs].  The
    header maps of the [http] crate are a parameter with their documented
    behaviour; a request carries the values parsed from the wire. *)

From Stdlib Require Import Ascii Strings.Byte.
From stdpp Require Import pretty.
From S2P Require Import Prelude Text Models Utf8 FsModel Publication.

(** ** The [http] crate *)

(** [HeaderMap]: names are lower case, values are bytes; [HeaderName::from_str],
    [HeaderValue::from_str] and [HeaderValue::to_str]. *)
Class HttpLib : Type := {
  header_map : Type;
  hm_empty : header_map;
  hm_get : string -> header_map -> option string;
  hm_insert : string -> string -> header_map -> header_map;
  hm_entries : header_map -> list (string * string);
  header_name : string -> option string;
  header_value : string -> bool;
  to_str : string -> bool }.

Fixpoint all_of (p : N -> bool) (s : string) : bool :=
  match s with EmptyString => true | String a s' => p (N_of_ascii a) && all_of p s' end.
Definition letter_or_hyphen (b : N) : bool :=
  (((65 <=? b) && (b <=? 90)) || ((97 <=? b) && (b <=? 122)) || ((48 <=? b) && (b <=? 57)) || (b =? 45))%N.
Definition visible_ascii (b : N) : bool := ((32 <=? b) && (b <? 127))%N.

(** Names made of letters, digits and hyphens are valid and compared in lower
    case; visible ASCII text is a valid value. *)
Class HttpLaws `{HttpLib} : Prop := {
  hm_get_empty : forall n, hm_get n hm_empty = None;
  hm_get_insert : forall n v m, hm_get n (hm_insert n v m) = Some v;
  hm_get_insert_ne : forall n n' v m, n <> n' -> hm_get n' (hm_insert n v m) = hm_get n' m;
  header_name_lower : forall n n', header_name n = Some n' -> n' = Text.to_ascii_lowercase n;
  header_name_letters : forall n, n <> "" -> all_of letter_or_hyphen n = true ->
    header_name n = Some (Text.to_ascii_lowercase n);
  header_value_visible : forall v, all_of visible_ascii v = true -> header_value v = true }.

Section Http.
Context `{HttpLib}.

(** ** Requests *)

(** A body on disk, with the digests taken while it was written. *)
Record SpooledPayload : Type := mkSpooled {
  sp_path : path;
  sp_len : N;
  sp_md5 : bytes;
  sp_sha256_hex : string;
  sp_sha1 : bytes;
  sp_crc32 : N;
  sp_crc32c : N;
  sp_crc64_nvme : N }.

Record Request : Type := mkRequest {
  rq_method : string;
  rq_path : string;
  rq_query : option string;
  rq_headers : header_map;
  rq_body : bytes;
  rq_query_params : strmap;
  rq_spooled_body : option SpooledPayload }.

(** [headers.get(name).and_then(|h| h.to_str().ok())] *)
Definition header (req : Request) (name : string) : option string :=
  value ← hm_get (Text.to_ascii_lowercase name) (rq_headers req);
  if to_str value then Some value else None.

Definition query_param (req : Request) (name : string) : option string := rq_query_params req !! name.
Definition has_query_param (req : Request) (name : string) : bool := is_some (query_param req name).

(** [HttpRequestLike::headers] *)
Definition request_headers (req : Request) : list (string * string) :=
  filter (fun e => to_str e.2 = true) (hm_entries (rq_headers req)).

(** [extract_metadata_from_http_headers]: a later value replaces an earlier one. *)
Definition extract_metadata (req : Request) : strmap :=
  foldl (fun metadata e =>
    match Text.strip_prefix e.1 "x-amz-meta-" with
    | Some key => <[key := e.2]> metadata
    | None => metadata
    end) ∅ (request_headers req).

(** ** Responses *)

Record ResponseBuilder : Type := mkBuilder { rb_status : N; rb_headers : header_map; rb_body : bytes }.

Record Response : Type := mkResponse { rs_status : N; rs_headers : header_map; rs_body : bytes }.

Definition new_builder (status : N) : ResponseBuilder := mkBuilder status hm_empty [].

Definition with_header (name value : string) (b : ResponseBuilder) : ResponseBuilder :=
  match header_name name with
  | Some n => if header_value value
              then mkBuilder (rb_status b) (hm_insert n value (rb_headers b)) (rb_body b) else b
  | None => b
  end.

Definition with_content_type (ct : string) (b : ResponseBuilder) : ResponseBuilder := with_header "content-type" ct b.
Definition with_body (body : bytes) (b : ResponseBuilder) : ResponseBuilder :=
  mkBuilder (rb_status b) (rb_headers b) body.

Definition build (b : ResponseBuilder) : Response :=
  let headers := match rb_body b with
                 | [] => rb_headers b
                 | _ :: _ => match hm_get "content-length" (rb_headers b) with
                             | Some _ => rb_headers b
                             | None => hm_insert "content-length" (pretty (size_of (rb_body b))) (rb_headers b)
                             end
                 end in
  mkResponse (rb_status b) headers (rb_body b).

(** The body of the builder is not sent. *)
Definition empty (b : ResponseBuilder) : Response := mkResponse (rb_status b) (rb_headers b) [].

(** ** Error documents *)

Definition QUOT : ascii := "034".
Definition quoted (s : string) : string := String QUOT s +:+ String QUOT "".

Definition xml_declaration : string :=
  "<?xml version=" +:+ quoted "1.0" +:+ " encoding=" +:+ quoted "UTF-8" +:+ "?>".

Definition escape_char (a : ascii) : string :=
  if eqb a "&"%char then "&amp;"
  else if eqb a "<"%char then "&lt;"
  else if eqb a ">"%char then "&gt;"
  else if eqb a QUOT then "&quot;"
  else if eqb a "'"%char then "&apos;"
  else String a "".

Fixpoint escape_xml (s : string) : string :=
  match s with
  | EmptyString => EmptyString
  | String a rest => escape_char a +:+ escape_xml rest
  end.

Definition NL : string := String "010" "".

Definition error_xml_with_host_id (code message request_id host_id : string) : string :=
  let host := if Text.is_empty host_id then ""
              else NL +:+ "  <HostId>" +:+ escape_xml host_id +:+ "</HostId>" in
  xml_declaration +:+ NL +:+
  "<Error>" +:+ NL +:+
  "  <Code>" +:+ escape_xml code +:+ "</Code>" +:+ NL +:+
  "  <Message>" +:+ escape_xml message +:+ "</Message>" +:+ NL +:+
  "  <RequestId>" +:+ escape_xml request_id +:+ "</RequestId>" +:+ host +:+ NL +:+
  "</Error>".

Section Services.
Context `{Env} {S : Type}.

Definition generate_request_id : io S string := new_uuid.

Definition xml_error_response (status : N) (error_code message req_id : string) : io S Response :=
  host_id ← generate_request_id;
  let xml := error_xml_with_host_id error_code message req_id host_id in
  mret (build (with_body (as_bytes xml)
    (with_header "x-amz-id-2" host_id
      (with_header "x-amz-request-id" req_id
        (with_content_type "application/xml; charset=utf-8" (new_builder status)))))).

Definition storage_error_response (e : Error) (req_id : string) : io S Response :=
  xml_error_response (status_code e) (error_code e) (display e) req_id.

(** [x-amz-request-id] and [x-amz-id-2] on a builder *)
Definition add_ids (req_id : string) (b : ResponseBuilder) : io S ResponseBuilder :=
  host_id ← generate_request_id;
  mret (with_header "x-amz-id-2" host_id (with_header "x-amz-request-id" req_id b)).

End Services.
End Http.
