(* ===== verification/Cors.v ===== *)
(** * Cors: [src/server/handlers/cors.rs]

    The rules of a bucket's CORS document and the headers they add to a
    response.  The XML reader of [quick_xml] is a parameter: the events of a
    document in order, up to its end or the first error. *)

From Stdlib Require Import Ascii.
From S2P Require Import Prelude Text Models Utf8 FsModel Publication Http.

(** ** The [quick_xml] crate *)

Inductive XmlEvent : Type :=
| XStart (name : string)
| XEnd (name : string)
| XText (raw : string)
| XCData (raw : string)
| XRef (name : string)
| XEmpty (name : string)
| XComment
| XOther
| XError (message : string).

(** [Reader::from_str] with [trim_text(true)], which reports an entity inside a
    text as an event of its own, and [escape::unescape].  [XComment] is a comment
    or the declaration, [XOther] a processing instruction or a DOCTYPE. *)
Class QuickXml : Type := {
  xml_events : string -> list XmlEvent;
  unescape : string -> result string string }.

Definition S3_CORS_XML_KEY : string := "s3_cors_xml".

Record CorsRule : Type := mkCorsRule {
  cr_allowed_origins : list string;
  cr_allowed_methods : list string;
  cr_allowed_headers : list string;
  cr_expose_headers : list string;
  cr_max_age_seconds : option string }.
Definition default_cors_rule : CorsRule := mkCorsRule [] [] [] [] None.

Inductive CorsField : Type := AllowedOrigin | AllowedMethod | AllowedHeader | ExposeHeader | MaxAgeSeconds.

(** ** The document *)

Definition field_of (name : string) : option CorsField :=
  if eqb name "AllowedOrigin" then Some AllowedOrigin
  else if eqb name "AllowedMethod" then Some AllowedMethod
  else if eqb name "AllowedHeader" then Some AllowedHeader
  else if eqb name "ExposeHeader" then Some ExposeHeader
  else if eqb name "MaxAgeSeconds" then Some MaxAgeSeconds
  else None.

Definition add_value (field : CorsField) (value : string) (r : CorsRule) : CorsRule :=
  match field with
  | AllowedOrigin => mkCorsRule (cr_allowed_origins r ++ [value]) (cr_allowed_methods r)
      (cr_allowed_headers r) (cr_expose_headers r) (cr_max_age_seconds r)
  | AllowedMethod => mkCorsRule (cr_allowed_origins r) (cr_allowed_methods r ++ [value])
      (cr_allowed_headers r) (cr_expose_headers r) (cr_max_age_seconds r)
  | AllowedHeader => mkCorsRule (cr_allowed_origins r) (cr_allowed_methods r)
      (cr_allowed_headers r ++ [value]) (cr_expose_headers r) (cr_max_age_seconds r)
  | ExposeHeader => mkCorsRule (cr_allowed_origins r) (cr_allowed_methods r)
      (cr_allowed_headers r) (cr_expose_headers r ++ [value]) (cr_max_age_seconds r)
  | MaxAgeSeconds => mkCorsRule (cr_allowed_origins r) (cr_allowed_methods r)
      (cr_allowed_headers r) (cr_expose_headers r) (Some value)
  end.

Section Document.
Context `{QuickXml}.

Fixpoint collect_rules (events : list XmlEvent) (rules : list CorsRule) (current_rule : option CorsRule)
    (current_field : option CorsField) : Res (list CorsRule) :=
  match events with
  | [] => Ok rules
  | XStart name :: rest =>
      if eqb name "CORSRule" then collect_rules rest rules (Some default_cors_rule) current_field
      else match field_of name with
           | Some field => collect_rules rest rules current_rule (Some field)
           | None => collect_rules rest rules current_rule current_field
           end
  | XEnd name :: rest =>
      if eqb name "CORSRule" then collect_rules rest (rules ++ option_list current_rule) None current_field
      else match field_of name with
           | Some _ => collect_rules rest rules current_rule None
           | None => collect_rules rest rules current_rule current_field
           end
  | XText raw :: rest =>
      match current_rule with
      | None => collect_rules rest rules None current_field
      | Some rule =>
          value ← map_err InvalidRequest (unescape raw);
          collect_rules rest rules
            (Some (match current_field with Some field => add_value field value rule | None => rule end)) current_field
      end
  | (XCData _ | XRef _ | XEmpty _ | XComment | XOther) :: rest => collect_rules rest rules current_rule current_field
  | XError message :: _ => Err (InvalidRequest ("Invalid CORS XML: " +:+ message))
  end.

Definition parse_cors_rules (xml : string) : Res (list CorsRule) := collect_rules (xml_events xml) [] None None.

(** ** Matching *)

Definition allowed_origin (rule : CorsRule) (origin : string) : option string :=
  if existsb (fun value => eqb value "*") (cr_allowed_origins rule) then Some "*"
  else if existsb (fun value => Text.eq_ignore_ascii_case value origin) (cr_allowed_origins rule) then Some origin
  else None.

Definition allows_method (rule : CorsRule) (method : string) : bool :=
  existsb (fun value => Text.eq_ignore_ascii_case value method ||
    (Text.eq_ignore_ascii_case method "HEAD" && Text.eq_ignore_ascii_case value "GET")) (cr_allowed_methods rule).

Definition allows_headers (rule : CorsRule) (requested_headers : option string) : bool :=
  match requested_headers with
  | None => true
  | Some requested =>
      Text.is_empty (Text.trim requested)
      || existsb (fun value => eqb value "*") (cr_allowed_headers rule)
      || forallb (fun h =>
           let h := Text.trim h in
           negb (Text.is_empty h)
           && existsb (fun allowed => Text.eq_ignore_ascii_case allowed h) (cr_allowed_headers rule))
         (Text.split "," requested)
  end.

Fixpoint first_match (rules : list CorsRule) (origin method : string) (requested_headers : option string)
    : option (CorsRule * string) :=
  match rules with
  | [] => None
  | rule :: rest =>
      match allowed_origin rule origin with
      | None => first_match rest origin method requested_headers
      | Some allow_origin =>
          if negb (allows_method rule method) then first_match rest origin method requested_headers
          else if negb (allows_headers rule requested_headers) then first_match rest origin method requested_headers
          else Some (rule, allow_origin)
      end
  end.

Definition matching_rule_from_xml (cors_xml origin method : string) (requested_headers : option string)
    : option (CorsRule * string) :=
  match parse_cors_rules cors_xml with
  | Ok rules => first_match rules origin method requested_headers
  | Err _ => None
  end.

(** ** Headers *)

Context `{HttpLib}.

Fixpoint join_comma (l : list string) : string :=
  match l with
  | [] => ""
  | [a] => a
  | a :: rest => a +:+ ", " +:+ join_comma rest
  end.

Definition apply_rule_headers (builder : ResponseBuilder) (rule : CorsRule) (allow_origin : string)
    (requested_headers : option string) (preflight : bool) : ResponseBuilder :=
  let b1 := with_header "Access-Control-Allow-Origin" allow_origin builder in
  let b2 := if eqb allow_origin "*" then b1 else with_header "Vary" "Origin" b1 in
  if preflight then
    let b3 := with_header "Access-Control-Allow-Methods" (join_comma (cr_allowed_methods rule)) b2 in
    let b4 :=
      match requested_headers with
      | Some headers =>
          if negb (Text.is_empty (Text.trim headers)) then with_header "Access-Control-Allow-Headers" headers b3
          else match cr_allowed_headers rule with
               | [] => b3
               | l => with_header "Access-Control-Allow-Headers" (join_comma l) b3
               end
      | None => match cr_allowed_headers rule with
                | [] => b3
                | l => with_header "Access-Control-Allow-Headers" (join_comma l) b3
                end
      end in
    match cr_max_age_seconds rule with
    | Some max_age => with_header "Access-Control-Max-Age" max_age b4
    | None => b4
    end
  else match cr_expose_headers rule with
       | [] => b2
       | l => with_header "Access-Control-Expose-Headers" (join_comma l) b2
       end.

Definition is_preflight (req : Request) : bool :=
  eqb (rq_method req) "OPTIONS" && is_some (header req "origin")
  && is_some (header req "access-control-request-method").

Definition apply_actual_request_headers_from_xml (req : Request) (builder : ResponseBuilder) (cors_xml : string)
    : ResponseBuilder :=
  match header req "origin" with
  | None => builder
  | Some origin =>
      match matching_rule_from_xml cors_xml origin (rq_method req) None with
      | Some (rule, allow_origin) => apply_rule_headers builder rule allow_origin None false
      | None => builder
      end
  end.

Section Store.
Context {S : Type} (get_bucket : string -> io S Bucket).

Definition load_rules (bucket : string) : io S (list CorsRule) :=
  b ← get_bucket bucket;
  match b_metadata b !! S3_CORS_XML_KEY with
  | None => mret []
  | Some xml => of_res (parse_cors_rules xml)
  end.

Definition matching_rule (bucket origin method : string) (requested_headers : option string)
    : io S (option (CorsRule * string)) :=
  rules ← attempt (load_rules bucket);
  mret (match rules with
        | Ok rules => first_match rules origin method requested_headers
        | Err _ => None
        end).

Definition apply_actual_request_headers (bucket : string) (req : Request) (builder : ResponseBuilder)
    : io S ResponseBuilder :=
  match header req "origin" with
  | None => mret builder
  | Some origin =>
      m ← matching_rule bucket origin (rq_method req) None;
      mret (match m with
            | Some (rule, allow_origin) => apply_rule_headers builder rule allow_origin None false
            | None => builder
            end)
  end.

Definition preflight_response (bucket : string) (req : Request) (req_id : string) : io S Response :=
  let refused := empty (with_header "x-amz-request-id" req_id (new_builder 403)) in
  match header req "origin", header req "access-control-request-method" with
  | Some origin, Some requested_method =>
      let requested_headers := header req "access-control-request-headers" in
      m ← matching_rule bucket origin requested_method requested_headers;
      mret (match m with
            | Some (rule, allow_origin) =>
                empty (apply_rule_headers (with_header "x-amz-request-id" req_id (new_builder 200))
                         rule allow_origin requested_headers true)
            | None => refused
            end)
  | _, _ => mret refused
  end.

End Store.
End Document.
