(* ===== verification/Checksums.v ===== *)
(** * Checksums: [src/server/handlers/object/checksums.rs]

    Admission of a put by the checksum headers of its request, and the checksums
    kept with an object.  The digest and base64 crates are parameters. *)

From Stdlib Require Import Ascii Strings.Byte.
From S2P Require Import Prelude Text Models Utf8 FsModel Publication Http.

(** Digests of a buffered body ([md5], [sha1], [sha2], [crc32fast], [crc32c],
    [crc64fast_nvme]), [to_be_bytes], [hex::decode],
    [hex::encode] and standard base64. *)
Class PayloadDigests : Type := {
  md5_digest : bytes -> bytes;
  sha1_digest : bytes -> bytes;
  sha256_digest : bytes -> bytes;
  crc32_hash : bytes -> N;
  crc32c_hash : bytes -> N;
  crc64_nvme_hash : bytes -> N;
  be_bytes : nat -> N -> bytes;
  hex_decode : string -> option bytes;
  hex_encode : bytes -> string;
  base64_encode : bytes -> string;
  base64_decode : string -> option bytes }.

Class Base64Laws `{PayloadDigests} : Prop := {
  base64_decode_encode : forall b, base64_decode (base64_encode b) = Some b }.

(** [(algorithm, suffix of its header)] *)
Definition ALGORITHMS : list (string * string) :=
  [("CRC32", "crc32"); ("CRC32C", "crc32c"); ("CRC64NVME", "crc64nvme");
   ("SHA1", "sha1"); ("SHA256", "sha256"); ("MD5", "md5")].

Section Checksums.
Context `{HttpLib} `{PayloadDigests}.

(** *** Digests of a payload, from the spool when there is one *)

Definition payload_len (req : Request) : N :=
  match rq_spooled_body req with Some p => sp_len p | None => size_of (rq_body req) end.
Definition payload_md5 (req : Request) : bytes :=
  match rq_spooled_body req with Some p => sp_md5 p | None => md5_digest (rq_body req) end.
(** 32 bytes, zeros when the recorded text is no digest. *)
Definition payload_sha256 (req : Request) : bytes :=
  match rq_spooled_body req with
  | Some p => let decoded := default [] (hex_decode (sp_sha256_hex p)) in
              if Nat.eqb (length decoded) 32 then decoded else repeat x00 32
  | None => sha256_digest (rq_body req)
  end.
Definition payload_sha1 (req : Request) : bytes :=
  match rq_spooled_body req with Some p => sp_sha1 p | None => sha1_digest (rq_body req) end.
Definition payload_crc32 (req : Request) : N :=
  match rq_spooled_body req with Some p => sp_crc32 p | None => crc32_hash (rq_body req) end.
Definition payload_crc32c (req : Request) : N :=
  match rq_spooled_body req with Some p => sp_crc32c p | None => crc32c_hash (rq_body req) end.
Definition payload_crc64_nvme (req : Request) : N :=
  match rq_spooled_body req with Some p => sp_crc64_nvme p | None => crc64_nvme_hash (rq_body req) end.

(** Only the supported algorithms have digests. *)
Definition digest (req : Request) (algorithm : string) : bytes :=
  if eqb algorithm "CRC32" then be_bytes 4 (payload_crc32 req)
  else if eqb algorithm "CRC32C" then be_bytes 4 (payload_crc32c req)
  else if eqb algorithm "CRC64NVME" then be_bytes 8 (payload_crc64_nvme req)
  else if eqb algorithm "SHA1" then payload_sha1 req
  else if eqb algorithm "SHA256" then payload_sha256 req
  else if eqb algorithm "MD5" then payload_md5 req
  else [].

(** *** Admission *)

Definition CHECKSUM_PREFIX : string := "x-amz-checksum-".

Definition aws_chunked (req : Request) : bool :=
  is_some_and (fun value => existsb (fun part => Text.eq_ignore_ascii_case (Text.trim part) "aws-chunked")
                              (Text.split "," value)) (header req "content-encoding").
Definition streaming_signature (req : Request) : bool :=
  is_some_and (fun value => Text.starts_with value "STREAMING-") (header req "x-amz-content-sha256").

Definition requested (req : Request) : bool :=
  existsb (fun e => Text.starts_with e.1 CHECKSUM_PREFIX) (hm_entries (rq_headers req))
  || is_some (header req "x-amz-sdk-checksum-algorithm")
  || is_some (header req "x-amz-trailer")
  || aws_chunked req
  || streaming_signature req.

Definition unsupported_variant (req : Request) : bool :=
  is_some (header req "x-amz-trailer") || aws_chunked req || streaming_signature req
  || existsb (fun e => Text.starts_with e.1 CHECKSUM_PREFIX
       && negb (existsb (fun a => eqb e.1 (CHECKSUM_PREFIX +:+ a.2)) ALGORITHMS)) (hm_entries (rq_headers req)).

(** [headers.get_all(name).iter().count()] *)
Definition occurrences (name : string) (req : Request) : nat :=
  length (filter (fun e => e.1 = name) (hm_entries (rq_headers req))).

Definition supplied (req : Request) : list (string * string) :=
  omap (fun a => (fun value => (a.1, value)) <$> header req (CHECKSUM_PREFIX +:+ a.2)) ALGORITHMS.

(** An answer, by status, code and message. *)
Definition refusal_of : Type := N * string * string.

Definition UNSUPPORTED : refusal_of :=
  (501%N, "NotImplemented", "This S3 checksum algorithm, multipart, copy, or trailer variant is not supported by this emulator subset.").

Fixpoint check_headers (req : Request) (entries : list (string * string)) : option refusal_of :=
  match entries with
  | [] => None
  | (name, value) :: rest =>
      if Text.starts_with name CHECKSUM_PREFIX || eqb name "x-amz-sdk-checksum-algorithm" then
        if negb (Nat.eqb (occurrences name req) 1)
        then Some (400%N, "InvalidRequest", "Checksum headers must occur once.")
        else if negb (to_str value)
        then Some (400%N, "InvalidDigest", "Checksum headers must be ASCII.")
        else check_headers req rest
      else check_headers req rest
  end.

Definition check_declared (req : Request) (declared : option string) (given : list (string * string)) : option refusal_of :=
  match declared with
  | None => None
  | Some declared =>
      match given with
      | [] => Some (400%N, "InvalidRequest", "The SDK checksum algorithm requires its corresponding checksum header.")
      | (algorithm, _) :: _ =>
          if eqb algorithm declared then None
          else Some (400%N, "BadDigest", "The checksum header does not match the SDK checksum algorithm.")
      end
  end.

Fixpoint check_digests (req : Request) (given : list (string * string)) : option refusal_of :=
  match given with
  | [] => None
  | (algorithm, value) :: rest =>
      let expected := digest req algorithm in
      match base64_decode value with
      | Some decoded =>
          if Nat.eqb (length decoded) (length expected) then
            if eqb decoded expected then check_digests req rest
            else Some (400%N, "BadDigest", "The checksum does not match the request payload.")
          else Some (400%N, "InvalidDigest", "The checksum is not a valid Base64 digest for the selected algorithm.")
      | None => Some (400%N, "InvalidDigest", "The checksum is not a valid Base64 digest for the selected algorithm.")
      end
  end.

(** The decision of [validate_put]. *)
Definition put_refusal (req : Request) : option refusal_of :=
  if unsupported_variant req then Some UNSUPPORTED
  else
    match check_headers req (hm_entries (rq_headers req)) with
    | Some r => Some r
    | None =>
        let declared := header req "x-amz-sdk-checksum-algorithm" in
        if is_some_and (fun algorithm => negb (existsb (fun a => eqb a.1 algorithm) ALGORITHMS)) declared
        then Some UNSUPPORTED
        else
          let given := supplied req in
          if Nat.ltb 1 (length given)
          then Some (400%N, "InvalidRequest", "Only one additional checksum algorithm may be supplied.")
          else match check_declared req declared given with
               | Some r => Some r
               | None => check_digests req given
               end
    end.

Section Answers.
Context `{Env} {S : Type}.

Definition answer (r : refusal_of) (req_id : string) : io S Response :=
  let '(status, code, message) := r in xml_error_response status code message req_id.

Definition validate_put (req : Request) (req_id : string) : io S (option Response) :=
  match put_refusal req with
  | Some r => response ← answer r req_id; mret (Some response)
  | None => mret None
  end.
End Answers.

(** *** The checksums of an object *)

Definition set_provider (m : strmap) (o : Object) : Object :=
  mkObject (o_key o) (o_data o) (o_size o) (o_etag o) (o_content_type o) (o_last_modified o) (o_version_id o)
    (o_storage_class o) (o_metadata o) (o_tags o) (o_acl o) m.

Definition replace_identity (req : Request) (o : Object) : Object :=
  let kept := filter (fun e => Text.starts_with e.1 "s3_checksum_" = false) (o_provider_metadata o) in
  set_provider (foldl (fun m a =>
    if is_some (header req (CHECKSUM_PREFIX +:+ a.2))
    then <["s3_checksum_type" := "FULL_OBJECT"]>
           (<["s3_checksum_" +:+ a.2 := base64_encode (digest req a.1)]> m)
    else m) kept ALGORITHMS) o.

Definition response_headers (builder : ResponseBuilder) (o : Object) : ResponseBuilder :=
  let b := foldl (fun b a =>
    match o_provider_metadata o !! ("s3_checksum_" +:+ a.2) with
    | Some value => with_header (CHECKSUM_PREFIX +:+ a.2) value b
    | None => b
    end) builder ALGORITHMS in
  match o_provider_metadata o !! "s3_checksum_type" with
  | Some value => with_header "x-amz-checksum-type" value b
  | None => b
  end.

Definition retrieval_headers (builder : ResponseBuilder) (req : Request) (o : Object) : ResponseBuilder :=
  if eqb (header req "x-amz-checksum-mode") (Some "ENABLED") && is_none (header req "range")
  then response_headers builder o else builder.

End Checksums.
