(* ===== verification/ObjectHelpers.v ===== *)
(** * ObjectHelpers: [src/server/handlers/object/helpers.rs]

    Ranges, entity tags and preconditions of S3 object requests, the headers of
    an object's response, and the encryption and object-lock contracts.  The
    percent decoding of [urlencoding] and the date formats of [chrono] are
    parameters. *)

From Stdlib Require Import Ascii.
From S2P Require Import Prelude Text Models Utf8 FsModel Publication Lifecycle LifecycleExecutor Http Checksums.

Class HelperEnv : Type := {
  url_decode : string -> result string string;
  http_date : time -> string;
  to_rfc3339 : time -> string }.

(** ** Tables *)

Definition CONTENT_PROPERTIES : list (string * string) :=
  [("cache-control", "s3_cache_control"); ("content-encoding", "s3_content_encoding");
   ("content-language", "s3_content_language"); ("content-disposition", "s3_content_disposition")].

Definition S3_SSE_MODE_KEY : string := "s3_sse_mode".
Definition S3_SSE_KMS_KEY_ID : string := "s3_sse_kms_key_id".
Definition S3_SSE_C_ALGORITHM_KEY : string := "s3_sse_c_algorithm".
Definition S3_SSE_C_KEY_MD5_KEY : string := "s3_sse_c_key_md5".
Definition S3_OBJECT_LOCK_MODE_KEY : string := "s3_object_lock_mode".
Definition S3_OBJECT_LOCK_UNTIL_KEY : string := "s3_object_lock_until".
Definition S3_OBJECT_LOCK_LEGAL_HOLD_KEY : string := "s3_object_lock_legal_hold".

(** The provider metadata of an object, changed. *)
Definition with_provider (f : strmap -> strmap) (o : Object) : Object := set_provider (f (o_provider_metadata o)) o.

(** ** Ranges *)

Definition parse_range (range_header : string) : option (N * option N) :=
  range ← Text.strip_prefix range_header "bytes=";
  parts ← Text.split_once "-" range;
  start ← Text.parse_u64 parts.1;
  Some (start, match Text.strip_prefix parts.2 " " with
               | Some end_str => Text.parse_u64 end_str
               | None => Text.parse_u64 parts.2
               end).

(** ** Entity tags *)

Definition trim_quotes (s : string) : string := Text.trim_end_matches (Text.drop_leading QUOT s) QUOT.

Definition normalize_weak_etag (value : string) : string :=
  let value := Text.trim value in
  trim_quotes (default value (Text.strip_prefix value "W/")).

Definition normalize_strong_etag (value : string) : option string :=
  let value := Text.trim value in
  if Text.starts_with value "W/" then None else Some (trim_quotes value).

Definition quoted_etag (value : string) : string := quoted (normalize_weak_etag value).

Definition strong_etag_list_matches (header_value etag : string) : bool :=
  match normalize_strong_etag etag with
  | None => false
  | Some normalized =>
      existsb (fun candidate => eqb (Text.trim candidate) "*"
        || is_some_and (fun c => eqb c normalized) (normalize_strong_etag candidate)) (Text.split "," header_value)
  end.

Definition weak_etag_list_matches (header_value etag : string) : bool :=
  let normalized := normalize_weak_etag etag in
  existsb (fun candidate => eqb (normalize_weak_etag candidate) "*" || eqb (normalize_weak_etag candidate) normalized)
    (Text.split "," header_value).

(** ** Tags *)

Fixpoint collect_tags `{HelperEnv} (pairs : list string) (tags : strmap) : result string strmap :=
  match pairs with
  | [] => Ok tags
  | item :: rest =>
      if Text.is_empty item then collect_tags rest tags
      else
        kv ← ok_or "Invalid tagging format" (Text.split_once "=" item);
        key ← url_decode kv.1;
        value ← url_decode kv.2;
        collect_tags rest (<[key := value]> tags)
  end.

Section Helpers.
Context `{HttpLib} `{HelperEnv} `{Chrono}.

Definition parse_tagging_header (tag_header : string) : result string strmap :=
  collect_tags (Text.split "&" tag_header) ∅.

Definition parse_optional_tagging_header (req : Request) : result string (option strmap) :=
  match header req "x-amz-tagging" with
  | None => Ok None
  | Some value => Some <$> parse_tagging_header value
  end.

(** ** Conditions for the store *)

Definition if_match_condition (value : string) : ObjectCondition :=
  if eqb (Text.trim value) "*" then EtagNotIn []
  else EtagIn (omap normalize_strong_etag (Text.split "," value)).

Definition mutation_condition (req : Request) : option ObjectCondition :=
  match header req "if-match" with
  | Some value => Some (if_match_condition value)
  | None =>
      (fun value => if eqb (Text.trim value) "*" then Missing
                    else MissingOrEtagNotIn (normalize_weak_etag <$> Text.split "," value)) <$> header req "if-none-match"
  end.

Definition mutation_if_match_condition (req : Request) : option ObjectCondition :=
  if_match_condition <$> header req "if-match".

(** ** Preconditions *)

(** What a precondition answers. *)
Inductive verdict : Type := Proceed | NotModified | Failed412 | Missing404.

(** [if let Ok(since) = parse_from_rfc2822(value)] *)
Definition modified_after (o : Object) (value : string) : option bool :=
  (fun since => (since <? o_last_modified o)%Z) <$> parse_rfc2822 value.

Definition object_verdict (req : Request) (o : Object) : verdict :=
  if is_some_and (fun v => negb (strong_etag_list_matches v (o_etag o))) (header req "if-match") then Failed412
  else if is_some_and (fun v => is_some_and id (modified_after o v)) (header req "if-unmodified-since") then Failed412
  else if is_some_and (fun v => weak_etag_list_matches v (o_etag o)) (header req "if-none-match") then NotModified
  else if is_some_and (fun v => is_some_and negb (modified_after o v)) (header req "if-modified-since") then NotModified
  else Proceed.

Definition put_verdict (req : Request) (existing : option Object) : verdict :=
  match existing with
  | Some o =>
      if is_some_and (fun v => negb (strong_etag_list_matches v (o_etag o))) (header req "if-match") then Failed412
      else if is_some_and (fun v => is_some_and id (modified_after o v)) (header req "if-unmodified-since") then Failed412
      else if is_some_and (fun v => weak_etag_list_matches v (o_etag o)) (header req "if-none-match") then Failed412
      else Proceed
  | None => if is_some (header req "if-match") then Missing404 else Proceed
  end.

Definition copy_verdict (req : Request) (o : Object) : verdict :=
  let if_match := header req "x-amz-copy-source-if-match" in
  let satisfied := is_some_and (fun v => strong_etag_list_matches v (o_etag o)) if_match in
  if is_some_and (fun v => negb (strong_etag_list_matches v (o_etag o))) if_match then Failed412
  else if is_some_and (fun v => weak_etag_list_matches v (o_etag o)) (header req "x-amz-copy-source-if-none-match") then Failed412
  else if is_some_and (fun v => is_some_and negb (modified_after o v)) (header req "x-amz-copy-source-if-modified-since") then Failed412
  else if negb satisfied
          && is_some_and (fun v => is_some_and id (modified_after o v)) (header req "x-amz-copy-source-if-unmodified-since")
       then Failed412
  else Proceed.

(** ** Object lock *)

Definition object_is_locked (now : time) (o : Object) : bool :=
  is_some_and (fun value => Text.eq_ignore_ascii_case value "ON") (o_provider_metadata o !! S3_OBJECT_LOCK_LEGAL_HOLD_KEY)
  || is_some_and (fun until => (now <? until)%Z) (o_provider_metadata o !! S3_OBJECT_LOCK_UNTIL_KEY ≫= parse_lock_timestamp).

Definition clear_object_lock_metadata : Object -> Object :=
  with_provider (fun m => delete S3_OBJECT_LOCK_LEGAL_HOLD_KEY
    (delete S3_OBJECT_LOCK_UNTIL_KEY (delete S3_OBJECT_LOCK_MODE_KEY m))).

(** ** Content properties, encryption and lock headers of a put *)

Definition replace_content_properties (req : Request) : Object -> Object :=
  with_provider (fun m => foldl (fun m p =>
    match header req p.1 with
    | Some value => <[p.2 := value]> (delete p.2 m)
    | None => delete p.2 m
    end) m CONTENT_PROPERTIES).

Definition apply_sse (req : Request) (m : strmap) : result refusal_of strmap :=
  match header req "x-amz-server-side-encryption" with
  | None => Ok m
  | Some mode =>
      if negb (eqb mode "AES256") && negb (eqb mode "aws:kms")
      then Err (400%N, "InvalidArgument", "Unsupported server-side encryption mode")
      else
        let m := <[S3_SSE_MODE_KEY := mode]> m in
        Ok (if eqb mode "aws:kms" then
              match header req "x-amz-server-side-encryption-aws-kms-key-id" with
              | Some key_id => <[S3_SSE_KMS_KEY_ID := key_id]> m
              | None => m
              end
            else delete S3_SSE_KMS_KEY_ID m)
  end.

Definition apply_sse_c (req : Request) (m : strmap) : result refusal_of strmap :=
  let algorithm := header req "x-amz-server-side-encryption-customer-algorithm" in
  let key := header req "x-amz-server-side-encryption-customer-key" in
  let md5 := header req "x-amz-server-side-encryption-customer-key-MD5" in
  if is_some algorithm || is_some key || is_some md5 then
    if is_none algorithm || is_none key || is_none md5
    then Err (400%N, "InvalidRequest", "SSE-C requests must include algorithm, key, and key MD5 headers")
    else Ok (delete S3_SSE_KMS_KEY_ID (delete S3_SSE_MODE_KEY
               (<[S3_SSE_C_KEY_MD5_KEY := default "" md5]>
                 (<[S3_SSE_C_ALGORITHM_KEY := default "" algorithm]> m))))
  else Ok m.

Definition apply_lock (req : Request) (m : strmap) : result refusal_of strmap :=
  m ← match header req "x-amz-object-lock-mode" with
      | None => Ok m
      | Some mode =>
          if negb (eqb mode "GOVERNANCE") && negb (eqb mode "COMPLIANCE")
          then Err (400%N, "InvalidRequest", "Unsupported object lock mode")
          else Ok (<[S3_OBJECT_LOCK_MODE_KEY := mode]> m)
      end;
  m ← match header req "x-amz-object-lock-retain-until-date" with
      | None => Ok m
      | Some until =>
          if is_none (parse_lock_timestamp until)
          then Err (400%N, "InvalidRequest", "Invalid object lock retain-until date")
          else Ok (<[S3_OBJECT_LOCK_UNTIL_KEY := until]> m)
      end;
  match header req "x-amz-object-lock-legal-hold" with
  | None => Ok m
  | Some legal_hold =>
      if negb (Text.eq_ignore_ascii_case legal_hold "ON") && negb (Text.eq_ignore_ascii_case legal_hold "OFF")
      then Err (400%N, "InvalidRequest", "Invalid object lock legal hold value")
      else Ok (<[S3_OBJECT_LOCK_LEGAL_HOLD_KEY := Utf8.to_ascii_uppercase legal_hold]> m)
  end.

Definition apply_s3_request_contracts (req : Request) (o : Object) : result refusal_of Object :=
  m ← apply_sse req (o_provider_metadata o);
  m ← apply_sse_c req m;
  m ← apply_lock req m;
  Ok (set_provider m o).

Definition sse_refusal (req : Request) (o : Object) : option refusal_of :=
  match o_provider_metadata o !! S3_SSE_C_ALGORITHM_KEY with
  | None => None
  | Some expected_algorithm =>
      match header req "x-amz-server-side-encryption-customer-algorithm",
            header req "x-amz-server-side-encryption-customer-key-MD5" with
      | None, _ => Some (400%N, "InvalidRequest", "Missing SSE-C algorithm for customer encrypted object")
      | Some _, None => Some (400%N, "InvalidRequest", "Missing SSE-C key MD5 for customer encrypted object")
      | Some provided_algorithm, Some provided_md5 =>
          if negb (eqb provided_algorithm expected_algorithm)
             || is_none_or (fun value => negb (eqb value provided_md5)) (o_provider_metadata o !! S3_SSE_C_KEY_MD5_KEY)
          then Some (403%N, "AccessDenied", "The provided SSE-C headers do not match the stored object")
          else None
      end
  end.

(** ** Responses *)

Section Responses.
Context `{Env} `{HashOrder} {S : Type}.

Definition add_version_header (builder : ResponseBuilder) (version_id : option string) : ResponseBuilder :=
  match version_id with
  | Some v => with_header "x-amz-version-id" v builder
  | None => builder
  end.

(** [if let Some(value) = provider_metadata.get(key) { builder.header(name, value) }] *)
Definition with_property (o : Object) (name key : string) (b : ResponseBuilder) : ResponseBuilder :=
  match o_provider_metadata o !! key with
  | Some value => with_header name value b
  | None => b
  end.

Definition object_response_headers (builder : ResponseBuilder) (o : Object) (req_id : string) : io S ResponseBuilder :=
  let b := with_header "x-amz-request-id" req_id
             (with_header "Last-Modified" (http_date (o_last_modified o))
               (with_header "ETag" (quoted_etag (o_etag o)) builder)) in
  host_id ← generate_request_id;
  let b := with_header "Accept-Ranges" "bytes"
             (with_header "x-amz-storage-class" (o_storage_class o) (with_header "x-amz-id-2" host_id b)) in
  let b := add_version_header b (o_version_id o) in
  let b := foldl (fun b p => with_property o p.1 p.2 b) b CONTENT_PROPERTIES in
  let b := foldl (fun b e => with_header ("x-amz-meta-" +:+ e.1) e.2 b) b (hash_order (map_to_list (o_metadata o))) in
  mret (foldl (fun b p => with_property o p.1 p.2 b) b
    [("x-amz-server-side-encryption", S3_SSE_MODE_KEY);
     ("x-amz-server-side-encryption-aws-kms-key-id", S3_SSE_KMS_KEY_ID);
     ("x-amz-server-side-encryption-customer-algorithm", S3_SSE_C_ALGORITHM_KEY);
     ("x-amz-server-side-encryption-customer-key-MD5", S3_SSE_C_KEY_MD5_KEY);
     ("x-amz-object-lock-mode", S3_OBJECT_LOCK_MODE_KEY);
     ("x-amz-object-lock-retain-until-date", S3_OBJECT_LOCK_UNTIL_KEY);
     ("x-amz-object-lock-legal-hold", S3_OBJECT_LOCK_LEGAL_HOLD_KEY)]).

Definition precondition_failed_response (req_id : string) : io S Response :=
  xml_error_response 412 "PreconditionFailed" "At least one of the pre-conditions you specified did not hold" req_id.

Definition not_modified_response (o : Object) (req_id : string) : io S Response :=
  b ← object_response_headers (new_builder 304) o req_id; mret (empty b).

Definition locked_object_response (req_id : string) : io S Response :=
  xml_error_response 403 "AccessDenied" "Object is protected by an active retention policy or legal hold" req_id.

Definition missing_key_response (req_id : string) : io S Response :=
  xml_error_response 404 "NoSuchKey" "The specified key does not exist." req_id.

Definition respond (v : verdict) (o : option Object) (req_id : string) : io S (option Response) :=
  match v, o with
  | Failed412, _ => r ← precondition_failed_response req_id; mret (Some r)
  | NotModified, Some o => r ← not_modified_response o req_id; mret (Some r)
  | Missing404, _ => r ← missing_key_response req_id; mret (Some r)
  | _, _ => mret None
  end.

Definition check_object_conditionals (req : Request) (o : Object) (req_id : string) : io S (option Response) :=
  respond (object_verdict req o) (Some o) req_id.

Definition check_put_conditionals (req : Request) (existing : option Object) (req_id : string) : io S (option Response) :=
  respond (put_verdict req existing) existing req_id.

Definition check_copy_conditionals (req : Request) (source : Object) (req_id : string) : io S (option Response) :=
  respond (copy_verdict req source) None req_id.

Definition validate_get_sse_headers (req : Request) (o : Object) (req_id : string) : io S (option Response) :=
  match sse_refusal req o with
  | Some r => response ← answer r req_id; mret (Some response)
  | None => mret None
  end.

End Responses.
End Helpers.
