(* ===== verification/Routing.v ===== *)
(** * Routing: from a request line to a handler

    [Router] and [parse_query_params] of [src/server/http.rs], with the path
    decoding and the byte ranges of [src/utils/request.rs].  Virtual-hosted and
    path-style requests reach the same handler; the buckets for which they do
    not are described by a theorem of their own. *)

From Stdlib Require Import Ascii.
From S2P Require Import Prelude Text Models Validation FsModel Publication Lifecycle LifecycleExecutor.
From S2P Require Import FileFacts Http Checksums ObjectHelpers.

(** ** [src/utils/request.rs] *)

Definition is_ascii_hexdigit (a : ascii) : bool :=
  let b := N_of_ascii a in
  (((48 <=? b) && (b <=? 57)) || ((65 <=? b) && (b <=? 70)) || ((97 <=? b) && (b <=? 102)))%N.

(** Every [%] is followed by two hexadecimal digits; [skip] digits are behind. *)
Fixpoint percent_triplets (skip : nat) (s : string) : bool :=
  match s, skip with
  | EmptyString, _ => true
  | String _ rest, Datatypes.S n => percent_triplets n rest
  | String a rest, O =>
      if eqb a "%"%char then
        match rest with
        | String h (String l _) => is_ascii_hexdigit h && is_ascii_hexdigit l && percent_triplets 2 rest
        | _ => false
        end
      else percent_triplets 0 rest
  end.

Definition decode_uri_path `{HelperEnv} (value : string) : result string string :=
  if negb (percent_triplets 0 value) then Err "URI path contains an invalid percent escape"
  else url_decode value.

Definition parse_byte_range (value : string) : option (N * option N) :=
  rest ← Text.strip_prefix value "bytes=";
  parts ← Text.split_once "-" rest;
  start ← Text.parse_u64 parts.1;
  if Text.is_empty parts.2 then Some (start, None)
  else
    stop ← Text.parse_u64 parts.2;
    if (stop <? start)%N then None else Some (start, Some stop).

(** ** Query parameters *)

(** [urlencoding::decode(..).unwrap_or_default()] *)
Definition decoded `{HelperEnv} (v : string) : string := match url_decode v with Ok v => v | Err _ => "" end.

Definition parse_query_params `{HelperEnv} (query : option string) : strmap :=
  match query with
  | None => ∅
  | Some query =>
      foldl (fun params param =>
        if Text.is_empty param then params
        else match Text.split_once "=" param with
             | Some (key, value) => <[decoded key := decoded value]> params
             | None => <[decoded param := ""]> params
             end) ∅ (Text.split "&" query)
  end.

(** ** Routes *)

Inductive RouteMatch : Type :=
| ListBuckets
| BucketGet (bucket : string)
| BucketPut (bucket : string)
| BucketDelete (bucket : string)
| BucketHead (bucket : string)
| BucketPost (bucket : string)
| ObjectGet (bucket key : string)
| ObjectPut (bucket key : string)
| ObjectDelete (bucket key : string)
| ObjectHead (bucket key : string)
| ObjectPost (bucket key : string)
| InvalidObjectPath
| NotFound.

(** [s.strip_suffix(p)], as the length of what remains *)
Definition before_suffix (s p : string) : option nat :=
  if Text.ends_with s p then Some (String.length s - String.length p)%nat else None.

Definition bucket_from_host (host : string) : option string :=
  let host_without_port := default host (head (Text.split ":" host)) in
  let lowercase := Text.to_ascii_lowercase host_without_port in
  match before_suffix lowercase ".localhost" with
  | Some n => if Nat.eqb n 0 then None else Some (Text.slice_to n host_without_port)
  | None =>
      match Text.find lowercase ".s3" with
      | None => None
      | Some marker =>
          let endpoint := Text.slice_from (marker + 1) lowercase in
          let aws_domain := Text.ends_with endpoint ".amazonaws.com" || Text.ends_with endpoint ".amazonaws.com.cn" in
          let bucket_endpoint :=
            eqb endpoint "s3.amazonaws.com"
            || (aws_domain
                && (Text.starts_with endpoint "s3." || Text.starts_with endpoint "s3-"
                    || Text.starts_with endpoint "s3-accelerate.")
                && negb (Text.starts_with endpoint "s3-accesspoint")
                && negb (Text.starts_with endpoint "s3-control")
                && negb (Text.starts_with endpoint "s3-object-lambda")
                && negb (Text.starts_with endpoint "s3-outposts")) in
          if Nat.ltb 0 marker && bucket_endpoint then Some (Text.slice_to marker host_without_port) else None
      end
  end.

Definition bucket_route (method bucket : string) : RouteMatch :=
  if eqb method "GET" || eqb method "OPTIONS" then BucketGet bucket
  else if eqb method "PUT" then BucketPut bucket
  else if eqb method "DELETE" then BucketDelete bucket
  else if eqb method "HEAD" then BucketHead bucket
  else if eqb method "POST" then BucketPost bucket
  else NotFound.

Section Router.
Context `{HelperEnv}.

Definition object_route (method bucket encoded_key : string) : RouteMatch :=
  match decode_uri_path encoded_key with
  | Err _ => InvalidObjectPath
  | Ok key =>
      if eqb method "GET" || eqb method "OPTIONS" then ObjectGet bucket key
      else if eqb method "PUT" then ObjectPut bucket key
      else if eqb method "DELETE" then ObjectDelete bucket key
      else if eqb method "HEAD" then ObjectHead bucket key
      else if eqb method "POST" then ObjectPost bucket key
      else NotFound
  end.

Definition route_from_parts (method path : string) (host : option string) : RouteMatch :=
  let path := default path (Text.strip_prefix path "/") in
  match host ≫= bucket_from_host with
  | Some bucket => if Text.is_empty path then bucket_route method bucket else object_route method bucket path
  | None =>
      if Text.is_empty path then (if eqb method "GET" then ListBuckets else NotFound)
      else
        match Text.split_once "/" path with
        | Some (bucket, key) =>
            if negb (Text.is_empty bucket) && negb (Text.is_empty key) then object_route method bucket key
            else if negb (Text.is_empty bucket) then bucket_route method bucket
            else NotFound
        | None => bucket_route method path
        end
  end.
End Router.

(** ** Theorems *)

(** *** Text *)

Lemma all_ascii_weaken (p q : ascii -> bool) s : (forall a, p a = true -> q a = true) -> all_ascii p s = true -> all_ascii q s = true.
Proof. intros Hpq. induction s as [|a s IH]; [done|]. simpl. rewrite !andb_true_iff. naive_solver. Qed.

(** A character that does not occur. *)
Definition lacks (c : ascii) : string -> bool := all_ascii (fun a => negb (eqb a c)).

Lemma split_lacks c s : lacks c s = true -> Text.split c s = [s].
Proof.
  induction s as [|a s IH]; [done|]. unfold lacks. simpl. rewrite andb_true_iff, negb_true_iff. intros [Ha Hs].
  rewrite IH by done. by rewrite Ha.
Qed.

Lemma split_once_lacks c s t : lacks c s = true -> Text.split_once c (s +:+ String c t) = Some (s, t).
Proof.
  induction s as [|a s IH]; intros Hs; [simpl; by rewrite eqb_refl|].
  unfold lacks in Hs. simpl in Hs. rewrite andb_true_iff, negb_true_iff in Hs. destruct Hs as [Ha Hs].
  rewrite Text.app_cons. simpl. by rewrite Ha, IH.
Qed.

Lemma lowercase_bucket s : all_ascii bucket_char s = true -> Text.to_ascii_lowercase s = s.
Proof.
  induction s as [|a s IH]; [done|]. simpl. rewrite andb_true_iff. intros [Ha Hs]. rewrite IH by done. f_equal.
  revert Ha. clear. by destruct a as [[] [] [] [] [] [] [] []].
Qed.

Lemma bucket_lacks c s : bucket_char c = false -> all_ascii bucket_char s = true -> lacks c s = true.
Proof.
  intros Hc. apply all_ascii_weaken. intros a Ha. apply negb_true_iff, eqb_false. intros ->. congruence.
Qed.

(** The first occurrence of the marker is the end of the bucket. *)
Lemma find_marker b t : Text.contains b ".s3" = false -> Text.find (b +:+ ".s3." +:+ t) ".s3" = Some (String.length b).
Proof.
  induction b as [|a b IH]; intros Hb; [done|]. simpl in Hb. apply orb_false_iff in Hb as [Hs Hb].
  rewrite Text.app_cons. simpl. rewrite IH by done.
  assert (Text.starts_with (String a (b +:+ ".s3." +:+ t)) ".s3" = false) as ->; [|done].
  apply not_true_iff_false. rewrite Text.starts_with_spec. intros [u Hu].
  assert (Text.starts_with (String a b) ".s3" = true) as Ht; [|congruence].
  destruct b as [|a1 [|a2 b]]; [by inversion Hu..|]. injection Hu as -> -> -> _. apply Text.starts_with_spec. by exists b.
Qed.

Lemma not_localhost b : Text.ends_with (b +:+ ".s3.amazonaws.com") ".localhost" = false.
Proof. unfold Text.ends_with. by rewrite rev_app_distr. Qed.

(** *** Virtual hosts *)

Definition valid_bucket (b : string) : Prop := validate_bucket_name b = Ok tt.

Lemma valid_bucket_chars b : valid_bucket b -> all_ascii bucket_char b = true /\ b <> "".
Proof.
  unfold valid_bucket, validate_bucket_name. destruct (Text.len b <? 3)%N eqn:El; [done|].
  destruct (63 <? _)%N; [done|]. destruct (negb _ || negb _); [done|]. destruct (all_ascii bucket_char b); [|done].
  intros _. split; [done|]. by intros ->.
Qed.

Lemma host_of_bucket b suffix :
  all_ascii bucket_char b = true -> lacks ":" suffix = true -> Text.to_ascii_lowercase suffix = suffix ->
  head (Text.split ":" (b +:+ suffix)) = Some (b +:+ suffix) /\
  Text.to_ascii_lowercase (b +:+ suffix) = b +:+ suffix.
Proof.
  intros Hb Hc Hl. split.
  - rewrite split_lacks; [done|]. unfold lacks. rewrite all_ascii_app. apply andb_true_iff. split; [|done].
    by apply bucket_lacks.
  - rewrite <- Hl at 2. rewrite <- (lowercase_bucket b) at 2 by done. clear.
    induction b as [|a b IH]; [done|]. rewrite Text.app_cons. simpl. by rewrite IH.
Qed.

Lemma amazon_host b : valid_bucket b -> Text.contains b ".s3" = false ->
  bucket_from_host (b +:+ ".s3.amazonaws.com") = Some b.
Proof.
  intros [Hb Hne]%valid_bucket_chars Hm. destruct (host_of_bucket b ".s3.amazonaws.com") as [H1 H2]; [done..|].
  unfold bucket_from_host. rewrite H1. simpl. rewrite H2. unfold before_suffix. rewrite not_localhost.
  pose proof (find_marker b "amazonaws.com" Hm) as Hf. change (".s3." +:+ "amazonaws.com") with ".s3.amazonaws.com" in Hf. rewrite Hf.
  rewrite Nat.add_1_r.
  assert (Text.slice_from (S (String.length b)) (b +:+ ".s3.amazonaws.com") = "s3.amazonaws.com") as ->.
  { clear. induction b as [|a b IH]; [done|]. rewrite Text.app_cons. apply IH. }
  simpl. rewrite Text.slice_to_app. by destruct b.
Qed.

Lemma local_host b : valid_bucket b -> bucket_from_host (b +:+ ".localhost") = Some b.
Proof.
  intros [Hb Hne]%valid_bucket_chars. destruct (host_of_bucket b ".localhost") as [H1 H2]; [done..|].
  unfold bucket_from_host. rewrite H1. simpl. rewrite H2. unfold before_suffix. rewrite ends_with_app.
  rewrite Text.length_app, Nat.add_sub, Text.slice_to_app. by destruct b.
Qed.

(** [virtual_host_equals_path_style]. A virtual-hosted request is routed as
    the path-style request of the same bucket and key, for a valid bucket name
    under .localhost, and under .s3.amazonaws.com when the name does not
    contain .s3. *)
Theorem virtual_host_equals_path_style `{HelperEnv} method bucket key suffix :
  valid_bucket bucket ->
  suffix = ".localhost" \/ suffix = ".s3.amazonaws.com" /\ Text.contains bucket ".s3" = false ->
  route_from_parts method ("/" +:+ key) (Some (bucket +:+ suffix)) =
  route_from_parts method ("/" +:+ bucket +:+ "/" +:+ key) None.
Proof.
  intros Hv Hs. destruct (valid_bucket_chars _ Hv) as [Hb Hne].
  assert (bucket_from_host (bucket +:+ suffix) = Some bucket) as Hhost.
  { destruct Hs as [->|[-> Hm]]; [by apply local_host|by apply amazon_host]. }
  assert (forall t, Text.strip_prefix ("/" +:+ t) "/" = Some t) as Hstrip by done.
  unfold route_from_parts. rewrite !Hstrip. simpl. rewrite Hhost.
  assert (Text.is_empty (bucket +:+ "/" +:+ key) = false) as -> by (by destruct bucket).
  change ("/" +:+ key) with (String "/" key). rewrite split_once_lacks by (by apply bucket_lacks).
  assert (Text.is_empty bucket = false) as -> by (by destruct bucket). simpl. by destruct (Text.is_empty key).
Qed.

(** [virtual_host_misroutes]. A virtual-hosted request to the valid bucket
    media.s3-backup at Amazon is routed to the bucket media. *)
Theorem virtual_host_misroutes `{HelperEnv} method key :
  valid_bucket "media.s3-backup" /\
  route_from_parts method ("/" +:+ key) (Some ("media.s3-backup" +:+ ".s3.amazonaws.com")) =
  route_from_parts method ("/" +:+ "media" +:+ "/" +:+ key) None.
Proof.
  split; [by vm_compute|].
  assert (bucket_from_host ("media.s3-backup" +:+ ".s3.amazonaws.com") = Some "media") as Hhost by (by vm_compute).
  assert (forall t, Text.strip_prefix ("/" +:+ t) "/" = Some t) as Hstrip by done.
  unfold route_from_parts. rewrite !Hstrip. cbn [default mbind option_bind]. rewrite Hhost.
  change ("/" +:+ key) with (String "/" key). unfold id. rewrite split_once_lacks by done.
  assert (Text.is_empty ("media" +:+ String "/" key) = false) as -> by done. simpl. by destruct (Text.is_empty key).
Qed.
