(* ===== verification/XmlDocuments.v ===== *)
(** * XmlDocuments: the XML bodies of object requests

    Tagging, ACL, part-list and multipart documents of [src/utils/xml.rs], their
    parsers of [src/utils/xml/parse.rs] over the events of [quick_xml], and the
    ACL headers of [src/server/handlers/acl.rs]. *)

From Stdlib Require Import Ascii.
From stdpp Require Import pretty.
From S2P Require Import Prelude Text Models Utf8 FsModel Publication Lifecycle LifecycleExecutor.
From S2P Require Import Http Cors Checksums ObjectHelpers.

(** [text.parse::<u32>()] *)
Definition parse_u32 (s : string) : option N :=
  n ← Text.parse_u64 s; if (n <? 2 ^ 32)%N then Some n else None.

Definition S3_NAMESPACE : string := quoted "http://s3.amazonaws.com/doc/2006-03-01/".
Definition XSI_NAMESPACE : string := quoted "http://www.w3.org/2001/XMLSchema-instance".

Fixpoint concat_lines (l : list string) : string :=
  match l with
  | [] => ""
  | line :: rest => NL +:+ line +:+ concat_lines rest
  end.

(** ** Tagging *)

Definition key_le (a b : string * string) : Prop := String.le a.1 b.1.
#[global] Instance key_le_dec a b : Decision (key_le a b).
Proof. unfold key_le. apply _. Defined.

Definition tagging_xml (tags : strmap) : string :=
  xml_declaration +:+ NL +:+ "<Tagging xmlns=" +:+ S3_NAMESPACE +:+ ">" +:+ NL +:+ "  <TagSet>" +:+
  concat_lines ((fun e => "    <Tag><Key>" +:+ escape_xml e.1 +:+ "</Key><Value>" +:+ escape_xml e.2 +:+ "</Value></Tag>")
                <$> merge_sort key_le (map_to_list tags)) +:+
  NL +:+ "  </TagSet>" +:+ NL +:+ "</Tagging>".

Section Parsers.
Context `{QuickXml}.

Fixpoint collect_tag_set (events : list XmlEvent) (in_key in_value : bool) (current_key : option string) (tags : strmap)
    : result string strmap :=
  match events with
  | [] => Ok tags
  | XStart name :: rest =>
      collect_tag_set rest (in_key || eqb name "Key") (in_value || eqb name "Value") current_key tags
  | XEnd name :: rest =>
      collect_tag_set rest (in_key && negb (eqb name "Key")) (in_value && negb (eqb name "Value")) current_key tags
  | XText raw :: rest =>
      text ← unescape raw;
      if in_key then collect_tag_set rest in_key in_value (Some text) tags
      else if in_value then
        match current_key with
        | Some k => collect_tag_set rest in_key in_value None (<[k := text]> tags)
        | None => Err "InvalidTagKey"
        end
      else collect_tag_set rest in_key in_value current_key tags
  | (XCData _ | XRef _ | XEmpty _ | XComment | XOther) :: rest => collect_tag_set rest in_key in_value current_key tags
  | XError message :: _ => Err message
  end.

Fixpoint check_tags (entries : list (string * string)) : result string unit :=
  match entries with
  | [] => Ok tt
  | (k, v) :: rest =>
      if Text.is_empty k then Err "InvalidTagKey"
      else if (128 <? Text.len k)%N then Err "InvalidTagKey"
      else if (256 <? Text.len v)%N then Err "InvalidTagValue"
      else check_tags rest
  end.

Definition parse_tagging_xml `{HashOrder} (body : string) : result string strmap :=
  tags ← collect_tag_set (xml_events body) false false None ∅;
  if Nat.ltb 10 (size tags) then Err "TooManyTags"
  else check_tags (hash_order (map_to_list tags));; Ok tags.

(** ** Multipart manifests *)

Definition strip_quotes (s : string) : string := Text.trim_end_matches (Text.drop_leading QUOT s) QUOT.

Fixpoint collect_manifest (events : list XmlEvent) (tag : option string) (text : string) (part_number : option N)
    (etag : option string) (parts : list (N * string)) : result string (list (N * string)) :=
  match events with
  | [] => Ok parts
  | XStart name :: rest => collect_manifest rest (Some name) "" part_number etag parts
  | XText raw :: rest =>
      t ← unescape raw; collect_manifest rest tag (text +:+ t) part_number etag parts
  | XCData raw :: rest => collect_manifest rest tag (text +:+ raw) part_number etag parts
  | XRef name :: rest =>
      t ← unescape ("&" +:+ name +:+ ";"); collect_manifest rest tag (text +:+ t) part_number etag parts
  | XEnd name :: rest =>
      part_number ← (if eqb tag (Some "PartNumber")
                     then Some <$> ok_or "Invalid PartNumber" (parse_u32 text) else Ok part_number);
      let etag := if eqb tag (Some "ETag") then Some (strip_quotes text) else etag in
      if eqb name "Part" then
        n ← ok_or "Missing PartNumber" part_number;
        e ← ok_or "Missing ETag" etag;
        collect_manifest rest None "" None None (parts ++ [(n, e)])
      else collect_manifest rest None "" part_number etag parts
  | (XEmpty _ | XComment | XOther) :: rest => collect_manifest rest tag text part_number etag parts
  | XError message :: _ => Err ("XML parse error: " +:+ message)
  end.

Definition parse_complete_multipart_upload_xml (body : string) : result string (list (N * string)) :=
  parts ← collect_manifest (xml_events body) None "" None None [];
  match parts with
  | [] => Err "CompleteMultipartUpload requires at least one Part"
  | _ :: _ => Ok parts
  end.

(** ** ACL documents *)

Definition parse_permission (text : string) : result string Permission :=
  if eqb text "READ" then Ok PermRead
  else if eqb text "WRITE" then Ok PermWrite
  else if eqb text "READ_ACP" then Ok PermReadAcp
  else if eqb text "WRITE_ACP" then Ok PermWriteAcp
  else if eqb text "FULL_CONTROL" then Ok PermFullControl
  else Err ("Unsupported ACL permission: " +:+ text).

(** The fields of the grant being read. *)
Record GrantFields : Type := mkFields {
  gf_id : option string;
  gf_display_name : option string;
  gf_uri : option string;
  gf_permission : option Permission }.
Definition no_fields : GrantFields := mkFields None None None None.

Definition set_field (tag : option string) (text : string) (f : GrantFields) : result string GrantFields :=
  if eqb tag (Some "ID") then Ok (mkFields (Some text) (gf_display_name f) (gf_uri f) (gf_permission f))
  else if eqb tag (Some "DisplayName") then Ok (mkFields (gf_id f) (Some text) (gf_uri f) (gf_permission f))
  else if eqb tag (Some "URI") then Ok (mkFields (gf_id f) (gf_display_name f) (Some text) (gf_permission f))
  else if eqb tag (Some "Permission") then
    p ← parse_permission text; Ok (mkFields (gf_id f) (gf_display_name f) (gf_uri f) (Some p))
  else Ok f.

(** The grant of the fields; the fields it takes are consumed. *)
Definition finish_grant (f : GrantFields) : result string (Grant * GrantFields) :=
  p ← ok_or "Missing ACL permission" (gf_permission f);
  match gf_id f, gf_uri f with
  | Some id, uri => Ok (mkGrant (CanonicalUser id (gf_display_name f)) p, mkFields None None uri None)
  | None, Some uri => Ok (mkGrant (Group uri) p, mkFields None (gf_display_name f) None None)
  | None, None => Err "Missing ACL grantee"
  end.

Fixpoint collect_grants (events : list XmlEvent) (in_grant : bool) (tag : option string) (f : GrantFields)
    (grants : list Grant) : result string (list Grant) :=
  match events with
  | [] => Ok grants
  | XStart name :: rest =>
      if eqb name "Grant" then collect_grants rest true (Some name) no_fields grants
      else collect_grants rest in_grant (Some name) f grants
  | XEnd name :: rest =>
      if eqb name "Grant" then
        gf ← finish_grant f; collect_grants rest false None gf.2 (grants ++ [gf.1])
      else collect_grants rest in_grant None f grants
  | XText raw :: rest =>
      if negb in_grant then collect_grants rest in_grant tag f grants
      else text ← unescape raw; f ← set_field tag text f; collect_grants rest in_grant tag f grants
  | (XCData _ | XRef _ | XEmpty _ | XComment | XOther) :: rest => collect_grants rest in_grant tag f grants
  | XError message :: _ => Err ("XML parse error: " +:+ message)
  end.

Definition parse_acl_xml (body : string) : result string Acl :=
  gs ← collect_grants (xml_events body) false None no_fields []; Ok (mkAcl Private gs).
End Parsers.

Definition permission_xml_value (p : Permission) : string :=
  match p with
  | PermRead => "READ"
  | PermWrite => "WRITE"
  | PermReadAcp => "READ_ACP"
  | PermWriteAcp => "WRITE_ACP"
  | PermFullControl => "FULL_CONTROL"
  end.

Definition open_grantee (type : string) : string :=
  "<Grantee xmlns:xsi=" +:+ XSI_NAMESPACE +:+ " xsi:type=" +:+ quoted type +:+ ">".

Definition grantee_xml (g : Grantee) : string :=
  match g with
  | CanonicalUser id display_name =>
      open_grantee "CanonicalUser" +:+ "<ID>" +:+ escape_xml id +:+ "</ID>" +:+
      match display_name with
      | Some name => "<DisplayName>" +:+ escape_xml name +:+ "</DisplayName>"
      | None => ""
      end +:+ "</Grantee>"
  | Group uri => open_grantee "Group" +:+ "<URI>" +:+ escape_xml uri +:+ "</URI></Grantee>"
  end.

Definition explicit_acl_grants (acl : Acl) : string :=
  concat_lines (grants acl ≫= fun g =>
    ["        <Grant>"; "            " +:+ grantee_xml (grantee g);
     "            <Permission>" +:+ permission_xml_value (permission g) +:+ "</Permission>"; "        </Grant>"]).

Definition group_grant (group permission : string) : list string :=
  ["        <Grant>"; "            " +:+ open_grantee "Group";
   "                <URI>http://acs.amazonaws.com/groups/global/" +:+ group +:+ "</URI>";
   "            </Grantee>"; "            <Permission>" +:+ permission +:+ "</Permission>"; "        </Grant>"].

Definition default_acl_grants (id display_name : string) (canned : CannedAcl) : string :=
  concat_lines
    (["        <Grant>"; "            " +:+ open_grantee "CanonicalUser";
      "                <ID>" +:+ escape_xml id +:+ "</ID>";
      "                <DisplayName>" +:+ escape_xml display_name +:+ "</DisplayName>";
      "            </Grantee>"; "            <Permission>FULL_CONTROL</Permission>"; "        </Grant>"] ++
     match canned with
     | Private | BucketOwnerRead | BucketOwnerFullControl => []
     | PublicRead => group_grant "AllUsers" "READ"
     | PublicReadWrite => group_grant "AllUsers" "READ" ++ group_grant "AllUsers" "WRITE"
     | AuthenticatedRead => group_grant "AuthenticatedUsers" "READ"
     end).

Definition acl_xml (id display_name : string) (acl : Acl) : string :=
  let gs := match grants acl with
            | [] => default_acl_grants id display_name (canned acl)
            | _ :: _ => explicit_acl_grants acl
            end in
  xml_declaration +:+ NL +:+
  "<AccessControlPolicy xmlns=" +:+ S3_NAMESPACE +:+ ">" +:+ NL +:+
  "    <Owner>" +:+ NL +:+
  "        <ID>" +:+ escape_xml id +:+ "</ID>" +:+ NL +:+
  "        <DisplayName>" +:+ escape_xml display_name +:+ "</DisplayName>" +:+ NL +:+
  "    </Owner>" +:+ NL +:+
  "    <AccessControlList>" +:+ gs +:+ NL +:+
  "    </AccessControlList>" +:+ NL +:+
  "</AccessControlPolicy>".

(** ** ACL headers *)

Definition OWNER_ID : string := "sqrzl-emulator".
Definition owner_full_control_grant : Grant := mkGrant (CanonicalUser OWNER_ID None) PermFullControl.

Definition is_owner_grant (g : Grant) : bool :=
  match grantee g, permission g with
  | CanonicalUser id _, PermFullControl => eqb id OWNER_ID
  | _, _ => false
  end.

Definition normalize_acl (acl : Acl) : Acl :=
  match grants acl with
  | [] => acl
  | _ :: _ => if existsb is_owner_grant (grants acl) then acl
              else mkAcl (canned acl) (owner_full_control_grant :: grants acl)
  end.

(** [strip_suffix] of the closing quote *)
Definition parse_quoted_value (input key : string) : option string :=
  value ← Text.strip_prefix input (key +:+ "=" +:+ String QUOT "");
  if Text.ends_with value (String QUOT "")
  then Some (Text.slice_to (String.length value - 1) value) else None.

Fixpoint parse_grantees (parts : list string) (grantees : list Grantee) : result string (list Grantee) :=
  match parts with
  | [] => match grantees with
          | [] => Err "ACL grant header did not include any grantees"
          | _ :: _ => Ok grantees
          end
  | raw :: rest =>
      let part := Text.trim raw in
      if Text.is_empty part then parse_grantees rest grantees
      else match parse_quoted_value part "id", parse_quoted_value part "uri" with
           | Some id, _ => parse_grantees rest (grantees ++ [CanonicalUser id None])
           | None, Some uri => parse_grantees rest (grantees ++ [Group uri])
           | None, None => Err ("Unsupported ACL grantee expression: " +:+ part)
           end
  end.

Definition parse_grantee_header_value (value : string) : result string (list Grantee) :=
  parse_grantees (Text.split "," value) [].

(** [serde_json::from_value(..).unwrap_or_default()] *)
Definition canned_of_text (s : string) : CannedAcl :=
  if eqb s "public-read" then PublicRead
  else if eqb s "public-read-write" then PublicReadWrite
  else if eqb s "authenticated-read" then AuthenticatedRead
  else if eqb s "bucket-owner-read" then BucketOwnerRead
  else if eqb s "bucket-owner-full-control" then BucketOwnerFullControl
  else Private.

Section Acls.
Context `{HttpLib}.

Definition GRANT_HEADERS : list (string * Permission) :=
  [("x-amz-grant-read", PermRead); ("x-amz-grant-write", PermWrite); ("x-amz-grant-read-acp", PermReadAcp);
   ("x-amz-grant-write-acp", PermWriteAcp); ("x-amz-grant-full-control", PermFullControl)].

Fixpoint header_grants (req : Request) (headers : list (string * Permission)) (gs : list Grant) (saw : bool)
    : result string (list Grant) :=
  match headers with
  | [] => Ok gs
  | (name, p) :: rest =>
      match header req name with
      | None => header_grants req rest gs saw
      | Some value =>
          grantees ← parse_grantee_header_value value;
          header_grants req rest
            (gs ++ (if saw then [] else [owner_full_control_grant]) ++ ((fun g => mkGrant g p) <$> grantees)) true
      end
  end.

Definition acl_from_headers (req : Request) : result string Acl :=
  gs ← header_grants req GRANT_HEADERS [] false;
  Ok (normalize_acl (mkAcl (canned_of_text (default "private" (header req "x-amz-acl"))) gs)).

(** [String::from_utf8] *)
Definition acl_from_xml_body `{QuickXml} (body : bytes) : result string Acl :=
  match Utf8.from_utf8 body with
  | None => Err ("Invalid UTF-8 body: " +:+ Utf8.utf8_error body)
  | Some text => acl ← parse_acl_xml text; Ok (normalize_acl acl)
  end.
End Acls.

(** ** Multipart documents *)

Definition initiate_multipart_xml (bucket key upload_id : string) : string :=
  xml_declaration +:+ NL +:+
  "<InitiateMultipartUploadResult xmlns=" +:+ S3_NAMESPACE +:+ ">" +:+ NL +:+
  "  <Bucket>" +:+ escape_xml bucket +:+ "</Bucket>" +:+ NL +:+
  "  <Key>" +:+ escape_xml key +:+ "</Key>" +:+ NL +:+
  "  <UploadId>" +:+ escape_xml upload_id +:+ "</UploadId>" +:+ NL +:+
  "</InitiateMultipartUploadResult>".

Record ListPartsXml : Type := mkListParts {
  lp_bucket : string;
  lp_key : string;
  lp_upload_id : string;
  lp_storage_class : string;
  lp_part_number_marker : N;
  lp_next_part_number_marker : option N;
  lp_max_parts : N;
  lp_is_truncated : bool;
  lp_parts : list Part }.

Section Parts.
Context `{HelperEnv} `{PayloadDigests}.

Definition part_xml (p : Part) : string :=
  NL +:+ "  <Part>" +:+ NL +:+
  "    <PartNumber>" +:+ pretty (p_part_number p) +:+ "</PartNumber>" +:+ NL +:+
  "    <LastModified>" +:+ to_rfc3339 (p_last_modified p) +:+ "</LastModified>" +:+ NL +:+
  "    <ETag>" +:+ quoted (escape_xml (p_etag p)) +:+ "</ETag>" +:+ NL +:+
  "    <Size>" +:+ pretty (p_size p) +:+ "</Size>" +:+
  match p_crc32c p with
  | Some crc => NL +:+ "    <ChecksumCRC32C>" +:+ base64_encode (be_bytes 4 crc) +:+ "</ChecksumCRC32C>"
  | None => ""
  end +:+
  NL +:+ "  </Part>".

Definition list_parts_xml (r : ListPartsXml) : string :=
  xml_declaration +:+ NL +:+
  "<ListPartsResult xmlns=" +:+ S3_NAMESPACE +:+ ">" +:+ NL +:+
  "  <Bucket>" +:+ escape_xml (lp_bucket r) +:+ "</Bucket>" +:+ NL +:+
  "  <Key>" +:+ escape_xml (lp_key r) +:+ "</Key>" +:+ NL +:+
  "  <UploadId>" +:+ escape_xml (lp_upload_id r) +:+ "</UploadId>" +:+ NL +:+
  "  <Initiator><ID>sqrzl-emulator</ID><DisplayName>Sqrzl Emulator</DisplayName></Initiator>" +:+ NL +:+
  "  <Owner><ID>sqrzl-emulator</ID><DisplayName>Sqrzl Emulator</DisplayName></Owner>" +:+ NL +:+
  "  <StorageClass>" +:+ escape_xml (lp_storage_class r) +:+ "</StorageClass>" +:+ NL +:+
  "  <PartNumberMarker>" +:+ pretty (lp_part_number_marker r) +:+ "</PartNumberMarker>" +:+
  match lp_next_part_number_marker r with
  | Some next => NL +:+ "  <NextPartNumberMarker>" +:+ pretty next +:+ "</NextPartNumberMarker>"
  | None => ""
  end +:+
  NL +:+ "  <MaxParts>" +:+ pretty (lp_max_parts r) +:+ "</MaxParts>" +:+
  NL +:+ "  <IsTruncated>" +:+ (if lp_is_truncated r then "true" else "false") +:+ "</IsTruncated>" +:+
  foldr (fun p rest => part_xml p +:+ rest) "" (lp_parts r) +:+
  NL +:+ "</ListPartsResult>".
End Parts.

Definition complete_multipart_upload_xml (bucket key etag checksum : string) : string :=
  xml_declaration +:+ NL +:+
  "<CompleteMultipartUploadResult xmlns=" +:+ S3_NAMESPACE +:+ ">" +:+ NL +:+
  "  <Location>http://s3.amazonaws.com/" +:+ escape_xml bucket +:+ "/" +:+ escape_xml key +:+ "</Location>" +:+ NL +:+
  "  <Bucket>" +:+ escape_xml bucket +:+ "</Bucket>" +:+ NL +:+
  "  <Key>" +:+ escape_xml key +:+ "</Key>" +:+ NL +:+
  "  <ETag>" +:+ quoted (escape_xml etag) +:+ "</ETag>" +:+ NL +:+
  checksum +:+ "</CompleteMultipartUploadResult>".
