(* ===== verification/ObjectHandlers.v ===== *)
(** * ObjectHandlers: the object requests of [src/server/handlers/object.rs]

    GET, HEAD, PUT, copy and DELETE of an object once the request is authorized,
    with the bounded reads of [object/bounded.rs].  A handler sees the store
    through the [Storage] trait: [S3Storage] has the operations it calls, with
    [FilesystemStorage] as an instance. *)

From Stdlib Require Import Ascii Strings.Byte.
From stdpp Require Import pretty.
From S2P Require Import Prelude Text Models Policy SkipMap Index Utf8 Validation FsModel Publication.
From S2P Require Import Lifecycle Storage Versions Listing LifecycleExecutor.
From S2P Require Import Http Cors Checksums ObjectHelpers.

(** ** The store of a handler *)

Class S3Storage (S : Type) : Type := {
  s3_base :: StorageOps S;
  st_put_object : string -> string -> Object -> io S unit;
  st_put_object_if : string -> string -> Object -> ObjectCondition -> io S bool;
  st_put_object_streamed : string -> string -> Object -> path -> io S unit;
  st_put_object_streamed_if : string -> string -> Object -> path -> ObjectCondition -> io S bool;
  st_delete_object_if : string -> string -> ObjectCondition -> io S bool;
  st_get_object_range : string -> string -> N -> option N -> io S (Object * bytes);
  st_get_object_version_metadata : string -> string -> string -> io S Object;
  st_get_object_version_range : string -> string -> string -> N -> option N -> io S (Object * bytes);
  st_list_object_versions_for_key : string -> string -> io S (list Object);
  st_delete_object_tags : string -> string -> io S unit;
  st_put_object_tags : string -> string -> strmap -> io S unit;
  st_put_object_acl : string -> string -> Acl -> io S unit;
  st_get_object_acl : string -> string -> io S Acl;
  st_azure_object_protection_absent : string -> io S bool }.

#[export] Instance filesystem_s3 {M} `{SkipMap M} `{Env} `{StoreEnv} `{Digests} : S3Storage (World M) := {|
  s3_base := filesystem_storage;
  st_put_object := put_object;
  st_put_object_if := put_object_if;
  st_put_object_streamed := put_object_streamed;
  st_put_object_streamed_if := put_object_streamed_if;
  st_delete_object_if := delete_object_if;
  st_get_object_range := get_object_range;
  st_get_object_version_metadata := get_object_version_metadata;
  st_get_object_version_range := get_object_version_range;
  st_list_object_versions_for_key := list_object_versions_for_key;
  st_delete_object_tags := delete_object_tags;
  st_put_object_tags := put_object_tags;
  st_put_object_acl := put_object_acl;
  st_get_object_acl := get_object_acl;
  st_azure_object_protection_absent bucket := gets (azure_object_protection_absent bucket) |}.

Section Handlers.
Context `{HttpLib} `{HelperEnv} `{Chrono} `{PayloadDigests} `{Digests} `{QuickXml} `{Env} `{HashOrder}.
Context {S : Type} `{S3Storage S}.

(** [if let Some(response) = check { return response; }] *)
Definition unless_answered (check : io S (option Response)) (continue : io S Response) : io S Response :=
  r ← check;
  match r with
  | Some response => mret response
  | None => continue
  end.

(** The first check that answers. *)
Definition or_else (a b : io S (option Response)) : io S (option Response) :=
  r ← a;
  match r with
  | Some response => mret (Some response)
  | None => b
  end.

(** [Option<refusal>] as a check *)
Definition refuse (r : option refusal_of) (req_id : string) : io S (option Response) :=
  match r with
  | Some r => response ← answer r req_id; mret (Some response)
  | None => mret None
  end.

(** [cors::apply_actual_request_headers] and the end of a response without a body *)
Definition with_cors (bucket : string) (req : Request) (b : ResponseBuilder) : io S ResponseBuilder :=
  apply_actual_request_headers st_get_bucket bucket req b.
Definition empty_with_cors (bucket : string) (req : Request) (b : ResponseBuilder) : io S Response :=
  b ← with_cors bucket req b; mret (empty b).

Definition internal_error_response (e : Error) (req_id : string) : io S Response :=
  xml_error_response 500 "InternalError" (display e) req_id.

(** ** Bounded reads *)

Definition MATERIALIZATION_LIMIT : N := 64 * 1024 * 1024.

Definition extent_response (req_id : string) : io S Response :=
  xml_error_response 501 "NotImplemented" "This emulator materializes at most 64 MiB per S3 GET or copy. Use a smaller byte range; streamed PUT remains supported." req_id.

Definition invalid_range (req_id : string) : io S Response :=
  xml_error_response 416 "InvalidRange" "The requested range is not satisfiable." req_id.

Definition metadata (bucket key : string) (version : option string) : io S Object :=
  match version with
  | Some version => st_get_object_version_metadata bucket key version
  | None => st_get_object_metadata bucket key
  end.

(** The last [checked_add] is of [last - start] and 1, on 64 bits. *)
Definition selected_len (size : N) (range : option (N * option N)) : option N :=
  match range with
  | None => Some size
  | Some (start, stop) =>
      if (start <? size)%N then
        let last := N.min (default (size - 1)%N stop) (size - 1) in
        if (last <? start)%N then None
        else if (2 ^ 64 <=? last - start + 1)%N then None
        else Some (last - start + 1)%N
      else None
  end.

Definition saturating_add_u64 (a b : N) : N := N.min (a + b) (2 ^ 64 - 1).

Definition is_s3_delete_marker (o : Object) : bool := eqb (o_provider_metadata o !! "s3_delete_marker") (Some "true").

(** [Err] holds the answer. *)
Definition refused {A} (r : io S Response) : io S (result Response A) := response ← r; mret (Err response).

Definition payload (bucket key : string) (version : option string) (range : option (N * option N)) (req_id : string)
    : io S (result Response Object) :=
  initial ← attempt (metadata bucket key version);
  match initial with
  | Err error => refused (storage_error_response error req_id)
  | Ok initial =>
      if is_s3_delete_marker initial then mret (Ok initial)
      else
        match selected_len (o_size initial) range with
        | None => refused (invalid_range req_id)
        | Some len =>
            if (MATERIALIZATION_LIMIT <? len)%N then refused (extent_response req_id)
            else if (len =? 0)%N then mret (Ok initial)
            else
              let '(start, requested_end) := default (0%N, None) range in
              let capped_end := saturating_add_u64 start (MATERIALIZATION_LIMIT - 1) in
              let stop := Some (match requested_end with Some e => N.min e capped_end | None => capped_end end) in
              read ← attempt (match version with
                              | Some version => st_get_object_version_range bucket key version start stop
                              | None => st_get_object_range bucket key start stop
                              end);
              match read with
              | Err (InvalidRequest _) => refused (invalid_range req_id)
              | Err error => refused (storage_error_response error req_id)
              | Ok (object, data) =>
                  match selected_len (o_size object) range with
                  | None => refused (invalid_range req_id)
                  | Some actual_len =>
                      if (MATERIALIZATION_LIMIT <? actual_len)%N || negb (actual_len =? size_of data)%N
                      then refused (extent_response req_id)
                      else mret (Ok (with_data data object))
                  end
              end
        end
  end.

(** ** Delete markers *)

(** [max_by] of modification time, then version: [Versions.latest_version]. *)
Definition current_delete_marker (bucket key : string) : io S (option Object) :=
  versions ← attempt (st_list_object_versions_for_key bucket key);
  mret (match versions with
        | Ok versions =>
            match latest_version versions with
            | Some newest => if is_s3_delete_marker newest then Some newest else None
            | None => None
            end
        | Err _ => None
        end).

Definition delete_marker_response (bucket : string) (req : Request) (req_id : string) (marker : Object)
    (version_specific head : bool) : io S Response :=
  host_id ← generate_request_id;
  let b := with_header "x-amz-delete-marker" "true"
             (with_header "x-amz-id-2" host_id
               (with_header "x-amz-request-id" req_id
                 (new_builder (if version_specific then 405 else 404)))) in
  let b := match o_version_id marker with
           | Some version_id => with_header "x-amz-version-id" version_id b
           | None => b
           end in
  let b := if version_specific then with_header "Last-Modified" (http_date (o_last_modified marker)) b else b in
  b ← with_cors bucket req b;
  mret (if head then empty b
        else
          let '(code, message) :=
            if version_specific
            then ("MethodNotAllowed", "The specified method is not allowed against this resource.")
            else ("NoSuchKey", "The specified key does not exist.") in
          build (with_body (as_bytes (error_xml_with_host_id code message req_id host_id))
                  (with_content_type "application/xml; charset=utf-8" b))).

(** ** Reading *)

Definition read_admission_conditions (bucket key : string) (version : option string) (req : Request) (req_id : string)
    : io S (option Response) :=
  object ← attempt (metadata bucket key version);
  match object with
  | Err _ => mret None
  | Ok object =>
      if is_s3_delete_marker object then mret None
      else or_else (validate_get_sse_headers req object req_id) (check_object_conditionals req object req_id)
  end.

(** The bytes sent, their length and the [Content-Range]. *)
Definition selection : Type := bytes * N * string.

Definition object_payload_response (bucket : string) (req : Request) (req_id : string) (obj : Object) (status : N)
    (range : option selection) : io S Response :=
  unless_answered (validate_get_sse_headers req obj req_id)
    (unless_answered (check_object_conditionals req obj req_id)
      (let '(data, content_length, content_range) :=
         match range with
         | Some (data, len, content_range) => (data, len, Some content_range)
         | None => (o_data obj, o_size obj, None)
         end in
       let b := with_header "Content-Length" (pretty content_length)
                  (with_content_type (o_content_type obj) (new_builder status)) in
       let b := match content_range with
                | Some content_range => with_header "Content-Range" content_range b
                | None => b
                end in
       b ← object_response_headers b obj req_id;
       b ← with_cors bucket req (retrieval_headers b req obj);
       mret (build (with_body data b)))).

(** ["bytes {}-{}/{}"] *)
Definition content_range (start len size : N) : string :=
  "bytes " +:+ pretty start +:+ "-" +:+ pretty (start + (len - 1))%N +:+ "/" +:+ pretty size.

(** The data taken out of the object, as a selection. *)
Definition select (start : N) (obj : Object) : selection :=
  let len := size_of (o_data obj) in (o_data obj, len, content_range start len (o_size obj)).

(** The answer when the current object cannot be read. *)
Definition marker_or (bucket key : string) (req : Request) (req_id : string) (response : Response) : io S Response :=
  marker ← current_delete_marker bucket key;
  match marker with
  | Some marker => delete_marker_response bucket req req_id marker false false
  | None => mret response
  end.

Definition object_version_response (bucket key version_id : string) (req : Request) (req_id : string) : io S Response :=
  let respond_with (range : option (N * option N)) :=
    unless_answered (read_admission_conditions bucket key (Some version_id) req req_id)
      (r ← payload bucket key (Some version_id) range req_id;
       match r with
       | Err response => mret response
       | Ok obj =>
           if is_s3_delete_marker obj then delete_marker_response bucket req req_id obj true false
           else
             match range with
             | Some (start, _) =>
                 object_payload_response bucket req req_id (with_data [] obj) 206 (Some (select start obj))
             | None => object_payload_response bucket req req_id obj 200 None
             end
       end) in
  match header req "range" with
  | Some value => match parse_range value with
                  | Some range => respond_with (Some range)
                  | None => invalid_range req_id
                  end
  | None => respond_with None
  end.

Definition object_range_response (bucket key : string) (req : Request) (req_id range_header : string) : io S Response :=
  match parse_range range_header with
  | None => invalid_range req_id
  | Some range =>
      unless_answered (read_admission_conditions bucket key None req req_id)
        (r ← payload bucket key None (Some range) req_id;
         match r with
         | Ok obj => object_payload_response bucket req req_id (with_data [] obj) 206 (Some (select range.1 obj))
         | Err response => marker_or bucket key req req_id response
         end)
  end.

Definition object_full_response (bucket key : string) (req : Request) (req_id : string) : io S Response :=
  unless_answered (read_admission_conditions bucket key None req req_id)
    (r ← payload bucket key None None req_id;
     match r with
     | Ok obj => object_payload_response bucket req req_id obj 200 None
     | Err response => marker_or bucket key req req_id response
     end).

(** [object_head] of the current object. *)
Definition head_builder (req : Request) (obj : Object) (req_id : string) : io S ResponseBuilder :=
  b ← object_response_headers
        (with_header "Content-Length" (pretty (o_size obj)) (with_content_type (o_content_type obj) (new_builder 200)))
        obj req_id;
  mret (retrieval_headers b req obj).

Definition head_found (bucket : string) (req : Request) (obj : Object) (req_id : string) : io S Response :=
  unless_answered (validate_get_sse_headers req obj req_id)
    (unless_answered (check_object_conditionals req obj req_id)
      (b ← head_builder req obj req_id; empty_with_cors bucket req b)).

Definition head_missing (bucket : string) (req : Request) (req_id : string) : io S Response :=
  b ← add_ids req_id (new_builder 404); empty_with_cors bucket req b.

Definition head_response (bucket key : string) (req : Request) (req_id : string) : io S Response :=
  match query_param req "versionId" with
  | Some version_id =>
      r ← attempt (st_get_object_version_metadata bucket key version_id);
      match r with
      | Ok obj => if is_s3_delete_marker obj then delete_marker_response bucket req req_id obj true true
                  else head_found bucket req obj req_id
      | Err KeyNotFound | Err NoSuchVersion => head_missing bucket req req_id
      | Err e => internal_error_response e req_id
      end
  | None =>
      r ← attempt (st_get_object_metadata bucket key);
      match r with
      | Ok obj => head_found bucket req obj req_id
      | Err _ =>
          marker ← current_delete_marker bucket key;
          match marker with
          | Some marker => delete_marker_response bucket req req_id marker false true
          | None => head_missing bucket req req_id
          end
      end
  end.

End Handlers.
