(* ===== verification/ObjectWrites.v ===== *)
(** * ObjectWrites: the requests of [src/server/handlers/object.rs] that change objects

    Admission of a put, storing its body, copying an object and deleting one,
    over the store interface of [ObjectHandlers]. *)

From Stdlib Require Import Ascii Strings.Byte.
From stdpp Require Import pretty.
From S2P Require Import Prelude Text Models Policy SkipMap Index Utf8 Validation FsModel Publication.
From S2P Require Import Lifecycle Storage Versions Listing LifecycleExecutor.
From S2P Require Import Http Cors Checksums ObjectHelpers Routing XmlDocuments ObjectHandlers.

Section Writes.
Context `{HttpLib} `{HelperEnv} `{Chrono} `{PayloadDigests} `{Digests} `{QuickXml} `{Env} `{HashOrder}.
Context {S : Type} `{S3Storage S}.

(** ** Admission of a put *)

Definition object_lock_headers_requested (req : Request) : bool :=
  existsb (fun h => is_some (header req h))
    ["x-amz-object-lock-mode"; "x-amz-object-lock-retain-until-date"; "x-amz-object-lock-legal-hold"].

(** The decision of [validate_object_lock_put_request] at the time [t]. *)
Definition object_lock_refusal (lock_enabled : bool) (t : time) (req : Request) : option refusal_of :=
  let mode := header req "x-amz-object-lock-mode" in
  let retain_until := header req "x-amz-object-lock-retain-until-date" in
  if negb lock_enabled
  then Some (400%N, "InvalidRequest", "Bucket is missing an Object Lock configuration.")
  else if negb (eqb (is_some mode) (is_some retain_until))
  then Some (400%N, "InvalidRequest", "Object Lock mode and retain-until date must be supplied together.")
  else if is_some_and (fun mode => negb (eqb mode "GOVERNANCE" || eqb mode "COMPLIANCE")) mode
  then Some (400%N, "InvalidRequest", "Unsupported object lock mode")
  else if is_some mode
          && negb (is_some_and (fun until => (t <? until)%Z) (retain_until ≫= parse_lock_timestamp))
  then Some (400%N, "InvalidRequest", "Object Lock retain-until date must be a valid future timestamp.")
  else if is_none (header req "x-amz-copy-source") && is_none (header req "content-md5") then
    Some (if is_some (header req "x-amz-sdk-checksum-algorithm")
          then (501%N, "NotImplemented", "SDK checksum algorithms for Object Lock PUT are not supported by this emulator subset.")
          else (400%N, "InvalidRequest", "Content-MD5 is required when Object Lock parameters are supplied."))
  else None.

Definition validate_object_lock_put_request (bucket : string) (req : Request) (req_id : string)
    : io S (option Response) :=
  if negb (object_lock_headers_requested req) then mret None
  else
    b ← attempt (st_get_bucket bucket);
    let lock_enabled := match b with
                        | Ok b => eqb (b_metadata b !! "s3_object_lock_enabled") (Some "true")
                        | Err _ => false
                        end in
    t ← now;
    refuse (object_lock_refusal lock_enabled t req) req_id.

Definition s3_mutation_preserves_current_version (bucket : string) (current : Object) : io S bool :=
  b ← attempt (st_get_bucket bucket);
  mret (match b with
        | Err _ => false
        | Ok b =>
            b_versioning_enabled b
            || eqb (b_metadata b !! "s3_versioning_status") (Some "Suspended")
               && negb (eqb (o_version_id current) (Some "null"))
        end).

(** A locked object that a mutation would replace. *)
Definition locked_in_place (bucket : string) (current : Object) : io S bool :=
  t ← now;
  if negb (object_is_locked t current) then mret false
  else preserved ← s3_mutation_preserves_current_version bucket current; mret (negb preserved).

Definition put_admission (bucket : string) (req : Request) (existing : option Object) (req_id : string)
    : io S (option Response) :=
  or_else
    (match existing with
     | None => mret None
     | Some existing =>
         locked ← locked_in_place bucket existing;
         if (locked : bool) then r ← locked_object_response req_id; mret (Some r) else mret None
     end)
    (check_put_conditionals req existing req_id).

Definition md5_refusal (req : Request) : option refusal_of :=
  if is_none (hm_get "content-md5" (rq_headers req)) then None
  else
    match header req "content-md5" with
    | Some value =>
        if negb (Nat.eqb (occurrences "content-md5" req) 1)
        then Some (400%N, "InvalidDigest", "Content-MD5 must occur once and contain an ASCII digest.")
        else
          match base64_decode value with
          | None => Some (400%N, "InvalidDigest", "The Content-MD5 value is not valid base64.")
          | Some decoded =>
              if negb (Nat.eqb (length decoded) 16)
              then Some (400%N, "InvalidDigest", "The Content-MD5 value is not a valid MD5 digest.")
              else if negb (eqb decoded (payload_md5 req))
              then Some (400%N, "BadDigest", "The Content-MD5 value does not match the request body.")
              else None
          end
    | None => Some (400%N, "InvalidDigest", "Content-MD5 must occur once and contain an ASCII digest.")
    end.

Definition validate_content_md5 (req : Request) (req_id : string) : io S (option Response) :=
  refuse (md5_refusal req) req_id.

(** ** Storing a body *)

Definition target_refusal (bucket key : string) : option refusal_of :=
  match validate_bucket_name bucket with
  | Err err => Some (400%N, "InvalidBucketName", err)
  | Ok _ => match validate_blob_key key with
            | Err err => Some (400%N, "InvalidKey", err)
            | Ok _ => None
            end
  end.

Definition validate_put_target (bucket key req_id : string) : io S (option Response) :=
  refuse (target_refusal bucket key) req_id.

Definition put_object_response (bucket key : string) (req : Request) (req_id etag : string) : io S Response :=
  stored ← attempt (st_get_object_metadata bucket key);
  let stored_version_id := match stored with Ok obj => o_version_id obj | Err _ => None end in
  host_id ← generate_request_id;
  t ← now;
  let b := add_version_header
    (with_header "x-amz-id-2" host_id
      (with_header "x-amz-request-id" req_id
        (with_header "ETag" (quoted_etag etag)
          (with_header "Content-Length" "0" (new_builder 200))))) stored_version_id in
  let checksum_identity := replace_identity req (new_object t key [] "application/octet-stream") in
  empty_with_cors bucket req (response_headers b checksum_identity).

(** What a put or a copy reports after the store answered: [Some false] for a
    condition that did not hold. *)
Definition stored_answer (r : Res (option bool)) (success : io S Response) (req_id : string) : io S Response :=
  match r with
  | Ok (Some false) => precondition_failed_response req_id
  | Ok _ => success
  | Err err => internal_error_response err req_id
  end.

Definition store_with (bucket : string) (obj : Object) (condition : option ObjectCondition) (spooled : option path)
    : io S (option bool) :=
  match condition, spooled with
  | Some condition, Some payload_path =>
      wrote ← st_put_object_streamed_if bucket (o_key obj) obj payload_path condition; mret (Some wrote)
  | Some condition, None => wrote ← st_put_object_if bucket (o_key obj) obj condition; mret (Some wrote)
  | None, Some payload_path => st_put_object_streamed bucket (o_key obj) obj payload_path;; mret None
  | None, None => st_put_object bucket (o_key obj) obj;; mret None
  end.

Definition store_put_object (bucket key : string) (req : Request) (req_id : string) (obj : Object) : io S Response :=
  if is_some_and (fun value => negb (eqb (Text.trim value) "*")) (header req "if-none-match")
  then xml_error_response 400 "InvalidArgument" "If-None-Match for PutObject only supports the '*' value." req_id
  else
    found ← (if is_some (header req "if-match")
             then r ← attempt (st_get_object_metadata bucket key); mret (is_ok r) else mret true);
    if negb found then missing_key_response req_id
    else
      r ← attempt (store_with bucket obj (mutation_condition req) (sp_path <$> rq_spooled_body req));
      stored_answer r (put_object_response bucket key req req_id (o_etag obj)) req_id.

(** The object of a put before the request's contracts are applied. *)
Definition put_candidate (t : time) (key : string) (req : Request) : Object :=
  let content_type := default "application/octet-stream" (header req "content-type") in
  let metadata := extract_metadata req in
  match rq_spooled_body req with
  | Some spooled =>
      with_size (sp_len spooled)
        (new_with_metadata_and_etag t key [] content_type metadata (hex_encode (sp_md5 spooled)))
  | None => new_with_metadata t key (rq_body req) content_type metadata
  end.

Definition put_object_body (bucket key : string) (req : Request) (req_id : string) (existing : option Object)
    : io S Response :=
  unless_answered (validate_put req req_id)
    (unless_answered (validate_content_md5 req req_id)
      (unless_answered (validate_put_target bucket key req_id)
        (match parse_optional_tagging_header req with
         | Err message => xml_error_response 400 "InvalidTag" message req_id
         | Ok tags =>
             t ← now;
             let obj := put_candidate t key req in
             obj ← match existing with
                   | None => mret obj
                   | Some existing =>
                       let obj := set_provider (o_provider_metadata existing) obj in
                       preserved ← s3_mutation_preserves_current_version bucket existing;
                       mret (if (preserved : bool) then clear_object_lock_metadata obj else obj)
                   end;
             let obj := replace_identity req (replace_content_properties req obj) in
             match apply_s3_request_contracts req obj with
             | Err r => answer r req_id
             | Ok obj =>
                 store_put_object bucket key req req_id
                   (match tags with Some tags => with_tags tags obj | None => obj end)
             end
         end))).

(** ** Copying *)

Definition copy_object_replaces_metadata (req : Request) : bool :=
  Text.eq_ignore_ascii_case (default "COPY" (header req "x-amz-metadata-directive")) "REPLACE".

Definition copy_object_metadata (req : Request) (src : Object) : strmap :=
  if copy_object_replaces_metadata req then extract_metadata req else o_metadata src.

Definition copy_object_tags (req : Request) (src : Object) : result string (option strmap) :=
  let tagging_directive := default "COPY" (header req "x-amz-tagging-directive") in
  match header req "x-amz-tagging" with
  | Some tagging_header =>
      if Text.eq_ignore_ascii_case tagging_directive "REPLACE"
      then match parse_tagging_header tagging_header with
           | Ok tags => Ok (Some tags)
           | Err err => Err ("Invalid tags: " +:+ err)
           end
      else Err "x-amz-tagging requires x-amz-tagging-directive: REPLACE"
  | None =>
      if Text.eq_ignore_ascii_case tagging_directive "COPY" then Ok (Some (o_tags src)) else Ok (Some ∅)
  end.

Fixpoint directive_refusal (req : Request) (headers : list string) : option refusal_of :=
  match headers with
  | [] => None
  | h :: rest =>
      if is_some_and (fun value => negb (Text.eq_ignore_ascii_case value "COPY")
                                   && negb (Text.eq_ignore_ascii_case value "REPLACE")) (header req h)
      then Some (400%N, "InvalidArgument", h +:+ " must be COPY or REPLACE.")
      else directive_refusal req rest
  end.

Definition copy_refusal (req : Request) : option refusal_of :=
  if is_some_and (fun value => negb (eqb (Text.trim value) "*")) (header req "if-none-match")
  then Some (400%N, "InvalidArgument", "If-None-Match for CopyObject only supports the '*' value.")
  else if is_some (header req "x-amz-copy-source-range")
  then Some (400%N, "InvalidRequest", "x-amz-copy-source-range is valid only for UploadPartCopy.")
  else directive_refusal req ["x-amz-metadata-directive"; "x-amz-tagging-directive"].

Definition validate_copy_request_contract (req : Request) (req_id : string) : io S (option Response) :=
  refuse (copy_refusal req) req_id.

Definition COPY_ENCODING : refusal_of :=
  (400%N, "InvalidArgument", "The x-amz-copy-source header contains invalid percent encoding.").

(** [find_map] over the parameters of the query *)
Definition version_parameter (query : string) : option string :=
  head (omap (fun parameter =>
    nv ← Text.split_once "=" parameter; if eqb nv.1 "versionId" then Some nv.2 else None) (Text.split "&" query)).

Definition parse_copy_source_header (copy_source : string) : result refusal_of (string * string * option string) :=
  match Text.split_once "/" (Text.drop_leading "/" copy_source) with
  | None => Err (400%N, "InvalidArgument", "Invalid copy source format")
  | Some (source_bucket, key_and_query) =>
      let '(source_key, version) :=
        match Text.split_once "?" key_and_query with
        | None => (key_and_query, None)
        | Some (key, query) => (key, version_parameter query)
        end in
      match decode_uri_path source_bucket, decode_uri_path source_key with
      | Ok b, Ok k =>
          match version with
          | None => Ok (b, k, None)
          | Some v => match decode_uri_path v with
                      | Ok v => Ok (b, k, Some v)
                      | Err _ => Err COPY_ENCODING
                      end
          end
      | _, _ => Err COPY_ENCODING
      end
  end.

(** The object a copy stores, before the request's contracts are applied. *)
Definition copy_candidate (t : time) (key : string) (req : Request) (src : Object) : Object :=
  let content_type := if copy_object_replaces_metadata req
                      then default "application/octet-stream" (header req "content-type") else o_content_type src in
  let dest := clear_object_lock_metadata
    (set_provider (o_provider_metadata src)
      (new_with_metadata t key (o_data src) content_type (copy_object_metadata req src))) in
  if copy_object_replaces_metadata req then replace_content_properties req dest else dest.

Definition copy_xml (etag : string) (t : time) : string :=
  xml_declaration +:+ NL +:+
  "<CopyObjectResult xmlns=" +:+ quoted "http://s3.amazonaws.com/doc/2006-03-01/" +:+ ">" +:+ NL +:+
  "    <ETag>" +:+ quoted_etag etag +:+ "</ETag>" +:+ NL +:+
  "    <LastModified>" +:+ http_date t +:+ "</LastModified>" +:+ NL +:+
  "</CopyObjectResult>".

Definition copy_object_response (bucket key : string) (req : Request) (req_id etag : string) (t : time) : io S Response :=
  stored ← attempt (st_get_object_metadata bucket key);
  let stored_version_id := match stored with Ok obj => o_version_id obj | Err _ => None end in
  b ← with_cors bucket req
        (add_version_header
          (with_header "x-amz-request-id" req_id
            (with_content_type "application/xml; charset=utf-8" (new_builder 200))) stored_version_id);
  mret (build (with_body (as_bytes (copy_xml etag t)) b)).

Definition store_copied_object (bucket key : string) (req : Request) (req_id : string) (dest : Object) : io S Response :=
  r ← attempt (store_with bucket dest (mutation_condition req) None);
  stored_answer r (copy_object_response bucket key req req_id (o_etag dest) (o_last_modified dest)) req_id.

Definition copy_loaded_object (bucket key : string) (req : Request) (req_id : string) (src : Object) : io S Response :=
  if is_s3_delete_marker src
  then xml_error_response 400 "InvalidRequest" "The source of a copy request may not refer to a delete marker." req_id
  else
    unless_answered (check_copy_conditionals req src req_id)
      (unless_answered (validate_copy_request_contract req req_id)
        (match copy_object_tags req src with
         | Err message => xml_error_response 400 "InvalidTag" message req_id
         | Ok tags =>
             t ← now;
             match apply_s3_request_contracts req (copy_candidate t key req src) with
             | Err r => answer r req_id
             | Ok dest => store_copied_object bucket key req req_id (with_tags (default (o_tags src) tags) dest)
             end
         end)).

(** ** Foreign protection *)

(** [bucket_has_foreign_data_protection] of [src/server/handlers/mod.rs] *)
Definition positive_setting (metadata : strmap) (key : string) : bool :=
  is_some_and (fun n => 0 <? n)%N (metadata !! key ≫= Text.parse_u64).
Definition bucket_has_foreign_data_protection (metadata : strmap) : bool :=
  positive_setting metadata "gcs_soft_delete_seconds"
  || positive_setting metadata "gcs_retention_seconds"
  || eqb (metadata !! "azure_versioning_enabled") (Some "true")
  || positive_setting metadata "azure_soft_delete_days".

(** The scan of [azure_object_protection_active] ([src/providers/mod.rs]), page by
    page; [pages] bounds the number of pages read. *)
Fixpoint azure_scan (pages : nat) (bucket : string) (t : time) (marker : option string) : io S bool :=
  match pages with
  | O => mret true
  | Datatypes.S pages =>
      page ← attempt (st_list_objects bucket None None marker (Some 1000%N));
      match page with
      | Err BucketNotFound => mret false
      | Err _ => mret true
      | Ok page =>
          if existsb (fun o => object_has_active_azure_protection o t) (l_objects page) then mret true
          else if negb (l_is_truncated page) then mret false
          else match l_next_marker page with
               | None => mret true
               | Some next => if eqb marker (Some next) then mret true else azure_scan pages bucket t (Some next)
               end
      end
  end.

Definition azure_object_protection_active (pages : nat) (bucket : string) : io S bool :=
  absent ← st_azure_object_protection_absent bucket;
  if (absent : bool) then mret false else t ← now; azure_scan pages bucket t None.

Definition s3_foreign_history_conflict (pages : nat) (bucket : string) : io S bool :=
  azure ← azure_object_protection_active pages bucket;
  if (azure : bool) then mret true
  else
    b ← attempt (st_get_bucket bucket);
    mret (match b with Ok b => bucket_has_foreign_data_protection (b_metadata b) | Err _ => false end).

Definition s3_foreign_history_conflict_response (req_id : string) : io S Response :=
  xml_error_response 409 "InvalidBucketState" "S3 versioning and object mutations are unavailable while a foreign-provider data-protection mode is active." req_id.

Definition copy_object (pages : nat) (bucket key copy_source : string) (req : Request) (req_id : string) : io S Response :=
  match parse_copy_source_header copy_source with
  | Err r => answer r req_id
  | Ok (source_bucket, source_key, source_version_id) =>
      conflict ← s3_foreign_history_conflict pages source_bucket;
      if (conflict : bool) then s3_foreign_history_conflict_response req_id
      else
        unless_answered
          (r ← attempt (metadata source_bucket source_key source_version_id);
           match r with
           | Ok src => check_copy_conditionals req src req_id
           | Err _ => mret None
           end)
          (r ← payload source_bucket source_key source_version_id None req_id;
           match r with
           | Ok src => copy_loaded_object bucket key req req_id src
           | Err response => mret response
           end)
  end.

(** ** Tags and ACLs *)

Definition ok_empty_object_response (bucket : string) (req : Request) (req_id : string) : io S Response :=
  b ← add_ids req_id (new_builder 200); empty_with_cors bucket req b.

Definition update_answer (bucket : string) (req : Request) (req_id : string) (r : Res unit) : io S Response :=
  match r with
  | Ok _ => ok_empty_object_response bucket req req_id
  | Err KeyNotFound => xml_error_response 404 "NoSuchKey" "Key not found" req_id
  | Err err => internal_error_response err req_id
  end.

(** [Err] is a request that cannot be answered. *)
Definition put_object_tagging (bucket key : string) (req : Request) (req_id : string) : io S (result string Response) :=
  existing ← attempt (st_get_object_metadata bucket key);
  t ← now;
  if match existing with Ok o => object_is_locked t o | Err _ => false end
  then r ← locked_object_response req_id; mret (Ok r)
  else
    match Utf8.from_utf8 (rq_body req) with
    | None => mret (Err ("Invalid UTF-8 body: " +:+ Utf8.utf8_error (rq_body req)))
    | Some body =>
        r ← match parse_tagging_xml body with
            | Err message => xml_error_response 400 "MalformedXML" message req_id
            | Ok tags =>
                r ← attempt (st_put_object_tags bucket key tags);
                update_answer bucket req req_id r
            end;
        mret (Ok r)
    end.

Definition put_object_acl_request (bucket key : string) (req : Request) (req_id : string) : io S Response :=
  let parsed := match rq_body req with
                | [] => match acl_from_headers req with Ok a => Ok a | Err m => Err ("InvalidArgument", m) end
                | body => match acl_from_xml_body body with Ok a => Ok a | Err m => Err ("MalformedXML", m) end
                end in
  match parsed with
  | Err (code, message) => xml_error_response 400 code message req_id
  | Ok acl => r ← attempt (st_put_object_acl bucket key acl); update_answer bucket req req_id r
  end.

Definition xml_success_response (status : N) (xml req_id : string) : io S Response :=
  host_id ← generate_request_id;
  mret (build (with_body (as_bytes xml)
    (with_header "x-amz-id-2" host_id
      (with_header "x-amz-request-id" req_id
        (with_content_type "application/xml; charset=utf-8" (new_builder status)))))).

Definition object_tagging_response (bucket key req_id : string) : io S Response :=
  r ← attempt (st_get_object_tags bucket key);
  match r with
  | Ok tags => xml_success_response 200 (tagging_xml tags) req_id
  | Err e => storage_error_response e req_id
  end.

Definition object_acl_response (bucket key req_id : string) : io S Response :=
  r ← attempt (st_get_object_acl bucket key);
  match r with
  | Ok acl => xml_success_response 200 (acl_xml "sqrzl-emulator" "S3 Emulator" acl) req_id
  | Err e => storage_error_response e req_id
  end.

(** ** Deleting *)

Definition no_content_object_response (bucket : string) (req : Request) (req_id : string) : io S Response :=
  b ← add_ids req_id (new_builder 204); empty_with_cors bucket req b.

(** [max_by_key] of modification time: the last of the maxima. *)
Definition latest_modified (l : list Object) : option Object :=
  match l with
  | [] => None
  | a :: rest =>
      Some (foldl (fun best o => if (o_last_modified best <=? o_last_modified o)%Z then o else best) a rest)
  end.

Definition delete_current_success_response (bucket key : string) (req : Request) (req_id : string) : io S Response :=
  versions ← attempt (st_list_object_versions_for_key bucket key);
  let marker_version :=
    match versions with
    | Ok versions => latest_modified (filter (fun v => is_s3_delete_marker v = true) versions) ≫= o_version_id
    | Err _ => None
    end in
  b ← add_ids req_id (new_builder 204);
  let b := match marker_version with
           | Some version_id => with_header "x-amz-version-id" version_id (with_header "x-amz-delete-marker" "true" b)
           | None => b
           end in
  empty_with_cors bucket req b.

Definition remove_current (bucket key : string) (condition : option ObjectCondition) : io S (option bool) :=
  existing ← attempt (st_get_object_metadata bucket key);
  locked ← match existing with Ok existing => locked_in_place bucket existing | Err _ => mret false end;
  if (locked : bool) then fail AccessDenied
  else
    match condition with
    | Some condition => gone ← st_delete_object_if bucket key condition; mret (Some gone)
    | None => st_delete_object bucket key;; mret None
    end.

Definition delete_current_object (bucket key : string) (req : Request) (req_id : string) : io S Response :=
  absent ← (if is_some (header req "if-match")
            then r ← attempt (st_get_object_metadata bucket key);
                 mret (match r with Err KeyNotFound => true | _ => false end)
            else mret false);
  if (absent : bool) then
    marker ← current_delete_marker bucket key;
    if is_some marker then precondition_failed_response req_id else missing_key_response req_id
  else
    r ← attempt (remove_current bucket key (mutation_if_match_condition req));
    match r with
    | Ok (Some false) => precondition_failed_response req_id
    | Ok _ => delete_current_success_response bucket key req req_id
    | Err KeyNotFound => no_content_object_response bucket req req_id
    | Err AccessDenied => locked_object_response req_id
    | Err err => internal_error_response err req_id
    end.

(** Retention in governance mode, without a legal hold. *)
Definition governance_locked (t : time) (o : Object) : bool :=
  eqb (o_provider_metadata o !! S3_OBJECT_LOCK_MODE_KEY) (Some "GOVERNANCE")
  && is_none_or (fun hold => negb (Text.eq_ignore_ascii_case hold "ON"))
       (o_provider_metadata o !! S3_OBJECT_LOCK_LEGAL_HOLD_KEY)
  && object_is_locked t o.

Definition bypass_refusal (t : time) (target : Res Object) (bypass : option string) : option refusal_of :=
  match bypass with
  | None => None
  | Some value =>
      if negb (Text.eq_ignore_ascii_case value "true") && negb (Text.eq_ignore_ascii_case value "false")
      then Some (400%N, "InvalidArgument", "x-amz-bypass-governance-retention must be true or false.")
      else if Text.eq_ignore_ascii_case value "true"
              && match target with Ok o => governance_locked t o | Err _ => false end
      then Some (501%N, "NotImplemented", "Permission-aware governance retention bypass is not supported.")
      else None
  end.

Definition delete_object_version_request (bucket key : string) (req : Request) (req_id : string) : io S Response :=
  let version_id := default "" (query_param req "versionId") in
  target ← attempt (st_get_object_version_metadata bucket key version_id);
  t ← now;
  unless_answered (refuse (bypass_refusal t target (header req "x-amz-bypass-governance-retention")) req_id)
    (t ← now;
     if match target with Ok o => object_is_locked t o | Err _ => false end then locked_object_response req_id
     else
       let deleting_marker := match target with Ok o => is_s3_delete_marker o | Err _ => false end in
       r ← attempt (st_delete_object_version bucket key version_id);
       match r with
       | Ok _ | Err KeyNotFound | Err NoSuchVersion =>
           b ← add_ids req_id (new_builder 204);
           let b := with_header "x-amz-version-id" version_id b in
           empty_with_cors bucket req (if deleting_marker then with_header "x-amz-delete-marker" "true" b else b)
       | Err err => internal_error_response err req_id
       end).

Definition delete_object_tagging (bucket key : string) (req : Request) (req_id : string) : io S Response :=
  existing ← attempt (st_get_object_metadata bucket key);
  t ← now;
  if match existing with Ok o => object_is_locked t o | Err _ => false end then locked_object_response req_id
  else
    r ← attempt (st_delete_object_tags bucket key);
    match r with
    | Ok _ | Err KeyNotFound => no_content_object_response bucket req req_id
    | Err err => internal_error_response err req_id
    end.

(** [object_delete] behind authorization and the check of the bucket's history,
    for a request that names no upload. *)
Definition delete_content (bucket key : string) (req : Request) (req_id : string) : io S Response :=
  if has_query_param req "tagging" then delete_object_tagging bucket key req req_id
  else if has_query_param req "versionId" then delete_object_version_request bucket key req req_id
  else delete_current_object bucket key req req_id.

End Writes.
