(* ===== verification/MultipartRequests.v ===== *)
(** * MultipartRequests: multipart uploads over HTTP

    [src/server/handlers/object/multipart_checksums.rs] and the multipart requests
    of [src/server/handlers/object.rs]: initiation, parts, copies of parts, the
    list of parts, completion and abortion. *)

From Stdlib Require Import Ascii Strings.Byte.
From stdpp Require Import pretty.
From S2P Require Import Prelude Text Models Policy SkipMap Index Utf8 Validation FsModel Publication.
From S2P Require Import Lifecycle Storage Versions Listing Multipart LifecycleExecutor.
From S2P Require Import Http Cors Checksums ObjectHelpers Routing XmlDocuments ObjectHandlers ObjectWrites.

Class S3Uploads (S : Type) : Type := {
  st_get_multipart_upload : string -> string -> io S MultipartUpload;
  st_upload_part : string -> string -> N -> bytes -> io S string;
  st_upload_part_streamed : string -> string -> N -> path -> N -> string -> io S string;
  st_create_multipart_upload : string -> string -> option string -> strmap -> strmap -> io S MultipartUpload;
  st_complete_multipart_upload : string -> string -> list (N * string) -> MultipartCompletion -> io S string;
  st_abort_multipart_upload : string -> string -> io S unit }.

#[export] Instance filesystem_uploads {M} `{SkipMap M} `{Env} `{StoreEnv} `{Digests} `{UploadEnv} : S3Uploads (World M) := {|
  st_get_multipart_upload := get_multipart_upload;
  st_upload_part := upload_part;
  st_upload_part_streamed := upload_part_streamed;
  st_create_multipart_upload := create_multipart_upload_with_metadata;
  st_complete_multipart_upload := complete_multipart_upload_checked;
  st_abort_multipart_upload := abort_multipart_upload |}.

(** [u32::from_be_bytes] *)
Definition be_value (b : bytes) : N := foldl (fun n x => n * 256 + Byte.to_N x)%N 0%N b.

Section Checksums.
Context `{HttpLib} `{PayloadDigests} `{QuickXml}.

(** ** [multipart_checksums.rs] *)

Definition checksums_enabled (u : MultipartUpload) : bool :=
  eqb (u_provider_metadata u !! "s3_checksum_algorithm") (Some "CRC32C").

Definition allowed (req : Request) (names : list string) : bool :=
  negb (existsb (fun e =>
          (Text.starts_with e.1 CHECKSUM_PREFIX || eqb e.1 "x-amz-sdk-checksum-algorithm")
          && (negb (existsb (eqb e.1) names) || negb (Nat.eqb (occurrences e.1 req) 1))) (hm_entries (rq_headers req)))
  && is_none (header req "x-amz-trailer") && negb (aws_chunked req) && negb (streaming_signature req).

Definition INTEGRITY_MESSAGE : string := "Multipart integrity and publication headers must contain one ASCII value.".

(** A header that has to be single ASCII text. *)
Definition watched_header (name : string) : bool :=
  Text.starts_with name CHECKSUM_PREFIX
  || existsb (eqb name) ["x-amz-sdk-checksum-algorithm"; "x-amz-mp-object-size"; "if-match"; "if-none-match"].

Fixpoint headers_refusal (req : Request) (entries : list (string * string)) : option refusal_of :=
  match entries with
  | [] => None
  | (name, _) :: rest =>
      if negb (watched_header name) then headers_refusal req rest
      else if negb (Nat.eqb (occurrences name req) 1)
              || existsb (fun e => eqb e.1 name && negb (to_str e.2)) (hm_entries (rq_headers req))
      then Some (400%N,
                 (if Text.starts_with name CHECKSUM_PREFIX
                     && negb (existsb (eqb name) ["x-amz-checksum-algorithm"; "x-amz-checksum-type"])
                  then "InvalidDigest" else "InvalidRequest"), INTEGRITY_MESSAGE)
      else headers_refusal req rest
  end.

Definition initiate (req : Request) : result refusal_of bool :=
  match headers_refusal req (hm_entries (rq_headers req)) with
  | Some r => Err r
  | None =>
      if negb (requested req) then Ok false
      else if negb (allowed req ["x-amz-checksum-algorithm"; "x-amz-checksum-type"])
              || negb (eqb (header req "x-amz-checksum-algorithm") (Some "CRC32C"))
              || negb (eqb (header req "x-amz-checksum-type") (Some "FULL_OBJECT"))
      then Err UNSUPPORTED else Ok true
  end.

Definition decode_crc (value : string) : option N :=
  b ← base64_decode value; if Nat.eqb (length b) 4 then Some (be_value b) else None.

Definition INVALID_CRC : refusal_of := (400%N, "InvalidDigest", "CRC32C must be a Base64 encoded 32-bit digest.").

Definition part_refusal (req : Request) (u : MultipartUpload) : option refusal_of :=
  match headers_refusal req (hm_entries (rq_headers req)) with
  | Some r => Some r
  | None =>
      if negb (checksums_enabled u) then (if requested req then Some UNSUPPORTED else None)
      else if negb (allowed req ["x-amz-checksum-crc32c"; "x-amz-sdk-checksum-algorithm"]) then Some UNSUPPORTED
      else if is_some (header req "x-amz-sdk-checksum-algorithm") && is_none (header req "x-amz-checksum-crc32c")
      then Some (400%N, "InvalidRequest", "The SDK checksum selector requires a checksum header.")
      else match header req "x-amz-checksum-crc32c" with
           | None => None
           | Some value =>
               match decode_crc value with
               | None => Some INVALID_CRC
               | Some crc => if (crc =? payload_crc32c req)%N then None
                             else Some (400%N, "BadDigest", "The part checksum does not match the payload.")
               end
           end
  end.

Definition part_headers (b : ResponseBuilder) (req : Request) (u : MultipartUpload) : ResponseBuilder :=
  if checksums_enabled u
  then with_header "x-amz-checksum-crc32c" (base64_encode (be_bytes 4 (payload_crc32c req))) b else b.

(** *** The completion manifest *)

(** [local_name] of an element *)
Definition local_name (name : string) : string :=
  match Text.split_once ":" name with Some (_, local) => local | None => name end.

(** [Reader::from_reader] without trimming reports the same elements. *)
Fixpoint requests_checksum (events : list XmlEvent) : bool :=
  match events with
  | [] | XError _ :: _ => false
  | (XStart name | XEmpty name) :: rest => Text.starts_with (local_name name) "Checksum" || requests_checksum rest
  | _ :: rest => requests_checksum rest
  end.
Definition manifest_requests_checksum (body : bytes) : bool := requests_checksum (xml_events (text_of_bytes body)).

Definition MALFORMED : refusal_of := (400%N, "MalformedXML", "Invalid completion manifest schema.").

(** A [Part] element ends: its fields are complete and its checksum is the stored one. *)
Definition validate_manifest_part (u : MultipartUpload) (manifest : list (N * string)) (index : nat)
    (fields : list string) (checksum : string) : result refusal_of unit :=
  match manifest !! index with
  | None => Err MALFORMED
  | Some (number, _) =>
      if negb (existsb (eqb "PartNumber") fields && existsb (eqb "ETag") fields) then Err MALFORMED
      else if existsb (eqb "ChecksumCRC32C") fields then
        let expected := decode_crc checksum in
        let stored := List.find (fun p => (p_part_number p =? number)%N) (u_parts u) ≫= p_crc32c in
        if is_none expected || negb (eqb expected stored)
        then Err (400%N, "InvalidPart", "The part checksum differs from the stored part.") else Ok tt
      else Ok tt
  end.

(** [u8::is_ascii_whitespace] *)
Definition is_ascii_whitespace (b : N) : bool := ((b =? 32) || (b =? 9) || (b =? 10) || (b =? 12) || (b =? 13))%N.

(** The path is the innermost element first. *)
Fixpoint scan_manifest (u : MultipartUpload) (manifest : list (N * string)) (events : list XmlEvent)
    (path fields : list string) (index : nat) (root_seen : bool) (checksum : string) : result refusal_of unit :=
  let in_checksum := match path with top :: _ => eqb top "ChecksumCRC32C" | [] => false end in
  match events with
  | [] => if root_seen && is_none (head path) && Nat.eqb index (length manifest) then Ok tt else Err MALFORMED
  | XStart tag :: rest =>
      let name := local_name tag in
      match length path with
      | 0 => if negb root_seen && eqb name "CompleteMultipartUpload"
             then scan_manifest u manifest rest (name :: path) fields index true checksum else Err MALFORMED
      | 1 => if eqb name "Part" then scan_manifest u manifest rest (name :: path) fields index true checksum else Err MALFORMED
      | 2 => if Text.starts_with name "Checksum" && negb (eqb name "ChecksumCRC32C") then Err UNSUPPORTED
             else if existsb (eqb name) ["PartNumber"; "ETag"; "ChecksumCRC32C"] && negb (existsb (eqb name) fields)
             then scan_manifest u manifest rest (name :: path) (name :: fields) index true checksum else Err MALFORMED
      | _ => Err MALFORMED
      end
  | XText raw :: rest =>
      if in_checksum then
        match unescape raw with
        | Ok t => scan_manifest u manifest rest path fields index root_seen (checksum +:+ t)
        | Err _ => Err MALFORMED
        end
      else if Nat.ltb (length path) 3 && negb (all_of is_ascii_whitespace raw) then Err MALFORMED
      else scan_manifest u manifest rest path fields index root_seen checksum
  | XRef name :: rest =>
      if negb (Nat.eqb (length path) 3) then Err MALFORMED
      else match unescape ("&" +:+ name +:+ ";") with
           | Ok t => scan_manifest u manifest rest path fields index root_seen
                       (if in_checksum then checksum +:+ t else checksum)
           | Err _ => Err MALFORMED
           end
  | XCData raw :: rest =>
      if negb (Nat.eqb (length path) 3) then Err MALFORMED
      else scan_manifest u manifest rest path fields index root_seen (if in_checksum then checksum +:+ raw else checksum)
  | XEnd tag :: rest =>
      let name := local_name tag in
      match path with
      | top :: outer =>
          if negb (eqb top name) then Err MALFORMED
          else if eqb name "Part" then
            validate_manifest_part u manifest index fields checksum;;
            scan_manifest u manifest rest outer [] (Datatypes.S index) root_seen ""
          else scan_manifest u manifest rest outer fields index root_seen checksum
      | [] => Err MALFORMED
      end
  | XComment :: rest => scan_manifest u manifest rest path fields index root_seen checksum
  | (XEmpty _ | XOther | XError _) :: _ => Err MALFORMED
  end.

Definition validate_manifest (req : Request) (u : MultipartUpload) (manifest : list (N * string)) : result refusal_of unit :=
  scan_manifest u manifest (xml_events (text_of_bytes (rq_body req))) [] [] 0 false "".

(** The part numbers are 1, 2, ... *)
Definition consecutive (manifest : list (N * string)) : bool :=
  eqb (fst <$> manifest) ((fun i => N.of_nat (i + 1)) <$> seq 0 (length manifest)).

Definition completion (req : Request) (u : MultipartUpload) (manifest : list (N * string)) : result refusal_of MultipartCompletion :=
  match headers_refusal req (hm_entries (rq_headers req)) with
  | Some r => Err r
  | None =>
      if negb (allowed req ["x-amz-checksum-crc32c"; "x-amz-checksum-type"])
         || negb (checksums_enabled u) && (requested req || manifest_requests_checksum (rq_body req))
      then Err UNSUPPORTED
      else if is_some_and (fun v => negb (eqb v "FULL_OBJECT")) (header req "x-amz-checksum-type")
      then Err (400%N, "BadDigest", "The checksum type differs from multipart initiation.")
      else
        crc ← match header req "x-amz-checksum-crc32c" with
              | None => Ok None
              | Some v => Some <$> ok_or INVALID_CRC (decode_crc v)
              end;
        size ← match header req "x-amz-mp-object-size" with
               | None => Ok None
               | Some v => Some <$> ok_or (400%N, "InvalidRequest", "The multipart object size must be an unsigned integer.")
                                          (Text.parse_u64 v)
               end;
        (if checksums_enabled u then
           if negb (consecutive manifest)
           then Err (400%N, "InvalidPartOrder", "Checksum part numbers must start at one and be consecutive.")
           else validate_manifest req u manifest
         else Ok tt);;
        if is_some_and (fun v => negb (eqb v "*")) (header req "if-none-match")
        then Err (400%N, "InvalidRequest", "If-None-Match must be an asterisk.")
        else if is_some (header req "if-none-match") && is_some (header req "if-match")
        then Err (400%N, "InvalidRequest", "Use one multipart publication condition.")
        else Ok (mkCompletion crc size (mutation_condition req) (is_some (hm_get "if-match" (rq_headers req))))
  end.
End Checksums.

(** ** Requests *)

Section Requests.
Context `{HttpLib} `{HelperEnv} `{Chrono} `{PayloadDigests} `{Digests} `{QuickXml} `{Env} `{HashOrder} `{StoreEnv}.
Context {S : Type} `{S3Storage S} `{S3Uploads S}.

Definition upload_key_mismatch_response (req_id : string) : io S Response :=
  xml_error_response 400 "InvalidRequest" "The upload ID is not valid for the specified object" req_id.

(** The upload a request names, of the key it names. *)
Definition with_upload (bucket key : string) (req : Request) (req_id : string) (k : MultipartUpload -> io S Response)
    : io S Response :=
  r ← attempt (st_get_multipart_upload bucket (default "" (query_param req "uploadId")));
  match r with
  | Err error => storage_error_response error req_id
  | Ok upload => if negb (eqb (u_key upload) key) then upload_key_mismatch_response req_id else k upload
  end.

Definition part_number_of (req : Request) : N := default 0%N (query_param req "partNumber" ≫= parse_u32).

Definition upload_multipart_part (bucket key : string) (req : Request) (req_id : string) : io S Response :=
  let upload_id := default "" (query_param req "uploadId") in
  with_upload bucket key req req_id (fun upload =>
    unless_answered (or_else (refuse (part_refusal req upload) req_id) (validate_content_md5 req req_id))
      (r ← attempt (match rq_spooled_body req with
                    | Some spooled => st_upload_part_streamed bucket upload_id (part_number_of req) (sp_path spooled)
                                        (sp_len spooled) (hex_encode (sp_md5 spooled))
                    | None => st_upload_part bucket upload_id (part_number_of req) (rq_body req)
                    end);
       match r with
       | Ok etag =>
           host_id ← generate_request_id;
           empty_with_cors bucket req (part_headers
             (with_header "x-amz-id-2" host_id (with_header "x-amz-request-id" req_id
               (with_header "ETag" (quoted_etag etag) (new_builder 200)))) req upload)
       | Err err => storage_error_response err req_id
       end)).

Definition copy_part_xml (t : time) (etag : string) : string :=
  xml_declaration +:+ NL +:+ "<CopyPartResult><LastModified>" +:+ to_rfc3339 t +:+ "</LastModified><ETag>"
  +:+ quoted_etag etag +:+ "</ETag></CopyPartResult>".

Definition copy_part_from (bucket upload_id : string) (req : Request) (req_id : string) (range : option (N * option N))
    (source : string * string * option string) : io S Response :=
  let '(source_bucket, source_key, source_version_id) := source in
  unless_answered
    (r ← attempt (metadata source_bucket source_key source_version_id);
     match r with
     | Ok src => check_copy_conditionals req src req_id
     | Err _ => mret None
     end)
    (r ← payload source_bucket source_key source_version_id range req_id;
     match r with
     | Err response => mret response
     | Ok src =>
         if is_s3_delete_marker src
         then xml_error_response 400 "InvalidRequest" "The source of a copy request may not refer to a delete marker." req_id
         else
           unless_answered (check_copy_conditionals req src req_id)
             (r ← attempt (st_upload_part bucket upload_id (part_number_of req) (o_data src));
              match r with
              | Err error => storage_error_response error req_id
              | Ok etag =>
                  t ← now;
                  b ← add_ids req_id (with_content_type "application/xml; charset=utf-8" (new_builder 200));
                  b ← with_cors bucket req b;
                  mret (build (with_body (as_bytes (copy_part_xml t etag)) b))
              end)
     end).

Definition upload_part_copy (pages : nat) (bucket key copy_source : string) (req : Request) (req_id : string) : io S Response :=
  with_upload bucket key req req_id (fun upload =>
    if checksums_enabled upload then answer UNSUPPORTED req_id
    else
      match parse_copy_source_header copy_source with
      | Err r => answer r req_id
      | Ok source =>
          conflict ← s3_foreign_history_conflict pages source.1.1;
          if (conflict : bool) then s3_foreign_history_conflict_response req_id
          else
            let upload_id := default "" (query_param req "uploadId") in
            match header req "x-amz-copy-source-range" with
            | None => copy_part_from bucket upload_id req req_id None source
            | Some value =>
                match parse_range value with
                | Some range => copy_part_from bucket upload_id req req_id (Some range) source
                | None => xml_error_response 400 "InvalidArgument" "Invalid x-amz-copy-source-range value." req_id
                end
            end
      end).

(** *** The list of parts *)

Definition parts_page (parts : list Part) (marker : N) (max_parts : N) : list Part * bool :=
  let matching := filter (fun p => (marker <? p_part_number p)%N = true) (merge_sort part_le parts) in
  (take (N.to_nat max_parts) matching, Nat.ltb (N.to_nat max_parts) (length matching)).

Definition u32_parameter (req : Request) (name : string) (absent : N) : option N :=
  match query_param req name with
  | Some value => parse_u32 value
  | None => Some absent
  end.

Definition object_parts_response (bucket key : string) (req : Request) (req_id : string) : io S Response :=
  with_upload bucket key req req_id (fun upload =>
    match u32_parameter req "part-number-marker" 0, u32_parameter req "max-parts" 1000 with
    | None, _ => xml_error_response 400 "InvalidArgument" "part-number-marker must be a non-negative integer." req_id
    | _, None => xml_error_response 400 "InvalidArgument" "max-parts must be a non-negative integer." req_id
    | Some marker, Some max =>
        let max_parts := N.min max 1000 in
        let '(parts, is_truncated) := parts_page (u_parts upload) marker max_parts in
        let xml := list_parts_xml (mkListParts bucket key (default "" (query_param req "uploadId"))
          (default "STANDARD" (u_provider_metadata upload !! "storage_class")) marker
          (if is_truncated then p_part_number <$> head (reverse parts) else None) max_parts is_truncated parts) in
        mret (build (with_body (as_bytes xml)
          (with_header "x-amz-request-id" req_id (with_content_type "application/xml; charset=utf-8" (new_builder 200)))))
    end).

(** *** Initiation *)

(** [serde_json::to_string] of the tags is the codec of the store's tag maps. *)
Definition create_s3_multipart_upload_with_metadata (bucket key : string) (content_type : option string)
    (metadata provider_metadata : strmap) : io S MultipartUpload :=
  st_create_multipart_upload bucket key content_type metadata
    (<[MULTIPART_MAX_OBJECT_SIZE_KEY := pretty S3_MAXIMUM_OBJECT_SIZE]>
      (<[MULTIPART_MAX_PART_SIZE_KEY := pretty S3_MAXIMUM_PART_SIZE]>
        (<[MULTIPART_MIN_NON_FINAL_PART_SIZE_KEY := pretty S3_MINIMUM_NON_FINAL_PART_SIZE]> provider_metadata))).

Definition upload_template (t : time) (key : string) (req : Request) (checksum_enabled : bool) : Object :=
  let template := new_with_metadata t key [] (default "application/octet-stream" (header req "content-type"))
                    (extract_metadata req) in
  replace_content_properties req
    (if checksum_enabled
     then with_provider (fun m => <["s3_checksum_type" := "FULL_OBJECT"]> (<["s3_checksum_algorithm" := "CRC32C"]> m)) template
     else template).

Definition initiate_multipart_upload_request (bucket key : string) (req : Request) (req_id : string) : io S Response :=
  match initiate req with
  | Err r => answer r req_id
  | Ok checksum_enabled =>
      if object_lock_headers_requested req
      then xml_error_response 501 "NotImplemented" "Object Lock parameters on multipart upload initiation are not supported by this emulator subset." req_id
      else
        match parse_optional_tagging_header req with
        | Err message => xml_error_response 400 "InvalidTag" message req_id
        | Ok tags =>
            t ← now;
            match apply_s3_request_contracts req (upload_template t key req checksum_enabled) with
            | Err r => answer r req_id
            | Ok template =>
                let m := match header req "x-amz-storage-class" with
                         | Some c => <["storage_class" := c]> (o_provider_metadata template)
                         | None => o_provider_metadata template
                         end in
                let m := match tags with
                         | Some tags => <[MULTIPART_TAGS_KEY := text_of_bytes (enc strmap_codec tags)]> m
                         | None => m
                         end in
                r ← attempt (create_s3_multipart_upload_with_metadata bucket key (header req "content-type")
                               (extract_metadata req) m);
                match r with
                | Err err => internal_error_response err req_id
                | Ok upload =>
                    b ← add_ids req_id (with_content_type "application/xml; charset=utf-8" (new_builder 200));
                    let b := if checksum_enabled
                             then with_header "x-amz-checksum-type" "FULL_OBJECT"
                                    (with_header "x-amz-checksum-algorithm" "CRC32C" b) else b in
                    b ← with_cors bucket req b;
                    mret (build (with_body (as_bytes (initiate_multipart_xml bucket (u_key upload) (u_upload_id upload))) b))
                end
            end
        end
  end.

(** *** Completion and abortion, behind authorization *)

Definition complete_multipart_upload_response (bucket key : string) (req : Request) (req_id etag : string) : io S Response :=
  first ← attempt (st_get_object_metadata bucket key);
  let checksum :=
    match first with
    | Ok stored => match o_provider_metadata stored !! "s3_checksum_crc32c" with
                   | Some crc => "<ChecksumCRC32C>" +:+ crc +:+ "</ChecksumCRC32C><ChecksumType>FULL_OBJECT</ChecksumType>"
                   | None => ""
                   end
    | Err _ => ""
    end in
  second ← attempt (st_get_object_metadata bucket key);
  let stored_version_id := match second with Ok obj => o_version_id obj | Err _ => None end in
  b ← add_ids req_id (with_content_type "application/xml; charset=utf-8" (new_builder 200));
  b ← with_cors bucket req (add_version_header b stored_version_id);
  mret (build (with_body (as_bytes (complete_multipart_upload_xml bucket key etag checksum)) b)).

(** From the manifest on. *)
Definition complete_upload (bucket key : string) (req : Request) (req_id : string) (upload : MultipartUpload) : io S Response :=
  match (match Utf8.from_utf8 (rq_body req) with
         | None => Err (Utf8.utf8_error (rq_body req))
         | Some body => parse_complete_multipart_upload_xml body
         end) with
  | Err message => xml_error_response 400 "MalformedXML" message req_id
  | Ok manifest =>
      if out_of_order manifest
      then xml_error_response 400 "InvalidPartOrder" "The list of parts was not in ascending order." req_id
      else if existsb (fun e => negb (existsb (fun p => (p_part_number p =? e.1)%N && eqb (p_etag p) e.2) (u_parts upload))) manifest
      then xml_error_response 400 "InvalidPart" "One or more of the specified parts could not be found." req_id
      else
        match completion req upload manifest with
        | Err r => answer r req_id
        | Ok c =>
            r ← attempt (st_complete_multipart_upload bucket (default "" (query_param req "uploadId")) manifest c);
            match r with
            | Ok etag => complete_multipart_upload_response bucket key req req_id etag
            | Err err => storage_error_response err req_id
            end
        end
  end.

Definition abort_upload (bucket : string) (req : Request) (req_id : string) : io S Response :=
  r ← attempt (st_abort_multipart_upload bucket (default "" (query_param req "uploadId")));
  match r with
  | Ok _ | Err NoSuchUpload => no_content_object_response bucket req req_id
  | Err err => storage_error_response err req_id
  end.

(** ** Requests for an object, behind authorization *)

Definition object_expired (bucket key : string) : io S bool :=
  r ← attempt (check_object_expiration bucket key);
  mret (match r with Ok b => b | Err _ => false end).

(** [object_get], from the lifecycle check on. *)
Definition get_content (bucket key : string) (req : Request) (req_id : string) : io S Response :=
  expired ← object_expired bucket key;
  if (expired : bool) then xml_error_response 404 "NoSuchKey" "Key not found" req_id
  else if has_query_param req "tagging" then object_tagging_response bucket key req_id
  else if has_query_param req "acl" then object_acl_response bucket key req_id
  else
    match query_param req "versionId" with
    | Some version_id => object_version_response bucket key version_id req req_id
    | None =>
        if has_query_param req "uploadId" then object_parts_response bucket key req req_id
        else match header req "range" with
             | Some range => object_range_response bucket key req req_id range
             | None => object_full_response bucket key req req_id
             end
    end.

(** [object_put], from the lock headers on. *)
Definition put_content (pages : nat) (bucket key : string) (req : Request) (req_id : string) : io S (result string Response) :=
  lock_answer ← validate_object_lock_put_request bucket req req_id;
  match lock_answer with
  | Some response => mret (Ok response)
  | None =>
      r ← attempt (st_get_object_metadata bucket key);
      let existing := match r with Ok o => Some o | Err _ => None end in
      refused_by ← put_admission bucket req existing req_id;
      match refused_by with
      | Some response => mret (Ok response)
      | None =>
          if has_query_param req "tagging" then put_object_tagging bucket key req req_id
          else
            response ←
              (if has_query_param req "acl" then put_object_acl_request bucket key req req_id
               else if has_query_param req "uploadId" && is_some (query_param req "partNumber") then
                 match header req "x-amz-copy-source" with
                 | Some copy_source => upload_part_copy pages bucket key copy_source req req_id
                 | None => upload_multipart_part bucket key req req_id
                 end
               else
                 match header req "x-amz-copy-source" with
                 | Some copy_source => copy_object pages bucket key copy_source req req_id
                 | None => put_object_body bucket key req req_id existing
                 end);
            mret (Ok response)
      end
  end.

End Requests.
