(* ===== verification/Signatures.v ===== *)
(** * Signatures: AWS Signature Version 4

    The credentials of a request ([src/auth/authenticator.rs]), the signature of
    its Authorization header ([src/auth/sigv4.rs] and
    [src/server/handlers/auth/sigv4.rs]) and presigned URLs
    ([src/auth/presigned.rs]).  SHA-256, HMAC and hexadecimal digits, and the
    date formats of chrono, are parameters. *)

From Stdlib Require Import Ascii Strings.Byte Strings.String.
From stdpp Require Import pretty.
From S2P Require Import Prelude Text Models SkipMap Index Utf8 Validation FsModel Publication.
From S2P Require Import Lifecycle Storage Versions Listing LifecycleExecutor Http Checksums ObjectHelpers Routing.

(** [parse_amz_date] and [format_amz_date] are the format [%Y%m%dT%H%M%SZ],
    [format_date_stamp] is [%Y%m%d]. *)
Class SigningEnv : Type := {
  hmac_sha256 : bytes -> bytes -> bytes;
  parse_amz_date : string -> option time;
  format_amz_date : time -> string;
  format_date_stamp : time -> string }.

(** The part of [Config] that concerns credentials. *)
Record AuthConfig : Type := mkAuthConfig {
  access_key_id : option string;
  secret_access_key : option string;
  enforce_auth : bool }.

Definition SECOND : Z := 1000000000.
Definition MINUTE : Z := 60 * SECOND.

Section Signatures.
Context `{HttpLib} `{HelperEnv} `{PayloadDigests} `{SigningEnv} `{HashOrder}.

(** ** Digests *)

Definition sha256_hex (data : bytes) : string := hex_encode (sha256_digest data).
Definition hmac_sha256_hex (key data : bytes) : string := hex_encode (hmac_sha256 key data).

Definition get_signature_key (secret date_stamp region service : string) : bytes :=
  let k_date := hmac_sha256 (as_bytes ("AWS4" +:+ secret)) (as_bytes date_stamp) in
  let k_region := hmac_sha256 k_date (as_bytes region) in
  let k_service := hmac_sha256 k_region (as_bytes service) in
  hmac_sha256 k_service (as_bytes "aws4_request").

(** Every pair of bytes is compared, whether an earlier one differed or not. *)
Definition constant_time_compare (a b : bytes) : bool :=
  if negb (Nat.eqb (length a) (length b)) then false
  else (foldl (fun r p => N.lor r (N.lxor (Byte.to_N p.1) (Byte.to_N p.2))) 0%N (combine a b) =? 0)%N.

(** The text that is signed. *)
Definition string_to_sign (amz_date credential_scope canonical_request : string) : string :=
  "AWS4-HMAC-SHA256" +:+ NL +:+ amz_date +:+ NL +:+ credential_scope +:+ NL +:+ sha256_hex (as_bytes canonical_request).

Definition signature_of (secret date_stamp region service amz_date credential_scope canonical_request : string) : string :=
  hmac_sha256_hex (get_signature_key secret date_stamp region service)
    (as_bytes (string_to_sign amz_date credential_scope canonical_request)).

(** ** Canonical forms *)

(** The digits of [{:02X}] *)
Definition upper_hex (n : N) : ascii := ascii_of_N (if (n <? 10)%N then 48 + n else 55 + n).
Definition percent_escape (a : ascii) : string :=
  let n := N_of_ascii a in String "%" (String (upper_hex (n / 16)) (String (upper_hex (n mod 16)) "")).

Definition unreserved (a : ascii) : bool :=
  is_ascii_alphanumeric a || eqb a "-"%char || eqb a "_"%char || eqb a "."%char || eqb a "~"%char.

Fixpoint uri_encode (s : string) : string :=
  match s with
  | EmptyString => EmptyString
  | String a rest => (if unreserved a then String a "" else percent_escape a) +:+ uri_encode rest
  end.

(** [urlencoding::decode], or the text itself. *)
Definition decode_or_raw (s : string) : string := match url_decode s with Ok d => d | Err _ => s end.

Definition canonical_uri (path : string) : string :=
  let path := if Text.is_empty path then "/" else path in
  Text.join_text "/" ((fun segment => uri_encode (decode_or_raw segment)) <$> Text.split "/" path).

Definition pair_le (a b : string * string) : Prop := Text.lt a.1 b.1 \/ a.1 = b.1 /\ String.le a.2 b.2.
#[export] Instance pair_le_dec : RelDecision pair_le.
Proof. intros a b. unfold pair_le. apply _. Defined.

Definition query_text (params : list (string * string)) : string :=
  Text.join_text "&" ((fun e => e.1 +:+ "=" +:+ e.2) <$> merge_sort pair_le params).

(** Of the parsed parameters, without the signature. *)
Definition canonical_query_string (params : strmap) : string :=
  query_text ((fun e => (uri_encode e.1, uri_encode e.2)) <$>
    filter (fun e => e.1 <> "X-Amz-Signature") (hash_order (map_to_list params))).

(** Of the raw query. *)
Definition raw_canonical_query (query : option string) : string :=
  match query with
  | None => ""
  | Some query =>
      query_text ((fun part =>
        let '(key, value) := default (part, "") (Text.split_once "=" part) in
        (uri_encode (decode_or_raw key), uri_encode (decode_or_raw value))) <$>
          filter (fun part => Text.is_empty part = false) (Text.split "&" query))
  end.

Definition normalize_header_value (value : string) : string := Text.join_text " " (Text.split_whitespace value).

(** ** The Authorization header *)

Definition content_sha256_hint (req : Request) : option string := sp_sha256_hex <$> rq_spooled_body req.

Definition build_canonical_request (req : Request) (signed_headers : list string) : string :=
  let names := merge_sort String.le signed_headers in
  let canonical_headers :=
    (fun name => name +:+ ":" +:+ normalize_header_value (default "" (header req name))) <$> names in
  let payload_hash :=
    match header req "x-amz-content-sha256" with
    | Some value => if Text.is_empty value then default (sha256_hex (rq_body req)) (content_sha256_hint req) else value
    | None => default (sha256_hex (rq_body req)) (content_sha256_hint req)
    end in
  rq_method req +:+ NL +:+ canonical_uri (rq_path req) +:+ NL +:+ raw_canonical_query (rq_query req) +:+ NL +:+
  Text.join_text NL canonical_headers +:+ NL +:+ NL +:+ Text.join_text ";" names +:+ NL +:+ payload_hash.

(** The first part of the header that [f] answers. *)
Definition first_part {A} (f : string -> option A) (auth_header : string) : option A :=
  head (omap (fun part => f (Text.trim part)) (Text.split "," auth_header)).

Definition extract_sigv4_signature : string -> option string := first_part (fun part => Text.strip_prefix part "Signature=").

Definition after_credential (part : string) : option string :=
  (fun at_ => Text.slice_from (at_ + 11) part) <$> Text.find part "Credential=".

Definition extract_credential_scope : string -> option string :=
  first_part (fun part =>
    credential ← after_credential part;
    slash ← Text.find credential "/";
    Some (default "" (head (Text.split "," (Text.slice_from (slash + 1) credential))))).

Definition extract_signed_headers : string -> option (list string) :=
  first_part (fun part => Text.split ";" <$> Text.strip_prefix part "SignedHeaders=").

Inductive RequestValidationError : Type :=
| InvalidDate
| ClockSkew
| InvalidScope
| InvalidSignedHeaders
| PayloadMismatch
| InvalidPayloadHash
| UnsupportedPayload.

Definition first_word (s : string) : string := default "" (head (Text.split "/" s)).

Definition has_uppercase (s : string) : bool := existsb (in_range 65 90) (String.list_ascii_of_string s).

Fixpoint increasing (names : list string) : bool :=
  match names with
  | a :: ((b :: _) as rest) => Text.ltb a b && increasing rest
  | _ => true
  end.

Definition valid_signed_header_names (names : list string) : bool :=
  negb (Nat.eqb (length names) 0)
  && forallb (fun name => negb (Text.is_empty name) && negb (has_uppercase name) && is_some (header_name name)) names
  && increasing names.

Definition UNSUPPORTED_PAYLOADS : list string :=
  ["UNSIGNED-PAYLOAD"; "STREAMING-AWS4-HMAC-SHA256-PAYLOAD"; "STREAMING-AWS4-HMAC-SHA256-PAYLOAD-TRAILER";
   "STREAMING-UNSIGNED-PAYLOAD-TRAILER"].

Definition hex_digest (s : string) : bool :=
  (Text.len s =? 64)%N && forallb is_ascii_hexdigit (String.list_ascii_of_string s).

Definition validate_payload (req : Request) (service : string) : result RequestValidationError unit :=
  match header req "x-amz-content-sha256" with
  | None => Ok tt
  | Some provided =>
      if eqb provided "UNSIGNED-PAYLOAD" && eqb service "s3" then Ok tt
      else if negb (hex_digest provided) then
        Err (if existsb (eqb provided) UNSUPPORTED_PAYLOADS then UnsupportedPayload else InvalidPayloadHash)
      else
        let actual := default (sha256_hex (rq_body req)) (content_sha256_hint req) in
        if negb (constant_time_compare (as_bytes (Text.to_ascii_lowercase provided)) (as_bytes actual))
        then Err PayloadMismatch else Ok tt
  end.

(** The date of the request and the header it comes from. *)
Definition request_date (req : Request) : option (string * string) :=
  match header req "x-amz-date" with
  | Some value => Some ("x-amz-date", value)
  | None => (fun value => ("date", value)) <$> header req "date"
  end.

(** A date that is written the way it is formatted. *)
Definition exact_date (raw : string) : option time :=
  parsed ← parse_amz_date raw;
  if eqb (format_amz_date parsed) raw then Some parsed else None.

Definition scope_matches (credential_scope : string) (date : time) (service : string) : bool :=
  match Text.split "/" credential_scope with
  | [stamp; region; service'; terminator] =>
      eqb stamp (format_date_stamp date) && negb (Text.is_empty region) && eqb service' service
      && eqb terminator "aws4_request"
  | _ => false
  end.

Definition signed_headers_cover (req : Request) (date_header : string) (signed_headers : list string) : bool :=
  existsb (eqb "host") signed_headers
  && existsb (eqb date_header) signed_headers
  && valid_signed_header_names signed_headers
  && forallb (fun name => is_some (header req name)) signed_headers
  && forallb (fun e => negb (Text.starts_with e.1 "x-amz-") || eqb e.1 "x-amz-content-sha256"
                       || existsb (eqb e.1) signed_headers) (request_headers req).

Definition validate_request_at (req : Request) (credential_scope : string) (signed_headers : list string)
    (service : string) (now : time) : result RequestValidationError unit :=
  match request_date req with
  | None => Err InvalidDate
  | Some (date_header, raw_date) =>
      match exact_date raw_date with
      | None => Err InvalidDate
      | Some date =>
          let window := if eqb service "s3" then (15 * MINUTE)%Z else (5 * MINUTE)%Z in
          if (date <? now - window)%Z || (now + window <? date)%Z then Err ClockSkew
          else if negb (scope_matches credential_scope date service) then Err InvalidScope
          else if negb (signed_headers_cover req date_header signed_headers) then Err InvalidSignedHeaders
          else validate_payload req service
      end
  end.

Definition verify (signature canonical_request amz_date credential_scope secret : string) : bool :=
  match Text.split "/" credential_scope with
  | date_stamp :: region :: rest =>
      let service := default "s3" (head rest) in
      constant_time_compare (as_bytes signature)
        (as_bytes (signature_of secret date_stamp region service amz_date credential_scope canonical_request))
  | _ => false
  end.

(** ** Principals *)

Record AuthInfo : Type := mkAuthInfo { principal : string; is_authenticated : bool }.
Definition anonymous_info : AuthInfo := mkAuthInfo "*" false.
Definition authenticated_info (p : string) : AuthInfo := mkAuthInfo p true.

Definition user_arn (access_key : string) : string := "arn:aws:iam::000000000000:user/" +:+ access_key.

(** The principal of the access key, if it is the configured one. *)
Definition configured_principal (config : AuthConfig) (access_key : string) : option string :=
  configured ← access_key_id config;
  if eqb access_key configured then Some (user_arn access_key) else None.

Definition extract_sigv4_principal (auth_str : string) (config : AuthConfig) : option string :=
  first_part (fun part =>
    credential ← after_credential part; configured_principal config (first_word credential)) auth_str.

Definition extract_v2_principal (auth_str : string) (config : AuthConfig) : option string :=
  rest ← Text.strip_prefix auth_str "AWS ";
  configured_principal config (default "" (head (Text.split ":" rest))).

(** A parameter without a value ends the search. *)
Fixpoint scan_presigned (params : list string) (config : AuthConfig) : option string :=
  match params with
  | [] => None
  | param :: rest =>
      '(key, raw_value) ← Text.split_once "=" param;
      let value := decode_or_raw raw_value in
      let found :=
        if eqb key "X-Amz-Credential" then configured_principal config (first_word value)
        else if eqb key "AWSAccessKeyId" then configured_principal config value
        else None in
      match found with Some p => Some p | None => scan_presigned rest config end
  end.
Definition extract_presigned_principal (query : string) (config : AuthConfig) : option string :=
  scan_presigned (Text.split "&" query) config.

Definition header_principal (req : Request) (config : AuthConfig) : option string :=
  auth_str ← header req "authorization";
  if Text.starts_with auth_str "AWS4-HMAC-SHA256" && Text.contains auth_str "Signature="
     && Text.contains auth_str "SignedHeaders="
  then extract_sigv4_principal auth_str config
  else if Text.starts_with auth_str "AWS " && is_some (Text.split_once ":" auth_str)
  then extract_v2_principal auth_str config
  else None.

Definition query_principal (req : Request) (config : AuthConfig) : option string :=
  query ← rq_query req;
  if Text.contains query "X-Amz-Credential" && Text.contains query "X-Amz-Signature"
     || Text.contains query "AWSAccessKeyId" && Text.contains query "Signature="
  then extract_presigned_principal query config
  else None.

Definition from_request (req : Request) (config : AuthConfig) : AuthInfo :=
  if negb (enforce_auth config) then authenticated_info "sqrzl-emulator"
  else
    match header_principal req config with
    | Some p => authenticated_info p
    | None =>
        match query_principal req config with
        | Some p => authenticated_info p
        | None => anonymous_info
        end
    end.

(** ** Presigned URLs *)

Record PresignedUrlConfig : Type := mkPresignedConfig { pc_access_key : string; pc_secret_key : string }.

Record PresignedUrl : Type := mkPresigned {
  ps_bucket : string;
  ps_key : string;
  ps_method : string;
  ps_date : time;
  ps_expires_in : Z;
  ps_signature : string;
  ps_credential : string;
  ps_query_params : strmap }.

Definition REGION : string := "us-east-1".
Definition SERVICE : string := "s3".

Definition trim_host (base_url : string) : string :=
  Text.trim_end_matches (Text.trim_start_matches (Text.trim_start_matches base_url "http://") "https://") "/".

Fixpoint trim_leading (c : ascii) (s : string) : string :=
  match s with
  | String a rest => if eqb a c then trim_leading c rest else s
  | EmptyString => s
  end.

(** The five parameters are written in the order of their names. *)
Definition presigned_query (credential amz_date : string) (expires_in : Z) : string :=
  Text.join_text "&" ((fun e => e.1 +:+ "=" +:+ uri_encode e.2) <$>
    [("X-Amz-Algorithm", "AWS4-HMAC-SHA256"); ("X-Amz-Credential", credential); ("X-Amz-Date", amz_date);
     ("X-Amz-Expires", pretty expires_in); ("X-Amz-SignedHeaders", "host")]).

Definition presigned_request (method canonical_uri canonical_query canonical_headers signed_headers : string) : string :=
  method +:+ NL +:+ canonical_uri +:+ NL +:+ canonical_query +:+ NL +:+ canonical_headers +:+ NL +:+ signed_headers +:+ NL +:+
  "UNSIGNED-PAYLOAD".

Definition generate_url_at (now : time) (bucket key method : string) (expires_in : Z) (base_url : string)
    (config : PresignedUrlConfig) : string :=
  let amz_date := format_amz_date now in
  let date_stamp := format_date_stamp now in
  let credential_scope := date_stamp +:+ "/" +:+ REGION +:+ "/" +:+ SERVICE +:+ "/aws4_request" in
  let credential := pc_access_key config +:+ "/" +:+ credential_scope in
  let uri := canonical_uri ("/" +:+ bucket +:+ "/" +:+ key) in
  let query := presigned_query credential amz_date expires_in in
  let request := presigned_request method uri query ("host:" +:+ trim_host base_url +:+ NL) "host" in
  let signature := signature_of (pc_secret_key config) date_stamp REGION SERVICE amz_date credential_scope request in
  Text.trim_end_matches base_url "/" +:+ "/" +:+ trim_leading "/" uri +:+ "?" +:+ query +:+ "&X-Amz-Signature=" +:+ signature.

Definition from_query_params (bucket key method : string) (params : strmap) : result string PresignedUrl :=
  signature ← ok_or "Missing signature"
    (match params !! "X-Amz-Signature" with Some v => Some v | None => params !! "Signature" end);
  expires_in ← ok_or "Missing or invalid expires parameter"
    (value ← match params !! "X-Amz-Expires" with Some v => Some v | None => params !! "Expires" end;
     Text.parse_i64 value);
  amz_date ← ok_or "Missing X-Amz-Date parameter" (params !! "X-Amz-Date");
  credential ← ok_or "Missing X-Amz-Credential parameter" (params !! "X-Amz-Credential");
  date ← ok_or "Invalid X-Amz-Date format" (exact_date amz_date);
  Ok (mkPresigned bucket key method date expires_in signature credential params).

Inductive PresignedValidationError : Type :=
| PvInvalidRequest (message : string)
| PvClockSkew
| PvSignatureMismatch (message : string).

Record CredentialScope : Type := mkScope {
  cs_access_key : string;
  cs_date : string;
  cs_region : string;
  cs_service : string;
  cs_terminator : string }.

Definition parse_credential_scope (credential : string) : option CredentialScope :=
  match Text.split "/" credential with
  | [access_key; date; region; service; terminator] =>
      if existsb Text.is_empty [access_key; date; region; service; terminator] then None
      else Some (mkScope access_key date region service terminator)
  | _ => None
  end.

(** [collect] into a map: a later value replaces an earlier one. *)
Definition header_fields (req : Request) : strmap :=
  foldl (fun m e => <[Text.to_ascii_lowercase e.1 := e.2]> m) ∅ (request_headers req).

Definition signed_names_cover (names : list string) (headers : strmap) : bool :=
  valid_signed_header_names names
  && existsb (eqb "host") names
  && forallb (fun e => negb (Text.starts_with e.1 "x-amz-") || existsb (eqb e.1) names) (map_to_list headers).

(** A signed header that is also a parameter, with another value. *)
Definition conflict (names : list string) (headers params : strmap) : option string :=
  head (omap (fun e =>
    let name := Text.to_ascii_lowercase e.1 in
    if existsb (eqb name) names && is_some_and (fun value => negb (eqb value e.2)) (headers !! name)
    then Some e.1 else None) (hash_order (map_to_list params))).

Fixpoint canonical_header_lines (names : list string) (headers : strmap) : result string string :=
  match names with
  | [] => Ok ""
  | name :: rest =>
      value ← ok_or ("Missing signed header: " +:+ name) (headers !! name);
      lines ← canonical_header_lines rest headers;
      Ok (name +:+ ":" +:+ normalize_header_value value +:+ NL +:+ lines)
  end.

Definition mismatch {A} (r : result string A) : result PresignedValidationError A := map_err PvSignatureMismatch r.

(** The canonical request of a presigned request. *)
Definition presigned_canonical_request (u : PresignedUrl) (method path : string) (headers : strmap)
    : result PresignedValidationError string :=
  signed_headers ← mismatch (ok_or "Missing X-Amz-SignedHeaders" (ps_query_params u !! "X-Amz-SignedHeaders"));
  let names := Text.split ";" signed_headers in
  if negb (signed_names_cover names headers)
  then Err (PvSignatureMismatch "X-Amz-SignedHeaders must contain sorted unique lowercase names including host and every x-amz header")
  else
    match conflict names headers (ps_query_params u) with
    | Some name => Err (PvInvalidRequest ("Conflicting signed query parameter and header: " +:+ name))
    | None =>
        lines ← mismatch (canonical_header_lines names headers);
        Ok (presigned_request method (canonical_uri path) (canonical_query_string (ps_query_params u)) lines
              (Text.join_text ";" names))
    end.

Definition validate_components_at (now : time) (u : PresignedUrl) (method path : string) (headers : strmap)
    (config : PresignedUrlConfig) : result PresignedValidationError unit :=
  if negb (eqb (ps_query_params u !! "X-Amz-Algorithm") (Some "AWS4-HMAC-SHA256"))
  then Err (PvSignatureMismatch "Unsupported or missing X-Amz-Algorithm")
  else if (ps_expires_in u <? 1)%Z || (604800 <? ps_expires_in u)%Z
  then Err (PvSignatureMismatch "X-Amz-Expires must be between 1 and 604800 seconds")
  else if (now + 15 * MINUTE <? ps_date u)%Z then Err PvClockSkew
  else if (ps_date u + ps_expires_in u * SECOND <? now)%Z then Err (PvSignatureMismatch "Presigned URL has expired")
  else
    scope ← mismatch (ok_or "Invalid X-Amz-Credential" (parse_credential_scope (ps_credential u)));
    if negb (eqb (cs_access_key scope) (pc_access_key config))
    then Err (PvSignatureMismatch "Presigned URL access key does not match")
    else if negb (eqb (cs_date scope) (format_date_stamp (ps_date u))) || negb (eqb (cs_service scope) SERVICE)
            || negb (eqb (cs_terminator scope) "aws4_request")
    then Err (PvSignatureMismatch "Invalid credential scope")
    else
      let credential_scope :=
        cs_date scope +:+ "/" +:+ cs_region scope +:+ "/" +:+ cs_service scope +:+ "/" +:+ cs_terminator scope in
      request ← presigned_canonical_request u method path headers;
      let expected := signature_of (pc_secret_key config) (cs_date scope) (cs_region scope) (cs_service scope)
                        (format_amz_date (ps_date u)) credential_scope request in
      if eqb (ps_signature u) expected then Ok tt else Err (PvSignatureMismatch "Invalid signature").

Definition validate_request_contract_at (now : time) (u : PresignedUrl) (req : Request) (config : PresignedUrlConfig)
    : result PresignedValidationError unit :=
  validate_components_at now u (rq_method req) (rq_path req) (header_fields req) config.
End Signatures.
