(* ===== verification/Authorization.v ===== *)
(** * Authorization: who may do what

    [src/server/handlers/auth.rs] with its parts [auth/context.rs] and
    [auth/sigv4.rs]: the signature of a request, the bucket policy and the ACL
    decide whether an action is allowed, before a handler touches the store. *)

From Stdlib Require Import Ascii Strings.Byte.
From stdpp Require Import pretty.
From S2P Require Import Prelude Text Models Policy SkipMap Index Utf8 Validation FsModel Publication.
From S2P Require Import Lifecycle Storage Versions Listing LifecycleExecutor Http Cors Checksums ObjectHelpers Routing.
From S2P Require Import ObjectHandlers Signatures.

(** The store of the authorizer. *)
Class AccessStore (S : Type) : Type := {
  st_get_bucket_acl : string -> io S Acl;
  st_get_bucket_policy : string -> io S BucketPolicyDocument }.

#[export] Instance filesystem_access {M} `{SkipMap M} `{Env} `{StoreEnv} `{Digests} : AccessStore (World M) := {|
  st_get_bucket_acl := get_bucket_acl;
  st_get_bucket_policy := get_bucket_policy |}.

Section Authorization.
Context `{HttpLib} `{HelperEnv} `{Chrono} `{PayloadDigests} `{Digests} `{QuickXml} `{Env} `{HashOrder}.
Context `{SigningEnv} `{PolicyEnv}.
Context {S : Type} `{S3Storage S} `{AccessStore S}.

(** [Err] holds the answer to the request. *)
Abbreviation guard A := (io S (result Response A)).

Definition denied {A} (status : N) (code message req_id : string) : guard A :=
  r ← xml_error_response status code message req_id; mret (Err r).

(** ** Signatures *)

Definition presigned_validation_failure {A} (e : PresignedValidationError) (req_id : string) : guard A :=
  match e with
  | PvInvalidRequest message => denied 400 "InvalidRequest" message req_id
  | PvClockSkew => denied 403 "RequestTimeTooSkewed" "Presigned URL date is too far in the future" req_id
  | PvSignatureMismatch message => denied 403 "SignatureDoesNotMatch" message req_id
  end.

Definition request_validation_failure {A} (e : RequestValidationError) (req_id : string) : guard A :=
  match e with
  | InvalidDate => denied 400 "InvalidRequest" "Invalid request date" req_id
  | ClockSkew =>
      denied 403 "RequestTimeTooSkewed" "The difference between the request time and the current time is too large" req_id
  | PayloadMismatch =>
      denied 400 "XAmzContentSHA256Mismatch" "The provided x-amz-content-sha256 does not match the request body" req_id
  | InvalidPayloadHash =>
      denied 400 "InvalidArgument" "The x-amz-content-sha256 header must be a valid SHA-256 hash or a supported payload signing mode" req_id
  | UnsupportedPayload => denied 501 "NotImplemented" "This payload signing mode is not supported" req_id
  | InvalidScope | InvalidSignedHeaders =>
      denied 403 "SignatureDoesNotMatch" "The credential scope or signed headers do not match the request" req_id
  end.

(** A presigned request, in [verify_sigv4_signature]. *)
Definition verify_presign (req : Request) (config : AuthConfig) (query : string) : guard unit :=
  req_id ← generate_request_id;
  match from_query_params "" "" (rq_method req) (parse_query_params (Some query)) with
  | Err message => denied 400 "InvalidRequest" message req_id
  | Ok presigned =>
      match access_key_id config, secret_access_key config with
      | Some access_key, Some secret_key =>
          t ← now;
          match validate_request_contract_at t presigned req (mkPresignedConfig access_key secret_key) with
          | Err e => presigned_validation_failure e req_id
          | Ok _ =>
              match validate_payload req "s3" with
              | Err e => request_validation_failure e req_id
              | Ok _ => mret (Ok tt)
              end
          end
      | _, _ => mret (Ok tt)
      end
  end.

Definition verify_query (req : Request) (config : AuthConfig) : guard unit :=
  let query := default "" (rq_query req) in
  let has_credential := Text.contains query "X-Amz-Credential=" || Text.contains query "AWSAccessKeyId=" in
  let complete_presign :=
    Text.contains query "X-Amz-Credential=" && Text.contains query "X-Amz-Signature="
    || Text.contains query "AWSAccessKeyId=" && Text.contains query "Signature=" in
  if complete_presign then verify_presign req config query
  else if negb has_credential then mret (Ok tt)
  else
    req_id ← generate_request_id;
    denied 403 "AccessDenied" "A complete request signature is required" req_id.

(** The fields of the Authorization header. *)
Definition verify_header (req : Request) (config : AuthConfig) (auth_header req_id : string) : guard unit :=
  match (match header req "x-amz-date" with Some d => Some d | None => header req "date" end) with
  | None => denied 400 "InvalidRequest" "Missing date header" req_id
  | Some amz_date =>
  match extract_sigv4_signature auth_header with
  | None => denied 400 "InvalidRequest" "Missing signature in authorization header" req_id
  | Some signature =>
  match extract_signed_headers auth_header with
  | None | Some [] => denied 400 "InvalidRequest" "Missing signed headers in authorization header" req_id
  | Some signed_headers =>
  match extract_credential_scope auth_header with
  | None => denied 400 "InvalidRequest" "Missing credential in authorization header" req_id
  | Some credential_scope =>
  match secret_access_key config, access_key_id config with
  | Some secret_key, Some _ =>
      if is_none (extract_sigv4_principal auth_header config)
      then denied 403 "InvalidAccessKeyId" "The AWS Access Key Id you provided does not exist in our records" req_id
      else
        t ← now;
        match validate_request_at req credential_scope signed_headers "s3" t with
        | Err e => request_validation_failure e req_id
        | Ok _ =>
            if verify signature (build_canonical_request req signed_headers) amz_date credential_scope secret_key
            then mret (Ok tt)
            else denied 403 "SignatureDoesNotMatch" "The provided signature does not match" req_id
        end
  | _, _ => mret (Ok tt)
  end end end end end.

Definition verify_sigv4_signature (req : Request) (config : AuthConfig) : guard unit :=
  if negb (enforce_auth config) then mret (Ok tt)
  else
    match header req "authorization" with
    | None => verify_query req config
    | Some auth_header =>
        req_id ← generate_request_id;
        if negb (Text.starts_with auth_header "AWS4-HMAC-SHA256")
        then denied 403 "InvalidRequest" "Only AWS Signature Version 4 is accepted when authentication is enforced" req_id
        else verify_header req config auth_header req_id
    end.

Definition verify_presigned_url (req : Request) (bucket key : string) (config : AuthConfig) : guard unit :=
  if negb (enforce_auth config) then mret (Ok tt)
  else if negb (has_query_param req "X-Amz-Signature" || has_query_param req "Signature") then mret (Ok tt)
  else
    req_id ← generate_request_id;
    match from_query_params bucket key (rq_method req) (rq_query_params req) with
    | Err e => denied 400 "InvalidRequest" ("Invalid presigned URL parameters: " +:+ e) req_id
    | Ok presigned =>
        match secret_access_key config with
        | None => mret (Ok tt)
        | Some secret_key =>
            t ← now;
            match validate_request_contract_at t presigned req
                    (mkPresignedConfig (default "sqrzl-emulator" (access_key_id config)) secret_key) with
            | Err e => presigned_validation_failure e req_id
            | Ok _ => mret (Ok tt)
            end
        end
    end.

(** ** The decision *)

Definition default_owner_id (config : AuthConfig) : string := default "sqrzl-emulator" (access_key_id config).

Definition build_request_headers (req : Request) : strmap :=
  foldl (fun m e => <[to_lowercase e.1 := e.2]> m) ∅ (request_headers req).

Definition context_query_params (query : option string) : strmap :=
  match query with
  | None => ∅
  | Some query =>
      foldl (fun params param =>
        if Text.is_empty param then params
        else match Text.split_once "=" param with
             | Some (key, value) => <[to_lowercase (decoded key) := decoded value]> params
             | None => <[to_lowercase (decoded param) := ""]> params
             end) ∅ (Text.split "&" query)
  end.

Definition resource_of (bucket : string) (key : option string) : string :=
  match key with
  | Some k => "arn:aws:s3:::" +:+ bucket +:+ "/" +:+ k
  | None => "arn:aws:s3:::" +:+ bucket
  end.

Definition auth_context (req : Request) (config : AuthConfig) (info : AuthInfo) (bucket : string) (key : option string)
    (action : string) (tags : strmap) : AuthContext :=
  let owner_id := default_owner_id config in
  mkContext (principal info) (is_authenticated info) action (resource_of bucket key) (Some owner_id) (Some owner_id)
    (build_request_headers req) (context_query_params (rq_query req)) tags.

(** The policy first; without a word of it the ACL, or the owner. *)
Definition final_decision (policy_result : PolicyEffect) (acl_allowed : bool) (info : AuthInfo) (owner_id : string) : bool :=
  match policy_result with
  | Deny => false
  | Allow => true
  | Neutral => acl_allowed || is_authenticated info && Text.contains (principal info) owner_id
  end.

Definition decide_access (req : Request) (config : AuthConfig) (bucket : string) (key : option string)
    (action : string) : guard AuthInfo :=
  let info := from_request req config in
  if negb (enforce_auth config) then mret (Ok info)
  else
    tags ← match key with
           | Some k => r ← attempt (st_get_object_tags bucket k); mret (unwrap_or ∅ r)
           | None => mret ∅
           end;
    let context := auth_context req config info bucket key action tags in
    let owner_id := default_owner_id config in
    acl ← attempt (match key with Some k => st_get_object_acl bucket k | None => st_get_bucket_acl bucket end);
    let acl_allowed := match acl with Ok acl => check_acl_permission acl owner_id context | Err _ => false end in
    policy ← attempt (st_get_bucket_policy bucket);
    let policy_result := match policy with Ok policy => evaluate_policy policy context | Err _ => Neutral end in
    if final_decision policy_result acl_allowed info owner_id then mret (Ok info)
    else
      req_id ← generate_request_id;
      denied 403 "AccessDenied" "Access Denied" req_id.

Definition check_authorization (req : Request) (config : AuthConfig) (bucket : string) (key : option string)
    (action : string) : guard AuthInfo :=
  signed ← verify_sigv4_signature req config;
  match signed with
  | Err response => mret (Err response)
  | Ok _ => decide_access req config bucket key action
  end.

(** [if let Err(response) = check { return response; }] *)
Definition unless_denied {A} (check : guard A) (continue : io S Response) : io S Response :=
  r ← check;
  match r with
  | Err response => mret response
  | Ok _ => continue
  end.
End Authorization.
