(* ===== verification/ObjectRequests.v ===== *)
(** * ObjectRequests: the object handlers from the wire to the store

    [object_get], [object_put], [object_delete], [object_head] and [object_post]
    of [src/server/handlers/object.rs]: authorization and the checks in front of
    the operations of [ObjectHandlers], [ObjectWrites] and [MultipartRequests].
    [pages] bounds the listing pages of the check for foreign protection. *)

From Stdlib Require Import Ascii Strings.Byte.
From stdpp Require Import pretty.
From S2P Require Import Prelude Text Models Policy SkipMap Index Utf8 Validation FsModel Publication.
From S2P Require Import Lifecycle Storage Versions Listing Multipart LifecycleExecutor.
From S2P Require Import Http Cors Checksums ObjectHelpers Routing XmlDocuments ObjectHandlers ObjectWrites MultipartRequests.
From S2P Require Import Signatures Authorization.

Section Requests.
Context `{HttpLib} `{HelperEnv} `{Chrono} `{PayloadDigests} `{Digests} `{QuickXml} `{Env} `{HashOrder} `{StoreEnv}.
Context `{SigningEnv} `{PolicyEnv}.
Context {S : Type} `{S3Storage S} `{S3Uploads S} `{AccessStore S}.
Variables (pages : nat) (config : AuthConfig).

(** ** Checks *)

Definition respond (response : io S Response) : io S (option Response) := r ← response; mret (Some r).

(** A response without a body. *)
Definition bare_response (status : N) (req_id : string) : io S Response :=
  b ← add_ids req_id (new_builder status); mret (empty b).

Definition missing_object_bucket_response (req_id : string) (head : bool) : io S Response :=
  if head then bare_response 404 req_id
  else xml_error_response 404 "NoSuchBucket" "The specified bucket does not exist." req_id.

Definition object_bucket_error_response (bucket req_id : string) (head : bool) : io S (option Response) :=
  r ← attempt (st_get_bucket bucket);
  match r with
  | Ok _ => mret None
  | Err BucketNotFound => respond (missing_object_bucket_response req_id head)
  | Err error => respond (if head then bare_response 500 req_id else storage_error_response error req_id)
  end.

Definition unsupported_object_lock_subresource_response (req : Request) (req_id : string) : io S (option Response) :=
  match find (has_query_param req) ["retention"; "legal-hold"] with
  | Some parameter =>
      respond (xml_error_response 501 "NotImplemented"
        ("The S3 object " +:+ parameter +:+ " subresource is not supported by this emulator.") req_id)
  | None => mret None
  end.

Definition unsupported_version_tagging_response (req_id : string) : io S Response :=
  xml_error_response 501 "NotImplemented" "Version-scoped object tagging is not supported by this emulator subset." req_id.

Definition version_tagging (req : Request) : bool := has_query_param req "tagging" && has_query_param req "versionId".

Definition bare_no_content_response (req_id : string) : io S Response := bare_response 204 req_id.

(** The answer when a condition holds. *)
Definition answer_if (b : bool) (response : io S Response) : io S (option Response) :=
  if b then respond response else mret None.

Definition foreign_conflict (bucket req_id : string) : io S (option Response) :=
  c ← s3_foreign_history_conflict pages bucket;
  answer_if c (s3_foreign_history_conflict_response req_id).

(** Authorization, and the signature of the URL. *)
Definition authorized (bucket key : string) (req : Request) (action : string) (continue : io S Response) : io S Response :=
  unless_denied (check_authorization req config bucket (Some key) action)
    (unless_denied (verify_presigned_url req bucket key config) continue).

(** ** Handlers *)

Definition object_get (bucket key : string) (req : Request) (req_id : string) : io S Response :=
  if is_preflight req then preflight_response st_get_bucket bucket req req_id
  else
    authorized bucket key req "s3:GetObject"
      (unless_answered
         (or_else (object_bucket_error_response bucket req_id false)
           (or_else (unsupported_object_lock_subresource_response req req_id)
             (or_else (answer_if (version_tagging req) (unsupported_version_tagging_response req_id))
               (foreign_conflict bucket req_id))))
         (get_content bucket key req req_id)).

Definition put_checks (bucket : string) (req : Request) (req_id : string) : io S (option Response) :=
  or_else (object_bucket_error_response bucket req_id false)
    (or_else (unsupported_object_lock_subresource_response req req_id)
      (or_else (answer_if (version_tagging req) (unsupported_version_tagging_response req_id))
        (or_else (foreign_conflict bucket req_id)
          (or_else (answer_if (requested req && is_some (header req "x-amz-copy-source")) (answer UNSUPPORTED req_id))
            (if has_query_param req "tagging" || has_query_param req "acl"
             then or_else (validate_put req req_id) (validate_content_md5 req req_id)
             else mret None))))).

Definition object_put (bucket key : string) (req : Request) (req_id : string) : io S (result string Response) :=
  authorized ← check_authorization req config bucket (Some key) "s3:PutObject";
  match authorized with
  | Err response => mret (Ok response)
  | Ok _ =>
      signed ← verify_presigned_url req bucket key config;
      match signed with
      | Err response => mret (Ok response)
      | Ok _ =>
          refused ← put_checks bucket req req_id;
          match refused with
          | Some response => mret (Ok response)
          | None => put_content pages bucket key req req_id
          end
      end
  end.

Definition delete_multipart_upload (bucket key : string) (req : Request) (req_id : string) : io S Response :=
  r ← attempt (st_get_multipart_upload bucket (default "" (query_param req "uploadId")));
  match r with
  | Err NoSuchUpload => bare_no_content_response req_id
  | Err err => storage_error_response err req_id
  | Ok upload =>
      if negb (eqb (u_key upload) key) then upload_key_mismatch_response req_id
      else authorized bucket (u_key upload) req "s3:DeleteObject" (abort_upload bucket req req_id)
  end.

Definition object_delete (bucket key : string) (req : Request) (req_id : string) : io S Response :=
  if has_query_param req "uploadId" then delete_multipart_upload bucket key req req_id
  else
    authorized bucket key req "s3:DeleteObject"
      (unless_answered
         (or_else (object_bucket_error_response bucket req_id false)
           (or_else (answer_if (version_tagging req) (unsupported_version_tagging_response req_id))
             (foreign_conflict bucket req_id)))
         (delete_content bucket key req req_id)).

Definition object_head (bucket key : string) (req : Request) (req_id : string) : io S Response :=
  unless_denied (check_authorization req config bucket (Some key) "s3:GetObject")
    (unless_answered
       (or_else (object_bucket_error_response bucket req_id true) (foreign_conflict bucket req_id))
       (head_response bucket key req req_id)).

Definition complete_multipart_upload_request (bucket key : string) (req : Request) (req_id : string) : io S Response :=
  r ← attempt (st_get_multipart_upload bucket (default "" (query_param req "uploadId")));
  match r with
  | Err NoSuchUpload => xml_error_response 404 "NoSuchUpload" "Upload not found" req_id
  | Err err => storage_error_response err req_id
  | Ok upload =>
      if negb (eqb (u_key upload) key) then upload_key_mismatch_response req_id
      else
        let rest := unless_answered (foreign_conflict bucket req_id) (complete_upload bucket key req req_id upload) in
        authorized bucket (u_key upload) req "s3:PutObject"
          (if is_some (hm_get "if-match" (rq_headers req))
           then unless_denied (check_authorization req config bucket (Some (u_key upload)) "s3:GetObject") rest
           else rest)
  end.

Definition object_post (bucket key : string) (req : Request) (req_id : string) : io S Response :=
  if has_query_param req "uploadId" then complete_multipart_upload_request bucket key req req_id
  else
    authorized bucket key req "s3:PutObject"
      (unless_answered (foreign_conflict bucket req_id)
        (if has_query_param req "uploads" then initiate_multipart_upload_request bucket key req req_id
         else xml_error_response 501 "NotImplemented" "Object POST operations not yet implemented" req_id)).
End Requests.
