(* ===== verification/DeleteDocument.v ===== *)
(** * DeleteDocument: the bodies of bucket POST requests

    [parse_delete_keys] and [parse_multipart_form_upload] of
    [src/server/handlers/bucket/helpers.rs]: the document of a multi-object
    delete, and the form of a browser upload. *)

From Stdlib Require Import Ascii Strings.Byte.
From stdpp Require Import pretty.
From S2P Require Import Prelude Text Models Utf8 FsModel Publication Http Cors.

(** ** The document of a multi-object delete *)

(** The events of [quick_xml] without trimming; an attribute that cannot be read
    is [None], and a reference to an entity is an event of its own. *)
Inductive RawEvent : Type :=
| RStart (name : string) (attributes : list (option string))
| REnd (name : string)
| REmpty
| RText (raw : string)
| RCData (raw : string)
| RRef (name : string)
| RDocType
| ROther
| RError (message : string).

Class RawXml : Type := { raw_events : string -> list RawEvent }.

Definition DeleteObjectEntry : Type := string * option string * option string.

Record DeleteState : Type := mkDelete {
  ds_root_closed : bool;
  ds_stack : list string;
  ds_key : option string;
  ds_version : option string;
  ds_etag : option string;
  ds_quiet : option string;
  ds_quiet_seen : bool;
  ds_objects : list DeleteObjectEntry }.
Definition delete_start : DeleteState := mkDelete false [] None None None None false [].

Section Delete.
Context `{QuickXml}.

(** The stack holds the open elements, innermost first. *)
Definition push (name : string) (d : DeleteState) : DeleteState :=
  mkDelete (ds_root_closed d) (name :: ds_stack d) (ds_key d) (ds_version d) (ds_etag d) (ds_quiet d) (ds_quiet_seen d)
    (ds_objects d).
Definition set_fields (key version etag : option string) (d : DeleteState) : DeleteState :=
  mkDelete (ds_root_closed d) (ds_stack d) key version etag (ds_quiet d) (ds_quiet_seen d) (ds_objects d).
Definition set_quiet (quiet : option string) (d : DeleteState) : DeleteState :=
  mkDelete (ds_root_closed d) (ds_stack d) (ds_key d) (ds_version d) (ds_etag d) quiet true (ds_objects d).

Definition open_element (name : string) (attributes : list (option string)) (d : DeleteState) : result string DeleteState :=
  if ds_root_closed d then Err "Unexpected XML after the Delete document"
  else if negb (forallb (fun a => match a with
                                  | Some key => Nat.eqb (length (ds_stack d)) 0 && eqb name "Delete" && Text.starts_with key "xmlns"
                                  | None => false
                                  end) attributes)
  then Err "Delete request elements contain unsupported attributes"
  else
    if eqb (ds_stack d) [] then
      if eqb name "Delete" then Ok (push name d) else Err "Delete must be the document root"
    else if eqb (ds_stack d) ["Delete"] then
      if eqb name "Object" then
        if Nat.leb 1000 (length (ds_objects d)) then Err "Delete requests may contain at most 1000 objects"
        else Ok (push name (set_fields None None None d))
      else if eqb name "Quiet" && negb (ds_quiet_seen d) then Ok (push name (set_quiet (Some "") d))
      else Err "Delete may contain only Object entries and one Quiet element"
    else if eqb (ds_stack d) ["Object"; "Delete"] then
      if eqb name "Key" && is_none (ds_key d)
      then Ok (push name (set_fields (Some "") (ds_version d) (ds_etag d) d))
      else if eqb name "VersionId" && is_none (ds_version d)
      then Ok (push name (set_fields (ds_key d) (Some "") (ds_etag d) d))
      else if eqb name "ETag" && is_none (ds_etag d)
      then Ok (push name (set_fields (ds_key d) (ds_version d) (Some "") d))
      else Err "Object may contain one Key, VersionId, and ETag element"
    else Err "Delete request elements have invalid nesting".

(** [field.as_mut().ok_or(..)?.push_str(value)] *)
Definition extend (field : option string) (value name : string) : result string (option string) :=
  match field with
  | Some text => Ok (Some (text +:+ value))
  | None => Err ("Malformed Delete request " +:+ name)
  end.

Definition add_text (value : string) (stray : string) (d : DeleteState) : result string DeleteState :=
  let top := head (ds_stack d) in
  if eqb top (Some "Key") then
    k ← extend (ds_key d) value "Key"; Ok (set_fields k (ds_version d) (ds_etag d) d)
  else if eqb top (Some "VersionId") then
    v ← extend (ds_version d) value "VersionId"; Ok (set_fields (ds_key d) v (ds_etag d) d)
  else if eqb top (Some "ETag") then
    e ← extend (ds_etag d) value "ETag"; Ok (set_fields (ds_key d) (ds_version d) e d)
  else if eqb top (Some "Quiet") then
    q ← extend (ds_quiet d) value "Quiet";
    Ok (mkDelete (ds_root_closed d) (ds_stack d) (ds_key d) (ds_version d) (ds_etag d) q (ds_quiet_seen d) (ds_objects d))
  else if Text.is_empty (Text.trim value) then Ok d
  else Err stray.

Definition blank (field : option string) : bool := is_none_or Text.is_empty field.

Definition pop (d : DeleteState) : DeleteState :=
  mkDelete (ds_root_closed d) (tail (ds_stack d)) (ds_key d) (ds_version d) (ds_etag d) (ds_quiet d) (ds_quiet_seen d)
    (ds_objects d).

Definition close_element (name : string) (d : DeleteState) : result string DeleteState :=
  if negb (eqb (head (ds_stack d)) (Some name)) then Err "Delete request elements are not properly nested"
  else if eqb name "Key" then
    if blank (ds_key d) then Err "Each Object must contain a non-empty Key" else Ok (pop d)
  else if eqb name "VersionId" then
    if blank (ds_version d) then Err "VersionId must not be empty" else Ok (pop d)
  else if eqb name "ETag" then
    if blank (ds_etag d) then Err "ETag must not be empty" else Ok (pop d)
  else if eqb name "Quiet" then
    if eqb (ds_quiet d) (Some "true") || eqb (ds_quiet d) (Some "false") then Ok (pop d) else Err "Quiet must be true or false"
  else if eqb name "Object" then
    match ds_key d with
    | Some key =>
        if Text.is_empty key then Err "Each Object must contain a non-empty Key"
        else Ok (pop (mkDelete (ds_root_closed d) (ds_stack d) None None None (ds_quiet d) (ds_quiet_seen d)
                        (ds_objects d ++ [(key, ds_version d, ds_etag d)])))
    | None => Err "Each Object must contain a non-empty Key"
    end
  else if eqb name "Delete" then
    match ds_objects d with
    | [] => Err "Delete must contain at least one Object"
    | _ :: _ => Ok (pop (mkDelete true (ds_stack d) (ds_key d) (ds_version d) (ds_etag d) (ds_quiet d) (ds_quiet_seen d)
                           (ds_objects d)))
    end
  else Ok (pop d).

Fixpoint scan_delete (events : list RawEvent) (d : DeleteState) : result string DeleteState :=
  match events with
  | [] => Ok d
  | RStart name attributes :: rest => d ← open_element name attributes d; scan_delete rest d
  | REmpty :: _ => Err "Delete request elements must not be empty"
  | RText raw :: rest =>
      value ← unescape raw; d ← add_text value "Unexpected text in Delete request" d; scan_delete rest d
  | RCData value :: rest => d ← add_text value "Unexpected CDATA in Delete request" d; scan_delete rest d
  | REnd name :: rest => d ← close_element name d; scan_delete rest d
  | RDocType :: _ => Err "Delete requests must not contain a document type"
  | (RRef _ | ROther) :: rest => scan_delete rest d
  | RError message :: _ => Err message
  end.

Definition parse_delete_keys `{RawXml} (xml : string) : result string (list DeleteObjectEntry) :=
  d ← scan_delete (raw_events xml) delete_start;
  if negb (ds_root_closed d) || negb (Nat.eqb (length (ds_stack d)) 0) then Err "Malformed Delete request XML"
  else Ok (ds_objects d).
End Delete.

(** ** Browser uploads *)

Fixpoint bytes_prefix (p b : bytes) : option bytes :=
  match p, b with
  | [], _ => Some b
  | x :: p', y :: b' => if decide (x = y) then bytes_prefix p' b' else None
  | _ :: _, [] => None
  end.
(** [strip_suffix] *)
Definition bytes_suffix (s b : bytes) : option bytes := reverse <$> bytes_prefix (reverse s) (reverse b).

(** [split_once_bytes]; the search is that of [find_subslice]. *)
Fixpoint split_once_bytes (haystack needle : bytes) : option (bytes * bytes) :=
  match bytes_prefix needle haystack with
  | Some rest => Some ([], rest)
  | None =>
      match haystack with
      | [] => None
      | x :: haystack' => '(l, r) ← split_once_bytes haystack' needle; Some (x :: l, r)
      end
  end.

(** The needle is not empty, so the length of the haystack is fuel. *)
Fixpoint split_bytes_go (fuel : nat) (haystack needle : bytes) : list bytes :=
  match fuel, split_once_bytes haystack needle with
  | Datatypes.S fuel, Some (part, rest) => part :: split_bytes_go fuel rest needle
  | _, _ => [haystack]
  end.
Definition split_bytes (haystack needle : bytes) : list bytes := split_bytes_go (length haystack) haystack needle.

Definition CRLF : string := String "013" (String "010" "").

(** [str::split] at a text that is not empty *)
Fixpoint split_text_go (fuel : nat) (p s : string) : list string :=
  match fuel, Utf8.split_once_str p s with
  | Datatypes.S fuel, Some (l, r) => l :: split_text_go fuel p r
  | _, _ => [s]
  end.
Definition split_text (p s : string) : list string := split_text_go (String.length s) p s.

Record FormState : Type := mkForm { fm_key : option string; fm_file : option bytes; fm_content_type : string }.

(** The fields of a Content-Disposition header. *)
Definition disposition (header : string) (names : option string * option string) : option string * option string :=
  foldl (fun '(field_name, filename) token =>
    let token := Text.trim token in
    match Text.strip_prefix token ("name=" +:+ String QUOT "") with
    | Some name => (Some (Text.trim_end_matches name QUOT), filename)
    | None =>
        match Text.strip_prefix token ("filename=" +:+ String QUOT "") with
        | Some name => (field_name, Some (Text.trim_end_matches name QUOT))
        | None => (field_name, filename)
        end
    end) names (tail (Text.split ";" header)).

Definition form_headers (headers : list string) (content_type : string) : option string * option string * string :=
  foldl (fun '(names, content_type) header =>
    let lower := Text.to_ascii_lowercase header in
    if Text.starts_with lower "content-disposition:" then (disposition header names, content_type)
    else if Text.starts_with lower "content-type:" then
      (names, match Text.split_once ":" header with
              | Some (_, value) => Text.trim value
              | None => "application/octet-stream"
              end)
    else (names, content_type)) ((None, None), content_type) headers.

(** [None]: a part that is not valid UTF-8 ends the upload. *)
Definition form_part (raw_part : bytes) (f : FormState) : option FormState :=
  let part := default raw_part (bytes_prefix (as_bytes CRLF) raw_part) in
  if bool_decide (part = []) || bool_decide (part = as_bytes ("--" +:+ CRLF)) || bool_decide (part = as_bytes "--") then Some f
  else
    let part := match bytes_suffix (as_bytes ("--" +:+ CRLF)) part with
                | Some p => p
                | None => default part (bytes_suffix (as_bytes "--") part)
                end in
    match split_once_bytes part (as_bytes (CRLF +:+ CRLF)) with
    | None => Some f
    | Some (raw_headers, raw_body) =>
        let field_body := default raw_body (bytes_suffix (as_bytes CRLF) raw_body) in
        headers ← Utf8.from_utf8 raw_headers;
        let '(field_name, filename, content_type) := form_headers (split_text CRLF headers) (fm_content_type f) in
        if eqb field_name (Some "key") then
          key ← Utf8.from_utf8 field_body; Some (mkForm (Some key) (fm_file f) content_type)
        else if eqb field_name (Some "file") && is_some filename then Some (mkForm (fm_key f) (Some field_body) content_type)
        else Some (mkForm (fm_key f) (fm_file f) content_type)
    end.

Fixpoint form_parts (parts : list bytes) (f : FormState) : option FormState :=
  match parts with
  | [] => Some f
  | part :: rest => f ← form_part part f; form_parts rest f
  end.

Definition form_boundary (content_type : string) : option string :=
  head (omap (fun part => Text.strip_prefix (Text.trim part) "boundary=") (Text.split ";" content_type)).

Definition parse_multipart_form_upload (content_type : string) (body : bytes) : option (string * bytes * string) :=
  boundary ← form_boundary content_type;
  f ← form_parts (split_bytes body (as_bytes ("--" +:+ boundary))) (mkForm None None "application/octet-stream");
  key ← fm_key f;
  file ← fm_file f;
  Some (key, file, fm_content_type f).
