(* ===== verification/LifecycleXml.v ===== *)
(** * LifecycleXml: lifecycle and versioning documents

    [lifecycle_xml] and [versioning_status_xml] of [src/utils/xml.rs] and their
    readers in [src/utils/xml/parse.rs], as transitions on the reader's state. *)

From Stdlib Require Import Ascii.
From stdpp Require Import pretty.
From S2P Require Import Prelude Text Models Utf8 FsModel Publication Lifecycle Http Cors.
From S2P Require Import SkipMap Index Validation Storage Versions Listing LifecycleExecutor Checksums ObjectHelpers Routing XmlDocuments.

(** ** The versioning document *)

Definition versioning_status_xml (status : option string) : string :=
  match status with
  | None => xml_declaration +:+ NL +:+ "<VersioningConfiguration xmlns=" +:+ S3_NAMESPACE +:+ "/>"
  | Some status =>
      xml_declaration +:+ NL +:+ "<VersioningConfiguration xmlns=" +:+ S3_NAMESPACE +:+ ">" +:+ NL +:+
      "  <Status>" +:+ escape_xml status +:+ "</Status>" +:+ NL +:+ "</VersioningConfiguration>"
  end.

Section Versioning.
Context `{QuickXml}.

Fixpoint scan_versioning (events : list XmlEvent) (in_status enabled : bool) : result string bool :=
  match events with
  | [] => Ok enabled
  | XStart name :: rest => scan_versioning rest (in_status || eqb name "Status") enabled
  | XEnd name :: rest => scan_versioning rest (in_status && negb (eqb name "Status")) enabled
  | XText raw :: rest =>
      if in_status then text ← unescape raw; scan_versioning rest in_status (eqb text "Enabled")
      else scan_versioning rest in_status enabled
  | XError message :: _ => Err ("XML parse error: " +:+ message)
  | _ :: rest => scan_versioning rest in_status enabled
  end.

Definition parse_versioning_xml (body : string) : result string bool := scan_versioning (xml_events body) false false.
End Versioning.

(** ** Printing a configuration *)

(** [writeln!] of an element with a text *)
Definition line (indent name text : string) : string :=
  indent +:+ "<" +:+ name +:+ ">" +:+ text +:+ "</" +:+ name +:+ ">" +:+ NL.
Definition block (indent name body : string) : string :=
  indent +:+ "<" +:+ name +:+ ">" +:+ NL +:+ body +:+ indent +:+ "</" +:+ name +:+ ">" +:+ NL.

Definition optional {A} (f : A -> string) (o : option A) : string := match o with Some a => f a | None => "" end.
Definition all_lines {A} (f : A -> string) (l : list A) : string := foldr (fun a rest => f a +:+ rest) "" l.

Definition storage_class_text (c : StorageClass) : string :=
  match c with Standard => "STANDARD" | Glacier => "GLACIER" | DeepArchive => "DEEP_ARCHIVE" end.

Definition tag_xml (t : Tag) : string :=
  block "      " "Tag" (line "        " "Key" (escape_xml (tag_key t)) +:+ line "        " "Value" (escape_xml (tag_value t))).
Definition filter_xml (f : Filter) : string :=
  block "    " "Filter"
    (optional (fun p => line "      " "Prefix" (escape_xml p)) (filter_prefix f) +:+ all_lines tag_xml (filter_tags f)).
Definition expiration_xml (e : Expiration) : string :=
  block "    " "Expiration"
    (optional (fun d : N => line "      " "Days" (pretty d)) (exp_days e) +:+
     optional (fun d => line "      " "Date" (escape_xml d)) (exp_date e) +:+
     optional (fun m : bool => line "      " "ExpiredObjectDeleteMarker" (if m then "true" else "false"))
       (exp_expired_object_delete_marker e)).
Definition noncurrent_xml (n : NoncurrentVersionExpiration) : string :=
  block "    " "NoncurrentVersionExpiration" (line "      " "NoncurrentDays" (pretty (noncurrent_days n))).
Definition transition_xml (t : Transition) : string :=
  block "    " "Transition"
    (optional (fun d : N => line "      " "Days" (pretty d)) (tr_days t) +:+
     optional (fun d => line "      " "Date" (escape_xml d)) (tr_date t) +:+
     line "      " "StorageClass" (storage_class_text (tr_storage_class t))).

Definition rule_xml (r : Rule) : string :=
  block "  " "Rule"
    (optional (fun id => line "    " "ID" (escape_xml id)) (rule_id r) +:+
     line "    " "Status" (match rule_status r with RuleEnabled => "Enabled" | RuleDisabled => "Disabled" end) +:+
     optional filter_xml (rule_filter r) +:+ optional expiration_xml (rule_expiration r) +:+
     optional noncurrent_xml (rule_noncurrent_version_expiration r) +:+ all_lines transition_xml (rule_transitions r)).

Definition lifecycle_xml (config : LifecycleConfiguration) : string :=
  xml_declaration +:+ NL +:+ "<LifecycleConfiguration>" +:+ NL +:+ all_lines rule_xml (rules config) +:+
  "</LifecycleConfiguration>".

(** ** Reading a configuration *)

Record LifecycleParseState : Type := mkParse {
  lp_rules : list Rule;
  lp_rule : option Rule;
  lp_filter : option Filter;
  lp_expiration : option Expiration;
  lp_noncurrent : option NoncurrentVersionExpiration;
  lp_transition : option Transition;
  lp_tag : option (string * string);
  lp_text : string }.
Definition parse_start : LifecycleParseState := mkParse [] None None None None None None "".

Definition new_rule : Rule := mkRule None RuleDisabled None None None [].
Definition new_expiration : Expiration := mkExpiration None None None.
Definition new_transition : Transition := mkTransition None None Standard.

Section State.
Variable p : LifecycleParseState.

Definition set_rule (r : option Rule) : LifecycleParseState :=
  mkParse (lp_rules p) r (lp_filter p) (lp_expiration p) (lp_noncurrent p) (lp_transition p) (lp_tag p) (lp_text p).
Definition set_filter (f : option Filter) : LifecycleParseState :=
  mkParse (lp_rules p) (lp_rule p) f (lp_expiration p) (lp_noncurrent p) (lp_transition p) (lp_tag p) (lp_text p).
Definition set_expiration (e : option Expiration) : LifecycleParseState :=
  mkParse (lp_rules p) (lp_rule p) (lp_filter p) e (lp_noncurrent p) (lp_transition p) (lp_tag p) (lp_text p).
Definition set_noncurrent (n : option NoncurrentVersionExpiration) : LifecycleParseState :=
  mkParse (lp_rules p) (lp_rule p) (lp_filter p) (lp_expiration p) n (lp_transition p) (lp_tag p) (lp_text p).
Definition set_transition (t : option Transition) : LifecycleParseState :=
  mkParse (lp_rules p) (lp_rule p) (lp_filter p) (lp_expiration p) (lp_noncurrent p) t (lp_tag p) (lp_text p).
Definition set_tag (t : option (string * string)) : LifecycleParseState :=
  mkParse (lp_rules p) (lp_rule p) (lp_filter p) (lp_expiration p) (lp_noncurrent p) (lp_transition p) t (lp_text p).
Definition set_text (t : string) : LifecycleParseState :=
  mkParse (lp_rules p) (lp_rule p) (lp_filter p) (lp_expiration p) (lp_noncurrent p) (lp_transition p) (lp_tag p) t.
Definition push_rule (r : Rule) : LifecycleParseState :=
  mkParse (lp_rules p ++ [r]) None (lp_filter p) (lp_expiration p) (lp_noncurrent p) (lp_transition p) (lp_tag p) (lp_text p).

Definition lp_start (name : string) : LifecycleParseState :=
  if eqb name "Rule" then set_rule (Some new_rule)
  else if eqb name "Filter" then set_filter (Some (mkFilter None []))
  else if eqb name "Expiration" then set_expiration (Some new_expiration)
  else if eqb name "NoncurrentVersionExpiration" then set_noncurrent (Some (mkNoncurrent 0))
  else if eqb name "Transition" then set_transition (Some new_transition)
  else if eqb name "Tag" then set_tag (Some ("", ""))
  else p.

Definition end_rule_field (name : string) : LifecycleParseState :=
  match lp_rule p with
  | Some r =>
      if eqb name "ID" then
        set_rule (Some (mkRule (Some (lp_text p)) (rule_status r) (rule_filter r) (rule_expiration r)
                          (rule_noncurrent_version_expiration r) (rule_transitions r)))
      else if eqb name "Status" then
        set_rule (Some (mkRule (rule_id r) (if eqb (lp_text p) "Enabled" then RuleEnabled else RuleDisabled) (rule_filter r)
                          (rule_expiration r) (rule_noncurrent_version_expiration r) (rule_transitions r)))
      else p
  | None => p
  end.

(** [take] empties the tag also when no filter is open. *)
Definition finish_tag : LifecycleParseState :=
  match lp_filter p, lp_tag p with
  | Some f, Some (k, v) =>
      mkParse (lp_rules p) (lp_rule p) (Some (mkFilter (filter_prefix f) (filter_tags f ++ [mkTag k v]))) (lp_expiration p)
        (lp_noncurrent p) (lp_transition p) None (lp_text p)
  | _, _ => set_tag None
  end.

Definition end_filter_field (name : string) : LifecycleParseState :=
  if eqb name "Prefix" then
    match lp_filter p with Some f => set_filter (Some (mkFilter (Some (lp_text p)) (filter_tags f))) | None => p end
  else if eqb name "Key" then match lp_tag p with Some (_, v) => set_tag (Some (lp_text p, v)) | None => p end
  else if eqb name "Value" then match lp_tag p with Some (k, _) => set_tag (Some (k, lp_text p)) | None => p end
  else if eqb name "Tag" then finish_tag
  else p.

Definition set_days : LifecycleParseState :=
  match parse_u32 (lp_text p) with
  | Some days =>
      match lp_expiration p with
      | Some e => set_expiration (Some (mkExpiration (Some days) (exp_date e) (exp_expired_object_delete_marker e)))
      | None =>
          match lp_transition p with
          | Some t => set_transition (Some (mkTransition (Some days) (tr_date t) (tr_storage_class t)))
          | None => p
          end
      end
  | None => p
  end.

Definition set_noncurrent_days : LifecycleParseState :=
  match parse_u32 (lp_text p), lp_noncurrent p with
  | Some days, Some _ => set_noncurrent (Some (mkNoncurrent days))
  | _, _ => p
  end.

Definition set_date : LifecycleParseState :=
  match lp_expiration p with
  | Some e => set_expiration (Some (mkExpiration (exp_days e) (Some (lp_text p)) (exp_expired_object_delete_marker e)))
  | None =>
      match lp_transition p with
      | Some t => set_transition (Some (mkTransition (tr_days t) (Some (lp_text p)) (tr_storage_class t)))
      | None => p
      end
  end.

Definition set_expired_marker : LifecycleParseState :=
  match lp_expiration p with
  | Some e => set_expiration (Some (mkExpiration (exp_days e) (exp_date e) (Some (eqb (lp_text p) "true"))))
  | None => p
  end.

Definition set_storage_class : LifecycleParseState :=
  match lp_transition p with
  | Some t =>
      set_transition (Some (mkTransition (tr_days t) (tr_date t)
        (if eqb (lp_text p) "GLACIER" then Glacier
         else if eqb (lp_text p) "DEEP_ARCHIVE" then DeepArchive else Standard)))
  | None => p
  end.

Definition end_action_field (name : string) : LifecycleParseState :=
  if eqb name "Days" then set_days
  else if eqb name "NoncurrentDays" then set_noncurrent_days
  else if eqb name "Date" then set_date
  else if eqb name "ExpiredObjectDeleteMarker" then set_expired_marker
  else if eqb name "StorageClass" then set_storage_class
  else p.

(** The rule under construction, changed by a part that was read. *)
Definition in_rule {A} (o : option A) (f : Rule -> A -> Rule) (cleared : LifecycleParseState) : LifecycleParseState :=
  match lp_rule p, o with
  | Some r, Some a =>
      mkParse (lp_rules cleared) (Some (f r a)) (lp_filter cleared) (lp_expiration cleared) (lp_noncurrent cleared)
        (lp_transition cleared) (lp_tag cleared) (lp_text cleared)
  | _, _ => cleared
  end.

Definition close_lifecycle_element (name : string) : LifecycleParseState :=
  if eqb name "Filter" then
    in_rule (lp_filter p) (fun r f => mkRule (rule_id r) (rule_status r) (Some f) (rule_expiration r)
      (rule_noncurrent_version_expiration r) (rule_transitions r)) (set_filter None)
  else if eqb name "Expiration" then
    in_rule (lp_expiration p) (fun r e => mkRule (rule_id r) (rule_status r) (rule_filter r) (Some e)
      (rule_noncurrent_version_expiration r) (rule_transitions r)) (set_expiration None)
  else if eqb name "NoncurrentVersionExpiration" then
    in_rule (lp_noncurrent p) (fun r n => mkRule (rule_id r) (rule_status r) (rule_filter r) (rule_expiration r)
      (Some n) (rule_transitions r)) (set_noncurrent None)
  else if eqb name "Transition" then
    in_rule (lp_transition p) (fun r t => mkRule (rule_id r) (rule_status r) (rule_filter r) (rule_expiration r)
      (rule_noncurrent_version_expiration r) (rule_transitions r ++ [t])) (set_transition None)
  else if eqb name "Rule" then match lp_rule p with Some r => push_rule r | None => p end
  else p.
End State.

Definition lp_end (name : string) (p : LifecycleParseState) : LifecycleParseState :=
  let p := end_rule_field p name in
  let p := end_filter_field p name in
  let p := end_action_field p name in
  let p := close_lifecycle_element p name in
  set_text p "".

Section Reader.
Context `{QuickXml}.

Fixpoint scan_lifecycle (events : list XmlEvent) (p : LifecycleParseState) : result string LifecycleParseState :=
  match events with
  | [] => Ok p
  | XStart name :: rest => scan_lifecycle rest (set_text (lp_start p name) "")
  | XText raw :: rest => scan_lifecycle rest (set_text p (unwrap_or "" (unescape raw)))
  | XEnd name :: rest => scan_lifecycle rest (lp_end name p)
  | XError message :: _ => Err ("XML parse error: " +:+ message)
  | _ :: rest => scan_lifecycle rest p
  end.

Definition parse_lifecycle_xml (body : string) : result string LifecycleConfiguration :=
  p ← scan_lifecycle (xml_events body) parse_start; Ok (mkLifecycle (lp_rules p)).
End Reader.
