(* ===== verification/BucketRequests.v ===== *)
(** * BucketRequests: requests that change a bucket

    [list_buckets], [bucket_head], [bucket_delete] and [bucket_post] of
    [src/server/handlers/bucket.rs] and [bucket_put] of [bucket/put.rs].  The lock
    that serializes the activation of data protection is left out: requests run
    one after the other. *)

From Stdlib Require Import Ascii Strings.Byte.
From stdpp Require Import pretty.
From S2P Require Import Prelude Text Models Policy SkipMap Index Utf8 Validation FsModel Publication.
From S2P Require Import Lifecycle Storage Versions Listing Multipart LifecycleExecutor.
From S2P Require Import Http Cors Checksums ObjectHelpers Routing XmlDocuments ObjectHandlers ObjectWrites MultipartRequests.
From S2P Require Import Signatures Authorization ObjectRequests DeleteDocument LifecycleXml.

(** ** The store of the bucket handlers *)

Class BucketOps (S : Type) : Type := {
  st_create_bucket : string -> io S unit;
  st_delete_bucket : string -> io S unit;
  st_bucket_exists : string -> io S bool;
  st_update_bucket_metadata : string -> strmap -> io S Bucket;
  st_enable_versioning : string -> io S unit;
  st_suspend_versioning : string -> io S unit;
  st_put_bucket_lifecycle : string -> LifecycleConfiguration -> io S unit;
  st_delete_bucket_lifecycle : string -> io S unit;
  st_put_bucket_policy : string -> BucketPolicyDocument -> io S unit;
  st_delete_bucket_policy : string -> io S unit;
  st_put_bucket_acl : string -> Acl -> io S unit;
  st_get_object_version : string -> string -> string -> io S Object;
  st_list_multipart_uploads : string -> io S (list MultipartUpload) }.

#[export] Instance filesystem_buckets {M} `{SkipMap M} `{Env} `{StoreEnv} `{Digests} `{UploadEnv} : BucketOps (World M) := {|
  st_create_bucket := create_bucket;
  st_delete_bucket := delete_bucket;
  st_bucket_exists := bucket_exists;
  st_update_bucket_metadata := update_bucket_metadata;
  st_enable_versioning := enable_versioning;
  st_suspend_versioning := suspend_versioning;
  st_put_bucket_lifecycle := put_bucket_lifecycle;
  st_delete_bucket_lifecycle := delete_bucket_lifecycle;
  st_put_bucket_policy := put_bucket_policy;
  st_delete_bucket_policy := delete_bucket_policy;
  st_put_bucket_acl := put_bucket_acl;
  st_get_object_version := get_object_version;
  st_list_multipart_uploads := list_multipart_uploads |}.

(** The text of the error of [serde_json] on a policy. *)
Class PolicyErrors : Type := { policy_error : string -> string }.

Definition S3_REQUEST_PAYMENT_KEY : string := "s3_requester_pays".
Definition S3_WEBSITE_XML_KEY : string := "s3_website_xml".
Definition S3_VERSIONING_STATUS_KEY : string := "s3_versioning_status".
Definition S3_OBJECT_LOCK_ENABLED_KEY : string := "s3_object_lock_enabled".

(** ** Pieces *)

Section Requests.
Context `{HttpLib} `{HelperEnv} `{Chrono} `{PayloadDigests} `{Digests} `{QuickXml} `{RawXml} `{Env} `{HashOrder} `{StoreEnv}.
Context `{SigningEnv} `{PolicyEnv} `{PolicyErrors}.
Context {S : Type} `{S3Storage S} `{S3Uploads S} `{AccessStore S} `{BucketOps S}.
Variables (pages : nat) (config : AuthConfig).

(** [Err] is an error of the connection, with its text. *)
Abbreviation answer_of := (io S (result string Response)).
Definition ok_answer (response : io S Response) : answer_of := r ← response; mret (Ok r).

(** [result?] where the error becomes its text *)
Definition or_text {A} (call : io S A) (k : A -> answer_of) : answer_of :=
  r ← attempt call;
  match r with
  | Ok a => k a
  | Err e => mret (Err (display e))
  end.

Definition guarded (check : io S (result Response AuthInfo)) (k : answer_of) : answer_of :=
  r ← check;
  match r with
  | Err response => mret (Ok response)
  | Ok _ => k
  end.

Definition bucket_cors_snapshot (bucket : string) : io S (option string) :=
  r ← attempt (st_get_bucket bucket);
  mret (match r with Ok b => b_metadata b !! S3_CORS_XML_KEY | Err _ => None end).

Definition apply_bucket_cors_headers (bucket : string) (req : Request) (b : ResponseBuilder) (snapshot : option string)
    : io S ResponseBuilder :=
  match snapshot with
  | Some cors_xml => mret (apply_actual_request_headers_from_xml req b cors_xml)
  | None => with_cors bucket req b
  end.

Definition with_bucket_metadata (bucket : string) (update : strmap -> strmap) : io S Bucket :=
  b ← st_get_bucket bucket;
  st_update_bucket_metadata bucket (update (b_metadata b)).

(** [bucket_service::set_versioning] *)
Definition set_bucket_versioning (bucket : string) (enabled : bool) : io S unit :=
  if enabled then st_enable_versioning bucket else st_suspend_versioning bucket.

(** ** GET of the service, HEAD and DELETE of a bucket *)

Definition bucket_entry_xml (b : Bucket) : string :=
  NL +:+ "        <Bucket>" +:+ NL +:+ "            <Name>" +:+ escape_xml (b_name b) +:+ "</Name>" +:+ NL +:+
  "            <CreationDate>" +:+ to_rfc3339 (b_created_at b) +:+ "</CreationDate>" +:+ NL +:+ "        </Bucket>".

Definition list_buckets_xml (buckets : list Bucket) : string :=
  xml_declaration +:+ NL +:+ "<ListAllMyBucketsResult xmlns=" +:+ S3_NAMESPACE +:+ ">" +:+ NL +:+
  "    <Owner>" +:+ NL +:+ "        <ID>sqrzl-emulator</ID>" +:+ NL +:+
  "        <DisplayName>Sqrzl Emulator</DisplayName>" +:+ NL +:+ "    </Owner>" +:+ NL +:+ "    <Buckets>" +:+
  all_lines bucket_entry_xml buckets +:+ NL +:+ "    </Buckets>" +:+ NL +:+ "</ListAllMyBucketsResult>".

Definition list_buckets_request (req : Request) (req_id : string) : answer_of :=
  guarded (check_authorization req config "*" None "s3:ListAllMyBuckets")
    (or_text st_list_buckets (fun buckets => ok_answer (xml_success_response 200 (list_buckets_xml buckets) req_id))).

Definition bucket_head (bucket : string) (req : Request) (req_id : string) : io S Response :=
  unless_denied (check_authorization req config bucket None "s3:ListBucket")
    (r ← attempt (st_get_bucket bucket);
     match r with
     | Ok _ => b ← add_ids req_id (new_builder 200); empty_with_cors bucket req b
     | Err e => storage_error_response e req_id
     end).

Definition bucket_delete_response {A} (result : Res A) (bucket : string) (req : Request) (req_id : string)
    (snapshot : option string) : io S Response :=
  match result with
  | Ok _ =>
      b ← add_ids req_id (new_builder 204);
      b ← apply_bucket_cors_headers bucket req b snapshot;
      mret (empty b)
  | Err e => storage_error_response e req_id
  end.

Definition bucket_delete_action (req : Request) : string :=
  if has_query_param req "lifecycle" then "s3:DeleteLifecycleConfiguration"
  else if has_query_param req "policy" then "s3:DeleteBucketPolicy"
  else if has_query_param req "website" then "s3:DeleteBucketWebsite"
  else if has_query_param req "cors" then "s3:DeleteBucketCors"
  else "s3:DeleteBucket".

Definition delete_bucket_part (bucket : string) (req : Request) (req_id : string) (snapshot : option string) : io S Response :=
  if has_query_param req "website" then
    r ← attempt (with_bucket_metadata bucket (delete S3_WEBSITE_XML_KEY));
    bucket_delete_response r bucket req req_id None
  else if has_query_param req "cors" then
    r ← attempt (with_bucket_metadata bucket (delete S3_CORS_XML_KEY));
    bucket_delete_response r bucket req req_id snapshot
  else if has_query_param req "lifecycle" then
    r ← attempt (st_delete_bucket_lifecycle bucket); bucket_delete_response r bucket req req_id None
  else if has_query_param req "policy" then
    r ← attempt (st_delete_bucket_policy bucket); bucket_delete_response r bucket req req_id None
  else if has_query_param req "versioning" || has_query_param req "acl" then
    xml_error_response 400 "InvalidRequest" "Cannot delete versioning or ACL via DELETE" req_id
  else
    unless_answered (foreign_conflict pages bucket req_id)
      (r ← attempt (st_delete_bucket bucket); bucket_delete_response r bucket req req_id snapshot).

Definition bucket_delete (bucket : string) (req : Request) (req_id : string) : io S Response :=
  snapshot ← (if has_query_param req "cors"
                 || negb (has_query_param req "website") && negb (has_query_param req "lifecycle")
                    && negb (has_query_param req "policy")
              then bucket_cors_snapshot bucket else mret None);
  unless_denied (check_authorization req config bucket None (bucket_delete_action req))
    (delete_bucket_part bucket req req_id snapshot).

(** ** POST: multi-object delete *)

Definition multi_delete_etag_matches (expected actual : string) : bool :=
  let expected := Text.trim expected in
  eqb expected "*" || negb (Text.starts_with expected "W/") && eqb (strip_quotes expected) (strip_quotes actual).

Definition MultiDeleteFailure : Type := string * string.
Definition multi_delete_storage_failure (e : Error) : MultiDeleteFailure := (error_code e, display e).

Definition PRECONDITION : MultiDeleteFailure :=
  ("PreconditionFailed", "At least one of the pre-conditions you specified did not hold").
Definition PROTECTED : MultiDeleteFailure :=
  ("AccessDenied", "Object is protected by an active retention policy or legal hold").

(** The failure, or nothing when the error means there is nothing to delete. *)
Definition unless_missing (missing : Error -> bool) (r : Res unit) : option MultiDeleteFailure :=
  match r with
  | Ok _ => None
  | Err e => if missing e then None else Some (multi_delete_storage_failure e)
  end.
Definition no_version (e : Error) : bool := match e with KeyNotFound | NoSuchVersion => true | _ => false end.
Definition no_key (e : Error) : bool := match e with KeyNotFound => true | _ => false end.

Definition delete_version_entry (bucket key version : string) (etag : option string) : io S (option MultiDeleteFailure) :=
  r ← attempt (st_get_object_version bucket key version);
  match r with
  | Err e => mret (if no_version e && is_none etag then None else Some (multi_delete_storage_failure e))
  | Ok target =>
      if is_some_and (fun etag => negb (multi_delete_etag_matches etag (o_etag target))) etag then mret (Some PRECONDITION)
      else
        t ← now;
        if object_is_locked t target then mret (Some PROTECTED)
        else
          r ← attempt (st_delete_object_version bucket key version);
          mret (unless_missing (fun e => no_version e && is_none etag) r)
  end.

Definition delete_current_entry (bucket key : string) (etag : option string) : io S (option MultiDeleteFailure) :=
  let delete_any := r ← attempt (st_delete_object bucket key); mret (unless_missing no_key r) in
  r ← attempt (st_get_object bucket key);
  match r with
  | Ok current =>
      locked ← locked_in_place bucket current;
      if (locked : bool) then mret (Some PROTECTED)
      else
        match etag with
        | Some etag =>
            if negb (multi_delete_etag_matches etag (o_etag current)) then mret (Some PRECONDITION)
            else
              r ← attempt (st_delete_object_if bucket key (Etag (o_etag current)));
              mret (match r with
                    | Ok true => None
                    | Ok false => Some ("Conflict", "A conflicting mutation changed the object.")
                    | Err e => Some (multi_delete_storage_failure e)
                    end)
        | None => delete_any
        end
  | Err _ => if is_some etag then mret (Some (multi_delete_storage_failure KeyNotFound)) else delete_any
  end.

Definition multi_delete_object (bucket : string) (entry : DeleteObjectEntry) : io S (option MultiDeleteFailure) :=
  let '(key, version, etag) := entry in
  match version with
  | Some version => delete_version_entry bucket key version etag
  | None => delete_current_entry bucket key etag
  end.

Definition outcome_xml (o : DeleteObjectEntry * option MultiDeleteFailure) : string :=
  let '((key, version, _), failure) := o in
  let element := if is_some failure then "Error" else "Deleted" in
  "<" +:+ element +:+ "><Key>" +:+ escape_xml key +:+ "</Key>" +:+
  optional (fun v => "<VersionId>" +:+ escape_xml v +:+ "</VersionId>") version +:+
  optional (fun f => "<Code>" +:+ f.1 +:+ "</Code><Message>" +:+ escape_xml f.2 +:+ "</Message>") failure +:+
  "</" +:+ element +:+ ">".

Definition multi_delete_result_xml (outcomes : list (DeleteObjectEntry * option MultiDeleteFailure)) : string :=
  xml_declaration +:+ "<DeleteResult xmlns=" +:+ S3_NAMESPACE +:+ ">" +:+ all_lines outcome_xml outcomes +:+ "</DeleteResult>".

Definition multi_delete_request_objects (req : Request) : result refusal_of (list DeleteObjectEntry) :=
  match header req "content-md5" with
  | None => Err (400%N, "MissingContentMD5", "The Content-MD5 header is required for DeleteObjects requests.")
  | Some content_md5 =>
      match base64_decode content_md5 with
      | None => Err (400%N, "InvalidDigest", "The Content-MD5 value is not a valid MD5 digest.")
      | Some supplied =>
          if negb (Nat.eqb (length supplied) 16)
          then Err (400%N, "InvalidDigest", "The Content-MD5 value is not a valid MD5 digest.")
          else if negb (eqb supplied (md5_digest (rq_body req)))
          then Err (400%N, "BadDigest", "The Content-MD5 value does not match the request body.")
          else
            match (match Utf8.from_utf8 (rq_body req) with
                   | Some body => parse_delete_keys body
                   | None => Err (Utf8.utf8_error (rq_body req))
                   end) with
            | Ok objects => Ok objects
            | Err message => Err (200%N, "MalformedXML", message)
            end
      end
  end.

(** The first object that may not be deleted. *)
Fixpoint multi_delete_authorization_error (bucket : string) (req : Request) (objects : list DeleteObjectEntry)
    : io S (option Response) :=
  match objects with
  | [] => mret None
  | (key, _, _) :: rest =>
      r ← check_authorization req config bucket (Some key) "s3:DeleteObject";
      match r with
      | Err response => mret (Some response)
      | Ok _ => multi_delete_authorization_error bucket req rest
      end
  end.

Fixpoint multi_delete_objects (bucket : string) (objects : list DeleteObjectEntry)
    : io S (list (DeleteObjectEntry * option MultiDeleteFailure)) :=
  match objects with
  | [] => mret []
  | entry :: rest =>
      failure ← multi_delete_object bucket entry;
      outcomes ← multi_delete_objects bucket rest;
      mret ((entry, failure) :: outcomes)
  end.

Definition bucket_post_multi_object_delete (bucket : string) (req : Request) (req_id : string) : answer_of :=
  or_text (st_bucket_exists bucket) (fun present : bool =>
    if negb present then ok_answer (xml_error_response 404 "NoSuchBucket" "Bucket not found" req_id)
    else
      match multi_delete_request_objects req with
      | Err r => ok_answer (answer r req_id)
      | Ok objects =>
          ok_answer (unless_answered
            (or_else (multi_delete_authorization_error bucket req objects) (foreign_conflict pages bucket req_id))
            (outcomes ← multi_delete_objects bucket objects;
             b ← add_ids req_id (with_content_type "application/xml; charset=utf-8" (new_builder 200));
             b ← apply_bucket_cors_headers bucket req (with_body (as_bytes (multi_delete_result_xml outcomes)) b) None;
             mret (build b)))
      end).

(** ** POST: browser uploads *)

Definition bucket_post_browser_upload (bucket : string) (req : Request) (req_id content_type : string) : answer_of :=
  or_text (st_bucket_exists bucket) (fun present : bool =>
    if negb present then ok_answer (xml_error_response 404 "NoSuchBucket" "Bucket not found" req_id)
    else
      match parse_multipart_form_upload content_type (rq_body req) with
      | None => ok_answer (xml_error_response 400 "InvalidRequest" "Unable to parse multipart form upload" req_id)
      | Some (key, data, file_content_type) =>
          guarded (check_authorization req config bucket (Some key) "s3:PutObject")
            (conflict ← s3_foreign_history_conflict pages bucket;
             if (conflict : bool) then ok_answer (s3_foreign_history_conflict_response req_id)
             else
               t ← now;
               or_text (st_put_object bucket key (new_object t key data file_content_type)) (fun _ =>
                 ok_answer (b ← add_ids req_id (with_header "Location" ("/" +:+ bucket +:+ "/" +:+ key) (new_builder 204));
                            empty_with_cors bucket req b)))
      end).

Definition bucket_post (bucket : string) (req : Request) (req_id : string) : answer_of :=
  if has_query_param req "delete" then bucket_post_multi_object_delete bucket req req_id
  else
    match header req "content-type" with
    | Some content_type =>
        if Text.starts_with content_type "multipart/form-data" then bucket_post_browser_upload bucket req req_id content_type
        else ok_answer (xml_error_response 501 "NotImplemented" "Bucket POST operations not yet implemented" req_id)
    | None => ok_answer (xml_error_response 501 "NotImplemented" "Bucket POST operations not yet implemented" req_id)
    end.

(** ** PUT *)

Definition bucket_put_action (req : Request) : string :=
  if has_query_param req "versioning" then "s3:PutBucketVersioning"
  else if has_query_param req "object-lock" then "s3:PutBucketObjectLockConfiguration"
  else if has_query_param req "lifecycle" then "s3:PutLifecycleConfiguration"
  else if has_query_param req "requestPayment" then "s3:PutBucketRequestPayment"
  else if has_query_param req "website" then "s3:PutBucketWebsite"
  else if has_query_param req "cors" then "s3:PutBucketCors"
  else if has_query_param req "acl" then "s3:PutBucketAcl"
  else if has_query_param req "policy" then "s3:PutBucketPolicy"
  else "s3:CreateBucket".

Definition empty_bucket_success (bucket : string) (req : Request) (req_id : string) : io S Response :=
  b ← add_ids req_id (new_builder 200);
  b ← apply_bucket_cors_headers bucket req b None;
  mret (empty b).

Definition bucket_write_response {A} (result : Res A) (bucket : string) (req : Request) (req_id : string) : io S Response :=
  match result with
  | Ok _ => empty_bucket_success bucket req req_id
  | Err BucketNotFound => xml_error_response 404 "NoSuchBucket" "Bucket not found" req_id
  | Err error => xml_error_response 500 "InternalError" (display error) req_id
  end.

Definition write_bucket {A} (call : io S A) (bucket : string) (req : Request) (req_id : string) : io S Response :=
  r ← attempt call; bucket_write_response r bucket req req_id.

Definition request_body_text (req : Request) (k : string -> answer_of) : answer_of :=
  match Utf8.from_utf8 (rq_body req) with
  | Some body => k body
  | None => mret (Err ("Invalid UTF-8 body: " +:+ Utf8.utf8_error (rq_body req)))
  end.

(** The text of the first element of that name. *)
Fixpoint metadata_value (events : list XmlEvent) (tag : string) (in_tag : bool) : option string :=
  match events with
  | [] => None
  | XStart name :: rest => metadata_value rest tag (in_tag || eqb name tag)
  | XEnd name :: rest => metadata_value rest tag (in_tag && negb (eqb name tag))
  | XText raw :: rest => if in_tag then Some (unwrap_or "" (unescape raw)) else metadata_value rest tag in_tag
  | XError _ :: _ => None
  | _ :: rest => metadata_value rest tag in_tag
  end.

Definition put_lifecycle (bucket : string) (req : Request) (req_id : string) : answer_of :=
  request_body_text req (fun body =>
    match parse_lifecycle_xml body with
    | Err message => ok_answer (xml_error_response 400 "MalformedXML" message req_id)
    | Ok lifecycle => ok_answer (write_bucket (st_put_bucket_lifecycle bucket lifecycle) bucket req req_id)
    end).

Definition put_request_payment (bucket : string) (req : Request) (req_id : string) : answer_of :=
  request_body_text req (fun body =>
    let payer := default "" (metadata_value (xml_events body) "Payer" false) in
    if negb (eqb payer "Requester") && negb (eqb payer "BucketOwner")
    then ok_answer (xml_error_response 400 "MalformedXML" "RequestPaymentConfiguration must contain a valid Payer value" req_id)
    else ok_answer (write_bucket (with_bucket_metadata bucket (insert S3_REQUEST_PAYMENT_KEY payer)) bucket req req_id)).

Definition put_metadata_document (bucket : string) (req : Request) (req_id metadata_key : string) : answer_of :=
  request_body_text req (fun body =>
    ok_answer (write_bucket (with_bucket_metadata bucket (insert metadata_key body)) bucket req req_id)).

Definition object_lock_bucket (bucket : string) : io S bool :=
  r ← attempt (st_get_bucket bucket);
  mret (match r with Ok b => eqb (b_metadata b !! S3_OBJECT_LOCK_ENABLED_KEY) (Some "true") | Err _ => false end).

Definition put_versioning (bucket : string) (req : Request) (req_id : string) : answer_of :=
  request_body_text req (fun body =>
    match parse_versioning_xml body with
    | Err message => ok_answer (xml_error_response 400 "MalformedXML" message req_id)
    | Ok enabled =>
        locked ← (if enabled then mret false else object_lock_bucket bucket);
        if (locked : bool)
        then ok_answer (xml_error_response 409 "InvalidBucketState" "Versioning cannot be suspended on an Object Lock enabled bucket." req_id)
        else
          conflict ← s3_foreign_history_conflict pages bucket;
          if (conflict : bool) then ok_answer (s3_foreign_history_conflict_response req_id)
          else
            ok_answer (write_bucket
              (set_bucket_versioning bucket enabled;;
               with_bucket_metadata bucket (insert S3_VERSIONING_STATUS_KEY (if enabled then "Enabled" else "Suspended")))
              bucket req req_id)
    end).

Definition put_acl (bucket : string) (req : Request) (req_id : string) : io S Response :=
  match (match rq_body req with
         | [] => map_err (fun m => ("InvalidArgument", m)) (acl_from_headers req)
         | _ :: _ => map_err (fun m => ("MalformedXML", m)) (acl_from_xml_body (rq_body req))
         end) with
  | Err (code, message) => xml_error_response 400 code message req_id
  | Ok acl => write_bucket (st_put_bucket_acl bucket acl) bucket req req_id
  end.

Definition put_policy (bucket : string) (req : Request) (req_id : string) : answer_of :=
  request_body_text req (fun body =>
    match dec policy_codec (as_bytes body) with
    | None => mret (Err ("Invalid JSON policy: " +:+ policy_error body))
    | Some policy => ok_answer (write_bucket (st_put_bucket_policy bucket policy) bucket req req_id)
    end).

Definition create_with_lock (bucket : string) (object_lock_enabled : bool) : io S unit :=
  st_create_bucket bucket;;
  if object_lock_enabled then
    set_bucket_versioning bucket true;;
    with_bucket_metadata bucket (fun m =>
      <[S3_VERSIONING_STATUS_KEY := "Enabled"]> (<[S3_OBJECT_LOCK_ENABLED_KEY := "true"]> m));;
    mret tt
  else mret tt.

Definition create_bucket_request (bucket : string) (req : Request) (req_id : string) : answer_of :=
  match (match header req "x-amz-bucket-object-lock-enabled" with
         | None => Some false
         | Some value => if Text.eq_ignore_ascii_case value "true" then Some true else None
         end) with
  | None => ok_answer (xml_error_response 400 "InvalidArgument" "x-amz-bucket-object-lock-enabled must be true when supplied." req_id)
  | Some object_lock_enabled =>
      r ← attempt (create_with_lock bucket object_lock_enabled);
      match r with
      | Err BucketAlreadyExists =>
          ok_answer (xml_error_response 409 "BucketAlreadyOwnedByYou" "Your previous request to create the named bucket succeeded and you already own it." req_id)
      | Err e => mret (Err (display e))
      | Ok _ =>
          ok_answer (b ← add_ids req_id (with_header "Location" ("/" +:+ bucket) (new_builder 200)); mret (empty b))
      end
  end.

Definition bucket_put (bucket : string) (req : Request) (req_id : string) : answer_of :=
  guarded (check_authorization req config bucket None (bucket_put_action req))
    (match validate_bucket_name bucket with
     | Err error => ok_answer (xml_error_response 400 "InvalidBucketName" error req_id)
     | Ok _ =>
         if has_query_param req "lifecycle" then put_lifecycle bucket req req_id
         else if has_query_param req "requestPayment" then put_request_payment bucket req req_id
         else if has_query_param req "website" then put_metadata_document bucket req req_id S3_WEBSITE_XML_KEY
         else if has_query_param req "cors" then put_metadata_document bucket req req_id S3_CORS_XML_KEY
         else if has_query_param req "versioning" then put_versioning bucket req req_id
         else if has_query_param req "object-lock"
         then ok_answer (xml_error_response 501 "NotImplemented" "PutObjectLockConfiguration is not supported by this emulator subset." req_id)
         else if has_query_param req "acl" then ok_answer (put_acl bucket req req_id)
         else if has_query_param req "policy" then put_policy bucket req req_id
         else create_bucket_request bucket req req_id
     end).
End Requests.
