(* ===== verification/BucketListings.v ===== *)
(** * BucketListings: requests that read a bucket

    [bucket_get_or_list_objects] of [src/server/handlers/bucket/get.rs], its
    documents in [src/utils/xml.rs], and the continuation tokens of
    [bucket/helpers.rs]. *)

From Stdlib Require Import Ascii Strings.Byte.
From stdpp Require Import pretty.
From stdpp Require Import pretty sorting.
From S2P Require Import Prelude Text Models Utf8 Validation Policy SkipMap Index FsModel Publication Lifecycle.
From S2P Require Import Storage Versions Listing Multipart LifecycleExecutor Http Cors Checksums ObjectHelpers.
From S2P Require Import Routing XmlDocuments ObjectHandlers ObjectWrites MultipartRequests Signatures.
From S2P Require Import Authorization ObjectRequests DeleteDocument LifecycleXml BucketRequests.

(** [urlencoding::encode], the URL-safe alphabet of base64 without padding, and
    the format [%Y-%m-%dT%H:%M:%S%.3fZ]. *)
Class ListingEnv : Type := {
  url_encode : string -> string;
  base64url_encode : bytes -> string;
  base64url_decode : string -> option bytes;
  format_millis : time -> string }.

Section Tokens.
Context `{PayloadDigests} `{ListingEnv}.

Definition NUL : ascii := "000".
Definition token_digest (marker : string) : string := hex_encode (sha256_digest (as_bytes ("sqrzl-list-v2:" +:+ marker))).

Definition encode_list_objects_v2_token (marker : string) : string :=
  base64url_encode (as_bytes (marker +:+ String NUL (token_digest marker))).

(** [str::rsplit_once] *)
Definition rsplit_once (c : ascii) (s : string) : option (string * string) :=
  (fun n => (Text.slice_to n s, Text.slice_from (n + 1) s)) <$> Utf8.rfind c s.

Definition decode_list_objects_v2_token (token : string) : option string :=
  decoded ← base64url_decode token;
  text ← Utf8.from_utf8 decoded;
  '(marker, supplied_digest) ← rsplit_once NUL text;
  if Text.is_empty marker then None
  else if eqb supplied_digest (token_digest marker) then Some marker else None.
End Tokens.

(** ** Documents *)

Section Documents.
Context `{HelperEnv} `{ListingEnv}.

Definition item (name text : string) : string := NL +:+ "  <" +:+ name +:+ ">" +:+ text +:+ "</" +:+ name +:+ ">".
Definition bool_text (b : bool) : string := if b then "true" else "false".
Definition open_result (name : string) : string := xml_declaration +:+ NL +:+ "<" +:+ name +:+ " xmlns=" +:+ S3_NAMESPACE +:+ ">".
Definition field (name text : string) : string := NL +:+ "    <" +:+ name +:+ ">" +:+ text +:+ "</" +:+ name +:+ ">".
Definition entry (name fields : string) : string := NL +:+ "  <" +:+ name +:+ ">" +:+ fields +:+ NL +:+ "  </" +:+ name +:+ ">".

Definition contents_xml (o : Object) : string :=
  entry "Contents"
    (field "Key" (escape_xml (o_key o)) +:+ field "LastModified" (to_rfc3339 (o_last_modified o)) +:+
     field "ETag" (quoted (escape_xml (o_etag o))) +:+ field "Size" (pretty (o_size o)) +:+ field "StorageClass" "STANDARD").

Definition list_objects_xml (objects : list Object) (common_prefixes : list string) (bucket prefix : string)
    (delimiter marker : option string) (max_keys : N) (truncated : bool) (next_marker : option string) : string :=
  open_result "ListBucketResult" +:+ item "Name" (escape_xml bucket) +:+ item "Prefix" (escape_xml prefix) +:+
  optional (fun d => item "Delimiter" (escape_xml d)) delimiter +:+
  optional (fun m => item "Marker" (escape_xml m)) marker +:+
  item "MaxKeys" (pretty max_keys) +:+ item "IsTruncated" (bool_text truncated) +:+
  all_lines contents_xml objects +:+
  all_lines (fun p => entry "CommonPrefixes" (field "Prefix" (escape_xml p))) common_prefixes +:+
  (if truncated then optional (fun m => item "NextMarker" (escape_xml m)) next_marker else "") +:+
  NL +:+ "</ListBucketResult>".

Definition url_encoding (encoding_type : option string) : bool :=
  is_some_and (fun e => Text.eq_ignore_ascii_case e "url") encoding_type.
Definition render_v2_value (value : string) (encoding_type : option string) : string :=
  escape_xml (if url_encoding encoding_type then url_encode value else value).

Inductive ListObjectsV2Entry : Type :=
| V2Object (o : Object)
| V2CommonPrefix (p : string).
Definition entry_token (e : ListObjectsV2Entry) : string := match e with V2Object o => o_key o | V2CommonPrefix p => p end.

Definition OWNER_XML : string := "<Owner><ID>sqrzl-emulator</ID><DisplayName>Sqrzl Emulator</DisplayName></Owner>" +:+ NL +:+ "    ".

Definition v2_entry_xml (encoding_type : option string) (fetch_owner : bool) (e : ListObjectsV2Entry) : string :=
  match e with
  | V2Object o =>
      entry "Contents"
        (field "Key" (render_v2_value (o_key o) encoding_type) +:+ field "LastModified" (to_rfc3339 (o_last_modified o)) +:+
         field "ETag" (quoted (escape_xml (o_etag o))) +:+ field "Size" (pretty (o_size o)) +:+ NL +:+ "    " +:+
         (if fetch_owner then OWNER_XML else "") +:+ "<StorageClass>" +:+ escape_xml (o_storage_class o) +:+ "</StorageClass>")
  | V2CommonPrefix p => entry "CommonPrefixes" (field "Prefix" (render_v2_value p encoding_type))
  end.

Definition list_objects_v2_xml (entries : list ListObjectsV2Entry) (bucket prefix : string) (delimiter : option string)
    (max_keys key_count : N) (truncated : bool) (token next_token start_after encoding_type : option string)
    (fetch_owner : bool) : string :=
  let render v := render_v2_value v encoding_type in
  open_result "ListBucketResult" +:+ item "Name" (escape_xml bucket) +:+ item "Prefix" (render prefix) +:+
  optional (fun d => item "Delimiter" (render d)) delimiter +:+
  optional (fun t => item "ContinuationToken" (render t)) token +:+
  optional (fun s => item "StartAfter" (render s)) start_after +:+
  item "MaxKeys" (pretty max_keys) +:+ item "KeyCount" (pretty key_count) +:+ item "IsTruncated" (bool_text truncated) +:+
  (if url_encoding encoding_type then item "EncodingType" "url" else "") +:+
  all_lines (v2_entry_xml encoding_type fetch_owner) entries +:+
  optional (fun t => item "NextContinuationToken" (render t)) next_token +:+ NL +:+ "</ListBucketResult>".

Definition VERSION_OWNER : string :=
  NL +:+ "    <Owner>" +:+ NL +:+ "      <ID>sqrzl-emulator</ID>" +:+ NL +:+
  "      <DisplayName>Sqrzl Emulator</DisplayName>" +:+ NL +:+ "    </Owner>".

Definition version_xml (o : Object) (is_latest : bool) : string :=
  let head := field "Key" (escape_xml (o_key o)) +:+ field "VersionId" (escape_xml (default "null" (o_version_id o))) +:+
              field "IsLatest" (bool_text is_latest) +:+
              field "LastModified" (format_millis (o_last_modified o)) in
  if eqb (o_provider_metadata o !! "s3_delete_marker") (Some "true") then entry "DeleteMarker" (head +:+ VERSION_OWNER)
  else
    entry "Version" (head +:+ field "ETag" (escape_xml (quoted (strip_quotes (o_etag o)))) +:+
                     field "Size" (pretty (o_size o)) +:+ VERSION_OWNER +:+
                     field "StorageClass" (escape_xml (o_storage_class o))).

(** Without the mark of the handler the first version of a key is the latest. *)
Fixpoint versions_xml (seen : list string) (versions : list Object) : string :=
  match versions with
  | [] => ""
  | o :: rest =>
      match o_provider_metadata o !! "s3_is_latest" with
      | Some value => version_xml o (eqb value "true") +:+ versions_xml seen rest
      | None => version_xml o (negb (existsb (eqb (o_key o)) seen)) +:+ versions_xml (o_key o :: seen) rest
      end
  end.

Definition list_versions_xml (bucket : string) (versions : list Object) (prefix : string)
    (key_marker version_id_marker : option string) (max_keys : N) (truncated : bool)
    (next_key_marker next_version_id_marker : option string) : string :=
  open_result "ListVersionsResult" +:+ item "Name" (escape_xml bucket) +:+ item "Prefix" (escape_xml prefix) +:+
  item "KeyMarker" (escape_xml (default "" key_marker)) +:+ item "VersionIdMarker" (escape_xml (default "" version_id_marker)) +:+
  item "MaxKeys" (pretty max_keys) +:+ item "IsTruncated" (bool_text truncated) +:+ versions_xml [] versions +:+
  (if truncated
   then optional (fun k => item "NextKeyMarker" (escape_xml k)) next_key_marker +:+
        optional (fun v => item "NextVersionIdMarker" (escape_xml v)) next_version_id_marker
   else "") +:+ "</ListVersionsResult>".

Record ListMultipartUploadsXml : Type := mkListUploads {
  lu_uploads : list MultipartUpload;
  lu_common_prefixes : list string;
  lu_bucket : string;
  lu_key_marker : option string;
  lu_upload_id_marker : option string;
  lu_next_key_marker : option string;
  lu_next_upload_id_marker : option string;
  lu_prefix : string;
  lu_delimiter : option string;
  lu_encoding_type : option string;
  lu_max_uploads : N;
  lu_is_truncated : bool }.

Definition upload_xml (encoding_type : option string) (u : MultipartUpload) : string :=
  entry "Upload"
    (field "Key" (render_v2_value (u_key u) encoding_type) +:+ field "UploadId" (escape_xml (u_upload_id u)) +:+
     field "Initiator" "<ID>sqrzl-emulator</ID><DisplayName>Sqrzl Emulator</DisplayName>" +:+
     field "Owner" "<ID>sqrzl-emulator</ID><DisplayName>Sqrzl Emulator</DisplayName>" +:+
     field "Initiated" (to_rfc3339 (u_initiated u)) +:+
     field "StorageClass" (escape_xml (default "STANDARD" (u_provider_metadata u !! "storage_class")))).

Definition list_multipart_uploads_xml (r : ListMultipartUploadsXml) : string :=
  let render v := render_v2_value v (lu_encoding_type r) in
  open_result "ListMultipartUploadsResult" +:+ item "Bucket" (escape_xml (lu_bucket r)) +:+
  item "KeyMarker" (render (default "" (lu_key_marker r))) +:+
  item "UploadIdMarker" (escape_xml (default "" (lu_upload_id_marker r))) +:+ item "Prefix" (render (lu_prefix r)) +:+
  optional (fun k => item "NextKeyMarker" (render k)) (lu_next_key_marker r) +:+
  optional (fun u => item "NextUploadIdMarker" (escape_xml u)) (lu_next_upload_id_marker r) +:+
  optional (fun d => item "Delimiter" (render d)) (lu_delimiter r) +:+
  (if url_encoding (lu_encoding_type r) then item "EncodingType" "url" else "") +:+
  item "MaxUploads" (pretty (lu_max_uploads r)) +:+ item "IsTruncated" (bool_text (lu_is_truncated r)) +:+
  all_lines (upload_xml (lu_encoding_type r)) (lu_uploads r) +:+
  all_lines (fun p => item "CommonPrefixes" ("<Prefix>" +:+ render p +:+ "</Prefix>")) (lu_common_prefixes r) +:+
  NL +:+ "</ListMultipartUploadsResult>".
End Documents.

(** ** Pages *)

(** [entries.truncate(max)], and whether anything is cut. *)
Definition cut {A} (max : N) (l : list A) : list A * bool := (take (N.to_nat max) l, Nat.ltb (N.to_nat max) (length l)).
Definition last_of {A} (l : list A) : option A := head (reverse l).

(** *** Multipart uploads *)

Inductive MultipartUploadListingEntry : Type :=
| ListedUpload (u : MultipartUpload)
| ListedPrefix (p : string).
Definition listed_key (e : MultipartUploadListingEntry) : string := match e with ListedUpload u => u_key u | ListedPrefix p => p end.
Definition listed_upload_id (e : MultipartUploadListingEntry) : option string :=
  match e with ListedUpload u => Some (u_upload_id u) | ListedPrefix _ => None end.

Definition listed_le (a b : MultipartUploadListingEntry) : Prop :=
  Text.lt (listed_key a) (listed_key b)
  \/ listed_key a = listed_key b /\ opt_le (listed_upload_id a) (listed_upload_id b).
#[export] Instance listed_le_dec : RelDecision listed_le.
Proof. intros a b. unfold listed_le. apply _. Defined.

(** A common prefix is listed once. *)
Fixpoint group_uploads (prefix : string) (delimiter : option string) (uploads : list MultipartUpload) (seen : list string)
    : list MultipartUploadListingEntry :=
  match uploads with
  | [] => []
  | u :: rest =>
      match (d ← delimiter; (fun i => Text.slice_to (String.length prefix + i + String.length d) (u_key u)) <$>
                              Text.find (Text.slice_from (String.length prefix) (u_key u)) d) with
      | None => ListedUpload u :: group_uploads prefix delimiter rest seen
      | Some common =>
          if existsb (eqb common) seen then group_uploads prefix delimiter rest seen
          else ListedPrefix common :: group_uploads prefix delimiter rest (common :: seen)
      end
  end.

Definition after_markers (key_marker upload_id_marker : option string) (e : MultipartUploadListingEntry) : bool :=
  match key_marker with
  | None => true
  | Some marker =>
      if Text.ltb marker (listed_key e) then true
      else if eqb (listed_key e) marker then
        is_some_and (fun id => is_some_and (fun entry_id => Text.ltb id entry_id) (listed_upload_id e)) upload_id_marker
      else false
  end.

Definition uploads_page (uploads : list MultipartUpload) (prefix : string) (delimiter key_marker upload_id_marker : option string)
    (max_uploads : N) : list MultipartUploadListingEntry * bool :=
  let matching := filter (fun u => Text.starts_with (u_key u) prefix = true) uploads in
  let entries := merge_sort listed_le (group_uploads prefix delimiter matching []) in
  cut max_uploads (filter (fun e => after_markers key_marker upload_id_marker e = true) entries).

(** *** Versions *)

Definition newest_first (a b : Object) : Prop :=
  Text.lt (o_key a) (o_key b)
  \/ o_key a = o_key b /\
     ((o_last_modified b < o_last_modified a)%Z \/ o_last_modified a = o_last_modified b /\ opt_le (o_version_id a) (o_version_id b)).
#[export] Instance newest_first_dec : RelDecision newest_first.
Proof. intros a b. unfold newest_first. apply _. Defined.

Fixpoint mark_latest (latest_key : option string) (versions : list Object) : list Object :=
  match versions with
  | [] => []
  | v :: rest =>
      let is_latest := negb (eqb latest_key (Some (o_key v))) in
      with_provider (insert "s3_is_latest" (bool_text is_latest)) v :: mark_latest (Some (o_key v)) rest
  end.

(** [partition_point] on a list sorted by key *)
Fixpoint keys_to (key : string) (versions : list Object) : nat :=
  match versions with
  | v :: rest => if Text.leb (o_key v) key then Datatypes.S (keys_to key rest) else 0
  | [] => 0
  end.

Fixpoint version_position (key version : string) (versions : list Object) : option nat :=
  match versions with
  | [] => None
  | v :: rest =>
      if eqb (o_key v) key && eqb (o_version_id v) (Some version) then Some 0
      else Datatypes.S <$> version_position key version rest
  end.

(** [None]: a version marker without a key marker. *)
Definition version_start (key_marker version_id_marker : option string) (versions : list Object) : option nat :=
  match key_marker, version_id_marker with
  | None, Some _ => None
  | Some key, Some version =>
      Some (match version_position key version versions with Some i => i + 1 | None => keys_to key versions end)
  | Some key, None => Some (keys_to key versions)
  | None, None => Some 0
  end.

Definition ordered_versions (versions : list Object) : list Object := mark_latest None (merge_sort newest_first versions).

Definition versions_page (versions : list Object) (key_marker version_id_marker : option string) (max_keys : N)
    : option (list Object * bool) :=
  let versions := ordered_versions versions in
  (fun start => cut max_keys (drop start versions)) <$> version_start key_marker version_id_marker versions.

(** ** Requests *)

Section Requests.
Context `{HttpLib} `{HelperEnv} `{Chrono} `{PayloadDigests} `{Digests} `{QuickXml} `{RawXml} `{Env} `{HashOrder} `{StoreEnv}.
Context `{SigningEnv} `{PolicyEnv} `{PolicyErrors} `{ListingEnv}.
Context {S : Type} `{S3Storage S} `{S3Uploads S} `{AccessStore S} `{BucketOps S}.
Variables (pages : nat) (config : AuthConfig).

Definition no_such_bucket_response (req_id : string) : io S Response :=
  xml_error_response 404 "NoSuchBucket" "Bucket not found" req_id.

Definition bucket_not_found_or_internal_error (e : Error) (req_id : string) : io S Response :=
  match e with
  | BucketNotFound => no_such_bucket_response req_id
  | e => internal_error_response e req_id
  end.

Definition bucket_body_response (bucket : string) (req : Request) (req_id : string) (status : N) (content_type : string)
    (body : bytes) : io S Response :=
  b ← add_ids req_id (with_content_type content_type (new_builder status));
  b ← with_cors bucket req b;
  mret (build (with_body body b)).

Definition bucket_xml_response (bucket : string) (req : Request) (req_id : string) (status : N) (xml : string) : io S Response :=
  bucket_body_response bucket req req_id status "application/xml; charset=utf-8" (as_bytes xml).

Definition bucket_get_action (req : Request) : string :=
  if has_query_param req "requestPayment" then "s3:GetBucketRequestPayment"
  else if has_query_param req "website" then "s3:GetBucketWebsite"
  else if has_query_param req "cors" then "s3:GetBucketCors"
  else if has_query_param req "lifecycle" then "s3:GetLifecycleConfiguration"
  else if has_query_param req "policy" then "s3:GetBucketPolicy"
  else if has_query_param req "acl" then "s3:GetBucketAcl"
  else if has_query_param req "versioning" then "s3:GetBucketVersioning"
  else if has_query_param req "object-lock" then "s3:GetBucketObjectLockConfiguration"
  else if has_query_param req "uploads" then "s3:ListBucketMultipartUploads"
  else if has_query_param req "versions" then "s3:ListBucketVersions"
  else "s3:ListBucket".

(** *** Sub-resources *)

Definition of_bucket (bucket req_id : string) (k : Bucket -> io S Response) : io S Response :=
  r ← attempt (st_get_bucket bucket);
  match r with
  | Ok b => k b
  | Err e => bucket_not_found_or_internal_error e req_id
  end.

Definition get_object_lock_configuration (bucket : string) (req : Request) (req_id : string) : io S Response :=
  r ← attempt (st_get_bucket bucket);
  match r with
  | Err e => storage_error_response e req_id
  | Ok b =>
      if eqb (b_metadata b !! S3_OBJECT_LOCK_ENABLED_KEY) (Some "true")
      then bucket_xml_response bucket req req_id 200
             (xml_declaration +:+ NL +:+ "<ObjectLockConfiguration xmlns=" +:+ S3_NAMESPACE +:+
              "><ObjectLockEnabled>Enabled</ObjectLockEnabled></ObjectLockConfiguration>")
      else xml_error_response 404 "ObjectLockConfigurationNotFoundError" "Object Lock configuration does not exist for this bucket." req_id
  end.

Definition get_request_payment (bucket : string) (req : Request) (req_id : string) : io S Response :=
  of_bucket bucket req_id (fun b =>
    bucket_xml_response bucket req req_id 200
      (xml_declaration +:+ NL +:+ "<RequestPaymentConfiguration xmlns=" +:+ S3_NAMESPACE +:+ ">" +:+ NL +:+
       "  <Payer>" +:+ default "BucketOwner" (b_metadata b !! S3_REQUEST_PAYMENT_KEY) +:+ "</Payer>" +:+ NL +:+
       "</RequestPaymentConfiguration>")).

Definition get_bucket_metadata_xml (bucket : string) (req : Request) (req_id metadata_key missing_code missing_message : string)
    : io S Response :=
  of_bucket bucket req_id (fun b =>
    match b_metadata b !! metadata_key with
    | Some xml => bucket_xml_response bucket req req_id 200 xml
    | None => xml_error_response 404 missing_code missing_message req_id
    end).

(** A document of the bucket that may be absent. *)
Definition of_document {A} (call : io S A) (missing_code missing_message req_id : string) (k : A -> io S Response) : io S Response :=
  r ← attempt call;
  match r with
  | Ok a => k a
  | Err KeyNotFound => xml_error_response 404 missing_code missing_message req_id
  | Err e => bucket_not_found_or_internal_error e req_id
  end.

Definition get_lifecycle (bucket : string) (req : Request) (req_id : string) : io S Response :=
  of_document (st_get_bucket_lifecycle bucket) "NoSuchLifecycleConfiguration" "No lifecycle configuration present" req_id
    (fun lifecycle => bucket_xml_response bucket req req_id 200 (lifecycle_xml lifecycle)).

Definition get_policy (bucket : string) (req : Request) (req_id : string) : io S Response :=
  of_document (st_get_bucket_policy bucket) "NoSuchBucketPolicy" "The bucket policy does not exist" req_id
    (fun policy => bucket_body_response bucket req req_id 200 "application/json; charset=utf-8" (enc policy_codec policy)).

Definition get_acl (bucket : string) (req : Request) (req_id : string) : io S Response :=
  r ← attempt (st_get_bucket_acl bucket);
  match r with
  | Ok acl => bucket_xml_response bucket req req_id 200 (acl_xml "sqrzl-emulator" "S3 Emulator" acl)
  | Err e => bucket_not_found_or_internal_error e req_id
  end.

Definition get_versioning (bucket : string) (req : Request) (req_id : string) : io S Response :=
  of_bucket bucket req_id (fun b =>
    let status := match b_metadata b !! S3_VERSIONING_STATUS_KEY with
                  | Some status => if eqb status "Enabled" || eqb status "Suspended" then Some status else None
                  | None => None
                  end in
    bucket_xml_response bucket req req_id 200 (versioning_status_xml status)).

(** *** Listings *)

(** [query_param(name).filter(|value| !value.is_empty())] *)
Definition nonempty_param (req : Request) (name : string) : option string :=
  value ← query_param req name; if Text.is_empty value then None else Some value.

Definition limit_param (req : Request) (name : string) : option N :=
  match query_param req name with
  | Some raw => (fun n => N.min n 1000) <$> parse_u32 raw
  | None => Some 1000%N
  end.

Definition max_keys_or_error (req : Request) (req_id : string) (k : N -> io S Response) : io S Response :=
  match limit_param req "max-keys" with
  | Some max_keys => k max_keys
  | None => xml_error_response 400 "InvalidArgument" "max-keys must be a non-negative integer." req_id
  end.

Definition split_entries (entries : list MultipartUploadListingEntry) : list MultipartUpload * list string :=
  (omap (fun e => match e with ListedUpload u => Some u | ListedPrefix _ => None end) entries,
   omap (fun e => match e with ListedPrefix p => Some p | ListedUpload _ => None end) entries).

Definition list_multipart_uploads_request (bucket : string) (req : Request) (req_id : string) : io S Response :=
  let prefix := default "" (query_param req "prefix") in
  let delimiter := nonempty_param req "delimiter" in
  let key_marker := nonempty_param req "key-marker" in
  let upload_id_marker := nonempty_param req "upload-id-marker" in
  let encoding_type := query_param req "encoding-type" in
  if is_some upload_id_marker && is_none key_marker
  then xml_error_response 400 "InvalidArgument" "upload-id-marker requires key-marker." req_id
  else
    match limit_param req "max-uploads" with
    | None => xml_error_response 400 "InvalidArgument" "max-uploads must be a non-negative integer." req_id
    | Some max_uploads =>
        if is_some_and (fun e => negb (Text.eq_ignore_ascii_case e "url")) encoding_type
        then xml_error_response 400 "InvalidArgument" "encoding-type must be url when provided." req_id
        else
          r ← attempt (st_list_multipart_uploads bucket);
          match r with
          | Err NoSuchUpload => xml_error_response 404 "NoSuchUpload" "Upload not found" req_id
          | Err e => bucket_not_found_or_internal_error e req_id
          | Ok uploads =>
              let '(entries, is_truncated) := uploads_page uploads prefix delimiter key_marker upload_id_marker max_uploads in
              let last_entry := if is_truncated then last_of entries else None in
              let '(page, common_prefixes) := split_entries entries in
              bucket_xml_response bucket req req_id 200
                (list_multipart_uploads_xml (mkListUploads page common_prefixes bucket key_marker upload_id_marker
                   (listed_key <$> last_entry) (last_entry ≫= listed_upload_id) prefix delimiter encoding_type max_uploads
                   is_truncated))
          end
    end.

Definition list_object_versions_request (bucket : string) (req : Request) (req_id : string) : io S Response :=
  unless_answered (foreign_conflict pages bucket req_id)
    (let prefix := query_param req "prefix" in
     let key_marker := query_param req "key-marker" in
     let version_id_marker := query_param req "version-id-marker" in
     max_keys_or_error req req_id (fun max_keys =>
       r ← attempt (st_list_object_versions bucket prefix);
       match r with
       | Err e => bucket_not_found_or_internal_error e req_id
       | Ok versions =>
           match versions_page versions key_marker version_id_marker max_keys with
           | None => xml_error_response 400 "InvalidArgument" "A version-id-marker cannot be specified without a key-marker." req_id
           | Some (page, truncated) =>
               let last_version := if truncated then last_of page else None in
               bucket_xml_response bucket req req_id 200
                 (list_versions_xml bucket page (default "" prefix) key_marker version_id_marker max_keys truncated
                    (o_key <$> last_version) (last_version ≫= o_version_id))
           end
       end)).

Definition token_le (a b : ListObjectsV2Entry) : Prop := String.le (entry_token a) (entry_token b).
#[local] Instance token_le_dec : RelDecision token_le.
Proof. intros a b. unfold token_le. apply _. Defined.

Definition v2_entries (r : ListObjectsResult) : list ListObjectsV2Entry :=
  merge_sort token_le ((V2Object <$> l_objects r) ++ (V2CommonPrefix <$> l_common_prefixes r)).

Definition list_objects_v2_from (bucket : string) (req : Request) (req_id : string) (token marker : option string) : io S Response :=
  let prefix := default "" (query_param req "prefix") in
  let delimiter := nonempty_param req "delimiter" in
  let start_after := nonempty_param req "start-after" in
  let encoding_type := query_param req "encoding-type" in
  let fetch_owner := is_some_and (fun v => Text.is_empty v || Text.eq_ignore_ascii_case v "true") (query_param req "fetch-owner") in
  max_keys_or_error req req_id (fun max_keys =>
    r ← attempt (st_list_objects bucket (Some prefix) delimiter
                   (match marker with Some m => Some m | None => start_after end) (Some max_keys));
    match r with
    | Err e => bucket_not_found_or_internal_error e req_id
    | Ok result =>
        let entries := v2_entries result in
        let next_token := if l_is_truncated result then encode_list_objects_v2_token <$> l_next_marker result else None in
        bucket_xml_response bucket req req_id 200
          (list_objects_v2_xml entries bucket prefix delimiter max_keys (N.of_nat (length entries)) (l_is_truncated result) token
             next_token start_after encoding_type fetch_owner)
    end).

Definition list_objects_v2 (bucket : string) (req : Request) (req_id : string) : io S Response :=
  match nonempty_param req "continuation-token" with
  | None => list_objects_v2_from bucket req req_id None None
  | Some token =>
      match decode_list_objects_v2_token token with
      | None => xml_error_response 400 "InvalidArgument" "The continuation token provided is incorrect." req_id
      | Some marker => list_objects_v2_from bucket req req_id (Some token) (Some marker)
      end
  end.

(** [retain]: an object that is expired is deleted and not listed. *)
Fixpoint retain_live (bucket : string) (objects : list Object) : io S (list Object) :=
  match objects with
  | [] => mret []
  | o :: rest =>
      expired ← object_expired bucket (o_key o);
      live ← retain_live bucket rest;
      mret (if (expired : bool) then live else o :: live)
  end.

Definition list_objects_v1 (bucket : string) (req : Request) (req_id : string) : io S Response :=
  let prefix := query_param req "prefix" in
  let delimiter := query_param req "delimiter" in
  let marker := query_param req "marker" in
  max_keys_or_error req req_id (fun max_keys =>
    r ← attempt (st_list_objects bucket prefix delimiter marker (Some max_keys));
    match r with
    | Err e => bucket_not_found_or_internal_error e req_id
    | Ok result =>
        objects ← retain_live bucket (l_objects result);
        bucket_xml_response bucket req req_id 200
          (list_objects_xml objects (l_common_prefixes result) bucket (default "" prefix) delimiter marker (N.of_nat (length objects))
             (l_is_truncated result) (l_next_marker result))
    end).

Definition bucket_subresource_response (bucket : string) (req : Request) (req_id : string) : option (io S Response) :=
  if has_query_param req "requestPayment" then Some (get_request_payment bucket req req_id)
  else if has_query_param req "website" then
    Some (get_bucket_metadata_xml bucket req req_id S3_WEBSITE_XML_KEY "NoSuchWebsiteConfiguration"
            "The specified bucket does not have a website configuration")
  else if has_query_param req "cors" then
    Some (get_bucket_metadata_xml bucket req req_id S3_CORS_XML_KEY "NoSuchCORSConfiguration"
            "The CORS configuration does not exist")
  else if has_query_param req "lifecycle" then Some (get_lifecycle bucket req req_id)
  else if has_query_param req "policy" then Some (get_policy bucket req req_id)
  else if has_query_param req "acl" then Some (get_acl bucket req req_id)
  else if has_query_param req "versioning" then Some (get_versioning bucket req req_id)
  else if has_query_param req "object-lock" then Some (get_object_lock_configuration bucket req req_id)
  else if has_query_param req "uploads" then Some (list_multipart_uploads_request bucket req req_id)
  else if has_query_param req "versions" then Some (list_object_versions_request bucket req req_id)
  else None.

Definition bucket_get_or_list_objects (bucket : string) (req : Request) (req_id : string) : io S Response :=
  if is_preflight req then preflight_response st_get_bucket bucket req req_id
  else
    unless_denied (check_authorization req config bucket None (bucket_get_action req))
      (match bucket_subresource_response bucket req req_id with
       | Some response => response
       | None =>
           if eqb (query_param req "list-type") (Some "2") then list_objects_v2 bucket req req_id
           else list_objects_v1 bucket req req_id
       end).

(** ** The front door *)

Definition handle_request (req : Request) : io S (result string Response) :=
  let route := route_from_parts (rq_method req) (rq_path req) (header req "host") in
  req_id ← generate_request_id;
  match route with
  | ListBuckets => list_buckets_request config req req_id
  | BucketGet bucket => ok_answer (bucket_get_or_list_objects bucket req req_id)
  | BucketPut bucket => bucket_put pages config bucket req req_id
  | BucketDelete bucket => ok_answer (bucket_delete pages config bucket req req_id)
  | BucketHead bucket => ok_answer (bucket_head config bucket req req_id)
  | BucketPost bucket => bucket_post pages config bucket req req_id
  | ObjectGet bucket key => ok_answer (object_get pages config bucket key req req_id)
  | ObjectPut bucket key => object_put pages config bucket key req req_id
  | ObjectDelete bucket key => ok_answer (object_delete pages config bucket key req req_id)
  | ObjectHead bucket key => ok_answer (object_head pages config bucket key req req_id)
  | ObjectPost bucket key => ok_answer (object_post pages config bucket key req req_id)
  | InvalidObjectPath => ok_answer (xml_error_response 400 "InvalidURI" "Couldn't parse the specified URI." req_id)
  | NotFound => ok_answer (xml_error_response 404 "NotFound" "Not Found" req_id)
  end.
End Requests.

(** * Following the markers of a version listing

    A client that asks for the versions of a bucket page by page, with the
    markers of the page before, sees every version once and in order. *)

(** What a client collects: the next request carries the markers of the last
    version of a truncated page. *)
Fixpoint version_walk (fuel : nat) (versions : list Object) (key_marker version_id_marker : option string) (max_keys : N)
    : list Object :=
  match fuel with
  | 0 => []
  | S fuel' =>
      match versions_page versions key_marker version_id_marker max_keys with
      | None => []
      | Some (page, truncated) =>
          page ++ (if truncated
                   then version_walk fuel' versions (o_key <$> last_of page) (last_of page ≫= o_version_id) max_keys
                   else [])
      end
  end.

(** The name of a version. *)
Definition version_name (o : Object) : string * option string := (o_key o, o_version_id o).

Lemma mark_latest_names latest versions : version_name <$> mark_latest latest versions = version_name <$> versions.
Proof. revert latest. induction versions as [|v versions IH]; intros latest; [done|]. cbn. by rewrite IH. Qed.

Lemma ordered_names versions : version_name <$> ordered_versions versions ≡ₚ version_name <$> versions.
Proof. unfold ordered_versions. by rewrite mark_latest_names, merge_sort_Permutation. Qed.

Lemma version_position_spec l i o version :
  NoDup (version_name <$> l) -> l !! i = Some o -> o_version_id o = Some version ->
  version_position (o_key o) version l = Some i.
Proof.
  revert i. induction l as [|v l IH]; intros i Hn Hi Hv; [done|]. cbn [fmap list_fmap] in Hn. inversion_clear Hn as [|? ? Hnotin Hn'].
  cbn [version_position]. destruct i as [|i].
  - injection Hi as ->. by rewrite Hv, !eqb_refl.
  - cbn in Hi. rewrite (IH i Hn' Hi Hv). destruct (_ && _) eqn:E; [|done]. exfalso.
    apply andb_true_iff in E as [Ek Ev]. rewrite eqb_true in Ek. rewrite eqb_true in Ev. apply Hnotin.
    assert (version_name v = version_name o) as -> by (unfold version_name; congruence).
    apply list_elem_of_fmap_2. by eapply list_elem_of_lookup_2.
Qed.

Lemma last_of_take {A} (l : list A) n : 0 < n <= length l -> last_of (take n l) = l !! (n - 1).
Proof.
  intros Hn. unfold last_of. rewrite head_reverse, last_lookup, length_take.
  rewrite lookup_take_lt by lia. f_equal. lia.
Qed.

Section Walk.
Variables (versions : list Object) (max_keys : N).
Hypothesis distinct : NoDup (version_name <$> versions).
Hypothesis versioned : Forall (fun o => is_Some (o_version_id o)) versions.
Hypothesis positive : (0 < max_keys)%N.
Abbreviation L := (ordered_versions versions).

Lemma ordered_distinct : NoDup (version_name <$> L).
Proof. by rewrite ordered_names. Qed.

Lemma ordered_versioned i o : L !! i = Some o -> is_Some (o_version_id o).
Proof.
  intros Hi. assert (version_name o ∈ version_name <$> versions) as Hin.
  { rewrite <- ordered_names. apply list_elem_of_fmap_2. by eapply list_elem_of_lookup_2. }
  apply list_elem_of_fmap_1 in Hin as (o' & Heq & Hin). rewrite Forall_forall in versioned.
  injection Heq as _ ->. apply versioned. by apply list_elem_of_In.
Qed.

(** A request that starts at a position. *)
Lemma walk_from fuel key_marker version_id_marker n :
  length L - n < fuel -> n <= length L -> version_start key_marker version_id_marker L = Some n ->
  version_walk fuel versions key_marker version_id_marker max_keys = drop n L.
Proof.
  revert key_marker version_id_marker n. induction fuel as [|fuel IH]; intros km vm n Hf Hn Hs; [lia|].
  cbn [version_walk]. unfold versions_page. rewrite Hs. cbn [fmap option_fmap option_map]. unfold cut.
  set (m := N.to_nat max_keys). destruct (Nat.ltb_spec m (length (drop n L))) as [Hlt|Hge].
  - rewrite length_drop in Hlt. assert (0 < m) as Hm by (unfold m; lia).
    rewrite last_of_take by (rewrite length_drop; lia). rewrite lookup_drop.
    destruct (lookup_lt_is_Some_2 L (n + (m - 1))) as [o Ho]; [lia|]. rewrite Ho. cbn [fmap option_fmap option_map mbind option_bind].
    destruct (ordered_versioned _ _ Ho) as [version Hv]. rewrite Hv, (IH (Some (o_key o)) (Some version) (n + m)); [|lia|lia|].
    + rewrite <- drop_drop. apply take_drop.
    + unfold version_start. rewrite (version_position_spec L (n + (m - 1)) o version ordered_distinct Ho Hv). f_equal. lia.
  - rewrite app_nil_r. by apply take_ge.
Qed.
End Walk.

(** C33 [version_pages_complete]. Following the key and version markers of
    version pages of any positive size yields every version exactly once and
    in the order of the listing, in at most one more request than there are
    versions. *)
Theorem version_pages_complete versions max_keys fuel :
  NoDup (version_name <$> versions) -> Forall (fun o => is_Some (o_version_id o)) versions -> (0 < max_keys)%N ->
  length versions < fuel -> version_walk fuel versions None None max_keys = ordered_versions versions.
Proof.
  intros Hd Hv Hp Hf. rewrite (walk_from versions max_keys Hd Hv Hp fuel None None 0); [done| |lia|done].
  pose proof (Permutation_length (ordered_names versions)) as Hl. rewrite !length_fmap in Hl. lia.
Qed.
