(* ===== verification/Azure.v ===== *)
(** * Azure: the Azure Blob front door, [src/providers/azure.rs]

    Resources, conditions, leases, immutability and the operations on one blob
    that need no state of the adapter.  A refusal is its status, code and message;
    an [Err] of a handler is the failure of the operation.  The locks of the
    adapter serialize requests; the model runs one at a time. *)

From Stdlib Require Import Ascii Strings.Byte.
From stdpp Require Import pretty.
From S2P Require Import Prelude Text Models Utf8 Validation SkipMap Index FsModel Publication Lifecycle.
From S2P Require Import Storage Versions Listing LifecycleExecutor Http Checksums ObjectHelpers Routing.
From S2P Require Import Cors ObjectHandlers Signatures.

(** [Uuid::simple], URL-safe base64 without padding, the format
    [%Y-%m-%dT%H:%M:%S%.6fZ], [u64::to_le_bytes], [NaiveDate::parse_from_str] and
    [str::to_lowercase]. *)
Class AzureEnv : Type := {
  simple_uuid : N -> string;
  base64_url_no_pad : bytes -> string;
  format_micros : time -> string;
  le_bytes : nat -> N -> bytes;
  valid_date : string -> bool;
  lowercase : string -> string }.

(** ** The store of the adapter *)

Class AzureStore (S : Type) : Type := {
  az_base :: S3Storage S;
  st_replace_object_metadata_if_unchanged : string -> string -> Object -> Object -> io S bool }.

#[export] Instance filesystem_azure {M} `{SkipMap M} `{Env} `{StoreEnv} `{Digests} : AzureStore (World M) := {|
  az_base := filesystem_s3;
  st_replace_object_metadata_if_unchanged := replace_object_metadata_if_unchanged |}.

(** ** Constants *)

Definition AZURE_VERSION : string := "2023-11-03".
Definition AZURE_SUPPORTED_VERSIONS : list string :=
  ["2023-11-03"; "2024-11-04"; "2025-01-05"; "2026-04-06"; "2026-06-06"; "2026-10-06"].
Definition AZURE_CONTENT_PROPERTIES : list (string * string) :=
  [("cache-control", "azure_cache_control"); ("content-encoding", "azure_content_encoding");
   ("content-language", "azure_content_language"); ("content-disposition", "azure_content_disposition")].
Definition AZURE_MAX_MATERIALIZED_MUTATION_BYTES : N := 64 * 1024 * 1024.
Definition AZURE_NATIVE_MAX_PAGE_BLOB_BYTES : N := 8 * 1024 * 1024 * 1024 * 1024.
Definition AZURE_BLOB_TYPE_KEY : string := "azure_blob_type".
Definition AZURE_LEASE_ID_KEY : string := "azure_lease_id".
Definition AZURE_LEASE_STATE_KEY : string := "azure_lease_state".
Definition AZURE_LEASE_DURATION_KEY : string := "azure_lease_duration".
Definition AZURE_SNAPSHOT_TIME_KEY : string := "azure_snapshot_time".
Definition AZURE_SNAPSHOT_SOURCE_KEY : string := "azure_snapshot_source".
Definition AZURE_SNAPSHOT_PREFIX : string := "__sqrzl_azure_snapshot__".
Definition AZURE_VERSIONING_KEY : string := "azure_versioning_enabled".
Definition AZURE_SOFT_DELETE_DAYS_KEY : string := "azure_soft_delete_days".
Definition S3_VERSIONING_STATUS_KEY : string := "s3_versioning_status".
Definition S3_OBJECT_LOCK_ENABLED_KEY : string := "s3_object_lock_enabled".
Definition GCS_SOFT_DELETE_SECONDS_KEY : string := "gcs_soft_delete_seconds".
Definition GCS_RETENTION_SECONDS_KEY : string := "gcs_retention_seconds".

Section Azure.
Context `{HttpLib} `{HelperEnv} `{Chrono} `{PayloadDigests} `{AzureEnv} `{Env}.

(** ** Requests *)

Record AzureResource : Type := mkResource {
  ar_account : string;
  ar_container : option string;
  ar_blob : option string }.

Definition decode_path_value (value resource : string) : result string string :=
  map_err (fun e => "Azure " +:+ resource +:+ " path is invalid: " +:+ e) (decode_uri_path value).

(** [split_once], or the whole text and no rest *)
Definition cut (c : ascii) (s : string) : string * option string :=
  match Text.split_once c s with
  | Some (a, rest) => (a, Some rest)
  | None => (s, None)
  end.

Definition parse_resource (req : Request) : result string AzureResource :=
  let path := default (rq_path req) (Text.strip_prefix (rq_path req) "/") in
  if Text.is_empty path then Err "Azure requests must include an account segment"
  else
    let '(account, remainder) := cut "/" path in
    if Text.is_empty account then Err "Azure requests must include an account segment"
    else
      match remainder with
      | None | Some EmptyString => Ok (mkResource account None None)
      | Some rest =>
          let '(raw_container, raw_blob) := cut "/" rest in
          if Text.is_empty raw_container then Err "Azure requests must include a container segment"
          else
            container ← decode_path_value raw_container "container";
            match raw_blob with
            | None | Some EmptyString => Ok (mkResource account (Some container) None)
            | Some blob => b ← decode_path_value blob "blob"; Ok (mkResource account (Some container) (Some b))
            end
      end.

Definition put_operation_requires_content_length (req : Request) : bool :=
  if negb (eqb (rq_method req) "PUT") || has_query_param req "restype" then false
  else if negb (match parse_resource req with Ok r => is_some (ar_container r) && is_some (ar_blob r) | Err _ => false end)
          || is_some (header req "x-ms-copy-source") then false
  else match query_param req "comp" with
       | None => true
       | Some comp => existsb (eqb comp) ["block"; "blocklist"; "metadata"; "appendblock"; "page"; "lease"; "snapshot";
                                          "legalhold"; "immutabilityPolicies"]
       end.

Definition parse_range_header (value : string) (size : N) : option (N * N) :=
  range ← Text.strip_prefix value "bytes=";
  '(a, b) ← Text.split_once "-" range;
  start ← Text.parse_u64 a;
  if (size <=? start)%N then None
  else
    stop ← (if Text.is_empty b then Some (size - 1)%N else n ← Text.parse_u64 b; Some (N.min n (size - 1)));
    if (stop <? start)%N then None else Some (start, stop).

Definition parse_write_range_header (value : string) : option (N * N) :=
  range ← Text.strip_prefix value "bytes=";
  '(a, b) ← Text.split_once "-" range;
  start ← Text.parse_u64 a;
  stop ← Text.parse_u64 b;
  if (stop <? start)%N then None else Some (start, stop).

Definition requested_range (req : Request) : option string :=
  match header req "x-ms-range" with Some r => Some r | None => header req "range" end.

(** [headers.get_all(name)] *)
Definition header_values (req : Request) (name : string) : list string :=
  snd <$> filter (fun e => e.1 = name) (hm_entries (rq_headers req)).

Definition metadata_from_headers (req : Request) : strmap :=
  foldl (fun metadata e =>
    match Text.strip_prefix e.1 "x-ms-meta-" with
    | Some key => <[key := e.2]> metadata
    | None => metadata
    end) ∅ (request_headers req).

Definition content_type (req : Request) : string :=
  default "application/octet-stream"
    (match header req "x-ms-blob-content-type" with Some t => Some t | None => header req "content-type" end).

Definition set_content_properties (req : Request) (o : Object) : Object :=
  with_provider (fun m => foldl (fun m p =>
    match (match header req ("x-ms-blob-" +:+ p.1) with Some v => Some v | None => header req p.1 end) with
    | Some value => <[p.2 := value]> m
    | None => m
    end) m AZURE_CONTENT_PROPERTIES) o.

Definition service_version (req : Request) : result refusal_of string :=
  let version := default AZURE_VERSION
    (if has_query_param req "sig"
     then match query_param req "api-version" with Some v => Some v | None => query_param req "sv" end
     else header req "x-ms-version") in
  if existsb (eqb version) AZURE_SUPPORTED_VERSIONS then Ok version
  else
    let dated := N.eqb (Text.len version) 10 && valid_date version in
    Err (if dated then 501%N else 400%N, if dated then "FeatureNotSupported" else "InvalidHeaderValue",
         "This emulator accepts Azure service versions 2023-11-03, 2024-11-04, 2025-01-05, 2026-04-06, 2026-06-06 and 2026-10-06.").

(** ** Responses *)

Section Answers.
Context {S : Type}.

Definition azure_response (status : N) : io S ResponseBuilder :=
  request_id ← new_uuid;
  t ← now;
  mret (with_header "date" (http_date t) (with_header "x-ms-request-id" request_id (with_header "x-ms-version" AZURE_VERSION (new_builder status)))).

Definition empty_response (status : N) : io S Response := b ← azure_response status; mret (empty b).

Definition error_document (code message : string) : string :=
  "<?xml version=" +:+ quoted "1.0" +:+ " encoding=" +:+ quoted "utf-8" +:+ "?><Error><Code>" +:+ escape_xml code +:+
  "</Code><Message>" +:+ escape_xml message +:+ "</Message></Error>".

(** [error_response] *)
Definition decline (r : refusal_of) : io S Response :=
  let '(status, code, message) := r in
  b ← azure_response status;
  mret (build (with_body (as_bytes (error_document code message)) (with_header "x-ms-error-code" code (with_content_type "application/xml" b)))).

(** [if let Some/Err(response) = check { return Ok(response) }] *)
Definition unless (r : option refusal_of) (continue : io S Response) : io S Response :=
  match r with Some r => decline r | None => continue end.

Definition crc64_header_value (req : Request) : string := base64_encode (le_bytes 8 (payload_crc64_nvme req)).

Definition upload_checksum_response (req : Request) (block_blob : bool) (b : ResponseBuilder) : ResponseBuilder :=
  let has_md5 := is_some (header req "content-md5") in
  let b := if block_blob || has_md5 then with_header "content-md5" (base64_encode (payload_md5 req)) b else b in
  let new_block_version := eqb (query_param req "comp") (Some "block") &&
    match service_version req with Ok v => Text.leb "2026-10-06" v | Err _ => false end in
  if block_blob || negb has_md5 || new_block_version
  then with_header "x-ms-content-crc64" (crc64_header_value req) b else b.

Definition with_identity (o : Object) (b : ResponseBuilder) : ResponseBuilder :=
  with_header "last-modified" (http_date (o_last_modified o)) (with_header "etag" (quoted (o_etag o)) b).
End Answers.

(** ** The modes of a container *)

Definition azure_versioning_configured (b : Bucket) : bool := eqb (b_metadata b !! AZURE_VERSIONING_KEY) (Some "true").
Definition azure_versioning_enabled (b : Bucket) : bool := azure_versioning_configured b && b_versioning_enabled b.
Definition positive (value : option string) : bool :=
  is_some_and (fun n => (0 <? n)%N) (v ← value; Text.parse_u64 v).
Definition azure_history_mode (b : Bucket) : bool :=
  azure_versioning_configured b || positive (b_metadata b !! AZURE_SOFT_DELETE_DAYS_KEY).
Definition foreign_history_mode (b : Bucket) : bool :=
  is_some_and (fun s => eqb s "Enabled" || eqb s "Suspended") (b_metadata b !! S3_VERSIONING_STATUS_KEY) ||
  eqb (b_metadata b !! S3_OBJECT_LOCK_ENABLED_KEY) (Some "true") ||
  positive (b_metadata b !! GCS_SOFT_DELETE_SECONDS_KEY) || positive (b_metadata b !! GCS_RETENTION_SECONDS_KEY).

Definition history_mode_conflict : refusal_of :=
  (409%N, "FeatureVersionMismatch", "The container data-protection mode is not compatible with this Azure Blob operation.").

(** ** Blobs *)

Definition provider_value (o : Object) (key : string) : option string := o_provider_metadata o !! key.

Definition blob_type (o : Object) : string := default "BlockBlob" (provider_value o AZURE_BLOB_TYPE_KEY).
Definition set_blob_type (t : string) : Object -> Object := with_provider <[AZURE_BLOB_TYPE_KEY := t]>.

Definition snapshot_storage_key (blob_key snapshot : string) : string :=
  AZURE_SNAPSHOT_PREFIX +:+ "/" +:+ base64_url_no_pad (as_bytes blob_key) +:+ "/" +:+ snapshot.
Definition is_snapshot_storage_key (key : string) : bool := Text.starts_with key AZURE_SNAPSHOT_PREFIX.

(** *** Leases *)

Definition lease_id (o : Object) : option string := provider_value o AZURE_LEASE_ID_KEY.
Definition lease_status (o : Object) : string := default "unlocked" (provider_value o AZURE_LEASE_STATUS_KEY).
Definition lease_state (o : Object) : string := default "available" (provider_value o AZURE_LEASE_STATE_KEY).
Definition lease_duration (o : Object) : option string := provider_value o AZURE_LEASE_DURATION_KEY.
Definition has_active_lease (o : Object) : bool := eqb (lease_status o) "locked" && is_some (lease_id o).

Definition ensure_lease_allows (req : Request) (o : Object) : option refusal_of :=
  if negb (has_active_lease o) then None
  else
    match lease_id o with
    | None => None
    | Some expected =>
        match header req "x-ms-lease-id" with
        | Some provided =>
            if eqb provided expected then None
            else Some (412%N, "LeaseIdMismatchWithBlobOperation", "The lease ID specified did not match the lease ID for the blob.")
        | None => Some (412%N, "LeaseIdMissing", "There is currently a lease on the blob and no lease ID was specified in the request.")
        end
    end.

(** [insert] or [remove] *)
Definition set_key (key : string) (v : option string) (m : strmap) : strmap :=
  match v with Some x => <[key := x]> m | None => delete key m end.

Definition set_lease_state (id : option string) (state status : string) (duration : option string) : Object -> Object :=
  with_provider (fun m =>
    set_key AZURE_LEASE_DURATION_KEY duration
      (<[AZURE_LEASE_STATUS_KEY := status]> (<[AZURE_LEASE_STATE_KEY := state]> (set_key AZURE_LEASE_ID_KEY id m)))).

Definition LEASE_KEYS : list string := [AZURE_LEASE_ID_KEY; AZURE_LEASE_STATE_KEY; AZURE_LEASE_STATUS_KEY; AZURE_LEASE_DURATION_KEY].

Definition preserve_active_lease (source destination : Object) : Object :=
  if negb (has_active_lease source) then destination
  else with_provider (fun m => foldl (fun m key =>
         match provider_value source key with Some v => <[key := v]> m | None => m end) m LEASE_KEYS) destination.

(** *** Immutability *)

Definition retention_until (o : Object) : option time :=
  value ← provider_value o AZURE_IMMUTABILITY_UNTIL_KEY;
  match parse_rfc3339 value with Some t => Some t | None => parse_rfc2822 value end.

Definition has_legal_hold (o : Object) : bool :=
  match provider_value o AZURE_LEGAL_HOLD_KEY with
  | None => false
  | Some value => negb (eqb value "false")
  end.

Definition is_immutable (t : time) (o : Object) : bool :=
  has_legal_hold o ||
  match provider_value o AZURE_IMMUTABILITY_MODE_KEY, provider_value o AZURE_IMMUTABILITY_UNTIL_KEY with
  | None, None => false
  | Some mode, Some _ =>
      if eqb mode "Unlocked" || eqb mode "Locked"
      then match retention_until o with Some until => (t <? until)%Z | None => true end
      else true
  | _, _ => true
  end.

Definition IMMUTABLE : refusal_of :=
  (409%N, "BlobImmutableDueToPolicy", "The blob is immutable due to an active policy or legal hold.").

Definition ensure_mutation_allowed (t : time) (req : Request) (o : Object) : option refusal_of :=
  if is_immutable t o then Some IMMUTABLE else ensure_lease_allows req o.

(** The clock is read at [t] for the first test and again at [t'] for the second. *)
Definition ensure_version_creating_overwrite_allowed (t t' : time) (req : Request) (o : Object) (versioning : bool) : option refusal_of :=
  if is_immutable t o && versioning then ensure_lease_allows req o else ensure_mutation_allowed t' req o.

(** *** Conditions *)

Definition strong_etag (value : string) : option string :=
  let value := Text.trim value in
  if Text.starts_with value "W/" then None else Some (trim_quotes value).
Definition weak_etag (value : string) : string := trim_quotes (Text.trim_start_matches (Text.trim value) "W/").

Definition etags_match (req : Request) (etag : string) : bool :=
  match header req "if-match" with
  | None => true
  | Some if_match =>
      match strong_etag if_match with
      | None => false
      | Some e => eqb e "*" || eqb e etag
      end
  end &&
  match header req "if-none-match" with
  | None => true
  | Some if_none_match => let e := weak_etag if_none_match in negb (eqb e "*" || eqb e etag)
  end.
Definition conditions_match_blob (req : Request) (o : Object) : bool := etags_match req (o_etag o).

Definition condition_failed : refusal_of :=
  (412%N, "ConditionNotMet", "The condition specified using HTTP conditional header(s) is not met.").
Definition blob_not_found : refusal_of := (404%N, "BlobNotFound", "The specified blob does not exist.").
Definition container_not_found : refusal_of := (404%N, "ContainerNotFound", "The specified container does not exist.").

(** The conditions, then what follows. *)
Definition when_matching {S} (req : Request) (o : Object) (continue : io S Response) : io S Response :=
  if conditions_match_blob req o then continue else decline condition_failed.

Definition contains_header (req : Request) (name : string) : bool := is_some (hm_get name (rq_headers req)).

(** [None] inside is an absent header, [None] outside an invalid one. *)
Definition read_condition_date (req : Request) (name : string) : option (option Z) :=
  match header_values req name with
  | [] => Some None
  | [value] => if to_str value then t ← parse_rfc2822 value; Some (Some (t / SECOND)%Z) else None
  | _ => None
  end.

(** What the read conditions decide. *)
Inductive read_verdict : Type := ReadRefused (r : refusal_of) | ReadNotModified | ReadAllowed.

Definition etag_listed (req : Request) (name : string) (weak : bool) (etag : string) : bool :=
  existsb (fun value => to_str value &&
    existsb (fun candidate =>
      let candidate := Text.trim candidate in
      let tag := if weak then Some (trim_quotes (Text.trim_start_matches candidate "W/")) else strong_etag candidate in
      is_some_and (fun e => eqb e "*" || eqb e etag) tag) (Text.split "," value)) (header_values req name).

Definition invalid_read_headers (req : Request) : bool :=
  existsb (fun name => existsb (fun value => negb (to_str value)) (header_values req name)) ["if-match"; "if-none-match"; "x-ms-lease-id"] ||
  Nat.ltb 1 (length (header_values req "x-ms-lease-id")).

(** The lease a read names must be the active one. *)
Definition read_lease (req : Request) (o : Object) : option refusal_of :=
  match header req "x-ms-lease-id" with
  | None => None
  | Some lease =>
      if has_active_lease o && eqb (lease_id o) (Some lease) then None
      else Some (412%N, if has_active_lease o then "LeaseIdMismatchWithBlobOperation" else "LeaseNotPresentWithBlobOperation",
                 "The supplied lease must match an active blob lease.")
  end.

Definition evaluate_read_conditions (req : Request) (o : Object) : read_verdict :=
  let modified_at := (o_last_modified o / SECOND)%Z in
  if invalid_read_headers req
  then ReadRefused (400%N, "InvalidHeaderValue", "ETag and lease conditions must contain valid header values and one lease ID.")
  else if contains_header req "x-ms-if-tags"
  then ReadRefused (501%N, "FeatureNotSupported", "Blob tag read predicates are not implemented.")
  else
    match read_condition_date req "if-modified-since", read_condition_date req "if-unmodified-since" with
    | Some modified, Some unmodified =>
        if contains_header req "if-match" && negb (etag_listed req "if-match" false (o_etag o)) ||
           is_some_and (fun date => (date <? modified_at)%Z) unmodified
        then ReadRefused condition_failed
        else
          match read_lease req o with
          | Some r => ReadRefused r
          | None =>
              let none_match := if contains_header req "if-none-match"
                                then Some (negb (etag_listed req "if-none-match" true (o_etag o))) else None in
              let modified := (fun date => (date <? modified_at)%Z) <$> modified in
              let cache_allows := match none_match, modified with
                                  | Some a, Some b => a || b
                                  | Some a, None => a
                                  | None, Some b => b
                                  | None, None => true
                                  end in
              if cache_allows then ReadAllowed else ReadNotModified
          end
    | _, _ => ReadRefused (400%N, "InvalidHeaderValue", "Each date condition must contain one valid HTTP date.")
    end.

(** A response to HEAD has no body. *)
Definition read_condition_response {S} (req : Request) (o : Object) : io S (option Response) :=
  match evaluate_read_conditions req o with
  | ReadAllowed => mret None
  | ReadNotModified => b ← azure_response 304; mret (Some (empty (with_identity o b)))
  | ReadRefused r =>
      response ← decline r;
      mret (Some (if eqb (rq_method req) "HEAD" then mkResponse (rs_status response) (rs_headers response) [] else response))
  end.

Definition write_condition (req : Request) : result refusal_of (option ObjectCondition) :=
  let parse_single (value : string) := if Text.contains value "," then None else Some (trim_quotes (Text.trim value)) in
  match header req "if-match", header req "if-none-match" with
  | Some _, Some _ => Err (400%N, "MultipleConditionHeadersNotSupported",
                           "Multiple condition headers are not supported for this write operation.")
  | Some value, None =>
      if eqb (Text.trim value) "*" then Ok (Some (EtagNotIn []))
      else if Text.starts_with (Text.trim value) "W/" then Ok (Some (Etag "__sqrzl_weak_etag_never_matches__"))
      else match parse_single value with
           | Some etag => Ok (Some (Etag etag))
           | None => Err (400%N, "InvalidHeaderValue", "The If-Match header must contain exactly one ETag value.")
           end
  | None, Some value =>
      if eqb (Text.trim value) "*" then Ok (Some Missing)
      else match parse_single (Text.trim_start_matches (Text.trim value) "W/") with
           | Some etag => Ok (Some (MissingOrEtagNotIn [etag]))
           | None => Err (400%N, "InvalidHeaderValue", "The If-None-Match header must contain exactly one ETag value.")
           end
  | None, None => Ok None
  end.

Definition validate_transactional_checksum (req : Request) : option refusal_of :=
  let md5 := header req "content-md5" in
  let crc64 := header req "x-ms-content-crc64" in
  if is_some md5 && is_some crc64
  then Some (400%N, "InvalidHeaderValue", "Content-MD5 and x-ms-content-crc64 cannot both be specified.")
  else
    let expected := match md5, crc64 with
                    | Some _, _ => Some (base64_encode (payload_md5 req))
                    | None, Some _ => Some (crc64_header_value req)
                    | None, None => None
                    end in
    let provided := match md5 with Some v => Some v | None => crc64 end in
    if eqb expected provided then None
    else Some (400%N, "Md5Mismatch", "The transactional content checksum does not match the request body.").

Definition unsupported_selected_mutation (req : Request) : option refusal_of :=
  let comp := query_param req "comp" in
  if negb (has_query_param req "versionid") && negb (has_query_param req "snapshot") then None
  else if eqb (rq_method req) "PUT" && negb (is_some comp)
  then Some (400%N, "InvalidQueryParameterValue", "Blob snapshots and previous versions are read-only.")
  else if (eqb (rq_method req) "PUT" || eqb (rq_method req) "DELETE") && is_some comp
  then Some (501%N, "FeatureNotSupported", "Version- and snapshot-scoped mutations are not implemented by this emulator.")
  else None.

Definition unsupported_operation_predicates (req : Request) : option refusal_of :=
  if contains_header req "x-ms-if-tags" ||
     negb (eqb (rq_method req) "GET" || eqb (rq_method req) "HEAD") &&
     existsb (contains_header req) ["if-modified-since"; "if-unmodified-since"]
  then Some (501%N, "FeatureNotSupported", "Azure tag predicates and mutation date predicates are not implemented.")
  else None.

(** ** Operations on one blob *)

Context {S : Type} `{AzureStore S}.

(** A missing blob or container is [None], other errors fail. *)
Definition find_blob (container blob_key : string) : io S (option Object) :=
  r ← attempt (st_get_object_metadata container blob_key);
  match r with
  | Ok o => mret (Some o)
  | Err KeyNotFound | Err BucketNotFound => mret None
  | Err e => fail e
  end.

(** [replace_blob_metadata_if_unchanged], then the answer. *)
Definition replacing (container blob_key : string) (observed updated : Object) (answer : io S Response) : io S Response :=
  replaced ← st_replace_object_metadata_if_unchanged container blob_key observed updated;
  if (replaced : bool) then answer else decline condition_failed.

Definition acquire_lease (req : Request) (container blob_key : string) (blob : Object) : io S Response :=
  if has_active_lease blob then decline (409%N, "LeaseAlreadyPresent", "The blob already has an active lease.")
  else
    id ← match header req "x-ms-proposed-lease-id" with Some id => mret id | None => new_uuid end;
    let duration := default "-1" (header req "x-ms-lease-duration") in
    let updated := set_lease_state (Some id) "leased" "locked" (Some (if eqb duration "-1" then "infinite" else "fixed")) blob in
    replacing container blob_key blob updated
      (b ← azure_response 201; mret (empty (with_header "x-ms-lease-id" id b))).

Definition handle_lease (req : Request) (container blob_key : string) : io S Response :=
  let action := default "" (header req "x-ms-lease-action") in
  found ← find_blob container blob_key;
  match found with
  | None => decline blob_not_found
  | Some blob =>
      when_matching req blob
        (if eqb action "acquire" then acquire_lease req container blob_key blob
         else if eqb action "renew" then
           unless (ensure_lease_allows req blob)
             (replacing container blob_key blob blob
               (b ← azure_response 200; mret (empty (with_header "x-ms-lease-id" (default "" (lease_id blob)) b))))
         else if eqb action "release" then
           unless (ensure_lease_allows req blob)
             (replacing container blob_key blob (set_lease_state None "available" "unlocked" None blob) (empty_response 200))
         else if eqb action "break" then
           if negb (has_active_lease blob)
           then decline (409%N, "LeaseNotPresentWithBlobOperation", "There is currently no lease on the blob.")
           else replacing container blob_key blob (set_lease_state None "broken" "unlocked" None blob)
                  (b ← azure_response 202; mret (empty (with_header "x-ms-lease-time" "0" b)))
         else decline (400%N, "InvalidHeaderValue", "Unsupported Azure lease action."))
  end.

(** *** Immutability *)

(** A date in the future; the clock is read only for a readable date. *)
Definition future_date (until : string) : io S (option time) :=
  match parse_rfc2822 until with
  | None => mret None
  | Some date => t ← now; mret (if (t <? date)%Z then Some date else None)
  end.

(** A locked policy can only be extended. *)
Definition weakens (o : Object) (mode : string) (until : time) : bool :=
  eqb (provider_value o AZURE_IMMUTABILITY_MODE_KEY) (Some "Locked") &&
  (negb (eqb mode "Locked") || match retention_until o with Some existing => (until <? existing)%Z | None => true end).

Definition put_immutability_policy (req : Request) (container blob_key : string) : io S Response :=
  match header req "x-ms-immutability-policy-until-date" with
  | None => decline (400%N, "MissingRequiredHeader", "The x-ms-immutability-policy-until-date header is required.")
  | Some until =>
      requested ← future_date until;
      match requested with
      | None => decline (400%N, "InvalidHeaderValue",
                         "The x-ms-immutability-policy-until-date header must be a future RFC 1123 date.")
      | Some requested_until =>
          let mode := default "Unlocked" (header req "x-ms-immutability-policy-mode") in
          if negb (eqb mode "Unlocked" || eqb mode "Locked")
          then decline (400%N, "InvalidHeaderValue", "The x-ms-immutability-policy-mode header must be Unlocked or Locked.")
          else
            found ← find_blob container blob_key;
            match found with
            | None => decline blob_not_found
            | Some blob =>
                when_matching req blob
                  (if weakens blob mode requested_until
                   then decline (409%N, "BlobImmutableDueToPolicy", "A locked immutability policy cannot be unlocked or shortened.")
                   else replacing container blob_key blob
                          (with_provider (fun m => <[AZURE_IMMUTABILITY_MODE_KEY := mode]> (<[AZURE_IMMUTABILITY_UNTIL_KEY := until]> m)) blob)
                          (b ← azure_response 200;
                           mret (empty (with_header "x-ms-immutability-policy-mode" mode
                                         (with_header "x-ms-immutability-policy-until-date" until b)))))
            end
      end
  end.

Definition delete_immutability_policy (req : Request) (container blob_key : string) : io S Response :=
  found ← find_blob container blob_key;
  match found with
  | None => decline blob_not_found
  | Some blob =>
      when_matching req blob
        (if eqb (provider_value blob AZURE_IMMUTABILITY_MODE_KEY) (Some "Locked")
         then decline (409%N, "BlobImmutableDueToPolicy", "A locked immutability policy cannot be deleted.")
         else replacing container blob_key blob
                (with_provider (fun m => delete AZURE_IMMUTABILITY_MODE_KEY (delete AZURE_IMMUTABILITY_UNTIL_KEY m)) blob)
                (empty_response 200))
  end.

Definition put_legal_hold (req : Request) (container blob_key : string) : io S Response :=
  match header req "x-ms-legal-hold" with
  | None => decline (400%N, "MissingRequiredHeader", "The x-ms-legal-hold header is required.")
  | Some legal_hold =>
      if negb (eqb legal_hold "true" || eqb legal_hold "false")
      then decline (400%N, "InvalidHeaderValue", "The x-ms-legal-hold header must be true or false.")
      else
        found ← find_blob container blob_key;
        match found with
        | None => decline blob_not_found
        | Some blob =>
            when_matching req blob
              (replacing container blob_key blob (with_provider <[AZURE_LEGAL_HOLD_KEY := legal_hold]> blob)
                (b ← azure_response 200; mret (empty (with_header "x-ms-legal-hold" legal_hold b))))
        end
  end.

(** *** Whole blobs in memory *)

Definition materialized_extent_unsupported : refusal_of :=
  (501%N, "FeatureNotSupported", "This emulator materializes at most 64 MiB for page extents, mutation, snapshot, and read operations. Large BlockBlob uploads remain streamed.").

Definition store_refusal (e : Error) : refusal_of :=
  match e with
  | KeyNotFound | BucketNotFound => blob_not_found
  | e => (500%N, "InternalError", display e)
  end.

Definition within_limit (size extra_len : N) : bool :=
  match checked_add_u64 size extra_len with
  | Some total => (total <=? AZURE_MAX_MATERIALIZED_MUTATION_BYTES)%N
  | None => false
  end.

Definition bounded_mutation_blob (container blob_key : string) (extra_len : N) : io S (result refusal_of Object) :=
  r ← attempt (st_get_object_metadata container blob_key);
  match r with
  | Err e => mret (Err (store_refusal e))
  | Ok found =>
      if negb (within_limit (o_size found) extra_len) then mret (Err materialized_extent_unsupported)
      else if N.eqb (o_size found) 0 then mret (Ok found)
      else
        r ← attempt (st_get_object_range container blob_key 0 (Some (AZURE_MAX_MATERIALIZED_MUTATION_BYTES - 1)%N));
        match r with
        | Err e => mret (Err (store_refusal e))
        | Ok (blob, data) =>
            if negb (within_limit (o_size blob) extra_len) then mret (Err materialized_extent_unsupported)
            else mret (Ok (with_data data blob))
        end
  end.

(** [uuid::Uuid::new_v4().simple().to_string()] *)
Definition new_etag : io S string := n ← new_uuid_number; mret (simple_uuid n).

Definition with_identity_of (etag : string) (t : time) (o : Object) : Object :=
  mkObject (o_key o) (o_data o) (o_size o) etag (o_content_type o) t (o_version_id o) (o_storage_class o) (o_metadata o)
    (o_tags o) (o_acl o) (o_provider_metadata o).
Definition with_key (key : string) (o : Object) : Object :=
  mkObject key (o_data o) (o_size o) (o_etag o) (o_content_type o) (o_last_modified o) (o_version_id o) (o_storage_class o)
    (o_metadata o) (o_tags o) (o_acl o) (o_provider_metadata o).
Definition with_metadata (m : strmap) (o : Object) : Object :=
  mkObject (o_key o) (o_data o) (o_size o) (o_etag o) (o_content_type o) (o_last_modified o) (o_version_id o) (o_storage_class o)
    m (o_tags o) (o_acl o) (o_provider_metadata o).

(** [if let Err(response) = ensure_mutation_allowed(..) { return Ok(response) }] *)
Definition when_mutable (req : Request) (o : Object) (continue : io S Response) : io S Response :=
  t ← now; unless (ensure_mutation_allowed t req o) continue.

(** A new generation over the observed one, then the answer about what is stored. *)
Definition publish_over (container blob_key : string) (observed_etag : string) (updated : Object)
    (answer : Object -> io S Response) : io S Response :=
  etag ← new_etag;
  t ← now;
  written ← st_put_object_if container blob_key (with_identity_of etag t updated) (Etag observed_etag);
  if negb written then decline condition_failed
  else
    stored ← st_get_object_metadata container blob_key;
    answer stored.

Definition snapshot_of (blob : Object) (blob_key snapshot_time snapshot_key : string) : Object :=
  with_provider (fun m =>
    <[AZURE_SNAPSHOT_SOURCE_KEY := blob_key]> (<[AZURE_SNAPSHOT_TIME_KEY := snapshot_time]>
      (delete AZURE_LEASE_DURATION_KEY (delete AZURE_LEASE_STATUS_KEY
        (delete AZURE_LEASE_STATE_KEY (delete AZURE_LEASE_ID_KEY m)))))) (with_key snapshot_key blob).

Definition create_snapshot (req : Request) (container blob_key : string) : io S Response :=
  found ← bounded_mutation_blob container blob_key 0;
  match found with
  | Err r => decline r
  | Ok blob =>
      unless (ensure_lease_allows req blob)
        (when_matching req blob
          (t ← now;
           let snapshot_time := format_micros t in
           let snapshot_key := snapshot_storage_key blob_key snapshot_time in
           let snapshot_blob := snapshot_of blob blob_key snapshot_time snapshot_key in
           let metadata := metadata_from_headers req in
           snapshot_blob ← (if eqb metadata ∅ then mret snapshot_blob
                            else t ← now; etag ← new_etag; mret (with_identity_of etag t (with_metadata metadata snapshot_blob)));
           st_put_object container snapshot_key snapshot_blob;;
           b ← azure_response 201;
           mret (empty (with_identity snapshot_blob (with_header "x-ms-snapshot" snapshot_time b)))))
  end.

Definition update_metadata (req : Request) (container blob_key : string) : io S Response :=
  found ← bounded_mutation_blob container blob_key 0;
  match found with
  | Err r => decline r
  | Ok existing =>
      when_mutable req existing
        (when_matching req existing
          (publish_over container blob_key (o_etag existing) (with_metadata (metadata_from_headers req) existing)
            (fun stored => b ← azure_response 200; mret (empty (with_identity stored b)))))
  end.

Definition WRONG_TYPE : refusal_of := (409%N, "InvalidBlobType", "The blob type is invalid for this operation.").

Definition append_block (req : Request) (container blob_key : string) : io S Response :=
  if (100 * 1024 * 1024 <? payload_len req)%N
  then decline (413%N, "RequestBodyTooLarge", "Append blocks cannot exceed 100 MiB.")
  else
    unless (validate_transactional_checksum req)
      (found ← bounded_mutation_blob container blob_key (payload_len req);
       match found with
       | Err r => decline r
       | Ok blob =>
           when_mutable req blob
             (when_matching req blob
               (if negb (eqb (blob_type blob) "AppendBlob") then decline WRONG_TYPE
                else
                  let data := o_data blob ++ rq_body req in
                  publish_over container blob_key (o_etag blob) (with_size (size_of data) (with_data data blob))
                    (fun stored =>
                       b ← azure_response 201;
                       mret (empty (with_header "x-ms-blob-committed-block-count" "1"
                              (with_header "x-ms-blob-append-offset" (pretty (o_size stored - size_of (rq_body req))%N)
                                (with_header "etag" (quoted (o_etag stored)) b)))))))
       end).

(** *** Pages *)

Definition page_range_error : refusal_of := (400%N, "InvalidHeaderValue", "Page writes require a valid x-ms-range header.").

Definition aligned_range (start stop : N) : bool :=
  N.eqb (start mod 512) 0 && match checked_add_u64 stop 1 with Some e => N.eqb (e mod 512) 0 | None => false end.

Definition validate_page_write (req : Request) (blob : Object) (start stop : N) (page_write : string) : option refusal_of :=
  let expected_len := (stop - start + 1)%N in
  if eqb page_write "update" && negb (N.eqb (size_of (rq_body req)) expected_len) ||
     eqb page_write "clear" && negb (N.eqb (size_of (rq_body req)) 0)
  then Some (400%N, "InvalidPageRange", "Page payload length must match the requested range.")
  else if (size_of (o_data blob) <=? stop)%N
  then Some (400%N, "InvalidPageRange", "Page write exceeds the blob length.")
  else None.

(** [data[start..=end].copy_from_slice(page)] *)
Definition overwrite (start : N) (page data : bytes) : bytes :=
  take (N.to_nat start) data ++ page ++ drop (N.to_nat start + length page) data.

Definition page_bytes (req : Request) (page_write : string) (start stop : N) : bytes :=
  if eqb page_write "clear" then replicate (N.to_nat (stop - start + 1)) x00 else rq_body req.

Definition put_page (req : Request) (container blob_key : string) : io S Response :=
  match header req "x-ms-page-write" with
  | None => decline (400%N, "MissingRequiredHeader", "The x-ms-page-write header is required.")
  | Some page_write =>
      if negb (eqb page_write "update" || eqb page_write "clear")
      then decline (400%N, "InvalidHeaderValue", "The x-ms-page-write header must be update or clear.")
      else
        match requested_range req ≫= parse_write_range_header with
        | None => decline page_range_error
        | Some (start, stop) =>
            if negb (aligned_range start stop)
            then decline (400%N, "InvalidPageRange", "Page blob ranges must align to 512-byte boundaries.")
            else if (4 * 1024 * 1024 <? payload_len req)%N
            then decline (413%N, "RequestBodyTooLarge", "Page updates cannot exceed 4 MiB.")
            else
              unless (validate_transactional_checksum req)
                (found ← bounded_mutation_blob container blob_key 0;
                 match found with
                 | Err r => decline r
                 | Ok blob =>
                     when_mutable req blob
                       (when_matching req blob
                         (if negb (eqb (blob_type blob) "PageBlob") then decline WRONG_TYPE
                          else
                            unless (validate_page_write req blob start stop page_write)
                              (publish_over container blob_key (o_etag blob)
                                (with_data (overwrite start (page_bytes req page_write start stop) (o_data blob)) blob)
                                (fun stored =>
                                   b ← azure_response 201;
                                   mret (empty (with_header "x-ms-blob-sequence-number" "0" (with_identity stored b)))))))
                 end)
        end
  end.
End Azure.
