(* ===== verification/AzureBlobs.v ===== *)
(** * AzureBlobs: requests for blobs at the Azure front door

    The rest of [src/providers/azure.rs]: service SAS and Shared Key, block lists
    and their sessions, reads, uploads and deletions of blobs, and the dispatch of a
    request for a blob.  [AzureAdapter] is the state of the adapter beside the
    store: the cached block sessions and committed block lists. *)

From Stdlib Require Import Ascii Strings.Byte.
From stdpp Require Import pretty sorting.
From S2P Require Import Prelude Text Models Utf8 Validation SkipMap Index FsModel Publication Lifecycle.
From S2P Require Import Storage Versions Listing Multipart LifecycleExecutor Http Checksums ObjectHelpers Routing.
From S2P Require Import Cors ObjectHandlers Signatures Startup Azure.

(** ** Blocks *)

Record AzureStagedBlock : Type := mkStagedBlock { sb_item : string; sb_size : N }.
Record AzureBlockSession : Type := mkBlockSession {
  bs_blocks : gmap string AzureStagedBlock;
  bs_content_type : option string;
  bs_metadata : strmap }.
Definition new_session : AzureBlockSession := mkBlockSession ∅ None ∅.
Record AzureCommittedBlock : Type := mkCommittedBlock { cb_id : string; cb_item : string; cb_size : N }.
Inductive AzureBlockSelector : Type := Latest | Committed | Uncommitted.
Record AzureBlockReference : Type := mkReference { br_id : string; br_selector : AzureBlockSelector }.
Inductive AzureBlockListError : Type := InvalidXmlDocument | InvalidBlockList.

#[export] Instance selector_eq_dec : EqDecision AzureBlockSelector.
Proof. solve_decision. Defined.

(** The events of [quick_xml] with trimmed text and checked comments.  An attribute
    is its key, its value and its normalized value; a reference is a character,
    [None], or cannot be resolved. *)
Record XmlAttributes : Type := mkAttributes {
  xa_raw : string;
  xa_items : list (option (string * string * option string)) }.
Inductive BlockEvent : Type :=
| BStart (name : string) (attributes : XmlAttributes)
| BEmpty (name : string) (attributes : XmlAttributes)
| BEnd (name : string)
| BText (raw : string)
| BRef (name : string) (character : option (option string))
| BCData (raw : string)
| BDecl (attributes : XmlAttributes)
| BPI (target : string)
| BComment
| BOther
| BError.
Class BlockXml : Type := { block_events : string -> list BlockEvent }.

(** *** The XML of a block list *)

Definition in_ranges (ranges : list (N * N)) (c : N) : bool := existsb (fun r => (r.1 <=? c)%N && (c <=? r.2)%N) ranges.

Definition valid_xml_characters (xml : string) : bool :=
  forallb (in_ranges [(9, 10); (13, 13); (0x20, 0xd7ff); (0xe000, 0xfffd); (0x10000, 0x10ffff)]%N) (Text.chars xml).

Definition xml_name_start : N -> bool :=
  in_ranges [(58, 58); (95, 95); (65, 90); (97, 122); (0xc0, 0xd6); (0xd8, 0xf6); (0xf8, 0x2ff); (0x370, 0x37d); (0x37f, 0x1fff);
             (0x200c, 0x200d); (0x2070, 0x218f); (0x2c00, 0x2fef); (0x3001, 0xd7ff); (0xf900, 0xfdcf); (0xfdf0, 0xfffd);
             (0x10000, 0xeffff)]%N.

Definition valid_xml_name (name : string) : bool :=
  match Text.chars name with
  | [] => false
  | c :: rest => xml_name_start c &&
      forallb (fun c => xml_name_start c || in_ranges [(45, 46); (48, 57); (0xb7, 0xb7); (0x300, 0x36f); (0x203f, 0x2040)]%N c) rest
  end.

Definition xml_white (a : ascii) : bool := eqb a " "%char || eqb a "009"%char || eqb a "010"%char || eqb a "013"%char.
Definition xml_space (s : string) : bool := forallb xml_white (String.list_ascii_of_string s).

(** Every quote is closed, and white space follows it. *)
Fixpoint quotes_closed (quote : option ascii) (raw : list ascii) : bool :=
  match raw with
  | [] => match quote with None => true | Some _ => false end
  | a :: rest =>
      match quote with
      | Some delimiter =>
          if eqb a delimiter
          then match rest with
               | next :: _ => xml_white next && quotes_closed None rest
               | [] => true
               end
          else quotes_closed quote rest
      | None => quotes_closed (if eqb a "'"%char || eqb a QUOT then Some a else None) rest
      end
  end.

Definition valid_xml_attributes (e : XmlAttributes) : bool :=
  quotes_closed None (String.list_ascii_of_string (xa_raw e)) &&
  forallb (fun item =>
    match item with
    | Some (key, value, Some normalized) => valid_xml_name key && negb (Text.contains value "<") && valid_xml_characters normalized
    | _ => false
    end) (xa_items e).

Definition version_number (value : string) : bool :=
  match Text.strip_prefix value "1." with
  | Some digits => negb (Text.is_empty digits) && forallb (fun a => is_some (Text.digit a)) (String.list_ascii_of_string digits)
  | None => false
  end.
Definition ascii_letter (a : ascii) : bool := let n := N_of_ascii a in in_ranges [(65, 90); (97, 122)]%N n.
Definition encoding_name (value : string) : bool :=
  match value with
  | EmptyString => false
  | String a _ => ascii_letter a
  end && forallb (fun a => ascii_letter a || is_some (Text.digit a) || eqb a "."%char || eqb a "_"%char || eqb a "-"%char)
           (String.list_ascii_of_string value).

(** The pseudo-attributes in their order; the position after the last. *)
Fixpoint declaration_position (position : nat) (items : list (option (string * string * option string))) : option nat :=
  match items with
  | [] => Some position
  | Some (key, value, _) :: rest =>
      if eqb key "version" && Nat.eqb position 0 && version_number value then declaration_position 1 rest
      else if eqb key "encoding" && Nat.eqb position 1 && encoding_name value then declaration_position 2 rest
      else if eqb key "standalone" && (Nat.eqb position 1 || Nat.eqb position 2) && (eqb value "yes" || eqb value "no")
      then declaration_position 3 rest
      else None
  | None :: _ => None
  end.
Definition valid_xml_declaration (e : XmlAttributes) : bool :=
  valid_xml_attributes e &&
  match declaration_position 0 (xa_items e) with Some position => negb (Nat.eqb position 0) | None => false end.

Definition block_selector (name : string) : result AzureBlockListError AzureBlockSelector :=
  if eqb name "Latest" then Ok Latest
  else if eqb name "Committed" then Ok Committed
  else if eqb name "Uncommitted" then Ok Uncommitted
  else Err InvalidBlockList.

(** The state of the parser. *)
Record BlockParse : Type := mkBlockParse {
  bp_root_seen : bool;
  bp_root_closed : bool;
  bp_current : option string;
  bp_block_id : string;
  bp_references : list AzureBlockReference }.
Definition block_parse_start : BlockParse := mkBlockParse false false None "" [].

Definition append_block_text (value : string) (p : BlockParse) : result AzureBlockListError BlockParse :=
  if negb (valid_xml_characters value) then Err InvalidXmlDocument
  else if is_some (bp_current p)
  then Ok (mkBlockParse (bp_root_seen p) (bp_root_closed p) (bp_current p) (bp_block_id p +:+ value) (bp_references p))
  else if xml_space value then Ok p else Err InvalidBlockList.

Definition block_start (name : string) (p : BlockParse) : result AzureBlockListError BlockParse :=
  if negb (bp_root_seen p) && eqb name "BlockList"
  then Ok (mkBlockParse true (bp_root_closed p) (bp_current p) (bp_block_id p) (bp_references p))
  else if bp_root_seen p && negb (bp_root_closed p) && negb (is_some (bp_current p)) && is_ok (block_selector name)
  then Ok (mkBlockParse true (bp_root_closed p) (Some name) "" (bp_references p))
  else Err InvalidBlockList.

Definition block_end (name : string) (p : BlockParse) : result AzureBlockListError BlockParse :=
  if eqb (bp_current p) (Some name) then
    if Text.is_empty (bp_block_id p) then Err InvalidBlockList
    else
      selector ← block_selector name;
      Ok (mkBlockParse (bp_root_seen p) (bp_root_closed p) None "" (bp_references p ++ [mkReference (bp_block_id p) selector]))
  else if bp_root_seen p && negb (bp_root_closed p) && negb (is_some (bp_current p)) && eqb name "BlockList"
  then Ok (mkBlockParse true true None (bp_block_id p) (bp_references p))
  else Err InvalidXmlDocument.

Definition outside_root (p : BlockParse) : bool := negb (bp_root_seen p) || bp_root_closed p.

Definition named_reference (name : string) : option string :=
  if eqb name "lt" then Some "<"
  else if eqb name "gt" then Some ">"
  else if eqb name "amp" then Some "&"
  else if eqb name "apos" then Some "'"
  else if eqb name "quot" then Some (String QUOT "")
  else None.

Definition block_event `{QuickXml} (declared first : bool) (e : BlockEvent) (p : BlockParse) : result AzureBlockListError BlockParse :=
  match e with
  | BStart name attributes => if negb (valid_xml_attributes attributes) then Err InvalidXmlDocument else block_start name p
  | BEmpty name attributes =>
      if negb (valid_xml_attributes attributes) then Err InvalidXmlDocument
      else if negb (bp_root_seen p) && eqb name "BlockList"
      then Ok (mkBlockParse true true (bp_current p) (bp_block_id p) (bp_references p))
      else Err InvalidBlockList
  | BEnd name => block_end name p
  | BText raw =>
      if outside_root p then if xml_space raw then Ok p else Err InvalidXmlDocument
      else match unescape raw with
           | Ok value => append_block_text value p
           | Err _ => Err InvalidXmlDocument
           end
  | BRef name character =>
      if outside_root p then Err InvalidXmlDocument
      else match character with
           | None => Err InvalidXmlDocument
           | Some resolved =>
               match (match resolved with Some c => Some c | None => named_reference name end) with
               | Some c => append_block_text c p
               | None => Err InvalidXmlDocument
               end
           end
  | BCData raw =>
      if is_some (bp_current p)
      then Ok (mkBlockParse (bp_root_seen p) (bp_root_closed p) (bp_current p) (bp_block_id p +:+ raw) (bp_references p))
      else Err InvalidBlockList
  | BDecl attributes => if first && declared && valid_xml_declaration attributes then Ok p else Err InvalidXmlDocument
  | BPI target => if negb (valid_xml_name target) || Text.eq_ignore_ascii_case target "xml" then Err InvalidXmlDocument else Ok p
  | BComment => Ok p
  | BOther => Err InvalidBlockList
  | BError => Err InvalidXmlDocument
  end.

Fixpoint scan_block_list `{QuickXml} (declared first : bool) (events : list BlockEvent) (p : BlockParse)
    : result AzureBlockListError BlockParse :=
  match events with
  | [] => Ok p
  | e :: rest => p' ← block_event declared first e p; scan_block_list declared false rest p'
  end.

(** [U+FEFF] *)
Definition BOM : string := String "239" (String "187" (String "191" "")).

Definition parse_block_list `{QuickXml, BlockXml} (xml : string) : result AzureBlockListError (list AzureBlockReference) :=
  if negb (valid_xml_characters xml) then Err InvalidXmlDocument
  else
    let xml := default xml (Text.strip_prefix xml BOM) in
    p ← scan_block_list (Text.starts_with xml "<?xml") true (block_events xml) block_parse_start;
    if is_some (bp_current p) || bp_root_seen p && negb (bp_root_closed p) then Err InvalidXmlDocument
    else if negb (bp_root_seen p) then Err InvalidBlockList
    else Ok (bp_references p).

Definition invalid_block_list_response (e : AzureBlockListError) : refusal_of :=
  match e with
  | InvalidXmlDocument => (400%N, "InvalidXmlDocument", "The specified XML is not syntactically valid.")
  | InvalidBlockList => (400%N, "InvalidBlockList", "The specified block list is invalid.")
  end.

(** ** Credentials *)

(** The parts of [Config] for this front door. *)
Record AzureConfig : Type := mkAzureConfig {
  ac_auth : AuthConfig;
  ac_account : option string;
  ac_account_key : option string }.

Definition azure_account (c : AzureConfig) : option string :=
  match ac_account c with Some a => Some a | None => access_key_id (ac_auth c) end.
Definition azure_account_key (c : AzureConfig) : option string :=
  match ac_account_key c with Some k => Some k | None => secret_access_key (ac_auth c) end.
Definition azure_auth_enforced (c : AzureConfig) : bool :=
  enforce_auth (ac_auth c) || is_some (ac_account c) || is_some (ac_account_key c).

Section Credentials.
Context `{HttpLib} `{HelperEnv} `{Chrono} `{PayloadDigests} `{AzureEnv} `{SigningEnv}.

(** The values of each name, in the order they came. *)
Definition grouped (entries : list (string * string)) : list (string * list string) :=
  (fun name => (name, snd <$> filter (fun e => e.1 = name) entries)) <$> merge_sort String.le (remove_dups (fst <$> entries)).

Definition canonicalized_headers (req : Request) : string :=
  let entries := (fun e => (Text.to_ascii_lowercase e.1, normalize_header_value e.2)) <$>
    filter (fun e => Text.starts_with e.1 "x-ms-" = true) (request_headers req) in
  Text.join_text "" ((fun g => g.1 +:+ ":" +:+ Text.join_text "," g.2 +:+ NL) <$> grouped entries).

Definition query_entry (parameter : string) : string * string :=
  let '(key, value) := default (parameter, "") (Text.split_once "=" parameter) in
  (lowercase (decode_or_raw key), decode_or_raw value).

Definition canonicalized_resource (req : Request) (account : string) : string :=
  let entries := query_entry <$> filter (fun p => p <> "") (Text.split "&" (default "" (rq_query req))) in
  "/" +:+ account +:+ rq_path req +:+
  Text.join_text "" ((fun g => NL +:+ g.1 +:+ ":" +:+ Text.join_text "," (merge_sort String.le g.2)) <$> grouped entries).

Definition shared_key_secret (config : AzureConfig) : option bytes :=
  secret ← azure_account_key config;
  Some (match base64_decode secret with Some key => key | None => as_bytes secret end).

Definition header_or_empty (req : Request) (name : string) : string := default "" (header req name).

Definition shared_key_string_to_sign (req : Request) (account : string) : string :=
  let content_length :=
    if eqb (rq_method req) "GET" || eqb (rq_method req) "HEAD" then ""
    else match header req "content-length" with Some v => if eqb v "0" then "" else v | None => "" end in
  let date := if is_some (header req "x-ms-date") then "" else header_or_empty req "date" in
  Text.join_text NL
    [rq_method req; header_or_empty req "content-encoding"; header_or_empty req "content-language"; content_length;
     header_or_empty req "content-md5"; header_or_empty req "content-type"; date; header_or_empty req "if-modified-since";
     header_or_empty req "if-match"; header_or_empty req "if-none-match"; header_or_empty req "if-unmodified-since";
     header_or_empty req "range"] +:+
  NL +:+ canonicalized_headers req +:+ canonicalized_resource req account.

Definition AZURE_SHARED_KEY_MAX_CLOCK_SKEW_MINUTES : Z := 15.

Definition validate_shared_key_date (t : time) (req : Request) : result string unit :=
  raw ← ok_or "Missing required Azure request date"
    (match header req "x-ms-date" with Some d => Some d | None => header req "date" end);
  date ← ok_or "Invalid Azure request date" (parse_rfc2822 raw);
  if (AZURE_SHARED_KEY_MAX_CLOCK_SKEW_MINUTES * MINUTE <? Z.abs (t - date))%Z
  then Err "Azure request date is outside the permitted 15 minute window" else Ok tt.

Definition sign_hmac_base64 (key : bytes) (payload : string) : string := base64_encode (hmac_sha256 key (as_bytes payload)).

Definition ACCOUNT_MISMATCH : string := "Azure storage account does not match configured credentials".

Definition validate_shared_key (t : time) (req : Request) (config : AzureConfig) (account : string) : result string unit :=
  if negb (eqb (azure_account config) (Some account)) then Err ACCOUNT_MISMATCH
  else
    _ ← validate_shared_key_date t req;
    authorization ← ok_or "Missing Authorization header" (header req "authorization");
    provided ← ok_or "Unsupported Azure authorization scheme" (Text.strip_prefix authorization ("SharedKey " +:+ account +:+ ":"));
    key ← ok_or "Missing Azure shared key" (shared_key_secret config);
    if eqb provided (sign_hmac_base64 key (shared_key_string_to_sign req account)) then Ok tt
    else Err "Azure shared key signature mismatch".

(** *** Service SAS *)

Definition UNSUPPORTED_SAS_FIELDS : list string :=
  ["sip"; "si"; "ses"; "rscc"; "rscd"; "rsce"; "rscl"; "rsct"; "sdd"; "ss"; "srt"; "skoid"; "sktid"; "skt"; "ske"; "sks"; "skv";
   "saoid"; "suoid"; "scid"; "skdutid"; "sduoid"; "srh"; "srq"].

Definition unsupported_sas_field (req : Request) : option string :=
  head (filter (fun f => is_some_and (fun v => negb (Text.is_empty v)) (query_param req f) = true) UNSUPPORTED_SAS_FIELDS).

(** The letters of [racwdxyltfmeopi], each at most once and in this order. *)
Fixpoint ordered_permissions (order : list ascii) (permissions : list ascii) : bool :=
  match permissions with
  | [] => true
  | p :: rest =>
      (fix find_from (order : list ascii) : bool :=
        match order with
        | [] => false
        | o :: more => if eqb o p then ordered_permissions more rest else find_from more
        end) order
  end.
Definition PERMISSIONS : list ascii := String.list_ascii_of_string "racwdxyltfmeopi".

Definition sas_interval (t t' : time) (starts_on expires_on : string) : result string unit :=
  expiry ← ok_or "Invalid SAS expiry" (parse_rfc3339 expires_on);
  if (expiry <? t)%Z then Err "SAS token has expired"
  else if Text.is_empty starts_on then Ok tt
  else
    start ← ok_or "Invalid SAS start time" (parse_rfc3339 starts_on);
    if (expiry <=? start)%Z || (t' <? start)%Z then Err "SAS token is not valid yet or has an invalid time interval" else Ok tt.

(** The resource a SAS is signed for. *)
Definition sas_resource (resource : AzureResource) (resource_type : string) : result string string :=
  match ar_container resource, ar_blob resource with
  | Some container, blob =>
      if eqb resource_type "c" then Ok ("/blob/" +:+ ar_account resource +:+ "/" +:+ container)
      else if eqb resource_type "b" then
        match blob with
        | Some blob => Ok ("/blob/" +:+ ar_account resource +:+ "/" +:+ container +:+ "/" +:+ blob)
        | None => Err "SAS resource scope is not supported for this request"
        end
      else Err "SAS resource scope is not supported for this request"
  | None, _ => Err "SAS resource scope is not supported for this request"
  end.

Definition param_or_empty (req : Request) (name : string) : string := default "" (query_param req name).

Definition sas_string_to_sign (req : Request) (expires_on canonical : string) : string :=
  Text.join_text NL
    [param_or_empty req "sp"; param_or_empty req "st"; expires_on; canonical; ""; ""; param_or_empty req "spr";
     param_or_empty req "sv"; param_or_empty req "sr"; ""; ""; ""; ""; ""; ""; ""].

(** The clock is read for the end of the interval, then for its start. *)
Definition validate_sas (t t' : time) (req : Request) (config : AzureConfig) (resource : AzureResource) : result string unit :=
  if negb (eqb (azure_account config) (Some (ar_account resource))) then Err ACCOUNT_MISMATCH
  else
    _ ← match unsupported_sas_field req with
        | Some field => Err ("The SAS field " +:+ field +:+ " is not supported by this emulator")
        | None => Ok tt
        end;
    signature ← ok_or "Missing SAS signature" (query_param req "sig");
    expires_on ← ok_or "Missing SAS expiry" (query_param req "se");
    if negb (existsb (eqb (param_or_empty req "sv")) AZURE_SUPPORTED_VERSIONS)
    then Err "The SAS signing version is not supported by this emulator"
    else if Text.is_empty (param_or_empty req "sp") ||
            negb (ordered_permissions PERMISSIONS (String.list_ascii_of_string (param_or_empty req "sp")))
    then Err "Invalid SAS permissions"
    else
      _ ← sas_interval t t' (param_or_empty req "st") expires_on;
      let protocol := param_or_empty req "spr" in
      if eqb protocol "https" then Err "HTTPS-only SAS tokens are not supported by this HTTP emulator"
      else if negb (Text.is_empty protocol || eqb protocol "https,http") then Err "Invalid SAS protocol"
      else
        canonical ← sas_resource resource (param_or_empty req "sr");
        key ← ok_or "Missing Azure shared key" (shared_key_secret config);
        if eqb (sign_hmac_base64 key (sas_string_to_sign req expires_on canonical)) signature then Ok tt
        else Err "Azure SAS signature mismatch".

Definition authorize (t t' : time) (req : Request) (config : AzureConfig) (resource : AzureResource) : option refusal_of :=
  if negb (azure_auth_enforced config) then None
  else
    match (if has_query_param req "sig" then validate_sas t t' req config resource
           else validate_shared_key t req config (ar_account resource)) with
    | Ok _ => None
    | Err msg => Some (403%N, "AuthenticationFailed", msg)
    end.

Definition create_only_sas (req : Request) : bool :=
  has_query_param req "sig" &&
  is_some_and (fun sp => Text.contains sp "c" && negb (Text.contains sp "w")) (query_param req "sp").

Definition SAS_DENIED (message : string) : refusal_of := (403%N, "AuthorizationPermissionMismatch", message).

(** The permissions of which a blob operation needs one. *)
Definition required_permissions (req : Request) (exists_ : bool) : option (list string) :=
  let comp := query_param req "comp" in
  let method := rq_method req in
  if eqb method "GET" || eqb method "HEAD" then Some ["r"]
  else if eqb method "DELETE" then
    if has_query_param req "versionid" then Some ["x"]
    else if eqb comp (Some "immutabilityPolicies") then Some ["i"] else Some ["d"]
  else if eqb method "PUT" then
    if eqb comp (Some "immutabilityPolicies") || eqb comp (Some "legalhold") then Some ["i"]
    else if eqb comp (Some "snapshot") then Some ["c"; "w"]
    else if eqb comp (Some "appendblock") then Some ["a"; "w"]
    else if eqb comp (Some "lease") && eqb (header req "x-ms-lease-action") (Some "break") then Some ["d"; "w"]
    else if negb (is_some comp) && negb exists_ then Some ["c"; "w"]
    else if (eqb comp (Some "block") || eqb comp (Some "blocklist")) && negb exists_ &&
            match service_version req with Ok v => Text.leb "2026-04-06" v | Err _ => false end then Some ["c"; "w"]
    else Some ["w"]
  else None.
End Credentials.

(** ** The adapter *)

(** The rest of what the adapter takes from the store and the system: provider
    state, staged uploads, and the directory for temporary files. *)
Class AzureUploads (S : Type) : Type := {
  au_store :: AzureStore S;
  st_object_exists : string -> string -> io S bool;
  st_get_provider_state : string -> string -> io S bytes;
  st_put_provider_state : string -> string -> bytes -> io S unit;
  st_delete_provider_state : string -> string -> io S unit;
  st_stage_upload_payload : string -> string -> string -> path -> N -> N -> io S unit;
  st_compose_upload_payloads : string -> string -> list string -> string -> string -> Object -> option ObjectCondition -> io S bool;
  st_delete_upload_session : string -> string -> io S unit;
  st_retain_upload_items : string -> string -> list string -> io S unit;
  st_temp_dir : path;
  st_write_file : path -> bytes -> io S unit;
  st_remove_file : path -> io S unit }.

(** [serde_json] on the records kept as provider state *)
Class BlockCodecs : Type := {
  session_codec : Codec AzureBlockSession;
  committed_codec : Codec (list AzureCommittedBlock) }.

#[export] Instance filesystem_uploads {M} `{SkipMap M} `{Env} `{StoreEnv} `{Digests} : AzureUploads (World M) := {|
  au_store := filesystem_azure;
  st_object_exists := object_exists;
  st_get_provider_state := get_provider_state;
  st_put_provider_state := put_provider_state;
  st_delete_provider_state := delete_provider_state;
  st_stage_upload_payload := stage_upload_payload;
  st_compose_upload_payloads := compose_upload_payloads;
  st_delete_upload_session := delete_upload_session;
  st_retain_upload_items provider session items := disk (retain_upload_items provider session items);
  st_temp_dir := [".tmp"];
  st_write_file p b := disk (create_file "io" p;; write_all "io" p b);
  st_remove_file p := disk (remove_file "io" p) |}.

Record AzureAdapter (S : Type) : Type := mkAdapter {
  ad_block_sessions : gmap string AzureBlockSession;
  ad_committed_blocks : gmap string (list AzureCommittedBlock);
  ad_store : S }.
Arguments mkAdapter {S} _ _ _.
Arguments ad_block_sessions {S} _.
Arguments ad_committed_blocks {S} _.
Arguments ad_store {S} _.

Definition AZURE_BLOCK_SESSION_STATE : string := "azure-block-session-v2".
Definition AZURE_COMMITTED_BLOCKS_STATE : string := "azure-committed-blocks-v2".

Section Adapter.
Context `{HttpLib} `{HelperEnv} `{Chrono} `{PayloadDigests} `{AzureEnv} `{Env} `{QuickXml} `{BlockXml} `{BlockCodecs} `{SigningEnv} `{HashOrder}.
Context {S : Type} `{AzureUploads S}.
Abbreviation Adapter := (AzureAdapter S).

Definition on_store {A} (p : io S A) : io Adapter A :=
  zoom ad_store (fun s a => mkAdapter (ad_block_sessions a) (ad_committed_blocks a) s) p.
Definition modify_sessions (f : gmap string AzureBlockSession -> gmap string AzureBlockSession) : io Adapter unit :=
  fun σ a => (Done tt, mkAdapter (f (ad_block_sessions a)) (ad_committed_blocks a) (ad_store a), σ).
Definition modify_committed (f : gmap string (list AzureCommittedBlock) -> gmap string (list AzureCommittedBlock)) : io Adapter unit :=
  fun σ a => (Done tt, mkAdapter (ad_block_sessions a) (f (ad_committed_blocks a)) (ad_store a), σ).

(** *** Provider state: [src/providers/state.rs] *)

Definition load_json {A} (codec : Codec A) (provider key : string) : io S (option A) :=
  r ← attempt (st_get_provider_state provider key);
  match r with
  | Ok b => a ← of_res (ok_or (InternalError "Failed to parse provider state") (dec codec b)); mret (Some a)
  | Err KeyNotFound => mret None
  | Err e => fail e
  end.
Definition save_json {A} (codec : Codec A) (provider key : string) (value : A) : io S unit :=
  st_put_provider_state provider key (enc codec value).

Definition blob_state_key (account container blob : string) : string := account +:+ "/" +:+ container +:+ "/" +:+ blob.

(** The stored session is read even when one is cached. *)
Definition load_block_session (session_key : string) : io Adapter (option AzureBlockSession) :=
  cached ← gets (fun a => ad_block_sessions a !! session_key);
  stored ← on_store (load_json session_codec AZURE_BLOCK_SESSION_STATE session_key);
  mret (match cached with Some s => Some s | None => stored end).

Definition load_committed_blocks (session_key : string) : io Adapter (list AzureCommittedBlock) :=
  cached ← gets (fun a => ad_committed_blocks a !! session_key);
  match cached with
  | Some blocks => mret blocks
  | None =>
      stored ← on_store (load_json committed_codec AZURE_COMMITTED_BLOCKS_STATE session_key);
      let blocks := default [] stored in
      modify_committed <[session_key := blocks]>;;
      mret blocks
  end.

Definition remove_block_session (session_key : string) : io Adapter unit := modify_sessions (delete session_key).

Definition clear_block_upload_state (session_key : string) : io Adapter unit :=
  remove_block_session session_key;;
  modify_committed (delete session_key);;
  on_store (st_delete_provider_state AZURE_BLOCK_SESSION_STATE session_key);;
  on_store (st_delete_provider_state AZURE_COMMITTED_BLOCKS_STATE session_key);;
  on_store (st_delete_upload_session "azure" session_key).

Definition retained_items (blocks : list AzureCommittedBlock) (remaining : AzureBlockSession) : list string :=
  (cb_item <$> blocks) ++ (sb_item <$> (map_to_list (bs_blocks remaining)).*2).

Definition record_committed_block_session (session_key : string) (blocks : list AzureCommittedBlock) (remaining : AzureBlockSession)
    : io Adapter unit :=
  modify_committed <[session_key := blocks]>;;
  on_store (save_json committed_codec AZURE_COMMITTED_BLOCKS_STATE session_key blocks);;
  (if decide (bs_blocks remaining = ∅) then
     remove_block_session session_key;;
     on_store (st_delete_provider_state AZURE_BLOCK_SESSION_STATE session_key)
   else
     on_store (save_json session_codec AZURE_BLOCK_SESSION_STATE session_key remaining);;
     modify_sessions <[session_key := remaining]>);;
  on_store (st_retain_upload_items "azure" session_key (retained_items blocks remaining)).

(** *** Staging a block *)

Definition stage_request_payload (req : Request) (session item : string) (source_offset len : N) : io S unit :=
  match rq_spooled_body req with
  | Some payload => st_stage_upload_payload "azure" session item (sp_path payload) source_offset len
  | None =>
      u ← new_uuid;
      let temporary := join st_temp_dir ("sqrzl-azure-buffered-" +:+ u +:+ ".tmp") in
      st_write_file temporary (rq_body req);;
      r ← attempt (st_stage_upload_payload "azure" session item temporary source_offset len);
      ignore (st_remove_file temporary);;
      of_res r
  end.

Definition INVALID_BLOCK_ID : refusal_of :=
  (400%N, "InvalidBlockId", "The specified block ID is invalid. The block ID must be Base64-encoded.").

(** The checks of a block against the blob it is for. *)
Definition block_target (req : Request) (container blob_key : string) : io S (option refusal_of) :=
  r ← attempt (st_get_object_metadata container blob_key);
  match r with
  | Ok existing =>
      mret (match ensure_lease_allows req existing with
            | Some r => Some r
            | None =>
                if negb (conditions_match_blob req existing) then Some condition_failed
                else if negb (eqb (blob_type existing) "BlockBlob")
                then Some (409%N, "InvalidBlobType", "The operation is not supported for this blob type.")
                else None
            end)
  | Err KeyNotFound => mret (if is_some (header req "if-match") then Some condition_failed else None)
  | Err BucketNotFound => mret (Some container_not_found)
  | Err e => fail e
  end.

(** All identifiers of a session decode to one length. *)
Definition same_length (session : AzureBlockSession) (len : nat) : bool :=
  forallb (fun id => match base64_decode id with Some d => Nat.eqb (length d) len | None => false end) (map_to_list (bs_blocks session)).*1.

Definition with_block (id : string) (b : AzureStagedBlock) (session : AzureBlockSession) : AzureBlockSession :=
  mkBlockSession (<[id := b]> (bs_blocks session)) (bs_content_type session) (bs_metadata session).

Definition put_block (req : Request) (account container blob_key : string) : io Adapter Response :=
  if (4000 * 1024 * 1024 <? payload_len req)%N
  then decline (413%N, "RequestBodyTooLarge", "The block exceeds the 4,000 MiB service limit.")
  else
    unless (validate_transactional_checksum req)
      match query_param req "blockid" with
      | None => decline INVALID_BLOCK_ID
      | Some block_id =>
          match base64_decode block_id with
          | None => decline INVALID_BLOCK_ID
          | Some decoded =>
              if Nat.eqb (length decoded) 0 || Nat.ltb 64 (length decoded) then decline INVALID_BLOCK_ID
              else
                refusal ← on_store (block_target req container blob_key);
                unless refusal
                  (let session_key := blob_state_key account container blob_key in
                   loaded ← load_block_session session_key;
                   let session := default new_session loaded in
                   if negb (same_length session (length decoded))
                   then decline (400%N, "InvalidBlockId", "All block IDs for a blob must have the same decoded length.")
                   else if negb (is_some (bs_blocks session !! block_id)) && Nat.leb (N.to_nat 100000) (size (bs_blocks session))
                   then decline (409%N, "BlockCountExceedsLimit", "The uncommitted block count exceeds the service limit.")
                   else
                     u ← new_uuid;
                     let item := "uncommitted-" +:+ u in
                     on_store (stage_request_payload req session_key item 0 (payload_len req));;
                     let session := with_block block_id (mkStagedBlock item (payload_len req)) session in
                     on_store (save_json session_codec AZURE_BLOCK_SESSION_STATE session_key session);;
                     modify_sessions <[session_key := session]>;;
                     b ← azure_response 201;
                     mret (empty (upload_checksum_response req false b)))
          end
      end.

(** *** Committing a block list *)

(** The loop over the references: the length of the identifiers and the selector
    of each identifier seen. *)
Fixpoint check_references (expected : option nat) (selectors : gmap string AzureBlockSelector) (l : list AzureBlockReference) : bool :=
  match l with
  | [] => true
  | block :: rest =>
      match base64_decode (br_id block) with
      | None => false
      | Some decoded =>
          if Nat.eqb (length decoded) 0 || is_some_and (fun n => negb (Nat.eqb n (length decoded))) expected ||
             is_some_and (fun s => negb (eqb s (br_selector block))) (selectors !! br_id block)
          then false
          else check_references (Some (default (length decoded) expected)) (<[br_id block := br_selector block]> selectors) rest
      end
  end.

(** The block a reference selects, and whether it was staged. *)
Definition resolve_block (session : AzureBlockSession) (committed : list AzureCommittedBlock) (reference : AzureBlockReference)
    : option (AzureCommittedBlock * bool) :=
  let id := br_id reference in
  let staged := (fun b => (mkCommittedBlock id (sb_item b) (sb_size b), true)) <$> (bs_blocks session !! id) in
  (* the last block of an identifier *)
  let previous := (fun b => (mkCommittedBlock id (cb_item b) (cb_size b), false)) <$>
    list.last (filter (fun b => cb_id b = id) committed) in
  match br_selector reference with
  | Uncommitted => staged
  | Committed => previous
  | Latest => match staged with Some b => Some b | None => previous end
  end.

(** The resolved blocks and the staged identifiers used, or the first unknown one. *)
Fixpoint resolve_blocks (session : AzureBlockSession) (committed : list AzureCommittedBlock) (l : list AzureBlockReference)
    : result string (list AzureCommittedBlock * gset string) :=
  match l with
  | [] => Ok ([], ∅)
  | reference :: rest =>
      '(block, used) ← ok_or (br_id reference) (resolve_block session committed reference);
      '(blocks, ids) ← resolve_blocks session committed rest;
      Ok (block :: blocks, if (used : bool) then {[br_id reference]} ∪ ids else ids)
  end.

Fixpoint total_size (blocks : list AzureCommittedBlock) (total : N) : option N :=
  match blocks with
  | [] => Some total
  | b :: rest => t ← checked_add_u64 total (cb_size b); total_size rest t
  end.

(** The checks of a block list against the blob it replaces: the condition on what
    was observed, and the blob. *)
Definition list_target (req : Request) (container blob_key : string)
    : io S (result refusal_of (ObjectCondition * option Object)) :=
  r ← attempt (st_get_object_metadata container blob_key);
  match r with
  | Ok existing =>
      bucket ← st_get_bucket container;
      t ← now; t' ← now;
      mret (match ensure_version_creating_overwrite_allowed t t' req existing (azure_versioning_enabled bucket) with
            | Some r => Err r
            | None =>
                if negb (conditions_match_blob req existing) then Err condition_failed
                else if negb (eqb (blob_type existing) "BlockBlob")
                then Err (400%N, "InvalidBlobType", "The operation is not supported for this blob type.")
                else Ok (Etag (o_etag existing), Some existing)
            end)
  | Err KeyNotFound => mret (if is_some (header req "if-match") then Err condition_failed else Ok (Missing, None))
  | Err BucketNotFound => mret (Err container_not_found)
  | Err e => fail e
  end.

(** A new blob with the content headers of the request. *)
Definition new_blob (req : Request) (blob_key : string) (data : bytes) : io S Object :=
  etag ← new_etag;
  t ← now;
  mret (new_with_metadata_and_etag t blob_key data (content_type req) (metadata_from_headers req) etag).

Definition keep_lease (existing : option Object) (o : Object) : Object :=
  match existing with Some e => preserve_active_lease e o | None => o end.

Definition CREATE_ONLY : refusal_of := SAS_DENIED "Create-only SAS cannot overwrite an existing blob.".

(** The answer about what is stored. *)
Definition created_response (req : Request) (container blob_key : string) (finish : Object -> ResponseBuilder -> ResponseBuilder)
    : io S Response :=
  stored ← st_get_object_metadata container blob_key;
  b ← azure_response 201;
  mret (empty (finish stored (with_identity stored b))).
Definition with_version (o : Object) (b : ResponseBuilder) : ResponseBuilder :=
  match o_version_id o with Some v => with_header "x-ms-version-id" v b | None => b end.

Definition commit_block_list (req : Request) (session_key container blob_key : string) (request_condition : option ObjectCondition)
    (observed : ObjectCondition) (existing : option Object) (references : list AzureBlockReference) : io Adapter Response :=
  loaded ← load_block_session session_key;
  let session := default new_session loaded in
  committed ← load_committed_blocks session_key;
  match resolve_blocks session committed references with
  | Err id => decline (400%N, "InvalidBlockList", "The block list contains unknown block ID " +:+ id +:+ ".")
  | Ok (blocks, used) =>
      match total_size blocks 0 with
      | None => decline (409%N, "BlockCountExceedsLimit", "The committed block list exceeds the maximum blob size.")
      | Some total =>
          object ← on_store (new_blob req blob_key []);
          let object := keep_lease existing (set_content_properties req (set_blob_type "BlockBlob" (with_size total object))) in
          let condition := if create_only_sas req then Missing else default observed request_condition in
          written ← on_store (st_compose_upload_payloads "azure" session_key (cb_item <$> blocks) container blob_key object (Some condition));
          if negb written then decline (if create_only_sas req then CREATE_ONLY else condition_failed)
          else
            let remaining := mkBlockSession (filter (fun e => e.1 ∉ used) (bs_blocks session)) (bs_content_type session) (bs_metadata session) in
            record_committed_block_session session_key blocks remaining;;
            on_store (created_response req container blob_key
              (fun stored b => upload_checksum_response req false (with_version stored b)))
      end
  end.

Definition put_block_list (req : Request) (account container blob_key : string) : io Adapter Response :=
  unless (validate_transactional_checksum req)
    match Utf8.from_utf8 (rq_body req) with
    | None => decline (invalid_block_list_response InvalidXmlDocument)
    | Some xml =>
        match parse_block_list xml with
        | Err e => decline (invalid_block_list_response e)
        | Ok references =>
            if Nat.ltb (N.to_nat 50000) (length references)
            then decline (409%N, "BlockCountExceedsLimit", "The committed block count exceeds the service limit.")
            else if negb (check_references None ∅ references) then decline (invalid_block_list_response InvalidBlockList)
            else
              match write_condition req with
              | Err r => decline r
              | Ok request_condition =>
                  target ← on_store (list_target req container blob_key);
                  match target with
                  | Err r => decline r
                  | Ok (observed, existing) =>
                      commit_block_list req (blob_state_key account container blob_key) container blob_key request_condition
                        observed existing references
                  end
              end
        end
    end.

(** *** The block list of a blob *)

Definition block_xml (id : string) (n : N) : string :=
  "<Block><Name>" +:+ escape_xml id +:+ "</Name><Size>" +:+ pretty n +:+ "</Size></Block>".

Definition block_list_xml (committed : list AzureCommittedBlock) (uncommitted : list (string * AzureStagedBlock))
    (include_committed include_uncommitted : bool) : string :=
  "<?xml version=" +:+ quoted "1.0" +:+ " encoding=" +:+ quoted "utf-8" +:+ "?><BlockList>" +:+
  (if include_committed
   then "<CommittedBlocks>" +:+ Text.join_text "" ((fun b => block_xml (cb_id b) (cb_size b)) <$> committed) +:+ "</CommittedBlocks>" else "") +:+
  (if include_uncommitted
   then "<UncommittedBlocks>" +:+ Text.join_text "" ((fun b => block_xml b.1 (sb_size b.2)) <$> uncommitted) +:+ "</UncommittedBlocks>" else "") +:+
  "</BlockList>".

Definition block_le (a b : string * AzureStagedBlock) : Prop := String.le a.1 b.1.
#[global] Instance block_le_dec a b : Decision (block_le a b).
Proof. unfold block_le. apply _. Defined.

Definition get_block_list (req : Request) (account container blob_key : string) : io Adapter Response :=
  if has_query_param req "snapshot" || has_query_param req "versionid"
  then decline (501%N, "FeatureNotSupported", "Snapshot and version-scoped block lists are not implemented by the emulator.")
  else
    let selector := default "committed" (query_param req "blocklisttype") in
    if negb (existsb (eqb selector) ["committed"; "uncommitted"; "all"])
    then decline (400%N, "InvalidQueryParameterValue", "The value for blocklisttype is invalid.")
    else
      let session_key := blob_state_key account container blob_key in
      committed ← load_committed_blocks session_key;
      session ← load_block_session session_key;
      r ← on_store (attempt (st_get_object_metadata container blob_key));
      match r with
      | Err BucketNotFound => decline container_not_found
      | Err KeyNotFound | Ok _ =>
          let existing := match r with Ok o => Some o | Err _ => None end in
          unless
            (match existing with
             | Some o =>
                 if negb (eqb (blob_type o) "BlockBlob")
                 then Some (400%N, "InvalidBlobType", "The operation is not supported for this blob type.")
                 else if negb (conditions_match_blob req o) then Some condition_failed
                 else ensure_lease_allows req o
             | None => if eqb selector "committed" || negb (is_some session) then Some blob_not_found else None
             end)
            (let include_committed := eqb selector "committed" || eqb selector "all" in
             let include_uncommitted := eqb selector "uncommitted" || eqb selector "all" in
             let shown_blocks := if include_committed then committed else [] in
             let uncommitted := if include_uncommitted then merge_sort block_le (map_to_list (bs_blocks (default new_session session))) else [] in
             let body := block_list_xml shown_blocks uncommitted include_committed include_uncommitted in
             b ← azure_response 200;
             let b := with_header "x-ms-blob-content-length" (pretty (default 0%N (o_size <$> existing))) (with_content_type "application/xml" b) in
             let b := match committed, existing with _ :: _, Some o => with_identity o b | _, _ => b end in
             mret (build (with_body (as_bytes body) b)))
      | Err e => fail e
      end.

(** *** Uploads *)

Definition page_blob_declared_len (req : Request) : N :=
  default 0%N (header req "x-ms-blob-content-length" ≫= Text.parse_u64).

Definition validate_blob_create_request (req : Request) : option refusal_of :=
  match header req "x-ms-blob-type" with
  | None => Some (400%N, "MissingRequiredHeader", "The x-ms-blob-type header is required.")
  | Some t =>
      if negb (existsb (eqb t) ["BlockBlob"; "PageBlob"; "AppendBlob"])
      then Some (400%N, "InvalidHeaderValue", "The x-ms-blob-type header value is invalid.")
      else if (eqb t "PageBlob" || eqb t "AppendBlob") && negb (N.eqb (payload_len req) 0)
      then Some (400%N, "InvalidHeaderValue", "Page and append blob creation requests must have an empty body.")
      else if negb (eqb t "PageBlob") then
        if is_some (header req "x-ms-blob-content-length")
        then Some (400%N, "InvalidHeaderValue", "The x-ms-blob-content-length header is valid only for page blobs.")
        else None
      else
        match header req "x-ms-blob-content-length" with
        | None => Some (400%N, "MissingRequiredHeader", "The x-ms-blob-content-length header is required for page blobs.")
        | Some raw =>
            match Text.parse_u64 raw with
            | None => Some (400%N, "InvalidHeaderValue", "The x-ms-blob-content-length header value is invalid.")
            | Some length =>
                if (AZURE_NATIVE_MAX_PAGE_BLOB_BYTES <? length)%N
                then Some (400%N, "InvalidHeaderValue", "Page blob extent exceeds the native 8 TiB maximum.")
                else if (AZURE_MAX_MATERIALIZED_MUTATION_BYTES <? length)%N then Some materialized_extent_unsupported
                else if N.eqb (length mod 512) 0 then None
                else Some (400%N, "InvalidHeaderValue", "Page blob length must be a multiple of 512 bytes.")
            end
        end
  end.

(** The type is validated first; [expect] on its header does not fail then. *)
Definition blob_for_type (req : Request) (blob_key : string) : io S Object :=
  let t := default "" (header req "x-ms-blob-type") in
  object ← (if is_some (rq_spooled_body req) && eqb t "BlockBlob"
            then object ← new_blob req blob_key []; mret (with_size (payload_len req) object)
            else new_blob req blob_key
                   (if eqb t "PageBlob" then replicate (N.to_nat (page_blob_declared_len req)) x00 else rq_body req));
  mret (set_content_properties req (set_blob_type t object)).

(** The blob a put replaces, or why it is refused. *)
Definition put_target (req : Request) (container blob_key : string) : io S (result refusal_of (option Object)) :=
  r ← attempt (st_get_object_metadata container blob_key);
  match r with
  | Ok existing =>
      bucket ← st_get_bucket container;
      t ← now; t' ← now;
      mret (match ensure_version_creating_overwrite_allowed t t' req existing (azure_versioning_enabled bucket) with
            | Some r => Err r
            | None => Ok (Some existing)
            end)
  | Err KeyNotFound => mret (if is_some (header req "if-match") then Err condition_failed else Ok None)
  | Err BucketNotFound => mret (Err container_not_found)
  | Err e => fail e
  end.

Definition write_blob (req : Request) (container blob_key : string) (object : Object) (condition : option ObjectCondition) : io S bool :=
  let streamed := match rq_spooled_body req with
                  | Some p => if eqb (header req "x-ms-blob-type") (Some "BlockBlob") then Some (sp_path p) else None
                  | None => None
                  end in
  match streamed, condition with
  | Some p, Some c => st_put_object_streamed_if container blob_key object p c
  | Some p, None => st_put_object_streamed container blob_key object p;; mret true
  | None, Some c => st_put_object_if container blob_key object c
  | None, None => st_put_object container blob_key object;; mret true
  end.

Definition put_blob (req : Request) (account container blob_key : string) (snapshot : option string) : io Adapter Response :=
  if is_some snapshot then decline (400%N, "InvalidQueryParameterValue", "Snapshots are read-only.")
  else
    target ← on_store (put_target req container blob_key);
    match target with
    | Err r => decline r
    | Ok existing =>
        unless (validate_blob_create_request req)
          (if (5000 * 1024 * 1024 <? payload_len req)%N
           then decline (413%N, "RequestBodyTooLarge", "The request exceeds the 5,000 MiB Put Blob service limit.")
           else
             unless (validate_transactional_checksum req)
               (object ← on_store (blob_for_type req blob_key);
                let object := keep_lease existing object in
                match write_condition req with
                | Err r => decline r
                | Ok condition =>
                    let condition := if create_only_sas req then Some Missing else condition in
                    written ← on_store (write_blob req container blob_key object condition);
                    if negb written then decline (if create_only_sas req then CREATE_ONLY else condition_failed)
                    else
                      clear_block_upload_state (blob_state_key account container blob_key);;
                      on_store (created_response req container blob_key (fun stored b =>
                        let b := with_version stored (with_header "x-ms-blob-type" (blob_type stored) b) in
                        if eqb (blob_type stored) "BlockBlob" then upload_checksum_response req true b else b))
                end))
    end.

(** *** Reads *)

Definition lookup_blob_metadata (container blob_key : string) (snapshot version_id : option string) : io S Object :=
  match version_id with
  | Some v => st_get_object_version_metadata container blob_key v
  | None => st_get_object_metadata container (match snapshot with Some s => snapshot_storage_key blob_key s | None => blob_key end)
  end.

Definition azure_history_visible (container : string) : io S bool :=
  r ← attempt (st_get_bucket container);
  mret (match r with Ok b => azure_history_mode b && negb (foreign_history_mode b) | Err _ => false end).
Definition azure_history_conflict (container : string) : io S bool :=
  r ← attempt (st_get_bucket container);
  mret (match r with
        | Ok b => foreign_history_mode b || b_versioning_enabled b && negb (azure_history_mode b)
        | Err _ => false
        end).

Definition is_current_version (container blob_key : string) (selected : Object) : io S (option bool) :=
  match o_version_id selected with
  | None => mret None
  | Some v =>
      r ← attempt (st_get_object_metadata container blob_key);
      mret (Some (match r with Ok current => eqb (o_version_id current) (Some v) | Err _ => false end))
  end.

Definition with_optional (name : string) (v : option string) (b : ResponseBuilder) : ResponseBuilder :=
  match v with Some v => with_header name v b | None => b end.

Definition blob_response (status : N) (blob : Object) (body_len : N) (content_range : option string) (is_current : option bool)
    (expose_version_id : bool) : io S ResponseBuilder :=
  b ← azure_response status;
  let b := with_header "x-ms-blob-type" (blob_type blob)
    (with_identity blob (with_header "content-type" (o_content_type blob)
      (with_header "content-length" (pretty body_len) (with_header "accept-ranges" "bytes" b)))) in
  let b := with_optional "x-ms-snapshot" (provider_value blob AZURE_SNAPSHOT_TIME_KEY) b in
  let b := with_optional "x-ms-immutability-policy-until-date" (provider_value blob AZURE_IMMUTABILITY_UNTIL_KEY) b in
  let b := with_optional "x-ms-immutability-policy-mode" (provider_value blob AZURE_IMMUTABILITY_MODE_KEY) b in
  let b := with_optional "x-ms-legal-hold" (provider_value blob AZURE_LEGAL_HOLD_KEY) b in
  let b := with_header "x-ms-lease-state" (lease_state blob) (with_header "x-ms-lease-status" (lease_status blob) b) in
  let b := match o_version_id blob with
           | Some v => if expose_version_id && negb (is_some (provider_value blob AZURE_SNAPSHOT_TIME_KEY))
                       then with_header "x-ms-is-current-version" (if default false is_current then "true" else "false")
                              (with_header "x-ms-version-id" v b)
                       else b
           | None => b
           end in
  let b := with_optional "x-ms-lease-duration" (lease_duration blob) b in
  let b := foldl (fun b p => with_optional p.1 (provider_value blob p.2) b) b AZURE_CONTENT_PROPERTIES in
  let b := foldl (fun b e => with_header ("x-ms-meta-" +:+ e.1) e.2 b) b (hash_order (map_to_list (o_metadata blob))) in
  mret (with_optional "content-range" content_range b).

Definition RANGE_NOT_SATISFIABLE : refusal_of := (416%N, "InvalidRange", "The requested range is not satisfiable.").

(** The first and last byte a read selects. *)
Definition selected_bytes (req : Request) (size : N) : option (N * N) :=
  match requested_range req with
  | Some range => parse_range_header range size
  | None => Some (0, size - 1)%N
  end.
Definition selected_length (size start stop : N) : N := if N.eqb size 0 then 0 else (stop - start + 1)%N.

Definition capped_end (req : Request) (start : N) : N :=
  let limit_end := saturating_add_u64 start (AZURE_MAX_MATERIALIZED_MUTATION_BYTES - 1) in
  let requested := range ← requested_range req; r ← Text.strip_prefix range "bytes="; '(_, e) ← Text.split_once "-" r; Text.parse_u64 e in
  match requested with Some e => N.min e limit_end | None => limit_end end.

Definition missing_blob (e : Error) : bool :=
  match e with KeyNotFound | NoSuchVersion | BucketNotFound => true | _ => false end.

(** The blob and the bytes of a read; [inl] is the response instead. *)
Definition read_blob (req : Request) (container blob_key : string) (snapshot version : option string) (initial : Object) (start len : N)
    : io S (Response + (Object * bytes)) :=
  if N.eqb len 0 then mret (inr (initial, []))
  else
    r ← attempt (match version with
                 | Some v => st_get_object_version_range container blob_key v start (Some (capped_end req start))
                 | None => st_get_object_range container (match snapshot with Some s => snapshot_storage_key blob_key s | None => blob_key end)
                             start (Some (capped_end req start))
                 end);
    match r with
    | Err (InvalidRequest _) => response ← decline RANGE_NOT_SATISFIABLE; mret (inl response)
    | Err e => if missing_blob e then response ← decline blob_not_found; mret (inl response) else fail e
    | Ok (blob, data) =>
        condition ← read_condition_response req blob;
        match condition with
        | Some response => mret (inl response)
        | None =>
            match selected_bytes req (o_size blob) with
            | None => response ← decline condition_failed; mret (inl response)
            | Some (actual_start, actual_stop) =>
                let actual_len := selected_length (o_size blob) actual_start actual_stop in
                if (AZURE_MAX_MATERIALIZED_MUTATION_BYTES <? actual_len)%N || negb (N.eqb actual_len (size_of data)) ||
                   negb (N.eqb actual_start start)
                then response ← decline materialized_extent_unsupported; mret (inl response)
                else mret (inr (blob, data))
            end
        end
    end.

(** The version headers of an answer. *)
Definition version_exposure (container blob_key : string) (blob : Object) : io S (bool * option bool) :=
  visible ← azure_history_visible container;
  current ← (if (visible : bool) then is_current_version container blob_key blob else mret None);
  mret (visible, current).

Definition get_blob (req : Request) (container blob_key : string) (snapshot : option string) : io S Response :=
  let version := query_param req "versionid" in
  r ← attempt (lookup_blob_metadata container blob_key snapshot version);
  match r with
  | Err e => if missing_blob e then decline blob_not_found else fail e
  | Ok initial =>
      condition ← read_condition_response req initial;
      match condition with
      | Some response => mret response
      | None =>
          match selected_bytes req (o_size initial) with
          | None => decline RANGE_NOT_SATISFIABLE
          | Some (start, stop) =>
              let len := selected_length (o_size initial) start stop in
              if (AZURE_MAX_MATERIALIZED_MUTATION_BYTES <? len)%N then decline materialized_extent_unsupported
              else
                read ← read_blob req container blob_key snapshot version initial start len;
                match read with
                | inl response => mret response
                | inr (blob, data) =>
                    exposure ← version_exposure container blob_key blob;
                    let ranged := is_some (requested_range req) in
                    let content_range :=
                      if ranged then Some ("bytes " +:+ pretty start +:+ "-" +:+ pretty (start + (size_of data - 1))%N +:+ "/" +:+ pretty (o_size blob))
                      else None in
                    b ← blob_response (if ranged then 206 else 200) blob (size_of data) content_range exposure.2 exposure.1;
                    mret (build (with_body data b))
                end
          end
      end
  end.

Definition head_blob (req : Request) (container blob_key : string) (snapshot : option string) : io S Response :=
  r ← attempt (lookup_blob_metadata container blob_key snapshot (query_param req "versionid"));
  match r with
  | Err e =>
      if missing_blob e then b ← azure_response 404; mret (empty (with_header "x-ms-error-code" "BlobNotFound" b)) else fail e
  | Ok blob =>
      condition ← read_condition_response req blob;
      match condition with
      | Some response => mret response
      | None =>
          exposure ← version_exposure container blob_key blob;
          b ← blob_response 200 blob (o_size blob) None exposure.2 exposure.1;
          mret (empty b)
      end
  end.

(** *** Deletions *)

(** The snapshots of a blob, page by page; [pages] bounds the pages read. *)
Fixpoint snapshot_pages (pages : nat) (container prefix : string) (marker : option string) : io S (list string) :=
  match pages with
  | O => fail (InternalError "pages")
  | Datatypes.S pages =>
      result ← st_list_objects container (Some prefix) None marker (Some 1000%N);
      let keys := o_key <$> l_objects result in
      match l_next_marker result with
      | None => mret keys
      | Some next => more ← snapshot_pages pages container prefix (Some next); mret (keys ++ more)
      end
  end.
Definition snapshot_keys (pages : nat) (container blob_key : string) : io S (list string) :=
  snapshot_pages pages container (AZURE_SNAPSHOT_PREFIX +:+ "/" +:+ base64_url_no_pad (as_bytes blob_key) +:+ "/") None.

Definition delete_snapshots (container : string) (keys : list string) : io S unit :=
  for_each (st_delete_object container) keys.

Definition VERSION_NOT_FOUND : refusal_of := (404%N, "BlobNotFound", "The specified blob version does not exist.").

Definition delete_version (req : Request) (container blob_key version_id : string) : io S Response :=
  r ← attempt (st_get_object_version_metadata container blob_key version_id);
  match r with
  | Err e => if missing_blob e then decline VERSION_NOT_FOUND else fail e
  | Ok version =>
      when_mutable req version
        (when_matching req version
          (r ← attempt (st_delete_object_version container blob_key version_id);
           match r with
           | Ok _ => empty_response 202
           | Err NoSuchVersion => decline VERSION_NOT_FOUND
           | Err e => fail e
           end))
  end.

Definition delete_snapshot (req : Request) (container blob_key snapshot : string) : io S Response :=
  let snapshot_key := snapshot_storage_key blob_key snapshot in
  found ← find_blob container snapshot_key;
  match found with
  | None => decline (404%N, "BlobNotFound", "The specified blob snapshot does not exist.")
  | Some selected =>
      when_mutable req selected
        (when_matching req selected
          (deleted ← st_delete_object_if container snapshot_key (Etag (o_etag selected));
           if negb deleted then decline condition_failed else empty_response 202))
  end.

(** [BlobBackend::delete_blob] is [delete_object]. *)
Definition delete_current (req : Request) (container blob_key : string) (condition : option ObjectCondition) : io S bool :=
  match condition with
  | Some c => st_delete_object_if container blob_key c
  | None => st_delete_object container blob_key;; mret true
  end.

Definition delete_blob (pages : nat) (req : Request) (account container blob_key : string) (snapshot : option string) : io Adapter Response :=
  match query_param req "versionid", snapshot with
  | Some version_id, _ => on_store (delete_version req container blob_key version_id)
  | None, Some snapshot => on_store (delete_snapshot req container blob_key snapshot)
  | None, None =>
      found ← on_store (find_blob container blob_key);
      match found with
      | None => decline blob_not_found
      | Some blob =>
          t ← now;
          unless (ensure_mutation_allowed t req blob)
            (snapshots ← on_store (snapshot_keys pages container blob_key);
             let mode := header req "x-ms-delete-snapshots" in
             if negb (match snapshots with [] => true | _ => false end) && negb (is_some mode)
             then decline (409%N, "SnapshotsPresent", "This operation is not permitted because the blob has snapshots.")
             else if is_some_and (fun m => negb (eqb m "include" || eqb m "only")) mode
             then decline (400%N, "InvalidHeaderValue", "The x-ms-delete-snapshots header must be include or only.")
             else if eqb mode (Some "only") then
               if negb (conditions_match_blob req blob) then decline condition_failed
               else on_store (delete_snapshots container snapshots);; empty_response 202
             else
               match write_condition req with
               | Err r => decline r
               | Ok condition =>
                   deleted ← on_store (delete_current req container blob_key condition);
                   if negb deleted then decline condition_failed
                   else
                     on_store (delete_snapshots container snapshots);;
                     clear_block_upload_state (blob_state_key account container blob_key);;
                     empty_response 202
               end)
      end
  end.

(** *** Dispatch *)

Definition handle_blob_crud (pages : nat) (req : Request) (resource : AzureResource) (container blob_key : string) : io Adapter Response :=
  let snapshot := query_param req "snapshot" in
  let method := rq_method req in
  if is_some snapshot && has_query_param req "versionid"
  then decline (400%N, "InvalidQueryParameterValue", "The snapshot and versionid parameters cannot be specified together.")
  else if eqb method "PUT" then put_blob req (ar_account resource) container blob_key snapshot
  else if eqb method "GET" then on_store (get_blob req container blob_key snapshot)
  else if eqb method "HEAD" then on_store (head_blob req container blob_key snapshot)
  else if eqb method "DELETE" then delete_blob pages req (ar_account resource) container blob_key snapshot
  else decline (405%N, "UnsupportedHttpVerb", "Unsupported Azure blob operation").

Definition handle_blob_comp_request (pages : nat) (req : Request) (resource : AzureResource) (container blob_key : string) : io Adapter Response :=
  let put := eqb (rq_method req) "PUT" in
  match query_param req "comp" with
  | None => handle_blob_crud pages req resource container blob_key
  | Some comp =>
      if put && eqb comp "block" then put_block req (ar_account resource) container blob_key
      else if put && eqb comp "blocklist" then put_block_list req (ar_account resource) container blob_key
      else if put && eqb comp "metadata" then on_store (update_metadata req container blob_key)
      else if eqb (rq_method req) "GET" && eqb comp "blocklist" then get_block_list req (ar_account resource) container blob_key
      else if put && eqb comp "appendblock" then on_store (append_block req container blob_key)
      else if put && eqb comp "page" then on_store (put_page req container blob_key)
      else decline (501%N, "FeatureNotSupported", "This Azure blob subresource is not implemented by the emulator.")
  end.

Definition authorize_sas_operation (req : Request) (resource : AzureResource) : io S (option refusal_of) :=
  if negb (has_query_param req "sig") then mret None
  else
    let permitted (required : list string) :=
      if existsb (fun p => Text.contains (param_or_empty req "sp") p) required then None
      else Some (SAS_DENIED "SAS token does not grant the permission required by this operation.") in
    match ar_blob resource with
    | Some blob =>
        if eqb (query_param req "restype") (Some "container") then
          mret (if eqb (rq_method req) "GET" && eqb (query_param req "comp") (Some "list") && eqb (query_param req "sr") (Some "c")
                then permitted ["l"]
                else Some (SAS_DENIED "A service SAS cannot authorize container management or container properties."))
        else
          r ← attempt (st_object_exists (default "" (ar_container resource)) blob);
          mret (match r with
                | Err e => Some (500%N, "InternalError", display e)
                | Ok exists_ =>
                    match required_permissions req exists_ with
                    | Some required => permitted required
                    | None => Some (SAS_DENIED "SAS token does not permit this operation.")
                    end
                end)
    | None =>
        mret (if eqb (rq_method req) "GET" && eqb (query_param req "comp") (Some "list") && eqb (query_param req "sr") (Some "c")
              then permitted ["l"]
              else Some (SAS_DENIED "A service SAS cannot authorize container management or container properties."))
    end.

Definition is_immutability_comp (comp : option string) : bool := eqb comp (Some "immutabilityPolicies").

Definition handle_blob_request (pages : nat) (req : Request) (resource : AzureResource) (container blob_key : string) : io Adapter Response :=
  unless (unsupported_selected_mutation req)
    (let put := eqb (rq_method req) "PUT" in
     if put && is_some (header req "x-ms-copy-source")
     then decline (501%N, "FeatureNotSupported", "Azure copy operations are not implemented by this emulator.")
     else
       denied ← on_store (authorize_sas_operation req resource);
       unless denied
         (let comp := query_param req "comp" in
          if put && eqb comp (Some "lease") then on_store (handle_lease req container blob_key)
          else if put && eqb comp (Some "snapshot") then on_store (create_snapshot req container blob_key)
          else if put && is_immutability_comp comp then on_store (put_immutability_policy req container blob_key)
          else if eqb (rq_method req) "DELETE" && is_immutability_comp comp
          then on_store (delete_immutability_policy req container blob_key)
          else if put && eqb comp (Some "legalhold") then on_store (put_legal_hold req container blob_key)
          else handle_blob_comp_request pages req resource container blob_key)).
End Adapter.
