(* ===== verification/AzureContainers.v ===== *)
(** * AzureContainers: containers and whole requests at the Azure front door

    Containers, their listings, their delayed deletion, and [handle] with the checks
    before it ([src/providers/azure.rs]); the origin of a request
    ([src/utils/request.rs]).  Loops over pages read at most [pages] pages, and a scan
    for protected blobs reads the clock once a page. *)

From Stdlib Require Import Ascii Strings.Byte.
From stdpp Require Import pretty sorting.
From S2P Require Import Prelude Text Models Utf8 Validation Policy SkipMap Index FsModel Publication Lifecycle.
From S2P Require Import Storage Versions Listing Multipart LifecycleExecutor Http Checksums ObjectHelpers Routing.
From S2P Require Import Cors ObjectHandlers Signatures BucketRequests Startup Azure AzureBlobs.

(** [http::Uri]: the scheme and the authority of an origin *)
Class OriginEnv : Type := { parse_origin : string -> option (option string * option string) }.

(** ** The origin of a request *)

Section Origin.
Context `{HttpLib} `{OriginEnv}.

Definition normalize_origin (origin : string) : option string :=
  if Text.eq_ignore_ascii_case origin "null" then None
  else
    '(scheme, authority) ← parse_origin origin;
    s ← scheme; a ← authority; Some (s +:+ "://" +:+ a).

Definition nonempty (s : string) : option string := if Text.is_empty s then None else Some s.

Definition first_header_value (req : Request) (name : string) : option string :=
  value ← header req name; nonempty (Text.trim (default value (head (Text.split "," value)))).

Fixpoint find_directive (key : string) (parts : list string) : option string :=
  match parts with
  | [] => None
  | part :: rest =>
      match Text.split_once "=" (Text.trim part) with
      | Some (name, value) =>
          if Text.eq_ignore_ascii_case (Text.trim name) key then Some (trim_quotes (Text.trim value)) else find_directive key rest
      | None => find_directive key rest
      end
  end.
Definition forwarded_directive (value key : string) : option string :=
  first ← head (Text.split "," value);
  found ← find_directive key (Text.split ";" first);
  nonempty found.

Definition request_scheme (req : Request) : string :=
  match (header req "forwarded" ≫= fun v => forwarded_directive v "proto") with
  | Some value => value
  | None =>
      match (match first_header_value req "x-forwarded-proto" with Some v => Some v | None => first_header_value req "x-forwarded-scheme" end) with
      | Some value => value
      | None =>
          if is_some_and (fun v => existsb (eqb (Text.to_ascii_lowercase (Text.trim v))) ["on"; "1"; "true"; "yes"]) (header req "x-forwarded-ssl")
          then "https" else "http"
      end
  end.

Definition is_default_port (scheme port : string) : bool := eqb (scheme, port) ("http", "80") || eqb (scheme, port) ("https", "443").

Definition append_forwarded_port (authority : string) (req : Request) (scheme : string) : string :=
  if Text.contains authority ":" || Text.starts_with authority "[" then authority
  else match first_header_value req "x-forwarded-port" with
       | None => authority
       | Some port => if is_default_port scheme port then authority else authority +:+ ":" +:+ port
       end.

Definition request_authority (req : Request) (scheme : string) : string :=
  match (header req "forwarded" ≫= fun v => forwarded_directive v "host") with
  | Some authority => append_forwarded_port authority req scheme
  | None =>
      match (match first_header_value req "x-forwarded-host" with Some v => Some v | None => first_header_value req "host" end) with
      | Some authority => append_forwarded_port authority req scheme
      | None => "localhost"
      end
  end.

Definition request_origin (req : Request) : string :=
  match header req "origin" ≫= normalize_origin with
  | Some origin => origin
  | None => let scheme := request_scheme req in scheme +:+ "://" +:+ request_authority req scheme
  end.
End Origin.

(** ** Containers *)

Record AzureContainerDeletion : Type := mkContainerDeletion { cd_purge_after : time }.
Class ContainerCodec : Type := { deletion_codec : Codec AzureContainerDeletion }.
Definition AZURE_CONTAINER_DELETION_STATE : string := "azure-container-deletion".
Definition DEFAULT_AZURE_CONTAINER_DELETE_DELAY_MS : Z := 30000.
Definition MILLISECOND : Z := 1000000.

Inductive AzureListEntry : Type := ListedBlob (o : Object) | ListedPrefix (prefix : string).
Definition entry_name (e : AzureListEntry) : string :=
  match e with ListedBlob o => o_key o | ListedPrefix p => p end.

Section Containers.
Context `{HttpLib} `{OriginEnv} `{HelperEnv} `{Chrono} `{PayloadDigests} `{AzureEnv} `{Env} `{QuickXml} `{BlockXml}.
Context `{BlockCodecs} `{ContainerCodec} `{SigningEnv} `{HashOrder} `{Digests}.
Context {S : Type} `{AzureUploads S} `{BucketOps S}.

Definition alphanumeric (a : ascii) : bool := ascii_letter a || is_some (Text.digit a).

Definition valid_container_name (name : string) : bool :=
  let chars := String.list_ascii_of_string name in
  eqb name "$root" ||
  (3 <=? Text.len name)%N && (Text.len name <=? 63)%N &&
  is_some_and alphanumeric (head chars) && is_some_and alphanumeric (list.last chars) &&
  forallb (fun a => in_ranges [(97, 122)]%N (N_of_ascii a) || is_some (Text.digit a) || eqb a "-"%char) chars &&
  negb (Text.contains name "--").

Definition requested_local_retention_modes (req : Request) : result refusal_of (bool * option N) :=
  versioning ← match header req "x-sqrzl-azure-versioning-enabled" with
               | None => Ok false
               | Some v => if eqb v "false" then Ok false else if eqb v "true" then Ok true
                           else Err (400%N, "InvalidHeaderValue", "The local Azure versioning selector must be true or false.")
               end;
  days ← match header req "x-sqrzl-azure-soft-delete-days" with
         | None => Ok None
         | Some v =>
             match Text.parse_u64 v with
             | Some d => if (1 <=? d)%N && (d <=? 365)%N then Ok (Some d)
                         else Err (400%N, "InvalidHeaderValue", "The local Azure soft-delete period must be between 1 and 365 days.")
             | None => Err (400%N, "InvalidHeaderValue", "The local Azure soft-delete period must be between 1 and 365 days.")
             end
         end;
  Ok (versioning, days).

Definition max_results (req : Request) : result refusal_of N :=
  match query_param req "maxresults" with
  | None => Ok 5000%N
  | Some raw =>
      match Text.parse_u64 raw with
      | None => Err (400%N, "InvalidQueryParameterValue", "The value for maxresults is invalid.")
      | Some v => if N.eqb v 0 then Err (400%N, "InvalidQueryParameterValue", "The value for maxresults must be greater than zero.")
                  else Ok (N.min v 5000)
      end
  end.

(** [compute_etag] of [src/utils/headers.rs] over the name and the time *)
Definition namespace_tag (b : Bucket) : string := md5_hex (as_bytes (b_name b +:+ ":" +:+ to_rfc3339 (b_modified_at b))).
Definition namespace_etag (b : Bucket) : string := quoted (namespace_tag b).

Definition namespace_response (status : N) (b : Bucket) : io S ResponseBuilder :=
  r ← azure_response status;
  mret (with_header "last-modified" (http_date (b_modified_at b)) (with_header "etag" (namespace_etag b) r)).

Definition namespace_conditions_match (req : Request) (b : Bucket) : bool := etags_match req (namespace_tag b).

Definition container_not_found_for_request (req : Request) : io S Response :=
  if eqb (rq_method req) "HEAD" then b ← azure_response 404; mret (empty (with_header "x-ms-error-code" "ContainerNotFound" b))
  else decline container_not_found.

(** *** Protected data of a container *)

Fixpoint immutable_pages (pages : nat) (container : string) (marker : option string) (seen : gset string) : io S bool :=
  match pages with
  | O => fail (InternalError "pages")
  | Datatypes.S pages =>
      page ← st_list_objects container None None marker (Some 1000%N);
      t ← now;
      if existsb (is_immutable t) (l_objects page) then mret true
      else
        match l_next_marker page with
        | None => mret false
        | Some next =>
            if decide (next ∈ seen) then fail (InternalError "Azure WORM scan received a repeated object marker")
            else immutable_pages pages container (Some next) ({[next]} ∪ seen)
        end
  end.

Definition container_has_immutable_blob (pages : nat) (container : string) : io S bool :=
  found ← immutable_pages pages container None ∅;
  if (found : bool) then mret true
  else
    versions ← st_list_object_versions container None;
    t ← now;
    mret (existsb (is_immutable t) versions).

(** *** Delayed deletion *)

Fixpoint purge_objects (pages : nat) (container : string) : io S unit :=
  match pages with
  | O => fail (InternalError "pages")
  | Datatypes.S pages =>
      page ← st_list_objects container None None None (Some 1000%N);
      match l_objects page with
      | [] => mret tt
      | objects => for_each (fun o => st_delete_object container (o_key o)) objects;; purge_objects pages container
      end
  end.

(** [delete_namespace] is [delete_bucket]. *)
Definition purge_container (pages : nat) (container : string) : io S unit :=
  st_suspend_versioning container;;
  purge_objects pages container;;
  versions ← st_list_object_versions container None;
  for_each (fun v => match o_version_id v with
                     | Some id => st_delete_object_version container (o_key v) id
                     | None => mret tt
                     end) versions;;
  st_delete_bucket container.

Definition finish_expired_container_deletion (pages : nat) (container : string) : io S bool :=
  pending ← load_json deletion_codec AZURE_CONTAINER_DELETION_STATE container;
  match pending with
  | None => mret false
  | Some deletion =>
      t ← now;
      if (t <? cd_purge_after deletion)%Z then mret false
      else
        immutable ← container_has_immutable_blob pages container;
        if (immutable : bool) then
          st_delete_provider_state AZURE_CONTAINER_DELETION_STATE container;; mret false
        else
          r ← attempt (purge_container pages container);
          match r with
          | Ok _ | Err BucketNotFound => st_delete_provider_state AZURE_CONTAINER_DELETION_STATE container;; mret true
          | Err e => fail e
          end
  end.

Definition resolve_container_deletion (pages : nat) (req : Request) (container : string) : io S (option Response) :=
  finished ← finish_expired_container_deletion pages container;
  if (finished : bool) then mret None
  else
    pending ← load_json deletion_codec AZURE_CONTAINER_DELETION_STATE container;
    match pending with
    | None => mret None
    | Some _ =>
        response ← (if eqb (rq_method req) "PUT" && eqb (query_param req "restype") (Some "container")
                    then decline (409%N, "ContainerBeingDeleted", "The specified container is being deleted.")
                    else container_not_found_for_request req);
        mret (Some response)
    end.

Definition delete_container (pages : nat) (req : Request) (container : string) : io S Response :=
  r ← attempt (st_get_bucket container);
  match r with
  | Err BucketNotFound => decline container_not_found
  | Err e => fail e
  | Ok namespace =>
      if negb (namespace_conditions_match req namespace) then decline condition_failed
      else
        immutable ← container_has_immutable_blob pages container;
        if (immutable : bool)
        then decline (409%N, "BlobImmutableDueToPolicy", "The container contains blob data protected by an active policy or legal hold.")
        else
          match (match header req "x-sqrzl-azure-delete-delay-ms" with
                 | Some v => match Text.parse_i64 v with Some n => if (0 <=? n)%Z then Some n else None | None => None end
                 | None => Some DEFAULT_AZURE_CONTAINER_DELETE_DELAY_MS
                 end) with
          | None => decline (400%N, "InvalidHeaderValue", "The local Azure container deletion delay must be a nonnegative integer.")
          | Some delay_ms =>
              t ← now;
              save_json deletion_codec AZURE_CONTAINER_DELETION_STATE container (mkContainerDeletion (t + delay_ms * MILLISECOND)%Z);;
              empty_response 202
          end
  end.

(** *** Creation *)

(** A failure after the creation removes the container; a failure of the removal is
    added to the text. *)
Definition rollback_created_container {A} (container : string) (e : Error) : io S A :=
  r ← attempt (st_delete_bucket container);
  match r with
  | Ok _ => fail e
  | Err rollback => fail (InternalError (display e +:+ "; failed to roll back Azure container creation: " +:+ display rollback))
  end.

Definition or_rollback {A} (container : string) (p : io S A) : io S A :=
  r ← attempt p;
  match r with Ok a => mret a | Err e => rollback_created_container container e end.

Definition container_metadata (requested : strmap) (versioning : bool) (days : option N) (m : strmap) : strmap :=
  let m := requested ∪ m in
  let m := if versioning then <[AZURE_VERSIONING_KEY := "true"]> m else m in
  match days with Some d => <[AZURE_SOFT_DELETE_DAYS_KEY := pretty d]> m | None => m end.

Definition create_container (req : Request) (container : string) : io S Response :=
  if negb (valid_container_name container)
  then decline (400%N, "InvalidResourceName", "The specified container name is invalid.")
  else
    match requested_local_retention_modes req with
    | Err r => decline r
    | Ok (versioning, days) =>
        r ← attempt (st_create_bucket container;; st_get_bucket container);
        match r with
        | Err BucketAlreadyExists => decline (409%N, "ContainerAlreadyExists", "The specified container already exists.")
        | Err e => fail e
        | Ok namespace =>
            let requested := metadata_from_headers req in
            let retained := versioning || is_some days in
            (if retained || negb (eqb requested ∅) then
               (if (retained : bool) then or_rollback container (st_enable_versioning container) else mret tt);;
               bucket ← or_rollback container (st_get_bucket container);
               or_rollback container (st_update_bucket_metadata container (container_metadata requested versioning days (b_metadata bucket)));;
               mret tt
             else mret tt);;
            b ← namespace_response 201 namespace;
            mret (empty b)
        end
    end.

(** *** Listings *)

Definition LIST_DATASETS : list string :=
  ["snapshots"; "versions"; "deleted"; "deletedwithversions"; "tags"; "uncommittedblobs"; "copy"; "immutabilitypolicy"; "legalhold";
   "permissions"].

Fixpoint check_includes (values : list string) (unsupported : bool) : option refusal_of :=
  match values with
  | [] => if unsupported
          then Some (501%N, "FeatureNotSupported", "Only the metadata dataset is implemented by this Azure listing surface.") else None
  | v :: rest =>
      let v := Text.trim v in
      if eqb v "metadata" then check_includes rest unsupported
      else if existsb (eqb v) LIST_DATASETS then check_includes rest true
      else Some (400%N, "InvalidQueryParameterValue", "The include parameter contains an invalid dataset.")
  end.
Definition validate_list_includes (req : Request) : option refusal_of :=
  match query_param req "include" with
  | None => None
  | Some include => check_includes (Text.split "," include) false
  end.

Definition metadata_xml_name (name : string) : bool :=
  match String.list_ascii_of_string name with
  | [] => false
  | a :: rest => (ascii_letter a || eqb a "_"%char) &&
      forallb (fun a => alphanumeric a || eqb a "_"%char || eqb a "-"%char || eqb a "."%char) rest
  end.

Fixpoint list_pages (pages : nat) (container : string) (prefix marker : option string) : io S (list Object) :=
  match pages with
  | O => fail (InternalError "pages")
  | Datatypes.S pages =>
      page ← st_list_objects container prefix None marker (Some 1000%N);
      let objects := filter (fun o => is_snapshot_storage_key (o_key o) = false) (l_objects page) in
      match l_next_marker page with
      | None => mret objects
      | Some next =>
          if eqb marker (Some next) then mret objects
          else more ← list_pages pages container prefix (Some next); mret (objects ++ more)
      end
  end.

(** The prefix that stands for a key, up to the first delimiter. *)
Definition common_prefix (prefix delimiter key : string) : option string :=
  let remainder := default key (Text.strip_prefix key prefix) in
  index ← Text.find remainder delimiter;
  Some (Text.slice_to (String.length prefix + index + String.length delimiter) key).

Definition entry_le (a b : AzureListEntry) : Prop := String.le (entry_name a) (entry_name b).
#[global] Instance entry_le_dec a b : Decision (entry_le a b).
Proof. unfold entry_le. apply _. Defined.

Definition list_entries (prefix : string) (delimiter marker : option string) (objects : list Object) : list AzureListEntry :=
  let rolled (o : Object) : option string := d ← delimiter; common_prefix prefix d (o_key o) in
  let blobs := ListedBlob <$> filter (fun o => rolled o = None) objects in
  let prefixes := ListedPrefix <$> remove_dups (omap rolled objects) in
  let entries := merge_sort entry_le (blobs ++ prefixes) in
  match marker with
  | Some m => filter (fun e => String.le m (entry_name e)) entries
  | None => entries
  end.

Definition azure_list_entries (pages : nat) (req : Request) (container : string) : io S (list AzureListEntry) :=
  objects ← list_pages pages container (query_param req "prefix") None;
  mret (list_entries (default "" (query_param req "prefix")) (query_param req "delimiter" ≫= nonempty) (query_param req "marker") objects).

(** *** Documents *)

Definition element (name content : string) : string := "<" +:+ name +:+ ">" +:+ content +:+ "</" +:+ name +:+ ">".

(** The parameters of the request that the document repeats. *)
Definition echoed (req : Request) (names : list (string * string)) : string :=
  Text.join_text "" ((fun n => match query_param req n.2 with Some v => element n.1 (escape_xml v) | None => "" end) <$> names).

Definition results_xml (attribute value echoed_fields name content : string) (next_marker : option string) : string :=
  "<?xml version=" +:+ quoted "1.0" +:+ " encoding=" +:+ quoted "utf-8" +:+ "?><EnumerationResults " +:+ attribute +:+ "=" +:+ quoted value +:+ ">" +:+
  echoed_fields +:+ element name content +:+ element "NextMarker" (escape_xml (default "" next_marker)) +:+ "</EnumerationResults>".

Definition container_xml (b : Bucket) : string :=
  "<Container>" +:+ element "Name" (escape_xml (b_name b)) +:+ "<Properties>" +:+ element "Last-Modified" (http_date (b_modified_at b)) +:+
  element "Etag" (namespace_etag b) +:+ "</Properties></Container>".

Definition list_containers_xml (req : Request) (account : string) (namespaces : list Bucket) (next_marker : option string) : string :=
  results_xml "ServiceEndpoint" (escape_xml (request_origin req) +:+ "/" +:+ escape_xml account)
    (echoed req [("Prefix", "prefix"); ("Marker", "marker"); ("MaxResults", "maxresults")])
    "Containers" (Text.join_text "" (container_xml <$> namespaces)) next_marker.

Definition CONTENT_ELEMENTS : list (string * string) :=
  [("azure_cache_control", "Cache-Control"); ("azure_content_encoding", "Content-Encoding");
   ("azure_content_language", "Content-Language"); ("azure_content_disposition", "Content-Disposition")].

Definition pair_key_le (a b : string * string) : Prop := String.le a.1 b.1.
#[global] Instance pair_key_le_dec a b : Decision (pair_key_le a b).
Proof. unfold pair_key_le. apply _. Defined.

Definition metadata_xml (m : strmap) : string :=
  element "Metadata" (Text.join_text "" ((fun e => element e.1 (escape_xml e.2)) <$>
    merge_sort pair_key_le (filter (fun e => Text.starts_with e.1 "__sqrzl_" = false) (map_to_list m)))).

Definition entry_xml (with_metadata : bool) (e : AzureListEntry) : string :=
  match e with
  | ListedPrefix p => element "BlobPrefix" (element "Name" (escape_xml p))
  | ListedBlob o =>
      "<Blob>" +:+ element "Name" (escape_xml (o_key o)) +:+
      element "Properties"
        (element "Content-Length" (pretty (o_size o)) +:+ element "Content-Type" (escape_xml (o_content_type o)) +:+
         Text.join_text "" ((fun p => match provider_value o p.1 with Some v => element p.2 (escape_xml v) | None => "" end) <$> CONTENT_ELEMENTS) +:+
         element "Etag" (quoted (escape_xml (o_etag o))) +:+ element "BlobType" (escape_xml (blob_type o)) +:+
         element "Last-Modified" (http_date (o_last_modified o))) +:+
      (if with_metadata then metadata_xml (o_metadata o) else "") +:+ "</Blob>"
  end.

Definition includes_metadata (req : Request) : bool :=
  is_some_and (fun include => existsb (fun v => eqb (Text.trim v) "metadata") (Text.split "," include)) (query_param req "include").

Definition list_blobs_xml (req : Request) (container : string) (entries : list AzureListEntry) (next_marker : option string) : string :=
  results_xml "ContainerName" (escape_xml container)
    (echoed req [("Prefix", "prefix"); ("Marker", "marker"); ("MaxResults", "maxresults"); ("Delimiter", "delimiter")])
    "Blobs" (Text.join_text "" (entry_xml (includes_metadata req) <$> entries)) next_marker.

Definition xml_response (status : N) (body : string) : io S Response :=
  b ← azure_response status; mret (build (with_body (as_bytes body) (with_content_type "application/xml" b))).

Definition unrepresentable (e : AzureListEntry) : bool :=
  match e with
  | ListedBlob o => existsb (fun kv => negb (metadata_xml_name kv.1)) (map_to_list (o_metadata o))
  | ListedPrefix _ => false
  end.

(** A page: the first [n] entries, and the name of the next. *)
Definition cut_page {A} (name : A -> string) (n : N) (l : list A) : list A * option string :=
  (take (N.to_nat n) l, name <$> l !! N.to_nat n).

Definition list_blobs (pages : nat) (req : Request) (container : string) : io S Response :=
  unless (validate_list_includes req)
    match max_results req with
    | Err r => decline r
    | Ok n =>
        r ← attempt (azure_list_entries pages req container);
        match r with
        | Err BucketNotFound => decline container_not_found
        | Err e => fail e
        | Ok entries =>
            let '(page, next) := cut_page entry_name n entries in
            if has_query_param req "include" && existsb unrepresentable page
            then decline (501%N, "FeatureNotSupported", "Stored metadata names cannot be represented by the Azure metadata contract.")
            else xml_response 200 (list_blobs_xml req container page next)
        end
    end.

Definition hidden_metadata (key : string) : bool :=
  Text.starts_with key "azure_" || Text.starts_with key "s3_" || Text.starts_with key "gcs_".

Definition get_container (pages : nat) (req : Request) (container : string) : io S Response :=
  if eqb (query_param req "comp") (Some "list") then list_blobs pages req container
  else
    r ← attempt (st_get_bucket container);
    match r with
    | Err BucketNotFound => container_not_found_for_request req
    | Err e => fail e
    | Ok namespace =>
        b ← namespace_response 200 namespace;
        let b := with_header "x-ms-lease-state" "available" (with_header "x-ms-lease-status" "unlocked" b) in
        mret (empty (foldl (fun b e => if hidden_metadata e.1 then b else with_header ("x-ms-meta-" +:+ e.1) e.2 b) b
                      (hash_order (map_to_list (b_metadata namespace)))))
    end.

Definition handle_container_request (pages : nat) (req : Request) (container : string) : io S Response :=
  let method := rq_method req in
  if is_some_and (fun comp => negb (eqb comp "list" && eqb method "GET")) (query_param req "comp")
  then decline (501%N, "FeatureNotSupported", "This Azure container subresource is not implemented by the emulator.")
  else if eqb method "PUT" then create_container req container
  else if eqb method "DELETE" then delete_container pages req container
  else if eqb method "GET" || eqb method "HEAD" then get_container pages req container
  else decline (405%N, "UnsupportedHttpVerb", "Unsupported Azure container operation").

Fixpoint visible_containers (pages : nat) (l : list Bucket) : io S (list Bucket) :=
  match l with
  | [] => mret []
  | namespace :: rest =>
      finished ← finish_expired_container_deletion pages (b_name namespace);
      if (finished : bool) then visible_containers pages rest
      else
        pending ← load_json deletion_codec AZURE_CONTAINER_DELETION_STATE (b_name namespace);
        more ← visible_containers pages rest;
        mret (if is_some pending then more else namespace :: more)
  end.

Definition bucket_name_le (a b : Bucket) : Prop := String.le (b_name a) (b_name b).
#[global] Instance bucket_name_le_dec a b : Decision (bucket_name_le a b).
Proof. unfold bucket_name_le. apply _. Defined.

Definition handle_account_request (pages : nat) (req : Request) (resource : AzureResource) : io S Response :=
  if negb (eqb (rq_method req) "GET" && eqb (query_param req "comp") (Some "list"))
  then decline (400%N, "InvalidUri", "Azure account requests must use comp=list")
  else
    match max_results req with
    | Err r => decline r
    | Ok n =>
        namespaces ← st_list_buckets;
        visible ← visible_containers pages namespaces;
        let sorted := merge_sort bucket_name_le visible in
        let with_prefix := match query_param req "prefix" with
                           | Some p => filter (fun b => Text.starts_with (b_name b) p = true) sorted
                           | None => sorted
                           end in
        let from_marker := match query_param req "marker" with
                           | Some m => filter (fun b => String.le m (b_name b)) with_prefix
                           | None => with_prefix
                           end in
        let '(page, next) := cut_page b_name n from_marker in
        xml_response 200 (list_containers_xml req (ar_account resource) page next)
    end.

(** ** Whole requests *)

Definition handle_request (pages : nat) (config : AzureConfig) (req : Request) : io (AzureAdapter S) Response :=
  match service_version req with
  | Err r => decline r
  | Ok _ =>
      if is_some (header req "x-ms-structured-body") || is_some (header req "x-ms-structured-content-length")
      then decline (501%N, "FeatureNotSupported", "Structured Azure upload bodies are not implemented by this emulator.")
      else
        match parse_resource req with
        | Err msg => decline (400%N, "InvalidUri", msg)
        | Ok resource =>
            t ← now;
            t' ← now;
            unless (authorize t t' req config resource)
              (unless (unsupported_operation_predicates req)
                match ar_container resource with
                | None => on_store (handle_account_request pages req resource)
                | Some container =>
                    pending ← on_store (resolve_container_deletion pages req container);
                    match pending with
                    | Some response => mret response
                    | None =>
                        if eqb (query_param req "restype") (Some "container") then
                          denied ← on_store (authorize_sas_operation req resource);
                          unless denied
                            (match (if eqb (rq_method req) "PUT" then requested_local_retention_modes req else Ok (false, None)) with
                             | Err r => decline r
                             | Ok (versioning, days) =>
                                 let claims := versioning || is_some days in
                                 conflict ← (if eqb (rq_method req) "PUT" && claims || eqb (rq_method req) "DELETE"
                                             then on_store (azure_history_conflict container) else mret false);
                                 if (conflict : bool) then decline history_mode_conflict
                                 else on_store (handle_container_request pages req container)
                             end)
                        else
                          match ar_blob resource with
                          | None => decline (400%N, "InvalidUri", "Blob requests must include a blob name")
                          | Some blob_key =>
                              r ← on_store (attempt (st_get_bucket container));
                              match r with
                              | Err BucketNotFound => on_store (container_not_found_for_request req)
                              | Err e => decline (500%N, "InternalError", display e)
                              | Ok _ =>
                                  conflict ← on_store (azure_history_conflict container);
                                  if (conflict : bool) && (eqb (rq_method req) "PUT" || eqb (rq_method req) "DELETE" || has_query_param req "versionid")
                                  then decline history_mode_conflict
                                  else handle_blob_request pages req resource container blob_key
                              end
                          end
                    end
                end)
        end
  end.

(** A printable identifier of the client is repeated. *)
Definition with_client_request_id (id : option string) (r : Response) : Response :=
  match id with
  | Some value =>
      if (Text.len value <=? 1024)%N && all_of visible_ascii value && header_value value
      then mkResponse (rs_status r) (hm_insert "x-ms-client-request-id" value (rs_headers r)) (rs_body r) else r
  | None => r
  end.

Definition handle (pages : nat) (config : AzureConfig) (req : Request) : io (AzureAdapter S) Response :=
  let client_request_id := header req "x-ms-client-request-id" in
  match service_version req with
  | Ok version =>
      response ← handle_request pages config req;
      mret (with_client_request_id client_request_id
              (mkResponse (rs_status response) (hm_insert "x-ms-version" version (rs_headers response)) (rs_body response)))
  | Err r => response ← decline r; mret (with_client_request_id client_request_id response)
  end.

Definition matches (req : Request) : bool :=
  is_some (header req "x-ms-version") ||
  is_some_and (fun v => Text.starts_with v "SharedKey ") (header req "authorization") ||
  is_some (header req "x-ms-blob-type") || has_query_param req "restype" || has_query_param req "comp".

Definition matches_head (req : Request) : bool :=
  let authorization := match hm_get "authorization" (rq_headers req) with Some v => if to_str v then v else "" | None => "" end in
  let query := default "" (rq_query req) in
  contains_header req "x-ms-version" || contains_header req "x-ms-blob-type" || Text.starts_with authorization "SharedKey " ||
  Text.contains query "restype=" || Text.contains query "comp=".

(** [content_length_mismatch] of [src/providers/mod.rs] *)
Definition content_length_mismatch (req : Request) : bool :=
  is_some_and (fun declared => negb (N.eqb declared (payload_len req))) (header req "content-length" ≫= Text.parse_u64).

Definition framing_refusal (req : Request) : option refusal_of :=
  if put_operation_requires_content_length req && negb (is_some (header req "content-length"))
  then Some (411%N, "MissingContentLengthHeader", "The Content-Length header was not specified.")
  else if is_some_and (fun v => negb (is_some (Text.parse_u64 v))) (header req "content-length")
  then Some (400%N, "InvalidHeaderValue", "The value for Content-Length is invalid.")
  else if content_length_mismatch req
  then Some (400%N, "InvalidHeaderValue", "The value for Content-Length does not match the request body.")
  else None.

Definition validate_request_framing (req : Request) : io S (option Response) :=
  match framing_refusal req with
  | None => mret None
  | Some r => response ← decline r; mret (Some (with_client_request_id (header req "x-ms-client-request-id") response))
  end.
End Containers.
