(* ===== verification/PlainStore.v ===== *)
(** * PlainStore: what a handler may rely on in a bucket without versioning

    [PlainStore] states, for one key of a bucket, what the operations of
    [S3Storage] return and leave behind when no fault occurs: a map from keys to
    objects with compare-and-set writes.  [FilesystemStorage] is an instance, by
    the theorems on the file-level operations. *)

From Stdlib Require Import Ascii.
From S2P Require Import Prelude Text Models Policy SkipMap Index IndexFacts FsModel Publication.
From S2P Require Import FileFacts PublicationFacts ConcreteEnv PublicationSafety Lifecycle Storage.
From S2P Require Import StorageFacts ConditionFacts BucketFacts Versions Listing LifecycleExecutor.
From S2P Require Import Http Cors Checksums ObjectHelpers ObjectHandlers.

(** ** Fault-free runs *)

(** From [P] and without faults, whatever the clock shows, [p] ends without a
    crash and its result and state satisfy [Q]. *)
Definition runs {S A} (P : S -> Prop) (p : io S A) (Q : Res A -> S -> Prop) : Prop :=
  forall clk s, P s -> wp (calm_while clk) p (fun a => Q (Ok a)) (fun e => Q (Err e)) (fun _ => False) s.

(** ** The interface *)

(** The object a read of the current generation sees. *)
Definition shown (x : option (Object * bytes)) : Res Object := lookup_result (strip_data ∘ fst <$> x).

Definition range_of (x : option (Object * bytes)) (start : N) (stop : option N) : Res (Object * bytes) :=
  match x with
  | None => Err KeyNotFound
  | Some (o, data) =>
      match resolve_range (size_of data) start stop with
      | Ok (from, len) => Ok (strip_data o, take (N.to_nat len) (drop (N.to_nat from) data))
      | Err e => Err e
      end
  end.

(** What a put stores. *)
Definition put_pair (o : Object) : option (Object * bytes) := Some (with_version_id None o, o_data o).

(** [stored b m k x s]: the bucket [b] exists without versioning and has the
    metadata [m], and its key [k] holds the object and bytes [x]. *)
Class PlainStore (S : Type) `{S3Storage S} : Type := {
  stored : string -> strmap -> string -> option (Object * bytes) -> S -> Prop;
  stored_size : forall b m k o data s, stored b m k (Some (o, data)) s -> o_size o = size_of data;
  stored_version : forall b m k o data s, stored b m k (Some (o, data)) s -> o_version_id o = None;
  plain_bucket : forall b m k x, runs (stored b m k x) (st_get_bucket b)
    (fun r s => stored b m k x s /\ exists bk, r = Ok bk /\ b_versioning_enabled bk = false /\ b_metadata bk = m);
  plain_metadata : forall b m k x, runs (stored b m k x) (st_get_object_metadata b k)
    (fun r s => stored b m k x s /\ r = shown x);
  plain_range : forall b m k x start stop, runs (stored b m k x) (st_get_object_range b k start stop)
    (fun r s => stored b m k x s /\ r = range_of x start stop);
  plain_versions : forall b m k x, runs (stored b m k x) (st_list_object_versions_for_key b k)
    (fun r s => stored b m k x s /\ r = Ok []);
  plain_put : forall b m k x o, o_size o = size_of (o_data o) ->
    runs (stored b m k x) (st_put_object b k o) (fun r s => r = Ok tt /\ stored b m k (put_pair o) s);
  plain_put_if : forall b m k x o c, o_size o = size_of (o_data o) ->
    runs (stored b m k x) (st_put_object_if b k o c)
      (fun r s => let go := satisfied c (strip_data ∘ fst <$> x) in
         r = Ok go /\ stored b m k (if go then put_pair o else x) s);
  plain_delete : forall b m k x, runs (stored b m k x) (st_delete_object b k)
    (fun r s => stored b m k None s /\ r = match x with Some _ => Ok tt | None => Err KeyNotFound end);
  plain_delete_if : forall b m k x c, runs (stored b m k x) (st_delete_object_if b k c)
    (fun r s => let go := satisfied c (strip_data ∘ fst <$> x) in
       stored b m k (if go then None else x) s /\
       r = if go then match x with Some _ => Ok true | None => Err KeyNotFound end else Ok false) }.

(** No schedule of [calm_while] has a fault. *)
Ltac no_fault := let Hm := fresh in intros Hm; first [discriminate Hm | no_fault].

(** ** [FilesystemStorage] *)

Section Filesystem.
Context {M : Type -> Type} `{SkipMapLaws M} `{EnvLaws} `{StoreEnvLaws} `{Digests}.
Abbreviation World := (World M).

(** The metadata document of a bucket. *)
Definition metadata_document (b : string) (m : strmap) (s : fs) : Prop :=
  match s !! bucket_metadata_path b with
  | Some (File j) => dec strmap_codec j = Some m
  | Some Directory => False
  | None => m = ∅
  end.

Record stored_fs (b : string) (m : strmap) (k : string) (x : option (Object * bytes)) (s : fs) : Prop := mkStoredFs {
  sf_unversioned : unversioned b s;
  sf_bucket : bucket_ok b s;
  sf_document : metadata_document b m s;
  sf_held : held (object_dir b k) x s;
  sf_history : s !! versions_dir b (compute_object_id b k) = None;
  sf_version : forall o data, x = Some (o, data) -> o_version_id o = None }.

(** Files of the bucket directory whose name starts with a dot are not part of
    any object. *)
Lemma document_outside b k n s s' :
  agree (surroundings (object_dir b k) s no_input) s s' -> is_dir (bucket_dir b) s = true ->
  scratch (join (bucket_dir b) (String "." n)) = false ->
  s' !! join (bucket_dir b) (String "." n) = s !! join (bucket_dir b) (String "." n).
Proof.
  intros Ha Hd Hs. apply (agree_at _ _ _ Ha); [done|].
  intros [Hq|[[]|[Hq _]]]; apply below_join_inv in Hq as [r Hq];
    unfold object_dir, object_id_dir, join in Hq; apply app_inv_head in Hq; injection Hq as Hq _;
    by apply (object_id_not_hidden b k n).
Qed.

Lemma bucket_dir_kept b k s s' :
  agree (surroundings (object_dir b k) s no_input) s s' -> is_dir (bucket_dir b) s = true ->
  is_dir (bucket_dir b) s' = true.
Proof.
  intros Ha Hd. unfold is_dir. rewrite (agree_at _ _ _ Ha); [done|apply plain_bucket_dir|].
  apply is_dir_true in Hd. intros [Hq|[[]|[_ Hq]]]; [|congruence].
  unfold object_dir, object_id_dir in Hq. by rewrite below_join_self in Hq.
Qed.

Lemma stored_fs_kept b m k x x' s s' :
  agree (surroundings (object_dir b k) s no_input) s s' -> stored_fs b m k x s ->
  held (object_dir b k) x' s' -> s' !! versions_dir b (compute_object_id b k) = None ->
  (forall o data, x' = Some (o, data) -> o_version_id o = None) -> stored_fs b m k x' s'.
Proof.
  intros Ha Hs Hh Hv Hn. pose proof (bk_dir _ _ (sf_bucket _ _ _ _ _ Hs)) as Hd.
  split; [|split| |done..].
  - eapply (unversioned_kept _ k no_input); [by intros q []|done|apply Hs].
  - apply Ha, (sf_bucket _ _ _ _ _ Hs).
  - by eapply bucket_dir_kept.
  - destruct (bk_identity _ _ (sf_bucket _ _ _ _ _ Hs)) as [i Hi]. exists i.
    rewrite (document_outside b k "bucket.identity.json" s s'); [done..|by rewrite scratch_join].
  - unfold metadata_document, bucket_metadata_path in *.
    rewrite (document_outside b k "bucket.meta.json" s s'); [apply Hs|done|done|by rewrite scratch_join].
Qed.

(** Reads only clean up private files. *)
Lemma versions_not_private b k : ~ private (object_dir b k) (versions_dir b (compute_object_id b k)).
Proof. intros Hp. by destruct (private_apart _ _ "versions" Hp) as [_ ?]. Qed.

Lemma stored_fs_read b m k x s s' :
  stored_fs b m k x s -> agree (private (object_dir b k)) s s' -> held (object_dir b k) x s' -> stored_fs b m k x s'.
Proof.
  intros Hs Ha Hh. eapply stored_fs_kept; [|exact Hs|done| |apply Hs].
  - eapply agree_weaken; [|exact Ha]. intros q Hq. left. by apply inside_below, private_inside.
  - rewrite (agree_at _ _ _ Ha); [apply Hs|unfold versions_dir; by rewrite scratch_join|apply versions_not_private].
Qed.

(** A completed publication of an object without a version has no history. *)
Lemma stored_fs_put b m k x o s s' :
  o_size o = size_of (o_data o) -> stored_fs b m k x s ->
  arrived (object_dir b k) s no_input (pair_record (object_dir b k) (with_version_id None o)) (o_data o)
    (encode_object (with_version_id None o)) s' ->
  stored_fs b m k (put_pair o) s'.
Proof.
  intros Hsz Hs Ha. eapply stored_fs_kept; [|exact Hs| | |by intros ? ? [= <- <-]].
  - by eapply stands_surroundings, arrived_stands.
  - eapply arrived_held; [| |exact Ha]; [by intros q []|done].
  - destruct Ha as (n & Hn & Hc).
    rewrite (agree_at _ _ _ (cp_agree _ _ _ _ _ _ _ Hc)); [apply Hs|unfold versions_dir; by rewrite scratch_join|].
    assert (versions_dir b (compute_object_id b k) = join (object_dir b k) "versions") as Hver by done.
    intros [[Hq|[Hq|[[_ [Hq|Hq]]|[(id & [Hr|Hr] & _)|[Hr _]]]]]|[Hq|[[]|[Hq _]]]].
    + rewrite Hver, join_inj in Hq. by destruct Hq.
    + apply below_join_inv in Hq as [r Hq]. rewrite Hver in Hq. unfold join in Hq.
      apply app_inv_head in Hq. injection Hq as Hq _. by rewrite <- Hq in Hn.
    + rewrite Hver, join_inj in Hq. by destruct Hq.
    + rewrite Hver, join_inj in Hq. by destruct Hq.
    + by apply elem_of_nil in Hr.
    + done.
    + done.
    + by apply versions_not_private in Hq.
    + rewrite Hver in Hq. by rewrite below_join_self in Hq.
Qed.

Definition world_stored (b : string) (m : strmap) (k : string) (x : option (Object * bytes)) (w : World) : Prop :=
  stored_fs b m k x (w_fs w).

Lemma fs_bucket b m k x : runs (world_stored b m k x) (get_bucket b)
  (fun r w => world_stored b m k x w /\ exists bk, r = Ok bk /\ b_versioning_enabled bk = false /\ b_metadata bk = m).
Proof.
  intros clk w Hs. unfold get_bucket, get_bucket_locked. pose proof (sf_bucket _ _ _ _ _ Hs) as Hb.
  destruct (bk_identity _ _ Hb) as [i Hi].
  apply wp_bind, wp_require_bucket; [by apply bucket_present|].
  apply wp_bind. unfold read_bucket_identity_locked. apply wp_bind, wp_gets.
  rewrite (proj2 (path_exists_true _ _)) by (by rewrite Hi).
  eapply wp_read_document; [done|apply dec_enc_identity|done|].
  apply wp_bind, wp_now. intros t. apply wp_bind, wp_versioning_off; [apply Hs|].
  apply wp_bind. unfold read_bucket_metadata. apply wp_bind, wp_gets.
  pose proof (sf_document _ _ _ _ _ Hs) as Hm. unfold metadata_document in Hm.
  unfold path_exists. destruct (w_fs w !! bucket_metadata_path b) as [[j|]|] eqn:Ed; simpl; [|done|].
  - unfold read_document. apply wp_bind, wp_disk. eapply wp_read_file; [done| |no_fault].
    rewrite set_fs_id. apply wp_of_res. rewrite Hm. apply wp_ret. by eauto.
  - apply wp_ret, wp_ret. subst m. by eauto.
Qed.

Lemma fs_metadata b m k x : runs (world_stored b m k x) (get_object_metadata b k)
  (fun r w => world_stored b m k x w /\ r = shown x).
Proof.
  intros clk w Hs. eapply wp_read_object_metadata_locked; [apply Hs| |no_fault].
  intros s' Hh Ha. assert (world_stored b m k x (set_fs s' w)) by by eapply stored_fs_read.
  by destruct x as [[o data]|].
Qed.

Lemma fs_range b m k x start stop : runs (world_stored b m k x) (get_object_range b k start stop)
  (fun r w => world_stored b m k x w /\ r = range_of x start stop).
Proof.
  intros clk w Hs. eapply wp_read_object_range_locked; [apply Hs| |no_fault].
  intros s' Hh Ha. assert (world_stored b m k x (set_fs s' w)) by by eapply stored_fs_read.
  destruct x as [[o data]|]; [|done]. simpl. by destruct (resolve_range _ _ _) as [[? ?]|].
Qed.

Lemma fs_put b m k x o : o_size o = size_of (o_data o) ->
  runs (world_stored b m k x) (put_object b k o) (fun r w => r = Ok tt /\ world_stored b m k (put_pair o) w).
Proof.
  intros Hsz clk w Hs. eapply wp_put_unversioned; [apply Hs|apply Hs|by intros q []|done|done| |no_fault].
  intros w' Ha _. split; [done|]. by eapply stored_fs_put.
Qed.

Lemma fs_delete b m k x : runs (world_stored b m k x) (delete_object b k)
  (fun r w => world_stored b m k None w /\ r = match x with Some _ => Ok tt | None => Err KeyNotFound end).
Proof.
  intros clk w Hs. eapply wp_delete_exact; [apply Hs|apply Hs|done|]. destruct x as [[o data]|].
  - intros w' Hgone Hh _ Ha. split; [|done]. eapply stored_fs_kept; [exact Ha|exact Hs|done| |done].
    apply Hgone. unfold versions_dir. apply below_join.
  - intros w' Hh Ha _. split; [|done]. by eapply stored_fs_read.
Qed.

(** A condition reads the metadata and leaves the rest. *)
Lemma fs_condition b m k x c Q E clk (w : World) : world_stored b m k x w ->
  (forall w', world_stored b m k x w' -> Q (satisfied c (strip_data ∘ fst <$> x)) w') ->
  wp (calm_while clk) (object_condition_matches b k c) Q E (fun _ => False) w.
Proof.
  intros Hs HQ. apply (wp_condition b k c x); [done|apply Hs|]. intros s' Hh Ha. apply HQ. by eapply stored_fs_read.
Qed.

Lemma fs_put_if b m k x o c : o_size o = size_of (o_data o) ->
  runs (world_stored b m k x) (put_object_if b k o c)
    (fun r w => let go := satisfied c (strip_data ∘ fst <$> x) in
       r = Ok go /\ world_stored b m k (if go then put_pair o else x) w).
Proof.
  intros Hsz clk w Hs. apply wp_bind. eapply fs_condition; [exact Hs|]. intros w' Hs'. simpl.
  destruct (satisfied c _); [|by apply wp_ret]. apply wp_bind.
  eapply wp_mono; [by apply (fs_put b m k x o Hsz)| |by intros e s' [? ?]|done].
  intros [] w2 [_ Hw2]. by apply wp_ret.
Qed.

Lemma fs_delete_if b m k x c : runs (world_stored b m k x) (delete_object_if b k c)
  (fun r w => let go := satisfied c (strip_data ∘ fst <$> x) in
     world_stored b m k (if go then None else x) w /\
     r = if go then match x with Some _ => Ok true | None => Err KeyNotFound end else Ok false).
Proof.
  intros clk w Hs. apply wp_bind. eapply fs_condition; [exact Hs|]. intros w' Hs'. simpl.
  destruct (satisfied c _); [|by apply wp_ret]. apply wp_bind.
  eapply wp_mono; [by apply (fs_delete b m k x)| |by destruct x; intros e s' [? [= ->]]|done].
  intros [] w2 [Hw2 Hr]. apply wp_ret. destruct x; [done|by inversion Hr].
Qed.

Lemma fs_versions b m k x : runs (world_stored b m k x) (list_object_versions_for_key b k)
  (fun r w => world_stored b m k x w /\ r = Ok []).
Proof.
  intros clk w Hs. unfold list_object_versions_for_key, list_object_versions_for_key_locked.
  apply wp_bind, wp_require_bucket; [apply Hs|].
  apply wp_bind, wp_disk, (wp_recover_held _ x); [apply Hs| |no_fault].
  intros s' Hh Ha. assert (world_stored b m k x (set_fs s' w)) as Hs' by by eapply stored_fs_read.
  apply wp_bind, wp_gets. simpl. destruct (path_exists _ s'); simpl; [|by apply wp_ret].
  assert (wp (calm_while clk) (historical_versions (object_dir b k) (fun o => eqb (o_key o) k))
    (fun l w' => l = [] /\ w' = set_fs s' w) (fun _ _ => False) (fun _ => False) (set_fs s' w)) as Hhist.
  { unfold historical_versions. apply wp_bind, wp_attempt, wp_disk. simpl.
    apply wp_sys; [|no_fault..]. intros _. unfold is_dir.
    replace (s' !! join (object_dir b k) "versions") with (@None entry) by (symmetry; apply Hs').
    simpl. by apply wp_ret. }
  apply wp_bind, (wp_mono _ (fun l w' => l = [] /\ w' = set_fs s' w) _ (fun _ _ => False) _ (fun _ => False)); [|..|done|done].
  - unfold current_version. apply wp_bind, wp_attempt, wp_disk. simpl.
    pose proof (held_pair _ _ _ Hh) as Hp. unfold pair_at in Hp.
    destruct x as [[o data]|]; injection Hp as _ Hm.
    + eapply wp_read_metadata; [done| |no_fault]. apply wp_ret.
      assert (o_version_id (strip_data o) = None) as -> by apply (sf_version _ _ _ _ _ Hs' o data eq_refl).
      by rewrite andb_false_r.
    + unfold read_object_metadata. apply wp_bind, wp_sys; [|no_fault..]. intros _. rewrite Hm. by apply wp_ret.
  - intros ? ? [-> ->]. apply wp_bind. eapply wp_mono; [exact Hhist| |done|done].
    intros ? ? [-> ->]. by apply wp_ret.
Qed.

(** A bucket that was just created. *)
Lemma created_stored name t s k : created name t s -> stored_fs name ∅ k None s.
Proof.
  intros Hc. pose proof (created_no_objects name t s k Hc) as Hh.
  assert (s !! object_dir name k = None) as Hd.
  { apply (cr_rest _ _ _ Hc); [..|apply object_dir_plain]; intros Heq;
      [by apply (object_id_not_hidden name k "bucket.name")|by apply (object_id_not_hidden name k "bucket.identity.json")]. }
  split; [by eapply created_unversioned|by eapply created_bucket_ok| |done| |done].
  - unfold metadata_document, bucket_metadata_path. by rewrite (cr_rest _ _ _ Hc) by (done || by rewrite scratch_join).
  - apply (ok_absent_below s (object_dir name k)); [apply Hc|done|]. apply below_join.
Qed.

#[export] Instance filesystem_plain : PlainStore World := {|
  stored := world_stored;
  stored_size b m k o data w Hs := held_size _ _ _ (sf_held _ _ _ _ _ Hs) o data eq_refl;
  stored_version b m k o data w Hs := sf_version _ _ _ _ _ Hs o data eq_refl;
  plain_bucket := fs_bucket;
  plain_metadata := fs_metadata;
  plain_range := fs_range;
  plain_versions := fs_versions;
  plain_put := fs_put;
  plain_put_if := fs_put_if;
  plain_delete := fs_delete;
  plain_delete_if := fs_delete_if |}.
End Filesystem.
