(* ===== verification/HandlerRules.v ===== *)
(** * HandlerRules: reasoning about responses

    Which headers a response keeps while it is built, and the fault-free rules
    for the operations from which the object handlers are composed. *)

From Stdlib Require Import Ascii Strings.Byte.
From stdpp Require Import pretty.
From S2P Require Import Prelude Text Models Policy SkipMap Index Utf8 FsModel Publication FileFacts.
From S2P Require Import Lifecycle Storage StorageFacts ConditionFacts Versions Listing LifecycleExecutor.
From S2P Require Import Http Cors Checksums ObjectHelpers ObjectHandlers ObjectWrites PlainStore.

(** ** Decimal numbers are header values *)

Lemma all_of_app p s t : all_of p (s +:+ t) = all_of p s && all_of p t.
Proof. induction s as [|a s IH]; [done|]. simpl. by rewrite IH, andb_assoc. Qed.

Lemma pretty_N_go_visible x s : all_of visible_ascii s = true -> all_of visible_ascii (pretty_N_go x s) = true.
Proof.
  revert s. induction (N.lt_wf_0 x) as [x _ IH]. intros s Hs.
  destruct (decide (0 < x)%N) as [Hx|Hx]; [|by replace x with 0%N by lia].
  rewrite pretty_N_go_step by done. apply IH; [by apply N.div_lt|]. simpl. rewrite Hs, andb_true_r.
  pose proof (N.mod_lt x 10 ltac:(lia)) as Hlt. remember (x mod 10)%N as d.
  assert (d ∈ [0;1;2;3;4;5;6;7;8;9]%N) as Hd by (rewrite !elem_of_cons; lia).
  repeat (apply elem_of_cons in Hd as [->|Hd]; [done|]). by apply elem_of_nil in Hd.
Qed.

Lemma pretty_visible (n : N) : all_of visible_ascii (pretty n) = true.
Proof. unfold pretty, pretty_N. case_decide; [done|]. by apply pretty_N_go_visible. Qed.

(** ** Headers of a response *)

Section Headers.
Context `{HttpLaws}.

(** The header [n] of a builder. *)
Definition header_of (n : string) (b : ResponseBuilder) : option string := hm_get n (rb_headers b).

Lemma header_of_other n v h b : Text.to_ascii_lowercase n <> h -> header_of h (with_header n v b) = header_of h b.
Proof.
  intros Hne. unfold with_header. destruct (header_name n) as [n'|] eqn:En; [|done].
  destruct (header_value v); [|done]. apply header_name_lower in En as ->. by apply hm_get_insert_ne.
Qed.

Lemma header_of_set n v b : n <> "" -> all_of letter_or_hyphen n = true -> header_value v = true ->
  header_of (Text.to_ascii_lowercase n) (with_header n v b) = Some v.
Proof. intros Hne Hn Hv. unfold with_header. rewrite header_name_letters, Hv by done. apply hm_get_insert. Qed.

(** A step that leaves the header [h]. *)
Definition spares (h : string) (f : ResponseBuilder -> ResponseBuilder) : Prop :=
  forall b, header_of h (f b) = header_of h b /\ rb_status (f b) = rb_status b /\ rb_body (f b) = rb_body b.

Lemma with_header_parts n v b : rb_status (with_header n v b) = rb_status b /\ rb_body (with_header n v b) = rb_body b.
Proof. unfold with_header. destruct (header_name n); [|done]. by destruct (header_value v). Qed.

Lemma spares_header h n v : Text.to_ascii_lowercase n <> h -> spares h (with_header n v).
Proof. intros Hne b. split; [by apply header_of_other|apply with_header_parts]. Qed.

Lemma spares_id h : spares h id.
Proof. done. Qed.

Lemma spares_compose h f g : spares h f -> spares h g -> spares h (fun b => f (g b)).
Proof.
  intros Hf Hg b. destruct (Hf (g b)) as (-> & -> & ->). apply Hg.
Qed.

Lemma spares_fold {A} h (f : ResponseBuilder -> A -> ResponseBuilder) l :
  (forall a, a ∈ l -> spares h (fun b => f b a)) -> spares h (fun b => foldl f b l).
Proof.
  induction l as [|a l IH]; intros Hf b; [done|]. simpl.
  destruct (IH (fun a' Ha => Hf a' (proj2 (elem_of_cons _ _ _) (or_intror Ha))) (f b a)) as (-> & -> & ->).
  apply (Hf a). apply elem_of_cons. by left.
Qed.

Lemma spares_option {A} h (o : option A) (f : A -> ResponseBuilder -> ResponseBuilder) :
  (forall a, spares h (f a)) -> spares h (fun b => match o with Some a => f a b | None => b end).
Proof. intros Hf. destruct o; [apply Hf|apply spares_id]. Qed.

Lemma spares_if h (c : bool) f g : spares h f -> spares h g -> spares h (fun b => if c then f b else g b).
Proof. by destruct c. Qed.
End Headers.

Lemma lowercase_app s t : Text.to_ascii_lowercase (s +:+ t) = Text.to_ascii_lowercase s +:+ Text.to_ascii_lowercase t.
Proof. induction s as [|a s IH]; [done|]. simpl. by rewrite IH. Qed.

(** ** Fault-free rules *)

Section Rules.
Context `{HttpLaws} `{HelperEnv} `{Chrono} `{PayloadDigests} `{Digests} `{QuickXml} `{Env} `{HashOrder}.
Context {S : Type} `{PlainStore S} {clk : time -> Prop}.
Implicit Types s : S.
Abbreviation never := (fun _ : S => False).

Lemma wp_runs {A} P (p : io S A) R Q s :
  runs P p R -> P s -> (forall r s', R r s' -> Q r s') -> wp (calm_while clk) (attempt p) Q (fun _ _ => False) never s.
Proof. intros Hr Hp HQ. apply wp_attempt. eapply wp_mono; [exact (Hr clk s Hp)|simpl; by auto..]. Qed.

Lemma wp_request_id {mo : mode} (Q : string -> S -> Prop) E C s : (forall u, Q u s) -> wp mo generate_request_id Q E C s.
Proof. intros HQ. apply wp_bind, wp_uuid. intros n _. by apply wp_ret. Qed.

(** An error document with the given status, code and message. *)
Definition is_error (status : N) (code message req_id : string) (r : Response) : Prop :=
  rs_status r = status /\
  exists host_id, rs_body r = as_bytes (error_xml_with_host_id code message req_id host_id).

Lemma wp_xml_error {mo : mode} status code message req_id (Q : Response -> S -> Prop) E C s :
  (forall r, is_error status code message req_id r -> Q r s) ->
  wp mo (xml_error_response status code message req_id) Q E C s.
Proof.
  intros HQ. apply wp_bind, wp_request_id. intros u. apply wp_ret, HQ. split; [|by exists u].
  simpl. unfold with_content_type. by rewrite !(proj1 (with_header_parts _ _ _)).
Qed.

Lemma wp_refuse r req_id Q E C s :
  (forall status code message resp, r = Some (status, code, message) ->
     is_error status code message req_id resp -> Q (Some resp) s) ->
  (r = None -> Q None s) -> wp (calm_while clk) (refuse r req_id : io S (option Response)) Q E C s.
Proof.
  intros HS HN. unfold refuse. destruct r as [[[status code] message]|]; [|by apply wp_ret, HN].
  apply wp_bind, wp_xml_error. intros resp Hr. apply wp_ret. by eapply HS.
Qed.

Lemma wp_unless_answered (check : io S (option Response)) k Q E C s :
  wp (calm_while clk) check (fun r s' => match r with Some resp => Q resp s' | None => wp (calm_while clk) k Q E C s' end) E C s ->
  wp (calm_while clk) (unless_answered check k) Q E C s.
Proof.
  intros Hc. apply wp_bind. eapply wp_mono; [exact Hc| |done|done]. intros [resp|] s' Hq; [by apply wp_ret|done].
Qed.

(** Headers no later step changes. *)
Definition CORE : list string := ["content-length"; "content-range"; "etag"].

Definition extends (b b' : ResponseBuilder) : Prop :=
  rb_status b' = rb_status b /\ rb_body b' = rb_body b /\ forall h, h ∈ CORE -> header_of h b' = header_of h b.

Lemma extends_refl b : extends b b.
Proof. done. Qed.
Lemma extends_trans a b c : extends a b -> extends b c -> extends a c.
Proof. intros (S1 & B1 & E1) (S2 & B2 & E2). split_and!; [congruence..|]. intros h Hh. by rewrite E2, E1. Qed.

Lemma spares_extends (f : ResponseBuilder -> ResponseBuilder) b :
  (forall h, h ∈ CORE -> spares h f) -> extends b (f b).
Proof.
  intros Hf. destruct (Hf "etag" ltac:(set_solver) b) as (_ & Hs & Hb). split_and!; [done..|].
  intros h Hh. by destruct (Hf h Hh b).
Qed.

(** A header whose name is none of these. *)
Lemma extends_header n v b : forallb (fun h => negb (eqb (Text.to_ascii_lowercase n) h)) CORE = true ->
  extends b (with_header n v b).
Proof.
  intros Hn. apply (spares_extends (with_header n v)). intros h Hh. apply spares_header. intros Heq.
  rewrite forallb_forall in Hn. specialize (Hn h ltac:(by apply list_elem_of_In)). by rewrite Heq, eqb_refl in Hn.
Qed.

Lemma extends_fold {A} (f : ResponseBuilder -> A -> ResponseBuilder) l b :
  (forall a b, a ∈ l -> extends b (f b a)) -> extends b (foldl f b l).
Proof.
  revert b. induction l as [|a l IH]; intros b Hf; [done|]. simpl.
  apply (extends_trans _ (f b a)); [apply Hf; set_solver|]. apply IH. intros a' b' Ha'. apply Hf. set_solver.
Qed.

Lemma extends_meta k v b : extends b (with_header ("x-amz-meta-" +:+ k) v b).
Proof. apply extends_header. by rewrite lowercase_app. Qed.

Lemma extends_property o n key b : forallb (fun h => negb (eqb (Text.to_ascii_lowercase n) h)) CORE = true ->
  extends b (with_property o n key b).
Proof. intros Hn. unfold with_property. destruct (_ !! key); [by apply extends_header|done]. Qed.

Lemma extends_version b v : extends b (add_version_header b v).
Proof. destruct v; [by apply extends_header|done]. Qed.

Ltac fixed_names := intros ? ? Ha; rewrite !elem_of_cons, elem_of_nil in Ha;
  repeat (destruct Ha as [->|Ha]; [by apply extends_property|]); done.

Lemma wp_object_headers b o req_id Q E C s :
  (forall b', rb_status b' = rb_status b -> rb_body b' = rb_body b ->
     header_of "content-length" b' = header_of "content-length" b ->
     header_of "content-range" b' = header_of "content-range" b ->
     (header_value (quoted_etag (o_etag o)) = true -> header_of "etag" b' = Some (quoted_etag (o_etag o))) ->
     Q b' s) ->
  wp (calm_while clk) (object_response_headers b o req_id : io S _) Q E C s.
Proof.
  intros HQ. set (b0 := with_header "ETag" (quoted_etag (o_etag o)) b).
  unfold object_response_headers, CONTENT_PROPERTIES. apply wp_bind, wp_request_id. intros u. apply wp_ret.
  match goal with |- Q ?b' s => assert (extends b0 b') as (Hs & Hb & Hh) end.
  { repeat first [ refine (extends_trans _ _ _ _ (extends_fold _ _ _ _)); [|fixed_names || (intros; apply extends_meta)]
                 | refine (extends_trans _ _ _ _ (extends_version _ _))
                 | refine (extends_trans _ _ _ _ (extends_header _ _ _ _)); [|by vm_compute] ].
    apply extends_refl. }
  apply HQ.
  - rewrite Hs. apply with_header_parts.
  - rewrite Hb. apply with_header_parts.
  - rewrite Hh by set_solver. by apply header_of_other.
  - rewrite Hh by set_solver. by apply header_of_other.
  - intros Hv. rewrite Hh by set_solver. by apply (header_of_set "ETag").
Qed.

Lemma extends_checksums b o : extends b (response_headers b o).
Proof.
  unfold response_headers.
  set (f := fun b a => _). assert (extends b (foldl f b ALGORITHMS)) as Hf.
  { apply extends_fold. intros a b' Ha. unfold f. destruct (_ !! _); [|done].
    unfold ALGORITHMS in Ha. rewrite !elem_of_cons, elem_of_nil in Ha.
    repeat (destruct Ha as [->|Ha]; [by apply extends_header|]). done. }
  destruct (_ !! _); [|done]. eapply extends_trans; [exact Hf|by apply extends_header].
Qed.

Lemma extends_retrieval b req o : extends b (retrieval_headers b req o).
Proof. unfold retrieval_headers. destruct (_ && _); [apply extends_checksums|done]. Qed.

Lemma extends_rule b rule origin requested pre : extends b (apply_rule_headers b rule origin requested pre).
Proof.
  unfold apply_rule_headers. destruct (eqb origin "*"), pre, requested as [r|];
    try destruct (negb (Text.is_empty (Text.trim r)));
    destruct (cr_allowed_headers rule), (cr_max_age_seconds rule), (cr_expose_headers rule);
    repeat (refine (extends_trans _ _ _ _ (extends_header _ _ _ _)); [|by vm_compute]); apply extends_refl.
Qed.

(** *** The store *)

Lemma wp_with_cors bucket m key x req b Q s :
  stored bucket m key x s -> (forall b' s', stored bucket m key x s' -> extends b b' -> Q b' s') ->
  wp (calm_while clk) (with_cors bucket req b) Q (fun _ _ => False) never s.
Proof.
  intros Hs HQ. unfold with_cors, apply_actual_request_headers. destruct (header req "origin") as [origin|]; [|by apply wp_ret, HQ].
  apply wp_bind. unfold matching_rule, load_rules. apply wp_bind, wp_attempt, wp_bind.
  eapply wp_mono; [exact (plain_bucket _ _ _ _ clk s Hs)| |by intros e s' (_ & ? & ? & _)|done].
  intros bk s' (Hs' & bk' & [= <-] & _ & _). destruct (b_metadata bk !! _).
  - apply wp_of_res. destruct (parse_cors_rules _); apply wp_ret, wp_ret, HQ; try done.
    destruct (first_match _ _ _ _) as [[]|]; [apply extends_rule|done].
  - apply wp_ret, wp_ret, wp_ret, HQ; [done|]. done.
Qed.

Lemma wp_metadata bucket m key x Q s :
  stored bucket m key x s -> (forall s', stored bucket m key x s' -> Q (shown x) s') ->
  wp (calm_while clk) (attempt (st_get_object_metadata bucket key)) Q (fun _ _ => False) never s.
Proof. intros Hs HQ. eapply wp_runs; [apply plain_metadata|exact Hs|]. intros r s' [Hs' ->]. by apply HQ. Qed.

(** *** Bounded reads *)

Definition slice (start len : N) (data : bytes) : bytes := take (N.to_nat len) (drop (N.to_nat start) data).

Definition range_start (range : option (N * option N)) : N := match range with Some (start, _) => start | None => 0 end.

Lemma size_of_slice start len data : (start + len <= size_of data)%N -> size_of (slice start len data) = len.
Proof. intros Hle. unfold size_of, slice in *. rewrite length_take, length_drop. lia. Qed.

(** Capping the end of the read does not shorten a selection within the limit. *)
Lemma selected_range size range len :
  (size < 2 ^ 64)%N -> selected_len size range = Some len -> (len <= MATERIALIZATION_LIMIT)%N -> (len <> 0)%N ->
  let '(start, stop) := default (0%N, None) range in
  let cap := saturating_add_u64 start (MATERIALIZATION_LIMIT - 1) in
  resolve_range size start (Some (match stop with Some e => N.min e cap | None => cap end)) = Ok (start, len) /\
  start = range_start range /\ (start + len <= size)%N.
Proof.
  intros Hsize Hlen Hlim Hpos. unfold saturating_add_u64. unfold MATERIALIZATION_LIMIT in *.
  destruct range as [[start stop]|]; simpl in *.
  - destruct (N.ltb_spec start size); [|done].
    set (last := N.min (default (size - 1)%N stop) (size - 1)) in *.
    destruct (N.ltb_spec last start); [done|]. destruct (N.leb_spec (2 ^ 64) (last - start + 1)); [done|].
    injection Hlen as <-. unfold resolve_range. rewrite (proj2 (N.leb_gt size start)) by lia.
    match goal with |- (if (N.min ?e _ <? _)%N then _ else _) = _ /\ _ => assert (N.min e (size - 1) = last) as -> end.
    { unfold last. destruct stop as [e|]; simpl in *; lia. }
    rewrite (proj2 (N.ltb_ge last start)) by lia. split_and!; [done..|lia].
  - injection Hlen as <-. unfold resolve_range. rewrite (proj2 (N.leb_gt size 0)) by lia.
    match goal with |- (if (?e <? _)%N then _ else _) = _ /\ _ => assert (e = size - 1)%N as -> by lia end.
    rewrite (proj2 (N.ltb_ge (size - 1) 0)) by lia. split_and!; [f_equal; f_equal; lia|done|lia].
Qed.

(** What a bounded read of [data] answers. *)
Inductive bounded_read (o : Object) (data : bytes) (range : option (N * option N)) (req_id : string)
    : result Response Object -> Prop :=
| read_selected len : selected_len (size_of data) range = Some len -> (len <= MATERIALIZATION_LIMIT)%N ->
    bounded_read o data range req_id (Ok (with_data (slice (range_start range) len data) (strip_data o)))
| read_invalid r : selected_len (size_of data) range = None ->
    is_error 416 "InvalidRange" "The requested range is not satisfiable." req_id r ->
    bounded_read o data range req_id (Err r)
| read_too_long len r : selected_len (size_of data) range = Some len -> (MATERIALIZATION_LIMIT < len)%N ->
    rs_status r = 501%N -> bounded_read o data range req_id (Err r).

Lemma wp_refused {A} status code message req_id (Q : result Response A -> S -> Prop) E C s :
  (forall r, is_error status code message req_id r -> Q (Err r) s) ->
  wp (calm_while clk) (refused (xml_error_response status code message req_id)) Q E C s.
Proof. intros HQ. apply wp_bind, wp_xml_error. intros r Hr. by apply wp_ret, HQ. Qed.

Lemma slice_empty start data : slice start 0 data = [].
Proof. done. Qed.

Lemma wp_payload bucket m key o data range req_id Q s :
  stored bucket m key (Some (o, data)) s -> is_s3_delete_marker o = false -> (size_of data < 2 ^ 64)%N ->
  (forall r s', stored bucket m key (Some (o, data)) s' -> bounded_read o data range req_id r -> Q r s') ->
  wp (calm_while clk) (payload bucket key None range req_id) Q (fun _ _ => False) never s.
Proof.
  intros Hs Hmark Hsize HQ. pose proof (stored_size _ _ _ _ _ _ Hs) as Hsz. unfold payload.
  apply wp_bind. eapply wp_metadata; [exact Hs|]. intros s1 Hs1. simpl.
  change (is_s3_delete_marker (strip_data o)) with (is_s3_delete_marker o). rewrite Hmark.
  change (o_size (strip_data o)) with (o_size o). rewrite Hsz.
  destruct (selected_len (size_of data) range) as [len|] eqn:Hlen.
  2:{ apply wp_refused. intros r Hr. apply HQ; [done|]. by apply read_invalid. }
  destruct (N.ltb_spec MATERIALIZATION_LIMIT len) as [Hbig|Hfit].
  { apply wp_refused. intros r [Hr _]. apply HQ; [done|]. by eapply read_too_long. }
  destruct (N.eqb_spec len 0) as [->|Hpos].
  { apply wp_ret, HQ; [done|]. by apply (read_selected _ _ _ _ 0). }
  pose proof (selected_range _ _ _ Hsize Hlen Hfit Hpos) as Hsel.
  destruct (default (0%N, None) range) as [start stop]. destruct Hsel as (Hres & Hstart & Hle).
  apply wp_bind. eapply wp_runs; [apply plain_range|exact Hs1|]. intros r s2 [Hs2 ->]. simpl. rewrite Hres.
  change (o_size (strip_data o)) with (o_size o). rewrite Hsz, Hlen.
  change (take _ _) with (slice start len data). rewrite size_of_slice, N.eqb_refl by done.
  rewrite (proj2 (N.ltb_ge _ _)) by done. simpl. apply wp_ret, HQ; [done|]. subst start. by apply read_selected.
Qed.
End Rules.
