(* ===== verification/AuthFacts.v ===== *)
(** * AuthFacts: no credentials without a signature

    A request that is taken for an authenticated one carries a signature made
    with the configured secret over its method, path, query and headers, at a
    time close to now; and what the scanners of credentials miss. *)

From Stdlib Require Import Ascii Strings.Byte.
From stdpp Require Import pretty.
From S2P Require Import Prelude Text Models Policy SkipMap Index Utf8 Validation FsModel Publication FileFacts.
From S2P Require Import Lifecycle Storage Versions Listing LifecycleExecutor Http Cors Checksums ObjectHelpers Routing.
From S2P Require Import ObjectHandlers ObjectWrites PlainStore HandlerRules Signatures Authorization.

(** ** Comparing signatures *)

Lemma lor_fold_zero (l : list N) acc : foldl N.lor acc l = 0%N <-> acc = 0%N /\ Forall (fun x => x = 0%N) l.
Proof.
  revert acc. induction l as [|x l IH]; intros acc; simpl.
  - split; [by intros ->|by intros [-> _]].
  - rewrite IH, N.lor_eq_0_iff, Forall_cons_iff. tauto.
Qed.

Lemma to_N_inj : Inj (=) (=) Byte.to_N.
Proof. intros a b Hab. apply (f_equal Byte.of_N) in Hab. rewrite !Byte.of_to_N in Hab. by injection Hab. Qed.

Lemma xors_zero (a b : bytes) : length a = length b ->
  Forall (fun x => x = 0%N) ((fun p => N.lxor (Byte.to_N p.1) (Byte.to_N p.2)) <$> combine a b) <-> a = b.
Proof.
  revert b. induction a as [|x a IH]; intros [|y b] Hlen; [|done..|].
  - split; [done|]. intros _. constructor.
  - simpl in Hlen. injection Hlen as Hlen. simpl. rewrite Forall_cons_iff, IH by done. rewrite N.lxor_eq_0_iff.
    split; [|by intros [= -> ->]]. intros [Hxy ->]. by apply to_N_inj in Hxy as ->.
Qed.

Lemma constant_time_compare_spec a b : constant_time_compare a b = true <-> a = b.
Proof.
  unfold constant_time_compare. destruct (Nat.eqb_spec (length a) (length b)) as [Hlen|Hlen]; simpl.
  - rewrite N.eqb_eq. rewrite <- (xors_zero a b Hlen).
    assert (forall l acc, foldl (fun r (p : byte * byte) => N.lor r (N.lxor (Byte.to_N p.1) (Byte.to_N p.2))) acc l
      = foldl N.lor acc ((fun p => N.lxor (Byte.to_N p.1) (Byte.to_N p.2)) <$> l)) as ->.
    { induction l as [|p l IH]; intros acc; [done|]. simpl. apply IH. }
    rewrite lor_fold_zero. tauto.
  - split; [done|]. by intros ->.
Qed.

(** ** Parameters of a query *)

Lemma split_member c s p : p ∈ Text.split c s -> exists l r, s = l +:+ p +:+ r.
Proof.
  revert p. induction s as [|a s IH]; intros p Hp; simpl in Hp.
  - apply list_elem_of_singleton in Hp as ->. by exists "", "".
  - destruct (eqb a c).
    + apply elem_of_cons in Hp as [->|Hp]; [by exists "", (String a s)|].
      destruct (IH p Hp) as (l & r & ->). by exists (String a l), r.
    + destruct (Text.split c s) as [|w ws] eqn:E; [by apply Text.split_nonempty in E|].
      apply elem_of_cons in Hp as [->|Hp].
      * destruct (IH w) as (l & r & Hs); [apply elem_of_cons; by left|].
        assert (exists t, s = w +:+ t) as [t ->]; [|by exists "", t].
        clear -E. revert w ws E. induction s as [|b s IHs]; intros w ws E; simpl in E.
        { injection E as <- _. by exists "". }
        destruct (eqb b c); [injection E as <- _; by exists (String b s)|].
        destruct (Text.split c s) as [|w' ws'] eqn:E'; [by apply Text.split_nonempty in E'|]. injection E as <- _.
        destruct (IHs w' ws' eq_refl) as [t ->]. by exists t.
      * destruct (IH p) as (l & r & ->); [apply elem_of_cons; by right|]. by exists (String a l), r.
Qed.

Lemma split_once_spec c s l r : Text.split_once c s = Some (l, r) -> s = l +:+ String c r.
Proof.
  revert l r. induction s as [|a s IH]; intros l r E; simpl in E; [done|].
  destruct (eqb a c) eqn:Ea; [apply eqb_true in Ea as ->; by injection E as <- <-|].
  destruct (Text.split_once c s) as [[l' r']|]; [|done]. simpl in E. injection E as <- <-. by rewrite (IH l' r' eq_refl).
Qed.

Section Credentials.
Context `{HttpLib} `{HelperEnv} `{PayloadDigests} `{SigningEnv} `{HashOrder}.

Lemma scan_presigned_credential params config p query :
  (forall param, param ∈ params -> exists l r, query = l +:+ param +:+ r) ->
  scan_presigned params config = Some p ->
  Text.contains query "X-Amz-Credential=" || Text.contains query "AWSAccessKeyId=" = true.
Proof.
  induction params as [|param params IH]; intros Hin Hp; simpl in Hp; [done|].
  destruct (Text.split_once "=" param) as [[key raw]|] eqn:E; [|done]. simpl in Hp.
  assert (forall name, eqb key name = true -> Text.contains query (name +:+ "=") = true) as Hkey.
  { intros name Hn. apply eqb_true in Hn as ->. apply split_once_spec in E as ->.
    destruct (Hin _ (list_elem_of_here _ _)) as (l & r & ->). apply Text.contains_spec.
    exists l, (raw +:+ r). by rewrite !Text.app_assoc. }
  apply orb_true_iff.
  destruct (eqb key "X-Amz-Credential") eqn:E1; [left; by apply (Hkey "X-Amz-Credential")|].
  destruct (eqb key "AWSAccessKeyId") eqn:E2; [right; by apply (Hkey "AWSAccessKeyId")|].
  apply orb_true_iff, IH; [|done]. intros param' Hp'. apply Hin, elem_of_cons. by right.
Qed.

(** [valueless_parameter_hides_credentials]. A query whose first parameter has
    no equals sign hides the presigned credentials after it:
    extract_presigned_principal stops there and answers that nobody signed. *)
Theorem valueless_parameter_hides_credentials name query config :
  Text.split_once "=" name = None -> Text.split "&" name = [name] ->
  extract_presigned_principal (name +:+ "&" +:+ query) config = None.
Proof.
  intros Hn Hs. unfold extract_presigned_principal.
  assert (Text.split "&" (name +:+ "&" +:+ query) = name :: Text.split "&" query) as ->; [|simpl; by rewrite Hn].
  clear Hn. revert Hs. induction name as [|a name IH]; intros Hs; [done|]. simpl in Hs.
  change (String a name +:+ "&" +:+ query) with (String a (name +:+ "&" +:+ query)). simpl.
  destruct (eqb a "&"%char); [by destruct (Text.split "&" name) eqn:E; [apply Text.split_nonempty in E|]|].
  destruct (Text.split "&" name) as [|w ws] eqn:E; [by apply Text.split_nonempty in E|]. injection Hs as -> ->.
  by rewrite IH.
Qed.

(** ** Signed requests *)

(** The Authorization header carries the signature of this request. *)
Record header_signed (secret : string) (t : time) (req : Request) : Prop := mkHeaderSigned {
  hs_witness : exists auth signature names scope date_header raw date region,
    header req "authorization" = Some auth /\
    extract_sigv4_signature auth = Some signature /\
    extract_signed_headers auth = Some names /\
    extract_credential_scope auth = Some scope /\
    request_date req = Some (date_header, raw) /\ exact_date raw = Some date /\
    (t - 15 * MINUTE <= date <= t + 15 * MINUTE)%Z /\
    Text.split "/" scope = [format_date_stamp date; region; "s3"; "aws4_request"] /\
    signed_headers_cover req date_header names = true /\
    validate_payload req "s3" = Ok tt /\
    signature = signature_of secret (format_date_stamp date) region "s3" raw scope (build_canonical_request req names) }.

(** The query does, and is not expired. *)
Record query_signed (access_key secret : string) (t : time) (req : Request) : Prop := mkQuerySigned {
  qs_witness : exists u scope request,
    from_query_params "" "" (rq_method req) (parse_query_params (rq_query req)) = Ok u /\
    (1 <= ps_expires_in u <= 604800)%Z /\
    (ps_date u - 15 * MINUTE <= t <= ps_date u + ps_expires_in u * SECOND)%Z /\
    parse_credential_scope (ps_credential u) = Some scope /\
    cs_access_key scope = access_key /\ cs_date scope = format_date_stamp (ps_date u) /\ cs_service scope = "s3" /\
    cs_terminator scope = "aws4_request" /\
    presigned_canonical_request u (rq_method req) (rq_path req) (header_fields req) = Ok request /\
    ps_signature u = signature_of secret (cs_date scope) (cs_region scope) "s3" (format_amz_date (ps_date u))
      (cs_date scope +:+ "/" +:+ cs_region scope +:+ "/s3/aws4_request") request }.

Lemma contract_signed t u req access_key secret query :
  rq_query req = Some query -> from_query_params "" "" (rq_method req) (parse_query_params (Some query)) = Ok u ->
  validate_request_contract_at t u req (mkPresignedConfig access_key secret) = Ok tt ->
  query_signed access_key secret t req.
Proof.
  intros Hq Hu. unfold validate_request_contract_at, validate_components_at. simpl.
  destruct (negb _); [done|].
  destruct ((ps_expires_in u <? 1)%Z || (604800 <? ps_expires_in u)%Z) eqn:E1; [done|].
  destruct (t + 15 * MINUTE <? ps_date u)%Z eqn:E2; [done|].
  destruct (ps_date u + ps_expires_in u * SECOND <? t)%Z eqn:E3; [done|].
  destruct (parse_credential_scope (ps_credential u)) as [scope|] eqn:Es; [|done]. simpl.
  destruct (eqb (cs_access_key scope) access_key) eqn:Ea; [|done]. simpl.
  destruct (eqb (cs_date scope) _) eqn:Ed; [|done]. destruct (eqb (cs_service scope) SERVICE) eqn:Ese; [|done].
  destruct (eqb (cs_terminator scope) "aws4_request") eqn:Et; [|done]. simpl.
  destruct (presigned_canonical_request _ _ _ _) as [request|] eqn:Er; [|done]. simpl.
  destruct (eqb (ps_signature u) _) eqn:Esig; [|done]. intros _.
  rewrite eqb_true in Ea, Ed, Ese, Et, Esig.
  unfold SERVICE in *. rewrite Ese, Et in Esig.
  apply orb_false_iff in E1 as [E1 E1']. apply Z.ltb_ge in E1, E1', E2, E3.
  constructor. exists u, scope, request. rewrite Hq. split_and!; try done; lia.
Qed.

Lemma request_signed t req auth signature names scope raw secret :
  header req "authorization" = Some auth -> extract_sigv4_signature auth = Some signature ->
  extract_signed_headers auth = Some names -> extract_credential_scope auth = Some scope ->
  match header req "x-amz-date" with Some d => Some d | None => header req "date" end = Some raw ->
  validate_request_at req scope names "s3" t = Ok tt ->
  verify signature (build_canonical_request req names) raw scope secret = true ->
  header_signed secret t req.
Proof.
  intros Ha Hsig Hn Hsc Hraw Hv Hver. unfold validate_request_at in Hv.
  assert (exists date_header, request_date req = Some (date_header, raw)) as [date_header Hd].
  { unfold request_date. destruct (header req "x-amz-date"); [injection Hraw as ->; by eexists|].
    rewrite Hraw. by eexists. }
  rewrite Hd in Hv. destruct (exact_date raw) as [date|] eqn:Hdate; [|done]. simpl in Hv.
  destruct ((date <? t - 15 * MINUTE)%Z || (t + 15 * MINUTE <? date)%Z) eqn:Ew; [done|].
  destruct (scope_matches scope date "s3") eqn:Em; [|done]. simpl in Hv.
  destruct (signed_headers_cover req date_header names) eqn:Ec; [|done]. simpl in Hv.
  apply orb_false_iff in Ew as [E1 E2]. apply Z.ltb_ge in E1, E2.
  unfold scope_matches in Em. unfold verify in Hver.
  destruct (Text.split "/" scope) as [|stamp [|region [|service [|terminator [|]]]]] eqn:Esp; try done.
  apply andb_true_iff in Em as [Em Et]. apply andb_true_iff in Em as [Em Es]. apply andb_true_iff in Em as [Em _].
  rewrite eqb_true in Em, Es, Et. subst. apply constant_time_compare_spec, as_bytes_inj in Hver.
  constructor. exists auth, signature, names, scope, date_header, raw, date, region. split_and!; done.
Qed.
End Credentials.

(** ** The check *)

Section Check.
Context `{HttpLib} `{HelperEnv} `{Chrono} `{PayloadDigests} `{Digests} `{QuickXml} `{Env} `{HashOrder}.
Context `{SigningEnv} `{PolicyEnv}.
Context {S : Type} `{S3Storage S} `{AccessStore S}.
Context {mo : mode}.

(** A denial is an answer with an error status. *)
Definition refusal_answer {A} (r : result Response A) : Prop := exists response, r = Err response /\ rs_status response ∈ [400; 403; 501]%N.

Lemma wp_denied {A} status code message req_id (Q : result Response A -> S -> Prop) E C s :
  status ∈ [400; 403; 501]%N -> (forall r, refusal_answer r -> Q r s) -> wp mo (denied status code message req_id) Q E C s.
Proof.
  intros Hst HQ. apply wp_bind, wp_xml_error. intros r [Hr _]. apply wp_ret, HQ. exists r. by rewrite Hr.
Qed.

Ltac refused HQ := apply wp_denied; [set_solver|intros ? ?; by apply HQ; left].

(** What a request that passes the verification shows, at a reading of the clock. *)
Inductive verified (req : Request) (config : AuthConfig) : Prop :=
| VerifiedOff : enforce_auth config = false -> verified req config
| VerifiedOpen : access_key_id config = None \/ secret_access_key config = None -> verified req config
| VerifiedHeader secret t : m_clock mo t -> secret_access_key config = Some secret -> header_signed secret t req ->
    verified req config
| VerifiedQuery access_key secret t : m_clock mo t -> access_key_id config = Some access_key -> secret_access_key config = Some secret ->
    query_signed access_key secret t req -> verified req config
| VerifiedPlain : header req "authorization" = None ->
    Text.contains (default "" (rq_query req)) "X-Amz-Credential=" || Text.contains (default "" (rq_query req)) "AWSAccessKeyId=" = false ->
    verified req config.

Lemma wp_verify req config (Q : result Response unit -> S -> Prop) E C s :
  (forall r, refusal_answer r \/ r = Ok tt /\ verified req config -> Q r s) ->
  wp mo (verify_sigv4_signature req config) Q E C s.
Proof.
  intros HQ. unfold verify_sigv4_signature.
  assert (forall u, verified req config -> wp mo (mret (Ok u)) Q E C s) as Hok by (intros [] ?; apply wp_ret, HQ; by right).
  assert (forall e req_id, wp mo (request_validation_failure e req_id) Q E C s) as Hrv by (intros [] ?; refused HQ).
  assert (forall e req_id, wp mo (presigned_validation_failure e req_id) Q E C s) as Hpv by (intros [] ?; refused HQ).
  destruct (enforce_auth config) eqn:Hen; simpl; [|by apply Hok, VerifiedOff].
  destruct (header req "authorization") as [auth|] eqn:Ha.
  - apply wp_bind, wp_request_id. intros req_id. destruct (negb _); [refused HQ|]. unfold verify_header.
    destruct (match header req "x-amz-date" with Some d => Some d | None => _ end) as [raw|] eqn:Hraw; [|refused HQ].
    destruct (extract_sigv4_signature auth) as [signature|] eqn:Hsig; [|refused HQ].
    destruct (extract_signed_headers auth) as [[|n names]|] eqn:Hn; [refused HQ| |refused HQ].
    destruct (extract_credential_scope auth) as [scope|] eqn:Hsc; [|refused HQ].
    destruct (secret_access_key config) as [secret|] eqn:Hsk; [|apply Hok, VerifiedOpen; by right].
    destruct (access_key_id config) eqn:Hak; [|apply Hok, VerifiedOpen; by left].
    destruct (is_none _); [refused HQ|]. apply wp_bind, wp_clock. intros t Ht.
    destruct (validate_request_at _ _ _ _ _) as [[]|] eqn:Hv; [|done]. destruct (verify _ _ _ _ _) eqn:Hver; [|refused HQ].
    apply Hok, (VerifiedHeader _ _ secret t Ht Hsk). by eapply request_signed.
  - unfold verify_query, verify_presign. lazymatch goal with |- wp _ (if ?c then _ else _) _ _ _ _ => destruct c eqn:Hcomplete end.
    + apply wp_bind, wp_request_id. intros req_id.
      destruct (rq_query req) as [query|] eqn:Hq; [simpl|by vm_compute in Hcomplete].
      destruct (from_query_params _ _ _ _) as [u|] eqn:Hu; [|refused HQ].
      destruct (access_key_id config) as [access_key|] eqn:Hak; [|apply Hok, VerifiedOpen; by left].
      destruct (secret_access_key config) as [secret|] eqn:Hsk; [|apply Hok, VerifiedOpen; by right].
      apply wp_bind, wp_clock. intros t Ht. destruct (validate_request_contract_at _ _ _ _) as [[]|] eqn:Hv; [|done].
      destruct (validate_payload _ _); [|done]. apply Hok, (VerifiedQuery _ _ access_key secret t Ht Hak Hsk).
      by eapply contract_signed.
    + lazymatch goal with |- wp _ (if negb ?c then _ else _) _ _ _ _ => destruct c eqn:Hcred end; simpl; [apply wp_bind, wp_request_id; intros req_id; refused HQ|].
      apply Hok. by apply VerifiedPlain.
Qed.
End Check.

(** ** Authenticated requests *)

Section Authenticated.
Context `{HttpLib} `{HelperEnv} `{Chrono} `{PayloadDigests} `{Digests} `{QuickXml} `{Env} `{HashOrder}.
Context `{SigningEnv} `{PolicyEnv}.
Context {S : Type} `{S3Storage S} `{AccessStore S}.

Lemma plain_request_anonymous req config : enforce_auth config = true -> header req "authorization" = None ->
  Text.contains (default "" (rq_query req)) "X-Amz-Credential=" || Text.contains (default "" (rq_query req)) "AWSAccessKeyId=" = false ->
  is_authenticated (from_request req config) = false.
Proof.
  intros Hen Ha Hq. unfold from_request, header_principal. rewrite Hen, Ha. simpl.
  destruct (query_principal req config) as [p|] eqn:Hp; [|done]. unfold query_principal in Hp.
  destruct (rq_query req) as [query|]; [|done]. cbn [mbind option_bind default] in *.
  match type of Hp with (if ?c then _ else _) = _ => destruct c end; [|done].
  pose proof (scan_presigned_credential (Text.split "&" query) config p query (split_member _ _) Hp) as Hc.
  unfold default, id in Hq. by rewrite Hc in Hq.
Qed.

(** C12 [authenticated_only_with_signature]. With authorization enforced, a
    request that passes verify_sigv4_signature and is taken for the owner
    carries a genuine signature: either its Authorization header or its query
    was signed with the configured secret over this very request, and its time
    and expiry held at a clock reading of the verification. *)
Theorem authenticated_only_with_signature access_key secret req config σ (s s' : S) σ' :
  enforce_auth config = true -> access_key_id config = Some access_key -> secret_access_key config = Some secret ->
  verify_sigv4_signature req config σ s = (Done (Ok tt), s', σ') -> is_authenticated (from_request req config) = true ->
  exists n, header_signed secret (sc_clock σ n) req \/ query_signed access_key secret (sc_clock σ n) req.
Proof.
  intros Hen Hak Hsk Hrun Hauth.
  set (mo := mkMode true (fun _ => True) (fun t => exists n, t = sc_clock σ n)).
  assert (wp mo (verify_sigv4_signature req config)
    (fun r _ => r = Ok tt -> verified (mo := mo) req config) (fun _ _ => True) (fun _ : S => True) s) as Hwp.
  { apply wp_verify. by intros r [(resp & -> & _)|[-> ?]]. }
  assert (sched_ok mo σ) as Hσ by (split_and!; simpl; by eauto).
  pose proof (wp_run _ _ _ _ _ _ _ _ _ _ Hwp Hσ Hrun eq_refl) as Hv.
  destruct Hv as [Hoff|[Hk|Hk]|secret' t [n ->] Hk Hs|ak' sk' t [n ->] Hk1 Hk2 Hs|Ha Hq]; try congruence.
  - exists n. left. by simplify_eq.
  - exists n. right. by simplify_eq.
  - by rewrite (plain_request_anonymous req config Hen Ha Hq) in Hauth.
Qed.
End Authenticated.
