(* ===== verification/ObjectReadFacts.v ===== *)
(** * ObjectReadFacts: what GET and HEAD answer

    Against any store with the promises of [PlainStore]: the bytes, the status
    and the headers of a full and of a range read, for every precondition and
    encryption header; the preconditions compared with the order of evaluation of
    RFC 9110, and the range parser of the handler with the one of the other
    providers. *)

From Stdlib Require Import Ascii Strings.Byte.
From stdpp Require Import pretty.
From S2P Require Import Prelude Text Models Policy SkipMap Index Utf8 FsModel Publication FileFacts.
From S2P Require Import Lifecycle Storage StorageFacts ConditionFacts Versions Listing LifecycleExecutor.
From S2P Require Import Http Cors Checksums ObjectHelpers Routing ObjectHandlers ObjectWrites PlainStore HandlerRules.

(** The status a verdict answers with, if it answers. *)
Definition verdict_status (v : verdict) : option N :=
  match v with
  | Proceed => None
  | NotModified => Some 304%N
  | Failed412 => Some 412%N
  | Missing404 => Some 404%N
  end.

(** What the encryption headers and the preconditions of a read answer. *)
Definition read_refusal `{HttpLib} `{Chrono} (req : Request) (o : Object) : option N :=
  match sse_refusal req o with
  | Some (status, _, _) => Some status
  | None => verdict_status (object_verdict req o)
  end.

Section Reads.
Context `{HttpLaws} `{HelperEnv} `{Chrono} `{PayloadDigests} `{Digests} `{QuickXml} `{Env} `{HashOrder}.
Context {S : Type} `{PlainStore S}.
Implicit Types s : S.
Abbreviation never := (fun _ : S => False).

Lemma object_headers_status b o req_id Q E C s :
  (forall b', rb_status b' = rb_status b -> Q b' s) ->
  wp calm (object_response_headers b o req_id : io S _) Q E C s.
Proof. intros HQ. apply wp_object_headers. by auto. Qed.

Lemma wp_conditionals req o req_id Q E C s :
  (forall r, match r with
             | Some resp => verdict_status (object_verdict req o) = Some (rs_status resp)
             | None => verdict_status (object_verdict req o) = None
             end -> Q r s) ->
  wp calm (check_object_conditionals req o req_id : io S _) Q E C s.
Proof.
  intros HQ. unfold check_object_conditionals, respond. destruct (object_verdict req o).
  - by apply wp_ret, HQ.
  - apply wp_bind, wp_bind, object_headers_status. intros b' Hb'. apply wp_ret, wp_ret, HQ. simpl. by rewrite Hb'.
  - apply wp_bind, wp_xml_error. intros r [Hr _]. apply wp_ret, HQ. by rewrite Hr.
  - apply wp_bind, wp_xml_error. intros r [Hr _]. apply wp_ret, HQ. by rewrite Hr.
Qed.

Lemma wp_sse req o req_id Q E C s :
  (forall r, match r with
             | Some resp => (fun x => x.1.1) <$> sse_refusal req o = Some (rs_status resp)
             | None => sse_refusal req o = None
             end -> Q r s) ->
  wp calm (validate_get_sse_headers req o req_id : io S _) Q E C s.
Proof.
  intros HQ. unfold validate_get_sse_headers. destruct (sse_refusal req o) as [[[status code] message]|].
  - apply wp_bind, wp_xml_error. intros r [Hr _]. apply wp_ret, HQ. simpl. by rewrite Hr.
  - by apply wp_ret, HQ.
Qed.

(** The two checks in a row, before or after the payload is read. *)
Lemma wp_two_checks req o req_id Q E C s :
  (forall resp, read_refusal req o = Some (rs_status resp) -> Q (Some resp) s) ->
  (read_refusal req o = None -> Q None s) ->
  wp calm (or_else (validate_get_sse_headers req o req_id) (check_object_conditionals req o req_id) : io S _) Q E C s.
Proof.
  intros HS HN. apply wp_bind, wp_sse. intros [resp|] Hr.
  - apply wp_ret, HS. unfold read_refusal. destruct (sse_refusal req o) as [[[]]|]; [done|by inversion Hr].
  - apply wp_conditionals. intros [resp|] Hv; [apply HS|apply HN]; unfold read_refusal; by rewrite Hr.
Qed.

Lemma wp_admission bucket m key o data req req_id Q s :
  stored bucket m key (Some (o, data)) s -> is_s3_delete_marker o = false ->
  (forall r s', stored bucket m key (Some (o, data)) s' ->
     read_refusal req o = match r with Some resp => Some (rs_status resp) | None => None end -> Q r s') ->
  wp calm (read_admission_conditions bucket key None req req_id) Q (fun _ _ => False) never s.
Proof.
  intros Hs Hmark HQ. unfold read_admission_conditions. apply wp_bind. eapply wp_metadata; [exact Hs|].
  intros s' Hs'. simpl. change (is_s3_delete_marker (strip_data o)) with (is_s3_delete_marker o). rewrite Hmark.
  apply wp_two_checks; [intros resp Hr|intros Hr]; (apply HQ; [exact Hs'|exact Hr]).
Qed.

(** The response that carries [data]. *)
Definition carries (status : N) (o : Object) (data : bytes) (range : option string) (r : Response) : Prop :=
  rs_status r = status /\ rs_body r = data /\
  hm_get "content-length" (rs_headers r) = Some (pretty (size_of data)) /\
  hm_get "content-range" (rs_headers r) = range /\
  hm_get "etag" (rs_headers r) = Some (quoted_etag (o_etag o)).

Lemma build_with_length b v : header_of "content-length" b = Some v ->
  build b = mkResponse (rb_status b) (rb_headers b) (rb_body b).
Proof. unfold header_of, build. intros Hl. rewrite Hl. by destruct (rb_body b). Qed.

Lemma wp_payload_response bucket m key x req req_id obj status (range : option selection) Q s :
  let data := match range with Some (data, _, _) => data | None => o_data obj end in
  let cr := (fun x => x.2) <$> range in
  stored bucket m key x s -> read_refusal req obj = None -> header_value (quoted_etag (o_etag obj)) = true ->
  match range with
  | Some (data, len, cr) => len = size_of data /\ header_value cr = true
  | None => o_size obj = size_of (o_data obj)
  end ->
  (forall r s', stored bucket m key x s' -> carries status obj data cr r -> Q r s') ->
  wp calm (object_payload_response bucket req req_id obj status range) Q (fun _ _ => False) never s.
Proof.
  intros data cr Hs Hread Hetag Hrange HQ. unfold read_refusal in Hread.
  apply wp_unless_answered, wp_sse. intros [resp|] Hr;
    [destruct (sse_refusal req obj) as [[[]]|]; simplify_eq/=|].
  rewrite Hr in Hread. apply wp_unless_answered, wp_conditionals. intros [resp|] Hv; [by rewrite Hread in Hv|].
  set (pieces := match range with Some (data, len, content_range) => (data, len, Some content_range)
                             | None => (o_data obj, o_size obj, None) end).
  assert (pieces = (data, size_of data, cr)) as ->.
  { unfold pieces, data, cr. destruct range as [[[d l] c]|]; [by destruct Hrange as [-> _]|by rewrite Hrange]. }
  set (b1 := with_header "Content-Length" _ _).
  set (b2 := match cr with Some content_range => with_header "Content-Range" content_range b1 | None => b1 end).
  assert (rb_status b2 = status /\ header_of "content-length" b2 = Some (pretty (size_of data)) /\
          header_of "content-range" b2 = cr) as (Hst & Hlen & Hcr).
  { assert (rb_status b1 = status /\ header_of "content-length" b1 = Some (pretty (size_of data)) /\
            header_of "content-range" b1 = None) as (S1 & L1 & R1).
    { unfold b1, with_content_type. rewrite !(proj1 (with_header_parts _ _ _)). split_and!; [done| |].
      - apply (header_of_set "Content-Length"); [done|done|]. apply header_value_visible, pretty_visible.
      - rewrite !header_of_other by done. apply hm_get_empty. }
    unfold b2. destruct cr as [c|] eqn:Ec; [|done]. rewrite (proj1 (with_header_parts _ _ _)). split_and!; [done| |].
    - by rewrite header_of_other.
    - apply (header_of_set "Content-Range"); [done|done|].
      unfold cr in Ec. destruct range as [[[d l] c']|]; [|done]. injection Ec as <-. apply Hrange. }
  apply wp_bind, wp_object_headers. intros b3 S3 _ L3 R3 E3. apply wp_bind.
  eapply wp_with_cors; [exact Hs|]. intros b4 s' Hs' He4.
  assert (extends b3 b4) as (S4 & _ & K4) by (eapply extends_trans; [apply extends_retrieval|exact He4]).
  apply wp_ret, HQ; [done|].
  assert (header_of "content-length" b4 = Some (pretty (size_of data))) as Hl4.
  { by rewrite K4, L3 by set_solver. }
  rewrite (build_with_length (with_body data b4) (pretty (size_of data))) by done.
  split_and!; simpl; [by rewrite S4, S3|done|done| |].
  - change (header_of "content-range" b4 = cr). rewrite K4, R3 by set_solver. done.
  - change (header_of "etag" b4 = Some (quoted_etag (o_etag obj))). rewrite K4 by set_solver. by apply E3.
Qed.

(** *** Whole requests *)

(** No delete marker hides a key of a bucket without versioning. *)
Lemma wp_marker_or bucket m key x req req_id resp Q s :
  stored bucket m key x s -> (forall s', stored bucket m key x s' -> Q resp s') ->
  wp calm (marker_or bucket key req req_id resp) Q (fun _ _ => False) never s.
Proof.
  intros Hs HQ. apply wp_bind, wp_bind. eapply wp_runs; [apply plain_versions|exact Hs|].
  intros r s' [Hs' ->]. by apply wp_ret, wp_ret, HQ.
Qed.

(** What a read of [range] answers, [x] being stored under the key. *)
Definition read_answer (req : Request) (range : option (N * option N)) (x : option (Object * bytes)) (r : Response) : Prop :=
  match x with
  | None => rs_status r = 404%N
  | Some (o, data) =>
      match read_refusal req o with
      | Some status => rs_status r = status
      | None =>
          match selected_len (size_of data) range with
          | None => rs_status r = 416%N
          | Some len =>
              if (MATERIALIZATION_LIMIT <? len)%N then rs_status r = 501%N
              else match range with
                   | Some (start, _) =>
                       carries 206 o (slice start len data) (Some (content_range start len (size_of data))) r
                   | None => carries 200 o data None r
                   end
          end
      end
  end.

(** What the theorems assume of the stored object: it is no delete marker, its
    length is a 64-bit number and its ETag can be sent. *)
Definition readable (x : option (Object * bytes)) : Prop :=
  match x with
  | None => True
  | Some (o, data) => is_s3_delete_marker o = false /\ (size_of data < 2 ^ 64)%N /\
                      header_value (quoted_etag (o_etag o)) = true
  end.

Lemma content_range_value start len size : header_value (content_range start len size) = true.
Proof.
  apply header_value_visible. unfold content_range. rewrite !all_of_app, !pretty_visible. done.
Qed.

(** The read behind the preconditions. *)
Definition read_response (bucket key : string) (req : Request) (req_id : string) (range : option (N * option N))
    : io S Response :=
  unless_answered (read_admission_conditions bucket key None req req_id)
    (r ← payload bucket key None range req_id;
     match r with
     | Ok obj =>
         match range with
         | Some (start, _) => object_payload_response bucket req req_id (with_data [] obj) 206 (Some (select start obj))
         | None => object_payload_response bucket req req_id obj 200 None
         end
     | Err response => marker_or bucket key req req_id response
     end).

Lemma wp_missing bucket m key req req_id range Q s :
  stored bucket m key None s ->
  (forall r s', stored bucket m key None s' -> rs_status r = 404%N -> Q r s') ->
  wp calm (read_response bucket key req req_id range) Q (fun _ _ => False) never s.
Proof.
  intros Hs HQ. apply wp_unless_answered. unfold read_admission_conditions.
  apply wp_bind. eapply wp_metadata; [exact Hs|]. intros s1 Hs1. apply wp_ret.
  apply wp_bind. unfold payload. apply wp_bind. eapply wp_metadata; [exact Hs1|]. intros s2 Hs2.
  apply wp_refused. intros r [Hr _]. eapply wp_marker_or; [exact Hs2|]. intros s3 Hs3. by apply HQ.
Qed.

Lemma wp_read_response bucket m key x req req_id range Q s :
  stored bucket m key x s -> readable x ->
  (forall r s', stored bucket m key x s' -> read_answer req range x r -> Q r s') ->
  wp calm (read_response bucket key req req_id range) Q (fun _ _ => False) never s.
Proof.
  intros Hs Hx HQ. destruct x as [[o data]|]; [|by eapply wp_missing].
  destruct Hx as (Hmark & Hsize & Hetag). simpl in HQ.
  apply wp_unless_answered. eapply wp_admission; [exact Hs|exact Hmark|].
  intros [resp|] s1 Hs1 Hr; rewrite Hr in HQ; [by apply HQ|].
  apply wp_bind. eapply wp_payload; [exact Hs1|exact Hmark|exact Hsize|].
  intros r s2 Hs2 Hb. destruct Hb as [len Hlen Hfit|r Hlen [Hr' _]|len r Hlen Hbig Hr'].
  - rewrite Hlen, (proj2 (N.ltb_ge _ _)) in HQ by done. destruct range as [[start stop]|].
    + assert (start + len <= size_of data)%N as Hle.
      { simpl in Hlen. destruct (N.ltb_spec start (size_of data)); [|done].
        destruct (N.ltb_spec (N.min (default (size_of data - 1)%N stop) (size_of data - 1)) start); [done|].
        destruct (2 ^ 64 <=? _)%N; [done|]. injection Hlen as <-. lia. }
      eapply wp_payload_response; [exact Hs2|exact Hr|exact Hetag|split; [done|apply content_range_value]|].
      intros resp s3 Hs3 Hc. apply HQ; [done|].
      unfold select in Hc. cbn [fst snd fmap option_fmap option_map o_data with_data o_size strip_data] in Hc.
      simpl in Hc. rewrite size_of_slice in Hc by done.
      by rewrite (stored_size _ _ _ _ _ _ Hs2) in Hc.
    + simpl in Hlen. injection Hlen as <-.
      assert (slice 0 (size_of data) data = data) as Hall by (unfold slice, size_of; rewrite Nat2N.id; by apply take_ge).
      simpl. rewrite Hall.
      eapply wp_payload_response; [exact Hs2|exact Hr|exact Hetag| |].
      * simpl. by rewrite (stored_size _ _ _ _ _ _ Hs2).
      * intros resp s3 Hs3 Hc. by apply HQ.
  - rewrite Hlen in HQ. eapply wp_marker_or; [exact Hs2|]. intros s3 Hs3. by apply HQ.
  - rewrite Hlen, (proj2 (N.ltb_lt _ _)) in HQ by done. eapply wp_marker_or; [exact Hs2|]. intros s3 Hs3. by apply HQ.
Qed.

(** C19 [get_object_exact]. A GET of an object, on any store that keeps the
    promises of a plain bucket, answers exactly what is stored: 404 without an
    object, the refusal of its customer-key and precondition headers, 501
    above the materialization limit, and otherwise 200 with the whole data,
    its length and its entity tag; the store is left as it was. *)
Theorem get_object_exact bucket m key x req req_id s σ :
  stored bucket m key x s -> readable x -> sched_ok calm σ ->
  exists r s' σ', object_full_response bucket key req req_id σ s = (Done r, s', σ') /\
    stored bucket m key x s' /\ read_answer req None x r.
Proof.
  intros Hs Hx Hσ. apply (wp_calm_run (object_full_response bucket key req req_id)
    (fun r s' => stored bucket m key x s' /\ read_answer req None x r)); [|done].
  by eapply (wp_read_response bucket m key x req req_id None).
Qed.

(** A range of the strict syntax is read as such. *)
Lemma strict_range_read value range : parse_byte_range value = Some range -> parse_range value = Some range.
Proof.
  unfold parse_byte_range, parse_range. destruct (Text.strip_prefix value "bytes=") as [rest|]; [|done]. simpl.
  destruct (Text.split_once "-" rest) as [[a b]|]; [|done]. simpl.
  destruct (Text.parse_u64 a) as [start|]; [|done]. simpl.
  destruct b as [|c b]; simpl; [by intros [= <-]|].
  destruct (Text.parse_u64 (String c b)) as [stop|] eqn:Eb; [|done]. simpl.
  destruct (stop <? start)%N; [done|]. intros [= <-].
  destruct (eqb " "%char c) eqn:Ec; [|done]. apply eqb_true in Ec as <-. by vm_compute in Eb.
Qed.

(** C36 [range_request_exact]. A range GET in a bucket without versioning and
    without storage faults (where an object is stored it is no delete marker,
    is smaller than 2^64 bytes and has an entity tag that is a header value)
    answers 416 to a header that parse_range cannot read (no bytes= prefix, no
    hyphen, or no number before it) and to a range that starts past the end or
    ends before its start, and otherwise 206 with exactly the bytes from the
    start to the clamped end and a matching Content-Range, or the refusal that
    comes first (404, customer key, preconditions, 501 above the limit). A
    range of the strict syntax of parse_byte_range is served as that range; an
    end that is not a number is read as an open range, not refused. *)
Theorem range_request_exact bucket m key x req req_id value s σ :
  stored bucket m key x s -> readable x -> sched_ok calm σ ->
  exists r s' σ', object_range_response bucket key req req_id value σ s = (Done r, s', σ') /\
    stored bucket m key x s' /\
    match parse_range value with
    | Some range => read_answer req (Some range) x r
    | None => rs_status r = 416%N
    end /\
    forall range, parse_byte_range value = Some range -> read_answer req (Some range) x r.
Proof.
  intros Hs Hx Hσ. destruct (wp_calm_run (object_range_response bucket key req req_id value)
    (fun r s' => stored bucket m key x s' /\ match parse_range value with
       | Some range => read_answer req (Some range) x r | None => rs_status r = 416%N end) s σ)
    as (r & s' & σ' & Hrun & Hs' & Hr); [|done|].
  2:{ exists r, s', σ'. split_and!; [done..|]. intros range Hstrict. by rewrite (strict_range_read _ _ Hstrict) in Hr. }
  unfold object_range_response. destruct (parse_range value) as [[start stop]|].
  - by eapply (wp_read_response bucket m key x req req_id (Some (start, stop))).
  - apply wp_xml_error. by intros r [Hr _].
Qed.
(** [head_object_exact]. HEAD of the current object answers 404, the refusal
    of its headers, or 200 with an empty body, the length of the stored data
    and its entity tag. *)
Theorem head_object_exact bucket m key x req req_id s σ :
  stored bucket m key x s -> readable x -> query_param req "versionId" = None -> sched_ok calm σ ->
  exists r s' σ', head_response bucket key req req_id σ s = (Done r, s', σ') /\ stored bucket m key x s' /\
    match x with
    | None => rs_status r = 404%N /\ rs_body r = []
    | Some (o, data) =>
        match read_refusal req o with
        | Some status => rs_status r = status
        | None => rs_status r = 200%N /\ rs_body r = [] /\
                  hm_get "content-length" (rs_headers r) = Some (pretty (size_of data)) /\
                  hm_get "etag" (rs_headers r) = Some (quoted_etag (o_etag o))
        end
    end.
Proof.
  intros Hs Hx Hq Hσ. apply (wp_calm_run (head_response bucket key req req_id) (fun r s' => stored bucket m key x s' /\ _)); [|done].
  unfold head_response. rewrite Hq. apply wp_bind. eapply wp_metadata; [exact Hs|]. intros s1 Hs1.
  destruct x as [[o data]|]; simpl.
  - destruct Hx as (_ & _ & Hetag). apply wp_unless_answered, wp_sse. intros [resp|] Hr.
    { split; [done|]. unfold read_refusal. change (sse_refusal req (strip_data o)) with (sse_refusal req o) in Hr.
      destruct (sse_refusal req o) as [[[]]|]; simplify_eq/=. done. }
    apply wp_unless_answered, wp_conditionals. intros [resp|] Hv.
    + split; [done|]. unfold read_refusal. change (sse_refusal req o = None) in Hr. rewrite Hr.
      change (object_verdict req (strip_data o)) with (object_verdict req o) in Hv. by rewrite Hv.
    + unfold head_builder. apply wp_bind, wp_bind, wp_object_headers. intros b S1 B1 L1 _ E1. apply wp_ret, wp_bind.
      eapply wp_with_cors; [exact Hs1|]. intros b' s2 Hs2 He.
      assert (extends b b') as (S2 & _ & K2) by (eapply extends_trans; [apply extends_retrieval|exact He]).
      apply wp_ret. split; [done|]. unfold read_refusal. change (sse_refusal req o = None) in Hr. rewrite Hr.
      change (object_verdict req (strip_data o)) with (object_verdict req o) in Hv. rewrite Hv. split_and!; simpl.
      * rewrite S2, S1. unfold with_content_type. by rewrite !(proj1 (with_header_parts _ _ _)).
      * done.
      * change (header_of "content-length" b' = Some (pretty (size_of data))). rewrite K2, L1 by set_solver.
        change (o_size (strip_data o)) with (o_size o). rewrite (stored_size _ _ _ _ _ _ Hs1).
        apply (header_of_set "Content-Length"); [done|done|]. apply header_value_visible, pretty_visible.
      * change (header_of "etag" b' = Some (quoted_etag (o_etag o))). rewrite K2 by set_solver. by apply E1.
  - apply wp_bind, wp_bind. eapply wp_runs; [apply plain_versions|exact Hs1|]. intros r s2 [Hs2 ->]. apply wp_ret. simpl.
    unfold head_missing, add_ids. apply wp_bind, wp_bind, wp_request_id. intros u. apply wp_ret, wp_bind.
    eapply wp_with_cors; [exact Hs2|]. intros b s3 Hs3 (S3 & _). apply wp_ret. split; [done|]. split; [|done].
    simpl. rewrite S3. by rewrite !(proj1 (with_header_parts _ _ _)).
Qed.
End Reads.

(** ** Preconditions and ranges against a reference *)

Section Reference.
Context `{HttpLib} `{Chrono}.

(** RFC 9110, section 13.2.2: [If-Unmodified-Since] counts only without
    [If-Match], and [If-Modified-Since] only without [If-None-Match]. *)
Definition rfc9110_verdict (req : Request) (o : Object) : verdict :=
  let step1 :=
    match header req "if-match" with
    | Some v => strong_etag_list_matches v (o_etag o)
    | None => match header req "if-unmodified-since" ≫= parse_rfc2822 with
              | Some since => (o_last_modified o <=? since)%Z
              | None => true
              end
    end in
  let step3 :=
    match header req "if-none-match" with
    | Some v => negb (weak_etag_list_matches v (o_etag o))
    | None => match header req "if-modified-since" ≫= parse_rfc2822 with
              | Some since => (since <? o_last_modified o)%Z
              | None => true
              end
    end in
  if negb step1 then Failed412 else if negb step3 then NotModified else Proceed.

(** [preconditions_follow_rfc9110]. Where a request does not combine an
    entity-tag precondition with the date precondition it overrides,
    check_object_conditionals decides as the evaluation order of RFC 9110
    does. *)
Theorem preconditions_follow_rfc9110 req o :
  (header req "if-match" = None \/ header req "if-unmodified-since" = None) ->
  (header req "if-none-match" = None \/ header req "if-modified-since" = None) ->
  object_verdict req o = rfc9110_verdict req o.
Proof.
  intros HA HB. unfold object_verdict, rfc9110_verdict, modified_after.
  assert (forall a b : Z, (a <=? b)%Z = negb (b <? a)%Z) as Hle by (intros; by rewrite Z.ltb_antisym, negb_involutive).
  destruct (header req "if-match") as [im|], (header req "if-unmodified-since") as [ius|],
    (header req "if-none-match") as [inm|], (header req "if-modified-since") as [ims|]; simpl;
    try (by destruct HA); try (by destruct HB);
    repeat match goal with
    | |- context [strong_etag_list_matches ?a ?b] => destruct (strong_etag_list_matches a b); simpl
    | |- context [weak_etag_list_matches ?a ?b] => destruct (weak_etag_list_matches a b); simpl
    | |- context [parse_rfc2822 ?a] => destruct (parse_rfc2822 a); simpl
    end; rewrite ?Hle; unfold id; repeat case_match; simplify_eq/=; try done.
Qed.

(** [changed_entity_not_modified]. A request with If-None-Match that does not
    match and an If-Modified-Since in the future is answered 304 although the
    entity changed; RFC 9110 says the date is to be ignored then. *)
Theorem changed_entity_not_modified req o tags date since :
  header req "if-match" = None -> header req "if-unmodified-since" = None ->
  header req "if-none-match" = Some tags -> weak_etag_list_matches tags (o_etag o) = false ->
  header req "if-modified-since" = Some date -> parse_rfc2822 date = Some since -> (o_last_modified o <= since)%Z ->
  object_verdict req o = NotModified /\ rfc9110_verdict req o = Proceed.
Proof.
  intros H1 H2 H3 H4 H5 H6 Hle. unfold object_verdict, rfc9110_verdict, modified_after.
  rewrite H1, H2, H3, H5. simpl. rewrite H4, H6. simpl. by rewrite (proj2 (Z.ltb_ge _ _) Hle).
Qed.
End Reference.

(** [range_parsers_agree]. Every range that parse_byte_range of the request
    utilities accepts is read the same way by parse_range of the handlers. *)
Theorem range_parsers_agree value range : parse_byte_range value = Some range -> parse_range value = Some range.
Proof. apply strict_range_read. Qed.
