(* ===== verification/ObjectWriteFacts.v ===== *)
(** * ObjectWriteFacts: what PUT and DELETE do to a bucket

    Against any store with the promises of [PlainStore]: conditional puts are a
    compare-and-set, a put is read back by GET, a retained object survives every
    put and delete, and an accepted put carries no checksum that differs from its
    payload. *)

From Stdlib Require Import Ascii Strings.Byte.
From stdpp Require Import pretty.
From S2P Require Import Prelude Text Models Policy SkipMap Index Utf8 Validation FsModel Publication FileFacts.
From S2P Require Import Lifecycle Storage StorageFacts ConditionFacts Versions Listing LifecycleExecutor.
From S2P Require Import Http Cors Checksums ObjectHelpers ObjectHandlers ObjectWrites.
From S2P Require Import Multipart XmlDocuments MultipartRequests PlainStore HandlerRules.
From S2P Require Import ObjectReadFacts.

(** ** Checksums *)

Section Admission.
Context `{HttpLib} `{PayloadDigests}.

(** [accepted_checksums_match]. A put that validate_put accepts carries at
    most one checksum header, each one equal to the digest of the received
    payload, and a declared algorithm names the one supplied. *)
Theorem accepted_checksums_match req :
  put_refusal req = None ->
  (forall algorithm suffix value, (algorithm, suffix) ∈ ALGORITHMS ->
     header req (CHECKSUM_PREFIX +:+ suffix) = Some value -> base64_decode value = Some (digest req algorithm)) /\
  (length (supplied req) <= 1)%nat /\
  (forall declared, header req "x-amz-sdk-checksum-algorithm" = Some declared ->
     exists value, supplied req = [(declared, value)]).
Proof.
  unfold put_refusal. destruct (unsupported_variant req); [done|].
  destruct (check_headers _ _); [done|]. destruct (is_some_and _ _); [done|].
  destruct (Nat.ltb_spec 1 (length (supplied req))) as [?|Hlen]; [done|].
  destruct (check_declared _ _ _) eqn:Hdecl; [done|]. intros Hdig.
  assert (forall algorithm value, (algorithm, value) ∈ supplied req ->
    base64_decode value = Some (digest req algorithm)) as Hall.
  { revert Hdig. generalize (supplied req). induction l as [|[a v] l IH]; intros Hdig alg value Hin; [by apply elem_of_nil in Hin|].
    simpl in Hdig. destruct (base64_decode v) as [decoded|] eqn:Ed; [|done].
    destruct (Nat.eqb _ _); [|done]. destruct (eqb decoded _) eqn:Ee; [|done]. apply eqb_true in Ee as ->.
    apply elem_of_cons in Hin as [[= -> ->]|Hin]; [done|by apply IH]. }
  split_and!; [|lia|].
  - intros algorithm suffix value Hin Hv. apply Hall. unfold supplied. apply list_elem_of_omap.
    exists (algorithm, suffix). split; [done|]. simpl. by rewrite Hv.
  - intros declared Hd. rewrite Hd in Hdecl. simpl in Hdecl.
    destruct (supplied req) as [|[alg v] [|? ?]]; simpl in *; [done| |lia].
    destruct (eqb alg declared) eqn:Ea; [|done]. apply eqb_true in Ea as ->. by exists v.
Qed.
End Admission.

Section Writes.
Context `{HttpLaws} `{HelperEnv} `{Chrono} `{PayloadDigests} `{Digests} `{QuickXml} `{Env} `{HashOrder}.
Context {S : Type} `{PlainStore S}.
Implicit Types s : S.
Abbreviation never := (fun _ : S => False).

Definition suspended_status (m : strmap) : bool := eqb (m !! "s3_versioning_status") (Some "Suspended").

Lemma wp_preserves bucket m key x current Q s :
  stored bucket m key x s -> o_version_id current = None ->
  (forall s', stored bucket m key x s' -> Q (suspended_status m) s') ->
  wp calm (s3_mutation_preserves_current_version bucket current) Q (fun _ _ => False) never s.
Proof.
  intros Hs Hv HQ. apply wp_bind. eapply wp_runs; [apply plain_bucket|exact Hs|].
  intros r s' (Hs' & bk & -> & Hen & <-). apply wp_ret. rewrite Hen, Hv. simpl. rewrite andb_true_r. by apply HQ.
Qed.

(** ** Retained objects *)

Definition on_legal_hold (o : Object) : bool :=
  is_some_and (fun value => Text.eq_ignore_ascii_case value "ON") (o_provider_metadata o !! S3_OBJECT_LOCK_LEGAL_HOLD_KEY).

Lemma held_is_locked t o : on_legal_hold o = true -> object_is_locked t o = true.
Proof. unfold on_legal_hold, object_is_locked. by intros ->. Qed.

Lemma wp_locked_in_place bucket m key o data Q s :
  stored bucket m key (Some (o, data)) s -> on_legal_hold o = true -> suspended_status m = false ->
  (forall s', stored bucket m key (Some (o, data)) s' -> Q true s') ->
  wp calm (locked_in_place bucket (strip_data o)) Q (fun _ _ => False) never s.
Proof.
  intros Hs Hh Hm HQ. apply wp_bind, wp_now. intros t. rewrite (held_is_locked t (strip_data o)) by done.
  apply wp_bind. eapply wp_preserves; [exact Hs|by apply (stored_version _ _ _ _ _ _ Hs)|].
  intros s' Hs'. rewrite Hm. by apply wp_ret, HQ.
Qed.

(** The answer refuses the request. *)
Definition refusing (r : Response) : Prop := rs_status r = 400%N \/ rs_status r = 403%N \/ rs_status r = 501%N.

Lemma object_lock_refusal_status enabled t req status code message :
  object_lock_refusal enabled t req = Some (status, code, message) -> status = 400%N \/ status = 501%N.
Proof. unfold object_lock_refusal. repeat case_match; intros [=]; by auto. Qed.

Lemma wp_lock_request bucket m key x req req_id Q s :
  stored bucket m key x s ->
  (forall r s', stored bucket m key x s' -> match r with Some resp => refusing resp | None => True end -> Q r s') ->
  wp calm (validate_object_lock_put_request bucket req req_id) Q (fun _ _ => False) never s.
Proof.
  intros Hs HQ. unfold validate_object_lock_put_request.
  destruct (negb _); [by apply wp_ret, HQ|]. apply wp_bind. eapply wp_runs; [apply plain_bucket|exact Hs|].
  intros r s' (Hs' & bk & -> & _ & _). apply wp_bind, wp_now. intros t. apply wp_refuse; [|by intros; apply HQ].
  intros status code message resp Hr [Hst _]. apply HQ; [done|]. unfold refusing. rewrite Hst.
  apply object_lock_refusal_status in Hr. destruct Hr; by auto.
Qed.

Section Held.
Context `{StoreEnv} `{S3Uploads S}.
Variables (bucket : string) (m : strmap) (key : string) (o : Object) (data : bytes) (req : Request) (req_id : string).
Hypothesis held : on_legal_hold o = true.
Hypothesis not_suspended : suspended_status m = false.
Abbreviation kept := (stored bucket m key (Some (o, data))).
Abbreviation refused := (fun r s' => refusing r /\ kept s').

(** A request whose answer is a plain response. *)
Definition answered (request : io S Response) : io S (result string Response) := r ← request; mret (Ok r).

Lemma wp_locked_answer s : kept s -> wp calm (locked_object_response req_id) refused (fun _ _ => False) never s.
Proof. intros Hs. apply wp_xml_error. intros r [Hr _]. split; [unfold refusing; by auto|done]. Qed.

Lemma wp_held_put pages s : kept s ->
  wp calm (put_content pages bucket key req req_id) (fun a s' => exists r, a = Ok r /\ refused r s') (fun _ _ => False) never s.
Proof.
  intros Hs. apply wp_bind. eapply wp_lock_request; [exact Hs|].
  intros [resp|] s1 Hs1 Hr; [apply wp_ret; by exists resp|].
  apply wp_bind. eapply wp_metadata; [exact Hs1|]. intros s2 Hs2. simpl.
  apply wp_bind, wp_bind, wp_bind. eapply wp_locked_in_place; [exact Hs2|done|done|].
  intros s3 Hs3. apply wp_bind. eapply wp_mono; [by apply wp_locked_answer| |done|done].
  intros r s4 Hr4. apply wp_ret, wp_ret, wp_ret. by exists r.
Qed.

Lemma wp_held_remove s : kept s ->
  wp calm (attempt (remove_current bucket key (mutation_if_match_condition req)))
    (fun r s2 => r = Err AccessDenied /\ kept s2) (fun _ _ => False) never s.
Proof.
  intros Hs. apply wp_attempt, wp_bind.
  eapply wp_mono; [eapply (wp_metadata _ _ _ _ (fun r s2 => r = Ok (strip_data o) /\ kept s2)); [exact Hs|done]| |done|done].
  intros r s2 [-> Hs2]. apply wp_bind.
  eapply wp_mono; [eapply (wp_locked_in_place _ _ _ _ _ (fun b s3 => b = true /\ kept s3)); [exact Hs2|done..]| |done|done].
  intros b s3 [-> Hs3]. by apply wp_fail.
Qed.

Lemma wp_held_delete s : kept s -> wp calm (delete_current_object bucket key req req_id) refused (fun _ _ => False) never s.
Proof.
  intros Hs. apply wp_bind.
  apply (wp_mono _ (fun (b : bool) s1 => b = false /\ kept s1) _ (fun _ _ => False) _ never); [|..|done|done].
  - destruct (is_some _); [|by apply wp_ret]. apply wp_bind. eapply wp_metadata; [exact Hs|]. intros s1 Hs1. by apply wp_ret.
  - intros b s1 [-> Hs1]. apply wp_bind. eapply wp_mono; [by apply wp_held_remove| |done|done].
    intros r s2 [-> Hs2]. by apply wp_locked_answer.
Qed.

Lemma wp_held_untag s : kept s -> wp calm (delete_object_tagging bucket key req req_id) refused (fun _ _ => False) never s.
Proof.
  intros Hs. apply wp_bind. eapply wp_metadata; [exact Hs|]. intros s1 Hs1. simpl. apply wp_bind, wp_now. intros t.
  rewrite (held_is_locked t (strip_data o)) by done. by apply wp_locked_answer.
Qed.
End Held.

(** C21 [legal_hold_survives_requests]. An object under legal hold in a bucket
    without versioning survives every PUT (content, copy, tagging, ACL, part),
    DELETE and tag deletion: each of them answers 400, 403 or 501 and the
    object and its bytes are still stored. *)
Theorem legal_hold_survives_requests `{StoreEnv} `{S3Uploads S} pages bucket m key o data req req_id s σ :
  stored bucket m key (Some (o, data)) s -> on_legal_hold o = true -> suspended_status m = false -> sched_ok calm σ ->
  forall request, request ∈ [put_content pages bucket key req req_id;
                             answered (delete_current_object bucket key req req_id);
                             answered (delete_object_tagging bucket key req req_id)] ->
  exists r s' σ', request σ s = (Done (Ok r), s', σ') /\
    refusing r /\ stored bucket m key (Some (o, data)) s'.
Proof.
  intros Hs Hh Hm Hσ request Hreq.
  destruct (wp_calm_run request (fun a s' => exists r, a = Ok r /\ refusing r /\ stored bucket m key (Some (o, data)) s') s σ)
    as (a & s' & σ' & Hrun & r & -> & Hr); [|done|by exists r, s', σ'].
  assert (forall call, wp calm call (fun r s' => refusing r /\ stored bucket m key (Some (o, data)) s') (fun _ _ => False) never s ->
    wp calm (answered call) (fun a s' => exists r, a = Ok r /\ refusing r /\ stored bucket m key (Some (o, data)) s')
      (fun _ _ => False) never s) as Hanswered.
  { intros call Hc. apply wp_bind. eapply wp_mono; [exact Hc| |done|done]. intros r s1 Hr. apply wp_ret. by exists r. }
  rewrite !elem_of_cons, elem_of_nil in Hreq. destruct Hreq as [->|[->|[->|[]]]].
  - by apply wp_held_put.
  - by apply Hanswered, wp_held_delete.
  - by apply Hanswered, wp_held_untag.
Qed.

(** ** Conditional puts *)

Definition current (x : option (Object * bytes)) : option Object := strip_data ∘ fst <$> x.

Lemma wp_stored bucket m key x obj condition Q s :
  stored bucket m key x s -> o_key obj = key -> o_size obj = size_of (o_data obj) ->
  let go := is_none_or (fun c => satisfied c (current x)) condition in
  (forall s', stored bucket m key (if go then put_pair obj else x) s' ->
     Q (Ok ((fun c => satisfied c (current x)) <$> condition)) s') ->
  wp calm (attempt (store_with bucket obj condition None)) Q (fun _ _ => False) never s.
Proof.
  intros Hs <- Hsz go HQ. apply wp_attempt. destruct condition as [c|]; simpl in *.
  - apply wp_bind. eapply wp_mono; [exact (plain_put_if _ _ _ _ _ c Hsz _ s Hs)| |by intros e s' [[=] _]|done].
    intros b s' [[= ->] Hs']. by apply wp_ret, HQ.
  - apply wp_bind. eapply wp_mono; [exact (plain_put _ _ _ _ _ Hsz _ s Hs)| |by intros e s' [[=] _]|done].
    intros [] s' [_ Hs']. by apply wp_ret, HQ.
Qed.

Lemma wp_put_response bucket m key x req req_id etag Q s :
  stored bucket m key x s ->
  (forall r s', stored bucket m key x s' -> rs_status r = 200%N -> rs_body r = [] ->
     (header_value (quoted_etag etag) = true -> hm_get "etag" (rs_headers r) = Some (quoted_etag etag)) -> Q r s') ->
  wp calm (put_object_response bucket key req req_id etag) Q (fun _ _ => False) never s.
Proof.
  intros Hs HQ. apply wp_bind. eapply wp_metadata; [exact Hs|]. intros s1 Hs1.
  apply wp_bind, wp_request_id. intros u. apply wp_bind, wp_now. intros t.
  set (b0 := with_header "ETag" (quoted_etag etag) (with_header "Content-Length" "0" (new_builder 200))).
  apply wp_bind. eapply wp_with_cors; [exact Hs1|]. intros b s2 Hs2 He.
  assert (extends b0 b) as (Hst & _ & Hh).
  { eapply extends_trans; [|exact He].
    match goal with |- extends b0 (response_headers ?b ?o) => assert (extends b0 b) as Hb end.
    { refine (extends_trans _ _ _ _ (extends_version _ _)). do 2 (refine (extends_trans _ _ _ _ (extends_header _ _ _ _)); [|by vm_compute]).
      apply extends_refl. }
    eapply extends_trans; [exact Hb|]. apply extends_checksums. }
  apply wp_ret, HQ; simpl; [done| |done|].
  - rewrite Hst. unfold b0. by rewrite !(proj1 (with_header_parts _ _ _)).
  - intros Hv. change (header_of "etag" b = Some (quoted_etag etag)). rewrite Hh by set_solver.
    by apply (header_of_set "ETag").
Qed.

(** What a put of [obj] answers and leaves, [x] being stored under the key. *)
Definition put_answer (req : Request) (obj : Object) (x : option (Object * bytes)) (status : N) (y : option (Object * bytes)) : Prop :=
  if is_some_and (fun value => negb (eqb (Text.trim value) "*")) (header req "if-none-match") then status = 400%N /\ y = x
  else if is_some (header req "if-match") && is_none x then status = 404%N /\ y = x
  else if is_none_or (fun c => satisfied c (current x)) (mutation_condition req) then status = 200%N /\ y = put_pair obj
  else status = 412%N /\ y = x.

Lemma wp_store_put bucket m key x req req_id obj Q s :
  stored bucket m key x s -> rq_spooled_body req = None -> o_key obj = key -> o_size obj = size_of (o_data obj) ->
  (forall r s' y, stored bucket m key y s' -> put_answer req obj x (rs_status r) y -> Q r s') ->
  wp calm (store_put_object bucket key req req_id obj) Q (fun _ _ => False) never s.
Proof.
  intros Hs Hsp Hk Hsz HQ. unfold store_put_object, put_answer in *.
  destruct (is_some_and _ (header req "if-none-match")).
  { apply wp_xml_error. intros r [Hr _]. by apply (HQ r s x). }
  apply wp_bind, (wp_mono _ (fun b s1 => b = negb (is_some (header req "if-match") && is_none x) /\ stored bucket m key x s1)
    _ (fun _ _ => False) _ never); [|..|done|done].
  { destruct (is_some _); [|by apply wp_ret]. apply wp_bind. eapply wp_metadata; [exact Hs|]. intros s1 Hs1.
    apply wp_ret. split; [|done]. by destruct x. }
  intros b s1 [-> Hs1]. rewrite negb_involutive. destruct (is_some _ && is_none x).
  { apply wp_xml_error. intros r [Hr _]. by apply (HQ r s1 x). }
  rewrite Hsp. apply wp_bind. eapply wp_stored; [exact Hs1|done|done|]. intros s2 Hs2.
  destruct (mutation_condition req) as [c|]; simpl in *; [destruct (satisfied c (current x))|].
  - eapply wp_put_response; [exact Hs2|]. intros r s3 Hs3 Hr _ _. by apply (HQ r s3 (put_pair obj)).
  - apply wp_xml_error. intros r [Hr _]. by apply (HQ r s2 x).
  - eapply wp_put_response; [exact Hs2|]. intros r s3 Hs3 Hr _ _. by apply (HQ r s3 (put_pair obj)).
Qed.

(** [conditional_put_exact]. A conditional PUT is a compare-and-set: it
    answers 400, 404, 412 or 200 by its If-Match and If-None-Match headers and
    the stored entity tag, and stores the new object exactly when it answers
    200. *)
Theorem conditional_put_exact bucket m key x req req_id obj s σ :
  stored bucket m key x s -> rq_spooled_body req = None -> o_key obj = key -> o_size obj = size_of (o_data obj) ->
  sched_ok calm σ ->
  exists r s' σ' y, store_put_object bucket key req req_id obj σ s = (Done r, s', σ') /\
    stored bucket m key y s' /\ put_answer req obj x (rs_status r) y.
Proof.
  intros Hs Hsp Hk Hsz Hσ.
  destruct (wp_calm_run (store_put_object bucket key req req_id obj)
    (fun r s' => exists y, stored bucket m key y s' /\ put_answer req obj x (rs_status r) y) s σ)
    as (r & s' & σ' & Hrun & y & Hy); [|done|by exists r, s', σ', y].
  eapply wp_store_put; [exact Hs|done..|]. intros r s' y Hy Ha. by exists y.
Qed.

(** ** A put is read back *)

(** Provider metadata a put may replace; the customer-key entries only with its
    customer-key headers. *)
Definition PUT_KEYS : list string :=
  [S3_SSE_MODE_KEY; S3_SSE_KMS_KEY_ID; S3_OBJECT_LOCK_MODE_KEY; S3_OBJECT_LOCK_UNTIL_KEY;
   S3_OBJECT_LOCK_LEGAL_HOLD_KEY] ++ (snd <$> CONTENT_PROPERTIES).
Definition SSE_C_KEYS : list string := [S3_SSE_C_ALGORITHM_KEY; S3_SSE_C_KEY_MD5_KEY].

Definition sse_c_headers (req : Request) : bool :=
  existsb (fun h => is_some (header req h))
    ["x-amz-server-side-encryption-customer-algorithm"; "x-amz-server-side-encryption-customer-key";
     "x-amz-server-side-encryption-customer-key-MD5"].

Definition foreign_key (req : Request) (k : string) : Prop :=
  k ∉ PUT_KEYS /\ Text.starts_with k "s3_checksum_" = false /\ (sse_c_headers req = false \/ k ∉ SSE_C_KEYS).

Lemma strmap_insert_ne (mm : strmap) k k' v : k <> k' -> <[k := v]> mm !! k' = mm !! k'.
Proof. apply lookup_insert_ne. Qed.
Lemma strmap_delete_ne (mm : strmap) k k' : k <> k' -> delete k mm !! k' = mm !! k'.
Proof. apply lookup_delete_ne. Qed.

Lemma foreign_content k req o : k ∉ PUT_KEYS ->
  o_provider_metadata (replace_content_properties req o) !! k = o_provider_metadata o !! k.
Proof.
  intros Hk. unfold replace_content_properties, with_provider, set_provider. cbn [o_provider_metadata].
  assert (k ∉ snd <$> CONTENT_PROPERTIES) as Hn by (unfold PUT_KEYS in Hk; set_solver).
  generalize (o_provider_metadata o). revert Hn. generalize CONTENT_PROPERTIES.
  induction l as [|[h key] l IH]; intros Hn mm; [done|]. cbn [foldl fst snd]. rewrite IH by set_solver.
  assert (key <> k) by set_solver. destruct (header req h).
  - by rewrite strmap_insert_ne, strmap_delete_ne.
  - by rewrite strmap_delete_ne.
Qed.

Lemma foreign_identity k req o : Text.starts_with k "s3_checksum_" = false ->
  o_provider_metadata (replace_identity req o) !! k = o_provider_metadata o !! k.
Proof.
  intros Hk. unfold replace_identity, set_provider. cbn [o_provider_metadata].
  assert (forall mm, (foldl (fun m a => if is_some (header req (CHECKSUM_PREFIX +:+ a.2))
      then <["s3_checksum_type" := "FULL_OBJECT"]> (<["s3_checksum_" +:+ a.2 := base64_encode (digest req a.1)]> m)
      else m) mm ALGORITHMS : strmap) !! k = mm !! k) as ->.
  { generalize ALGORITHMS. induction l as [|a l IH]; intros mm; [done|]. simpl. rewrite IH.
    destruct (is_some _); [|done]. rewrite !strmap_insert_ne; [done|..]; intros <-;
      [by rewrite Text.starts_with_app in Hk|by vm_compute in Hk]. }
  destruct (o_provider_metadata o !! k) as [v|] eqn:Ek.
  - by apply map_lookup_filter_Some.
  - apply map_lookup_filter_None. by left.
Qed.

Ltac other_key := repeat first [rewrite strmap_insert_ne by set_solver | rewrite strmap_delete_ne by set_solver]; done.

Lemma foreign_sse k req mm mm' : k ∉ PUT_KEYS -> apply_sse req mm = Ok mm' -> mm' !! k = mm !! k.
Proof. intros Hk. unfold apply_sse, PUT_KEYS in *. repeat case_match; intros [= <-]; other_key. Qed.

Lemma foreign_sse_c k req mm mm' : k ∉ PUT_KEYS -> (sse_c_headers req = false \/ k ∉ SSE_C_KEYS) ->
  apply_sse_c req mm = Ok mm' -> mm' !! k = mm !! k.
Proof.
  intros Hk [Hh|Hc]; unfold apply_sse_c, sse_c_headers, PUT_KEYS, SSE_C_KEYS in *.
  - simpl in Hh. rewrite orb_false_r, orb_assoc in Hh. rewrite Hh. by intros [= <-].
  - repeat case_match; intros [= <-]; other_key.
Qed.

Lemma foreign_lock k req mm mm' : k ∉ PUT_KEYS -> apply_lock req mm = Ok mm' -> mm' !! k = mm !! k.
Proof.
  intros Hk. unfold apply_lock, PUT_KEYS in *.
  destruct (header req "x-amz-object-lock-mode") as [mode|]; [destruct (negb _ && negb _); [done|]|];
  (destruct (header req "x-amz-object-lock-retain-until-date") as [until|]; [destruct (is_none _); [done|]|];
  (destruct (header req "x-amz-object-lock-legal-hold") as [hold|]; [destruct (negb _ && negb _); [done|]|];
   intros [= <-]; other_key)).
Qed.

Lemma foreign_contracts k req o o' : foreign_key req k -> apply_s3_request_contracts req o = Ok o' ->
  o_provider_metadata o' !! k = o_provider_metadata o !! k.
Proof.
  intros (Hk & _ & Hc). unfold apply_s3_request_contracts. destruct (apply_sse _ _) as [m1|] eqn:E1; [|done]. simpl.
  destruct (apply_sse_c _ _) as [m2|] eqn:E2; [|done]. simpl. destruct (apply_lock _ _) as [m3|] eqn:E3; [|done]. simpl.
  intros [= <-]. simpl. by rewrite (foreign_lock k req m2 m3), (foreign_sse_c k req m1 m2), (foreign_sse k req (o_provider_metadata o) m1).
Qed.

(** The contracts change only the provider metadata. *)
Lemma contracts_fields req o o' : apply_s3_request_contracts req o = Ok o' ->
  o' = set_provider (o_provider_metadata o') o.
Proof.
  unfold apply_s3_request_contracts. destruct (apply_sse _ _) as [m1|]; [|done]. simpl.
  destruct (apply_sse_c _ _) as [m2|]; [|done]. simpl. destruct (apply_lock _ _) as [m3|]; [|done]. simpl.
  by intros [= <-].
Qed.

(** What a buffered put stores. *)
Record put_object_of (key : string) (req : Request) (x : option (Object * bytes)) (o : Object) : Prop := mkPutObject {
  po_key : o_key o = key;
  po_data : o_data o = rq_body req;
  po_size : o_size o = size_of (rq_body req);
  po_etag : o_etag o = compute_etag (rq_body req);
  po_type : o_content_type o = default "application/octet-stream" (header req "content-type");
  po_metadata : o_metadata o = extract_metadata req;
  po_foreign : forall k, foreign_key req k -> o_provider_metadata o !! k = current x ≫= (fun old => o_provider_metadata old !! k) }.

(** A put that every check of its headers accepts, with its body in memory. *)
Record plain_put_request (bucket key : string) (req : Request) : Prop := mkPlainPut {
  pp_checksums : put_refusal req = None;
  pp_md5 : md5_refusal req = None;
  pp_target : target_refusal bucket key = None;
  pp_tags : is_ok (parse_optional_tagging_header req) = true;
  pp_contracts : forall o, is_ok (apply_s3_request_contracts req o) = true;
  pp_buffered : rq_spooled_body req = None }.

Lemma wp_put_body bucket m key x req req_id Q s :
  stored bucket m key x s -> plain_put_request bucket key req ->
  (forall r s' y o, stored bucket m key y s' -> put_object_of key req x o -> put_answer req o x (rs_status r) y -> Q r s') ->
  wp calm (put_object_body bucket key req req_id (current x)) Q (fun _ _ => False) never s.
Proof.
  intros Hs [Hck Hmd Htg Htags Hct Hbuf] HQ. unfold put_object_body, validate_put, validate_content_md5, validate_put_target.
  rewrite Hck, Hmd, Htg. do 3 (apply wp_unless_answered; apply wp_ret).
  destruct (parse_optional_tagging_header req) as [tags|]; [|done].
  apply wp_bind, wp_now. intros t. apply wp_bind.
  set (base := put_candidate t key req).
  assert (put_object_of key req None base) as Hbase.
  { unfold base, put_candidate. rewrite Hbuf. by split. }
  apply (wp_mono _ (fun o s1 => stored bucket m key x s1 /\ exists mm, o = set_provider mm base /\
    forall k, foreign_key req k -> mm !! k = current x ≫= (fun old => o_provider_metadata old !! k)) _ (fun _ _ => False) _ never);
    [|..|done|done].
  { destruct x as [[old data]|]; simpl.
    - apply wp_bind. eapply wp_preserves; [exact Hs|by apply (stored_version _ _ _ _ _ _ Hs)|]. intros s1 Hs1. apply wp_ret.
      split; [done|]. destruct (suspended_status m); [|by eexists].
      eexists. split; [done|]. intros k (Hk & _). unfold PUT_KEYS in Hk. simpl. other_key.
    - apply wp_ret. split; [done|]. exists ∅. split; [|done]. unfold base, put_candidate. by rewrite Hbuf. }
  intros o1 s1 (Hs1 & mm & -> & Hmm). specialize (Hct (replace_identity req (replace_content_properties req (set_provider mm base)))).
  destruct (apply_s3_request_contracts req _) as [o2|] eqn:E2; [|done].
  pose proof (contracts_fields _ _ _ E2) as Ho2.
  set (o3 := match tags with Some tags => with_tags tags o2 | None => o2 end).
  assert (put_object_of key req x o3) as Ho3.
  { destruct Hbase as [B1 B2 B3 B4 B5 B6 _].
    assert (o_provider_metadata o3 = o_provider_metadata o2) as Hp by (by destruct tags).
    split; [by destruct tags; unfold o3; rewrite Ho2..|]. intros k Hk. rewrite Hp, (foreign_contracts k _ _ _ Hk E2).
    destruct Hk as (K1 & K2 & K3). rewrite foreign_identity, foreign_content by done. by apply Hmm. }
  destruct (Ho3) as [P1 P2 P3 _ _ _ _].
  eapply wp_store_put; [exact Hs1|done|done|by rewrite P3, P2|]. intros r s2 y Hy Ha. by eapply HQ.
Qed.

(** PUT, then GET of the same key. *)
Definition put_and_get (bucket key : string) (req : Request) (req_id : string) (existing : option Object)
    (get_req : Request) (get_id : string) : io S (Response * Response) :=
  put ← put_object_body bucket key req req_id existing;
  got ← object_full_response bucket key get_req get_id;
  mret (put, got).

Lemma marker_key_foreign req : foreign_key req "s3_delete_marker".
Proof. split_and!; [|done|right]; unfold PUT_KEYS, SSE_C_KEYS; (refine (bool_decide_unpack _ _); by vm_compute). Qed.

Lemma put_readable key req x o :
  put_object_of key req x o -> readable x -> (size_of (rq_body req) < 2 ^ 64)%N ->
  header_value (quoted_etag (compute_etag (rq_body req))) = true -> readable (put_pair o).
Proof.
  intros Ho Hx Hsize Hv. unfold put_pair. simpl. rewrite (po_data _ _ _ _ Ho), (po_etag _ _ _ _ Ho). split_and!; [|done|done].
  unfold is_s3_delete_marker. simpl. rewrite (po_foreign _ _ _ _ Ho) by apply marker_key_foreign.
  destruct x as [[old data]|]; [|done]. apply Hx.
Qed.

Lemma put_and_get_runs bucket m key x req req_id get_req get_id s σ :
  stored bucket m key x s -> readable x -> plain_put_request bucket key req -> mutation_condition req = None ->
  (size_of (rq_body req) < 2 ^ 64)%N -> header_value (quoted_etag (compute_etag (rq_body req))) = true -> sched_ok calm σ ->
  exists put got s' σ' o, put_and_get bucket key req req_id (current x) get_req get_id σ s = (Done (put, got), s', σ') /\
    rs_status put = 200%N /\ put_object_of key req x o /\ stored bucket m key (put_pair o) s' /\
    read_answer get_req None (put_pair o) got.
Proof.
  intros Hs Hx Hreq Hcond Hsize Hv Hσ.
  destruct (wp_calm_run (put_and_get bucket key req req_id (current x) get_req get_id)
    (fun rr s' => exists o, rs_status rr.1 = 200%N /\ put_object_of key req x o /\ stored bucket m key (put_pair o) s' /\
       read_answer get_req None (put_pair o) rr.2) s σ)
    as ([put got] & s' & σ' & Hrun & o & Hpost); [|done|by exists put, got, s', σ', o].
  apply wp_bind. eapply wp_put_body; [exact Hs|done|]. intros put s1 y o Hy Ho Ha.
  assert (header req "if-match" = None /\ header req "if-none-match" = None) as [Him Hinm].
  { unfold mutation_condition in Hcond. destruct (header req "if-match"); [done|]. by destruct (header req "if-none-match"). }
  unfold put_answer in Ha. rewrite Him, Hinm, Hcond in Ha. destruct Ha as [Hput ->].
  apply wp_bind. eapply (wp_read_response bucket m key (put_pair o) get_req get_id None); [exact Hy|by eapply put_readable|].
  intros got s2 Hs2 Hgot. apply wp_ret. by exists o.
Qed.

(** An object that was not stored with a customer key, if there is one. *)
Definition no_customer_key (x : option (Object * bytes)) : Prop :=
  match x with Some (old, _) => o_provider_metadata old !! S3_SSE_C_ALGORITHM_KEY = None | None => True end.

(** A read without preconditions. *)
Definition unconditional (req : Request) : Prop :=
  Forall (fun h => header req h = None) ["if-match"; "if-unmodified-since"; "if-none-match"; "if-modified-since"].

Lemma unconditional_read req o : unconditional req -> o_provider_metadata o !! S3_SSE_C_ALGORITHM_KEY = None ->
  read_refusal req o = None.
Proof.
  intros Hu Hk. unfold unconditional in Hu. rewrite !Forall_cons_iff in Hu. destruct Hu as (Hm & Hum & Hnm & Hms & _).
  unfold read_refusal, sse_refusal, object_verdict. by rewrite Hk, Hm, Hum, Hnm, Hms.
Qed.

Lemma algorithm_key_foreign req : sse_c_headers req = false -> foreign_key req S3_SSE_C_ALGORITHM_KEY.
Proof. intros Hc. split_and!; [|done|by left]. unfold PUT_KEYS. (refine (bool_decide_unpack _ _); by vm_compute). Qed.

(** C20 [put_request_read_back]. In a bucket without versioning and without
    storage faults, a PUT that the checks of its headers accept, without
    preconditions and customer-key headers and with a body in memory within
    the materialization limit, over nothing or over a readable object without
    a customer key, answers 200, and a GET of the key without preconditions
    then answers 200 with the body, its length and the entity tag of the body;
    the content type and the user metadata of the request are stored, and
    provider metadata outside the put is as before. *)
Theorem put_request_read_back bucket m key x req req_id get_req get_id s σ :
  stored bucket m key x s -> readable x -> no_customer_key x ->
  plain_put_request bucket key req -> mutation_condition req = None -> sse_c_headers req = false ->
  (size_of (rq_body req) <= MATERIALIZATION_LIMIT)%N -> header_value (quoted_etag (compute_etag (rq_body req))) = true ->
  unconditional get_req -> sched_ok calm σ ->
  exists put got s' σ' o, put_and_get bucket key req req_id (current x) get_req get_id σ s = (Done (put, got), s', σ') /\
    rs_status put = 200%N /\ put_object_of key req x o /\ stored bucket m key (put_pair o) s' /\
    carries 200 o (rq_body req) None got.
Proof.
  intros Hs Hx Hnc Hreq Hcond Hput_c Hsize Hv Hget Hσ.
  destruct (put_and_get_runs bucket m key x req req_id get_req get_id s σ) as (put & got & s' & σ' & o & Hrun & Hput & Ho & Hs' & Hgot);
    [done..|unfold MATERIALIZATION_LIMIT in Hsize; lia|done|done|].
  exists put, got, s', σ', o. split_and!; [done..|]. simpl in Hgot.
  change (read_refusal get_req (with_version_id None o)) with (read_refusal get_req o) in Hgot.
  assert (o_provider_metadata o !! S3_SSE_C_ALGORITHM_KEY = None) as Hkey.
  { rewrite (po_foreign _ _ _ _ Ho) by by apply algorithm_key_foreign. destruct x as [[old data]|]; [|done]. exact Hnc. }
  rewrite (unconditional_read get_req o Hget Hkey), (po_data _ _ _ _ Ho) in Hgot.
  by rewrite (proj2 (N.ltb_ge _ _) Hsize) in Hgot.
Qed.

(** C40 [plain_put_keeps_customer_key]. In a bucket without versioning and
    without storage faults, a PUT that the checks of its headers accept,
    without customer-key headers and preconditions, over a readable object
    stored with a customer key keeps its customer-key metadata: the PUT
    answers 200 and the following GET without customer-key headers answers
    400, although the new object is not encrypted with that key. *)
Theorem plain_put_keeps_customer_key bucket m key old data req req_id get_req get_id s σ :
  stored bucket m key (Some (old, data)) s -> readable (Some (old, data)) -> plain_put_request bucket key req ->
  mutation_condition req = None -> (size_of (rq_body req) < 2 ^ 64)%N ->
  header_value (quoted_etag (compute_etag (rq_body req))) = true -> sched_ok calm σ ->
  is_some (o_provider_metadata old !! S3_SSE_C_ALGORITHM_KEY) = true ->
  sse_c_headers req = false -> sse_c_headers get_req = false ->
  exists put got s' σ', put_and_get bucket key req req_id (Some (strip_data old)) get_req get_id σ s = (Done (put, got), s', σ') /\
    rs_status put = 200%N /\ rs_status got = 400%N.
Proof.
  intros Hs Hx Hreq Hcond Hsize Hv Hσ Halg Hput_c Hget_c.
  destruct (put_and_get_runs bucket m key (Some (old, data)) req req_id get_req get_id s σ)
    as (put & got & s' & σ' & o & Hrun & Hput & Ho & _ & Hgot); [done..|].
  exists put, got, s', σ'. split_and!; [done|done|]. simpl in Hgot. unfold read_refusal, sse_refusal in Hgot. simpl in Hgot.
  rewrite (po_foreign _ _ _ _ Ho _ (algorithm_key_foreign _ Hput_c)) in Hgot. simpl in Hgot.
  destruct (o_provider_metadata old !! S3_SSE_C_ALGORITHM_KEY); [|done].
  unfold sse_c_headers in Hget_c. simpl in Hget_c.
  by destruct (header get_req "x-amz-server-side-encryption-customer-algorithm").
Qed.
End Writes.
