(* ===== verification/AccessFacts.v ===== *)
(** * AccessFacts: the decision about a request, and what a denial leaves

    [RuledStore] extends [PlainStore] with the policy of the bucket: what the
    reads of the authorizer return, and that they leave the object as it is.
    [FilesystemStorage] is an instance.  The verdict on a request is the one of
    the policy, the ACL and the owner of the object, and a denied request
    changes nothing. *)

From Stdlib Require Import Ascii Strings.Byte.
From S2P Require Import Prelude Text Models Policy SkipMap Index IndexFacts Utf8 Validation FsModel Publication.
From S2P Require Import FileFacts PublicationFacts ConcreteEnv PublicationSafety Lifecycle Storage.
From S2P Require Import StorageFacts ConditionFacts BucketFacts Versions VersionFacts Listing Multipart LifecycleExecutor.
From S2P Require Import Http Cors Checksums ObjectHelpers Routing XmlDocuments ObjectHandlers ObjectWrites MultipartRequests.
From S2P Require Import Signatures Authorization ObjectRequests PlainStore HandlerRules ObjectWriteFacts AuthFacts.

(** ** The interface *)

Definition tags_result (x : option (Object * bytes)) : Res strmap :=
  match x with Some (o, _) => Ok (o_tags o) | None => Err KeyNotFound end.
Definition acl_result (x : option (Object * bytes)) : Res Acl :=
  match x with Some (o, _) => Ok (default default_acl (o_acl o)) | None => Err KeyNotFound end.
Definition policy_result (policy : option BucketPolicyDocument) : Res BucketPolicyDocument :=
  match policy with Some p => Ok p | None => Err KeyNotFound end.

(** [ruled b m p k x s]: the state of [stored], and [p] is the policy of [b]. *)
Class RuledStore (S : Type) `{PlainStore S} `{AccessStore S} : Type := {
  ruled : string -> strmap -> option BucketPolicyDocument -> string -> option (Object * bytes) -> S -> Prop;
  ruled_stored : forall b m p k x s, ruled b m p k x s -> stored b m k x s;
  ruled_tags : forall b m p k x, runs (ruled b m p k x) (st_get_object_tags b k)
    (fun r s => ruled b m p k x s /\ r = tags_result x);
  ruled_acl : forall b m p k x, runs (ruled b m p k x) (st_get_object_acl b k)
    (fun r s => ruled b m p k x s /\ r = acl_result x);
  ruled_policy : forall b m p k x, runs (ruled b m p k x) (st_get_bucket_policy b)
    (fun r s => ruled b m p k x s /\ r = policy_result p) }.

(** ** [FilesystemStorage] *)

Section Filesystem.
Context {M : Type -> Type} `{SkipMapLaws M} `{EnvLaws} `{StoreEnvLaws} `{Digests}.
Abbreviation World := (World M).

Definition policy_path (b : string) : path := join (bucket_dir b) ".policy.json".

Definition policy_document (b : string) (p : option BucketPolicyDocument) (s : fs) : Prop :=
  s !! policy_path b = (File ∘ enc policy_codec <$> p).

Definition world_ruled (b : string) (m : strmap) (p : option BucketPolicyDocument) (k : string)
    (x : option (Object * bytes)) (w : World) : Prop :=
  stored_fs b m k x (w_fs w) /\ policy_document b p (w_fs w).

Lemma world_ruled_read b m p k x (w : World) s' :
  world_ruled b m p k x w -> agree (private (object_dir b k)) (w_fs w) s' -> held (object_dir b k) x s' ->
  world_ruled b m p k x (set_fs s' w).
Proof.
  intros [Hs Hp] Ha Hh. split; [by eapply stored_fs_read|]. unfold policy_document, policy_path in *. simpl.
  rewrite (document_outside b k "policy.json" (w_fs w) s'); [done| |apply Hs|by rewrite scratch_join].
  eapply agree_weaken; [|exact Ha]. intros q Hq. left. by apply inside_below, private_inside.
Qed.

Lemma fs_ruled_metadata b m p k x : runs (world_ruled b m p k x) (get_object_metadata b k)
  (fun r w => world_ruled b m p k x w /\ r = shown x).
Proof.
  intros clk w Hs. eapply wp_read_object_metadata_locked; [apply Hs| |no_fault].
  intros s' Hh Ha. assert (world_ruled b m p k x (set_fs s' w)) by by apply world_ruled_read.
  by destruct x as [[o data]|].
Qed.

(** A field of the metadata. *)
Lemma fs_ruled_field {A} (f : Object -> A) b m p k x :
  runs (world_ruled b m p k x) (o ← get_object_metadata b k; mret (f o))
    (fun r w => world_ruled b m p k x w /\ r = match x with Some (o, _) => Ok (f (strip_data o)) | None => Err KeyNotFound end).
Proof.
  intros clk w Hs. apply wp_bind. eapply wp_mono; [by apply (fs_ruled_metadata b m p k x)| | |done].
  - intros o w' [Hw Ho]. apply wp_ret. split; [done|]. destruct x as [[o' d]|]; [|done]. by injection Ho as ->.
  - intros e w' [Hw He]. split; [done|]. destruct x as [[o' d]|]; [done|]. by injection He as ->.
Qed.

Lemma fs_ruled_policy b m p k x : runs (world_ruled b m p k x) (get_bucket_policy b)
  (fun r w => world_ruled b m p k x w /\ r = policy_result p).
Proof.
  intros clk w [Hs Hp]. unfold get_bucket_policy, get_sidecar. apply wp_bind, wp_require_bucket; [apply Hs|].
  apply wp_bind, wp_gets. unfold policy_document, policy_path in Hp. unfold path_exists. rewrite Hp.
  destruct p as [policy|]; simpl; [|by apply wp_fail].
  eapply wp_read_document; [done|apply dec_enc_policy|exact Hp|done].
Qed.

(** Writing another document of the bucket leaves the object. *)
Lemma stored_fs_document b m k x n s s' :
  agree (at_path (join (bucket_dir b) (String "." n))) s s' -> n <> "bucket.meta.json" -> n <> "versioning-enabled" ->
  bucket_ok b s' -> stored_fs b m k x s -> stored_fs b m k x s'.
Proof.
  intros Ha Hn1 Hn2 Hb Hs.
  assert (forall q, below (object_dir b k) q = true \/ below q (object_dir b k) = true ->
    q <> join (bucket_dir b) (String "." n)) as Hapart.
  { intros q Hq ->. unfold object_dir, object_id_dir in Hq. destruct Hq as [Hq|Hq].
    - apply below_join_inv in Hq as [r Hq]. unfold join in Hq. apply app_inv_head in Hq. injection Hq as Hq _.
      by apply (object_id_not_hidden b k n).
    - apply below_join_inv in Hq as [r Hq]. unfold join in Hq. apply app_inv_head in Hq. injection Hq as Hq _.
      by apply (object_id_not_hidden b k n). }
  assert (forall name, name <> String "." n -> scratch (join (bucket_dir b) name) = false ->
    s' !! join (bucket_dir b) name = s !! join (bucket_dir b) name) as Hdoc
    by (intros name Hne Hsc; by eapply agree_document).
  split; [|done| | | |apply Hs].
  - split; [by apply bucket_present|]. unfold versioning_marker. rewrite Hdoc; [apply Hs|congruence|by rewrite scratch_join].
  - unfold metadata_document, bucket_metadata_path. rewrite Hdoc; [apply Hs|congruence|by rewrite scratch_join].
  - eapply (held_kept (at_path (join (bucket_dir b) (String "." n)))); [done| | |apply Hs].
    + intros q Hq Heq. apply (Hapart q); [left; by apply inside_below|done].
    + intros q Hq. destruct (se_creatable _ _ (held_settled _ _ _ (sf_held _ _ _ _ _ Hs)) q Hq) as [Hsc Hf].
      split; [done|]. rewrite (agree_at _ _ _ Ha); [done..|]. apply Hapart. by right.
  - rewrite (agree_at _ _ _ Ha); [apply Hs|unfold versions_dir; by rewrite scratch_join|].
    apply Hapart. left. unfold versions_dir. apply below_join.
Qed.

Lemma fs_put_policy b m k x policy p : runs (world_ruled b m policy k x) (put_bucket_policy b p)
  (fun r w => r = Ok tt /\ world_ruled b m (Some p) k x w).
Proof.
  intros clk w [Hs Hp]. pose proof (sf_bucket _ _ _ _ _ Hs) as Hb. unfold put_bucket_policy, put_sidecar.
  apply wp_bind, wp_require_bucket; [by apply bucket_present|].
  apply wp_bind, wp_write_document; [done|apply Hb|apply Hb| |by rewrite scratch_join|].
  { unfold is_dir, policy_document, policy_path in *. rewrite Hp. by destruct policy. }
  intros s1 Hok1 Ha1 Hp1.
  assert (bucket_ok b s1) as Hb1.
  { split; [done|rewrite (agree_bucket_dir _ _ _ _ Ha1); apply Hb|].
    rewrite (agree_document _ _ _ _ _ Ha1); [apply Hb|done|by rewrite scratch_join]. }
  apply wp_touch; [done|done|]. intros s2 Hb2 Ha2. simpl in Ha2. split; [done|]. split.
  - eapply (stored_fs_document _ _ _ _ "bucket.identity.json"); [exact Ha2|done..|].
    eapply (stored_fs_document _ _ _ _ "policy.json"); [exact Ha1|done..].
  - unfold policy_document, policy_path. simpl. rewrite (agree_document _ _ _ _ _ Ha2); [done|done|by rewrite scratch_join].
Qed.

#[export] Instance filesystem_ruled : RuledStore World := {|
  ruled := world_ruled;
  ruled_stored b m p k x w Hr := proj1 Hr;
  ruled_tags := fs_ruled_field o_tags;
  ruled_acl := fs_ruled_field (fun o => default default_acl (o_acl o));
  ruled_policy := fs_ruled_policy |}.
End Filesystem.

(** ** The decision *)

Section Decision.
Context `{HttpLaws} `{HelperEnv} `{Chrono} `{PayloadDigests} `{Digests} `{QuickXml} `{Env} `{HashOrder}.
Context `{SigningEnv} `{PolicyEnv}.
Context {S : Type} `{RuledStore S}.
Implicit Types s : S.
Abbreviation never := (fun _ : S => False).
Variables (config : AuthConfig) (bucket : string) (m : strmap) (policy : option BucketPolicyDocument) (key : string)
  (x : option (Object * bytes)).
Abbreviation kept := (ruled bucket m policy key x).

(** What the request asks, as the policy sees it. *)
Definition asked (req : Request) (action : string) : AuthContext :=
  auth_context req config (from_request req config) bucket (Some key) action (unwrap_or ∅ (tags_result x)).

Definition policy_says (context : AuthContext) : PolicyEffect :=
  match policy with Some p => evaluate_policy p context | None => Neutral end.

Definition acl_grants (context : AuthContext) : bool :=
  match x with
  | Some (o, _) => check_acl_permission (default default_acl (o_acl o)) (default_owner_id config) context
  | None => false
  end.

Definition policy_denies (context : AuthContext) : bool := match policy_says context with Deny => true | _ => false end.
Definition policy_allows (context : AuthContext) : bool := match policy_says context with Allow => true | _ => false end.

(** A caller who proved to be the owner of everything. *)
Definition by_owner (req : Request) : bool :=
  is_authenticated (from_request req config) && Text.contains (principal (from_request req config)) (default_owner_id config).

(** What the rules permit: nothing the policy denies, and otherwise what the policy, the ACL or ownership gives. *)
Definition permitted (req : Request) (action : string) : bool :=
  negb (policy_denies (asked req action)) &&
  (policy_allows (asked req action) || acl_grants (asked req action) || by_owner req).

Lemma final_decision_permitted req action :
  final_decision (policy_says (asked req action)) (acl_grants (asked req action)) (from_request req config)
    (default_owner_id config) = permitted req action.
Proof. unfold permitted, final_decision, policy_denies, policy_allows, by_owner. by destruct (policy_says _). Qed.

(** The verdict after the signature. *)
Definition decided (req : Request) (action : string) (r : result Response AuthInfo) : Prop :=
  if permitted req action then r = Ok (from_request req config)
  else exists response, r = Err response /\ rs_status response = 403%N.

Lemma wp_decide_access req action Q s : enforce_auth config = true -> kept s ->
  (forall r s', kept s' -> decided req action r -> Q r s') ->
  wp calm (decide_access req config bucket (Some key) action) Q (fun _ _ => False) never s.
Proof.
  intros Hen Hs HQ. unfold decide_access. rewrite Hen. cbn [negb].
  apply wp_bind, wp_bind. eapply wp_runs; [apply ruled_tags|exact Hs|]. intros ? s1 [Hs1 ->].
  apply wp_ret, wp_bind. eapply wp_runs; [apply ruled_acl|exact Hs1|]. intros ? s2 [Hs2 ->].
  apply wp_bind. eapply wp_runs; [apply ruled_policy|exact Hs2|]. intros ? s3 [Hs3 ->].
  assert (final_decision
    (match policy_result policy with Ok policy => evaluate_policy policy (asked req action) | Err _ => Neutral end)
    (match acl_result x with Ok acl => check_acl_permission acl (default_owner_id config) (asked req action) | Err _ => false end)
    (from_request req config) (default_owner_id config) = permitted req action) as Heq.
  { rewrite <- final_decision_permitted. unfold policy_says, acl_grants. by destruct policy, x as [[? ?]|]. }
  unfold asked in Heq. rewrite Heq. specialize (HQ (Ok (from_request req config)) s3 Hs3) as HOk. unfold decided in *.
  destruct (permitted req action); [by apply wp_ret, HOk|].
  apply wp_bind, wp_request_id. intros req_id. apply wp_bind, wp_xml_error. intros resp [Hr _].
  apply wp_ret, HQ; [done|]. by exists resp.
Qed.

(** The verification of the signature leaves the state as it is. *)
Lemma verify_run req s σ : sched_ok calm σ -> exists r σ', verify_sigv4_signature req config σ s = (Done r, s, σ') /\
  sched_ok calm σ' /\ (refusal_answer r \/ r = Ok tt).
Proof.
  intros Hσ.
  assert (wp calm (verify_sigv4_signature req config) (fun r s' => s' = s /\ (refusal_answer r \/ r = Ok tt))
    (fun _ _ => False) never s) as Hwp.
  { apply wp_verify. intros r [Hr|[-> _]]; by auto. }
  specialize (Hwp σ Hσ). destruct (verify_sigv4_signature _ _ _ _) as [[[r|e|] s'] σ']; destruct Hwp as [Hσ' Hr]; [|done..].
  destruct Hr as [-> Hr]. by exists r, σ'.
Qed.

(** C13 [authorization_decision]. check_authorization of a request for an
    object, on any store that reads its bucket without versioning, its policy,
    ACL and tags without faults, decides exactly by the rules: it gives the
    refusal of the signature; otherwise access to everyone when enforcement is
    off; and with enforcement on access when the policy allows, 403 when it
    denies, and by the ACL of the object and ownership when it is silent. The
    stored rules and objects stay. *)
Theorem authorization_decision req action s σ :
  kept s -> sched_ok calm σ ->
  exists signed σ1 r s' σ', verify_sigv4_signature req config σ s = (Done signed, s, σ1) /\
    check_authorization req config bucket (Some key) action σ s = (Done r, s', σ') /\ kept s' /\
    match signed with
    | Err response => r = Err response /\ rs_status response ∈ [400; 403; 501]%N
    | Ok _ => if enforce_auth config then decided req action r else r = Ok (from_request req config)
    end.
Proof.
  intros Hs Hσ. destruct (verify_run req s σ Hσ) as (signed & σ1 & Hv & Hσ1 & Hr).
  unfold check_authorization, mbind, io_bind. rewrite Hv. destruct Hr as [(resp & -> & Hst)| ->].
  - by exists (Err resp), σ1, (Err resp), s, σ1.
  - destruct (enforce_auth config) eqn:Hen.
    + destruct (wp_calm_run (decide_access req config bucket (Some key) action)
        (fun r s' => kept s' /\ decided req action r) s σ1) as (r & s' & σ' & Hrun & Hk & Hd); [|done|].
      * apply wp_decide_access; by auto.
      * by exists (Ok tt), σ1, r, s', σ'.
    + exists (Ok tt), σ1, (Ok (from_request req config)), s, σ1. unfold decide_access. by rewrite Hen.
Qed.

(** ** Denied requests *)

(** The answer of a denial, with the object still there. *)
Definition turned_away (r : Response) (s : S) : Prop := rs_status r ∈ [400; 403; 501]%N /\ kept s.

Lemma wp_turned_away req action Q s : enforce_auth config = true -> kept s -> permitted req action = false ->
  (forall r s', turned_away r s' -> Q (Err r) s') ->
  wp calm (check_authorization req config bucket (Some key) action) Q (fun _ _ => False) never s.
Proof.
  intros Hen Hs Ha HQ. apply wp_bind, wp_verify. intros r [(resp & -> & Hst)|[-> _]].
  - by apply wp_ret, HQ.
  - apply wp_decide_access; [done..|]. intros r s' Hs' Hd. unfold decided in Hd. rewrite Ha in Hd.
    destruct Hd as (resp & -> & Hst). apply HQ. split; [rewrite Hst; set_solver|done].
Qed.

Lemma wp_unless_denied req action continue s : enforce_auth config = true -> kept s -> permitted req action = false ->
  wp calm (unless_denied (check_authorization req config bucket (Some key) action) continue) turned_away (fun _ _ => False) never s.
Proof. intros Hen Hs Ha. apply wp_bind. apply wp_turned_away; [done..|]. intros r s' Hr. by apply wp_ret. Qed.

(** C14 [denied_request_changes_nothing]. With enforcement on, in a bucket
    without versioning and without storage faults, an object request (GET,
    HEAD, PUT, POST, DELETE) that names no multipart upload and is not a
    preflight, and whose action the rules do not permit, is answered 400, 403
    or 501, and the object, its policy, ACL and tags are still stored as they
    were. *)
Theorem denied_request_changes_nothing `{StoreEnv} `{S3Uploads S} pages req req_id s σ :
  enforce_auth config = true -> kept s -> sched_ok calm σ -> is_preflight req = false -> has_query_param req "uploadId" = false ->
  forall action request, (action, request) ∈
    [("s3:GetObject", answered (object_get pages config bucket key req req_id));
     ("s3:GetObject", answered (object_head pages config bucket key req req_id));
     ("s3:PutObject", object_put pages config bucket key req req_id);
     ("s3:PutObject", answered (object_post pages config bucket key req req_id));
     ("s3:DeleteObject", answered (object_delete pages config bucket key req req_id))] ->
  permitted req action = false ->
  exists r s' σ', request σ s = (Done (Ok r), s', σ') /\ turned_away r s'.
Proof.
  intros Hen Hs Hσ Hp Hu action request Hin Ha.
  destruct (wp_calm_run request (fun a s' => exists r, a = Ok r /\ turned_away r s') s σ)
    as (a & s' & σ' & Hrun & r & -> & Hr); [|done|by exists r, s', σ'].
  assert (forall call, wp calm call turned_away (fun _ _ => False) never s ->
    wp calm (answered call) (fun a s' => exists r, a = Ok r /\ turned_away r s') (fun _ _ => False) never s) as Hanswered.
  { intros call Hc. apply wp_bind. eapply wp_mono; [exact Hc| |done|done]. intros r s1 Hr. apply wp_ret. by exists r. }
  rewrite !elem_of_cons, elem_of_nil in Hin.
  destruct Hin as [[= -> ->]|[[= -> ->]|[[= -> ->]|[[= -> ->]|[[= -> ->]|[]]]]]].
  - apply Hanswered. unfold object_get. rewrite Hp. by apply wp_unless_denied.
  - apply Hanswered. by apply wp_unless_denied.
  - apply wp_bind. apply wp_turned_away; [done..|]. intros r s1 Hr. apply wp_ret. by exists r.
  - apply Hanswered. unfold object_post. rewrite Hu. by apply wp_unless_denied.
  - apply Hanswered. unfold object_delete. rewrite Hu. by apply wp_unless_denied.
Qed.
End Decision.
