(* ===== verification/DeleteFacts.v ===== *)
(** * DeleteFacts: the documents of a multi-object delete

    What [parse_delete_keys] accepts: the documents with 1 to 1000 entries, each
    with a key, and exactly the entries they list; and what it reads out of an
    entity reference. *)

From Stdlib Require Import Ascii Strings.Byte.
From S2P Require Import Prelude Text Models Utf8 FsModel Publication Http Cors DeleteDocument.

(** ** Accepted documents *)

Definition named (field : option string) : Prop := forall t, field = Some t -> t <> "".

(** An entry has a key, and no empty version or entity tag. *)
Definition entry_ok (e : DeleteObjectEntry) : Prop := e.1.1 <> "" /\ named e.1.2 /\ named e.2.

(** The elements that may be open. *)
Definition nesting : list (list string) :=
  [[]; ["Delete"]; ["Quiet"; "Delete"]; ["Object"; "Delete"]; ["Key"; "Object"; "Delete"];
   ["VersionId"; "Object"; "Delete"]; ["ETag"; "Object"; "Delete"]].

Record scanning (d : DeleteState) : Prop := mkScanning {
  sc_nesting : ds_stack d ∈ nesting;
  sc_entries : Forall entry_ok (ds_objects d);
  sc_count : length (ds_objects d) <= (if decide ("Object" ∈ ds_stack d) then 999 else 1000);
  sc_version : head (ds_stack d) <> Some "VersionId" -> "Object" ∈ ds_stack d -> named (ds_version d);
  sc_etag : head (ds_stack d) <> Some "ETag" -> "Object" ∈ ds_stack d -> named (ds_etag d);
  sc_closed : ds_root_closed d = true -> ds_objects d <> [] }.

Lemma blank_named field : blank field = false -> named field.
Proof. intros Hb t ->. simpl in Hb. by intros ->. Qed.

Lemma named_none : named None.
Proof. by intros t [=]. Qed.

Lemma delete_start_scanning : scanning delete_start.
Proof. split; simpl; [set_solver|done|lia|intros _ H; by apply elem_of_nil in H..|done]. Qed.

Section Accepted.
Context `{QuickXml}.

(** What a start tag does. *)
Inductive opened (d : DeleteState) : DeleteState -> Prop :=
| OpenedDelete : ds_stack d = [] -> opened d (push "Delete" d)
| OpenedObject : ds_stack d = ["Delete"] -> length (ds_objects d) <= 999 -> opened d (push "Object" (set_fields None None None d))
| OpenedQuiet : ds_stack d = ["Delete"] -> opened d (push "Quiet" (set_quiet (Some "") d))
| OpenedKey : ds_stack d = ["Object"; "Delete"] -> opened d (push "Key" (set_fields (Some "") (ds_version d) (ds_etag d) d))
| OpenedVersion : ds_stack d = ["Object"; "Delete"] ->
    opened d (push "VersionId" (set_fields (ds_key d) (Some "") (ds_etag d) d))
| OpenedETag : ds_stack d = ["Object"; "Delete"] ->
    opened d (push "ETag" (set_fields (ds_key d) (ds_version d) (Some "") d)).

Lemma open_element_opened name attributes d d' : open_element name attributes d = Ok d' ->
  ds_root_closed d = false /\ opened d d'.
Proof.
  unfold open_element. destruct (ds_root_closed d); [done|]. destruct (negb _); [done|]. intros Ho. split; [done|].
  destruct (eqb (ds_stack d) []) eqn:E1.
  { rewrite eqb_true in E1. destruct (eqb name "Delete") eqn:En; [|done]. rewrite eqb_true in En. subst name.
    injection Ho as <-. by constructor. }
  destruct (eqb (ds_stack d) ["Delete"]) eqn:E2.
  { rewrite eqb_true in E2. destruct (eqb name "Object") eqn:En.
    - rewrite eqb_true in En. subst name. destruct (Nat.leb_spec 1000 (length (ds_objects d))); [done|].
      injection Ho as <-. constructor; [done|lia].
    - destruct (eqb name "Quiet") eqn:Eq; [|done]. rewrite eqb_true in Eq. subst name. destruct (negb _); [|done].
      injection Ho as <-. by constructor. }
  destruct (eqb (ds_stack d) ["Object"; "Delete"]) eqn:E3; [|done]. rewrite eqb_true in E3.
  destruct (eqb name "Key" && _) eqn:Ek.
  { apply andb_true_iff in Ek as [Ek _]. rewrite eqb_true in Ek. subst name. injection Ho as <-. by constructor. }
  destruct (eqb name "VersionId" && _) eqn:Ev.
  { apply andb_true_iff in Ev as [Ev _]. rewrite eqb_true in Ev. subst name. injection Ho as <-. by constructor. }
  destruct (eqb name "ETag" && _) eqn:Et; [|done].
  apply andb_true_iff in Et as [Et _]. rewrite eqb_true in Et. subst name. injection Ho as <-. by constructor.
Qed.

(** Membership and distinctness of concrete names. *)
Ltac concrete := first [by apply (bool_decide_unpack _); vm_compute | done].

Lemma opened_scanning d d' : scanning d -> ds_root_closed d = false -> opened d d' -> scanning d'.
Proof.
  intros [Hn He Hc Hv Ht Hr] Hnc Ho.
  destruct Ho as [Hs|Hs Hl|Hs|Hs|Hs|Hs]; rewrite Hs in *; simpl in *; split; simpl; rewrite ?Hs; try done;
    try concrete; try (intros; rewrite ?Hnc in *; by auto using named_none); try (intros _ Hin; exfalso; revert Hin; concrete).
  all: try (destruct (decide _) as [|Hd]; [lia|exfalso; apply Hd; concrete]).
  all: intros _ _; first [apply Hv | apply Ht]; concrete.
Qed.

(** Text goes into the field that is open. *)
Lemma text_scanning value stray d d' : scanning d -> add_text value stray d = Ok d' -> scanning d'.
Proof.
  intros [Hn He Hc Hv Ht Hr] Ha. unfold add_text, extend in Ha.
  destruct (eqb (head (ds_stack d)) (Some "Key")) eqn:E1.
  { destruct (ds_key d); [|done]. injection Ha as <-. by split. }
  destruct (eqb (head (ds_stack d)) (Some "VersionId")) eqn:E2.
  { rewrite eqb_true in E2. destruct (ds_version d); [|done]. injection Ha as <-. by split. }
  destruct (eqb (head (ds_stack d)) (Some "ETag")) eqn:E3.
  { rewrite eqb_true in E3. destruct (ds_etag d); [|done]. injection Ha as <-. by split. }
  destruct (eqb (head (ds_stack d)) (Some "Quiet")).
  { destruct (ds_quiet d); [|done]. injection Ha as <-. by split. }
  destruct (Text.is_empty (Text.trim value)); [|done]. injection Ha as <-. by split.
Qed.

(** An end tag leaves what is around the element. *)
Definition popped (objects : list DeleteObjectEntry) (d d' : DeleteState) : Prop :=
  ds_stack d' = tail (ds_stack d) /\ ds_objects d' = objects /\
  (ds_version d' = ds_version d \/ ds_version d' = None) /\ (ds_etag d' = ds_etag d \/ ds_etag d' = None).

Inductive ended (d d' : DeleteState) : Prop :=
| EndedField name : ds_stack d = name :: tail (ds_stack d) -> name ∉ ["Object"; "Delete"] -> popped (ds_objects d) d d' ->
    (name = "VersionId" -> named (ds_version d)) -> (name = "ETag" -> named (ds_etag d)) ->
    ds_root_closed d' = ds_root_closed d -> ended d d'
| EndedObject key : ds_stack d = "Object" :: tail (ds_stack d) -> key <> "" ->
    popped (ds_objects d ++ [(key, ds_version d, ds_etag d)]) d d' -> ds_root_closed d' = ds_root_closed d -> ended d d'
| EndedDelete : ds_stack d = "Delete" :: tail (ds_stack d) -> ds_objects d <> [] -> popped (ds_objects d) d d' -> ended d d'.

Lemma close_element_ended name d d' : close_element name d = Ok d' -> ended d d'.
Proof.
  unfold close_element. destruct (eqb (head (ds_stack d)) (Some name)) eqn:E; [|done]. rewrite eqb_true in E. simpl.
  assert (ds_stack d = name :: tail (ds_stack d)) as Hs by (destruct (ds_stack d); naive_solver).
  assert (popped (ds_objects d) d (pop d)) as Hp by (split_and!; by auto). intros Hc.
  destruct (eqb name "Key") eqn:E1.
  { rewrite eqb_true in E1. destruct (blank (ds_key d)); [done|]. injection Hc as <-.
    eapply EndedField; [exact Hs|subst; concrete|done|by subst..|done]. }
  destruct (eqb name "VersionId") eqn:E2.
  { rewrite eqb_true in E2. destruct (blank (ds_version d)) eqn:Eb; [done|]. injection Hc as <-.
    eapply EndedField; [exact Hs|subst; concrete|done|intros _; by apply blank_named|by subst|done]. }
  destruct (eqb name "ETag") eqn:E3.
  { rewrite eqb_true in E3. destruct (blank (ds_etag d)) eqn:Eb; [done|]. injection Hc as <-.
    eapply EndedField; [exact Hs|subst; concrete|done|by subst|intros _; by apply blank_named|done]. }
  rewrite eqb_false in E2, E3.
  destruct (eqb name "Quiet") eqn:E4.
  { rewrite eqb_true in E4. destruct (_ || _); [|done]. injection Hc as <-.
    eapply EndedField; [exact Hs|subst; concrete|done..]. }
  destruct (eqb name "Object") eqn:E5.
  { rewrite eqb_true in E5. subst name. destruct (ds_key d) as [key|]; [|done].
    destruct (Text.is_empty key) eqn:Ek; [done|]. injection Hc as <-.
    eapply (EndedObject _ _ key); [done|by intros ->|by split_and!; auto|done]. }
  destruct (eqb name "Delete") eqn:E6.
  { rewrite eqb_true in E6. subst name. destruct (ds_objects d) as [|e l] eqn:Eo; [done|]. injection Hc as <-.
    apply EndedDelete; [done|by rewrite Eo|by rewrite Eo; split_and!; auto]. }
  rewrite eqb_false in E5, E6. injection Hc as <-. eapply EndedField; [exact Hs|set_solver|done..].
Qed.

Lemma nesting_tail name stack : name :: stack ∈ nesting -> stack ∈ nesting /\ ("Object" ∈ stack -> head stack = Some "Object").
Proof.
  unfold nesting at 1. rewrite !elem_of_cons, elem_of_nil. intros Hn.
  destruct_or! Hn; simplify_eq; (split; [concrete|]); intros Hin; first [done | exfalso; revert Hin; concrete].
Qed.

Lemma nesting_object stack : "Object" :: stack ∈ nesting -> "Object" ∉ stack.
Proof.
  unfold nesting. rewrite !elem_of_cons, elem_of_nil. intros Hn. destruct_or! Hn; try discriminate Hn; try done.
  injection Hn as ->. concrete.
Qed.

Lemma scanning_popped objects d d' : scanning d -> popped objects d d' -> ds_stack d <> [] -> Forall entry_ok objects ->
  length objects <= (if decide ("Object" ∈ tail (ds_stack d)) then 999 else 1000) ->
  (head (ds_stack d) = Some "VersionId" -> named (ds_version d)) -> (head (ds_stack d) = Some "ETag" -> named (ds_etag d)) ->
  (ds_root_closed d' = true -> objects <> []) -> scanning d'.
Proof.
  intros [Hn He Hc Hv Ht Hr] (Hs & <- & Hvv & Htt) Hne Hok Hlen Hv' Ht' Hr'.
  destruct (ds_stack d) as [|name stack] eqn:E; [done|]. simpl in *. destruct (nesting_tail name stack Hn) as [Hn' Hobj].
  split; rewrite ?Hs; [done..| | |done].
  - intros _ Hin. destruct Hvv as [-> | ->]; [|apply named_none].
    destruct (decide (Some name = Some "VersionId")); [by apply Hv'|apply Hv; [done|by apply elem_of_cons; right]].
  - intros _ Hin. destruct Htt as [-> | ->]; [|apply named_none].
    destruct (decide (Some name = Some "ETag")); [by apply Ht'|apply Ht; [done|by apply elem_of_cons; right]].
Qed.

Lemma ended_scanning d d' : scanning d -> ended d d' -> scanning d'.
Proof.
  intros Hd Hend. destruct (Hd) as [Hn He Hc Hv Ht Hr].
  destruct Hend as [name Hs Hnm Hp Hv' Ht' Hcl|key Hs Hk Hp Hcl|Hs Hne Hp].
  - rewrite Hs in Hc. eapply (scanning_popped (ds_objects d)); try done.
    + by rewrite Hs.
    + destruct (decide ("Object" ∈ tail _)) as [Hin|], (decide ("Object" ∈ name :: _)) as [|Hno]; [done| |lia|done].
      exfalso. apply Hno. apply elem_of_cons. by right.
    + rewrite Hs. intros [= ->]. by apply Hv'.
    + rewrite Hs. intros [= ->]. by apply Ht'.
    + rewrite Hcl. done.
  - assert ("Object" ∈ ds_stack d) as Hin by (rewrite Hs; apply elem_of_cons; by left).
    eapply scanning_popped; [done|exact Hp|by rewrite Hs| | |by rewrite Hs|by rewrite Hs|].
    + apply Forall_app. split; [done|]. apply Forall_singleton. split_and!; [done|apply Hv|apply Ht]; [by rewrite Hs|done|by rewrite Hs|done].
    + rewrite decide_True in Hc by done. rewrite length_app. simpl. rewrite decide_False; [lia|].
      rewrite Hs in Hn. by apply nesting_object.
    + intros _ Hnil. by apply app_nil in Hnil as [_ ?].
  - rewrite Hs in Hc. eapply (scanning_popped (ds_objects d)); try done.
    + by rewrite Hs.
    + destruct (decide ("Object" ∈ tail _)) as [Hin|], (decide ("Object" ∈ "Delete" :: _)) as [|Hno]; [done| |lia|done].
      exfalso. apply Hno. apply elem_of_cons. by right.
    + by rewrite Hs.
    + by rewrite Hs.
Qed.

Lemma scan_scanning events d d' : scanning d -> scan_delete events d = Ok d' -> scanning d'.
Proof.
  revert d. induction events as [|e events IH]; intros d Hd Hs; simpl in Hs; [by injection Hs as <-|].
  destruct e as [name attributes|name| |raw|raw|name| | |message]; try done; try by eapply IH.
  - destruct (open_element name attributes d) as [d1|] eqn:E; [|done]. apply open_element_opened in E as [? ?].
    eapply IH; [|exact Hs]. by eapply opened_scanning.
  - destruct (close_element name d) as [d1|] eqn:E; [|done]. apply close_element_ended in E.
    eapply IH; [|exact Hs]. by eapply ended_scanning.
  - destruct (unescape raw) as [value|]; [|done]. simpl in Hs. destruct (add_text _ _ d) as [d1|] eqn:E; [|done].
    eapply IH; [|exact Hs]. by eapply text_scanning.
  - destruct (add_text _ _ d) as [d1|] eqn:E; [|done]. eapply IH; [|exact Hs]. by eapply text_scanning.
Qed.

(** C31 [delete_document_entries]. Whatever document parse_delete_keys
    accepts, its entries are well formed: between 1 and 1000 of them, each
    with a nonempty key, and a nonempty version and entity tag where one is
    given. *)
Theorem delete_document_entries `{RawXml} xml entries :
  parse_delete_keys xml = Ok entries -> 1 <= length entries <= 1000 /\ Forall entry_ok entries.
Proof.
  unfold parse_delete_keys. destruct (scan_delete _ _) as [d|] eqn:E; [|done]. simpl.
  destruct (ds_root_closed d) eqn:Ec; [|done]. destruct (Nat.eqb_spec (length (ds_stack d)) 0); [|done].
  intros [= <-]. destruct (scan_scanning _ _ _ delete_start_scanning E) as [Hn He Hc Hv Ht Hr].
  specialize (Hr Ec). destruct (ds_objects d); [done|]. split; [|done]. simpl in *. destruct (decide _); lia.
Qed.

(** ** The document of a list of entries *)

Variable escaped : string -> string.

Definition field_events (name value : string) : list RawEvent := [RStart name []; RText (escaped value); REnd name].
Definition optional_events (name : string) (value : option string) : list RawEvent := default [] (field_events name <$> value).
Definition entry_events (e : DeleteObjectEntry) : list RawEvent :=
  RStart "Object" [] :: field_events "Key" e.1.1 ++ optional_events "VersionId" e.1.2 ++ optional_events "ETag" e.2
    ++ [REnd "Object"].
Definition delete_events (entries : list DeleteObjectEntry) : list RawEvent :=
  RStart "Delete" [Some "xmlns"] :: concat (entry_events <$> entries) ++ [REnd "Delete"].

(** The text of an entry stands for itself. *)
Definition readable_text (value : string) : Prop := unescape (escaped value) = Ok value.
Definition readable_entry (e : DeleteObjectEntry) : Prop :=
  readable_text e.1.1 /\ (forall v, e.1.2 = Some v -> readable_text v) /\ (forall t, e.2 = Some t -> readable_text t).

(** Inside an object, with the fields read so far. *)
Abbreviation inside q sq l k v t := (mkDelete false ["Object"; "Delete"] k v t q sq l).

Lemma scan_key q sq l v t value rest : readable_text value -> value <> "" ->
  scan_delete (field_events "Key" value ++ rest) (inside q sq l None v t) = scan_delete rest (inside q sq l (Some value) v t).
Proof. intros Hr Hne. unfold readable_text in Hr. simpl. rewrite Hr. simpl. by destruct value. Qed.

Lemma scan_version q sq l k t value rest : (forall v, value = Some v -> readable_text v) -> named value ->
  scan_delete (optional_events "VersionId" value ++ rest) (inside q sq l k None t) = scan_delete rest (inside q sq l k value t).
Proof.
  intros Hr Hne. destruct value as [v|]; [|done]. specialize (Hr v eq_refl). unfold readable_text in Hr. simpl. rewrite Hr.
  simpl. specialize (Hne v eq_refl). by destruct v.
Qed.

Lemma scan_etag q sq l k v value rest : (forall t, value = Some t -> readable_text t) -> named value ->
  scan_delete (optional_events "ETag" value ++ rest) (inside q sq l k v None) = scan_delete rest (inside q sq l k v value).
Proof.
  intros Hr Hne. destruct value as [t|]; [|done]. specialize (Hr t eq_refl). unfold readable_text in Hr. simpl. rewrite Hr.
  simpl. specialize (Hne t eq_refl). by destruct t.
Qed.

Lemma scan_entry q sq l k v t e rest : readable_entry e -> entry_ok e -> length l <= 999 ->
  scan_delete (entry_events e ++ rest) (mkDelete false ["Delete"] k v t q sq l)
  = scan_delete rest (mkDelete false ["Delete"] None None None q sq (l ++ [e])).
Proof.
  intros (Hk & Hv & Ht) (Nk & Nv & Nt) Hl. destruct e as [[key version] etag]. simpl in Hk, Hv, Ht, Nk, Nv, Nt.
  unfold entry_events. cbn [fst snd]. rewrite <- app_comm_cons. cbn [scan_delete].
  assert (open_element "Object" [] (mkDelete false ["Delete"] k v t q sq l) = Ok (inside q sq l None None None)) as ->.
  { unfold open_element. cbn [ds_root_closed ds_stack ds_objects]. by rewrite (proj2 (Nat.leb_gt 1000 (length l))) by lia. }
  cbn [mbind result_bind]. rewrite <- !app_assoc, scan_key, scan_version, scan_etag by done.
  cbn [app scan_delete]. unfold close_element. simpl. by destruct key.
Qed.

Lemma scan_entries q sq l k v t entries rest : Forall readable_entry entries -> Forall entry_ok entries ->
  length l + length entries <= 1000 -> exists k' v' t',
  scan_delete (concat (entry_events <$> entries) ++ rest) (mkDelete false ["Delete"] k v t q sq l)
  = scan_delete rest (mkDelete false ["Delete"] k' v' t' q sq (l ++ entries)).
Proof.
  revert l k v t. induction entries as [|e entries IH]; intros l k v t Hr Ho Hl.
  - exists k, v, t. by rewrite app_nil_r.
  - apply Forall_cons_iff in Hr as [Hre Hr]. apply Forall_cons_iff in Ho as [Hoe Ho]. simpl in Hl.
    destruct (IH (l ++ [e]) None None None Hr Ho) as (k' & v' & t' & Heq); [rewrite length_app; simpl; lia|].
    exists k', v', t'. cbn [fmap list_fmap concat]. rewrite <- app_assoc, scan_entry by (done || lia).
    rewrite Heq. by rewrite <- app_assoc.
Qed.

(** [delete_document_read]. A Delete document written for 1 to 1000
    well-formed entries of plain text is read back as exactly these entries,
    in order. *)
Theorem delete_document_read `{RawXml} xml entries :
  raw_events xml = delete_events entries -> Forall readable_entry entries -> Forall entry_ok entries ->
  1 <= length entries <= 1000 -> parse_delete_keys xml = Ok entries.
Proof.
  intros Hx Hr Ho Hl. unfold parse_delete_keys. rewrite Hx. unfold delete_events. cbn [scan_delete].
  change (open_element "Delete" [Some "xmlns"] delete_start) with (Ok (E := string) (mkDelete false ["Delete"] None None None None false [])).
  cbn [mbind result_bind].
  destruct (scan_entries None false [] None None None entries [REnd "Delete"] Hr Ho) as (k & v & t & ->); [simpl; lia|].
  destruct entries; [simpl in Hl; lia|done].
Qed.

(** ** Entity references *)

(** The key [a&entity;b] of an entry. *)
Definition referenced (a entity b : string) : list RawEvent :=
  [RStart "Object" []; RStart "Key" []; RText (escaped a); RRef entity; RText (escaped b); REnd "Key"; REnd "Object"].

Lemma scan_referenced q sq l k v t a entity b rest : readable_text a -> readable_text b -> a +:+ b <> "" -> length l <= 999 ->
  scan_delete (referenced a entity b ++ rest) (mkDelete false ["Delete"] k v t q sq l)
  = scan_delete rest (mkDelete false ["Delete"] None None None q sq (l ++ [(a +:+ b, None, None)])).
Proof.
  intros Ha Hb Hne Hl. unfold readable_text in Ha, Hb. unfold referenced. cbn [app scan_delete].
  assert (open_element "Object" [] (mkDelete false ["Delete"] k v t q sq l) = Ok (inside q sq l None None None)) as ->.
  { unfold open_element. cbn [ds_root_closed ds_stack ds_objects]. by rewrite (proj2 (Nat.leb_gt 1000 (length l))) by lia. }
  cbn [mbind result_bind]. change (open_element "Key" [] _) with
    (Ok (E := string) (mkDelete false ["Key"; "Object"; "Delete"] (Some "") None None q sq l)).
  cbn [mbind result_bind]. rewrite Ha, Hb. cbn [mbind result_bind].
  change (add_text a _ _) with (Ok (E := string) (mkDelete false ["Key"; "Object"; "Delete"] (Some a) None None q sq l)).
  cbn [mbind result_bind].
  change (add_text b _ _) with (Ok (E := string) (mkDelete false ["Key"; "Object"; "Delete"] (Some (a +:+ b)) None None q sq l)).
  cbn [mbind result_bind]. generalize dependent (a +:+ b). intros [|c key]; done.
Qed.

(** [delete_document_drops_references]. An entity reference in a key of a
    Delete document is dropped without an error: the document names the key
    a&b and the object deleted is ab. *)
Theorem delete_document_drops_references `{RawXml} xml before a entity b after :
  raw_events xml = RStart "Delete" [Some "xmlns"] :: concat (entry_events <$> before) ++ referenced a entity b ++
    concat (entry_events <$> after) ++ [REnd "Delete"] ->
  readable_text a -> readable_text b -> a +:+ b <> "" ->
  Forall readable_entry (before ++ after) -> Forall entry_ok (before ++ after) -> length (before ++ after) <= 999 ->
  parse_delete_keys xml = Ok (before ++ (a +:+ b, None, None) :: after).
Proof.
  intros Hx Ha Hb Hne Hr Ho Hl. apply Forall_app in Hr as [Hr1 Hr2]. apply Forall_app in Ho as [Ho1 Ho2].
  rewrite length_app in Hl. unfold parse_delete_keys. rewrite Hx. cbn [scan_delete].
  change (open_element "Delete" [Some "xmlns"] delete_start) with (Ok (E := string) (mkDelete false ["Delete"] None None None None false [])).
  cbn [mbind result_bind].
  destruct (scan_entries None false [] None None None before
    (referenced a entity b ++ concat (entry_events <$> after) ++ [REnd "Delete"]) Hr1 Ho1) as (k & v & t & ->); [simpl; lia|].
  rewrite scan_referenced by (done || (simpl; lia)).
  destruct (scan_entries None false (before ++ [(a +:+ b, None, None)]) None None None after [REnd "Delete"] Hr2 Ho2)
    as (k' & v' & t' & Heq); [rewrite length_app; simpl; lia|].
  cbn [app] in *. rewrite Heq, <- app_assoc. cbn [app scan_delete]. unfold close_element. cbn [ds_stack ds_objects head].
  by destruct before.
Qed.
End Accepted.
