(* ===== verification/XmlFacts.v ===== *)
(** * XmlFacts: text in XML answers

    [escape_xml] of [src/utils/xml.rs], through which every name, key and message
    enters a document: the reference decoder of the five entities inverts it, and
    no character that ends a text or an attribute is left.  And what the reader of
    tagging documents makes of the events it is given. *)

From Stdlib Require Import Ascii.
From stdpp Require Import pretty.
From S2P Require Import Prelude Text Models Utf8 Validation SkipMap Index FsModel Publication Lifecycle Storage.
From S2P Require Import Versions Listing LifecycleExecutor Http Cors Checksums ObjectHelpers Routing.
From S2P Require Import XmlDocuments LifecycleXml.

(** The character an entity stands for, after the ampersand, and its length. *)
Definition entity (s : string) : option (ascii * nat) :=
  if is_some (Text.strip_prefix s "amp;") then Some ("&"%char, 4)
  else if is_some (Text.strip_prefix s "lt;") then Some ("<"%char, 3)
  else if is_some (Text.strip_prefix s "gt;") then Some (">"%char, 3)
  else if is_some (Text.strip_prefix s "quot;") then Some (QUOT, 5)
  else if is_some (Text.strip_prefix s "apos;") then Some ("'"%char, 5)
  else None.

(** The text of a document's character data; [skip] characters belong to the
    entity read last. *)
Fixpoint decode_entities (skip : nat) (s : string) : string :=
  match s, skip with
  | EmptyString, _ => EmptyString
  | String _ rest, Datatypes.S n => decode_entities n rest
  | String a rest, O =>
      if eqb a "&"%char then
        match entity rest with
        | Some (c, n) => String c (decode_entities n rest)
        | None => String a (decode_entities 0 rest)
        end
      else String a (decode_entities 0 rest)
  end.

Definition markup (a : ascii) : bool := eqb a "<"%char || eqb a ">"%char || eqb a QUOT || eqb a "'"%char.

Fixpoint has_markup (s : string) : bool :=
  match s with
  | EmptyString => false
  | String a rest => markup a || has_markup rest
  end.

Lemma has_markup_app s t : has_markup (s +:+ t) = has_markup s || has_markup t.
Proof. induction s as [|a s IH]; [done|]. simpl. by rewrite IH, orb_assoc. Qed.

Lemma escape_char_cases a :
  (exists n, (a, n) ∈ [("&"%char, "&amp;"); ("<"%char, "&lt;"); (">"%char, "&gt;"); (QUOT, "&quot;"); ("'"%char, "&apos;")] /\
     escape_char a = n) \/
  escape_char a = String a "" /\ markup a = false /\ eqb a "&"%char = false.
Proof.
  unfold escape_char, markup.
  destruct (eqb a "&"%char) eqn:E1; [apply eqb_true in E1 as ->; left; eexists; split; [|done]; set_solver|].
  destruct (eqb a "<"%char) eqn:E2; [apply eqb_true in E2 as ->; left; eexists; split; [|done]; set_solver|].
  destruct (eqb a ">"%char) eqn:E3; [apply eqb_true in E3 as ->; left; eexists; split; [|done]; set_solver|].
  destruct (eqb a QUOT) eqn:E4; [apply eqb_true in E4 as ->; left; eexists; split; [|done]; set_solver|].
  destruct (eqb a "'"%char) eqn:E5; [apply eqb_true in E5 as ->; left; eexists; split; [|done]; set_solver|].
  by right.
Qed.

Lemma decode_plain a s : eqb a "&"%char = false -> decode_entities 0 (String a s) = String a (decode_entities 0 s).
Proof. intros Ha. simpl. by rewrite Ha. Qed.

(** [escaped_text_round_trip]. Decoding the five entities inverts escape_xml,
    and escaped text holds no character that ends an element or an attribute.
    *)
Theorem escaped_text_round_trip s : decode_entities 0 (escape_xml s) = s /\ has_markup (escape_xml s) = false.
Proof.
  induction s as [|a s [IH1 IH2]]; [done|]. cbn [escape_xml]. rewrite has_markup_app, IH2, orb_false_r.
  destruct (escape_char_cases a) as [(n & Hin & ->)|(-> & Hm & Ha)].
  - rewrite !elem_of_cons, elem_of_nil in Hin.
    destruct Hin as [[= -> ->]|[[= -> ->]|[[= -> ->]|[[= -> ->]|[[= -> ->]|[]]]]]];
      (split; [|by vm_compute]); rewrite <- IH1 at 2; reflexivity.
  - change (String a "" +:+ escape_xml s) with (String a (escape_xml s)). rewrite decode_plain by done.
    rewrite IH1. split; [done|]. simpl. by rewrite Hm.
Qed.

(** ** Tagging documents *)

Section Tagging.
Context `{QuickXml}.

(** The events of one tag, around those of its key and its value. *)
Definition tag_events (key value : list XmlEvent) : list XmlEvent :=
  XStart "Tag" :: XStart "Key" :: key ++ XEnd "Key" :: XStart "Value" :: value ++ [XEnd "Value"; XEnd "Tag"].

(** A tag whose key and value are texts without entities. *)
Definition plain_tag (t : string * string) : list XmlEvent := tag_events [XText t.1] [XText t.2].

Definition document (tags : list XmlEvent) : list XmlEvent :=
  XStart "Tagging" :: XStart "TagSet" :: tags ++ [XEnd "TagSet"; XEnd "Tagging"].

Lemma collect_plain_tags ts rest acc :
  Forall (fun t => unescape t.1 = Ok t.1 /\ unescape t.2 = Ok t.2) ts ->
  collect_tag_set ((ts ≫= plain_tag) ++ rest) false false None acc
  = collect_tag_set rest false false None (foldl (fun m t => <[t.1 := t.2]> m) acc ts).
Proof.
  intros Hts. revert acc. induction Hts as [|[k v] ts [Hk Hv] _ IH]; intros acc; [done|].
  simpl in *. rewrite Hk. simpl. rewrite Hv. simpl. apply IH.
Qed.

(** [tagging_document_read]. Reading a tagging document stores every tag whose
    key and value are plain texts, a later one over an earlier one; but a tag
    with an empty value is lost, a key with an entity is cut to the text after
    it, and a value with an entity fails the whole document. *)
Theorem tagging_document_read ts k v (pieces : string * string) :
  Forall (fun t => unescape t.1 = Ok t.1 /\ unescape t.2 = Ok t.2) ((k, v) :: pieces :: ts) ->
  let read tags := collect_tag_set (document ((ts ≫= plain_tag) ++ tags)) false false None ∅ in
  let before := foldl (fun m t => <[t.1 := t.2]> m) (∅ : strmap) ts in
  read [] = Ok before /\
  read (tag_events [XText k] []) = Ok before /\
  read (tag_events [XText pieces.1; XRef "amp"; XText pieces.2] [XText v]) = Ok (<[pieces.2 := v]> before) /\
  read (tag_events [XText k] [XText pieces.1; XRef "amp"; XText pieces.2]) = Err "InvalidTagKey".
Proof.
  intros HF. inversion_clear HF as [|? ? [Hk Hv] HF']. inversion_clear HF' as [|? ? [H1 H2] Hts]. simpl in Hk, Hv, H1, H2.
  intros read before.
  assert (forall tags, read tags = collect_tag_set (tags ++ [XEnd "TagSet"; XEnd "Tagging"]) false false None before) as Hread.
  { intros tags. unfold read, document. simpl. rewrite <- app_assoc. by apply collect_plain_tags. }
  rewrite !Hread. cbn [tag_events app collect_tag_set eqb].
  split_and!; simpl; rewrite ?Hk, ?H1; simpl; rewrite ?Hk, ?H1, ?H2; simpl; rewrite ?Hv; done.
Qed.
End Tagging.

(** * Lifecycle documents there and back

    A configuration that is printed by [lifecycle_xml] is read back by
    [parse_lifecycle_xml]; and what the reader makes of a prefix outside a
    filter and of a prefix with an entity. *)

(** ** Numbers *)

Lemma digit_pretty x : (x < 10)%N -> Text.digit (pretty_N_char x) = Some x.
Proof.
  intros Hx. assert (x ∈ [0; 1; 2; 3; 4; 5; 6; 7; 8; 9]%N) as Hin by (rewrite !elem_of_cons; lia).
  rewrite !elem_of_cons, elem_of_nil in Hin. by destruct_or! Hin; subst.
Qed.

Lemma parse_digits_go x s : Text.parse_digits 0 (pretty_N_go x s) = Text.parse_digits x s.
Proof.
  revert s. induction (N.lt_wf_0 x) as [x _ IH]; intros s. destruct (decide (0 < x)%N) as [Hx|Hx].
  - rewrite pretty_N_go_step by done. rewrite IH by (apply N.div_lt; lia). cbn [Text.parse_digits].
    rewrite digit_pretty by (apply N.mod_lt; lia). cbn [mbind option_bind]. f_equal.
    rewrite N.mul_comm. symmetry. by apply N.div_mod'.
  - replace x with 0%N by lia. by rewrite pretty_N_go_0.
Qed.

Lemma parse_digits_pretty (n : N) : Text.parse_digits 0 (pretty n) = Some n.
Proof. unfold pretty, pretty_N. case_decide as Hn; [by subst|]. apply parse_digits_go. Qed.

Lemma pretty_sign (n : N) c : Text.digit c = None -> Text.strip_prefix (pretty n) (String c "") = None.
Proof.
  intros Hc. pose proof (parse_digits_pretty n) as Hp. destruct (pretty n) as [|a t]; [done|]. cbn [Text.strip_prefix].
  destruct (eqb c a) eqn:E; [|done]. rewrite eqb_true in E. subst a. cbn [Text.parse_digits] in Hp. by rewrite Hc in Hp.
Qed.

Lemma parse_u64_pretty (n : N) : (n <= U64_MAX)%N -> Text.parse_u64 (pretty n) = Some n.
Proof.
  intros Hn. unfold Text.parse_u64. rewrite pretty_sign by done. pose proof (parse_digits_pretty n) as Hp.
  destruct (Text.is_empty (pretty n)) eqn:E; [|rewrite Hp; simpl; by rewrite (proj2 (N.leb_le n _))].
  destruct (pretty n) eqn:Ep; [by injection Hp as <-|done].
Qed.

Lemma parse_u32_pretty (n : N) : (n < 2 ^ 32)%N -> parse_u32 (pretty n) = Some n.
Proof.
  intros Hn. unfold parse_u32. rewrite parse_u64_pretty by (unfold U64_MAX; lia). simpl. by rewrite (proj2 (N.ltb_lt n _)).
Qed.

Lemma parse_i64_pretty (z : Z) : (0 < z < 2 ^ 63)%Z -> Text.parse_i64 (pretty z) = Some z.
Proof.
  intros Hz. assert (pretty z = pretty (Z.to_N z)) as -> by (destruct z; [lia|done|lia]). unfold Text.parse_i64.
  rewrite pretty_sign by done. rewrite parse_u64_pretty by (unfold U64_MAX; lia). cbn [mbind option_bind].
  rewrite (proj2 (N.ltb_lt _ _)) by lia. f_equal. lia.
Qed.

(** ** The events of a printed configuration *)

Section Document.
Context `{QuickXml}.

(** [texts v]: what the reader delivers for the text [v] of an element. *)
Variable texts : string -> list XmlEvent.

Definition element (name value : string) : list XmlEvent := XStart name :: texts value ++ [XEnd name].
Definition nested (name : string) (body : list XmlEvent) : list XmlEvent := XStart name :: body ++ [XEnd name].
Definition opt {A} (f : A -> list XmlEvent) (o : option A) : list XmlEvent := match o with Some a => f a | None => [] end.

Definition filter_tag_events (t : Tag) : list XmlEvent := nested "Tag" (element "Key" (tag_key t) ++ element "Value" (tag_value t)).
Definition filter_events (f : Filter) : list XmlEvent :=
  nested "Filter" (opt (element "Prefix") (filter_prefix f) ++ concat (filter_tag_events <$> filter_tags f)).
Definition expiration_events (e : Expiration) : list XmlEvent :=
  nested "Expiration"
    (opt (fun d : N => element "Days" (pretty d)) (exp_days e) ++ opt (element "Date") (exp_date e) ++
     opt (fun m : bool => element "ExpiredObjectDeleteMarker" (if m then "true" else "false"))
       (exp_expired_object_delete_marker e)).
Definition noncurrent_events (n : NoncurrentVersionExpiration) : list XmlEvent :=
  nested "NoncurrentVersionExpiration" (element "NoncurrentDays" (pretty (noncurrent_days n))).
Definition transition_events (t : Transition) : list XmlEvent :=
  nested "Transition"
    (opt (fun d : N => element "Days" (pretty d)) (tr_days t) ++ opt (element "Date") (tr_date t) ++
     element "StorageClass" (storage_class_text (tr_storage_class t))).
Definition rule_events (r : Rule) : list XmlEvent :=
  nested "Rule"
    (opt (element "ID") (rule_id r) ++
     element "Status" (match rule_status r with RuleEnabled => "Enabled" | RuleDisabled => "Disabled" end) ++
     opt filter_events (rule_filter r) ++ opt expiration_events (rule_expiration r) ++
     opt noncurrent_events (rule_noncurrent_version_expiration r) ++ concat (transition_events <$> rule_transitions r)).
Definition lifecycle_events (config : LifecycleConfiguration) : list XmlEvent :=
  XComment :: nested "LifecycleConfiguration" (concat (rule_events <$> rules config)).

(** ** Reading them *)

(** The text is delivered in one piece, or not at all when it is empty. *)
Definition plain (value : string) : Prop :=
  texts value = [] /\ value = "" \/ exists raw, texts value = [XText raw] /\ unescape raw = Ok value.

Lemma scan_element name value rest p : plain value -> lp_start p name = p ->
  scan_lifecycle (element name value ++ rest) p = scan_lifecycle rest (lp_end name (set_text p value)).
Proof.
  intros Hv Hp. unfold element. cbn [app scan_lifecycle]. rewrite Hp, <- app_assoc.
  destruct Hv as [[-> ->]|(raw & -> & Hr)]; cbn [app scan_lifecycle]; [done|by rewrite Hr].
Qed.

Definition plain_filter_tag (t : Tag) : Prop := plain (tag_key t) /\ plain (tag_value t).
Definition plain_option (o : option string) : Prop := forall v, o = Some v -> plain v.
Definition plain_days (o : option N) : Prop := forall d, o = Some d -> plain (pretty d) /\ (d < 2 ^ 32)%N.

(** Inside a rule; inside one of its parts. *)
Abbreviation in_rule_state l r f e n t := (mkParse l (Some r) f e n t None "").

Lemma scan_tag l r f t rest : plain_filter_tag t ->
  scan_lifecycle (filter_tag_events t ++ rest) (in_rule_state l r (Some f) None None None)
  = scan_lifecycle rest (in_rule_state l r (Some (mkFilter (filter_prefix f) (filter_tags f ++ [t]))) None None None).
Proof.
  intros [Hk Hv]. unfold filter_tag_events, nested. cbn [app scan_lifecycle]. rewrite <- !app_assoc.
  rewrite !scan_element by done. by destruct t.
Qed.

Lemma scan_tags l r p ts us rest : Forall plain_filter_tag us ->
  scan_lifecycle (concat (filter_tag_events <$> us) ++ rest) (in_rule_state l r (Some (mkFilter p ts)) None None None)
  = scan_lifecycle rest (in_rule_state l r (Some (mkFilter p (ts ++ us))) None None None).
Proof.
  revert ts. induction us as [|u us IH]; intros ts HF; [by rewrite app_nil_r|].
  apply Forall_cons_iff in HF as [Hu HF]. cbn [fmap list_fmap concat]. rewrite <- app_assoc, scan_tag by done.
  cbn [filter_prefix filter_tags]. rewrite IH by done. by rewrite <- app_assoc.
Qed.

Definition with_filter (r : Rule) (f : option Filter) : Rule :=
  mkRule (rule_id r) (rule_status r) f (rule_expiration r) (rule_noncurrent_version_expiration r) (rule_transitions r).
Definition with_expiration (r : Rule) (e : option Expiration) : Rule :=
  mkRule (rule_id r) (rule_status r) (rule_filter r) e (rule_noncurrent_version_expiration r) (rule_transitions r).
Definition with_noncurrent (r : Rule) (n : option NoncurrentVersionExpiration) : Rule :=
  mkRule (rule_id r) (rule_status r) (rule_filter r) (rule_expiration r) n (rule_transitions r).
Definition with_transitions (r : Rule) (ts : list Transition) : Rule :=
  mkRule (rule_id r) (rule_status r) (rule_filter r) (rule_expiration r) (rule_noncurrent_version_expiration r) ts.

Definition plain_filter (f : Filter) : Prop := plain_option (filter_prefix f) /\ Forall plain_filter_tag (filter_tags f).
Definition plain_expiration (e : Expiration) : Prop :=
  plain_days (exp_days e) /\ plain_option (exp_date e) /\ plain "true" /\ plain "false".
Definition plain_noncurrent (n : NoncurrentVersionExpiration) : Prop := plain_days (Some (noncurrent_days n)).
Definition plain_transition (t : Transition) : Prop :=
  plain_days (tr_days t) /\ plain_option (tr_date t) /\ plain (storage_class_text (tr_storage_class t)).

Lemma scan_filter l r f rest : plain_filter f ->
  scan_lifecycle (filter_events f ++ rest) (in_rule_state l r None None None None)
  = scan_lifecycle rest (in_rule_state l (with_filter r (Some f)) None None None None).
Proof.
  intros [Hp Ht]. destruct f as [prefix tags]. unfold filter_events, nested. cbn [filter_prefix filter_tags app scan_lifecycle].
  rewrite <- !app_assoc. simpl in Hp, Ht. destruct prefix as [prefix|]; cbn [opt].
  - rewrite scan_element by (done || by apply Hp). 
    change (lp_end "Prefix" _) with (in_rule_state l r (Some (mkFilter (Some prefix) [])) None None None).
    by rewrite scan_tags.
  - cbn [app]. change (set_text _ _) with (in_rule_state l r (Some (mkFilter None [])) None None None). by rewrite scan_tags.
Qed.

(** A number of days inside an expiration or a transition. *)
Lemma lp_days d p : (d < 2 ^ 32)%N -> lp_end "Days" (set_text p (pretty d)) =
  set_text match lp_expiration p with
           | Some e => set_expiration p (Some (mkExpiration (Some d) (exp_date e) (exp_expired_object_delete_marker e)))
           | None =>
               match lp_transition p with
               | Some t => set_transition p (Some (mkTransition (Some d) (tr_date t) (tr_storage_class t)))
               | None => p
               end
           end "".
Proof.
  intros Hd. destruct p as [l r f e n t tag txt]. unfold lp_end.
  assert (end_rule_field (set_text (mkParse l r f e n t tag txt) (pretty d)) "Days" = set_text (mkParse l r f e n t tag txt) (pretty d)) as ->
    by by destruct r.
  change (end_filter_field ?q "Days") with q. change (end_action_field ?q "Days") with (set_days q).
  change (close_lifecycle_element ?q "Days") with q. unfold set_days. cbn [set_text lp_text].
  rewrite parse_u32_pretty by done. by destruct e, t.
Qed.

Lemma scan_expiration l r e rest : plain_expiration e ->
  scan_lifecycle (expiration_events e ++ rest) (in_rule_state l r None None None None)
  = scan_lifecycle rest (in_rule_state l (with_expiration r (Some e)) None None None None).
Proof.
  intros (Hd & Ht & Htrue & Hfalse). destruct e as [days date marker]. unfold expiration_events, nested. simpl in Hd, Ht.
  cbn [exp_days exp_date exp_expired_object_delete_marker app scan_lifecycle]. rewrite <- !app_assoc.
  change (set_text _ _) with (in_rule_state l r None (Some (mkExpiration None None None)) None None).
  assert (forall tail, scan_lifecycle (opt (fun d : N => element "Days" (pretty d)) days ++ tail)
    (in_rule_state l r None (Some (mkExpiration None None None)) None None) =
    scan_lifecycle tail (in_rule_state l r None (Some (mkExpiration days None None)) None None)) as ->.
  { intros tail. destruct days as [d|]; [|done]. destruct (Hd d eq_refl). cbn [opt]. by rewrite scan_element, lp_days. }
  assert (forall tail, scan_lifecycle (opt (element "Date") date ++ tail)
    (in_rule_state l r None (Some (mkExpiration days None None)) None None) =
    scan_lifecycle tail (in_rule_state l r None (Some (mkExpiration days date None)) None None)) as ->.
  { intros tail. destruct date as [d|]; [|done]. cbn [opt]. by rewrite scan_element by (done || by apply Ht). }
  destruct marker as [[]|]; cbn [opt]; [by rewrite scan_element..|done].
Qed.

Lemma scan_noncurrent l r n rest : plain_noncurrent n ->
  scan_lifecycle (noncurrent_events n ++ rest) (in_rule_state l r None None None None)
  = scan_lifecycle rest (in_rule_state l (with_noncurrent r (Some n)) None None None None).
Proof.
  intros Hd. destruct n as [days]. destruct (Hd days eq_refl) as [Hp Hlt]. unfold noncurrent_events, nested.
  cbn [noncurrent_days app scan_lifecycle]. rewrite <- !app_assoc, scan_element by done.
  assert (forall q, lp_text q = pretty days -> lp_noncurrent q <> None ->
    set_noncurrent_days q = set_noncurrent q (Some (mkNoncurrent days))) as Hset.
  { intros q Hq Hne. unfold set_noncurrent_days. rewrite Hq, parse_u32_pretty by done. by destruct (lp_noncurrent q). }
  unfold lp_end at 1. change (end_action_field ?q "NoncurrentDays") with (set_noncurrent_days q). by rewrite Hset.
Qed.

Lemma scan_transition l r t rest : plain_transition t ->
  scan_lifecycle (transition_events t ++ rest) (in_rule_state l r None None None None)
  = scan_lifecycle rest (in_rule_state l (with_transitions r (rule_transitions r ++ [t])) None None None None).
Proof.
  intros (Hd & Ht & Hc). destruct t as [days date class]. unfold transition_events, nested. simpl in Hd, Ht, Hc.
  cbn [tr_days tr_date tr_storage_class app scan_lifecycle]. rewrite <- !app_assoc.
  change (set_text _ _) with (in_rule_state l r None None None (Some (mkTransition None None Standard))).
  assert (forall tail, scan_lifecycle (opt (fun d : N => element "Days" (pretty d)) days ++ tail)
    (in_rule_state l r None None None (Some (mkTransition None None Standard))) =
    scan_lifecycle tail (in_rule_state l r None None None (Some (mkTransition days None Standard)))) as ->.
  { intros tail. destruct days as [d|]; [|done]. destruct (Hd d eq_refl). cbn [opt]. by rewrite scan_element, lp_days. }
  assert (forall tail, scan_lifecycle (opt (element "Date") date ++ tail)
    (in_rule_state l r None None None (Some (mkTransition days None Standard))) =
    scan_lifecycle tail (in_rule_state l r None None None (Some (mkTransition days date Standard)))) as ->.
  { intros tail. destruct date as [d|]; [|done]. cbn [opt]. by rewrite scan_element by (done || by apply Ht). }
  rewrite scan_element by done. by destruct class.
Qed.

Lemma scan_transitions l r ts rest : Forall plain_transition ts ->
  scan_lifecycle (concat (transition_events <$> ts) ++ rest) (in_rule_state l r None None None None)
  = scan_lifecycle rest (in_rule_state l (with_transitions r (rule_transitions r ++ ts)) None None None None).
Proof.
  revert r. induction ts as [|t ts IH]; intros r HF; [rewrite app_nil_r; by destruct r|].
  apply Forall_cons_iff in HF as [Ht HF]. cbn [fmap list_fmap concat]. rewrite <- app_assoc, scan_transition by done.
  rewrite IH by done. simpl. by rewrite <- app_assoc.
Qed.

Record plain_rule (r : Rule) : Prop := mkPlainRule {
  pr_id : plain_option (rule_id r);
  pr_status : plain "Enabled" /\ plain "Disabled";
  pr_filter : forall f, rule_filter r = Some f -> plain_filter f;
  pr_expiration : forall e, rule_expiration r = Some e -> plain_expiration e;
  pr_noncurrent : forall n, rule_noncurrent_version_expiration r = Some n -> plain_noncurrent n;
  pr_transitions : Forall plain_transition (rule_transitions r) }.

(** Between rules. *)
Abbreviation between l := (mkParse l None None None None None None "").

Lemma scan_rule l r rest : plain_rule r ->
  scan_lifecycle (rule_events r ++ rest) (between l) = scan_lifecycle rest (between (l ++ [r])).
Proof.
  intros [Hid [He Hd] Hf Hx Hn Ht]. destruct r as [id status flt expiration noncurrent transitions].
  unfold rule_events, nested. simpl in Hid, Hf, Hx, Hn, Ht.
  cbn [rule_id rule_status rule_filter rule_expiration rule_noncurrent_version_expiration rule_transitions app scan_lifecycle].
  rewrite <- !app_assoc. change (set_text _ _) with (in_rule_state l new_rule None None None None).
  assert (forall tail, scan_lifecycle (opt (element "ID") id ++ tail) (in_rule_state l new_rule None None None None) =
    scan_lifecycle tail (in_rule_state l (mkRule id RuleDisabled None None None []) None None None None)) as ->.
  { intros tail. destruct id as [i|]; [|done]. cbn [opt]. by rewrite scan_element by (done || by apply Hid). }
  assert (forall tail, scan_lifecycle (element "Status" (match status with RuleEnabled => "Enabled" | RuleDisabled => "Disabled" end) ++ tail)
    (in_rule_state l (mkRule id RuleDisabled None None None []) None None None None) =
    scan_lifecycle tail (in_rule_state l (mkRule id status None None None []) None None None None)) as ->.
  { intros tail. destruct status; by rewrite scan_element. }
  assert (forall tail, scan_lifecycle (opt filter_events flt ++ tail)
    (in_rule_state l (mkRule id status None None None []) None None None None) =
    scan_lifecycle tail (in_rule_state l (mkRule id status flt None None []) None None None None)) as ->.
  { intros tail. destruct flt as [f|]; [|done]. cbn [opt]. by rewrite scan_filter by by apply Hf. }
  assert (forall tail, scan_lifecycle (opt expiration_events expiration ++ tail)
    (in_rule_state l (mkRule id status flt None None []) None None None None) =
    scan_lifecycle tail (in_rule_state l (mkRule id status flt expiration None []) None None None None)) as ->.
  { intros tail. destruct expiration as [e|]; [|done]. cbn [opt]. by rewrite scan_expiration by by apply Hx. }
  assert (forall tail, scan_lifecycle (opt noncurrent_events noncurrent ++ tail)
    (in_rule_state l (mkRule id status flt expiration None []) None None None None) =
    scan_lifecycle tail (in_rule_state l (mkRule id status flt expiration noncurrent []) None None None None)) as ->.
  { intros tail. destruct noncurrent as [n|]; [|done]. cbn [opt]. by rewrite scan_noncurrent by by apply Hn. }
  by rewrite scan_transitions.
Qed.

Lemma scan_rules l rs rest : Forall plain_rule rs ->
  scan_lifecycle (concat (rule_events <$> rs) ++ rest) (between l) = scan_lifecycle rest (between (l ++ rs)).
Proof.
  revert l. induction rs as [|r rs IH]; intros l HF; [by rewrite app_nil_r|].
  apply Forall_cons_iff in HF as [Hr HF]. cbn [fmap list_fmap concat]. rewrite <- app_assoc, scan_rule, IH by done.
  by rewrite <- app_assoc.
Qed.

(** [lifecycle_document_round_trip]. The lifecycle document that lifecycle_xml
    writes for a configuration of plain texts is read back by
    parse_lifecycle_xml as the same configuration. *)
Theorem lifecycle_document_round_trip config :
  xml_events (lifecycle_xml config) = lifecycle_events config -> Forall plain_rule (rules config) ->
  parse_lifecycle_xml (lifecycle_xml config) = Ok config.
Proof.
  intros Hx HF. unfold parse_lifecycle_xml. rewrite Hx. destruct config as [rs]. unfold lifecycle_events, nested.
  cbn [rules scan_lifecycle]. change (set_text _ _) with (between []). by rewrite scan_rules.
Qed.
End Document.

(** ** Prefixes the reader loses *)

Section Prefixes.
Context `{QuickXml}.

(** A rule that expires objects after [days], with a prefix as S3 documented it
    before filters, or inside a filter. *)
Definition expire_after (days : string) : list XmlEvent := [XStart "Expiration"; XStart "Days"; XText days; XEnd "Days"; XEnd "Expiration"].
Definition enabled_rule (prefix : list XmlEvent) (days : string) : list XmlEvent :=
  [XStart "LifecycleConfiguration"; XStart "Rule"] ++ prefix ++ [XStart "Status"; XText "Enabled"; XEnd "Status"]
    ++ expire_after days ++ [XEnd "Rule"; XEnd "LifecycleConfiguration"].
Definition legacy_prefix (raw : string) : list XmlEvent := [XStart "Prefix"; XText raw; XEnd "Prefix"].
Definition filter_with (texts : list XmlEvent) : list XmlEvent :=
  [XStart "Filter"; XStart "Prefix"] ++ texts ++ [XEnd "Prefix"; XEnd "Filter"].

Abbreviation at_rule r f e := (mkParse [] (Some r) f e None None None "").

Lemma scan_text name raw value rest p : lp_start p name = p -> unescape raw = Ok value ->
  scan_lifecycle (XStart name :: XText raw :: XEnd name :: rest) p = scan_lifecycle rest (lp_end name (set_text p value)).
Proof. intros Hp Hr. cbn [scan_lifecycle]. by rewrite Hp, Hr. Qed.

(** The text after a reference replaces the text before it. *)
Lemma scan_reference name before entity raw value rest p : lp_start p name = p -> unescape raw = Ok value ->
  scan_lifecycle (XStart name :: XText before :: XRef entity :: XText raw :: XEnd name :: rest) p =
  scan_lifecycle rest (lp_end name (set_text p value)).
Proof. intros Hp Hr. cbn [scan_lifecycle]. by rewrite Hp, Hr. Qed.

(** From the status to the end of the document. *)
Lemma scan_enabled flt days n : unescape "Enabled" = Ok "Enabled" -> unescape days = Ok (pretty n) -> (n < 2 ^ 32)%N ->
  scan_lifecycle (XStart "Status" :: XText "Enabled" :: XEnd "Status" :: expire_after days ++
      [XEnd "Rule"; XEnd "LifecycleConfiguration"]) (at_rule (mkRule None RuleDisabled flt None None []) None None)
  = Ok (mkParse [mkRule None RuleEnabled flt (Some (mkExpiration (Some n) None None)) None []] None None None None None None "").
Proof.
  intros He Hd Hn. unfold expire_after. cbn [app]. rewrite (scan_text "Status" "Enabled" "Enabled") by done.
  change (lp_end "Status" _) with (at_rule (mkRule None RuleEnabled flt None None []) None None).
  set (p := at_rule (mkRule None RuleEnabled flt None None []) None (Some (mkExpiration None None None))).
  change (scan_lifecycle (XStart "Days" :: XText days :: XEnd "Days" ::
    [XEnd "Expiration"; XEnd "Rule"; XEnd "LifecycleConfiguration"]) p = Ok (mkParse
    [mkRule None RuleEnabled flt (Some (mkExpiration (Some n) None None)) None []] None None None None None None "")).
  by rewrite (scan_text "Days" days (pretty n)), lp_days.
Qed.

(** [lifecycle_prefix_lost]. A lifecycle rule loses its prefix: a Prefix
    directly under Rule is ignored, so that the rule matches every object of
    the bucket, and a Prefix with an entity reference is cut to the text after
    it. *)
Theorem lifecycle_prefix_lost body before after days (n : N) :
  unescape "Enabled" = Ok "Enabled" -> unescape before = Ok before -> unescape after = Ok after -> unescape days = Ok (pretty n) ->
  (n < 2 ^ 32)%N ->
  let expiring filter := mkLifecycle [mkRule None RuleEnabled filter (Some (mkExpiration (Some n) None None)) None []] in
  (xml_events body = enabled_rule (legacy_prefix before) days ->
   parse_lifecycle_xml body = Ok (expiring None) /\
   forall r key tags, r ∈ rules (expiring None) -> rule_matches_filter r key tags = true) /\
  (xml_events body = enabled_rule (filter_with [XText before; XRef "amp"; XText after]) days ->
   parse_lifecycle_xml body = Ok (expiring (Some (mkFilter (Some after) []))) /\
   forall r key tags, r ∈ rules (expiring (Some (mkFilter (Some after) []))) ->
     rule_matches_filter r key tags = Text.starts_with key after).
Proof.
  intros He Hb Ha Hd Hn expiring.
  split; intros Hx; (split; [|intros r key tags Hr; apply list_elem_of_singleton in Hr as ->; first [done | apply andb_true_r]]);
    unfold parse_lifecycle_xml; rewrite Hx; unfold enabled_rule; cbn [app scan_lifecycle];
    change (set_text (lp_start (set_text (lp_start parse_start _) "") "Rule") "") with (at_rule (mkRule None RuleDisabled None None None []) None None).
  - unfold legacy_prefix. cbn [app]. rewrite (scan_text "Prefix" before before) by done.
    change (lp_end "Prefix" _) with (at_rule (mkRule None RuleDisabled None None None []) None None). by rewrite (scan_enabled None days n).
  - unfold filter_with. cbn [app].
    change (scan_lifecycle (XStart "Filter" :: ?l) ?p) with (scan_lifecycle l (set_text (lp_start p "Filter") "")).
    change (set_text (lp_start _ "Filter") "") with (at_rule new_rule (Some (mkFilter None [])) None).
    rewrite (scan_reference "Prefix" before "amp" after after) by done.
    change (scan_lifecycle (XEnd "Filter" :: ?l) ?p) with (scan_lifecycle l (lp_end "Filter" p)).
    change (lp_end "Filter" _) with (at_rule (mkRule None RuleDisabled (Some (mkFilter (Some after) [])) None None []) None None).
    by rewrite (scan_enabled (Some (mkFilter (Some after) [])) days n).
Qed.
End Prefixes.
