(* ===== verification/PresignedFacts.v ===== *)
(** * PresignedFacts: a generated URL is accepted until it expires

    The URL that [PresignedUrl::generate_url] prints, taken apart by
    [from_query_params] and checked by [validate_components]. *)

From Stdlib Require Import Ascii Strings.Byte.
From stdpp Require Import pretty sorting.
From S2P Require Import Prelude Text Models Policy SkipMap Index Utf8 Validation FsModel Publication FileFacts.
From S2P Require Import Lifecycle Storage Versions Listing LifecycleExecutor Http Cors Checksums ObjectHelpers Routing.
From S2P Require Import ObjectHandlers XmlDocuments LifecycleXml XmlFacts Signatures.

(** ** Joining and splitting *)

Lemma lacks_app c s t : lacks c (s +:+ t) = lacks c s && lacks c t.
Proof. induction s as [|a s IH]; [done|]. rewrite Text.app_cons. unfold lacks in *. simpl. by rewrite IH, andb_assoc. Qed.

Lemma split_app_lacks c s t : lacks c s = true -> Text.split c (s +:+ String c t) = s :: Text.split c t.
Proof.
  induction s as [|a s IH]; intros Hs; [simpl; by rewrite eqb_refl|].
  unfold lacks in Hs. simpl in Hs. rewrite andb_true_iff, negb_true_iff in Hs. destruct Hs as [Ha Hs].
  rewrite Text.app_cons. simpl. by rewrite Ha, IH.
Qed.

Lemma split_join c l : l <> [] -> Forall (fun s => lacks c s = true) l ->
  Text.split c (Text.join_text (String c "") l) = l.
Proof.
  induction l as [|a l IH]; [done|]. intros _ HF. apply Forall_cons_iff in HF as [Ha HF].
  destruct l as [|b l]; [by apply split_lacks|]. cbn [Text.join_text]. rewrite Text.app_cons. rewrite split_app_lacks by done.
  f_equal. by apply IH.
Qed.

Lemma join_snoc sep l a : l <> [] -> Text.join_text sep (l ++ [a]) = Text.join_text sep l +:+ sep +:+ a.
Proof.
  induction l as [|b l IH]; [done|]. intros _. destruct l as [|b' l]; [done|].
  change (Text.join_text sep ((b :: b' :: l) ++ [a])) with (b +:+ sep +:+ Text.join_text sep ((b' :: l) ++ [a])).
  rewrite IH by done. change (Text.join_text sep (b :: b' :: l)) with (b +:+ sep +:+ Text.join_text sep (b' :: l)).
  by rewrite !Text.app_assoc.
Qed.

(** ** Percent encoding *)

Definition in_encoding (a : ascii) : bool := unreserved a || eqb a "%"%char.

Lemma encoded_alphabet s : all_ascii in_encoding (uri_encode s) = true.
Proof.
  induction s as [|a s IH]; [done|]. cbn [uri_encode].
  assert (forall u v, all_ascii in_encoding (u +:+ v) = all_ascii in_encoding u && all_ascii in_encoding v) as Happ.
  { intros u v. induction u as [|b u IHu]; [done|]. rewrite Text.app_cons. simpl. by rewrite IHu, andb_assoc. }
  rewrite Happ, IH, andb_true_r. clear. by destruct a as [[] [] [] [] [] [] [] []].
Qed.

Lemma encoded_lacks c s : in_encoding c = false -> lacks c (uri_encode s) = true.
Proof.
  intros Hc. eapply all_ascii_weaken; [|apply encoded_alphabet]. intros a Ha. apply negb_true_iff.
  destruct (eqb a c) eqn:E; [|done]. rewrite eqb_true in E. congruence.
Qed.

(** ** Sorted parameters *)

#[export] Instance pair_le_total : Total pair_le.
Proof.
  intros a b. unfold pair_le, Text.lt. destruct (decide (a.1 = b.1)) as [Heq|Hne].
  - destruct (total String.le a.2 b.2); [left|right]; right; by split.
  - destruct (total String.le a.1 b.1); [left|right]; left; by split.
Qed.

#[export] Instance pair_le_antisym : AntiSymm (=) pair_le.
Proof.
  intros [a1 a2] [b1 b2]. unfold pair_le, Text.lt. simpl. intros [[Ha Hn]|[-> Ha]] [[Hb Hn']|[Hq Hb]].
  - by destruct (Hn (anti_symm String.le _ _ Ha Hb)).
  - by subst.
  - done.
  - f_equal. by apply (anti_symm String.le).
Qed.

#[export] Instance pair_le_trans : Transitive pair_le.
Proof.
  intros [a1 a2] [b1 b2] [c1 c2]. unfold pair_le, Text.lt. simpl. intros [[Ha Hn]|[-> Ha]] [[Hb Hn']|[<- Hb]].
  - left. split; [by etrans|]. intros <-. by destruct (Hn (anti_symm String.le _ _ Ha Hb)).
  - by left.
  - by left.
  - right. split; [done|]. by etrans.
Qed.

Lemma sort_params l l' : l ≡ₚ l' -> StronglySorted pair_le l' -> merge_sort pair_le l = l'.
Proof.
  intros Hp Hs. apply (StronglySorted_unique pair_le); [by apply (StronglySorted_merge_sort pair_le)|done|].
  by rewrite merge_sort_Permutation.
Qed.

(** ** Printed parameters *)

Definition param_map (l : list (string * string)) : strmap := foldl (fun m e => <[e.1 := e.2]> m) ∅ l.

Lemma param_map_list l : param_map l = list_to_map (reverse l).
Proof.
  unfold param_map. induction l as [|e l IH] using rev_ind; [done|]. rewrite foldl_app, IH, reverse_snoc. by destruct e.
Qed.

Lemma param_map_lookup l k v : NoDup l.*1 -> (k, v) ∈ l -> param_map l !! k = Some v.
Proof.
  intros Hn Hin. rewrite param_map_list. apply elem_of_list_to_map; [|by rewrite elem_of_reverse].
  rewrite fmap_reverse. by rewrite (reverse_Permutation l.*1).
Qed.

Lemma param_map_perm l : NoDup l.*1 -> map_to_list (param_map l) ≡ₚ l.
Proof.
  intros Hn. rewrite param_map_list. etrans; [apply map_to_list_to_map|apply reverse_Permutation].
  rewrite fmap_reverse. by rewrite (reverse_Permutation l.*1).
Qed.

Section Presigned.
Context `{HttpLaws} `{HelperEnv} `{PayloadDigests} `{SigningEnv} `{HashOrder}.

(** The encoding of the text is decoded to it. *)
Definition decodes (s : string) : Prop := url_decode (uri_encode s) = Ok s.

Definition printed_param (e : string * string) : string := e.1 +:+ "=" +:+ uri_encode e.2.

(** A name that is printed as it is. *)
Definition plain_name (n : string) : Prop := uri_encode n = n /\ n <> "" /\ decodes n.

Lemma parse_printed l : l <> [] -> Forall (fun e => plain_name e.1 /\ decodes e.2) l ->
  parse_query_params (Some (Text.join_text "&" (printed_param <$> l))) = param_map l.
Proof.
  intros Hne HF. unfold parse_query_params, param_map. rewrite split_join.
  - generalize (∅ : strmap). clear Hne. induction l as [|[k v] l IH]; intros m; [done|].
    apply Forall_cons_iff in HF as [[(Hk & Hkn & Hkd) Hv] HF]. cbn [fst snd] in *. cbn [fmap list_fmap foldl].
    change (printed_param (k, v)) with (k +:+ String "=" (uri_encode v)).
    assert (Text.is_empty (k +:+ String "=" (uri_encode v)) = false) as -> by by destruct k.
    rewrite split_once_lacks by (rewrite <- Hk; by apply encoded_lacks).
    unfold decodes in Hkd, Hv. rewrite Hk in Hkd.
    assert (decoded k = k) as -> by (unfold decoded; by rewrite Hkd).
    assert (decoded (uri_encode v) = v) as -> by (unfold decoded; by rewrite Hv). by apply IH.
  - by destruct l.
  - rewrite Forall_fmap. eapply Forall_impl; [|exact HF]. intros [k v] [(Hk & _) _]. simpl in Hk |- *.
    unfold printed_param. cbn [fst snd]. by rewrite !lacks_app, <- Hk, !encoded_lacks.
Qed.

Lemma canonical_printed l : NoDup l.*1 -> Forall (fun e => plain_name e.1 /\ decodes e.2) l ->
  StronglySorted pair_le ((fun e => (e.1, uri_encode e.2)) <$> filter (fun e => e.1 <> "X-Amz-Signature") l) ->
  canonical_query_string (param_map l) =
    Text.join_text "&" (printed_param <$> filter (fun e => e.1 <> "X-Amz-Signature") l).
Proof.
  intros Hn HF Hs. unfold canonical_query_string, query_text.
  rewrite (sort_params _ ((fun e => (e.1, uri_encode e.2)) <$> filter (fun e => e.1 <> "X-Amz-Signature") l)); [|..|done].
  - by rewrite <- list_fmap_compose.
  - rewrite hash_order_perm, param_map_perm by done.
    match goal with |- ?a ≡ₚ ?b => assert (a = b) as ->; [|done] end.
    apply list_fmap_ext. intros i [k v] Hi. simpl. f_equal.
    apply list_elem_of_lookup_2, list_elem_of_filter in Hi as [_ Hi].
    rewrite Forall_forall in HF. by destruct (HF (k, v)) as [[? _] _]; [apply list_elem_of_In|].
Qed.

(** A path of encoded segments is canonical. *)
Lemma canonical_uri_fixed segments : 1 < length segments -> Forall decodes segments ->
  canonical_uri (Text.join_text "/" (uri_encode <$> segments)) = Text.join_text "/" (uri_encode <$> segments).
Proof.
  intros Hlen HF. unfold canonical_uri.
  assert (Text.is_empty (Text.join_text "/" (uri_encode <$> segments)) = false) as ->.
  { destruct segments as [|a [|b l]]; [simpl in Hlen; lia..|]. simpl. by destruct (uri_encode a). }
  rewrite split_join.
  - f_equal. rewrite <- list_fmap_compose. apply list_fmap_ext. intros i s Hi. simpl.
    apply (Forall_lookup_1 _ _ _ _ HF) in Hi. unfold decode_or_raw. by rewrite Hi.
  - destruct segments; [simpl in Hlen; lia|done].
  - rewrite Forall_fmap. apply Forall_true. intros s. by apply encoded_lacks.
Qed.

(** ** The generated URL *)

Section Url.
Variables (made signed : time) (bucket key method : string) (expires_in : Z) (base_url : string) (config : PresignedUrlConfig).

Definition url_scope : string := format_date_stamp made +:+ "/" +:+ REGION +:+ "/" +:+ SERVICE +:+ "/aws4_request".
Definition url_credential : string := pc_access_key config +:+ "/" +:+ url_scope.
Definition url_path : string := canonical_uri ("/" +:+ bucket +:+ "/" +:+ key).
Definition url_signature : string :=
  signature_of (pc_secret_key config) (format_date_stamp made) REGION SERVICE (format_amz_date made) url_scope
    (presigned_request method url_path (presigned_query url_credential (format_amz_date made) expires_in)
       ("host:" +:+ trim_host base_url +:+ NL) "host").
Definition url_params : list (string * string) :=
  [("X-Amz-Algorithm", "AWS4-HMAC-SHA256"); ("X-Amz-Credential", url_credential); ("X-Amz-Date", format_amz_date made);
   ("X-Amz-Expires", pretty expires_in); ("X-Amz-SignedHeaders", "host"); ("X-Amz-Signature", url_signature)].
Definition url_query : string :=
  presigned_query url_credential (format_amz_date made) expires_in +:+ "&X-Amz-Signature=" +:+ url_signature.

(** What is assumed of the libraries and of the credentials: dates are printed
    without the fraction of a second and read back, the texts of the URL are
    decoded to what was encoded, the signature is hexadecimal. *)
Record presignable : Prop := mkPresignable {
  pa_seconds : parse_amz_date (format_amz_date made) = Some signed;
  pa_same_date : format_amz_date signed = format_amz_date made;
  pa_same_stamp : format_date_stamp signed = format_date_stamp made;
  pa_stamp : format_date_stamp made <> "" /\ lacks "/" (format_date_stamp made) = true;
  pa_key : pc_access_key config <> "" /\ lacks "/" (pc_access_key config) = true;
  pa_bucket : bucket <> "" /\ lacks "/" bucket = true /\ decode_or_raw bucket = bucket;
  pa_empty : decodes "";
  pa_signature : uri_encode url_signature = url_signature;
  pa_names : Forall decodes url_params.*1;
  pa_values : Forall decodes url_params.*2;
  pa_segments : Forall decodes (decode_or_raw <$> Text.split "/" ("/" +:+ bucket +:+ "/" +:+ key)) }.
Context (Hurl : presignable).

Lemma url_params_ok : Forall (fun e => plain_name e.1 /\ decodes e.2) url_params.
Proof.
  pose proof (pa_names Hurl) as Hn. pose proof (pa_values Hurl) as Hv. unfold url_params in *. simpl in Hn, Hv.
  rewrite !Forall_cons_iff in Hn, Hv. destruct_and! Hn. destruct_and! Hv.
  repeat (apply Forall_cons_iff; split; [split; [split_and!|]; done|]). constructor.
Qed.

Lemma url_params_distinct : NoDup url_params.*1.
Proof. apply (bool_decide_unpack _). by vm_compute. Qed.

Lemma url_query_parsed : parse_query_params (Some url_query) = param_map url_params.
Proof.
  rewrite <- parse_printed by (done || apply url_params_ok). do 2 f_equal. unfold url_query, presigned_query.
  change (printed_param <$> url_params) with
    ((printed_param <$> take 5 url_params) ++ [printed_param ("X-Amz-Signature", url_signature)]).
  rewrite join_snoc by done. unfold printed_param at 2. cbn [fst snd]. by rewrite (pa_signature Hurl).
Qed.

Lemma url_query_canonical :
  canonical_query_string (param_map url_params) = presigned_query url_credential (format_amz_date made) expires_in.
Proof.
  rewrite canonical_printed; [done|apply url_params_distinct|apply url_params_ok|].
  cbn. repeat (constructor; [|repeat (constructor; [left; by apply (bool_decide_unpack _); vm_compute|]); constructor]). constructor.
Qed.

Lemma url_param k v : (k, v) ∈ url_params -> param_map url_params !! k = Some v.
Proof. apply param_map_lookup, url_params_distinct. Qed.

Lemma url_credential_parsed :
  parse_credential_scope url_credential = Some (mkScope (pc_access_key config) (format_date_stamp made) REGION SERVICE "aws4_request").
Proof.
  destruct (pa_stamp Hurl) as [Hs1 Hs2], (pa_key Hurl) as [Hk1 Hk2]. unfold parse_credential_scope.
  change url_credential with (pc_access_key config +:+ String "/" (format_date_stamp made +:+ String "/" "us-east-1/s3/aws4_request")).
  rewrite !split_app_lacks by done. change (Text.split "/" "us-east-1/s3/aws4_request") with [REGION; SERVICE; "aws4_request"].
  assert (forall a, a <> "" -> Text.is_empty a = false) as Hne by (by intros []).
  unfold existsb. by rewrite (Hne _ Hk1), (Hne _ Hs1).
Qed.

(** The request that is made with the URL. *)
Record follows_url (req : Request) : Prop := mkFollows {
  fu_method : rq_method req = method;
  fu_path : rq_path req = url_path;
  fu_query : rq_query req = Some url_query;
  fu_host : header_fields req !! "host" = Some (trim_host base_url);
  fu_plain_host : normalize_header_value (trim_host base_url) = trim_host base_url;
  fu_headers : forall name value, header_fields req !! name = Some value -> Text.starts_with name "x-amz-" = false }.

Lemma url_covers req : follows_url req -> signed_names_cover ["host"] (header_fields req) = true.
Proof.
  intros Hr. unfold signed_names_cover.
  assert (valid_signed_header_names ["host"] = true) as ->.
  { unfold valid_signed_header_names, forallb. by rewrite (header_name_letters "host"). }
  change (existsb (eqb "host") ["host"]) with true. apply forallb_forall. intros [name value] Hin.
  apply list_elem_of_In, elem_of_map_to_list in Hin. cbn [fst snd].
  by rewrite (fu_headers _ Hr name value Hin).
Qed.

Lemma url_no_conflict req : conflict ["host"] (header_fields req) (param_map url_params) = None.
Proof.
  unfold conflict. match goal with |- head (omap ?f ?l) = None => assert (omap f l = []) as ->; [|done] end.
  apply Permutation_nil. symmetry. etrans; [apply omap_Permutation; etrans; [apply hash_order_perm|]; apply param_map_perm, url_params_distinct|].
  done.
Qed.

(** The path starts with one slash. *)
Lemma url_path_slash : "/" +:+ trim_leading "/" url_path = url_path.
Proof.
  destruct (pa_bucket Hurl) as (Hb & Hl & Hd). unfold url_path, canonical_uri.
  change (Text.is_empty ("/" +:+ bucket +:+ "/" +:+ key)) with false. cbv iota.
  change ("/" +:+ bucket +:+ "/" +:+ key) with ("" +:+ String "/" (bucket +:+ String "/" key)).
  rewrite !split_app_lacks by done. cbn [fmap list_fmap].
  assert (decode_or_raw "" = "") as -> by (unfold decode_or_raw; by rewrite (pa_empty Hurl : url_decode "" = Ok "")).
  rewrite Hd. set (rest := _ <$> Text.split "/" key). clearbody rest.
  assert (exists a t, uri_encode bucket = String a t /\ eqb a "/"%char = false) as (a & t & -> & Ha).
  { pose proof (encoded_lacks "/" bucket eq_refl) as Hno. destruct (uri_encode bucket) as [|a t] eqn:E.
    - destruct bucket as [|b bk]; [done|]. cbn [uri_encode] in E. by destruct (unreserved b).
    - exists a, t. split; [done|]. unfold lacks in Hno. simpl in Hno. rewrite andb_true_iff, negb_true_iff in Hno. by destruct Hno. }
  assert (forall u, "/" +:+ trim_leading "/" (String "/" (String a u)) = String "/" (String a u)) as Htrim.
  { intros u. cbn [trim_leading]. by rewrite eqb_refl, Ha. }
  destruct rest as [|r rest]; apply Htrim.
Qed.

Lemma url_path_canonical : canonical_uri url_path = url_path.
Proof.
  unfold url_path. set (p := "/" +:+ bucket +:+ "/" +:+ key).
  assert (canonical_uri p = Text.join_text "/" (uri_encode <$> (decode_or_raw <$> Text.split "/" p))) as ->.
  { unfold canonical_uri. change (Text.is_empty p) with false. cbv iota. by rewrite <- list_fmap_compose. }
  apply canonical_uri_fixed; [|apply Hurl]. rewrite length_fmap.
  change p with ("" +:+ String "/" (bucket +:+ "/" +:+ key)). rewrite split_app_lacks by done. simpl.
  destruct (Text.split "/" _) eqn:E; [by apply Text.split_nonempty in E|simpl; lia].
Qed.

(** C28 [presigned_url_accepted]. A URL made by generate_url is accepted by
    the verification of a request that follows it, exactly until it expires,
    and refused as expired afterwards. *)
Theorem presigned_url_accepted req t :
  follows_url req -> (1 <= expires_in <= 604800)%Z -> (signed <= t + 15 * MINUTE)%Z ->
  generate_url_at made bucket key method expires_in base_url config
    = Text.trim_end_matches base_url "/" +:+ rq_path req +:+ "?" +:+ default "" (rq_query req) /\
  exists u, from_query_params bucket key (rq_method req) (parse_query_params (rq_query req)) = Ok u /\
    validate_request_contract_at t u req config =
      if (signed + expires_in * SECOND <? t)%Z then Err (PvSignatureMismatch "Presigned URL has expired") else Ok tt.
Proof.
  intros Hr He Ht. rewrite (fu_query _ Hr), (fu_path _ Hr). split.
  { transitivity (Text.trim_end_matches base_url "/" +:+ ("/" +:+ trim_leading "/" url_path) +:+ "?" +:+ url_query);
      [by rewrite Text.app_assoc|by rewrite url_path_slash]. }
  rewrite url_query_parsed. set (params := param_map url_params).
  exists (mkPresigned bucket key (rq_method req) signed expires_in url_signature url_credential params).
  split.
  - unfold from_query_params, params.
    rewrite (url_param "X-Amz-Signature" url_signature), (url_param "X-Amz-Expires" (pretty expires_in)),
      (url_param "X-Amz-Date" (format_amz_date made)), (url_param "X-Amz-Credential" url_credential) by set_solver.
    cbn [ok_or mbind result_bind option_bind]. rewrite parse_i64_pretty by lia. cbn [ok_or mbind result_bind option_bind].
    unfold exact_date. rewrite (pa_seconds Hurl). cbn [mbind option_bind]. by rewrite (pa_same_date Hurl), eqb_refl.
  - unfold validate_request_contract_at, validate_components_at, presigned_canonical_request.
    cbn [ps_query_params ps_expires_in ps_date ps_credential ps_signature]. unfold params at 1.
    rewrite (url_param "X-Amz-Algorithm" "AWS4-HMAC-SHA256") by set_solver.
    rewrite (proj2 (Z.ltb_ge expires_in 1)), (proj2 (Z.ltb_ge 604800 expires_in)), (proj2 (Z.ltb_ge (t + 15 * MINUTE) signed)) by lia.
    simpl negb. simpl orb. cbv iota. destruct (signed + expires_in * SECOND <? t)%Z; [done|].
    rewrite url_credential_parsed. cbn [ok_or mismatch map_err mbind result_bind cs_access_key cs_date cs_service cs_terminator cs_region].
    rewrite !eqb_refl, (pa_same_stamp Hurl), (pa_same_date Hurl), !eqb_refl. simpl negb. simpl orb. cbv iota.
    unfold params. rewrite (url_param "X-Amz-SignedHeaders" "host") by set_solver.
    cbn [ok_or mismatch map_err mbind result_bind]. change (Text.split ";" "host") with ["host"].
    rewrite (url_covers req Hr), url_no_conflict. simpl negb. cbv iota.
    cbn [canonical_header_lines]. rewrite (fu_host _ Hr). cbn [ok_or mismatch map_err mbind result_bind].
    rewrite (fu_plain_host _ Hr), url_query_canonical, (fu_path _ Hr), (fu_method _ Hr), url_path_canonical.
    assert (eqb url_signature _ = true) as ->; [|done].
    rewrite eqb_true. done.
Qed.
End Url.
End Presigned.
