(* ===== verification/SmsFacts.v ===== *)
(** * SmsFacts: text messages, their deliveries and callbacks

    The delivery of a message is decided at most once and reported at most once,
    whatever calls fail; a callback attempt is recorded once and never changed; a
    failing callback does not lose the message; and no field of a message can add a
    line to the request of a callback. *)

From Stdlib Require Import Ascii.
From stdpp Require Import pretty.
From S2P Require Import Prelude Text Models Utf8 Policy SkipMap FsModel Publication FileFacts StorageFacts StartupFacts.
From S2P Require Import ConcreteEnv Scenario MailWitnesses.
From S2P Require Import Http Routing HandlerRules PresignedFacts Capture Sms.

(** ** Replacing a file *)

Section Files.
Context `{EnvLaws} `{CaptureEnv} `{!SmsEnv}.

(** The private copies of a file that is replaced. *)
Definition private_copy (d : path) (n : string) (q : path) : Prop := exists u, q = join d (n +:+ "." +:+ u +:+ ".tmp").

(** The file has [e], and only its private copies differ otherwise. *)
Definition replaced (d : path) (n : string) (e : option entry) (s s' : fs) : Prop :=
  s' !! join d n = e /\ forall q, q <> join d n -> ~ private_copy d n q -> s' !! q = s !! q.

Lemma copy_ne (d : path) (n u : string) : join d n <> join d (n +:+ "." +:+ u +:+ ".tmp").
Proof.
  intros [_ Heq]%join_inj. apply (f_equal String.length) in Heq. rewrite !Text.length_app in Heq. simpl in Heq. lia.
Qed.

Lemma replaced_copy d n e s0 s u b : replaced d n e s0 s ->
  replaced d n e s0 (<[join d (n +:+ "." +:+ u +:+ ".tmp") := b]> s).
Proof.
  intros [He Hq]. split.
  - rewrite lookup_insert_ne by (intros Heq; symmetry in Heq; by apply copy_ne in Heq). done.
  - intros q Hn Hp. rewrite lookup_insert_ne; [by apply Hq|]. intros <-. apply Hp. by exists u.
Qed.

(** A directory with the directory above it. *)
Definition mounted (d : path) (s : fs) : Prop := d <> [] /\ is_dir d s = true /\ path_exists (parent d) s = true.

Lemma create_mounted d Q E C s : mounted d s -> Q tt s -> C s -> wp any_schedule (create_dir_all "io" d) Q E C s.
Proof.
  intros (Hp & Hd & Hpar) HQ HC. unfold create_dir_all. destruct (reverse d) as [|a rp] eqn:Hr.
  { apply (f_equal reverse) in Hr. rewrite reverse_involutive in Hr. by destruct Hp. }
  cbn [create_dir_all_rev]. rewrite <- Hr, reverse_involutive. apply wp_bind, wp_attempt, wp_sys.
  - intros _. assert (path_exists d s = true) as -> by (apply path_exists_true; apply is_dir_true in Hd; by exists Directory).
    rewrite andb_false_r, Hpar. apply wp_bind, wp_gets. rewrite Hd. by apply wp_ret.
  - intros _ r. unfold untouched. apply wp_bind, wp_gets. rewrite Hd. by apply wp_ret.
  - by intros.
Qed.

(** A write either replaces the file or leaves it. *)
Lemma write_atomic_any d n b s : mounted d s ->
  wp any_schedule (write_atomic (join d n) b) (fun _ => replaced d n (Some (File b)) s)
    (fun _ => replaced d n (s !! join d n) s) (replaced d n (s !! join d n) s) s.
Proof.
  intros Hm. assert (replaced d n (s !! join d n) s s) as Hs by done. unfold write_atomic. rewrite parent_join.
  apply wp_bind, create_mounted; [done| |done]. rewrite file_name_join. apply wp_bind, wp_of_res. simpl.
  apply wp_bind, wp_new_uuid. intros k _. set (u := uuid_text k). set (temp := join d (n +:+ "." +:+ u +:+ ".tmp")).
  apply wp_bind, wp_sys; [intros _|by intros..]. destruct (is_dir _ s && _); [|done].
  set (s1 := <[temp := File []]> s). assert (replaced d n (s !! join d n) s s1) as Hs1 by (by apply replaced_copy).
  apply wp_bind, wp_sys; cbn beta; [intros _|intros _ r|intros _ r].
  2,3: destruct (is_file temp s1); [by apply replaced_copy|done].
  assert (is_file temp s1 = true) as -> by (unfold is_file, s1; by rewrite lookup_insert_eq).
  set (s2 := <[temp := File b]> s1). assert (replaced d n (s !! join d n) s s2) as Hs2 by (by apply replaced_copy).
  apply wp_sys; [intros linked|by intros..].
  assert (s2 !! temp = Some (File b)) as -> by (unfold s2; by rewrite lookup_insert_eq).
  destruct (is_dir _ s2 && _); [|done]. destruct (linked && _) eqn:Hl.
  - apply andb_true_iff in Hl as [_ Hl]. apply (proj1 (eqb_true _ _)) in Hl. split; [done|apply Hs2].
  - split; [by rewrite lookup_insert_eq|]. intros q Hq Hp. rewrite lookup_insert_ne by done.
    rewrite lookup_delete_ne; [by apply Hs2|]. intros <-. apply Hp. by exists u.
Qed.
End Files.

(** ** What a write touches *)

Section Footprint.
Context `{EnvLaws} `{CaptureEnv} `{!SmsEnv}.
Variable X : path -> Prop.

Lemma create_dirs_outside msg rp : (forall q, below q (reverse rp) = true -> X q) ->
  always (outside_same X) (create_dir_all_rev msg rp).
Proof.
  assert (forall p, X p -> always (outside_same X) (mkdir msg p)) as Hmk.
  { intros p Hp. apply always_sys; [apply _| |by intros; apply outside_refl]. intros _ s a s' E.
    repeat case_match; simplify_eq; [|apply outside_refl]. intros q Hq. rewrite lookup_insert_ne; [done|by intros ->]. }
  assert (forall p e, always (outside_same X) (dir ← gets (is_dir p); if (dir : bool) then mret tt else fail e : io fs unit)) as Hun.
  { intros p e. apply always_bind; [apply _|apply always_gets, _|]. intros []; [apply always_ret, _|apply always_fail, _]. }
  induction rp as [|a rp IH]; intros HX; cbn [create_dir_all_rev];
    (apply always_bind; [apply _|by apply always_attempt, Hmk, HX, below_refl|intros [[]|e]; [apply always_ret, _| |apply Hun]]).
  - apply always_fail, _.
  - apply always_bind; [apply _|apply IH|intros _].
    + intros q Hq. apply HX. rewrite reverse_cons. eapply below_trans; [done|apply below_join].
    + apply always_bind; [apply _|by apply always_attempt, Hmk, HX, below_refl|intros [[]|e]; [apply always_ret, _|apply Hun..]].
Qed.

Lemma write_outside d n b : (forall q, below q d = true -> X q) -> X (join d n) -> (forall q, private_copy d n q -> X q) ->
  always (outside_same X) (write_atomic (join d n) b).
Proof.
  intros Hd Hn Hp. apply wp_always. intros s0. assert (forall q e s, X q -> outside_same X s0 s -> outside_same X s0 (<[q := e]> s)) as Hput.
  { intros q e s Hq Hs q' Hq'. rewrite lookup_insert_ne; [by apply Hs|by intros ->]. }
  apply wp_bind. eapply wp_mono; [apply always_wp, create_dirs_outside| |done|done].
  { by rewrite parent_join, reverse_involutive. }
  cbn beta. intros _ s Hs. rewrite file_name_join, parent_join. apply wp_bind, wp_of_res. simpl. apply wp_bind, wp_new_uuid. intros k _.
  set (temp := join d (n +:+ "." +:+ uuid_text k +:+ ".tmp")). assert (X temp) as Ht by (apply Hp; by exists (uuid_text k)).
  apply wp_bind, wp_sys; [intros _|by intros..]. destruct (is_dir _ s && _); [|done]. set (s1 := <[temp := File []]> s).
  assert (outside_same X s0 s1) as Hs1 by (by apply Hput).
  apply wp_bind, wp_sys; cbn beta; [intros _|intros _ r; destruct (is_file temp s1); [by apply Hput|done]..].
  assert (is_file temp s1 = true) as -> by (unfold is_file, s1; by rewrite lookup_insert_eq).
  apply wp_sys; [intros linked|by intros; apply Hput..]. rewrite lookup_insert_eq. destruct (is_dir _ _ && _); [|by apply Hput].
  destruct (linked && _); [by apply Hput|]. apply Hput; [done|]. intros q Hq. rewrite lookup_delete_ne by (by intros <-). by apply Hput.
Qed.
End Footprint.

(** ** Deliveries *)

Section Delivery.
Context `{EnvLaws} `{CaptureEnv} `{!SmsEnv} `{!SmsEnvLaws}.
Implicit Types (m : SmsMessage) (s : fs).

Definition messages_dir : path := join sms_root "messages".
Definition stored_at (message_id : string) : path := join messages_dir (message_id +:+ ".json").

(** The store has its directories and [m] under the identifier. *)
Record keeps (message_id : string) m s : Prop := mkKeeps {
  kp_id : validate_id message_id = Ok tt;
  kp_dir : mounted messages_dir s;
  kp_file : s !! stored_at message_id = Some (File (encode_sms m)) }.

(** What a message may become: itself, or decided once. *)
Definition decided_once m m' : Prop :=
  m' = m \/ sms_delivery_state m = Accepted /\ exists state t, state <> Accepted /\ m' = with_delivery state t m.

Lemma message_path_ok message_id : validate_id message_id = Ok tt -> message_path message_id = Ok (stored_at message_id).
Proof. intros Hv. unfold message_path. by rewrite Hv. Qed.

Lemma wp_read_text {md : mode} p m Q E C s :
  s !! p = Some (File (encode_sms m)) -> Q m s -> (m_faults md = true -> (forall e, E e s) /\ C s) ->
  wp md (read_message_path p) Q E C s.
Proof.
  intros Hp HQ HF. apply wp_bind, wp_sys; [intros _|by intros Hf ?; apply HF..]. rewrite Hp.
  apply wp_of_res. by rewrite decode_encode_sms.
Qed.

(** The four ways of a transition. *)
Definition transition_result (message_id : string) (state : SmsDeliveryState) m s (out : outcome SmsMessage) (s' : fs) : Prop :=
  match sms_delivery_state m with
  | Accepted =>
      if decide (state = Accepted) then s' = s /\ is_done out = false
      else match out with
           | Done r => exists t, r = with_delivery state t m /\
               replaced messages_dir (message_id +:+ ".json") (Some (File (encode_sms r))) s s'
           | _ => replaced messages_dir (message_id +:+ ".json") (Some (File (encode_sms m))) s s'
           end
  | current => s' = s /\ match out with Done r => current = state /\ r = m | _ => True end
  end.

Lemma transition_any message_id state m s : keeps message_id m s ->
  wp any_schedule (file_transition_delivery message_id state) (fun r s' => transition_result message_id state m s (Done r) s')
    (fun e s' => transition_result message_id state m s (Failed e) s') (transition_result message_id state m s Crashed) s.
Proof.
  intros [Hv Hd Hf]. unfold file_transition_delivery, transition_result.
  assert (forall o : outcome SmsMessage, is_done o = false ->
    match sms_delivery_state m with
    | Accepted => if decide (state = Accepted) then s = s /\ is_done o = false
        else match o with
             | Done r => exists t, r = with_delivery state t m /\ replaced messages_dir (message_id +:+ ".json") (Some (File (encode_sms r))) s s
             | _ => replaced messages_dir (message_id +:+ ".json") (Some (File (encode_sms m))) s s
             end
    | current => s = s /\ match o with Done r => current = state /\ r = m | _ => True end
    end) as Hstop.
  { intros o Ho. destruct o; [done|..]; (destruct (sms_delivery_state m); [|done..]; case_decide; [done|]; by split). }
  destruct (eqb state Accepted) eqn:Hs; [apply wp_fail; by apply (Hstop (Failed _))|]. apply eqb_false in Hs.
  apply wp_bind, wp_of_res. rewrite message_path_ok by done.
  apply wp_bind. eapply wp_read_text; [exact Hf| |intros _; split; [intros e; by apply (Hstop (Failed e))|by apply (Hstop Crashed)]].
  destruct (sms_delivery_state m) eqn:Hm.
  - destruct (decide (state = Accepted)); [done|]. apply wp_bind, wp_now. intros t. apply wp_bind.
    eapply wp_mono; [by apply write_atomic_any|..]; cbn beta.
    + intros _ s' Hr. apply wp_ret. by exists t.
    + intros e s'. unfold stored_at in Hf. by rewrite Hf.
    + intros s'. unfold stored_at in Hf. by rewrite Hf.
  - destruct (eqb Delivered state) eqn:Heq; [apply wp_ret|by apply wp_fail]. apply (proj1 (eqb_true _ _)) in Heq. done.
  - destruct (eqb DeliveryFailed state) eqn:Heq; [apply wp_ret|by apply wp_fail]. apply (proj1 (eqb_true _ _)) in Heq. done.
Qed.

Lemma replaced_mounted d n e s s' : ~ private_copy d n (parent d) -> ~ private_copy d n d -> parent d <> join d n ->
  mounted d s -> replaced d n e s s' -> mounted d s'.
Proof.
  intros H1' H2' H3' (Hne & Hd & Hp) [_ Hq]. split_and!; [done|..].
  - unfold is_dir. rewrite Hq; [done| |done]. intros Heq. by apply (join_ne_self d n).
  - unfold path_exists. by rewrite Hq.
Qed.

Lemma replaced_messages n e s s' : mounted messages_dir s -> replaced messages_dir n e s s' -> mounted messages_dir s'.
Proof. apply replaced_mounted; [intros [u Hu]; discriminate Hu..|done]. Qed.

(** One request to change the delivery state, with any faults. *)
Definition delivery_step (message_id : string) (s s' : fs) : Prop :=
  exists state σ, s' = (file_transition_delivery message_id state σ s).1.2.

Lemma step_result message_id m s s' : keeps message_id m s -> delivery_step message_id s s' ->
  (sms_delivery_state m <> Accepted -> s' = s) /\ exists m', keeps message_id m' s' /\ decided_once m m' /\
  forall q, q <> stored_at message_id -> ~ private_copy messages_dir (message_id +:+ ".json") q -> s' !! q = s !! q.
Proof.
  intros Hk (state & σ & ->). pose proof (transition_any message_id state m s Hk σ (any_schedule_ok σ)) as Hr.
  destruct (file_transition_delivery message_id state σ s) as [[o s'] σ']. destruct Hr as [_ Hr]. simpl.
  assert (transition_result message_id state m s o s') as Ht by (by destruct o). clear Hr. destruct Hk as [Hv Hd Hf].
  assert (s' = s -> exists m', keeps message_id m' s' /\ decided_once m m' /\
    forall q, q <> stored_at message_id -> ~ private_copy messages_dir (message_id +:+ ".json") q -> s' !! q = s !! q) as Hsame.
  { intros ->. exists m. split_and!; [done|by left|done]. }
  unfold transition_result in Ht. destruct (sms_delivery_state m) eqn:Hm.
  2,3: destruct Ht as [-> _]; split; [done|by apply Hsame].
  split; [done|]. case_decide; [destruct Ht as [-> _]; by apply Hsame|].
  assert (forall m', decided_once m m' -> replaced messages_dir (message_id +:+ ".json") (Some (File (encode_sms m'))) s s' ->
    exists m', keeps message_id m' s' /\ decided_once m m' /\
      forall q, q <> stored_at message_id -> ~ private_copy messages_dir (message_id +:+ ".json") q -> s' !! q = s !! q) as Hnew.
  { intros m' Hm' Hr. exists m'. split_and!; [|done|apply Hr]. split; [done|by eapply replaced_messages|apply Hr]. }
  destruct o as [r|e|]; [|by apply (Hnew m); [left|]..]. destruct Ht as (t & -> & Hr). apply (Hnew (with_delivery state t m)); [|done].
  right. split; [done|]. by exists state, t.
Qed.

Lemma decided_once_trans m m' m'' : decided_once m m' -> decided_once m' m'' -> decided_once m m''.
Proof.
  intros [->|(Ha & st & t & Hst & ->)] Hd; [done|]. destruct Hd as [->|[Hacc _]]; [right; eauto|]. done.
Qed.

(** C16 [delivery_decided_once]. The delivery of a text message is decided
    once: along any sequence of transition_delivery requests, failing or
    killed anywhere, a decided message never changes again, an accepted one
    changes at most to one final state with everything else of it kept, and no
    other file is touched except private copies of a write. *)
Theorem delivery_decided_once message_id m s s' :
  keeps message_id m s -> rtc (delivery_step message_id) s s' ->
  (sms_delivery_state m <> Accepted -> s' = s) /\
  exists m', keeps message_id m' s' /\ decided_once m m' /\
    forall q, q <> stored_at message_id -> ~ private_copy messages_dir (message_id +:+ ".json") q -> s' !! q = s !! q.
Proof.
  intros Hk Hsteps. revert m Hk. induction Hsteps as [s|s s1 s' Hstep Hsteps IH]; intros m Hk.
  - split; [done|]. exists m. split_and!; [done|by left|done].
  - destruct (step_result message_id m s s1 Hk Hstep) as [Hsame (m1 & Hk1 & Hd1 & Hq1)].
    destruct (IH m1 Hk1) as [Hsame' (m' & Hk' & Hd' & Hq')]. split.
    + intros Hna. rewrite <- (Hsame Hna). apply Hsame'. destruct Hd1 as [->|[? _]]; [done|by destruct Hna].
    + exists m'. split_and!; [done|by eapply decided_once_trans|]. intros q Hq Hp. rewrite Hq', Hq1 by done. done.
Qed.
End Delivery.

(** ** Callbacks *)

Lemma always_uuid {S} (R : S -> S -> Prop) `{Env} `{!Reflexive R} : always R new_uuid.
Proof. intros σ s. apply (reflexivity s). Qed.

Section Callbacks.
Context `{EnvLaws} `{CaptureEnv} `{!SmsEnv} `{!SmsEnvLaws}.
Variable settings : SmsSettings.
Implicit Types s : fs.

Lemma payload_keeps message kind url : always (@eq fs) (callback_payload settings message kind url).
Proof.
  unfold callback_payload, aws_callback_payload, acs_callback_payload.
  destruct (sms_provider message); [apply always_ret, _|..]; try (destruct (acs_event message kind));
    (apply always_bind; [apply _|apply always_uuid, _|intros u; apply always_bind; [apply _|apply always_now, _|intros t; apply always_ret, _]]).
Qed.

Lemma attempt_keeps message kind url retry_of : always (@eq fs) (attempt_callback settings message kind url retry_of).
Proof.
  apply always_bind; [apply _|apply payload_keeps|]. intros [body headers].
  apply always_bind; [apply _|apply always_now, _|]. intros t.
  apply always_bind; [apply _|apply always_uuid, _|]. intros u.
  cbn zeta. case_match. case_match. case_match. apply always_ret, _.
Qed.

Lemma read_if_present_keeps msg p : always eq (read_if_present msg p).
Proof. apply always_sys; [apply _| |done]. intros _ s a s' E. destruct (s !! p) as [[]|]; by simplify_eq. Qed.

Lemma read_json_keeps {A} (decode : bytes -> option A) p : always eq (read_json decode p).
Proof.
  apply always_bind; [apply _|apply read_if_present_keeps|]. intros [b|]; [apply always_of_res, _|apply always_fail, _].
Qed.

Lemma get_message_keeps id : always eq (file_get_message id).
Proof.
  apply always_bind; [apply _|apply always_of_res, _|]. intros p. apply always_bind; [apply _|apply read_json_keeps|]. intros m.
  apply always_bind; [apply _|apply always_gets, _|]. intros []; [apply always_ret, _|apply always_fail, _].
Qed.

Lemma get_destination_keeps provider number : always eq (file_get_destination provider number).
Proof. apply always_bind; [apply _|apply always_of_res, _|]. intros p. apply read_json_keeps. Qed.

(** A request for a message whose delivery is decided. *)
Lemma wp_decided {md : mode} message_id m state s : keeps message_id m s -> sms_delivery_state m <> Accepted ->
  let apart := m_faults md = true \/ visible m s = false \/ sms_direction m <> Outbound \/ sms_delivery_state m <> state in
  wp md (simulate_delivery settings message_id state) (fun r s' => s' = s /\ r = m) (fun _ s' => s' = s /\ apart)
    (fun s' => s' = s /\ m_faults md = true) s.
Proof.
  intros [Hv Hd Hf] Hna apart.
  assert (m_faults md = true -> (forall _ : Error, s = s /\ apart) /\ s = s /\ m_faults md = true) as HF by (unfold apart; auto).
  unfold simulate_delivery. apply wp_bind. cbn [get_message file_sms_store]. unfold file_get_message.
  apply wp_bind, wp_of_res. rewrite message_path_ok by done.
  apply wp_bind. eapply wp_read_text; [exact Hf| |done]. apply wp_bind, wp_gets.
  destruct (visible m s) eqn:Hvis; [|apply wp_fail; unfold apart; auto]. apply wp_ret.
  destruct (eqb (sms_direction m) Outbound) eqn:Hdir; simpl; [|apply wp_fail; apply eqb_false in Hdir; unfold apart; auto].
  apply wp_bind. unfold file_transition_delivery.
  destruct (eqb state Accepted) eqn:Hs; [apply wp_fail; apply (proj1 (eqb_true _ _)) in Hs as ->; unfold apart; auto|].
  apply wp_bind, wp_of_res. rewrite message_path_ok by done. apply wp_bind. eapply wp_read_text; [exact Hf| |done].
  assert (eqb (sms_delivery_state m) Accepted = false) as Hacc by (by apply eqb_false).
  destruct (sms_delivery_state m) eqn:Hm; [done|..];
    (lazymatch goal with |- context[if eqb ?a state then _ else _] => destruct (eqb a state) eqn:Heq end;
     [apply wp_ret; by apply wp_ret|apply wp_fail; apply eqb_false in Heq; unfold apart; auto]).
Qed.

(** [delivery_reported_once]. A delivery is reported once: transition_delivery
    of the simulator on a message that is already decided sends no callback
    and writes nothing, and answers with the message when the request repeats
    the decided state. *)
Theorem delivery_reported_once message_id m state s σ :
  keeps message_id m s -> sms_delivery_state m <> Accepted ->
  (simulate_delivery settings message_id state σ s).1.2 = s /\
  (sched_ok calm σ -> visible m s = true -> sms_direction m = Outbound -> sms_delivery_state m = state ->
   (simulate_delivery settings message_id state σ s).1.1 = Done m).
Proof.
  intros Hk Hna. pose proof (@wp_decided any_schedule message_id m state s Hk Hna σ (any_schedule_ok σ)) as Hany.
  split.
  - destruct (simulate_delivery settings message_id state σ s) as [[[]] ?]; destruct Hany as [_ Hr]; apply Hr.
  - intros Hσ Hvis Hdir Hst. pose proof (@wp_decided calm message_id m state s Hk Hna σ Hσ) as Hcalm.
    destruct (simulate_delivery settings message_id state σ s) as [[[r|e|] s'] σ']; destruct Hcalm as [_ Hr]; simpl in *.
    + by destruct Hr as [_ ->].
    + destruct Hr as [_ [?|[?|[?|?]]]]; congruence.
    + by destruct Hr.
Qed.
(** ** Inbound messages *)

(** The files of callbacks, and the directory above theirs. *)
Definition callback_area (q : path) : Prop := q = [] \/ q = sms_root \/ exists rest, q = sms_root ++ "callbacks" :: rest.

Lemma record_outside a : always (outside_same callback_area) (file_record_callback a).
Proof.
  unfold file_record_callback, callback_path. destruct (validate_id (ca_attempt_id a)) as [[]|]; [|apply always_fail, _].
  cut (forall p, p = join (join sms_root "callbacks") (ca_attempt_id a +:+ ".json") ->
    always (outside_same callback_area) (present ← gets (path_exists p);
      if (present : bool) then fail (InvalidRequest "callback attempt already exists") else write_atomic p (encode_attempt a))).
  { intros Hk σ s. by apply Hk. }
  intros p ->. apply always_bind; [apply _|apply always_gets, _|]. intros []; [apply always_fail, _|].
  apply write_outside; [|right; right; by eexists|intros q [u ->]; right; right; by eexists].
  intros q [k Hk]%below_spec. destruct q as [|a0 [|b0 q]]; [by left|right; left; by injection Hk as <-|].
  right. right. injection Hk as <- <- _. by exists q.
Qed.

(** What follows the recording of an inbound message. *)
Definition notify (stored : SmsMessage) : io fs SmsMessage :=
  destination ← FsModel.attempt (get_destination (sms_provider stored) (sms_to stored));
  match destination with
  | Ok d => a ← attempt_callback settings stored CallbackInbound (td_callback_url d) None; record_callback a;; mret stored
  | Err _ => mret stored
  end.

Lemma notify_any (stored : SmsMessage) s :
  wp any_schedule (notify stored)
    (fun r s' => r = stored /\ outside_same callback_area s s') (fun _ => outside_same callback_area s)
    (outside_same callback_area s) s.
Proof.
  apply wp_bind. eapply wp_mono; [apply always_wp, always_attempt, get_destination_keeps|cbn beta; intros d s' <-|by intros ? ? <-|by intros ? <-].
  destruct d as [d|]; [|by apply wp_ret].
  apply wp_bind. eapply wp_mono; [apply always_wp, attempt_keeps|cbn beta; intros a s' <-|by intros ? ? <-|by intros ? <-].
  apply wp_bind. eapply wp_mono; [apply always_wp, record_outside|cbn beta; intros _ s' Hs'|done|done]. by apply wp_ret.
Qed.

(** C25 [inbound_never_lost]. A failing callback never loses an inbound
    message: inject_inbound either refuses the message before anything is
    written, or leaves on disk exactly what storing the message leaves outside
    the callback records, fails as the store fails, and when it answers Ok
    answers with the stored message. *)
Theorem inbound_never_lost message σ s :
  let stored := store_message message σ s in
  let answer := inject_inbound settings message σ s in
  (answer.1.2 = s /\ (exists why, answer.1.1 = Failed (InvalidRequest why))) \/
  (outside_same callback_area stored.1.2 answer.1.2 /\
   (is_done stored.1.1 = false -> answer.1 = stored.1) /\
   (is_done answer.1.1 = true -> answer.1.1 = stored.1.1)).
Proof.
  intros stored answer. unfold answer, inject_inbound.
  destruct (negb (eqb (ns_direction message) Inbound)); [left; eauto|].
  destruct (negb (valid_sender (ns_from message)) || negb (is_e164 (ns_to message))); [left; eauto|].
  destruct (negb _ && _); [left; eauto|]. right.
  change (_ ≫= _) with (store_message message ≫= notify). set (r := (store_message message ≫= notify) σ s).
  assert (r = let '(o, s1, σ1) := stored in match o with Done m => notify m σ1 s1 | Failed e => (Failed e, s1, σ1) | Crashed => (Crashed, s1, σ1) end) as ->
    by reflexivity.
  destruct stored as [[[m|e|] s1] σ1]; [|by split_and!..]. pose proof (notify_any m s1 σ1 (any_schedule_ok σ1)) as Hn.
  destruct (notify m σ1 s1) as [[o s2] σ2]. destruct Hn as [_ Hn]. simpl in Hn |- *.
  split_and!; [destruct o; apply Hn|done|]. destruct o; [|done..]. by destruct Hn as [-> _].
Qed.
End Callbacks.

(** ** The request of a callback *)

Lemma strip_cr_line l : Utf8.strip_cr (l +:+ String Utf8.CR "") = l.
Proof.
  unfold Utf8.strip_cr, Utf8.strip_suffix. rewrite rev_app_distr.
  change (Text.strip_prefix _ _) with (Some (String.rev l)). simpl. apply rev_involutive.
Qed.

Lemma lines_line l rest : lacks Utf8.LF l = true -> Utf8.lines (l +:+ CRLF +:+ rest) = l :: Utf8.lines rest.
Proof.
  intros Hl. unfold Utf8.lines.
  replace (l +:+ CRLF +:+ rest) with ((l +:+ String Utf8.CR "") +:+ String Utf8.LF rest) by (by rewrite Text.app_assoc).
  rewrite split_app_lacks by (rewrite lacks_app, Hl; done).
  destruct (Text.split Utf8.LF rest) as [|w ws] eqn:E; [by apply Text.split_nonempty in E|].
  cbn [removelast map list.last]. by rewrite strip_cr_line.
Qed.

Lemma unbroken_app s t : has_line_break (s +:+ t) = has_line_break s || has_line_break t.
Proof. induction s as [|a s IH]; [done|]. unfold has_line_break in *. rewrite Text.app_cons. simpl. by rewrite IH, orb_assoc. Qed.

Lemma unbroken_lacks s : has_line_break s = false -> lacks Utf8.LF s = true.
Proof.
  induction s as [|a s IH]; [done|]. unfold has_line_break. simpl. intros [[Hc Hl]%orb_false_iff Hs]%orb_false_iff.
  unfold lacks. simpl. rewrite Hl. by apply IH.
Qed.

Lemma pretty_unbroken (n : N) : has_line_break (pretty n) = false.
Proof.
  assert (forall s, all_of visible_ascii s = true -> has_line_break s = false) as Hv; [|apply Hv, pretty_visible].
  induction s as [|a s IH]; [done|]. intros [Ha Hs]%andb_true_iff. unfold has_line_break in *. simpl. rewrite (IH Hs), orb_false_r.
  apply orb_false_iff. split; apply eqb_false; intros ->; vm_compute in Ha; done.
Qed.

Section Requests.
Context `{EnvLaws} `{CaptureEnv} `{!SmsEnv} `{!SmsEnvLaws}.

Definition header_line (h : string * string) : string := h.1 +:+ ": " +:+ h.2.
(** The headers a request carries, one line each. *)
Definition carried (headers : strmap) : list string :=
  header_line <$> filter (fun h => skipped_header h.1 h.2 = false) (header_order headers).

Lemma join_plain a l : Text.join_text "" (a :: l) = a +:+ Text.join_text "" l.
Proof. destruct l; [by rewrite Text.app_empty_r|done]. Qed.

Lemma skipped_unbroken h : skipped_header h.1 h.2 = false -> has_line_break (header_line h) = false.
Proof.
  unfold skipped_header. rewrite !orb_false_iff. intros [[_ Hn] Hv]. unfold header_line. by rewrite !unbroken_app, Hn, Hv.
Qed.

Lemma carried_unbroken headers : Forall (fun l => has_line_break l = false) (carried headers).
Proof.
  unfold carried. rewrite Forall_fmap. apply list.Forall_forall. intros h Hh. apply list_elem_of_filter in Hh as [Hs _].
  by apply skipped_unbroken.
Qed.

Lemma header_lines (l : list (string * string)) rest :
  Utf8.lines (Text.join_text "" ((fun h => if skipped_header h.1 h.2 then "" else h.1 +:+ ": " +:+ h.2 +:+ CRLF) <$> l) +:+ rest) =
  (header_line <$> filter (fun h => skipped_header h.1 h.2 = false) l) ++ Utf8.lines rest.
Proof.
  induction l as [|h l IH]; [done|]. rewrite fmap_cons, join_plain, Text.app_assoc, filter_cons.
  destruct (skipped_header h.1 h.2) eqn:Hs; [by rewrite decide_False|]. rewrite decide_True by done.
  rewrite fmap_cons, <- app_comm_cons, <- IH. replace (h.1 +:+ ": " +:+ h.2 +:+ CRLF) with (header_line h +:+ CRLF)
    by (unfold header_line; by rewrite !Text.app_assoc).
  rewrite Text.app_assoc. apply lines_line, unbroken_lacks, skipped_unbroken. by rewrite Hs.
Qed.

(** C26 [callback_request_lines]. No header of a callback can break its
    request: the text send_http_callback writes for a path and host without
    line breaks is exactly the request line, Host, Connection, the carried
    headers and Content-Length, one line each, and headers with a line break
    are left out. *)
Theorem callback_request_lines path authority headers body :
  has_line_break path = false -> has_line_break authority = false ->
  let request := ["POST " +:+ path +:+ " HTTP/1.1"; "Host: " +:+ authority; "Connection: close"] ++ carried headers ++
                 ["Content-Length: " +:+ pretty (Text.len body); ""] in
  Utf8.lines (request_text path authority headers body) = request /\
  Forall (fun l => has_line_break l = false) request.
Proof.
  intros Hp Ha request. pose proof (carried_unbroken headers) as Hc. pose proof (pretty_unbroken (Text.len body)) as Hn.
  split.
  - unfold request, carried. replace (request_text path authority headers body) with
      (("POST " +:+ path +:+ " HTTP/1.1") +:+ CRLF +:+ ("Host: " +:+ authority) +:+ CRLF +:+ "Connection: close" +:+ CRLF +:+
       Text.join_text "" ((fun h => if skipped_header h.1 h.2 then "" else h.1 +:+ ": " +:+ h.2 +:+ CRLF) <$> header_order headers) +:+
       ("Content-Length: " +:+ pretty (Text.len body)) +:+ CRLF +:+ "" +:+ CRLF +:+ "")
      by (unfold request_text; rewrite !Text.app_assoc; done).
    rewrite !lines_line, header_lines, !lines_line by (apply unbroken_lacks; rewrite ?unbroken_app, ?Hp, ?Ha, ?Hn; done). done.
  - unfold request. rewrite !list.Forall_app. split; [|split; [done|]]; repeat constructor;
      by rewrite ?unbroken_app, ?Hp, ?Ha, ?Hn.
Qed.
End Requests.

(** ** The theorems at a concrete store *)

Module Texts.
#[local] Instance json_value_eq_dec : EqDecision json_value := String.string_dec.
#[local] Instance json_value_countable : Countable json_value := String.countable.

#[export] Instance provider_countable : Countable SmsProvider.
Proof.
  refine (inj_countable' (fun p => match p with Twilio => 0 | Sns => 1 | AwsSmsVoiceV2 => 2 | AcsSms => 3 end)
    (fun n => match n with 0 => Twilio | 1 => Sns | 2 => AwsSmsVoiceV2 | _ => AcsSms end) _). by intros [].
Defined.
#[export] Instance direction_countable : Countable SmsDirection.
Proof.
  refine (inj_countable' (fun d => match d with Inbound => true | Outbound => false end)
    (fun b : bool => if b then Inbound else Outbound) _). by intros [].
Defined.
#[export] Instance channel_eq_dec : EqDecision SmsChannel.
Proof. solve_decision. Defined.
#[export] Instance channel_countable : Countable SmsChannel.
Proof.
  refine (inj_countable' (fun d => match d with SmsText => true | Mms => false end) (fun b : bool => if b then SmsText else Mms) _).
  by intros [].
Defined.
#[export] Instance delivery_countable : Countable SmsDeliveryState.
Proof.
  refine (inj_countable' (fun p => match p with Accepted => 0 | Delivered => 1 | DeliveryFailed => 2 end)
    (fun n => match n with 0 => Accepted | 1 => Delivered | _ => DeliveryFailed end) _). by intros [].
Defined.
#[export] Instance kind_eq_dec : EqDecision CallbackKind.
Proof. solve_decision. Defined.
#[export] Instance kind_countable : Countable CallbackKind.
Proof.
  refine (inj_countable' (fun d => match d with CallbackInbound => true | CallbackDelivery => false end)
    (fun b : bool => if b then CallbackInbound else CallbackDelivery) _). by intros [].
Defined.
#[export] Instance state_eq_dec : EqDecision CallbackAttemptState.
Proof. solve_decision. Defined.
#[export] Instance state_countable : Countable CallbackAttemptState.
Proof.
  refine (inj_countable' (fun d => match d with AttemptSucceeded => true | AttemptFailed => false end)
    (fun b : bool => if b then AttemptSucceeded else AttemptFailed) _). by intros [].
Defined.
#[export] Instance media_eq_dec : EqDecision SmsMedia.
Proof. solve_decision. Defined.
#[export] Instance media_countable : Countable SmsMedia.
Proof.
  refine (inj_countable' (fun m => (md_media_id m, md_filename m, md_content_type m, md_size m, md_external_url m))
    (fun '(i, f, t, s, u) => mkMedia i f t s u) _). by intros [].
Defined.
#[export] Instance sms_eq_dec : EqDecision SmsMessage.
Proof. solve_decision. Defined.
#[export] Instance sms_countable : Countable SmsMessage.
Proof.
  refine (inj_countable'
    (fun m => ((sms_message_id m, sms_batch_id m, sms_provider m, sms_provider_message_id m, sms_direction m, sms_channel m, sms_from m),
       (sms_to m, sms_body m, sms_media m, sms_metadata m : gmap string string, sms_peer m, sms_delivery_state m,
        sms_created_at m : Z, sms_updated_at m : Z)))
    (fun '((i, b, p, pi, d, c, f), (t, bo, me, mt, pe, st, cr, up)) => mkSms _ i b p pi d c f t bo me mt pe st cr up) _).
  by intros [].
Defined.
#[export] Instance destination_eq_dec : EqDecision TextDestination.
Proof. solve_decision. Defined.
#[export] Instance destination_countable : Countable TextDestination.
Proof.
  refine (inj_countable' (fun d => (td_provider d, td_local_number d, td_callback_url d, td_created_at d : Z, td_updated_at d : Z))
    (fun '(p, l, c, a, u) => mkDestination p l c a u) _). by intros [].
Defined.
#[export] Instance attempt_eq_dec : EqDecision CallbackAttempt.
Proof. solve_decision. Defined.
#[export] Instance attempt_countable : Countable CallbackAttempt.
Proof.
  refine (inj_countable'
    (fun a => ((ca_attempt_id a, ca_message_id a, ca_kind a, ca_provider a, ca_url a, ca_request_headers a, ca_request_body a),
       (ca_response_status a, ca_response_body a, ca_error a, ca_state a, ca_attempted_at a : Z, ca_retry_of a)))
    (fun '((i, m, k, p, u, h, b), (rs, rb, e, s, t, r)) => mkAttempt i m k p u h b rs rb e s t r) _).
  by intros [].
Defined.

(** A peer that accepts every callback. *)
#[export] Instance concrete_sms_env : SmsEnv := {|
  encode_sms := to_bytes; decode_sms := of_bytes;
  encode_destination := to_bytes; decode_destination := of_bytes;
  encode_attempt := to_bytes; decode_attempt := of_bytes;
  sms_chunks m := [as_bytes (ns_body m)]; media_chunks m := [as_bytes (nm_filename m)];
  uuid_simple n := pretty n; render_json _ := "{}"; rfc3339 t := pretty t; url_encode := id;
  hmac_sha1_base64 key text := key +:+ text;
  parse_uri _ := Ok (mkUri (Some "http") (Some "localhost") None (Some "localhost") (Some "/hook"));
  header_order := map_to_list;
  exchange _ _ _ _ := Ok (as_bytes ("HTTP/1.1 200 OK" +:+ CRLF +:+ CRLF +:+ "thanks")) |}.
#[export] Instance concrete_sms_laws : SmsEnvLaws.
Proof. split; intros; first [apply of_to_bytes|done]. Qed.

Definition settings : SmsSettings := mkSettings None None None None.
Definition outgoing : NewSmsMessage :=
  mkNewSms _ None Twilio None Outbound SmsText "+15550000001" "+15550000002" "hello" [] ∅.
Definition incoming : NewSmsMessage :=
  mkNewSms _ None Twilio None Inbound SmsText "+15550000002" "+15550000001" "hi" [] ∅.

Definition final {A} (p : io fs A) (n : nat) (s : fs) : fs := (p (quiet n) s).1.2.
Definition disk : fs :=
  final (put_destination Twilio "+15550000001" "http://localhost/hook") 50 (final open_sms 0 (<[[] := Directory]> ∅)).
Definition sent_disk : fs := final (store_message outgoing) 100 disk.
Definition sent_id : string := "txt-00000000-0000-4000-8000-000000000065".
Definition sent : SmsMessage := default (mkSms _ "" None Sns "" Inbound Mms "" "" "" [] ∅ "" Accepted 0%Z 0%Z)
  match (store_message outgoing (quiet 100) disk).1.1 with Done m => Some m | _ => None end.
Definition reported_disk : fs := final (simulate_delivery settings sent_id Delivered) 200 sent_disk.
Definition reported : SmsMessage := with_delivery Delivered 0%Z sent.

Lemma sent_kept : keeps sent_id sent sent_disk.
Proof.
  split; [vm_compute; reflexivity| |apply (proj1 (eqb_true _ _)); vm_compute; reflexivity].
  split_and!; [discriminate|vm_compute; reflexivity..].
Qed.
Lemma reported_kept : keeps sent_id reported reported_disk.
Proof.
  split; [vm_compute; reflexivity| |apply (proj1 (eqb_true _ _)); vm_compute; reflexivity].
  split_and!; [discriminate|vm_compute; reflexivity..].
Qed.

(** Delivered, then asked to fail: the second request changes nothing. *)
Definition delivered_disk : fs := final (file_transition_delivery sent_id Delivered) 200 sent_disk.
Definition refused_disk : fs := final (file_transition_delivery sent_id DeliveryFailed) 300 delivered_disk.

Lemma delivery_decided_once_witness :
  eqb (refused_disk !! stored_at sent_id) (Some (File (encode_sms reported))) = true /\
  exists m', keeps sent_id m' refused_disk /\ decided_once sent m'.
Proof.
  split; [vm_compute; reflexivity|].
  destruct (delivery_decided_once sent_id sent sent_disk refused_disk sent_kept) as [_ (m' & Hk & Hd & _)]; [|by exists m'].
  eapply rtc_l; [|apply rtc_once].
  - exists Delivered, (quiet 200). reflexivity.
  - exists DeliveryFailed, (quiet 300). reflexivity.
Defined.

Lemma delivery_reported_once_witness :
  (simulate_delivery settings sent_id Delivered (quiet 400) reported_disk).1 = (Done reported, reported_disk).
Proof.
  destruct (delivery_reported_once settings sent_id reported Delivered reported_disk (quiet 400) reported_kept) as [Hs Ho]; [discriminate|].
  rewrite (surjective_pairing (simulate_delivery settings sent_id Delivered (quiet 400) reported_disk).1), Hs.
  rewrite Ho; [reflexivity|split_and!; [constructor|done..]|vm_compute; reflexivity..].
Defined.

Lemma callback_request_lines_witness :
  Utf8.lines (request_text "/hook" "localhost" {["x-note" := "a" +:+ CRLF +:+ "b"; "x-kept" := "c"]} "body") =
  ["POST /hook HTTP/1.1"; "Host: localhost"; "Connection: close"; "x-kept: c"; "Content-Length: 4"; ""].
Proof.
  destruct (callback_request_lines "/hook" "localhost" {["x-note" := "a" +:+ CRLF +:+ "b"; "x-kept" := "c"]} "body") as [-> _];
    vm_compute; reflexivity.
Defined.

Lemma inbound_never_lost_witness :
  outside_same callback_area (store_message incoming (quiet 200) sent_disk).1.2 (inject_inbound settings incoming (quiet 200) sent_disk).1.2.
Proof.
  destruct (inbound_never_lost settings incoming (quiet 200) sent_disk) as [[_ [why Hw]]|[Hout _]]; [|exact Hout].
  vm_compute in Hw. discriminate Hw.
Defined.
End Texts.
