(* ===== verification/HandlerWitnesses.v ===== *)
(** * HandlerWitnesses: the handler theorems at concrete requests

    Association lists as header maps and small stand-ins for the digest, date
    and XML crates; a bucket is created, objects are put in it, and each theorem
    is applied to a request on that store. *)

From Stdlib Require Import Ascii Strings.Byte.
From stdpp Require Import pretty.
From S2P Require Import Prelude Text Models Utf8 Validation Policy SkipMap Index IndexFacts FsModel Publication.
From S2P Require Import FileFacts PublicationFacts ConcreteEnv PublicationSafety Lifecycle Storage StorageFacts.
From S2P Require Import ConditionFacts BucketFacts Versions Listing Multipart Scenario LifecycleExecutor.
From S2P Require Import Http Cors Checksums ObjectHelpers Routing XmlDocuments ObjectHandlers.
From S2P Require Import ObjectWrites MultipartRequests Signatures DeleteDocument PlainStore HandlerRules.
From S2P Require Import ObjectReadFacts ObjectWriteFacts XmlFacts.

(** * Executable stand-ins for the request libraries

    A percent decoder, a small XML tokenizer, one-byte digests in hexadecimal and
    dates as numbers: instances of the parameters of the request handlers, on
    which the theorems about requests are evaluated. *)

(** ** Percent decoding *)

Definition hex_value (a : ascii) : option N :=
  let n := N_of_ascii a in
  if ((48 <=? n) && (n <=? 57))%N then Some (n - 48)%N
  else if ((65 <=? n) && (n <=? 70))%N then Some (n - 55)%N
  else if ((97 <=? n) && (n <=? 102))%N then Some (n - 87)%N else None.

Fixpoint percent_decode (s : string) : string :=
  match s with
  | String "%" ((String a (String b rest)) as tail) =>
      match hex_value a, hex_value b with
      | Some h, Some l => String (ascii_of_N (h * 16 + l)) (percent_decode rest)
      | _, _ => String "%" (percent_decode tail)
      end
  | String a rest => String a (percent_decode rest)
  | EmptyString => EmptyString
  end.

Definition percent_helpers : HelperEnv := {|
  ObjectHelpers.url_decode v := Ok (percent_decode v);
  http_date t := pretty t;
  to_rfc3339 t := pretty t |}.

Definition percent_policy : PolicyEnv := {|
  Policy.url_decode v := Some (percent_decode v);
  to_lowercase := Text.to_ascii_lowercase |}.

(** ** Digests *)

Definition byte_sum (b : bytes) : N := foldl (fun n x => (n + Byte.to_N x) mod 256)%N 7%N b.
Definition hex_digit (n : N) : ascii := ascii_of_N (if (n <? 10)%N then 48 + n else 87 + n).
Definition hex_text (b : bytes) : string :=
  foldr (fun x s => String (hex_digit (Byte.to_N x / 16)) (String (hex_digit (Byte.to_N x mod 16)) s)) "" b.
Definition one_byte (n : N) : bytes := [default x00 (Byte.of_N (n mod 256))].

Definition short_digests : PayloadDigests := {|
  md5_digest b := one_byte (byte_sum b);
  sha1_digest b := one_byte (byte_sum b);
  sha256_digest b := one_byte (byte_sum b);
  crc32_hash b := byte_sum b;
  crc32c_hash b := byte_sum b;
  crc64_nvme_hash b := byte_sum b;
  be_bytes n _ := repeat x00 n;
  hex_decode s := Some (as_bytes s);
  hex_encode := hex_text;
  base64_encode := hex_text;
  base64_decode s := Some (as_bytes s) |}.

(** A date is the number of its second. *)
Definition numbered_dates : SigningEnv := {|
  hmac_sha256 key data := one_byte (3 * byte_sum key + byte_sum data);
  parse_amz_date s := (fun n => Z.of_N n * SECOND)%Z <$> Text.parse_u64 s;
  format_amz_date t := pretty (Z.to_N (t / SECOND));
  format_date_stamp t := pretty (Z.to_N (t / (86400 * SECOND))) |}.

(** ** XML *)

Definition text_event (s : string) : list RawEvent := if Text.is_empty s then [] else [RText s].

(** Text between tags: a reference is an event of its own. *)
Fixpoint text_events (fuel : nat) (s : string) : list RawEvent :=
  match fuel, Text.split_once "&" s with
  | Datatypes.S fuel, Some (l, r) =>
      text_event l ++ match Text.split_once ";" r with
                      | Some (name, rest) => RRef name :: text_events fuel rest
                      | None => [RError "unterminated entity"]
                      end
  | _, _ => text_event s
  end.

Definition tag_name (s : string) : string := match Text.split_once " " s with Some (n, _) => n | None => s end.

Definition tag_event (s : string) : RawEvent :=
  if Text.starts_with s "/" then REnd (Text.slice_from 1 s)
  else if Text.starts_with s "?" || Text.starts_with s "!--" then ROther
  else if Text.starts_with s "!" then RDocType
  else if Text.ends_with s "/" then REmpty
  else RStart (tag_name s) (match Text.split_once " " s with
                            | Some (_, attributes) => [fst <$> Text.split_once "=" attributes]
                            | None => []
                            end).

Fixpoint tokens (fuel : nat) (s : string) : list RawEvent :=
  match fuel, Text.split_once "<" s with
  | Datatypes.S fuel, Some (text, r) =>
      text_events (String.length text) text ++
      match Text.split_once ">" r with
      | Some (tag, rest) => tag_event tag :: tokens fuel rest
      | None => [RError "unterminated tag"]
      end
  | _, _ => text_events (String.length s) s
  end.

Definition small_raw_xml : RawXml := {| raw_events s := tokens (String.length s) s |}.

(** With the texts trimmed. *)
Definition trimmed_event (e : RawEvent) : option XmlEvent :=
  match e with
  | RStart n _ => Some (XStart n)
  | REnd n => Some (XEnd n)
  | REmpty => Some (XEmpty "")
  | RText t => let t := Text.trim t in if Text.is_empty t then None else Some (XText t)
  | RCData t => Some (XCData t)
  | RRef n => Some (XRef n)
  | RDocType => Some XOther
  | ROther => Some XComment
  | RError m => Some (XError m)
  end.

Definition small_xml : QuickXml := {|
  xml_events s := omap trimmed_event (tokens (String.length s) s);
  Cors.unescape v := Ok v |}.

(** ** Instances *)

Definition assoc_get (n : string) (l : list (string * string)) : option string :=
  snd <$> head (filter (fun e => e.1 = n) l).

#[local] Instance list_headers : HttpLib := {|
  header_map := list (string * string);
  hm_empty := [];
  hm_get := assoc_get;
  hm_insert n v l := (n, v) :: filter (fun e => e.1 <> n) l;
  hm_entries l := l;
  header_name n := if Text.is_empty n || negb (all_of letter_or_hyphen n) then None else Some (Text.to_ascii_lowercase n);
  header_value v := all_of visible_ascii v;
  to_str v := all_of visible_ascii v |}.

#[local] Instance list_headers_laws : HttpLaws.
Proof.
  split; simpl.
  - done.
  - intros n v m. unfold assoc_get. by rewrite filter_cons_True.
  - intros n n' v m Hne. unfold assoc_get. rewrite filter_cons_False by done. f_equal. f_equal.
    apply list_filter_filter_l. by intros [a b] ->.
  - intros n n'. by destruct (Text.is_empty n || _); [|intros [= <-]].
  - intros n Hne Hn. rewrite Hn. destruct n; [done|]. done.
  - done.
Qed.

#[local] Instance plain_helpers : HelperEnv := {|
  url_decode v := Ok v;
  http_date t := pretty t;
  to_rfc3339 t := pretty t |}.

#[local] Instance plain_dates : Chrono := {|
  parse_date _ := None;
  parse_rfc3339 s := Z.of_N <$> Text.parse_u64 s;
  parse_rfc2822 s := Z.of_N <$> Text.parse_u64 s |}.

(** A digest is the length and the payload itself, as text. *)
#[local] Instance plain_digests : PayloadDigests := {|
  md5_digest b := b;
  sha1_digest b := b;
  sha256_digest b := b;
  crc32_hash b := N.of_nat (length b);
  crc32c_hash b := N.of_nat (length b);
  crc64_nvme_hash b := N.of_nat (length b);
  be_bytes n _ := repeat x00 n;
  hex_decode s := Some (as_bytes s);
  hex_encode b := text_of_bytes b;
  base64_encode b := text_of_bytes b;
  base64_decode s := Some (as_bytes s) |}.

#[local] Instance no_xml : QuickXml := {|
  xml_events _ := [];
  Cors.unescape v := Ok v |}.

#[local] Instance listed : HashOrder := {|
  hash_order _ l := l;
  hash_order_perm _ _ := Permutation_refl _ |}.

(** ** The store *)

Definition photos : string := "photos".
Definition cat : string := "cat.txt".
Definition shop : Store := run (create_bucket photos) 0 Scenario.blank.

Lemma shop_empty k : stored photos ∅ k None shop.
Proof.
  destruct (run_calm (create_bucket photos) (fun _ w' => exists t, created photos t (w_fs w')) 0 Scenario.blank) as [_ [t Hc]];
    [|by eapply created_stored].
  apply wp_create_bucket; [done|apply blank_ok|done|by eauto].
Qed.

Definition stock (o : Object) : Store := run (put_object photos cat o) 100 shop.

Lemma stock_stored o : o_size o = size_of (o_data o) -> stored photos ∅ cat (put_pair o) (stock o).
Proof.
  intros Hsz. destruct (run_calm (put_object photos cat o) (fun _ w' => stored photos ∅ cat (put_pair o) w') 100 shop)
    as [_ Hs]; [|exact Hs].
  eapply wp_mono; [exact (fs_put photos ∅ cat None o Hsz _ shop (shop_empty cat))|by intros ? ? [_ ?]|by intros ? ? [? _]|done].
Qed.

Definition text : Object := text_object cat "the cat sat".
Definition marked (k v : string) : Object := with_provider_metadata {[k := v]} text.
Definition held_text : Object := marked S3_OBJECT_LOCK_LEGAL_HOLD_KEY "ON".
Definition sealed_text : Object := marked S3_SSE_C_ALGORITHM_KEY "AES256".

Definition request (method : string) (headers : list (string * string)) (body : string) : Request :=
  mkRequest method "/photos/cat.txt" None headers (as_bytes body) ∅ None.
Definition plain_get : Request := request "GET" [] "".

Lemma text_readable : readable (put_pair text).
Proof. split_and!; vm_compute; reflexivity. Qed.
Lemma sealed_readable : readable (put_pair sealed_text).
Proof. split_and!; vm_compute; reflexivity. Qed.

(** ** Reads *)

Lemma get_object_exact_witness :
  exists r s' σ', object_full_response photos cat plain_get "id" (quiet 300) (stock text) = (Done r, s', σ') /\
    stored photos ∅ cat (put_pair text) s' /\ read_answer plain_get None (put_pair text) r.
Proof.
  apply (get_object_exact photos ∅ cat (put_pair text) plain_get "id" (stock text) (quiet 300));
    [by apply stock_stored|apply text_readable|apply quiet_calm].
Defined.

Lemma range_request_exact_witness :
  exists r s' σ', object_range_response photos cat plain_get "id" "bytes=4-6" (quiet 300) (stock text) = (Done r, s', σ') /\
    stored photos ∅ cat (put_pair text) s' /\ read_answer plain_get (Some (4%N, Some 6%N)) (put_pair text) r.
Proof.
  destruct (range_request_exact photos ∅ cat (put_pair text) plain_get "id" "bytes=4-6" (stock text) (quiet 300))
    as (r & s' & σ' & Hrun & Hs & _ & Hr); [by apply stock_stored|apply text_readable|apply quiet_calm|].
  exists r, s', σ'. split_and!; [exact Hrun|exact Hs|apply Hr; vm_compute; reflexivity].
Defined.

Lemma head_object_exact_witness :
  exists r s' σ', head_response photos cat plain_get "id" (quiet 300) (stock text) = (Done r, s', σ') /\
    stored photos ∅ cat (put_pair text) s' /\
    rs_status r = 200%N /\ rs_body r = [] /\
    hm_get "content-length" (rs_headers r) = Some (pretty (size_of (o_data text))) /\
    hm_get "etag" (rs_headers r) = Some (quoted_etag (o_etag text)).
Proof.
  apply (head_object_exact photos ∅ cat (put_pair text) plain_get "id" (stock text) (quiet 300));
    [by apply stock_stored|apply text_readable|reflexivity|apply quiet_calm].
Defined.

Definition conditional_get (headers : list (string * string)) : Request := request "GET" headers "".

Lemma preconditions_follow_rfc9110_witness :
  object_verdict (conditional_get [("if-none-match", "*")]) text = rfc9110_verdict (conditional_get [("if-none-match", "*")]) text.
Proof. apply preconditions_follow_rfc9110; [left; reflexivity|right; reflexivity]. Defined.

Definition revalidation : Request := conditional_get [("if-none-match", "other"); ("if-modified-since", "5")].

Lemma changed_entity_not_modified_witness :
  object_verdict revalidation text = NotModified /\ rfc9110_verdict revalidation text = Proceed.
Proof. apply (changed_entity_not_modified revalidation text "other" "5" 5%Z); (reflexivity || (vm_compute; congruence)). Defined.

Lemma range_parsers_agree_witness : parse_range "bytes=2-9" = Some (2%N, Some 9%N).
Proof. apply range_parsers_agree. vm_compute. reflexivity. Defined.

(** ** Writes *)

Definition checked_put : Request := request "PUT" [("x-amz-checksum-sha1", "payload")] "payload".

Lemma accepted_checksums_match_witness :
  base64_decode "payload" = Some (digest checked_put "SHA1") /\ (length (supplied checked_put) <= 1)%nat.
Proof.
  destruct (accepted_checksums_match checked_put) as (Hmatch & Hlen & _); [vm_compute; reflexivity|].
  split; [|exact Hlen]. apply (Hmatch "SHA1" "sha1"); [|reflexivity]. unfold ALGORITHMS. set_solver.
Defined.

Definition new_put : Request := request "PUT" [] "a newer body".

Lemma new_put_plain : plain_put_request photos cat new_put.
Proof. split; [vm_compute; reflexivity..| |reflexivity]. by intros o. Qed.

Lemma legal_hold_survives_requests_witness :
  exists r s' σ', put_content 10 photos cat new_put "id" (quiet 300) (stock held_text) = (Done (Ok r), s', σ') /\
    refusing r /\ stored photos ∅ cat (put_pair held_text) s'.
Proof.
  apply (legal_hold_survives_requests 10 photos ∅ cat (with_version_id None held_text) (o_data held_text) new_put "id"
    (stock held_text) (quiet 300)); [by apply stock_stored|reflexivity|reflexivity|apply quiet_calm|set_solver].
Defined.

Definition create_only : Request := request "PUT" [("if-none-match", "*")] "a newer body".

Lemma conditional_put_exact_witness :
  exists r s' σ' y, store_put_object photos cat create_only "id" text (quiet 300) (stock text) = (Done r, s', σ') /\
    stored photos ∅ cat y s' /\ rs_status r = 412%N /\ y = put_pair text.
Proof.
  apply (conditional_put_exact photos ∅ cat (put_pair text) create_only "id" text (stock text) (quiet 300));
    [by apply stock_stored|reflexivity|reflexivity|reflexivity|apply quiet_calm].
Defined.

Lemma put_request_read_back_witness :
  exists put got s' σ' o, put_and_get photos cat new_put "id" (current (put_pair text)) plain_get "id2" (quiet 300) (stock text)
      = (Done (put, got), s', σ') /\
    rs_status put = 200%N /\ put_object_of cat new_put (put_pair text) o /\ stored photos ∅ cat (put_pair o) s' /\
    carries 200 o (rq_body new_put) None got.
Proof.
  apply (put_request_read_back photos ∅ cat (put_pair text) new_put "id" plain_get "id2" (stock text) (quiet 300));
    [by apply stock_stored|apply text_readable|reflexivity|apply new_put_plain|reflexivity|reflexivity|vm_compute; congruence
    |vm_compute; reflexivity|by repeat constructor|apply quiet_calm].
Defined.

Lemma plain_put_keeps_customer_key_witness :
  exists put got s' σ', put_and_get photos cat new_put "id" (Some (strip_data (with_version_id None sealed_text))) plain_get "id2"
      (quiet 300) (stock sealed_text) = (Done (put, got), s', σ') /\
    rs_status put = 200%N /\ rs_status got = 400%N.
Proof.
  apply (plain_put_keeps_customer_key photos ∅ cat (with_version_id None sealed_text) (o_data sealed_text) new_put "id"
    plain_get "id2" (stock sealed_text) (quiet 300));
    [by apply stock_stored|apply sealed_readable|apply new_put_plain|reflexivity|vm_compute; reflexivity
    |vm_compute; reflexivity|apply quiet_calm|vm_compute; reflexivity|vm_compute; reflexivity|vm_compute; reflexivity].
Defined.

(** ** Routing *)

Lemma virtual_host_equals_path_style_witness :
  route_from_parts "PUT" ("/" +:+ "a/b") (Some ("photos" +:+ ".s3.amazonaws.com")) =
  route_from_parts "PUT" ("/" +:+ "photos" +:+ "/" +:+ "a/b") None.
Proof.
  apply (virtual_host_equals_path_style "PUT" "photos" "a/b" ".s3.amazonaws.com"); [vm_compute; reflexivity|].
  right. split; vm_compute; reflexivity.
Defined.

Lemma tagging_document_read_witness :
  let read tags := collect_tag_set (document (([("team", "blue")] ≫= plain_tag) ++ tags)) false false None ∅ in
  read (tag_events [XText "note"] []) = Ok {[ "team" := "blue" ]} /\
  read (tag_events [XText "R"; XRef "amp"; XText "D"] [XText "red"]) = Ok (<["D" := "red"]> {[ "team" := "blue" ]}).
Proof.
  destruct (tagging_document_read [("team", "blue")] "note" "red" ("R", "D")) as (_ & Hempty & Hkey & _);
    [by repeat constructor|by split].
Defined.
