(* ===== verification/RequestWitnesses.v ===== *)
(** * RequestWitnesses: the request theorems at concrete requests

    Documents printed and read with a small tokenizer, a presigned URL and a
    signed request over one-byte digests, a bucket with a policy. *)

From Stdlib Require Import Ascii Strings.Byte.
From stdpp Require Import pretty.
From S2P Require Import Prelude Text Models Policy SkipMap Index IndexFacts Utf8 Validation FsModel Publication.
From S2P Require Import FileFacts PublicationFacts ConcreteEnv PublicationSafety Lifecycle Storage.
From S2P Require Import StorageFacts ConditionFacts BucketFacts Versions Listing Multipart Scenario LifecycleExecutor.
From S2P Require Import Http Cors Checksums ObjectHelpers Routing XmlDocuments ObjectHandlers ObjectWrites MultipartRequests.
From S2P Require Import Signatures Authorization ObjectRequests DeleteDocument LifecycleXml BucketRequests BucketListings.
From S2P Require Import PlainStore HandlerRules AuthFacts ObjectReadFacts ObjectWriteFacts AccessFacts DeleteFacts XmlFacts.
From S2P Require Import PresignedFacts HandlerWitnesses.

#[local] Existing Instances list_headers list_headers_laws plain_dates listed.
#[local] Existing Instances percent_helpers percent_policy short_digests numbered_dates small_raw_xml small_xml.

(** ** Documents *)

Definition delete_document (objects : string) : string :=
  "<Delete xmlns=" +:+ quoted "http://s3.amazonaws.com/doc/2006-03-01/" +:+ ">" +:+ objects +:+ "</Delete>".
Definition two_objects : string :=
  delete_document ("<Object><Key>a/b</Key></Object>" +:+ "<Object><Key>c</Key><VersionId>7</VersionId></Object>").
Definition two_entries : list DeleteObjectEntry := [("a/b", None, None); ("c", Some "7", None)].

Lemma delete_document_entries_witness : 1 <= length two_entries <= 1000 /\ Forall entry_ok two_entries.
Proof. apply (delete_document_entries two_objects two_entries). vm_compute. reflexivity. Defined.

Lemma delete_document_read_witness : parse_delete_keys two_objects = Ok two_entries.
Proof.
  apply (delete_document_read id two_objects two_entries); [vm_compute; reflexivity| | |simpl; lia].
  - repeat (constructor; [split_and!; [|intros ? [=]..]; subst; reflexivity|]). constructor.
  - repeat (constructor; [split_and!; [done|intros ? [=]..]; by subst|]). constructor.
Defined.

(** The key [a&b] is read as [ab]. *)
Lemma delete_document_drops_references_witness :
  parse_delete_keys (delete_document "<Object><Key>a&amp;b</Key></Object>") = Ok [("ab", None, None)].
Proof.
  apply (delete_document_drops_references id _ [] "a" "amp" "b" []);
    [vm_compute; reflexivity|reflexivity|reflexivity|done|constructor|constructor|simpl; lia].
Defined.

Definition sample_rules : LifecycleConfiguration :=
  mkLifecycle
    [mkRule (Some "old logs") RuleEnabled (Some (mkFilter (Some "logs/") [mkTag "keep" "no"]))
       (Some (mkExpiration (Some 30%N) None (Some true))) (Some (mkNoncurrent 7)) [mkTransition (Some 5%N) None Glacier];
     mkRule None RuleDisabled None (Some (mkExpiration None (Some "2030-01-01") None)) None []].

Definition one_text (value : string) : list XmlEvent := if Text.is_empty value then [] else [XText value].

Lemma one_text_plain value : plain one_text value.
Proof.
  unfold plain, one_text. destruct value as [|a value]; [by left|]. right. by exists (String a value).
Qed.

Lemma one_text_days o : (forall d, o = Some d -> d < 2 ^ 32)%N -> plain_days one_text o.
Proof. intros Ho d Hd. split; [apply one_text_plain|by apply Ho]. Qed.

Lemma one_text_rule r :
  (forall e d, rule_expiration r = Some e -> exp_days e = Some d -> d < 2 ^ 32)%N ->
  (forall n, rule_noncurrent_version_expiration r = Some n -> noncurrent_days n < 2 ^ 32)%N ->
  Forall (fun t => forall d, tr_days t = Some d -> d < 2 ^ 32)%N (rule_transitions r) -> plain_rule one_text r.
Proof.
  intros He Hn Ht. split.
  - intros v _. apply one_text_plain.
  - split; apply one_text_plain.
  - intros f _. split; [intros v _; apply one_text_plain|]. apply Forall_true. intros t. split; apply one_text_plain.
  - intros e Hr. split; [apply one_text_days; intros d; by apply He|]. split_and!; [intros v _; apply one_text_plain|apply one_text_plain..].
  - intros n Hr. apply one_text_days. intros d [= <-]. by apply Hn.
  - eapply Forall_impl; [|exact Ht]. intros t Hd. split; [by apply one_text_days|]. split; [intros v _|]; apply one_text_plain.
Qed.

Lemma lifecycle_document_round_trip_witness :
  parse_lifecycle_xml (lifecycle_xml sample_rules) = Ok sample_rules.
Proof.
  apply (lifecycle_document_round_trip one_text); [vm_compute; reflexivity|].
  repeat (constructor; [apply one_text_rule; [by intros ? ? [= <-] [= <-]|by intros ? [= <-]|
    repeat (constructor; [by intros ? [= <-]|]); constructor]|]). constructor.
Defined.

Definition rule_document (prefix : string) : string :=
  "<LifecycleConfiguration><Rule>" +:+ prefix +:+
  "<Status>Enabled</Status><Expiration><Days>1</Days></Expiration></Rule></LifecycleConfiguration>".

Definition expire_next_day (filter : option Filter) : LifecycleConfiguration :=
  mkLifecycle [mkRule None RuleEnabled filter (Some (mkExpiration (Some 1%N) None None)) None []].

(** A rule for [tmp/] expires every object, and one for [R&D/] those under [D/]. *)
Lemma lifecycle_prefix_lost_witness :
  (parse_lifecycle_xml (rule_document "<Prefix>tmp/</Prefix>") = Ok (expire_next_day None) /\
   forall r key tags, r ∈ rules (expire_next_day None) -> rule_matches_filter r key tags = true) /\
  parse_lifecycle_xml (rule_document "<Filter><Prefix>R&amp;D/</Prefix></Filter>") =
    Ok (expire_next_day (Some (mkFilter (Some "D/") []))).
Proof.
  split.
  - destruct (lifecycle_prefix_lost (rule_document "<Prefix>tmp/</Prefix>") "tmp/" "" "1" 1) as [Hl _]; [done..|].
    apply Hl. vm_compute. reflexivity.
  - destruct (lifecycle_prefix_lost (rule_document "<Filter><Prefix>R&amp;D/</Prefix></Filter>") "R" "D/" "1" 1) as [_ Hr]; [done..|].
    apply Hr. vm_compute. reflexivity.
Defined.

Definition version_of (key id : string) (t : time) : Object :=
  with_version_id (Some id) (new_with_metadata_and_etag t key [] "text/plain" ∅ "e").
Definition three_versions : list Object := [version_of "b" "1" 10%Z; version_of "a" "1" 10%Z; version_of "a" "2" 20%Z].

Lemma version_pages_complete_witness :
  version_walk 4 three_versions None None 2 = ordered_versions three_versions.
Proof.
  apply version_pages_complete; [|by repeat constructor|lia|simpl; lia].
  apply (bool_decide_unpack _). vm_compute. reflexivity.
Defined.

(** ** Signatures *)

Definition keys : PresignedUrlConfig := mkPresignedConfig "AKID" "secret".
Definition enforced : AuthConfig := mkAuthConfig (Some "AKID") (Some "secret") true.

(** Made half a second after the second it names. *)
Definition made_at : time := (1000000 * SECOND + 500000000)%Z.
Definition named_second : time := (1000000 * SECOND)%Z.

Definition download : Request :=
  mkRequest "GET" (url_path "photos" "a cat.txt") (Some (url_query made_at "photos" "a cat.txt" "GET" 600 "http://localhost:9000/" keys))
    [("host", "localhost:9000")] [] ∅ None.

Lemma download_presignable : presignable made_at named_second "photos" "a cat.txt" "GET" 600 "http://localhost:9000/" keys.
Proof.
  split; try (vm_compute; reflexivity).
  - split; [by vm_compute|vm_compute; reflexivity].
  - split; [done|vm_compute; reflexivity].
  - split_and!; [done|vm_compute; reflexivity..].
  - repeat (constructor; [vm_compute; reflexivity|]). constructor.
  - repeat (constructor; [vm_compute; reflexivity|]). constructor.
  - repeat (constructor; [vm_compute; reflexivity|]). constructor.
Qed.

Lemma download_follows : follows_url made_at "photos" "a cat.txt" "GET" 600 "http://localhost:9000/" keys download.
Proof.
  assert (header_fields download = {[ "host" := "localhost:9000" ]}) as Hh by (vm_compute; reflexivity).
  split; [done|done|done|rewrite Hh; vm_compute; reflexivity|vm_compute; reflexivity|].
  intros name value Hl. rewrite Hh in Hl. apply lookup_singleton_Some in Hl as [<- _]. reflexivity.
Qed.

Lemma presigned_url_accepted_witness :
  generate_url_at made_at "photos" "a cat.txt" "GET" 600 "http://localhost:9000/" keys
    = "http://localhost:9000" +:+ rq_path download +:+ "?" +:+ default "" (rq_query download) /\
  exists u, from_query_params "photos" "a cat.txt" "GET" (parse_query_params (rq_query download)) = Ok u /\
    validate_request_contract_at (1000600 * SECOND)%Z u download keys = Ok tt.
Proof.
  apply (presigned_url_accepted made_at named_second "photos" "a cat.txt" "GET" 600 "http://localhost:9000/" keys
    download_presignable download (1000600 * SECOND)%Z download_follows); [lia|vm_compute; discriminate].
Defined.

(** The query of the URL authenticates the request, for as long as it lasts. *)
Definition clock_at (t : time) : Sched := mkSched [] (fun k => N.of_nat k) (fun _ => t).

Lemma authenticated_only_with_signature_witness :
  exists n, header_signed "secret" (sc_clock (clock_at (1000600 * SECOND)%Z) n) download \/
            query_signed "AKID" "secret" (sc_clock (clock_at (1000600 * SECOND)%Z) n) download.
Proof.
  eapply (authenticated_only_with_signature "AKID" "secret" download enforced (clock_at (1000600 * SECOND)%Z) blank);
    [reflexivity|reflexivity|reflexivity|vm_compute; reflexivity|vm_compute; reflexivity].
Defined.

Lemma valueless_parameter_hides_credentials_witness :
  extract_presigned_principal (default "" (rq_query download)) enforced <> None /\
  extract_presigned_principal ("uploads" +:+ "&" +:+ default "" (rq_query download)) enforced = None.
Proof.
  split; [vm_compute; discriminate|].
  apply (valueless_parameter_hides_credentials "uploads" (default "" (rq_query download)) enforced); vm_compute; reflexivity.
Defined.

(** ** A bucket with a policy *)

Definition statement (effect action resource : string) : PolicyStatementDocument :=
  mkStatement None effect (PrincipalAll "*") (ActionSingle action) (ResourceSingle resource) None.
Definition keep_all : BucketPolicyDocument :=
  mkPolicyDocument "2012-10-17" [statement "Allow" "s3:GetObject" "arn:aws:s3:::photos/*";
                                 statement "Deny" "s3:DeleteObject" "arn:aws:s3:::photos/*"].
Definition ruled_shop : Store := run (put_bucket_policy photos keep_all) 200 (stock text).

Lemma ruled_shop_ruled : ruled photos ∅ (Some keep_all) cat (put_pair text) ruled_shop.
Proof.
  assert (ruled photos ∅ None cat (put_pair text) (stock text)) as Hs.
  { split; [by apply stock_stored|]. vm_compute. reflexivity. }
  destruct (run_calm (put_bucket_policy photos keep_all)
    (fun _ w' => ruled photos ∅ (Some keep_all) cat (put_pair text) w') 200 (stock text)) as [_ Hr]; [|exact Hr].
  eapply wp_mono; [exact (fs_put_policy photos ∅ cat (put_pair text) None keep_all (fun _ => True) (stock text) Hs)|by intros ? ? [_ ?]|by intros ? ? [? _]|done].
Qed.

(** An anonymous request may read the object and may not delete it. *)
Definition anonymous_request (method : string) : Request := request method [] "".

Lemma authorization_decision_witness :
  exists signed σ1 r s' σ', verify_sigv4_signature (anonymous_request "GET") enforced (quiet 300) ruled_shop = (Done signed, ruled_shop, σ1) /\
    check_authorization (anonymous_request "GET") enforced photos (Some cat) "s3:GetObject" (quiet 300) ruled_shop = (Done r, s', σ') /\
    ruled photos ∅ (Some keep_all) cat (put_pair text) s' /\ r = Ok (from_request (anonymous_request "GET") enforced).
Proof.
  destruct (authorization_decision enforced photos ∅ (Some keep_all) cat (put_pair text) (anonymous_request "GET") "s3:GetObject" ruled_shop
    (quiet 300) ruled_shop_ruled (quiet_calm 300)) as (signed & σ1 & r & s' & σ' & Hv & Hrun & Hs & Hd).
  exists signed, σ1, r, s', σ'. split_and!; [exact Hv|exact Hrun|exact Hs|].
  assert (signed = Ok tt) as ->; [|exact Hd].
  assert ((verify_sigv4_signature (anonymous_request "GET") enforced (quiet 300) ruled_shop).1.1 = Done (Ok tt)) as Hs1 by (vm_compute; reflexivity).
  rewrite Hv in Hs1. by injection Hs1.
Defined.

Lemma denied_request_changes_nothing_witness :
  exists r s' σ', answered (object_delete 5 enforced photos cat (anonymous_request "DELETE") "id") (quiet 300) ruled_shop = (Done (Ok r), s', σ') /\
    turned_away photos ∅ (Some keep_all) cat (put_pair text) r s'.
Proof.
  apply (denied_request_changes_nothing enforced photos ∅ (Some keep_all) cat (put_pair text) 5 (anonymous_request "DELETE") "id" ruled_shop
    (quiet 300) eq_refl ruled_shop_ruled (quiet_calm 300) eq_refl eq_refl "s3:DeleteObject"); [set_solver|vm_compute; reflexivity].
Defined.

(** ** Requests that go past a check *)

Definition open_config : AuthConfig := mkAuthConfig None None false.

Definition form_field (disposition : string) (headers body : string) : string :=
  "--X" +:+ CRLF +:+ "Content-Disposition: form-data; " +:+ disposition +:+ CRLF +:+ headers +:+ CRLF +:+ body +:+ CRLF.
Definition form_body : string :=
  form_field ("name=" +:+ quoted "key") "" cat +:+
  form_field ("name=" +:+ quoted "file" +:+ "; filename=" +:+ quoted "new.txt") ("Content-Type: text/plain" +:+ CRLF) "another text" +:+
  "--X--" +:+ CRLF.
Definition form_upload : Request :=
  mkRequest "POST" "/photos" None [("content-type", "multipart/form-data; boundary=X")] (as_bytes form_body) ∅ None.

Definition status_of {E} (o : outcome (result E Response)) : option N :=
  match o with Done (Ok r) => Some (rs_status r) | _ => None end.
Definition stored_text (bucket key : string) (w : Store) : option string :=
  match (get_object bucket key (quiet 900) w).1.1 with Done o => Some (text_of_bytes (o_data o)) | _ => None end.

(** [form_upload_replaces_held_object]. An example: a browser form upload
    replaces an object under legal hold. Where the PUT of the key is refused
    with 403, the POST of the form to the bucket answers 204 and the held
    bytes are gone. *)
Theorem form_upload_replaces_held_object :
  let put := object_put 5 open_config photos cat new_put "id" (quiet 300) (stock held_text) in
  let post := bucket_post 5 open_config photos form_upload "id" (quiet 300) (stock held_text) in
  on_legal_hold held_text = true /\
  status_of put.1.1 = Some 403%N /\ stored_text photos cat put.1.2 = Some "the cat sat" /\
  status_of post.1.1 = Some 204%N /\ stored_text photos cat post.1.2 = Some "another text".
Proof. vm_compute. split_and!; reflexivity. Qed.

(** A private bucket beside one that takes uploads from everyone. *)
Definition drop_box : BucketPolicyDocument := mkPolicyDocument "2012-10-17" [statement "Allow" "s3:PutObject" "arn:aws:s3:::photos/*"].
Definition bank : Store :=
  run (put_object "vault" "secret" (text_object "secret" "the combination")) 400
    (run (create_bucket "vault") 300 (run (put_bucket_policy photos drop_box) 200 shop)).
Definition copy_request : Request := mkRequest "PUT" "/photos/copy" None [("x-amz-copy-source", "/vault/secret")] [] ∅ None.
Definition refused_with {A} (o : outcome (result Response A)) : option N :=
  match o with Done (Err r) => Some (rs_status r) | _ => None end.

(** [copy_reads_forbidden_source]. An example: a copy request reads its source
    without authorization. An anonymous caller who may write to a public
    bucket but may not read the source object copies it with 200. *)
Theorem copy_reads_forbidden_source :
  let get := check_authorization (anonymous_request "GET") enforced "vault" (Some "secret") "s3:GetObject" (quiet 500) bank in
  let copy := object_put 5 enforced photos "copy" copy_request "id" (quiet 500) bank in
  is_authenticated (from_request copy_request enforced) = false /\
  refused_with get.1.1 = Some 403%N /\
  status_of copy.1.1 = Some 200%N /\ stored_text photos "copy" copy.1.2 = Some "the combination".
Proof. vm_compute. split_and!; reflexivity. Qed.
