(* ===== verification/AzureFacts.v ===== *)
(** * AzureFacts: what the Azure front door guarantees of a blob

    [AzurePlain] adds to [PlainStore] the two operations only this front door uses;
    [FilesystemStorage] is an instance.  Against that interface: a lease is a mutex
    and its four actions refine one; a blob under a lease or a policy is not changed
    by requests that may not; a locked policy only grows; and a page write changes
    exactly its range. *)

From Stdlib Require Import Ascii Strings.Byte.
From stdpp Require Import pretty.
From S2P Require Import Prelude Text Models Utf8 Validation Policy SkipMap Index IndexFacts FsModel Publication.
From S2P Require Import FileFacts PublicationFacts ConcreteEnv PublicationSafety Lifecycle Storage.
From S2P Require Import StorageFacts ConditionFacts BucketFacts Versions Listing Multipart LifecycleExecutor.
From S2P Require Import Http Cors Checksums ObjectHelpers Routing ObjectHandlers Signatures PlainStore HandlerRules.
From S2P Require Import Startup Azure AzureBlobs Scenario HandlerWitnesses.

(** ** The interface *)

(** What is stored after a replacement of the metadata, if it was as observed. *)
Definition redescribed (observed updated : Object) (x : option (Object * bytes)) : bool * option (Object * bytes) :=
  match x with
  | None => (false, None)
  | Some (o, data) =>
      if unchanged (strip_data o) observed then (true, Some (described_as updated (strip_data o), data)) else (false, x)
  end.

Class AzurePlain (S : Type) `{AzureUploads S} `{!PlainStore S} : Prop := {
  plain_replace : forall b m k x observed updated,
    runs (stored b m k x) (st_replace_object_metadata_if_unchanged b k observed updated)
      (fun r s => r = Ok (redescribed observed updated x).1 /\ stored b m k (redescribed observed updated x).2 s);
  plain_exists : forall b m k x, runs (stored b m k x) (st_object_exists b k)
    (fun r s => stored b m k x s /\ r = Ok (is_some x)) }.

Section Filesystem.
Context {M : Type -> Type} `{SkipMapLaws M} `{EnvLaws} `{StoreEnvLaws} `{Digests}.
Abbreviation World := (World M).

Lemma fs_replace b m k x observed updated :
  runs (world_stored b m k x) (replace_object_metadata_if_unchanged b k observed updated)
    (fun r (w : World) => r = Ok (redescribed observed updated x).1 /\ world_stored b m k (redescribed observed updated x).2 w).
Proof.
  intros clk w Hs. unfold replace_object_metadata_if_unchanged. set (d := object_dir b k).
  apply wp_bind, wp_disk, (wp_recover_held d x); [apply Hs| |no_fault]. intros s1 Hh1 Ha1.
  assert (world_stored b m k x (set_fs s1 w)) as Hs1 by by eapply stored_fs_read.
  apply wp_bind, wp_gets. simpl. change (object_metadata_path b (compute_object_id b k)) with (join d META).
  pose proof (held_pair _ _ _ Hh1) as Hp. unfold pair_at in Hp. unfold path_exists.
  destruct x as [[o data]|]; injection Hp as Hblob Hm; rewrite Hm; simpl; [|by apply wp_ret].
  apply wp_bind, wp_disk. simpl. eapply wp_read_metadata; [done| |no_fault].
  destruct (unchanged (strip_data o) observed); simpl; [|by apply wp_ret].
  apply wp_bind, wp_admit. apply wp_bind, wp_disk. rewrite admitted_fs. simpl.
  pose proof (held_settled _ _ _ Hh1) as Hset. fold (described_as updated (strip_data o)).
  apply wp_atomic_write; [apply Hset|rewrite parent_join; by eapply held_dir| |apply join_ne_nil|apply scratch_meta| |no_fault].
  { unfold is_dir. by rewrite Hm. }
  intros s2 Ha Hmeta. apply wp_ret. split; [done|]. unfold world_stored. simpl.
  eapply stored_fs_kept; [|exact Hs1| | |].
  - eapply agree_weaken; [|exact Ha]. intros q ->. left. apply below_join.
  - by eapply held_rewrite.
  - rewrite (agree_at _ _ _ Ha); [apply Hs1|unfold versions_dir; by rewrite scratch_join|].
    change (versions_dir b (compute_object_id b k)) with (join d "versions"). unfold at_path. rewrite join_inj. by intros [_ ?].
  - intros o1 d1 [= <- <-]. by eapply (sf_version _ _ _ _ _ Hs o data).
Qed.

Lemma fs_exists b m k x : runs (world_stored b m k x) (object_exists b k)
  (fun r (w : World) => world_stored b m k x w /\ r = Ok (is_some x)).
Proof.
  intros clk w Hs. unfold object_exists. apply wp_bind, wp_disk, (wp_recover_held _ x); [apply Hs| |no_fault]. intros s1 Hh1 Ha1.
  assert (world_stored b m k x (set_fs s1 w)) as Hs1 by by eapply stored_fs_read.
  apply wp_gets. split; [done|]. pose proof (held_pair _ _ _ Hh1) as Hp. unfold pair_at in Hp. simpl.
  change (object_data_path b (compute_object_id b k)) with (join (object_dir b k) BLOB). unfold path_exists.
  change (object_dir b k) with (object_id_dir b (compute_object_id b k)). pose proof (f_equal fst Hp) as Hb. cbn [fst] in Hb. rewrite Hb. by destruct x as [[o data]|].
Qed.

#[export] Instance filesystem_azure_plain : AzurePlain World.
Proof. split; [apply fs_replace|apply fs_exists]. Qed.
End Filesystem.

(** ** Rules *)

Section Rules.
Context `{HttpLaws} `{HelperEnv} `{Chrono} `{PayloadDigests} `{AzureEnv} `{Env}.

Lemma wp_azure_response {T} {mo : mode} status (Q : ResponseBuilder -> T -> Prop) E C s :
  (forall b, rb_status b = status -> Q b s) -> wp mo (azure_response status) Q E C s.
Proof.
  intros HQ. unfold azure_response. apply wp_bind, wp_new_uuid. intros u _. apply wp_bind, wp_now. intros t. apply wp_ret, HQ.
  by rewrite !(proj1 (with_header_parts _ _ _)).
Qed.

Lemma wp_decline {T} {mo : mode} (r : refusal_of) (Q : Response -> T -> Prop) E C s :
  (forall resp, rs_status resp = r.1.1 -> Q resp s) -> wp mo (decline r) Q E C s.
Proof.
  destruct r as [[status code] message]. intros HQ. unfold decline. apply wp_bind, wp_azure_response. intros b Hb. apply wp_ret, HQ.
  simpl. unfold with_content_type. by rewrite !(proj1 (with_header_parts _ _ _)), Hb.
Qed.

Lemma wp_unless {T} {mo : mode} (r : option refusal_of) (k : io T Response) Q E C s :
  (forall x, r = Some x -> forall resp, rs_status resp = x.1.1 -> Q resp s) -> (r = None -> wp mo k Q E C s) ->
  wp mo (unless r k) Q E C s.
Proof. intros HS HN. unfold unless. destruct r as [x|]; [by apply wp_decline, HS|by apply HN]. Qed.

Lemma wp_empty_response {T} {mo : mode} status (Q : Response -> T -> Prop) E C s :
  (forall resp, rs_status resp = status -> Q resp s) -> wp mo (empty_response status) Q E C s.
Proof. intros HQ. unfold empty_response. apply wp_bind, wp_azure_response. intros b Hb. by apply wp_ret, HQ. Qed.

(** An answer with one header. *)
Lemma wp_headed {T} {mo : mode} status (f : ResponseBuilder -> ResponseBuilder) (Q : Response -> T -> Prop) E C s :
  (forall b, rb_status (f b) = rb_status b) -> (forall resp, rs_status resp = status -> Q resp s) ->
  wp mo (b ← azure_response status; mret (empty (f b))) Q E C s.
Proof. intros Hf HQ. apply wp_bind, wp_azure_response. intros b Hb. apply wp_ret, HQ. simpl. by rewrite Hf. Qed.
End Rules.

Lemma with_header_status `{HttpLib} n v b : rb_status (with_header n v b) = rb_status b.
Proof. unfold with_header. destruct (header_name n); [|done]. by destruct (header_value v). Qed.

(** ** Leases *)

(** The holder of a blob's lease. *)
Definition holder (o : Object) : option string := if has_active_lease o then lease_id o else None.

Lemma provider_with f o key : provider_value (with_provider f o) key = f (o_provider_metadata o) !! key.
Proof. done. Qed.

(** A look-up after updates at constant keys. *)
Ltac look :=
  unfold strmap in *; repeat first
    [rewrite lookup_insert_eq|rewrite lookup_delete_eq
    |rewrite lookup_insert_ne by (intros E; discriminate E)|rewrite lookup_delete_ne by (intros E; discriminate E)].

Lemma holder_set id state status duration o :
  holder (set_lease_state id state status duration o) = if eqb status "locked" then id else None.
Proof.
  unfold holder, has_active_lease, lease_status, lease_id, set_lease_state. rewrite !provider_with. unfold set_key.
  destruct id, duration; look; simpl; by destruct (eqb status "locked").
Qed.

Lemma unchanged_self o : unchanged o o = true.
Proof. unfold unchanged. by rewrite !eqb_refl. Qed.

(** What an action does to the holder of the lease, and the status it answers:
    [given] is the lease the request names, [proposed] the one it proposes. *)
Inductive lease_action : option string -> string -> option string -> option string -> N -> option string -> Prop :=
| lease_acquired given id proposed : (forall p, proposed = Some p -> id = p) ->
    lease_action None "acquire" given proposed 201 (Some id)
| lease_taken id given proposed : lease_action (Some id) "acquire" given proposed 409 (Some id)
| lease_renewed held given proposed : (held = None \/ given = held) -> lease_action held "renew" given proposed 200 held
| lease_released held given proposed : (held = None \/ given = held) -> lease_action held "release" given proposed 200 None
| lease_kept id action given proposed : action = "renew" \/ action = "release" -> given <> Some id ->
    lease_action (Some id) action given proposed 412 (Some id)
| lease_broken id given proposed : lease_action (Some id) "break" given proposed 202 None
| lease_absent given proposed : lease_action None "break" given proposed 409 None
| lease_unknown held action given proposed : action ∉ ["acquire"; "renew"; "release"; "break"] ->
    lease_action held action given proposed 400 held.

Section Leases.
Context `{HttpLaws} `{HelperEnv} `{Chrono} `{PayloadDigests} `{AzureEnv} `{Env}.
Context {S : Type} `{AzurePlain S}.
Abbreviation never := (fun _ : S => False).
Abbreviation fine := (fun (_ : Error) (_ : S) => False).

Lemma wp_find {clk} c m k x Q (s : S) : stored c m k x s ->
  (forall s', stored c m k x s' -> Q (strip_data ∘ fst <$> x) s') -> wp (calm_while clk) (find_blob c k) Q fine never s.
Proof.
  intros Hs HQ. apply wp_bind. eapply wp_metadata; [exact Hs|]. intros s' Hs'. destruct x as [[o data]|]; by apply wp_ret, HQ.
Qed.

(** A replacement of what was just read succeeds. *)
Lemma wp_replacing {clk} c m k o data updated answer Q (s : S) :
  stored c m k (Some (o, data)) s ->
  (forall s', stored c m k (Some (described_as updated (strip_data o), data)) s' -> wp (calm_while clk) answer Q fine never s') ->
  wp (calm_while clk) (replacing c k (strip_data o) updated answer) Q fine never s.
Proof.
  intros Hs HQ. apply wp_bind. eapply wp_mono; [exact (plain_replace c m k _ _ updated clk s Hs)| |by intros e s' [? _]|done].
  cbn beta. unfold redescribed. rewrite unchanged_self. simpl. intros r s' [[= ->] Hs']. by apply HQ.
Qed.

(** An answer beside the same bytes, under a description [R] speaks of. *)
Definition redescribing c m k data (R : N -> Object -> Prop) (resp : Response) (s : S) : Prop :=
  exists o, stored c m k (Some (o, data)) s /\ R (rs_status resp) o.

Lemma wp_keeps {clk} c m k o data (R : N -> Object -> Prop) r (s : S) :
  stored c m k (Some (o, data)) s -> R r.1.1 o -> wp (calm_while clk) (decline r) (redescribing c m k data R) fine never s.
Proof. intros Hs HR. apply wp_decline. intros resp Hr. exists o. by rewrite Hr. Qed.

Lemma wp_redescribes {clk} c m k o data (R : N -> Object -> Prop) updated status f (s : S) :
  stored c m k (Some (o, data)) s -> (forall b, rb_status (f b) = rb_status b) ->
  R status (described_as updated (strip_data o)) ->
  wp (calm_while clk) (replacing c k (strip_data o) updated (b ← azure_response status; mret (empty (f b)))) (redescribing c m k data R) fine never s.
Proof.
  intros Hs Hf HR. eapply wp_replacing; [exact Hs|]. intros s' Hs'. apply wp_headed; [done|]. intros resp Hr. eexists. by rewrite Hr.
Qed.

Lemma wp_answers c m k x data (R : N -> Object -> Prop) (p : io S Response) :
  (forall clk s, stored c m k x s -> wp (calm_while clk) p (redescribing c m k data R) fine never s) ->
  runs (stored c m k x) p (fun r s => exists resp o, r = Ok resp /\ stored c m k (Some (o, data)) s /\ R (rs_status resp) o).
Proof.
  intros Hp clk s Hs. eapply wp_mono; [by apply Hp|..|by intros ? ? []|done]. intros resp s' [o [Ho HR]]. by exists resp, o.
Qed.

Lemma holder_described updated o : holder (described_as updated o) = holder updated.
Proof. done. Qed.

Lemma lease_refusal req o r : ensure_lease_allows req o = Some r ->
  r.1.1 = 412%N /\ exists id, holder o = Some id /\ header req "x-ms-lease-id" <> Some id.
Proof.
  unfold ensure_lease_allows, holder. destruct (has_active_lease o); [|done]. simpl. destruct (lease_id o) as [id|]; [|done].
  destruct (header req "x-ms-lease-id") as [p|]; [|intros [= <-]; eauto]. destruct (eqb p id) eqn:E; [done|]. intros [= <-].
  split; [done|]. exists id. split; [done|]. apply eqb_false in E. congruence.
Qed.

Lemma lease_allowed req o : ensure_lease_allows req o = None -> holder o = None \/ header req "x-ms-lease-id" = holder o.
Proof.
  unfold ensure_lease_allows, holder. destruct (has_active_lease o); [|by left]. simpl. destruct (lease_id o) as [id|]; [|by left].
  destruct (header req "x-ms-lease-id") as [p|]; [|done]. destruct (eqb p id) eqn:E; [|done]. apply (proj1 (eqb_true _ _)) in E as ->. by right.
Qed.

Lemma holder_active o : has_active_lease o = true -> exists id, holder o = Some id.
Proof.
  unfold holder. intros Ha. rewrite Ha. unfold has_active_lease in Ha. apply andb_true_iff in Ha as [_ Ha].
  destruct (lease_id o) as [id|]; [by exists id|done].
Qed.

(** Renewal and release, by the holder or when there is none. *)
Lemma wp_by_holder {clk} req c m k o data action status updated f (s : S) :
  stored c m k (Some (o, data)) s -> action = "renew" \/ action = "release" ->
  (forall b, rb_status (f b) = rb_status b) ->
  (forall given proposed, holder o = None \/ given = holder o -> lease_action (holder o) action given proposed status (holder updated)) ->
  wp (calm_while clk) (unless (ensure_lease_allows req (strip_data o)) (replacing c k (strip_data o) updated (b ← azure_response status; mret (empty (f b)))))
    (redescribing c m k data (fun status o' => lease_action (holder o) action (header req "x-ms-lease-id")
       (header req "x-ms-proposed-lease-id") status (holder o'))) fine never s.
Proof.
  intros Hs Ha Hf Hl. unfold unless. destruct (ensure_lease_allows req (strip_data o)) as [r|] eqn:E.
  - apply lease_refusal in E as (Hr & id & Hid & Hne). eapply wp_keeps; [exact Hs|]. rewrite Hr.
    change (holder o) with (holder (strip_data o)). rewrite Hid. by apply lease_kept.
  - eapply wp_redescribes; [exact Hs|exact Hf|]. apply Hl. exact (lease_allowed _ _ E).
Qed.

Lemma wp_acquire {clk} req c m k o data (s : S) :
  stored c m k (Some (o, data)) s ->
  wp (calm_while clk) (acquire_lease req c k (strip_data o))
    (redescribing c m k data (fun status o' => lease_action (holder o) "acquire" (header req "x-ms-lease-id")
       (header req "x-ms-proposed-lease-id") status (holder o'))) fine never s.
Proof.
  intros Hs. unfold acquire_lease. destruct (has_active_lease (strip_data o)) eqn:Ha.
  - eapply wp_keeps; [exact Hs|]. apply holder_active in Ha as [id Hid]. change (holder o) with (holder (strip_data o)). rewrite Hid.
    apply lease_taken.
  - assert (holder o = None) as Hn by (change (holder o) with (holder (strip_data o)); unfold holder; by rewrite Ha).
    assert (forall id s', stored c m k (Some (o, data)) s' -> (forall p, header req "x-ms-proposed-lease-id" = Some p -> id = p) ->
      wp (calm_while clk) (replacing c k (strip_data o) (set_lease_state (Some id) "leased" "locked"
        (Some (if eqb (default "-1" (header req "x-ms-lease-duration")) "-1" then "infinite" else "fixed")) (strip_data o))
        (b ← azure_response 201; mret (empty (with_header "x-ms-lease-id" id b))))
        (redescribing c m k data (fun status o' => lease_action (holder o) "acquire" (header req "x-ms-lease-id")
           (header req "x-ms-proposed-lease-id") status (holder o'))) fine never s') as Hset.
    { intros id s' Hs' Hid. eapply wp_redescribes; [exact Hs'|intros; apply with_header_status|].
      rewrite Hn, holder_described, holder_set. by apply lease_acquired. }
    apply wp_bind. destruct (header req "x-ms-proposed-lease-id") as [p|] eqn:Hp.
    + apply wp_ret, Hset; [done|congruence].
    + apply wp_new_uuid. intros u _. by apply Hset.
Qed.

(** C11 [lease_actions_refine_mutex]. The lease of a blob is a mutex: on any
    store that keeps the promises of a plain bucket, handle_lease carries out
    one step of the abstract lease (acquire when free, renew and release only
    by the holder while there is one, break by anyone, 409, 412 and 400
    otherwise), answers the status of that step, and keeps the bytes. *)
Theorem lease_actions_refine_mutex req c m k o data :
  conditions_match_blob req o = true ->
  runs (stored c m k (Some (o, data))) (handle_lease req c k)
    (fun r s => exists resp o', r = Ok resp /\ stored c m k (Some (o', data)) s /\
       lease_action (holder o) (default "" (header req "x-ms-lease-action")) (header req "x-ms-lease-id")
         (header req "x-ms-proposed-lease-id") (rs_status resp) (holder o')).
Proof.
  intros Hcond.
  apply (wp_answers c m k _ data (fun status o' => lease_action (holder o) _ _ _ status (holder o'))).
  intros clk s Hs. unfold handle_lease. apply wp_bind. eapply wp_find; [exact Hs|]. intros s1 Hs1.
  cbn [fmap option_fmap option_map compose fst]. unfold when_matching.
  change (conditions_match_blob req (strip_data o)) with (conditions_match_blob req o). rewrite Hcond.
  set (action := default "" (header req "x-ms-lease-action")).
  destruct (eqb action "acquire") eqn:Ea; [apply (proj1 (eqb_true _ _)) in Ea; rewrite Ea; by apply wp_acquire|].
  destruct (eqb action "renew") eqn:En; [apply (proj1 (eqb_true _ _)) in En; rewrite En|].
  { apply wp_by_holder; [done|by left|intros; apply with_header_status|]. intros. by apply lease_renewed. }
  destruct (eqb action "release") eqn:Er; [apply (proj1 (eqb_true _ _)) in Er; rewrite Er|].
  { apply (wp_by_holder req c m k o data "release" 200 _ id); [done|by right|done|]. intros. rewrite holder_set. by apply lease_released. }
  destruct (eqb action "break") eqn:Eb; [apply (proj1 (eqb_true _ _)) in Eb; rewrite Eb|].
  - destruct (has_active_lease (strip_data o)) eqn:Hact; cbn [negb].
    + eapply wp_redescribes; [exact Hs1|intros; apply with_header_status|]. rewrite holder_described, holder_set.
      apply holder_active in Hact as [id Hid]. change (holder o) with (holder (strip_data o)). rewrite Hid. apply lease_broken.
    + eapply wp_keeps; [exact Hs1|].
      assert (holder o = None) as -> by (change (holder o) with (holder (strip_data o)); unfold holder; by rewrite Hact). apply lease_absent.
  - eapply wp_keeps; [exact Hs1|]. apply lease_unknown. rewrite !not_elem_of_cons.
    by apply eqb_false in Ea, En, Er, Eb; split_and!; [..|apply not_elem_of_nil].
Qed.
End Leases.

(** ** Policies *)

(** [Locked] until [until]. *)
Definition locked `{Chrono} (o : Object) (until : time) : Prop :=
  provider_value o AZURE_IMMUTABILITY_MODE_KEY = Some "Locked" /\ retention_until o = Some until.

(** The requests that set what protects a blob. *)
Inductive protection_request : Type := SetPolicy | DropPolicy | SetLegalHold | Lease.

Section Policies.
Context `{HttpLaws} `{HelperEnv} `{Chrono} `{PayloadDigests} `{AzureEnv} `{Env}.
Context {S : Type} `{AzurePlain S}.
Abbreviation never := (fun _ : S => False).
Abbreviation fine := (fun (_ : Error) (_ : S) => False).

Definition protect (a : protection_request) (req : Request) (c k : string) : io S Response :=
  match a with
  | SetPolicy => put_immutability_policy req c k
  | DropPolicy => delete_immutability_policy req c k
  | SetLegalHold => put_legal_hold req c k
  | Lease => handle_lease req c k
  end.

(** The two date formats of [chrono] have no text in common. *)
Hypothesis formats_apart : forall text t, parse_rfc2822 text = Some t -> parse_rfc3339 text = None.

(** What every protection request leaves of a locked policy. *)
Definition at_least (until : time) (_ : N) (o : Object) : Prop := exists u, locked o u /\ (until <= u)%Z.

Lemma locked_described updated o until : locked updated until -> locked (described_as updated o) until.
Proof. done. Qed.

Lemma locked_lease id state status duration o until : locked o until -> locked (set_lease_state id state status duration o) until.
Proof.
  unfold locked, retention_until, set_lease_state. rewrite !provider_with. unfold set_key.
  destruct id, duration; look; done.
Qed.

Lemma locked_hold v o until : locked o until -> locked (with_provider <[AZURE_LEGAL_HOLD_KEY := v]> o) until.
Proof. unfold locked, retention_until. rewrite !provider_with. look. done. Qed.

Lemma locked_set text date o :
  parse_rfc2822 text = Some date ->
  locked (with_provider (fun m => <[AZURE_IMMUTABILITY_MODE_KEY := "Locked"]> (<[AZURE_IMMUTABILITY_UNTIL_KEY := text]> m)) o) date.
Proof. intros Hd. unfold locked, retention_until. rewrite !provider_with. look. simpl. by rewrite (formats_apart _ _ Hd). Qed.

(** A request that finds the blob: its conditions, then the rest. *)
Lemma wp_on_blob {clk} req c m k o data (R : N -> Object -> Prop) (f : Object -> io S Response) (s : S) :
  stored c m k (Some (o, data)) s -> R 412%N o ->
  (forall s', stored c m k (Some (o, data)) s' -> wp (calm_while clk) (f (strip_data o)) (redescribing c m k data R) fine never s') ->
  wp (calm_while clk) (found ← find_blob c k; match found with None => decline blob_not_found | Some b => when_matching req b (f b) end)
    (redescribing c m k data R) fine never s.
Proof.
  intros Hs HR Hf. apply wp_bind. eapply wp_find; [exact Hs|]. intros s1 Hs1. cbn [fmap option_fmap option_map compose fst].
  unfold when_matching. destruct (conditions_match_blob req (strip_data o)); [by apply Hf|by eapply wp_keeps].
Qed.

Lemma wp_set_policy {clk} req c m k o data until (s : S) :
  stored c m k (Some (o, data)) s -> locked o until ->
  wp (calm_while clk) (put_immutability_policy req c k) (redescribing c m k data (at_least until)) fine never s.
Proof.
  intros Hs Hl. assert (forall status, at_least until status o) as Hsame by (exists until; split; [done|lia]).
  unfold put_immutability_policy. destruct (header req _) as [text|]; [|by eapply wp_keeps].
  apply wp_bind. unfold future_date. destruct (parse_rfc2822 text) as [date|] eqn:Hd; [|by apply wp_ret; eapply wp_keeps].
  apply wp_bind, wp_now. intros t. apply wp_ret. destruct (t <? date)%Z; [|by eapply wp_keeps].
  set (mode := default "Unlocked" _). destruct (negb _); [by eapply wp_keeps|].
  apply wp_on_blob with o; [done..|]. intros s1 Hs1. unfold weakens.
  change (provider_value (strip_data o)) with (provider_value o). change (retention_until (strip_data o)) with (retention_until o).
  rewrite (proj1 Hl), (proj2 Hl), eqb_refl. cbn [andb].
  destruct (eqb mode "Locked") eqn:Hmode; cbn [negb orb]; [|by eapply wp_keeps].
  destruct (Z.ltb_spec date until) as [|Hle]; [by eapply wp_keeps|]. apply (proj1 (eqb_true _ _)) in Hmode as ->.
  eapply wp_redescribes; [done|intros; by rewrite !with_header_status|]. exists date. split; [|done].
  by apply locked_described, locked_set.
Qed.

Lemma wp_protect {clk} a req c m k o data until (s : S) :
  stored c m k (Some (o, data)) s -> locked o until ->
  wp (calm_while clk) (protect a req c k) (redescribing c m k data (at_least until)) fine never s.
Proof.
  intros Hs Hl. assert (forall status, at_least until status o) as Hsame by (exists until; split; [done|lia]).
  assert (forall status u, locked u until -> at_least until status (described_as u (strip_data o))) as Hkept.
  { intros status u Hu. exists until. split; [by apply locked_described|lia]. }
  destruct a; simpl.
  - by eapply wp_set_policy.
  - apply wp_on_blob with o; [done..|]. intros s1 Hs1. change (provider_value (strip_data o)) with (provider_value o).
    rewrite (proj1 Hl), eqb_refl. by eapply wp_keeps.
  - unfold put_legal_hold. destruct (header req _) as [hold|]; [|by eapply wp_keeps]. destruct (negb _); [by eapply wp_keeps|].
    apply wp_on_blob with o; [done..|]. intros s1 Hs1.
    eapply wp_redescribes; [done|intros; apply with_header_status|]. by apply Hkept, locked_hold.
  - unfold handle_lease. cbv zeta. apply wp_on_blob with o; [done..|]. intros s1 Hs1.
    assert (forall id state status duration code f s', stored c m k (Some (o, data)) s' -> (forall b, rb_status (f b) = rb_status b) ->
      wp (calm_while clk) (replacing c k (strip_data o) (set_lease_state id state status duration (strip_data o)) (b ← azure_response code; mret (empty (f b))))
        (redescribing c m k data (at_least until)) fine never s') as Hset.
    { intros. eapply wp_redescribes; [done..|]. by apply Hkept, locked_lease. }
    destruct (eqb _ "acquire"); [|destruct (eqb _ "renew"); [|destruct (eqb _ "release"); [|destruct (eqb _ "break")]]];
      [|unfold unless; destruct (ensure_lease_allows req _); [by eapply wp_keeps|]..| |by eapply wp_keeps].
    + unfold acquire_lease. destruct (has_active_lease _); [by eapply wp_keeps|]. apply wp_bind.
      destruct (header req "x-ms-proposed-lease-id"); [apply wp_ret|apply wp_new_uuid; intros u _]; (apply Hset; [done|intros; apply with_header_status]).
    + eapply wp_redescribes; [done|intros; apply with_header_status|by apply Hkept].
    + by apply (Hset None "available" "unlocked" None 200%N id).
    + destruct (negb _); [by eapply wp_keeps|]. apply Hset; [done|intros; apply with_header_status].
Qed.

(** C15 [locked_policy_only_extended]. A locked immutability policy can only
    grow: along any sequence of policy, legal hold and lease requests the
    policy of a blob stays Locked, its date never moves back and the bytes of
    the blob stay, whatever the clock and the requests are. *)
Theorem locked_policy_only_extended (requests : list (protection_request * Request)) c m k o data until :
  locked o until ->
  runs (stored c m k (Some (o, data))) (for_each (fun r => protect r.1 r.2 c k;; mret tt) requests)
    (fun r s => r = Ok tt /\ exists o' until', stored c m k (Some (o', data)) s /\ locked o' until' /\ (until <= until')%Z).
Proof.
  intros Hl clk s Hs.
  apply (wp_for_each _ _ (fun _ s' => exists o' until', stored c m k (Some (o', data)) s' /\ locked o' until' /\ (until <= until')%Z)).
  - by exists o, until.
  - intros [a req] rest s' (o' & u & Hs' & Hl' & Hle). simpl. apply wp_bind.
    eapply wp_mono; [by eapply wp_protect|..|by intros ? ? []|done]. cbn beta. intros resp s2 (o2 & Hs2 & u2 & Hl2 & Hle2).
    apply wp_ret. exists o2, u2. split_and!; [done..|lia].
  - intros s' Hs'. by split.
Qed.
End Policies.

(** ** Protection *)

(** The requests that change or remove a blob. *)
Definition changes_blob `{HttpLib} (req : Request) : bool :=
  negb (has_query_param req "versionid") && negb (has_query_param req "snapshot") &&
  (eqb (rq_method req) "DELETE" && eqb (query_param req "comp") None ||
   eqb (rq_method req) "PUT" &&
   existsb (eqb (query_param req "comp")) [None; Some "blocklist"; Some "metadata"; Some "appendblock"; Some "page"]).

(** A refusal is an error. *)
Definition serious (r : refusal_of) : Prop := (400 <= r.1.1)%N.

Section Protection.
Context `{HttpLaws} `{HelperEnv} `{Chrono} `{PayloadDigests} `{AzureEnv} `{Env} `{QuickXml} `{BlockXml} `{BlockCodecs} `{SigningEnv} `{HashOrder}.
Context {S : Type} `{AzurePlain S}.
Variables (req : Request) (c : string) (m : strmap) (k : string) (o : Object) (data : bytes) (clk : time -> Prop).
Abbreviation never := (fun _ : S => False).
Abbreviation fine := (fun (_ : Error) (_ : S) => False).

(** The answer is an error and the blob is what it was. *)
Definition refused (p : io S Response) : Prop :=
  forall s, stored c m k (Some (o, data)) s ->
    wp (calm_while clk) p (fun resp s' => stored c m k (Some (o, data)) s' /\ (400 <= rs_status resp)%N) fine never s.

Lemma serious_allow t b r : ensure_mutation_allowed t req b = Some r -> serious r.
Proof.
  unfold ensure_mutation_allowed. destruct (is_immutable t b); [by intros [= <-]|]. intros Hr. apply lease_refusal in Hr as [Hr _].
  unfold serious. by rewrite Hr.
Qed.

Lemma serious_checksum r : validate_transactional_checksum req = Some r -> serious r.
Proof. unfold validate_transactional_checksum. repeat case_match; by intros [= <-]. Qed.

Lemma serious_store e : serious (store_refusal e).
Proof. by destruct e. Qed.

Lemma refused_decline r : serious r -> refused (decline r).
Proof. intros Hr s Hs. apply wp_decline. intros resp Hst. split; [done|]. by rewrite Hst. Qed.

Lemma refused_unless r p : (forall x, r = Some x -> serious x) -> refused p -> refused (unless r p).
Proof. intros Hr Hp. unfold unless. destruct r as [x|]; [by apply refused_decline, Hr|done]. Qed.

(** What protects the blob from the request while the clock shows [clk]: a legal
    hold, a policy whose date has not come, or a lease the request does not name. *)
Inductive shielded : Prop :=
| by_legal_hold : has_legal_hold o = true -> shielded
| by_policy mode until : provider_value o AZURE_IMMUTABILITY_MODE_KEY = Some mode -> mode ∈ ["Unlocked"; "Locked"] ->
    retention_until o = Some until -> (forall t, clk t -> (t < until)%Z) -> shielded
| by_lease id : holder o = Some id -> header req "x-ms-lease-id" <> Some id -> shielded.

Hypothesis shield : shielded.

Lemma protected t : clk t -> is_some (ensure_mutation_allowed t req o) = true.
Proof.
  intros Ht. unfold ensure_mutation_allowed. destruct (is_immutable t o) eqn:Hi; [done|].
  unfold is_immutable in Hi. apply orb_false_iff in Hi as [Hhold Hpolicy]. destruct shield as [Hh|mode until Hmode Hin Hu Hc|id Hid Hne].
  - congruence.
  - rewrite Hmode, Hu in Hpolicy. pose proof Hu as Hv. unfold retention_until in Hv.
    destruct (provider_value o AZURE_IMMUTABILITY_UNTIL_KEY); [|done].
    rewrite (proj2 (Z.ltb_lt t until)) in Hpolicy by auto.
    rewrite !elem_of_cons, elem_of_nil in Hin. by destruct Hin as [->|[->|[]]].
  - destruct (ensure_lease_allows req o) eqn:Ha; [done|]. apply lease_allowed in Ha as [Ha|Ha]; congruence.
Qed.

Lemma refused_when_mutable b p : o_provider_metadata b = o_provider_metadata o -> refused (when_mutable req b p).
Proof.
  intros Hb s Hs. apply wp_bind, wp_clock. intros t Ht. revert s Hs. unfold unless.
  assert (ensure_mutation_allowed t req b = ensure_mutation_allowed t req o) as ->.
  { unfold ensure_mutation_allowed, is_immutable, has_legal_hold, retention_until, ensure_lease_allows, has_active_lease, lease_status,
      lease_id, provider_value. by rewrite Hb. }
  pose proof (protected t Ht) as Hp. destruct (ensure_mutation_allowed t req o) as [r|] eqn:Hr; [|done].
  by apply refused_decline, (serious_allow t o).
Qed.

Lemma refused_bounded extra (f : Object -> io S Response) :
  (forall b, o_provider_metadata b = o_provider_metadata o -> refused (f b)) ->
  refused (found ← bounded_mutation_blob c k extra; match found with Err r => decline r | Ok b => f b end).
Proof.
  intros Hf s Hs. apply wp_bind, wp_bind. eapply wp_metadata; [exact Hs|]. intros s1 Hs1. simpl.
  destruct (within_limit (o_size o) extra); simpl; [|by apply wp_ret, refused_decline].
  destruct (N.eqb (o_size o) 0); [by apply wp_ret, Hf|].
  apply wp_bind. eapply wp_runs; [apply plain_range|exact Hs1|]. intros r s2 [Hs2 ->]. simpl.
  destruct (resolve_range _ _ _) as [[from len]|e]; [|by apply wp_ret, refused_decline; [apply serious_store|]].
  simpl. destruct (within_limit (o_size o) extra); simpl; [by apply wp_ret, Hf|by apply wp_ret, refused_decline].
Qed.

Lemma refused_metadata : refused (update_metadata req c k).
Proof. apply refused_bounded. intros b Hb. by apply refused_when_mutable. Qed.

Lemma refused_append : refused (append_block req c k).
Proof.
  unfold append_block. destruct (_ <? _)%N; [by apply refused_decline|]. apply refused_unless; [apply serious_checksum|].
  apply refused_bounded. intros b Hb. by apply refused_when_mutable.
Qed.

Lemma refused_page : refused (put_page req c k).
Proof.
  unfold put_page. destruct (header req _) as [w|]; [|by apply refused_decline]. destruct (negb _); [by apply refused_decline|].
  destruct (_ ≫= _) as [[start stop]|]; [|by apply refused_decline]. destruct (negb _); [by apply refused_decline|].
  destruct (_ <? _)%N; [by apply refused_decline|]. apply refused_unless; [apply serious_checksum|].
  apply refused_bounded. intros b Hb. by apply refused_when_mutable.
Qed.

(** *** At the adapter *)

Abbreviation Adapter := (AzureAdapter S).

(** The answer is an error, and the blob and the blocks of the adapter are what they were. *)
Definition refused_at (p : io Adapter Response) : Prop :=
  forall a, stored c m k (Some (o, data)) (ad_store a) ->
    wp (calm_while clk) p (fun resp a' => ad_block_sessions a' = ad_block_sessions a /\ ad_committed_blocks a' = ad_committed_blocks a /\
      stored c m k (Some (o, data)) (ad_store a') /\ (400 <= rs_status resp)%N) (fun _ _ => False) (fun _ => False) a.

Lemma refused_at_decline r : serious r -> refused_at (decline r).
Proof. intros Hr a Ha. apply wp_decline. intros resp Hst. rewrite Hst. by split_and!. Qed.

Lemma refused_at_unless r p : (forall x, r = Some x -> serious x) -> refused_at p -> refused_at (unless r p).
Proof. intros Hr Hp. unfold unless. destruct r as [x|]; [by apply refused_at_decline, Hr|done]. Qed.

Lemma refused_at_store p : refused p -> refused_at (on_store p).
Proof.
  intros Hp a Ha. apply wp_zoom. eapply wp_mono; [exact (Hp _ Ha)|..|done|done]. cbn beta. intros resp s' [Hs' Hst]. by split_and!.
Qed.

(** A look at the store, then the rest. *)
Lemma refused_at_after {A} (p : io S A) (R : A -> Prop) (f : A -> io Adapter Response) :
  (forall s, stored c m k (Some (o, data)) s -> wp (calm_while clk) p (fun x s' => stored c m k (Some (o, data)) s' /\ R x) fine never s) ->
  (forall x, R x -> refused_at (f x)) -> refused_at (x ← on_store p; f x).
Proof.
  intros Hp Hf a Ha. apply wp_bind, wp_zoom. eapply wp_mono; [exact (Hp _ Ha)|..|done|done]. cbn beta.
  intros x s' [Hs' HR]. exact (Hf x HR (mkAdapter (ad_block_sessions a) (ad_committed_blocks a) s') Hs').
Qed.

(** The checks of an overwrite: without versioning they are those of a mutation. *)
Lemma wp_overwrite_check {A} (g : option refusal_of -> result refusal_of A) (s : S) :
  (forall r, g (Some r) = Err r) -> stored c m k (Some (o, data)) s ->
  wp (calm_while clk) (bucket ← st_get_bucket c; t ← now; t' ← now;
           mret (g (ensure_version_creating_overwrite_allowed t t' req (strip_data o) (azure_versioning_enabled bucket))))
    (fun x s' => stored c m k (Some (o, data)) s' /\ exists r, x = Err r /\ serious r) fine never s.
Proof.
  intros Hg Hs. apply wp_bind. eapply wp_mono; [exact (plain_bucket c m k _ clk s Hs)|..|by intros e s' [_ (? & ? & _)]|done].
  cbn beta. intros bk s' [Hs' (bk' & [= <-] & Hv & _)]. apply wp_bind, wp_now. intros t0. apply wp_bind, wp_clock. intros t Ht. apply wp_ret. split; [done|].
  unfold azure_versioning_enabled, ensure_version_creating_overwrite_allowed. rewrite Hv, !andb_false_r.
  change (ensure_mutation_allowed t req (strip_data o)) with (ensure_mutation_allowed t req o).
  pose proof (protected t Ht) as Hp. destruct (ensure_mutation_allowed t req o) as [r|] eqn:Hr; [|done].
  exists r. split; [by rewrite Hg|by eapply serious_allow].
Qed.

Lemma refused_put_blob account : refused_at (put_blob req account c k None).
Proof.
  apply (refused_at_after _ (fun x => exists r, x = Err r /\ serious r)).
  - intros s Hs. apply wp_bind. eapply wp_metadata; [exact Hs|]. intros s1 Hs1. simpl.
    by apply (wp_overwrite_check (fun x => match x with Some r => Err r | None => Ok (Some (strip_data o)) end)).
  - intros x (r & -> & Hr). by apply refused_at_decline.
Qed.

Lemma serious_condition r : write_condition req = Err r -> serious r.
Proof. unfold write_condition. repeat case_match; by intros [= <-]. Qed.

Lemma refused_block_list account : refused_at (put_block_list req account c k).
Proof.
  unfold put_block_list. apply refused_at_unless; [apply serious_checksum|].
  destruct (Utf8.from_utf8 _) as [xml|]; [|by apply refused_at_decline].
  destruct (parse_block_list xml) as [references|[]]; [|by apply refused_at_decline..].
  destruct (Nat.ltb _ _); [by apply refused_at_decline|]. destruct (negb _); [by apply refused_at_decline|].
  destruct (write_condition req) as [condition|r] eqn:Hc; [|by apply refused_at_decline, serious_condition].
  apply (refused_at_after _ (fun x => exists r, x = Err r /\ serious r)); [|by intros x (r & -> & Hr); apply refused_at_decline].
  intros s Hs. apply wp_bind. eapply wp_metadata; [exact Hs|]. intros s1 Hs1. simpl.
  by apply (wp_overwrite_check (fun x => match x with
    | Some r => Err r
    | None => if negb (conditions_match_blob req (strip_data o)) then Err condition_failed
              else if negb (eqb (blob_type (strip_data o)) "BlockBlob")
              then Err (400%N, "InvalidBlobType", "The operation is not supported for this blob type.")
              else Ok (Etag (o_etag (strip_data o)), Some (strip_data o))
    end)).
Qed.

Lemma refused_delete pages account : query_param req "versionid" = None -> refused_at (delete_blob pages req account c k None).
Proof.
  intros Hv. unfold delete_blob. rewrite Hv.
  apply (refused_at_after _ (fun x => x = Some (strip_data o))).
  { intros s Hs. eapply wp_find; [exact Hs|]. intros s1 Hs1. by split. }
  intros x -> a Ha. apply wp_bind, wp_clock. intros t Ht. revert a Ha. unfold unless.
  change (ensure_mutation_allowed t req (strip_data o)) with (ensure_mutation_allowed t req o).
  pose proof (protected t Ht) as Hp. destruct (ensure_mutation_allowed t req o) as [r|] eqn:Hr; [|done].
  by apply refused_at_decline, (serious_allow t o).
Qed.

Lemma serious_permission required blob_exists (r : refusal_of) :
  match required_permissions req blob_exists with
  | Some ps => if existsb (fun p => Text.contains required p) ps then None
               else Some (SAS_DENIED "SAS token does not grant the permission required by this operation.")
  | None => Some (SAS_DENIED "SAS token does not permit this operation.")
  end = Some r -> serious r.
Proof. destruct (required_permissions _ _); [destruct (existsb _ _)|]; by intros [= <-]. Qed.

(** A signature that lacks the permission is an error too. *)
Lemma wp_authorize_sas account (s : S) : stored c m k (Some (o, data)) s ->
  wp (calm_while clk) (authorize_sas_operation req (mkResource account (Some c) (Some k)))
    (fun x s' => stored c m k (Some (o, data)) s' /\ forall r, x = Some r -> serious r) fine never s.
Proof.
  intros Hs. unfold authorize_sas_operation. destruct (negb _); [by apply wp_ret|]. cbn [ar_blob ar_container default].
  destruct (eqb (query_param req "restype") _).
  { apply wp_ret. split; [done|]. intros r. repeat case_match; by intros [= <-]. }
  apply wp_bind. eapply wp_runs; [apply plain_exists|exact Hs|]. intros x s' [Hs' ->]. apply wp_ret. split; [done|].
  intros r. apply serious_permission.
Qed.

(** C7 [protected_blob_unchanged]. In a container without versioning and
    without storage faults, a blob under a legal hold, under an immutability
    policy (locked or not) whose date lies after every clock reading of the
    request, or under a lease the request does not name survives every request
    that would change it: DELETE, Put Blob, Put Block List, Set Metadata,
    Append Block and Put Page of the blob each answer an error, and the blob,
    its bytes and the cached blocks are as before. *)
Theorem protected_blob_unchanged pages account :
  changes_blob req = true -> refused_at (handle_blob_request pages req (mkResource account (Some c) (Some k)) c k).
Proof.
  intros Hc. unfold changes_blob in Hc. rewrite !andb_true_iff, !negb_true_iff in Hc. destruct Hc as [[Hv Hs] Hc].
  assert (query_param req "versionid" = None /\ query_param req "snapshot" = None) as [Hv' Hs'].
  { unfold has_query_param in Hv, Hs. by destruct (query_param req "versionid"), (query_param req "snapshot"). }
  unfold handle_blob_request, unsupported_selected_mutation. rewrite Hv, Hs. cbn [negb andb unless]. cbv zeta.
  destruct (eqb (rq_method req) "PUT" && is_some (header req "x-ms-copy-source")); [by apply refused_at_decline|].
  apply (refused_at_after _ (fun x => forall r, x = Some r -> serious r)); [by apply wp_authorize_sas|].
  intros denied Hd. apply refused_at_unless; [done|]. unfold handle_blob_comp_request, handle_blob_crud. rewrite Hs'. cbn [is_some andb].
  apply orb_true_iff in Hc as [[Hm Hq]%andb_true_iff|[Hm Hq]%andb_true_iff]; apply (proj1 (eqb_true _ _)) in Hm; rewrite Hm.
  - apply (proj1 (eqb_true _ _)) in Hq. rewrite Hq. by apply refused_delete.
  - apply existsb_exists in Hq as (comp & Hin & Hq). apply (proj1 (eqb_true _ _)) in Hq. rewrite Hq.
    destruct Hin as [<-|[<-|[<-|[<-|[<-|[]]]]]].
    + apply refused_put_blob.
    + apply refused_block_list.
    + by apply refused_at_store, refused_metadata.
    + by apply refused_at_store, refused_append.
    + by apply refused_at_store, refused_page.
Qed.
End Protection.

(** ** Pages *)

Lemma overwrite_length start page data : N.to_nat start + length page <= length data -> length (overwrite start page data) = length data.
Proof. intros Hl. unfold overwrite. rewrite !length_app, length_take, length_drop. lia. Qed.

Lemma overwrite_lookup start page data i : N.to_nat start + length page <= length data ->
  overwrite start page data !! i =
  if decide (N.to_nat start <= i < N.to_nat start + length page) then page !! (i - N.to_nat start) else data !! i.
Proof.
  intros Hl. unfold overwrite, bytes in *. assert (length (take (N.to_nat start) data) = N.to_nat start) as Ht by (rewrite length_take; lia).
  case_decide as Hi.
  - rewrite lookup_app_r, Ht by lia. by rewrite lookup_app_l by lia.
  - destruct (decide (i < N.to_nat start)).
    + rewrite lookup_app_l by lia. by apply lookup_take_lt.
    + rewrite lookup_app_r, Ht, lookup_app_r, lookup_drop by lia. f_equal. lia.
Qed.

Section Pages.
Context `{HttpLaws} `{HelperEnv} `{Chrono} `{PayloadDigests} `{AzureEnv} `{Env}.
Context {S : Type} `{AzurePlain S}.
Abbreviation never := (fun _ : S => False).
Abbreviation fine := (fun (_ : Error) (_ : S) => False).

(** A blob within the limit is read whole. *)
Lemma wp_bounded {clk} c m k o data extra Q (s : S) :
  stored c m k (Some (o, data)) s -> within_limit (size_of data) extra = true ->
  (forall s', stored c m k (Some (o, data)) s' -> Q (Ok (with_data data o)) s') ->
  wp (calm_while clk) (bounded_mutation_blob c k extra) Q fine never s.
Proof.
  intros Hs Hl HQ. pose proof (stored_size _ _ _ _ _ _ Hs) as Hsize. apply wp_bind. eapply wp_metadata; [exact Hs|]. intros s1 Hs1.
  cbn [shown lookup_result fmap option_fmap option_map compose fst]. change (o_size (strip_data o)) with (o_size o).
  rewrite Hsize, Hl. cbn [negb]. destruct (N.eqb_spec (size_of data) 0) as [H0'|Hne].
  { apply wp_ret. replace (strip_data o) with (with_data data o); [by apply HQ|]. unfold strip_data. f_equal. by destruct data. }
  apply wp_bind. eapply wp_runs; [apply plain_range|exact Hs1|]. intros r s2 [Hs2 ->]. unfold range_of.
  assert (size_of data <= AZURE_MAX_MATERIALIZED_MUTATION_BYTES)%N as Hmax.
  { unfold within_limit, checked_add_u64 in Hl. case_match eqn:E; [|done]. repeat case_match; simplify_eq. apply N.leb_le in Hl. lia. }
  unfold resolve_range. rewrite (proj2 (N.leb_gt _ 0)) by lia. cbv zeta.
  rewrite (proj2 (N.ltb_ge _ 0)), N.min_r by lia. replace (size_of data - 1 - 0 + 1)%N with (size_of data) by lia.
  change (o_size (strip_data o)) with (o_size o). rewrite Hsize, Hl. cbn [negb].
  apply wp_ret. unfold size_of. rewrite Nat2N.id, drop_0, take_ge by done. by apply HQ.
Qed.

(** A publication over what was observed. *)
Lemma wp_publish_over {clk} c m k o data updated answer Q (s : S) :
  stored c m k (Some (o, data)) s -> o_size updated = size_of (o_data updated) ->
  (forall s' o', stored c m k (Some (o', o_data updated)) s' -> wp (calm_while clk) (answer (strip_data o')) Q fine never s') ->
  wp (calm_while clk) (publish_over c k (o_etag o) updated answer) Q fine never s.
Proof.
  intros Hs Hsize HQ. apply wp_bind. apply wp_bind, wp_uuid. intros n _. apply wp_ret. apply wp_bind, wp_now. intros t. apply wp_bind.
  set (u := with_identity_of _ _ _).
  eapply wp_mono; [exact (plain_put_if c m k _ u (Etag (o_etag o)) Hsize clk s Hs)|..|by intros ? ? [? _]|done].
  cbn beta. assert (satisfied (Etag (o_etag o)) (Some (strip_data o)) = true) as Hsat by apply eqb_refl.
  cbn [fmap option_fmap option_map compose fst]. rewrite Hsat. intros r s' [[= ->] Hs']. cbn [negb]. apply wp_bind.
  eapply wp_mono; [exact (plain_metadata c m k _ clk s' Hs')|..|by intros e ? [_ ?]|done].
  cbn beta. intros x s2 [Hs2 [= ->]]. by apply (HQ s2 (with_version_id None u)).
Qed.

(** A request for a page write that the blob allows. *)
Record page_request (req : Request) (o : Object) (data : bytes) (start stop : N) (page_write : string) : Prop := mkPageRequest {
  pr_write : header req "x-ms-page-write" = Some page_write;
  pr_range : requested_range req ≫= parse_write_range_header = Some (start, stop);
  pr_aligned : aligned_range start stop = true;
  pr_body : page_write = "update" /\ size_of (rq_body req) = (stop - start + 1)%N \/ page_write = "clear" /\ rq_body req = [];
  pr_payload : (payload_len req <= 4 * 1024 * 1024)%N;
  pr_checksum : validate_transactional_checksum req = None;
  pr_inside : (stop < size_of data)%N;
  pr_limit : (size_of data <= AZURE_MAX_MATERIALIZED_MUTATION_BYTES)%N;
  pr_allowed : forall t, ensure_mutation_allowed t req o = None;
  pr_conditions : conditions_match_blob req o = true;
  pr_type : blob_type o = "PageBlob" }.

Lemma write_range_order value start stop : parse_write_range_header value = Some (start, stop) -> (start <= stop)%N.
Proof.
  unfold parse_write_range_header. destruct (Text.strip_prefix _ _) as [range|]; simpl; [|done].
  destruct (Text.split_once _ _) as [[a b]|]; simpl; [|done]. destruct (Text.parse_u64 a) as [x|]; simpl; [|done].
  destruct (Text.parse_u64 b) as [y|]; simpl; [|done]. destruct (N.ltb_spec y x); [done|]. by intros [= <- <-].
Qed.

Lemma page_order req o data start stop w : page_request req o data start stop w -> (start <= stop)%N.
Proof.
  intros Hr. pose proof (pr_range _ _ _ _ _ _ Hr) as Hp. destruct (requested_range req) as [v|]; [|done]. by eapply write_range_order.
Qed.

Lemma page_bytes_size req o data start stop w : page_request req o data start stop w ->
  size_of (page_bytes req w start stop) = (stop - start + 1)%N.
Proof.
  intros Hr. unfold page_bytes. destruct (pr_body _ _ _ _ _ _ Hr) as [[-> Hb]|[-> _]]; [done|].
  rewrite eqb_refl. unfold size_of. rewrite length_replicate. lia.
Qed.

Definition written_page (req : Request) (page_write : string) (start stop : N) (i : nat) : option byte :=
  if eqb page_write "clear" then Some x00 else rq_body req !! (i - N.to_nat start).

Lemma page_within req o data start stop w : page_request req o data start stop w -> within_limit (size_of data) 0 = true.
Proof.
  intros Hr. pose proof (pr_limit _ _ _ _ _ _ Hr) as Hm. unfold within_limit, checked_add_u64, AZURE_MAX_MATERIALIZED_MUTATION_BYTES, U64_MAX in *.
  rewrite bool_decide_eq_true_2 by lia. apply N.leb_le. lia.
Qed.

Lemma page_valid req o data start stop w : page_request req o data start stop w ->
  validate_page_write req (with_data data o) start stop w = None.
Proof.
  intros Hr. unfold validate_page_write. cbn [o_data with_data]. rewrite (proj2 (N.leb_gt _ _) (pr_inside _ _ _ _ _ _ Hr)).
  destruct (pr_body _ _ _ _ _ _ Hr) as [[-> Hb]|[-> Hb]]; [by rewrite Hb, N.eqb_refl|by rewrite Hb].
Qed.

Lemma page_lookup req o data start stop w i : page_request req o data start stop w -> N.to_nat start <= i <= N.to_nat stop ->
  page_bytes req w start stop !! (i - N.to_nat start) = written_page req w start stop i.
Proof.
  intros Hr Hi. unfold page_bytes, written_page, bytes in *. destruct (pr_body _ _ _ _ _ _ Hr) as [[-> Hb]|[-> _]]; [done|].
  rewrite eqb_refl. apply lookup_replicate_2. lia.
Qed.

(** C27 [page_write_exact]. An accepted page write changes exactly its pages:
    put_page answers 201, keeps the length of the blob, writes the body (or
    zeroes for a clear) at the bytes of the range and leaves every other byte
    as it was. *)
Theorem page_write_exact req c m k o data start stop page_write :
  page_request req o data start stop page_write ->
  runs (stored c m k (Some (o, data))) (put_page req c k)
    (fun r s => exists resp o' data', r = Ok resp /\ rs_status resp = 201%N /\ stored c m k (Some (o', data')) s /\
       length data' = length data /\
       forall i, data' !! i = if decide (N.to_nat start <= i <= N.to_nat stop) then written_page req page_write start stop i else data !! i).
Proof.
  intros Hr clk s Hs. pose proof (page_order _ _ _ _ _ _ Hr) as Hord. pose proof (page_bytes_size _ _ _ _ _ _ Hr) as Hlen.
  pose proof (pr_inside _ _ _ _ _ _ Hr) as Hin. pose proof (pr_body _ _ _ _ _ _ Hr) as Hbody.
  set (page := page_bytes req page_write start stop) in *. unfold size_of in Hlen, Hin.
  assert (N.to_nat start + length page <= length data) as Hfit by lia.
  eapply wp_mono with (E := fine) (C := never); [|intros resp s' Hq; exact Hq|by intros ? ? []|done].
  unfold put_page. rewrite (pr_write _ _ _ _ _ _ Hr).
  assert (negb (eqb page_write "update" || eqb page_write "clear") = false) as -> by by destruct Hbody as [[-> _]|[-> _]].
  rewrite (pr_range _ _ _ _ _ _ Hr), (pr_aligned _ _ _ _ _ _ Hr). cbn [negb].
  rewrite (proj2 (N.ltb_ge _ _) (pr_payload _ _ _ _ _ _ Hr)), (pr_checksum _ _ _ _ _ _ Hr). cbn [unless].
  apply wp_bind. eapply wp_bounded; [exact Hs|by eapply page_within|intros s1 Hs1].
  apply wp_bind, wp_now. intros t. change (ensure_mutation_allowed t req (with_data data o)) with (ensure_mutation_allowed t req o).
  rewrite (pr_allowed _ _ _ _ _ _ Hr). cbn [unless]. unfold when_matching.
  change (conditions_match_blob req (with_data data o)) with (conditions_match_blob req o).
  change (blob_type (with_data data o)) with (blob_type o).
  rewrite (pr_conditions _ _ _ _ _ _ Hr), (pr_type _ _ _ _ _ _ Hr), eqb_refl. cbn [negb].
  rewrite (page_valid _ _ _ _ _ _ Hr). cbn [unless]. change (o_etag (with_data data o)) with (o_etag o).
  eapply wp_publish_over; [exact Hs1| |].
  { cbn [o_size with_data o_data]. rewrite (stored_size _ _ _ _ _ _ Hs1). unfold size_of. by rewrite overwrite_length. }
  cbn [o_data with_data]. intros s2 o' Hs2. apply wp_bind, wp_azure_response. intros b Hb. apply wp_ret.
  eexists _, o', _. split_and!; [done| |exact Hs2|by apply overwrite_length|].
  { simpl. unfold with_identity. by rewrite !with_header_status. }
  intros i. rewrite overwrite_lookup by done. fold page. repeat case_decide; [by eapply page_lookup|lia..|done].
Qed.
End Pages.

(** * The theorems at concrete requests *)

Module Blobs.

#[local] Existing Instances list_headers list_headers_laws plain_helpers plain_digests no_xml listed numbered_dates.

(** Only one format has dates: numbers. *)
#[local] Instance numbers_as_dates : Chrono := {|
  parse_date _ := None;
  parse_rfc3339 _ := None;
  parse_rfc2822 s := Z.of_N <$> Text.parse_u64 s |}.

Lemma numbers_apart s t : parse_rfc2822 s = Some t -> parse_rfc3339 s = None.
Proof. done. Qed.

#[local] Instance small_azure : AzureEnv := {|
  simple_uuid n := pretty n;
  base64_url_no_pad := hex_text;
  format_micros t := pretty t;
  le_bytes n _ := repeat x00 n;
  valid_date s := is_some (Text.parse_u64 s);
  lowercase := Text.to_ascii_lowercase |}.

#[local] Instance no_block_xml : BlockXml := {| block_events _ := [] |}.

#[local] Instance staged_eq_dec : EqDecision AzureStagedBlock.
Proof. solve_decision. Defined.
#[local] Instance staged_countable : Countable AzureStagedBlock.
Proof. refine (inj_countable' (fun b => (sb_item b, sb_size b)) (fun '(i, n) => mkStagedBlock i n) _). by intros []. Defined.
#[local] Instance session_eq_dec : EqDecision AzureBlockSession.
Proof. solve_decision. Defined.
#[local] Instance session_countable : Countable AzureBlockSession.
Proof.
  refine (inj_countable' (fun s => (bs_blocks s, bs_content_type s, bs_metadata s)) (fun '(b, t, m) => mkBlockSession b t m) _). by intros [].
Defined.
#[local] Instance committed_eq_dec : EqDecision AzureCommittedBlock.
Proof. solve_decision. Defined.
#[local] Instance committed_countable : Countable AzureCommittedBlock.
Proof. refine (inj_countable' (fun b => (cb_id b, cb_item b, cb_size b)) (fun '(i, t, n) => mkCommittedBlock i t n) _). by intros []. Defined.
#[local] Instance small_codecs : BlockCodecs := {| session_codec := countable_codec; committed_codec := countable_codec |}.

Definition blob (provider : strmap) : Object := with_provider_metadata provider text.
Definition asking (method : string) (headers : list (string * string)) (comp : option string) : Request :=
  mkRequest method "/account/photos/cat.txt" None headers [] (match comp with Some v => {["comp" := v]} | None => ∅ end) None.

Lemma blob_stored provider : stored photos ∅ cat (put_pair (blob provider)) (stock (blob provider)).
Proof. by apply stock_stored. Qed.

(** A run without failure, as an equation. *)
Lemma ran {A} (P : Store -> Prop) (p : io Store A) (Q : Res A -> Store -> Prop) n (s : Store) :
  runs P p Q -> P s -> (forall e s', ~ Q (Err e) s') -> exists a s' σ', p (quiet n) s = (Done a, s', σ') /\ Q (Ok a) s'.
Proof.
  intros Hp Hs HE. apply wp_calm_run; [|apply quiet_calm]. eapply wp_mono; [exact (Hp _ s Hs)|done|by intros e s' Hq; destruct (HE e s')|done].
Qed.

Definition leased : Object := blob {[AZURE_LEASE_ID_KEY := "A"; AZURE_LEASE_STATUS_KEY := "locked"]}.
Definition renewal : Request := asking "PUT" [("x-ms-lease-action", "renew"); ("x-ms-lease-id", "B")] (Some "lease").

Lemma lease_of_another id given proposed status held : given <> Some id ->
  lease_action (Some id) "renew" given proposed status held -> status = 412%N /\ held = Some id.
Proof. intros Hne Hl. inversion Hl; subst; destruct_or?; first [done|congruence|set_solver]. Qed.

(** Another client cannot renew the lease of [A]. *)
Lemma lease_actions_refine_mutex_witness :
  exists resp s' σ' o', handle_lease renewal photos cat (quiet 300) (stock leased) = (Done resp, s', σ') /\
    stored photos ∅ cat (Some (o', o_data leased)) s' /\ rs_status resp = 412%N /\ holder o' = Some "A".
Proof.
  destruct (ran _ _ _ 300 (stock leased)
    (lease_actions_refine_mutex renewal photos ∅ cat (with_version_id None leased) (o_data leased) eq_refl)
    (blob_stored _)) as (r & s' & σ' & Hrun & resp & o' & [= <-] & Hs & Hl); [by intros e s' (? & ? & ? & _)|].
  exists r, s', σ', o'. split; [exact Hrun|]. split; [exact Hs|].
  change (lease_action (Some "A") "renew" (Some "B") None (rs_status r) (holder o')) in Hl. by apply lease_of_another in Hl.
Defined.

Definition worm : Object := blob {[AZURE_IMMUTABILITY_MODE_KEY := "Locked"; AZURE_IMMUTABILITY_UNTIL_KEY := "50"]}.
Definition policy (until mode : string) : Request :=
  asking "PUT" [("x-ms-immutability-policy-until-date", until); ("x-ms-immutability-policy-mode", mode)] (Some "immutabilityPolicies").

(** Unlocked, shortened, deleted, extended: only the last changes the policy. *)
Definition attempts : list (protection_request * Request) :=
  [(SetPolicy, policy "90" "Unlocked"); (SetPolicy, policy "40" "Locked"); (DropPolicy, asking "DELETE" [] (Some "immutabilityPolicies"));
   (SetPolicy, policy "70" "Locked")].
Definition attempted : Store := run (for_each (fun r => protect r.1 r.2 photos cat;; mret tt) attempts) 300 (stock worm).

Lemma locked_policy_only_extended_witness :
  retention_until <$> match (get_object_metadata photos cat (quiet 900) attempted).1.1 with Done o => Some o | _ => None end = Some (Some 70%Z) /\
  exists o' until', stored photos ∅ cat (Some (o', o_data worm)) attempted /\ locked o' until' /\ (50 <= until')%Z.
Proof.
  split; [apply (proj1 (eqb_true _ _)); vm_compute; reflexivity|].
  destruct (ran _ _ _ 300 (stock worm) (locked_policy_only_extended numbers_apart attempts photos ∅ cat (with_version_id None worm) (o_data worm)
    50%Z (conj eq_refl eq_refl)) (blob_stored _)) as (r & s' & σ' & Hrun & _ & Hk); [by intros e s' [? _]|].
  replace attempted with s'; [exact Hk|]. unfold attempted, run. by rewrite Hrun.
Defined.

(** The blob [worm] may not be changed before 50; a removal asks while the clock shows less. *)
Definition removal : Request := asking "DELETE" [("x-ms-delete-snapshots", "include")] None.
Definition before_50 (t : time) : Prop := (t < 50)%Z.

Lemma worm_shielded : shielded removal (with_version_id None worm) before_50.
Proof. apply (by_policy _ _ _ "Locked" 50%Z); [reflexivity|set_solver|reflexivity|done]. Qed.

Lemma quiet_before n : sched_ok (calm_while before_50) (quiet n).
Proof. split; [apply quiet_calm|]. split; [done|]. by intros i. Qed.

Lemma protected_blob_unchanged_witness :
  exists resp a' σ', handle_blob_request 5 removal (mkResource "account" (Some photos) (Some cat)) photos cat (quiet 300)
      (mkAdapter ∅ ∅ (stock worm)) = (Done resp, a', σ') /\
    stored photos ∅ cat (put_pair worm) (ad_store a') /\ (400 <= rs_status resp)%N.
Proof.
  destruct (wp_while_run before_50 _ _ (mkAdapter ∅ ∅ (stock worm)) (quiet 300)
    (protected_blob_unchanged removal photos ∅ cat (with_version_id None worm) (o_data worm) before_50 worm_shielded 5 "account" eq_refl
      (mkAdapter ∅ ∅ (stock worm)) (blob_stored _)) (quiet_before _)) as (resp & a' & σ' & Hrun & _ & _ & Hs & Hst).
  exists resp, a', σ'. split; [exact Hrun|]. split; [exact Hs|exact Hst].
Defined.

(** Two pages of the letter a; the first is cleared. *)
Definition pages : Object :=
  with_provider_metadata {[AZURE_BLOB_TYPE_KEY := "PageBlob"]}
    (with_size 1024 (with_data (replicate 1024 "a"%byte) text)).
Definition clearing : Request := asking "PUT" [("x-ms-page-write", "clear"); ("x-ms-range", "bytes=0-511")] (Some "page").

Lemma clearing_allowed : page_request clearing (with_version_id None pages) (o_data pages) 0%N 511%N "clear".
Proof.
  split; try (vm_compute; reflexivity); [by right|vm_compute; congruence..].
Qed.

Lemma pages_stored : stored photos ∅ cat (Some (with_version_id None pages, o_data pages)) (stock pages).
Proof. apply (stock_stored pages). vm_compute. reflexivity. Qed.

Lemma page_write_exact_witness :
  exists resp s' σ' o' data', put_page clearing photos cat (quiet 300) (stock pages) = (Done resp, s', σ') /\
    stored photos ∅ cat (Some (o', data')) s' /\ rs_status resp = 201%N /\
    data' !! 511 = Some x00 /\ data' !! 512 = Some "a"%byte.
Proof.
  destruct (ran _ _ _ 300 (stock pages) (page_write_exact clearing photos ∅ cat (with_version_id None pages) (o_data pages) 0%N 511%N "clear" clearing_allowed)
    pages_stored) as (r & s' & σ' & Hrun & resp & o' & data' & [= <-] & Hst & Hs & _ & Hi);
    [by intros e s' (? & ? & ? & ? & _)|].
  exists r, s', σ', o', data'. split_and!; [exact Hrun|exact Hs|exact Hst|rewrite Hi; reflexivity|rewrite Hi; reflexivity].
Defined.
End Blobs.
